(* ===== verification/_CoqProject ===== *)
-Q . S2P
Prelude.v
Riscv.v
Proc.v
Sched.v
UserMem.v
Pipe.v
PipeRing.v
PipeProg.v
PipeRun.v
PipeSys.v
PipeWake.v
Mem.v
CString.v
Kalloc.v
Vm.v
VmInv.v
VmMap.v
Uvm.v
Spinlock.v
Bio.v
Log.v
LogSpec.v
LogCrash.v
Buf.v
LogDisk.v
LogTx.v
Uart.v
Printf.v
PrintLock.v
Console.v
ConsoleSpec.v
Fs.v
FsLaws.v
FsAlloc.v
Dinode.v
Dir.v
Itable.v
IRefs.v
PathSpec.v
Content.v
ContentSpec.v
ReadSpec.v
DirSpec.v
DirLink.v
FsExample.v
File.v
FileInv.v
FileSpec.v
FsCrash.v
Sysfile.v
SysSpec.v
SysFiles.v
SysCalls.v
Balance.v
SysLocks.v
SysExample.v
Sleeplock.v
ProcLife.v
ProcWait.v
Switch.v
Csr.v
Boot.v
Asm.v
AsmSpec.v
Trap.v
TrapSpec.v
TrapAsm.v
TrapExample.v
Exec.v
ExecSpec.v
ExecExample.v
Sysproc.v
Mkfs.v
MkfsSpec.v
MkfsBoot.v
Virtio.v
VirtioInv.v
VirtioSteps.v
VirtioSpec.v
VirtioExample.v
