(* ===== verification/Prelude.v ===== *)
(** * Verification of the xv6 kernel with the multi-version pipe

    The program is the RISC-V teaching kernel xv6 whose pipe exists in eight
    versions, selected at build time by [PIPE_VERSION] ([src/kernel/pipe.c]),
    together with the tool that builds its file system image
    ([src/mkfs/mkfs.c]).  This library is a shallow embedding: C functions are
    Rocq functions on explicit states, functions that sleep or interleave are
    step functions whose program counters carry the C locals, and the kernel's
    concurrency is a step relation on top of them.

    ** The program

    User programs enter the kernel through [trampoline.S] and [trap.c];
    [syscall.c] dispatches to the calls of [sysproc.c] and [sysfile.c].  The
    former work on processes ([proc.c], [swtch.S]), the latter on open files
    ([file.c]), which are pipes ([pipe.c]), devices ([console.c], [uart.c]) or
    inodes ([fs.c]).  [fs.c] runs on the redo log ([log.c]), the log on the
    buffer cache ([bio.c]), the cache on the disk driver ([virtio_disk.c]).
    Processes have page tables ([vm.c]) built of pages of [kalloc.c];
    [exec.c] joins page tables and file system.  [spinlock.c] and
    [sleeplock.c] exclude, [start.c] and [main.c] boot.  [mkfs] writes the
    image the kernel mounts.

    ** Conventions

    - Integers are [Z] with the wrap-around of their width written out ([u8],
      [u16], [u32], [u64], [i32]).  Memory is a map from addresses to bytes.
    - [res A] is the result of a function that may panic ([Panic msg]) or not
      return within its fuel ([NoFuel]).  Fuel is chosen in the definition,
      and termination is proved where the loop is not structural: [namex] has
      one unit per character of the path ([namex_fuel]), the loops of
      [readi], [writei], [bmap] clients and [iappend] one unit per byte, the
      loops of [vm.c] and [exec.c] one unit per page or byte of the range,
      loops over a C string the length the caller supplies.  The theorems on
      whole calls of the pipe and the console, on [mappages], [balloc],
      [readi], [writei], [dirlookup], [dirlink], [mkfs], [sbrk] and [pause]
      state that a result is returned, or one of the panics they name, and never
      [NoFuel], not only what the result is.  Those on [namex]
      ([namex_balanced]), on the file system calls ([sys_refs_preserved],
      [sys_locks_released]) and on [exec] ([sys_exec_outcome],
      [sys_exec_refs]) are partial: they speak of the calls that return.
    - A critical section of a spin lock is one atomic step (that this is sound
      is what [Spinlock] shows of [acquire] and [release]); a function that
      gives a lock away in [sleep] is split at that point.
    - Sections take code outside [src/kernel] and [src/mkfs] (devices, the
      linker's symbols) and other components as parameters; the laws they
      assume have an instance in a file named [...Example] or in the witness.

    ** Files

    Machine and memory.  [Riscv]: pages and Sv39 addresses of [riscv.h],
    [memlayout.h].  [Csr]: its control registers, and [start.c].  [Mem]: byte
    memory.  [CString]: [string.c].  [Kalloc]: [kalloc.c].  [Vm]: [vm.c] and
    [proc_mapstacks]; [VmInv] the page-table invariant, [VmMap] the mapping
    specifications, [Uvm] the user memory of a process.  [UserMem]: the interface ([copyin], [copyout]) through
    which the pipe and the console see user memory.

    Processes.  [Proc]: the process table, [sleep], [wakeup], [kkill], the
    priority boost.  [Sched]: one turn of [scheduler] in both variants.
    [ProcLife]: [allocproc], [freeproc], [kfork], [kexit], [kwait],
    [growproc]; [ProcWait] the exit/wait protocol.  [Switch]: [mycpu],
    [myproc], [sched] and the hand-over of [p->lock] between CPUs, where the
    fork of an idle CPU stands for [userinit] and the wakeup by an idle CPU
    for an interrupt handler.  [Spinlock], [Sleeplock]: the locks.

    Pipe.  [Pipe]: [pipewrite] and [piperead], all bodies of all versions;
    [PipeRing] the ring with wrapping counters; [PipeProg] one step of each
    function; [PipeRun] whole calls; [PipeSys] any number of readers and
    writers; [PipeWake] sleeping and waking.

    Storage.  [Virtio]: [virtio_disk.c]; [VirtioInv],
    [VirtioSteps], [VirtioSpec], [VirtioExample] its protocol with the device.
    [Bio]: [bio.c].  [Log]: [log.c]; [LogSpec] its phases, [LogCrash]
    crashes.  [Buf]: the interface [BufOps]/[BufLaws] through which [fs.c]
    sees cache and log; [LogDisk] its instance on [Bio] and [Log], and [LogTx]
    transactions on that.  [Fs], [Dir]: [fs.c]; [FsLaws] the rules, [FsAlloc]
    the bitmap, [Dinode] inodes on disk, [Itable] and [IRefs] the inode
    table, [PathSpec] paths, [Content], [ContentSpec] and [ReadSpec] file
    contents, [DirSpec] and [DirLink] directories, [FsExample] a small disk,
    [FsCrash] a write that fits log and cache, with a crash at any point.  [Mkfs]:
    [mkfs.c]; [MkfsSpec] the image it writes, [MkfsBoot] the kernel reading
    that image.

    Files and devices.  [File]: [file.c], [pipealloc], [pipeclose]; [FileInv]
    and [FileSpec] who owns what.  [Uart], [Printf], [Console]: [uart.c],
    [printf.c] with [procdump], [console.c]; [PrintLock] concurrent calls of
    [printf] and [panic]; [ConsoleSpec] the line editor.

    System calls.  [Sysfile]: [sysfile.c]; [SysSpec],
    [SysFiles], [SysCalls] its reference counts; [Balance] and [SysLocks] its
    inode locks and transactions; [SysExample] a run.
    [Sysproc]: [sysproc.c].  [Exec]: [exec.c] and [sys_exec]; [ExecSpec],
    [ExecExample].  [Trap]: [trap.c], [plic.c] and the dispatch of
    [syscall.c]; [TrapSpec] its branches.  [Asm]: [trampoline.S],
    [kernelvec.S], [swtch.S], [entry.S] as instruction lists; [AsmSpec] what
    they save and restore; [TrapAsm] assembly and C composed; [TrapExample]
    runs.  [Boot]: [main.c] on every hart.

    ** Theorems

    - Pipe: bytes come out in the order they went in, under every
      interleaving, in all versions; whole calls are correct and lose no
      wakeup, except when a writer that holds the pipe's lock is killed in
      versions 5 to 8 ([lazy_wakeup_lost]); a pipe lives as long as a file
      refers to it.
    - Disk: the device may answer any status to any request; a request
      answered 0 is an atomic transfer, and the only panic of the driver is
      its status check on a request that failed.  The cache is coherent, a
      transaction survives a crash entirely or not at all.
    - File system: files are arrays of bytes, also when the memory a write
      comes from faults half way; directories are searched from the front and
      a name is found after [dirlink]; blocks are allocated once; a chunk of a
      write on the real log and cache panics nowhere and survives a crash
      entirely or not at all; references balance, locks are released and
      transactions closed on every branch of every call that returns; the
      image of [mkfs] is consistent, and the kernel finds in it the files
      [mkfs] was given.
    - Memory: pages are never shared by the allocator, [mappages] maps what
      was asked, [sbrk] grows and shrinks user memory as it reports, [exec]
      commits an image within bounds, at the entry point of the file, or
      changes nothing.
    - Processes: at most one CPU runs a process or holds a lock, interrupts
      are as they were after a switch, no [wait] misses a child, the
      assembly restores the registers, a system call returns to the
      instruction after [ecall], an interrupt to the one it interrupted.
    - Output and input: the console edits lines without touching what was
      committed; [printf] prints whole messages whatever the other CPUs print,
      until one panics; once a panic is over, each other CPU that was past
      its test of [panicked] still puts out the one byte it held.

    ** Not modelled

    The output under [PIPE_TRACE]; a trap that prints inside [printf] on the
    same CPU; what [mkfs] prints, its I/O errors and a big-endian host; the
    TLB and the write-any-read-legal fields of control registers (a fence is a
    no-op, [Csr] says what it assumes); the accessors of [riscv.h] that
    nothing calls; prototypes ([defs.h]), which have no behaviour.  The calls
    of the file system other than the write of a chunk are proved against
    [BufLaws], whose instance on log and cache is for one process at a time:
    two processes inside [fs.c] at once are excluded here by the locks of
    inodes and buffers, which the interface shows as a hang.  User programs
    are not in the repository. *)
From stdpp Require Export base tactics list numbers strings gmap.
From Stdlib Require Export ZArith Lia.

#[global] Open Scope Z_scope.

(** ** Machine integers

    C integers are kept as [Z] with the wrap-around written out: [u8], [u16],
    [u32] and [u64] reduce modulo the width, [i32] is the two's-complement
    reading of the low 32 bits. *)
Definition u8 (x : Z) : Z := x mod 256.
Definition u16 (x : Z) : Z := x mod 65536.
Definition u32 (x : Z) : Z := x mod 4294967296.
Definition u64 (x : Z) : Z := x mod 18446744073709551616.
Definition i32 (x : Z) : Z :=
  let y := u32 x in if y <? 2147483648 then y else y - 4294967296.

(** [lia] after turning [/] and [mod] by constants into equations. *)
Ltac mlia := Z.div_mod_to_equations; lia.

(** Case analysis on the boolean comparisons the code branches on. *)
Ltac zcase :=
  match goal with
  | |- context [ ?a =? ?b ] => destruct (Z.eqb_spec a b)
  | |- context [ ?a <? ?b ] => destruct (Z.ltb_spec a b)
  | |- context [ ?a <=? ?b ] => destruct (Z.leb_spec a b)
  | H : context [ ?a =? ?b ] |- _ => destruct (Z.eqb_spec a b)
  | H : context [ ?a <? ?b ] |- _ => destruct (Z.ltb_spec a b)
  | H : context [ ?a <=? ?b ] |- _ => destruct (Z.leb_spec a b)
  end.

Create HintDb xv6.
Create Rewrite HintDb xv6_arith.

Lemma u32_range x : 0 <= u32 x < 4294967296.
Proof. unfold u32. apply Z.mod_pos_bound. lia. Qed.

Lemma u64_range x : 0 <= u64 x < 18446744073709551616.
Proof. unfold u64. apply Z.mod_pos_bound. lia. Qed.

Lemma u32_small x : 0 <= x < 4294967296 → u32 x = x.
Proof. unfold u32. apply Z.mod_small. Qed.

Lemma u64_small x : 0 <= x < 18446744073709551616 → u64 x = x.
Proof. unfold u64. apply Z.mod_small. Qed.

Lemma u32_idemp x : u32 (u32 x) = u32 x.
Proof. apply u32_small, u32_range. Qed.

Lemma u32_add_l x y : u32 (u32 x + y) = u32 (x + y).
Proof. unfold u32. apply Zplus_mod_idemp_l. Qed.

Lemma u32_sub_l x y : u32 (u32 x - y) = u32 (x - y).
Proof. unfold u32. apply Zminus_mod_idemp_l. Qed.

Lemma u64_idemp x : u64 (u64 x) = u64 x.
Proof. apply u64_small, u64_range. Qed.

Lemma u64_add_l x y : u64 (u64 x + y) = u64 (x + y).
Proof. unfold u64. apply Zplus_mod_idemp_l. Qed.

Lemma u64_distinct a j k :
  0 <= j < 4294967296 → 0 <= k < 4294967296 → u64 (a + j) = u64 (a + k) → j = k.
Proof. unfold u64. intros. mlia. Qed.

Lemma i32_small x : 0 <= x < 2147483648 → i32 x = x.
Proof. intros H. unfold i32. rewrite u32_small by lia. zcase; lia. Qed.

Lemma u32_opp_i32 : u32 (-1) = 4294967295.
Proof. reflexivity. Qed.

#[export] Hint Resolve u32_range u64_range : xv6.
#[export] Hint Rewrite u32_idemp u32_add_l u32_sub_l u64_add_l : xv6_arith.

(** ** Results: values, panics, and running out of fuel

    A C function that can reach [panic] returns a [res]; [NoFuel] marks the
    end of the fuel of a loop, and every function that uses fuel has a theorem
    that bounds the fuel it needs. *)
Inductive res (A : Type) : Type :=
| Ok (a : A)
| Panic (msg : string)
| NoFuel.
Arguments Ok {A} a.
Arguments Panic {A} msg.
Arguments NoFuel {A}.

#[export] Instance res_ret : MRet res := fun A a => Ok a.
#[export] Instance res_bind : MBind res := fun A B f m =>
  match m with
  | Ok a => f a
  | Panic s => Panic s
  | NoFuel => NoFuel
  end.

Lemma res_bind_ok {A B} (m : res A) (f : A → res B) b :
  (m ≫= f) = Ok b ↔ ∃ a, m = Ok a ∧ f a = Ok b.
Proof.
  destruct m; simpl; split; try done.
  - eauto.
  - by intros (? & [= <-] & ?).
  - by intros (? & ? & ?).
  - by intros (? & ? & ?).
Qed.

(** Split a successful monadic computation into its steps. *)
Ltac res_inv :=
  repeat match goal with
  | H : (_ ≫= _) = Ok _ |- _ => apply res_bind_ok in H; destruct H as (?&?&?)
  | H : Ok _ = Ok _ |- _ => injection H as H; subst
  | H : Panic _ = Ok _ |- _ => discriminate H
  | H : NoFuel = Ok _ |- _ => discriminate H
  | H : mret _ = Ok _ |- _ => injection H as H; subst
  | p : _ * _ |- _ => destruct p
  end; simplify_eq.

(** ** Arrays as lists

    [aget l k] is the C read [l[k]], [splice l k bs] stores the bytes [bs] at
    index [k]; [slice l k n] reads [n] elements from [k]. *)
Definition aget (l : list Z) (k : Z) : Z := default 0 (l !! Z.to_nat k).

Definition slice (l : list Z) (k n : Z) : list Z :=
  take (Z.to_nat n) (drop (Z.to_nat k) l).

Definition splice (l : list Z) (k : Z) (bs : list Z) : list Z :=
  take (Z.to_nat k) l ++ bs ++ drop (Z.to_nat k + length bs) l.

Definition zlen {A} (l : list A) : Z := Z.of_nat (length l).

Lemma zlen_app {A} (l k : list A) : zlen (l ++ k) = zlen l + zlen k.
Proof. unfold zlen. rewrite length_app. lia. Qed.

Lemma zlen_nonneg {A} (l : list A) : 0 <= zlen l.
Proof. unfold zlen. lia. Qed.

Lemma zlen_nil_inv {A} (l : list A) : zlen l <= 0 → l = [].
Proof. destruct l; [done | unfold zlen; simpl; lia]. Qed.

Lemma slice_length l k n :
  0 <= k → 0 <= n → k + n <= zlen l → zlen (slice l k n) = n.
Proof. unfold slice, zlen. rewrite length_take, length_drop. lia. Qed.

Lemma slice_aget l k n j :
  0 <= k → 0 <= j < n → aget (slice l k n) j = aget l (k + j).
Proof.
  intros. unfold aget, slice. f_equal.
  rewrite lookup_take_lt by lia. rewrite lookup_drop. f_equal. lia.
Qed.

Lemma splice_length l k bs :
  0 <= k → k + zlen bs <= zlen l → zlen (splice l k bs) = zlen l.
Proof.
  unfold splice, zlen. intros.
  rewrite !length_app, length_take, length_drop. lia.
Qed.

Lemma splice_nil l k : splice l k [] = l.
Proof. unfold splice. simpl. rewrite Nat.add_0_r. apply take_drop. Qed.

(** Reading a spliced array: inside the stored range the new bytes, outside
    the old ones. *)
Lemma splice_aget l k bs j :
  0 <= k → 0 <= j → k + zlen bs <= zlen l →
  aget (splice l k bs) j =
    if (k <=? j) && (j <? k + zlen bs) then aget bs (j - k) else aget l j.
Proof.
  unfold aget, splice, zlen. intros.
  destruct (Z.leb_spec k j); destruct (Z.ltb_spec j (k + Z.of_nat (length bs)));
    simpl; f_equal; try lia.
  - rewrite lookup_app_r by (rewrite length_take; lia).
    rewrite length_take, lookup_app_l by lia. f_equal. lia.
  - rewrite lookup_app_r by (rewrite length_take; lia).
    rewrite length_take, lookup_app_r by lia. rewrite lookup_drop. f_equal. lia.
  - rewrite lookup_app_l by (rewrite length_take; lia).
    by rewrite lookup_take_lt by lia.
Qed.

(** Two arrays of one length with the same elements are equal. *)
Lemma aget_ext l k :
  length l = length k → (∀ j, 0 <= j < zlen l → aget l j = aget k j) → l = k.
Proof.
  intros Hlen Hj. apply list_eq. intros i.
  destruct (decide (i < length l)%nat) as [Hi|Hi].
  - specialize (Hj (Z.of_nat i)). unfold aget, zlen in Hj.
    rewrite Nat2Z.id in Hj.
    destruct (lookup_lt_is_Some_2 l i) as [x Hx]; [lia|].
    destruct (lookup_lt_is_Some_2 k i) as [y Hy]; [lia|].
    rewrite Hx, Hy in *. simpl in Hj. f_equal. apply Hj. lia.
  - rewrite !lookup_ge_None_2 by lia. done.
Qed.

Lemma aget_app l k j :
  0 <= j → aget (l ++ k) j = if j <? zlen l then aget l j else aget k (j - zlen l).
Proof.
  intros. unfold aget, zlen. destruct (Z.ltb_spec j (Z.of_nat (length l))).
  - by rewrite lookup_app_l by lia.
  - rewrite lookup_app_r by lia. do 2 f_equal. lia.
Qed.

(** ** Step relations

    Reachability is the reflexive-transitive closure [rtc] of stdpp; an
    invariant is proved once per step and lifted by this lemma. *)
Lemma rtc_invariant {A} (R : relation A) (P : A → Prop) x y :
  (∀ a b, P a → R a b → P b) → rtc R x y → P x → P y.
Proof. intros Hstep. induction 1; eauto. Qed.

(** [iter_step n f x] applies [f] [n] times. *)
Definition iter_step {A} (n : nat) (f : A → A) (x : A) : A := Nat.iter n f x.

Lemma iter_step_S {A} n (f : A → A) x : iter_step (S n) f x = iter_step n f (f x).
Proof. unfold iter_step. apply Nat.iter_succ_r. Qed.

(** ** Counting in a list *)
Definition b2z (b : bool) : Z := if b then 1 else 0.

Fixpoint countb {A} (p : A → bool) (l : list A) : Z :=
  match l with [] => 0 | x :: l' => b2z (p x) + countb p l' end.

Lemma b2z_range b : 0 <= b2z b <= 1.
Proof. destruct b; simpl; lia. Qed.

Lemma countb_range {A} p (l : list A) : 0 <= countb p l <= zlen l.
Proof.
  unfold zlen. induction l as [|x l IH]; simpl; [lia|]. pose proof (b2z_range (p x)). lia.
Qed.

Lemma countb_insert {A} p (l : list A) k x y :
  l !! k = Some x → countb p (<[k := y]> l) = countb p l - b2z (p x) + b2z (p y).
Proof.
  revert k. induction l as [|z l IH]; intros [|k] Hk; simplify_eq/=; [lia|].
  rewrite IH by done. lia.
Qed.

Lemma countb_ext {A} p q (l : list A) : (∀ x, x ∈ l → p x = q x) → countb p l = countb q l.
Proof.
  induction l as [|z l IH]; intros Hpq; simpl; [done|]. rewrite Hpq, IH by set_solver. done.
Qed.

(** [omap] around one element. *)
Lemma omap_delete {A B} (f : A → option B) (l : list A) i x :
  l !! i = Some x → omap f l ≡ₚ option_list (f x) ++ omap f (delete i l).
Proof.
  revert i. induction l as [|y l IH]; intros [|i] Hi; simplify_eq/=; [by destruct (f x)|].
  destruct (f y); simpl; [|by apply IH]. rewrite (IH i) by done. apply Permutation_middle.
Qed.

Lemma delete_insert_list {A} (l : list A) i x : delete i (<[i := x]> l) = delete i l.
Proof. revert i. induction l as [|y l IH]; intros [|i]; simpl; [done..|]. f_equal. apply IH. Qed.

Lemma omap_insert {A B} (f : A → option B) (l : list A) i y :
  (i < length l)%nat → omap f (<[i := y]> l) ≡ₚ option_list (f y) ++ omap f (delete i l).
Proof.
  intros Hi. rewrite (omap_delete f (<[i := y]> l) i y) by by apply list_lookup_insert_eq.
  by rewrite delete_insert_list.
Qed.

Lemma filter_same {A} (P Q : A → Prop) `{∀ x, Decision (P x), ∀ x, Decision (Q x)} (l : list A) :
  (∀ x, x ∈ l → P x ↔ Q x) → filter P l = filter Q l.
Proof.
  induction l as [|x l IH]; intros Hpq; [done|]. rewrite !filter_cons, IH by (intros; apply Hpq; by right).
  specialize (Hpq x (list_elem_of_here _ _)). by destruct (decide (P x)), (decide (Q x)); try tauto.
Qed.
