(* ===== verification/Riscv.v ===== *)
(** * riscv.h and memlayout.h: pages, page-table entries, the address layout *)
From S2P Require Import Prelude.

Definition PGSIZE : Z := 4096.
Definition PGSHIFT : Z := 12.
Definition PGROUNDUP (sz : Z) : Z := Z.land (u64 (sz + PGSIZE - 1)) (Z.lnot (PGSIZE - 1)).
Definition PGROUNDDOWN (a : Z) : Z := Z.land a (Z.lnot (PGSIZE - 1)).

Definition PTE_V : Z := Z.shiftl 1 0.
Definition PTE_R : Z := Z.shiftl 1 1.
Definition PTE_W : Z := Z.shiftl 1 2.
Definition PTE_X : Z := Z.shiftl 1 3.
Definition PTE_U : Z := Z.shiftl 1 4.

Definition PA2PTE (pa : Z) : Z := u64 (Z.shiftl (Z.shiftr pa 12) 10).
Definition PTE2PA (pte : Z) : Z := u64 (Z.shiftl (Z.shiftr pte 10) 12).
Definition PTE_FLAGS (pte : Z) : Z := Z.land pte 1023.

Definition PXMASK : Z := 511.
Definition PXSHIFT (level : Z) : Z := PGSHIFT + 9 * level.
Definition PX (level va : Z) : Z := Z.land (Z.shiftr va (PXSHIFT level)) PXMASK.

Definition MAXVA : Z := Z.shiftl 1 (9 + 9 + 9 + 12 - 1).

Definition UART0 : Z := 268435456.        (* 0x10000000 *)
Definition VIRTIO0 : Z := 268439552.      (* 0x10001000 *)
Definition PLIC : Z := 201326592.         (* 0x0c000000 *)
Definition KERNBASE : Z := 2147483648.    (* 0x80000000 *)
Definition PHYSTOP : Z := KERNBASE + 128 * 1024 * 1024.
Definition TRAMPOLINE : Z := MAXVA - PGSIZE.
Definition TRAPFRAME : Z := TRAMPOLINE - PGSIZE.
Definition KSTACK (p : Z) : Z := TRAMPOLINE - (p + 1) * 2 * PGSIZE.

(** ** Rounding *)
Lemma land_lnot_4095 x : Z.land x (Z.lnot 4095) = x / 4096 * 4096.
Proof.
  rewrite <-Z.ldiff_land. change 4095 with (Z.ones 12).
  rewrite Z.ldiff_ones_r by lia. rewrite Z.shiftl_mul_pow2, Z.shiftr_div_pow2 by lia. done.
Qed.

Lemma PGROUNDDOWN_eq a : PGROUNDDOWN a = a / 4096 * 4096.
Proof. apply land_lnot_4095. Qed.

Lemma PGROUNDUP_eq sz :
  0 <= sz <= 18446744073709551616 - 4096 → PGROUNDUP sz = (sz + 4095) / 4096 * 4096.
Proof.
  intros. unfold PGROUNDUP, PGSIZE. rewrite u64_small by lia.
  change (4096 - 1) with 4095. rewrite land_lnot_4095. do 2 f_equal. lia.
Qed.

Lemma PX_range level va : 0 <= PX level va < 512.
Proof.
  unfold PX, PXMASK. change 511 with (Z.ones 9). rewrite Z.land_ones by lia.
  apply Z.mod_pos_bound. lia.
Qed.

(** ** Page-table entries *)

(** A physical page address. *)
Definition page (pa : Z) : Prop := pa mod 4096 = 0 ∧ 0 <= pa < 2 ^ 56.

Lemma PA2PTE_eq pa : page pa → PA2PTE pa = pa / 4096 * 1024.
Proof.
  intros [Hm Hr]. unfold PA2PTE.
  rewrite Z.shiftl_mul_pow2, Z.shiftr_div_pow2 by lia.
  change (2 ^ 12) with 4096. change (2 ^ 10) with 1024. change (2 ^ 56) with 72057594037927936 in Hr.
  apply u64_small. mlia.
Qed.

Lemma PTE2PA_eq pte : 0 <= pte < 2 ^ 54 → PTE2PA pte = pte / 1024 * 4096.
Proof.
  intros Hr. unfold PTE2PA. rewrite Z.shiftl_mul_pow2, Z.shiftr_div_pow2 by lia.
  change (2 ^ 12) with 4096. change (2 ^ 10) with 1024. change (2 ^ 54) with 18014398509481984 in Hr.
  apply u64_small. mlia.
Qed.

(** Installing a page in an entry with flag bits [fl] and reading it back. *)
Lemma PTE_pack pa fl : page pa → 0 <= fl < 1024 → Z.lor (PA2PTE pa) fl = pa / 4096 * 1024 + fl.
Proof.
  intros Hp Hf. rewrite PA2PTE_eq by done. rewrite Z.add_nocarry_lxor, Z.lxor_lor; try done.
  all: change 1024 with (2 ^ 10); rewrite <-Z.shiftl_mul_pow2 by lia.
  all: apply Z.bits_inj'; intros i Hi; rewrite Z.land_spec, Z.bits_0.
  all: destruct (decide (i < 10)); [rewrite Z.shiftl_spec_low by lia; done|].
  all: rewrite (Z.bits_above_log2 fl), andb_false_r; try done; try lia.
  all: destruct (decide (fl = 0)) as [->|]; [simpl; lia|].
  all: assert (Z.log2 fl < 10); [apply Z.log2_lt_pow2; lia|lia].
Qed.

Lemma PTE_unpack pa fl :
  page pa → 0 <= fl < 1024 → PTE2PA (Z.lor (PA2PTE pa) fl) = pa.
Proof.
  intros Hp Hf. rewrite PTE_pack by done. destruct Hp as [Hm Hr].
  change (2 ^ 56) with 72057594037927936 in Hr.
  rewrite PTE2PA_eq by (change (2 ^ 54) with 18014398509481984; mlia). mlia.
Qed.

Lemma PTE_flags pa fl :
  page pa → 0 <= fl < 1024 → PTE_FLAGS (Z.lor (PA2PTE pa) fl) = fl.
Proof.
  intros Hp Hf. rewrite PTE_pack by done. unfold PTE_FLAGS.
  change 1023 with (Z.ones 10). rewrite Z.land_ones by lia. change (2 ^ 10) with 1024. mlia.
Qed.

(** A flag test on an entry only looks at its flag bits. *)
Lemma PTE_test pte b : Z.land b 1023 = b → Z.land pte b = Z.land (PTE_FLAGS pte) b.
Proof. intros Hb. unfold PTE_FLAGS. by rewrite <-Z.land_assoc, (Z.land_comm 1023), Hb. Qed.
