(* ===== verification/Proc.v ===== *)
(** * The process table: states, sleep and wakeup, kill, priorities

    Models the part of [kernel/proc.c] and [kernel/proc.h] that works on the
    process table alone: [struct proc], [procinit], [allocpid], [sleep],
    [wakeup], [kkill], [setkilled], [killed], [reparent] and [yield], with the
    priority boost of [PIPE_VERSION >= 6].  A process is named by its index in
    [proc[NPROC]]; [myproc()] is the argument [me] ([None] is the null pointer
    that [myproc] returns in the scheduler).  Each function body runs under
    the lock of the entry it touches, so it is one atomic update of the table;
    the waiting inside [sleep] is split in [sleep_begin] (up to [sched()]) and
    [sleep_end] (what follows the switch back). *)
From S2P Require Import Prelude Riscv.

Definition NPROC : nat := 64.
Definition PRIORITY_BASE : Z := 0.
Definition PRIORITY_BOOST : Z := 10.

Inductive procstate := UNUSED | USED | SLEEPING | RUNNABLE | RUNNING | ZOMBIE.

#[export] Instance procstate_eq_dec : EqDecision procstate.
Proof. solve_decision. Defined.

(** Wait channels: the addresses passed to [sleep] and [wakeup]. Distinct
    objects have distinct addresses, so a channel is named by its object:
    [proc[i]], [pi->nread] and [pi->nwrite] of the pipe at address [pi],
    [ticks], [cons.r], [log], [tx_chan], [disk.free[0]], a disk buffer and a
    sleep lock. *)
Inductive channel :=
| ChNull
| ChProc (i : nat)
| ChNread (pi : Z)
| ChNwrite (pi : Z)
| ChTicks
| ChCons
| ChLog
| ChTx
| ChDiskFree
| ChBuf (b : nat)
| ChSleeplock (l : Z).

#[export] Instance channel_eq_dec : EqDecision channel.
Proof. solve_decision. Defined.

(** [struct proc] without its spinlock. [parent], [ofile] and [cwd] are
    pointers into [proc[]], [ftable.file[]] and [itable.inode[]]. *)
Record proc := mkProc {
  state : procstate;
  chan : channel;
  killed_flag : Z;
  xstate : Z;
  pid : Z;
  parent : option nat;
  kstack : Z;
  sz : Z;
  pagetable : Z;
  trapframe : Z;
  context : list Z;
  ofile : list (option nat);
  cwd : option nat;
  name : list Z;
  priority : Z
}.

Definition set_state (v : procstate) (p : proc) : proc :=
  mkProc v (p.(chan)) (p.(killed_flag)) (p.(xstate)) (p.(pid)) (p.(parent))
    (p.(kstack)) (p.(sz)) (p.(pagetable)) (p.(trapframe)) (p.(context))
    (p.(ofile)) (p.(cwd)) (p.(name)) (p.(priority)).
Definition set_chan (v : channel) (p : proc) : proc :=
  mkProc (p.(state)) v (p.(killed_flag)) (p.(xstate)) (p.(pid)) (p.(parent))
    (p.(kstack)) (p.(sz)) (p.(pagetable)) (p.(trapframe)) (p.(context))
    (p.(ofile)) (p.(cwd)) (p.(name)) (p.(priority)).
Definition set_killed_flag (v : Z) (p : proc) : proc :=
  mkProc (p.(state)) (p.(chan)) v (p.(xstate)) (p.(pid)) (p.(parent))
    (p.(kstack)) (p.(sz)) (p.(pagetable)) (p.(trapframe)) (p.(context))
    (p.(ofile)) (p.(cwd)) (p.(name)) (p.(priority)).
Definition set_xstate (v : Z) (p : proc) : proc :=
  mkProc (p.(state)) (p.(chan)) (p.(killed_flag)) v (p.(pid)) (p.(parent))
    (p.(kstack)) (p.(sz)) (p.(pagetable)) (p.(trapframe)) (p.(context))
    (p.(ofile)) (p.(cwd)) (p.(name)) (p.(priority)).
Definition set_pid (v : Z) (p : proc) : proc :=
  mkProc (p.(state)) (p.(chan)) (p.(killed_flag)) (p.(xstate)) v
    (p.(parent)) (p.(kstack)) (p.(sz)) (p.(pagetable)) (p.(trapframe))
    (p.(context)) (p.(ofile)) (p.(cwd)) (p.(name)) (p.(priority)).
Definition set_parent (v : option nat) (p : proc) : proc :=
  mkProc (p.(state)) (p.(chan)) (p.(killed_flag)) (p.(xstate)) (p.(pid)) v
    (p.(kstack)) (p.(sz)) (p.(pagetable)) (p.(trapframe)) (p.(context))
    (p.(ofile)) (p.(cwd)) (p.(name)) (p.(priority)).
Definition set_kstack (v : Z) (p : proc) : proc :=
  mkProc (p.(state)) (p.(chan)) (p.(killed_flag)) (p.(xstate)) (p.(pid))
    (p.(parent)) v (p.(sz)) (p.(pagetable)) (p.(trapframe)) (p.(context))
    (p.(ofile)) (p.(cwd)) (p.(name)) (p.(priority)).
Definition set_sz (v : Z) (p : proc) : proc :=
  mkProc (p.(state)) (p.(chan)) (p.(killed_flag)) (p.(xstate)) (p.(pid))
    (p.(parent)) (p.(kstack)) v (p.(pagetable)) (p.(trapframe))
    (p.(context)) (p.(ofile)) (p.(cwd)) (p.(name)) (p.(priority)).
Definition set_pagetable (v : Z) (p : proc) : proc :=
  mkProc (p.(state)) (p.(chan)) (p.(killed_flag)) (p.(xstate)) (p.(pid))
    (p.(parent)) (p.(kstack)) (p.(sz)) v (p.(trapframe)) (p.(context))
    (p.(ofile)) (p.(cwd)) (p.(name)) (p.(priority)).
Definition set_trapframe (v : Z) (p : proc) : proc :=
  mkProc (p.(state)) (p.(chan)) (p.(killed_flag)) (p.(xstate)) (p.(pid))
    (p.(parent)) (p.(kstack)) (p.(sz)) (p.(pagetable)) v (p.(context))
    (p.(ofile)) (p.(cwd)) (p.(name)) (p.(priority)).
Definition set_context (v : list Z) (p : proc) : proc :=
  mkProc (p.(state)) (p.(chan)) (p.(killed_flag)) (p.(xstate)) (p.(pid))
    (p.(parent)) (p.(kstack)) (p.(sz)) (p.(pagetable)) (p.(trapframe)) v
    (p.(ofile)) (p.(cwd)) (p.(name)) (p.(priority)).
Definition set_ofile (v : list (option nat)) (p : proc) : proc :=
  mkProc (p.(state)) (p.(chan)) (p.(killed_flag)) (p.(xstate)) (p.(pid))
    (p.(parent)) (p.(kstack)) (p.(sz)) (p.(pagetable)) (p.(trapframe))
    (p.(context)) v (p.(cwd)) (p.(name)) (p.(priority)).
Definition set_cwd (v : option nat) (p : proc) : proc :=
  mkProc (p.(state)) (p.(chan)) (p.(killed_flag)) (p.(xstate)) (p.(pid))
    (p.(parent)) (p.(kstack)) (p.(sz)) (p.(pagetable)) (p.(trapframe))
    (p.(context)) (p.(ofile)) v (p.(name)) (p.(priority)).
Definition set_name (v : list Z) (p : proc) : proc :=
  mkProc (p.(state)) (p.(chan)) (p.(killed_flag)) (p.(xstate)) (p.(pid))
    (p.(parent)) (p.(kstack)) (p.(sz)) (p.(pagetable)) (p.(trapframe))
    (p.(context)) (p.(ofile)) (p.(cwd)) v (p.(priority)).
Definition set_priority (v : Z) (p : proc) : proc :=
  mkProc (p.(state)) (p.(chan)) (p.(killed_flag)) (p.(xstate)) (p.(pid))
    (p.(parent)) (p.(kstack)) (p.(sz)) (p.(pagetable)) (p.(trapframe))
    (p.(context)) (p.(ofile)) (p.(cwd)) (p.(name)) v.

(** ** Operations *)

(** [wakeup]'s loop body for one process other than [myproc()]. *)
Definition wakeup1 (V : Z) (ch : channel) (p : proc) : proc :=
  if bool_decide (state p = SLEEPING) && bool_decide (chan p = ch) then
    let p := set_state RUNNABLE p in
    if 6 <=? V then set_priority PRIORITY_BOOST p else p
  else p.

Definition wakeup (V : Z) (me : option nat) (ch : channel) (ps : list proc) : list proc :=
  imap (fun i p => if decide (me = Some i) then p else wakeup1 V ch p) ps.

(** [sleep] up to the call of [sched]. *)
Definition sleep_begin (me : nat) (ch : channel) (ps : list proc) : list proc :=
  alter (fun p => set_state SLEEPING (set_chan ch p)) me ps.

(** [sleep] after [sched] has returned. *)
Definition sleep_end (me : nat) (ps : list proc) : list proc :=
  alter (set_chan ChNull) me ps.

(** [kkill]: the first table entry with the given pid. *)
Fixpoint kkill (tpid : Z) (ps : list proc) : Z * list proc :=
  match ps with
  | [] => (-1, [])
  | p :: ps' =>
      if pid p =? tpid then
        let p := set_killed_flag 1 p in
        let p := if bool_decide (state p = SLEEPING) then set_state RUNNABLE p else p in
        (0, p :: ps')
      else
        let '(r, ps'') := kkill tpid ps' in (r, p :: ps'')
  end.

Definition setkilled (i : nat) (ps : list proc) : list proc :=
  alter (set_killed_flag 1) i ps.

Definition killed (i : nat) (ps : list proc) : Z :=
  match ps !! i with Some p => killed_flag p | None => 0 end.

(** [yield] up to the call of [sched]: priority decay, then RUNNABLE. *)
Definition yield_begin (V : Z) (me : nat) (ps : list proc) : list proc :=
  alter (fun p =>
    let p := if 6 <=? V then
               if PRIORITY_BASE <? priority p then set_priority (priority p - 1) p else p
             else p in
    set_state RUNNABLE p) me ps.

(** [reparent]: give the children of [i] to [initproc], waking it each time. *)
Definition reparent1 (V : Z) (me : option nat) (initproc i : nat)
    (ps : list proc) (k : nat) : list proc :=
  match ps !! k with
  | Some pp =>
      if decide (parent pp = Some i)
      then wakeup V me (ChProc initproc) (alter (set_parent (Some initproc)) k ps)
      else ps
  | None => ps
  end.

Definition reparent (V : Z) (me : option nat) (initproc i : nat) (ps : list proc) : list proc :=
  foldl (reparent1 V me initproc i) ps (seq 0 (length ps)).

(** [allocpid] on the counter [nextpid]. *)
Definition allocpid (nextpid : Z) : Z * Z := (nextpid, i32 (nextpid + 1)).

(** [procinit] on the zeroed table of the BSS segment. *)
Definition procinit1 (i : nat) (p : proc) : proc :=
  set_kstack (KSTACK (Z.of_nat i)) (set_state UNUSED p).

Definition procinit (ps : list proc) : list proc := imap procinit1 ps.

(** ** Facts about the table operations *)
Definition sleeping_on (ch : channel) (p : proc) : Prop :=
  state p = SLEEPING ∧ chan p = ch.

#[export] Instance sleeping_on_dec ch p : Decision (sleeping_on ch p).
Proof. unfold sleeping_on. apply _. Defined.

Section facts.
Context (V : Z).
Implicit Types (ps : list proc) (p : proc) (i : nat) (ch : channel).

Lemma wakeup_length me ch ps : length (wakeup V me ch ps) = length ps.
Proof. apply length_imap. Qed.

Lemma wakeup_lookup me ch ps i :
  wakeup V me ch ps !! i =
    (if decide (me = Some i) then ps !! i else wakeup1 V ch <$> ps !! i).
Proof.
  unfold wakeup. rewrite list_lookup_imap.
  destruct (ps !! i); simpl; by case_decide.
Qed.

(** [wakeup1] changes a process only when it sleeps on the channel. *)
Lemma wakeup1_other ch p : ¬ sleeping_on ch p → wakeup1 V ch p = p.
Proof.
  unfold wakeup1, sleeping_on. intros Hn.
  destruct (bool_decide_reflect (state p = SLEEPING)), (bool_decide_reflect (chan p = ch));
    naive_solver.
Qed.

Lemma wakeup1_woken ch p :
  sleeping_on ch p →
  wakeup1 V ch p =
    (if 6 <=? V then set_priority PRIORITY_BOOST (set_state RUNNABLE p)
     else set_state RUNNABLE p).
Proof.
  intros [Hs Hc]. unfold wakeup1. by rewrite !bool_decide_eq_true_2 by done.
Qed.

Lemma wakeup1_state ch p :
  state (wakeup1 V ch p) =
    (if decide (sleeping_on ch p) then RUNNABLE else state p).
Proof.
  case_decide.
  - rewrite wakeup1_woken by done. by zcase.
  - by rewrite wakeup1_other.
Qed.

Lemma wakeup1_chan ch p : chan (wakeup1 V ch p) = chan p.
Proof. unfold wakeup1. by repeat case_match. Qed.

Lemma wakeup1_killed ch p : killed_flag (wakeup1 V ch p) = killed_flag p.
Proof. unfold wakeup1. by repeat case_match. Qed.

Lemma wakeup_killed me ch ps i : killed i (wakeup V me ch ps) = killed i ps.
Proof.
  unfold killed. rewrite wakeup_lookup. case_decide; [done|].
  destruct (ps !! i); simpl; [apply wakeup1_killed|done].
Qed.

Lemma sleep_begin_lookup me ch ps i :
  sleep_begin me ch ps !! i =
    (if decide (me = i) then (λ p, set_state SLEEPING (set_chan ch p)) <$> ps !! i
     else ps !! i).
Proof.
  unfold sleep_begin. case_decide; subst.
  - apply list_lookup_alter_eq.
  - by apply list_lookup_alter_ne.
Qed.

Lemma sleep_end_lookup me ps i :
  sleep_end me ps !! i =
    (if decide (me = i) then set_chan ChNull <$> ps !! i else ps !! i).
Proof.
  unfold sleep_end. case_decide; subst.
  - apply list_lookup_alter_eq.
  - by apply list_lookup_alter_ne.
Qed.

(** Who still sleeps after a wakeup, and on what. *)
Lemma wakeup_sleepers me ch ch' ps i p :
  wakeup V me ch ps !! i = Some p → sleeping_on ch' p →
  (∃ p0, ps !! i = Some p0 ∧ sleeping_on ch' p0) ∧ (ch' = ch → me = Some i).
Proof.
  rewrite wakeup_lookup. case_decide as Hme.
  { intros Hp Hs. split; [eauto|done]. }
  destruct (ps !! i) as [p0|] eqn:Hp0; [|done]. intros [= <-] [Hst Hch].
  rewrite wakeup1_state in Hst. rewrite wakeup1_chan in Hch. case_decide as Hsl; [done|].
  split; [by exists p0; split; [|split]|].
  intros ->. destruct Hsl. by split.
Qed.

Lemma wakeup_not_sleeping ch ps i p me :
  wakeup V me ch ps !! i = Some p → me ≠ Some i → ¬ sleeping_on ch p.
Proof. intros Hl Hne Hs. by destruct (wakeup_sleepers _ _ _ _ _ _ Hl Hs) as [_ ?]; auto. Qed.

(** What a wakeup never changes. *)
Lemma wakeup_keeps me ch ps i p' :
  wakeup V me ch ps !! i = Some p' →
  ∃ p, ps !! i = Some p ∧ pid p' = pid p ∧ parent p' = parent p ∧
    (state p' = ZOMBIE ↔ state p = ZOMBIE).
Proof.
  rewrite wakeup_lookup. case_decide as Hme; [by eauto|].
  intros (p & Hp & ->)%fmap_Some. exists p. split; [done|].
  destruct (decide (sleeping_on ch p)) as [Hs|Hs].
  - rewrite wakeup1_woken by done. destruct Hs as [Hs _]. rewrite Hs. by zcase.
  - by rewrite wakeup1_other.
Qed.

Lemma kkill_length tpid ps : length (snd (kkill tpid ps)) = length ps.
Proof.
  induction ps as [|p ps IH]; simpl; [done|]. zcase; simpl; [done|].
  destruct (kkill tpid ps); simpl in *; lia.
Qed.

(** The effect of [kkill] on one victim. *)
Definition kill_entry p : proc :=
  let p := set_killed_flag 1 p in
  if bool_decide (state p = SLEEPING) then set_state RUNNABLE p else p.

(** [kkill] either finds no entry with the pid and changes nothing, or
    changes exactly the first such entry. *)
Lemma kkill_spec tpid ps :
  (kkill tpid ps = (-1, ps) ∧ Forall (λ p, pid p ≠ tpid) ps) ∨
  (∃ l p r, ps = l ++ p :: r ∧ pid p = tpid ∧ Forall (λ q, pid q ≠ tpid) l ∧
     kkill tpid ps = (0, l ++ kill_entry p :: r)).
Proof.
  induction ps as [|p ps IH]; simpl.
  { left. split; [done|constructor]. }
  zcase.
  { right. exists [], p, ps. by split_and!. }
  destruct IH as [[-> HF]|(l & q & r & -> & Hq & HF & ->)].
  - left. split; [done|by constructor].
  - right. exists (p :: l), q, r. split_and!; [done..|by constructor|done].
Qed.
End facts.

(** A table entry as the BSS segment holds it at boot. *)
Definition proc0 : proc :=
  mkProc UNUSED ChNull 0 0 0 None 0 0 0 0 (replicate 14 0) (replicate 16 None) None
    (replicate 16 0) 0.

Lemma yield_begin_lookup V i ps j :
  j ≠ i → yield_begin V i ps !! j = ps !! j.
Proof. intros. unfold yield_begin. by rewrite list_lookup_alter_ne. Qed.

Lemma yield_begin_self V i ps p :
  6 <= V → ps !! i = Some p → 0 <= priority p →
  ∃ p', yield_begin V i ps !! i = Some p' ∧ state p' = RUNNABLE ∧
    priority p' = Z.max 0 (priority p - 1).
Proof.
  intros HV Hi Hp. unfold yield_begin. rewrite list_lookup_alter_eq, Hi. simpl.
  destruct (Z.leb_spec 6 V); [|lia]. eexists. split; [done|].
  unfold PRIORITY_BASE. destruct (Z.ltb_spec 0 (priority p)); simpl; split; try done; lia.
Qed.

(** * Properties *)

(** [wakeup(chan)] makes exactly the processes other than the caller that
    sleep on [chan] RUNNABLE, with the boosted priority when
    [PIPE_VERSION >= 6], and leaves every other table entry as it was. *)
Theorem wakeup_exact (V : Z) (me : option nat) (ch : channel) (ps : list proc) (i : nat) :
  wakeup V me ch ps !! i =
    match ps !! i with
    | None => None
    | Some p =>
        Some (if decide (me ≠ Some i ∧ sleeping_on ch p) then
                if 6 <=? V then set_priority PRIORITY_BOOST (set_state RUNNABLE p)
                else set_state RUNNABLE p
              else p)
    end.
Proof.
  rewrite wakeup_lookup. destruct (ps !! i) as [p|]; simpl; [|by case_decide].
  destruct (decide (me = Some i)), (decide (sleeping_on ch p));
    repeat case_decide; try naive_solver.
  - by rewrite wakeup1_woken.
  - by rewrite wakeup1_other.
Qed.

(** [kkill(pid)] fails with -1 and changes nothing when no entry has the
    pid; otherwise it returns 0 and changes only the first entry with that
    pid, which is marked killed and is no longer SLEEPING. *)
Theorem kkill_correct (tpid : Z) (ps : list proc) :
  match kkill tpid ps with
  | (r, ps') =>
      (r = -1 ∧ ps' = ps ∧ ∀ i p, ps !! i = Some p → pid p ≠ tpid) ∨
      (r = 0 ∧ ∃ i p p', ps !! i = Some p ∧ pid p = tpid ∧ ps' = <[i := p']> ps ∧
         killed_flag p' = 1 ∧ state p' ≠ SLEEPING ∧ pid p' = tpid ∧
         ∀ j q, (j < i)%nat → ps !! j = Some q → pid q ≠ tpid)
  end.
Proof.
  destruct (kkill_spec tpid ps) as [[-> HF]|(l & p & r & -> & Hp & HF & ->)].
  { left. by rewrite Forall_lookup in HF. }
  right. split; [done|]. exists (length l), p, (kill_entry p). split_and!; try done.
  - by rewrite list_lookup_middle.
  - rewrite insert_app_r_alt, Nat.sub_diag by lia. done.
  - unfold kill_entry. by case_bool_decide.
  - unfold kill_entry. by case_bool_decide.
  - unfold kill_entry. by case_bool_decide.
  - intros j q Hj Hq. rewrite lookup_app_l in Hq by done.
    rewrite Forall_lookup in HF. eauto.
Qed.

(** Priority decay: with PIPE_VERSION >= 6 a process that has yielded [k]
    times since it had priority [b >= 0] has priority [max(BASE, b - k)]. *)
Theorem yield_decay (V : Z) (ps : list proc) (i : nat) (p : proc) (k : nat) :
  6 <= V → ps !! i = Some p → 0 <= priority p →
  ∃ p', iter_step k (yield_begin V i) ps !! i = Some p' ∧
    priority p' = Z.max PRIORITY_BASE (priority p - Z.of_nat k).
Proof.
  intros HV Hi Hp. induction k as [|k (p' & Hk & Hpk)].
  { exists p. split; [done|]. unfold PRIORITY_BASE. lia. }
  unfold iter_step, PRIORITY_BASE in *. simpl.
  destruct (yield_begin_self V i _ _ HV Hk) as (p'' & Hs & _ & Hpr); [lia|].
  exists p''. split; [done|]. lia.
Qed.

Lemma yield_decay_witness :
  ∃ p', iter_step 3 (yield_begin 6 0) [set_priority 10 proc0] !! 0%nat = Some p' ∧
    priority p' = 7.
Proof. eapply (yield_decay 6 _ 0 (set_priority 10 proc0) 3); simpl; done || lia. Defined.
