(* ===== verification/Sched.v ===== *)
(** * The scheduler: priority selection (v6 and later) and round robin (v1-v5)

    Models [scheduler] of [kernel/proc.c] in both of its preprocessor variants.
    What a process does between the switch to it and its return to the
    scheduler is the argument [run]; what other CPUs do between the unlocked
    scan (phase 1) and the locked re-check (phase 2) is the argument
    [interf]. *)
From S2P Require Import Prelude Riscv Proc.

(** State of one CPU's scheduler loop: the process table, [c->proc] and the
    processes switched to so far, oldest first. *)
Record sstate := mkS {
  tab : list proc;
  cur : option nat;
  trace : list nat
}.

(** ** PIPE_VERSION >= 6 *)

(** Phase 1: the first RUNNABLE process of the highest priority. *)
Fixpoint sched_scan (ps : list proc) (i : nat) (best : option nat) (best_priority : Z)
    : option nat :=
  match ps with
  | [] => best
  | p :: ps' =>
      if bool_decide (state p = RUNNABLE) && (best_priority <? priority p)
      then sched_scan ps' (S i) (Some i) (priority p)
      else sched_scan ps' (S i) best best_priority
  end.

Definition sched_best (ps : list proc) : option nat := sched_scan ps 0 None (-1).

(** Switch to process [i] and come back: state RUNNING, [c->proc] set, the
    process runs, [c->proc] cleared. *)
Definition sched_switch (run : nat → list proc → list proc) (i : nat) (s : sstate) : sstate :=
  let t := alter (set_state RUNNING) i (tab s) in
  mkS (run i t) None (trace s ++ [i]).

(** Phase 2 for a chosen process: re-check the state under the lock. *)
Definition sched_dispatch (run : nat → list proc → list proc) (i : nat) (s : sstate) : sstate :=
  match tab s !! i with
  | Some p => if bool_decide (state p = RUNNABLE) then sched_switch run i s else s
  | None => s
  end.

(** One turn of the [for(;;)] loop, [PIPE_VERSION >= 6]. *)
Definition scheduler_prio (interf : list proc → list proc)
    (run : nat → list proc → list proc) (s : sstate) : sstate :=
  let best := sched_best (tab s) in
  let s := mkS (interf (tab s)) (cur s) (trace s) in
  match best with
  | Some i => sched_dispatch run i s
  | None => s   (* wfi *)
  end.

(** ** PIPE_VERSION < 6 *)

(** One turn of the [for(;;)] loop of the round-robin scheduler: every entry
    is visited in order, and the scan goes on where it was when a process
    comes back. *)
Definition scheduler_rr (run : nat → list proc → list proc) (s : sstate) : sstate :=
  foldl (fun s i => sched_dispatch run i s) s (seq 0 (length (tab s))).

(** One turn of the scheduler as compiled for version [V]. *)
Definition scheduler (V : Z) (interf : list proc → list proc)
    (run : nat → list proc → list proc) (s : sstate) : sstate :=
  if 6 <=? V then scheduler_prio interf run s else scheduler_rr run s.

(** ** Selection *)
Section selection.
Implicit Types (ps : list proc) (p : proc).

Lemma sched_scan_spec ps : ∀ i best bp r,
  sched_scan ps i best bp = r →
  (r = best ∧ Forall (λ p, state p = RUNNABLE → priority p <= bp) ps) ∨
  (∃ k p, r = Some (i + k)%nat ∧ ps !! k = Some p ∧ state p = RUNNABLE ∧
     bp < priority p ∧
     (∀ j q, ps !! j = Some q → state q = RUNNABLE →
        priority q <= priority p ∧ ((j < k)%nat → priority q < priority p))).
Proof.
  induction ps as [|p ps IH]; intros i best bp r; simpl.
  { intros <-. left. by split. }
  destruct (bool_decide_reflect (state p = RUNNABLE)) as [Hr|Hr]; simpl;
    [destruct (Z.ltb_spec bp (priority p)) as [Hlt|Hge]|]; intros Hs;
    destruct (IH _ _ _ _ Hs) as [[-> HF]|(k & q & -> & Hq & Hst & Hbp & Hmax)].
  - right. exists 0%nat, p. split_and!; try done; [f_equal; lia|].
    intros [|j] q Hj Hqr; simplify_eq/=; [lia|].
    rewrite Forall_lookup in HF. specialize (HF _ _ Hj Hqr). lia.
  - right. exists (S k), q. split_and!; try done; [f_equal; lia|lia|].
    intros [|j] q' Hj Hqr; simplify_eq/=; [lia|].
    destruct (Hmax _ _ Hj Hqr). split; [done|]. intros. auto with lia.
  - left. split; [done|]. constructor; [done|done].
  - right. exists (S k), q. split_and!; try done; [f_equal; lia|].
    intros [|j] q' Hj Hqr; simplify_eq/=; [lia|].
    destruct (Hmax _ _ Hj Hqr). split; [done|]. intros. auto with lia.
  - left. split; [done|]. by constructor.
  - right. exists (S k), q. split_and!; try done; [f_equal; lia|].
    intros [|j] q' Hj Hqr; simplify_eq/=.
    destruct (Hmax _ _ Hj Hqr). split; [done|]. intros. auto with lia.
Qed.

(** The chosen index and why it was chosen. *)
Lemma sched_best_some ps i :
  sched_best ps = Some i →
  ∃ p, ps !! i = Some p ∧ state p = RUNNABLE ∧
    ∀ j q, ps !! j = Some q → state q = RUNNABLE →
      priority q <= priority p ∧ ((j < i)%nat → priority q < priority p).
Proof.
  intros H. destruct (sched_scan_spec _ _ _ _ _ H) as [[? _]|(k & p & Hk & ?)]; [done|].
  simplify_eq/=. exists p. naive_solver.
Qed.

Lemma sched_best_none ps :
  sched_best ps = None →
  ∀ j q, ps !! j = Some q → state q = RUNNABLE → priority q < 0.
Proof.
  intros H j q Hj Hq.
  destruct (sched_scan_spec _ _ _ _ _ H) as [[_ HF]|(k & p & ? & ?)]; [|done].
  rewrite Forall_lookup in HF. specialize (HF _ _ Hj Hq). lia.
Qed.

(** Characterisation: the selected entry is the unique one that is maximal
    and first among the maximal ones. *)
Lemma sched_best_unique ps i p :
  ps !! i = Some p → state p = RUNNABLE → 0 <= priority p →
  (∀ j q, ps !! j = Some q → state q = RUNNABLE →
     priority q <= priority p ∧ ((j < i)%nat → priority q < priority p)) →
  sched_best ps = Some i.
Proof.
  intros Hi Hr Hp Hmax. destruct (sched_best ps) as [k|] eqn:Hk.
  - destruct (sched_best_some _ _ Hk) as (q & Hq & Hqr & Hqmax).
    destruct (Hmax _ _ Hq Hqr), (Hqmax _ _ Hi Hr).
    f_equal. destruct (decide (k = i)); [done|].
    destruct (decide (k < i)%nat); [assert (priority q < priority p) by auto; lia|].
    assert (priority p < priority q) by auto with lia. lia.
  - pose proof (sched_best_none _ Hk _ _ Hi Hr). lia.
Qed.
End selection.

(** ** Round robin: every runnable process runs once per turn *)
Section round_robin.
Context (run : nat → list proc → list proc).
(** On one CPU the running process does not take RUNNABLE away from another
    process. *)
Context (run_keeps : ∀ i j t p, i ≠ j → t !! j = Some p → state p = RUNNABLE →
  ∃ p', run i t !! j = Some p' ∧ state p' = RUNNABLE).

Lemma sched_dispatch_trace i s :
  ∃ new, trace (sched_dispatch run i s) = trace s ++ new ∧ sublist new [i] ∧
    (∀ p, tab s !! i = Some p → state p = RUNNABLE → new = [i]).
Proof.
  unfold sched_dispatch. destruct (tab s !! i) as [p|].
  - case_bool_decide; [exists [i]|exists []]; simpl;
      rewrite ?app_nil_r; split_and!; try done; try naive_solver;
      apply sublist_nil_l.
  - exists []. rewrite app_nil_r. split_and!; try done. apply sublist_nil_l.
Qed.

Lemma sched_dispatch_keeps i j s p :
  i ≠ j → tab s !! j = Some p → state p = RUNNABLE →
  ∃ p', tab (sched_dispatch run i s) !! j = Some p' ∧ state p' = RUNNABLE.
Proof.
  intros Hij Hj Hr. unfold sched_dispatch. repeat case_match; eauto. simpl.
  eapply run_keeps; [done| |exact Hr]. by rewrite list_lookup_alter_ne.
Qed.

Lemma rr_fold_trace l s :
  ∃ new, trace (foldl (λ s i, sched_dispatch run i s) s l) = trace s ++ new ∧
    sublist new l ∧
    (NoDup l → ∀ i p, i ∈ l → tab s !! i = Some p → state p = RUNNABLE → i ∈ new).
Proof.
  revert s. induction l as [|k l IH]; intros s; simpl.
  { exists []. rewrite app_nil_r. split_and!; [done|done|set_solver]. }
  destruct (sched_dispatch_trace k s) as (n1 & Ht1 & Hs1 & Hk).
  destruct (IH (sched_dispatch run k s)) as (n2 & Ht2 & Hs2 & Hin).
  exists (n1 ++ n2). rewrite Ht2, Ht1, <-app_assoc. split_and!; [done| |].
  { change (k :: l) with ([k] ++ l). by apply sublist_app. }
  intros [Hnk Hnd]%NoDup_cons i p Hi Hp Hr. rewrite elem_of_app.
  apply elem_of_cons in Hi as [->|Hi].
  - left. rewrite (Hk _ Hp Hr). by apply list_elem_of_singleton.
  - right. assert (k ≠ i) as Hne by (intros ->; done).
    destruct (sched_dispatch_keeps _ _ _ _ Hne Hp Hr) as (p' & ? & ?). eauto.
Qed.
End round_robin.

(** ** Priority scheduling: boost, decay and starvation *)
Section priority.
Implicit Types (ps : list proc) (p : proc).

Lemma scheduler_prio_yield V s i p :
  6 <= V → tab s !! i = Some p → state p = RUNNABLE → priority p = 0 →
  (∀ j q, tab s !! j = Some q → state q = RUNNABLE → priority q = 0 ∧ (i <= j)%nat) →
  let s' := scheduler_prio id (yield_begin V) s in
  trace s' = trace s ++ [i] ∧
  (∃ p', tab s' !! i = Some p' ∧ state p' = RUNNABLE ∧ priority p' = 0) ∧
  (∀ j, j ≠ i → tab s' !! j = tab s !! j).
Proof.
  intros HV Hi Hr Hp Hall. unfold scheduler_prio.
  assert (sched_best (tab s) = Some i) as ->.
  { apply (sched_best_unique _ i p); [done|done|lia|].
    intros j q Hj Hq. destruct (Hall _ _ Hj Hq). split; lia. }
  unfold sched_dispatch. simpl. unfold id. rewrite Hi, bool_decide_eq_true_2 by done. simpl.
  split_and!; [done| |].
  - destruct (yield_begin_self V i (alter (set_state RUNNING) i (tab s)) (set_state RUNNING p))
      as (p' & Hp' & Hs' & Hpr); [done|by rewrite list_lookup_alter_eq, Hi|simpl; lia|].
    exists p'. split_and!; try done. simpl in Hpr. lia.
  - intros j Hj. by rewrite yield_begin_lookup, list_lookup_alter_ne by done.
Qed.
End priority.

(** * Properties *)

(** The starving schedule: process [i] is the first RUNNABLE entry and every
    RUNNABLE process is at base priority. *)
Definition cpu_bound_first (i : nat) (ps : list proc) : Prop :=
  (∃ p, ps !! i = Some p ∧ state p = RUNNABLE) ∧
  (∀ j q, ps !! j = Some q → state q = RUNNABLE → priority q = 0 ∧ (i <= j)%nat).

Lemma scheduler_prio_yield_iter V s i :
  6 <= V → cpu_bound_first i (tab s) → ∀ k,
    let s' := iter_step k (scheduler V id (yield_begin V)) s in
    cpu_bound_first i (tab s') ∧ trace s' = trace s ++ replicate k i ∧
    ∀ j, j ≠ i → tab s' !! j = tab s !! j.
Proof.
  intros HV Hfst k. induction k as [|k IH]; simpl.
  { by rewrite app_nil_r. }
  destruct IH as (((p & Hp & Hr) & Hall) & Htr & Hoth).
  unfold iter_step in *. simpl.
  set (s1 := Nat.iter k (scheduler V id (yield_begin V)) s) in *.
  unfold scheduler at 1 2 3. destruct (Z.leb_spec 6 V); [|lia].
  destruct (Hall _ _ Hp Hr) as [Hp0 _].
  destruct (scheduler_prio_yield V s1 i p HV Hp Hr Hp0 Hall)
    as (Ht & (p' & Hp' & Hr' & Hpp') & Ho).
  split_and!.
  - split; [eauto|]. intros j q Hj Hq. destruct (decide (j = i)) as [->|Hne].
    + by simplify_eq.
    + rewrite Ho in Hj by done. eauto.
  - rewrite Ht, Htr, <-app_assoc. f_equal. symmetry. apply replicate_cons_app.
  - intros j Hj. rewrite Ho, Hoth by done. done.
Qed.

(** The scan of [scheduler] (PIPE_VERSION >= 6) selects a RUNNABLE process
    whose priority is maximal among the RUNNABLE ones, and the first one in
    table order among those; it selects none only if no RUNNABLE process has a
    priority of at least 0. *)
Theorem sched_best_correct (ps : list proc) :
  match sched_best ps with
  | Some i => ∃ p, ps !! i = Some p ∧ state p = RUNNABLE ∧
      ∀ j q, ps !! j = Some q → state q = RUNNABLE →
        priority q <= priority p ∧ ((j < i)%nat → priority q < priority p)
  | None => ∀ j q, ps !! j = Some q → state q = RUNNABLE → priority q < 0
  end.
Proof.
  destruct (sched_best ps) eqn:H; [by apply sched_best_some|by apply sched_best_none].
Qed.

(** The scan runs without locks, but whatever other CPUs do to the table
    before the lock is taken ([interf]), a process is switched to only if it is
    RUNNABLE under the lock; otherwise the turn changes nothing. *)
Theorem scheduler_prio_recheck (interf : list proc → list proc)
    (run : nat → list proc → list proc) (s : sstate) :
  let s' := scheduler_prio interf run s in
  (trace s' = trace s ∧ tab s' = interf (tab s)) ∨
  (∃ i p, interf (tab s) !! i = Some p ∧ state p = RUNNABLE ∧
     trace s' = trace s ++ [i] ∧
     tab s' = run i (<[i := set_state RUNNING p]> (interf (tab s)))).
Proof.
  unfold scheduler_prio. destruct (sched_best (tab s)) as [i|]; simpl; [|by left].
  unfold sched_dispatch. simpl.
  destruct (interf (tab s) !! i) as [p|] eqn:Hi; [|by left].
  case_bool_decide; [|by left]. right. exists i, p. split_and!; try done. simpl. f_equal.
  apply list_eq. intros j. destruct (decide (i = j)) as [->|Hne].
  - rewrite list_lookup_alter_eq, list_lookup_insert_eq, Hi; [done|].
    by eapply lookup_lt_Some.
  - by rewrite list_lookup_alter_ne, list_lookup_insert_ne.
Qed.

(** One turn of the round-robin scheduler (versions 1 to 5) switches to
    every process that is RUNNABLE when the turn starts, to each table entry at
    most once and in table order, whatever the processes do, provided running
    a process keeps the other RUNNABLE ones RUNNABLE. *)
Theorem scheduler_rr_fair (V : Z) (interf : list proc → list proc)
    (run : nat → list proc → list proc) (s : sstate) :
  V < 6 →
  (∀ i j t p, i ≠ j → t !! j = Some p → state p = RUNNABLE →
     ∃ p', run i t !! j = Some p' ∧ state p' = RUNNABLE) →
  ∃ new, trace (scheduler V interf run s) = trace s ++ new ∧
    sublist new (seq 0 (length (tab s))) ∧
    ∀ i p, tab s !! i = Some p → state p = RUNNABLE → i ∈ new.
Proof.
  intros HV Hkeeps. unfold scheduler. destruct (Z.leb_spec 6 V); [lia|].
  unfold scheduler_rr.
  destruct (rr_fold_trace run Hkeeps (seq 0 (length (tab s))) s) as (new & Ht & Hs & Hin).
  exists new. split_and!; [done|done|]. intros i p Hi Hr.
  apply (Hin (NoDup_seq _ _) i p); [|done|done].
  apply elem_of_seq. split; [lia|]. apply lookup_lt_Some in Hi. lia.
Qed.

(** With PIPE_VERSION >= 6, when the first RUNNABLE entry of the table is a
    CPU-bound process (it only leaves the CPU through the timer's [yield]) and
    all RUNNABLE processes are at base priority, every turn of the scheduler
    switches to that process again: all other processes starve, however many
    turns pass. *)
Theorem scheduler_prio_starvation (V : Z) (s : sstate) (i : nat) (k : nat) :
  6 <= V → cpu_bound_first i (tab s) →
  let s' := iter_step k (scheduler V id (yield_begin V)) s in
  trace s' = trace s ++ replicate k i ∧
  ∀ j, j ≠ i → tab s' !! j = tab s !! j.
Proof.
  intros HV Hf. destruct (scheduler_prio_yield_iter V s i HV Hf k) as (_ & Ht & Ho). done.
Qed.

(** The boost: with PIPE_VERSION >= 6, if some process other than the caller
    sleeps on [ch] and every RUNNABLE process has a priority in [0, BOOST),
    the process the scheduler selects after [wakeup(ch)] is one that was just
    woken. *)
Theorem wakeup_boost_selected (V : Z) (me : option nat) (ch : channel) (ps : list proc)
    (r : nat) (pr : proc) :
  6 <= V → ps !! r = Some pr → me ≠ Some r → sleeping_on ch pr →
  (∀ j q, ps !! j = Some q → state q = RUNNABLE → priority q < PRIORITY_BOOST) →
  ∃ i p, sched_best (wakeup V me ch ps) = Some i ∧ ps !! i = Some p ∧
    sleeping_on ch p ∧ (i <= r)%nat.
Proof.
  intros HV Hr Hme Hsl Hlow. set (ps' := wakeup V me ch ps).
  assert (∀ j q, ps !! j = Some q → me ≠ Some j → sleeping_on ch q →
    ps' !! j = Some (set_priority PRIORITY_BOOST (set_state RUNNABLE q))) as Hw.
  { intros j q Hj Hne Hq. unfold ps'. rewrite wakeup_lookup, Hj. case_decide; [done|].
    simpl. rewrite wakeup1_woken by done. by destruct (Z.leb_spec 6 V); [|lia]. }
  pose proof (Hw _ _ Hr Hme Hsl) as Hr'.
  destruct (sched_best ps') as [i|] eqn:Hb.
  2:{ pose proof (sched_best_none _ Hb _ _ Hr' eq_refl) as Hneg.
      unfold PRIORITY_BOOST in Hneg; simpl in Hneg; lia. }
  destruct (sched_best_some _ _ Hb) as (p' & Hp' & Hrun & Hmax).
  destruct (Hmax _ _ Hr' eq_refl) as [Hge Hfst]. simpl in Hge, Hfst.
  assert (¬ (r < i)%nat) as Hri.
  { intros Hlt. destruct (ps !! i) as [p|] eqn:Hi.
    2:{ unfold ps' in Hp'. rewrite wakeup_lookup, Hi in Hp'. by case_decide. }
    unfold ps' in Hp'. rewrite wakeup_lookup, Hi in Hp'. specialize (Hfst Hlt).
    case_decide; simplify_eq/=.
    - specialize (Hlow _ _ Hi Hrun). lia.
    - destruct (decide (sleeping_on ch p)) as [Hs|Hs].
      + rewrite wakeup1_woken in Hfst by done.
        destruct (Z.leb_spec 6 V); simpl in Hfst; lia.
      + rewrite wakeup1_other in Hfst, Hrun by done. specialize (Hlow _ _ Hi Hrun). lia. }
  destruct (ps !! i) as [p|] eqn:Hi; unfold ps' in Hp'; rewrite wakeup_lookup, Hi in Hp';
    [|by case_decide].
  exists i, p. split_and!; [done|done| |lia].
  case_decide; simplify_eq/=; [specialize (Hlow _ _ Hi Hrun); lia|].
  destruct (decide (sleeping_on ch p)) as [Hs|Hs]; [done|].
  rewrite wakeup1_other in Hge, Hrun by done. specialize (Hlow _ _ Hi Hrun). lia.
Qed.

(** ** Witnesses *)

(** A table with two runnable processes at entries 1 and 2. *)
Definition two_runnable : list proc :=
  [proc0; set_state RUNNABLE proc0; set_state RUNNABLE proc0].

Lemma two_runnable_first : cpu_bound_first 1 two_runnable.
Proof.
  split; [by eexists|]. intros [|[|[|j]]] q Hj Hq; simplify_eq/=; split; done || lia.
Qed.

Lemma scheduler_rr_fair_witness :
  ∃ new, trace (scheduler 5 id (yield_begin 5) (mkS two_runnable None [])) = new ∧
    1%nat ∈ new ∧ 2%nat ∈ new.
Proof.
  destruct (scheduler_rr_fair 5 id (yield_begin 5) (mkS two_runnable None []))
    as (new & Ht & _ & Hin); [lia| |].
  { intros i j t p Hne Hj Hr. exists p. split; [|done].
    unfold yield_begin. by rewrite list_lookup_alter_ne. }
  exists new. split; [exact Ht|]. split; eapply Hin; reflexivity.
Defined.

Lemma scheduler_prio_starvation_witness :
  trace (iter_step 100 (scheduler 7 id (yield_begin 7)) (mkS two_runnable None []))
    = replicate 100 1%nat.
Proof.
  exact (proj1 (scheduler_prio_starvation 7 (mkS two_runnable None []) 1 100
    ltac:(lia) two_runnable_first)).
Defined.

Lemma wakeup_boost_selected_witness :
  ∃ i p, sched_best (wakeup 7 (Some 0%nat) (ChNread 8)
      [proc0; set_state RUNNABLE proc0; set_chan (ChNread 8) (set_state SLEEPING proc0)])
      = Some i ∧
    [proc0; set_state RUNNABLE proc0; set_chan (ChNread 8) (set_state SLEEPING proc0)] !! i
      = Some p ∧ sleeping_on (ChNread 8) p ∧ (i <= 2)%nat.
Proof.
  eapply wakeup_boost_selected; [lia|reflexivity|done|by split|].
  intros [|[|[|j]]] q Hj Hq; simplify_eq/=; done.
Defined.
