(* ===== verification/UserMem.v ===== *)
(** * Interface of the virtual-memory component to its clients

    [pipe.c], [file.c] and [console.c] reach user memory only through
    [copyin] and [copyout] of [vm.c].  The class [UserMem] names these two
    operations on a state [M] (the address space of the calling process) and
    the view of user memory they act on; [UserMemLaws] states what a client
    may rely on.  An out-parameter of the C function is a returned byte list:
    [copyin m a n] gives the new state, the return code and the bytes stored at
    the destination, from its start. *)
From S2P Require Import Prelude.

Class UserMem (M : Type) := {
  copyin : M → Z → Z → M * Z * list Z;
  copyout : M → Z → list Z → M * Z;
  uget : M → Z → option Z;        (* the byte a user load would read *)
  um_ok : M → Prop;               (* representation invariant *)
  readable : M → Z → Prop;        (* copyin of this address cannot fail *)
  writable : M → Z → Prop         (* copyout to this address cannot fail *)
}.

Class UserMemLaws (M : Type) `{UserMem M} := {
  copyin_spec m a n m' r bs :
    um_ok m → 0 <= n → copyin m a n = (m', r, bs) →
    um_ok m' ∧ (∀ va, uget m' va = uget m va) ∧
    (∀ k, 0 <= k < zlen bs → uget m (u64 (a + k)) = Some (aget bs k)) ∧
    ((r = 0 ∧ zlen bs = n) ∨ (r = -1 ∧ zlen bs < n));
  copyin_readable m a n m' r bs :
    um_ok m → 0 <= n → copyin m a n = (m', r, bs) →
    (∀ k, 0 <= k < n → readable m (u64 (a + k))) → r = 0;
  copyin_keeps_readable m a n m' r bs va :
    um_ok m → copyin m a n = (m', r, bs) → readable m va → readable m' va;
  copyout_spec m a bs m' r :
    um_ok m → zlen bs <= 4294967296 → copyout m a bs = (m', r) →
    um_ok m' ∧ ∃ k, 0 <= k <= zlen bs ∧
    (∀ j, 0 <= j < k → uget m' (u64 (a + j)) = Some (aget bs j)) ∧
    (∀ va, (∀ j, 0 <= j < k → va ≠ u64 (a + j)) → uget m' va = uget m va) ∧
    ((r = 0 ∧ k = zlen bs) ∨ (r = -1 ∧ k < zlen bs));
  copyout_writable m a bs m' r :
    um_ok m → copyout m a bs = (m', r) →
    (∀ k, 0 <= k < zlen bs → writable m (u64 (a + k))) → r = 0;
  copyout_keeps_writable m a bs m' r va :
    um_ok m → copyout m a bs = (m', r) → writable m va → writable m' va
}.

(** ** A flat user memory

    The simplest instance: a map of readable bytes, of which some are writable.
    It shows the laws can hold and runs in examples. *)
Module Flat.

Record flat := mkFlat { fbytes : gmap Z Z; fwrite : Z → bool }.

Fixpoint fin (m : flat) (a : Z) (n : nat) : Z * list Z :=
  match n with
  | O => (0, [])
  | S n' =>
      match fbytes m !! u64 a with
      | None => (-1, [])
      | Some b => let '(r, bs) := fin m (a + 1) n' in (r, b :: bs)
      end
  end.

Fixpoint fout (m : flat) (a : Z) (bs : list Z) : flat * Z :=
  match bs with
  | [] => (m, 0)
  | b :: bs' =>
      if bool_decide (is_Some (fbytes m !! u64 a)) && fwrite m (u64 a)
      then fout (mkFlat (<[u64 a := b]> (fbytes m)) (fwrite m)) (a + 1) bs'
      else (m, -1)
  end.

#[export] Instance flat_mem : UserMem flat := {
  copyin m a n := let '(r, bs) := fin m a (Z.to_nat n) in (m, r, bs);
  copyout := fout;
  uget m va := fbytes m !! va;
  um_ok _ := True;
  readable m va := is_Some (fbytes m !! va);
  writable m va := is_Some (fbytes m !! va) ∧ fwrite m va = true
}.

Lemma fin_spec m n : ∀ a r bs, fin m a n = (r, bs) →
  (∀ k, 0 <= k < zlen bs → fbytes m !! u64 (a + k) = Some (aget bs k)) ∧
  ((r = 0 ∧ length bs = n) ∨ (r = -1 ∧ (length bs < n)%nat)) ∧
  ((∀ k, 0 <= k < Z.of_nat n → is_Some (fbytes m !! u64 (a + k))) → r = 0).
Proof.
  induction n as [|n IH]; intros a r bs; simpl.
  { intros [= <- <-]. split_and!; [unfold zlen; simpl; lia|auto|done]. }
  destruct (fbytes m !! u64 a) as [b|] eqn:Hb.
  - destruct (fin m (a + 1) n) as [r' bs'] eqn:Hf. intros [= <- <-].
    destruct (IH _ _ _ Hf) as (Hk & Hr & Hres). split_and!.
    + unfold zlen in *. simpl. intros k Hk'. destruct (decide (k = 0)) as [->|].
      { by rewrite Z.add_0_r, Hb. }
      replace (a + k) with (a + 1 + (k - 1)) by lia. rewrite Hk by lia.
      unfold aget. replace (Z.to_nat k) with (S (Z.to_nat (k - 1))) by lia. done.
    + simpl. lia.
    + intros Hall. apply Hres. intros k Hk'.
      replace (a + 1 + k) with (a + (k + 1)) by lia. apply Hall. lia.
  - intros [= <- <-]. split_and!; [unfold zlen; simpl; lia|simpl; lia|].
    intros Hall. destruct (Hall 0) as [b Hb']; [lia|].
    rewrite Z.add_0_r in Hb'. congruence.
Qed.

Lemma fout_keeps bs : ∀ m a m' r, fout m a bs = (m', r) →
  fwrite m' = fwrite m ∧
  (∀ va, is_Some (fbytes m' !! va) ↔ is_Some (fbytes m !! va)).
Proof.
  induction bs as [|b bs IH]; intros m a m' r; simpl; [by intros [= <- <-]|].
  case_bool_decide as Hs; simpl; [|by intros [= <- <-]].
  destruct (fwrite m (u64 a)); [|by intros [= <- <-]].
  intros Hf. destruct (IH _ _ _ _ Hf) as [Hw Hd]. simpl in *. split; [done|].
  intros va. rewrite Hd. rewrite lookup_insert. case_decide; subst; naive_solver.
Qed.

Lemma fout_spec bs : ∀ m a m' r, zlen bs <= 4294967296 → fout m a bs = (m', r) →
  ∃ k, 0 <= k <= zlen bs ∧
    (∀ j, 0 <= j < k → fbytes m' !! u64 (a + j) = Some (aget bs j)) ∧
    (∀ va, (∀ j, 0 <= j < k → va ≠ u64 (a + j)) → fbytes m' !! va = fbytes m !! va) ∧
    ((r = 0 ∧ k = zlen bs) ∨ (r = -1 ∧ k < zlen bs)).
Proof.
  unfold zlen. induction bs as [|b bs IH]; intros m a m' r Hlen; simpl.
  { intros [= <- <-]. exists 0. split_and!; auto with lia. }
  simpl in Hlen.
  destruct (bool_decide _ && _); [|by intros [= <- <-]; exists 0; split_and!; auto with lia].
  intros Hf. destruct (IH _ _ _ _ ltac:(lia) Hf) as (k & Hk & Hin & Hout & Hr).
  exists (k + 1). split_and!; [lia|lia| | |lia].
  - intros j Hj. destruct (decide (j = 0)) as [->|Hne].
    + rewrite Z.add_0_r, Hout; simpl; [by rewrite lookup_insert_eq|].
      intros j' Hj' Heq. replace (a + 1 + j') with (a + (j' + 1)) in Heq by lia.
      rewrite <-(Z.add_0_r a) in Heq at 1. apply u64_distinct in Heq; lia.
    + replace (a + j) with (a + 1 + (j - 1)) by lia. rewrite Hin by lia.
      unfold aget. by replace (Z.to_nat j) with (S (Z.to_nat (j - 1))) by lia.
  - intros va Hva. rewrite Hout; simpl.
    + apply lookup_insert_ne. intros <-. apply (Hva 0); [lia|]. by rewrite Z.add_0_r.
    + intros j Hj. replace (a + 1 + j) with (a + (j + 1)) by lia. apply Hva. lia.
Qed.

Lemma fout_writable bs : ∀ m a m' r, fout m a bs = (m', r) →
  (∀ k, 0 <= k < zlen bs → is_Some (fbytes m !! u64 (a + k)) ∧ fwrite m (u64 (a + k)) = true) →
  r = 0.
Proof.
  unfold zlen. induction bs as [|b bs IH]; intros m a m' r; simpl; [by intros [= <- <-]|].
  intros Hf Hall. destruct (Hall 0) as [H0 Hw0]; [lia|]. rewrite Z.add_0_r in *.
  rewrite bool_decide_eq_true_2, Hw0 in Hf by done. simpl in Hf.
  apply (IH _ _ _ _ Hf). intros k Hk. simpl.
  replace (a + 1 + k) with (a + (k + 1)) by lia. destruct (Hall (k + 1)) as [? ?]; [lia|].
  split; [|done]. rewrite lookup_insert. case_decide; naive_solver.
Qed.

#[export] Instance flat_laws : UserMemLaws flat.
Proof.
  split; simpl.
  - intros m a n m' r bs _ Hn Hc. destruct (fin m a (Z.to_nat n)) as [r' bs'] eqn:Hf.
    simplify_eq. destruct (fin_spec _ _ _ _ _ Hf) as (Hk & Hr & _).
    split_and!; try done. unfold zlen. lia.
  - intros m a n m' r bs _ Hn Hc Hall. destruct (fin m a (Z.to_nat n)) as [r' bs'] eqn:Hf.
    simplify_eq. destruct (fin_spec _ _ _ _ _ Hf) as (_ & _ & Hres).
    apply Hres. intros k Hk. apply Hall. lia.
  - intros m a n m' r bs va _ Hc Hr. case_match. by simplify_eq.
  - intros m a bs m' r _ Hl Hf. split; [done|]. by apply fout_spec.
  - intros m a bs m' r _ Hf Hall. by eapply fout_writable.
  - intros m a bs m' r va _ Hf [Hs Hw]. destruct (fout_keeps _ _ _ _ _ Hf) as [Hw' Hd].
    rewrite Hd, Hw'. done.
Qed.

(** A readable and writable region [a, a + length bs) holding [bs]. *)
Fixpoint region (a : Z) (bs : list Z) : gmap Z Z :=
  match bs with [] => ∅ | b :: bs' => <[a := b]> (region (a + 1) bs') end.

Definition mk (a : Z) (bs : list Z) : flat := mkFlat (region a bs) (λ _, true).

Lemma region_lookup bs : ∀ a k, 0 <= k < zlen bs → region a bs !! (a + k) = Some (aget bs k).
Proof.
  unfold zlen. induction bs as [|b bs IH]; simpl; intros a k Hk; [lia|].
  destruct (decide (k = 0)) as [->|Hne].
  - by rewrite Z.add_0_r, lookup_insert_eq.
  - rewrite lookup_insert_ne by lia. replace (a + k) with (a + 1 + (k - 1)) by lia.
    rewrite IH by lia. unfold aget.
    by replace (Z.to_nat k) with (S (Z.to_nat (k - 1))) by lia.
Qed.

Lemma mk_uget a bs k :
  0 <= a → a + zlen bs <= 18446744073709551616 → 0 <= k < zlen bs →
  fbytes (mk a bs) !! u64 (a + k) = Some (aget bs k).
Proof. intros. rewrite u64_small by lia. simpl. by apply region_lookup. Qed.

Lemma mk_readable a bs n :
  0 <= a → a + zlen bs <= 18446744073709551616 → n <= zlen bs →
  ∀ k, 0 <= k < n → readable (mk a bs) (u64 (a + k)).
Proof. intros ??? k Hk. simpl. eexists. apply mk_uget; lia. Qed.

Lemma mk_writable a bs n :
  0 <= a → a + zlen bs <= 18446744073709551616 → n <= zlen bs →
  ∀ k, 0 <= k < n → writable (mk a bs) (u64 (a + k)).
Proof. intros ??? k Hk. split; [|done]. by apply (mk_readable a bs n). Qed.
End Flat.
