(* ===== verification/Pipe.v ===== *)
(** * The pipe: all eight versions of [kernel/pipe.c]

    [pipewrite] and [piperead] are modelled as small-step programs: the program
    counter ([wpc], [rpc]) holds the local variables, one step is one turn of
    the C loop (one [copyin]/[copyout]), and the places where [sleep] gives the
    lock away are program counters of their own ([WAsleep], [RAsleep]).  The
    five C bodies of each function are translated one by one ([PIPE_VERSION]
    1, 2, 3, 4 and >= 5); [wstep] and [rstep] are one generic program each, and
    each version is an instance of it ([pipewrite_v1_gen] ...).

    A step takes and returns a [pst]: the [struct pipe], the user memory of
    the calling process, and the process table (for [sleep], [wakeup] and
    [killed]).  The spinlock of the pipe is held at every program counter
    except [WEnter], [WAsleep], [WRet] and their read counterparts. *)
From S2P Require Import Prelude Riscv Proc UserMem.

(** ** Constants and the structure *)
Definition PIPESIZE : Z := 512.
Definition N_BUFS : Z := 4.
Definition BUFSIZE : Z := 512.
Definition DATA_PAGES : Z := 1.
Definition CACHELINE : Z := 64.

(** [PIPE_TOTAL] as the preprocessor defines it for version [V]. *)
Definition PIPE_TOTAL (V : Z) : Z :=
  if (V =? 1) || (V =? 2) then PIPESIZE
  else if V =? 3 then N_BUFS * BUFSIZE
  else DATA_PAGES * PGSIZE.

(** [struct pipe]. [pdata] is the content of the byte buffer: embedded in the
    structure for versions 1 to 3 (for version 3 the rows of
    [data[N_BUFS][BUFSIZE]] one after the other, as C lays them out), the page
    at [pdata_page] from version 4 on. *)
Record pipe := mkPipe {
  paddr : Z;        (* address of the structure *)
  pdata_page : Z;   (* the pointer [data], versions >= 4 *)
  pdata : list Z;
  nread : Z;
  nwrite : Z;
  readopen : Z;
  writeopen : Z
}.

Definition set_pdata (v : list Z) (pi : pipe) : pipe :=
  mkPipe (paddr pi) (pdata_page pi) v (nread pi) (nwrite pi) (readopen pi) (writeopen pi).
Definition set_nread (v : Z) (pi : pipe) : pipe :=
  mkPipe (paddr pi) (pdata_page pi) (pdata pi) v (nwrite pi) (readopen pi) (writeopen pi).
Definition set_nwrite (v : Z) (pi : pipe) : pipe :=
  mkPipe (paddr pi) (pdata_page pi) (pdata pi) (nread pi) v (readopen pi) (writeopen pi).
Definition set_readopen (v : Z) (pi : pipe) : pipe :=
  mkPipe (paddr pi) (pdata_page pi) (pdata pi) (nread pi) (nwrite pi) v (writeopen pi).
Definition set_writeopen (v : Z) (pi : pipe) : pipe :=
  mkPipe (paddr pi) (pdata_page pi) (pdata pi) (nread pi) (nwrite pi) (readopen pi) v.

Definition umin (a b : Z) : Z := if a <? b then a else b.

(** Program counters. [i] and [need]/[full] are the C locals [i] and
    [need_wakeup]/[was_full] (0 where the version has no such local). *)
Inductive wpc :=
| WEnter
| WLoop (i need : Z)
| WAsleep (i need : Z)
| WExit (i need : Z)
| WRet (r : Z).

Inductive rpc :=
| REnter
| RWait
| RAsleep
| RLoop (i full : Z)
| RExit (i full : Z)
| RRet (r : Z).

Definition bool_to_Z (b : bool) : Z := if b then 1 else 0.

Section pipe_ops.
Context {M : Type} `{UserMem M}.

Record pst := mkP { pp : pipe; um : M; ptab : list proc }.

Definition with_tab (t : list proc) (s : pst) : pst := mkP (pp s) (um s) t.

(** [wakeup] and the two halves of [sleep] on the channels of the pipe. *)
Definition wake_readers (V : Z) (me : nat) (s : pst) : pst :=
  with_tab (wakeup V (Some me) (ChNread (paddr (pp s))) (ptab s)) s.
Definition wake_writers (V : Z) (me : nat) (s : pst) : pst :=
  with_tab (wakeup V (Some me) (ChNwrite (paddr (pp s))) (ptab s)) s.
Definition sleep_writer (me : nat) (s : pst) : pst :=
  with_tab (sleep_begin me (ChNwrite (paddr (pp s))) (ptab s)) s.
Definition sleep_reader (me : nat) (s : pst) : pst :=
  with_tab (sleep_begin me (ChNread (paddr (pp s))) (ptab s)) s.
Definition resume (me : nat) (s : pst) : pst := with_tab (sleep_end me (ptab s)) s.

Definition is_killed (me : nat) (s : pst) : bool := negb (killed me (ptab s) =? 0).

(** *** pipewrite, PIPE_VERSION == 1 *)
Definition pipewrite_v1 (me : nat) (addr n : Z) (pc : wpc) (s : pst) : wpc * pst :=
  let pi := pp s in
  match pc with
  | WEnter => (WLoop 0 0, s)
  | WLoop i nw =>
      if i <? n then
        if (readopen pi =? 0) || is_killed me s then (WRet (-1), s)
        else if nwrite pi =? u32 (nread pi + PIPESIZE) then
          (WAsleep i nw, sleep_writer me (wake_readers 1 me s))
        else
          let '(m, r, ch) := copyin (um s) (u64 (addr + i)) 1 in
          if r =? -1 then (WExit i nw, mkP pi m (ptab s))
          else
            let data' := splice (pdata pi) (nwrite pi mod PIPESIZE) ch in
            (WLoop (i + 1) nw,
             mkP (set_nwrite (u32 (nwrite pi + 1)) (set_pdata data' pi)) m (ptab s))
      else (WExit i nw, s)
  | WAsleep i nw => (WLoop i nw, resume me s)
  | WExit i nw => (WRet i, wake_readers 1 me s)
  | WRet r => (WRet r, s)
  end.

(** *** pipewrite, PIPE_VERSION == 2 *)
Definition pipewrite_v2 (me : nat) (addr n : Z) (pc : wpc) (s : pst) : wpc * pst :=
  let pi := pp s in
  match pc with
  | WEnter => (WLoop 0 0, s)
  | WLoop i nw =>
      if i <? n then
        if (readopen pi =? 0) || is_killed me s then (WRet (-1), s)
        else if nwrite pi =? u32 (nread pi + PIPESIZE) then
          (WAsleep i nw, sleep_writer me (wake_readers 2 me s))
        else
          let free_slots := u32 (PIPESIZE - u32 (nwrite pi - nread pi)) in
          let head_slot := nwrite pi mod PIPESIZE in
          let till_wrap := u32 (PIPESIZE - head_slot) in
          let to_copy := i32 (umin (u32 (n - i)) (umin free_slots till_wrap)) in
          let '(m, r, bs) := copyin (um s) (u64 (addr + i)) to_copy in
          let pi' := set_pdata (splice (pdata pi) head_slot bs) pi in
          if r =? -1 then (WExit i nw, mkP pi' m (ptab s))
          else (WLoop (i + to_copy) nw,
                mkP (set_nwrite (u32 (nwrite pi + to_copy)) pi') m (ptab s))
      else (WExit i nw, s)
  | WAsleep i nw => (WLoop i nw, resume me s)
  | WExit i nw => (WRet i, wake_readers 2 me s)
  | WRet r => (WRet r, s)
  end.

(** *** pipewrite, PIPE_VERSION == 3: a ring of [N_BUFS] buffers *)
Definition pipewrite_v3 (me : nat) (addr n : Z) (pc : wpc) (s : pst) : wpc * pst :=
  let pi := pp s in
  let total := N_BUFS * BUFSIZE in
  match pc with
  | WEnter => (WLoop 0 0, s)
  | WLoop i nw =>
      if i <? n then
        if (readopen pi =? 0) || is_killed me s then (WRet (-1), s)
        else if nwrite pi =? u32 (nread pi + total) then
          (WAsleep i nw, sleep_writer me (wake_readers 3 me s))
        else
          let free_slots := u32 (total - u32 (nwrite pi - nread pi)) in
          let pos := nwrite pi mod total in
          let buf_idx := pos / BUFSIZE in
          let buf_off := pos mod BUFSIZE in
          let till_buf_end := u32 (BUFSIZE - buf_off) in
          let to_copy := i32 (umin (u32 (n - i)) (umin free_slots till_buf_end)) in
          let '(m, r, bs) := copyin (um s) (u64 (addr + i)) to_copy in
          let pi' := set_pdata (splice (pdata pi) (buf_idx * BUFSIZE + buf_off) bs) pi in
          if r =? -1 then (WExit i nw, mkP pi' m (ptab s))
          else (WLoop (i + to_copy) nw,
                mkP (set_nwrite (u32 (nwrite pi + to_copy)) pi') m (ptab s))
      else (WExit i nw, s)
  | WAsleep i nw => (WLoop i nw, resume me s)
  | WExit i nw => (WRet i, wake_readers 3 me s)
  | WRet r => (WRet r, s)
  end.

(** *** pipewrite, PIPE_VERSION == 4: one separate page *)
Definition pipewrite_v4 (me : nat) (addr n : Z) (pc : wpc) (s : pst) : wpc * pst :=
  let pi := pp s in
  let total := DATA_PAGES * PGSIZE in
  match pc with
  | WEnter => (WLoop 0 0, s)
  | WLoop i nw =>
      if i <? n then
        if (readopen pi =? 0) || is_killed me s then (WRet (-1), s)
        else if nwrite pi =? u32 (nread pi + total) then
          (WAsleep i nw, sleep_writer me (wake_readers 4 me s))
        else
          let free_slots := u32 (total - u32 (nwrite pi - nread pi)) in
          let head_slot := nwrite pi mod total in
          let till_wrap := u32 (total - head_slot) in
          let to_copy := i32 (umin (u32 (n - i)) (umin free_slots till_wrap)) in
          let '(m, r, bs) := copyin (um s) (u64 (addr + i)) to_copy in
          let pi' := set_pdata (splice (pdata pi) head_slot bs) pi in
          if r =? -1 then (WExit i nw, mkP pi' m (ptab s))
          else (WLoop (i + to_copy) nw,
                mkP (set_nwrite (u32 (nwrite pi + to_copy)) pi') m (ptab s))
      else (WExit i nw, s)
  | WAsleep i nw => (WLoop i nw, resume me s)
  | WExit i nw => (WRet i, wake_readers 4 me s)
  | WRet r => (WRet r, s)
  end.

(** *** pipewrite, PIPE_VERSION >= 5: lazy wakeup *)
Definition pipewrite_v5 (V : Z) (me : nat) (addr n : Z) (pc : wpc) (s : pst) : wpc * pst :=
  let pi := pp s in
  let total := DATA_PAGES * PGSIZE in
  match pc with
  | WEnter => (WLoop 0 (bool_to_Z (nwrite pi =? nread pi)), s)
  | WLoop i nw =>
      if i <? n then
        if (readopen pi =? 0) || is_killed me s then (WRet (-1), s)
        else if nwrite pi =? u32 (nread pi + total) then
          (WAsleep i nw, sleep_writer me (wake_readers V me s))
        else
          let free_slots := u32 (total - u32 (nwrite pi - nread pi)) in
          let head_slot := nwrite pi mod total in
          let till_wrap := u32 (total - head_slot) in
          let to_copy := i32 (umin (u32 (n - i)) (umin free_slots till_wrap)) in
          let '(m, r, bs) := copyin (um s) (u64 (addr + i)) to_copy in
          let pi' := set_pdata (splice (pdata pi) head_slot bs) pi in
          if r =? -1 then (WExit i nw, mkP pi' m (ptab s))
          else (WLoop (i + to_copy) nw,
                mkP (set_nwrite (u32 (nwrite pi + to_copy)) pi') m (ptab s))
      else (WExit i nw, s)
  | WAsleep i nw => (WLoop i 1, resume me s)
  | WExit i nw =>
      (WRet i, if negb (nw =? 0) && (0 <? i) then wake_readers V me s else s)
  | WRet r => (WRet r, s)
  end.

Definition pipewrite (V : Z) (me : nat) (addr n : Z) : wpc → pst → wpc * pst :=
  if V =? 1 then pipewrite_v1 me addr n
  else if V =? 2 then pipewrite_v2 me addr n
  else if V =? 3 then pipewrite_v3 me addr n
  else if V =? 4 then pipewrite_v4 me addr n
  else pipewrite_v5 V me addr n.

(** *** piperead, PIPE_VERSION == 1: the byte is consumed before it is copied *)
Definition piperead_v1 (me : nat) (addr n : Z) (pc : rpc) (s : pst) : rpc * pst :=
  let pi := pp s in
  match pc with
  | REnter => (RWait, s)
  | RWait =>
      if (nread pi =? nwrite pi) && negb (writeopen pi =? 0) then
        if is_killed me s then (RRet (-1), s) else (RAsleep, sleep_reader me s)
      else (RLoop 0 0, s)
  | RAsleep => (RWait, resume me s)
  | RLoop i fl =>
      if i <? n then
        if nread pi =? nwrite pi then (RExit i fl, s)
        else
          let ch := slice (pdata pi) (nread pi mod PIPESIZE) 1 in
          let pi' := set_nread (u32 (nread pi + 1)) pi in
          let '(m, r) := copyout (um s) (u64 (addr + i)) ch in
          if r =? -1 then (RExit i fl, mkP pi' m (ptab s))
          else (RLoop (i + 1) fl, mkP pi' m (ptab s))
      else (RExit i fl, s)
  | RExit i fl => (RRet i, wake_writers 1 me s)
  | RRet r => (RRet r, s)
  end.

(** *** piperead, PIPE_VERSION == 2 *)
Definition piperead_v2 (me : nat) (addr n : Z) (pc : rpc) (s : pst) : rpc * pst :=
  let pi := pp s in
  match pc with
  | REnter => (RWait, s)
  | RWait =>
      if (nread pi =? nwrite pi) && negb (writeopen pi =? 0) then
        if is_killed me s then (RRet (-1), s) else (RAsleep, sleep_reader me s)
      else (RLoop 0 0, s)
  | RAsleep => (RWait, resume me s)
  | RLoop i fl =>
      if i <? n then
        if nread pi =? nwrite pi then (RExit i fl, s)
        else
          let avail := u32 (nwrite pi - nread pi) in
          let tail_slot := nread pi mod PIPESIZE in
          let till_wrap := u32 (PIPESIZE - tail_slot) in
          let to_copy := i32 (umin (u32 (n - i)) (umin avail till_wrap)) in
          let '(m, r) := copyout (um s) (u64 (addr + i)) (slice (pdata pi) tail_slot to_copy) in
          if r =? -1 then (RExit (if i =? 0 then -1 else i) fl, mkP pi m (ptab s))
          else (RLoop (i + to_copy) fl,
                mkP (set_nread (u32 (nread pi + to_copy)) pi) m (ptab s))
      else (RExit i fl, s)
  | RExit i fl => (RRet i, wake_writers 2 me s)
  | RRet r => (RRet r, s)
  end.

(** *** piperead, PIPE_VERSION == 3 *)
Definition piperead_v3 (me : nat) (addr n : Z) (pc : rpc) (s : pst) : rpc * pst :=
  let pi := pp s in
  let total := N_BUFS * BUFSIZE in
  match pc with
  | REnter => (RWait, s)
  | RWait =>
      if (nread pi =? nwrite pi) && negb (writeopen pi =? 0) then
        if is_killed me s then (RRet (-1), s) else (RAsleep, sleep_reader me s)
      else (RLoop 0 0, s)
  | RAsleep => (RWait, resume me s)
  | RLoop i fl =>
      if i <? n then
        if nread pi =? nwrite pi then (RExit i fl, s)
        else
          let avail := u32 (nwrite pi - nread pi) in
          let pos := nread pi mod total in
          let buf_idx := pos / BUFSIZE in
          let buf_off := pos mod BUFSIZE in
          let till_buf_end := u32 (BUFSIZE - buf_off) in
          let to_copy := i32 (umin (u32 (n - i)) (umin avail till_buf_end)) in
          let '(m, r) := copyout (um s) (u64 (addr + i))
                           (slice (pdata pi) (buf_idx * BUFSIZE + buf_off) to_copy) in
          if r =? -1 then (RExit (if i =? 0 then -1 else i) fl, mkP pi m (ptab s))
          else (RLoop (i + to_copy) fl,
                mkP (set_nread (u32 (nread pi + to_copy)) pi) m (ptab s))
      else (RExit i fl, s)
  | RExit i fl => (RRet i, wake_writers 3 me s)
  | RRet r => (RRet r, s)
  end.

(** *** piperead, PIPE_VERSION == 4 *)
Definition piperead_v4 (me : nat) (addr n : Z) (pc : rpc) (s : pst) : rpc * pst :=
  let pi := pp s in
  let total := DATA_PAGES * PGSIZE in
  match pc with
  | REnter => (RWait, s)
  | RWait =>
      if (nread pi =? nwrite pi) && negb (writeopen pi =? 0) then
        if is_killed me s then (RRet (-1), s) else (RAsleep, sleep_reader me s)
      else (RLoop 0 0, s)
  | RAsleep => (RWait, resume me s)
  | RLoop i fl =>
      if i <? n then
        if nread pi =? nwrite pi then (RExit i fl, s)
        else
          let avail := u32 (nwrite pi - nread pi) in
          let tail_slot := nread pi mod total in
          let till_wrap := u32 (total - tail_slot) in
          let to_copy := i32 (umin (u32 (n - i)) (umin avail till_wrap)) in
          let '(m, r) := copyout (um s) (u64 (addr + i)) (slice (pdata pi) tail_slot to_copy) in
          if r =? -1 then (RExit (if i =? 0 then -1 else i) fl, mkP pi m (ptab s))
          else (RLoop (i + to_copy) fl,
                mkP (set_nread (u32 (nread pi + to_copy)) pi) m (ptab s))
      else (RExit i fl, s)
  | RExit i fl => (RRet i, wake_writers 4 me s)
  | RRet r => (RRet r, s)
  end.

(** *** piperead, PIPE_VERSION >= 5: lazy wakeup *)
Definition piperead_v5 (V : Z) (me : nat) (addr n : Z) (pc : rpc) (s : pst) : rpc * pst :=
  let pi := pp s in
  let total := DATA_PAGES * PGSIZE in
  match pc with
  | REnter => (RWait, s)
  | RWait =>
      if (nread pi =? nwrite pi) && negb (writeopen pi =? 0) then
        if is_killed me s then (RRet (-1), s) else (RAsleep, sleep_reader me s)
      else (RLoop 0 (bool_to_Z (nwrite pi =? u32 (nread pi + total))), s)
  | RAsleep => (RWait, resume me s)
  | RLoop i fl =>
      if i <? n then
        if nread pi =? nwrite pi then (RExit i fl, s)
        else
          let avail := u32 (nwrite pi - nread pi) in
          let tail_slot := nread pi mod total in
          let till_wrap := u32 (total - tail_slot) in
          let to_copy := i32 (umin (u32 (n - i)) (umin avail till_wrap)) in
          let '(m, r) := copyout (um s) (u64 (addr + i)) (slice (pdata pi) tail_slot to_copy) in
          if r =? -1 then (RExit (if i =? 0 then -1 else i) fl, mkP pi m (ptab s))
          else (RLoop (i + to_copy) fl,
                mkP (set_nread (u32 (nread pi + to_copy)) pi) m (ptab s))
      else (RExit i fl, s)
  | RExit i fl =>
      (RRet i, if negb (fl =? 0) && (0 <? i) then wake_writers V me s else s)
  | RRet r => (RRet r, s)
  end.

Definition piperead (V : Z) (me : nat) (addr n : Z) : rpc → pst → rpc * pst :=
  if V =? 1 then piperead_v1 me addr n
  else if V =? 2 then piperead_v2 me addr n
  else if V =? 3 then piperead_v3 me addr n
  else if V =? 4 then piperead_v4 me addr n
  else piperead_v5 V me addr n.

(** The critical section of [pipeclose]: the flag, the wakeup, and whether
    both ends are now closed (then the pages are freed after the release). *)
Definition pipeclose_cs (V : Z) (me : nat) (writable : Z) (s : pst) : bool * pst :=
  let s := if negb (writable =? 0)
           then wake_readers V me (mkP (set_writeopen 0 (pp s)) (um s) (ptab s))
           else wake_writers V me (mkP (set_readopen 0 (pp s)) (um s) (ptab s)) in
  ((readopen (pp s) =? 0) && (writeopen (pp s) =? 0), s).
End pipe_ops.
Arguments pst M : clear implicits.
