(* ===== verification/PipeRing.v ===== *)
(** * The ring buffer behind the pipe

    The representation invariant [pipe_wf] of the circular buffer with its two
    free-running 32-bit counters, the byte queue [contents] it stands for, and
    the effect of storing and consuming one chunk.  The capacity [T] only has to
    be positive, at most a page and a divisor of 2^32, so that [% T] keeps its
    meaning when the counters wrap. *)
From S2P Require Import Prelude Riscv Proc UserMem Pipe.

Definition count (pi : pipe) : Z := u32 (nwrite pi - nread pi).

Definition pipe_wf (T : Z) (pi : pipe) : Prop :=
  0 <= nread pi < 4294967296 ∧ 0 <= nwrite pi < 4294967296 ∧
  count pi <= T ∧ zlen (pdata pi) = T.

(** The bytes in the pipe, oldest first. *)
Definition contents (T : Z) (pi : pipe) : list Z :=
  (λ k, aget (pdata pi) ((nread pi + k) mod T)) <$> seqZ 0 (count pi).

Class RingSize (T : Z) : Prop := {
  ring_pos : 0 < T <= 4096;
  ring_div : (T | 4294967296)
}.

#[export] Instance ring512 : RingSize 512.
Proof. split; [lia|]. by exists 8388608. Qed.
#[export] Instance ring2048 : RingSize 2048.
Proof. split; [lia|]. by exists 2097152. Qed.
#[export] Instance ring4096 : RingSize 4096.
Proof. split; [lia|]. by exists 1048576. Qed.

Lemma ring_PIPE_TOTAL V : RingSize (PIPE_TOTAL V).
Proof.
  unfold PIPE_TOTAL. destruct (_ || _); [apply ring512|].
  destruct (V =? 3); [apply ring2048|apply ring4096].
Qed.

Lemma mod_eq_close T a b : 0 < T → a mod T = b mod T → -T < a - b < T → a = b.
Proof.
  intros HT Hmod Hclose.
  pose proof (Z.div_mod a T ltac:(lia)). pose proof (Z.div_mod b T ltac:(lia)).
  set (d := a / T - b / T). assert (a - b = T * d) by (unfold d; lia).
  assert (d = 0) by nia. lia.
Qed.

Section ring.
Context (T : Z) `{!RingSize T}.
Implicit Types pi : pipe.

Lemma mod_u32 x : u32 x mod T = x mod T.
Proof. apply Z.mod_mod_divide, ring_div. Qed.

Lemma count_range pi : 0 <= count pi < 4294967296.
Proof. apply u32_range. Qed.

Lemma contents_length pi : zlen (contents T pi) = count pi.
Proof.
  unfold contents, zlen. rewrite length_fmap, length_seqZ. pose proof (count_range pi). lia.
Qed.

Lemma contents_aget pi k :
  0 <= k < count pi → aget (contents T pi) k = aget (pdata pi) ((nread pi + k) mod T).
Proof.
  intros Hk. unfold aget at 1, contents. rewrite list_lookup_fmap.
  rewrite lookup_seqZ_lt by lia. simpl. do 2 f_equal. lia.
Qed.

(** The write position, in terms of the read position. *)
Lemma nwrite_mod pi : nwrite pi mod T = (nread pi + count pi) mod T.
Proof.
  unfold count. rewrite <-mod_u32. rewrite <-(mod_u32 (nread pi + _)). f_equal.
  unfold u32. rewrite Zplus_mod_idemp_r. f_equal. lia.
Qed.

Lemma empty_count pi : pipe_wf T pi → (nread pi =? nwrite pi) = (count pi =? 0).
Proof. intros (Hr & Hw & _ & _). unfold count, u32. repeat zcase; try done; mlia. Qed.

Lemma empty_count' pi : pipe_wf T pi → (nwrite pi =? nread pi) = (count pi =? 0).
Proof. intros. rewrite Z.eqb_sym. by apply empty_count. Qed.

Lemma full_count pi : pipe_wf T pi → (nwrite pi =? u32 (nread pi + T)) = (count pi =? T).
Proof.
  intros (Hr & Hw & _ & _). pose proof ring_pos. unfold count, u32.
  repeat zcase; try done; mlia.
Qed.

Lemma free_slots_eq pi : pipe_wf T pi → u32 (T - u32 (nwrite pi - nread pi)) = T - count pi.
Proof.
  intros (_ & _ & Hc & _). pose proof ring_pos. pose proof (count_range pi).
  unfold count in *. apply u32_small. lia.
Qed.

Lemma contents_ext pi pi' :
  count pi' = count pi →
  (∀ k, 0 <= k < count pi →
     aget (pdata pi') ((nread pi' + k) mod T) = aget (pdata pi) ((nread pi + k) mod T)) →
  contents T pi' = contents T pi.
Proof.
  intros Hc Hk. apply aget_ext.
  - pose proof (contents_length pi). pose proof (contents_length pi'). unfold zlen in *. lia.
  - rewrite contents_length, Hc. intros j Hj.
    rewrite !contents_aget by lia. by apply Hk.
Qed.

(** A queue position [k < count] is not stored in the free part of the ring. *)
Lemma used_not_free pi k c :
  pipe_wf T pi → 0 <= k < count pi → 0 <= c <= T - count pi →
  nwrite pi mod T + c <= T →
  ¬ (nwrite pi mod T <= (nread pi + k) mod T < nwrite pi mod T + c).
Proof.
  intros (_ & _ & Hct & _) Hk Hc Hend Hin. pose proof ring_pos as HT.
  set (j := (nread pi + k) mod T - nwrite pi mod T).
  pose proof (Z.mod_pos_bound (nwrite pi) T ltac:(lia)).
  assert ((nread pi + k) mod T = (nread pi + count pi + j) mod T) as Heq.
  { rewrite <-(Zplus_mod_idemp_l (nread pi + count pi)), <-nwrite_mod.
    rewrite (Z.mod_small (nwrite pi mod T + j)) by lia. lia. }
  apply mod_eq_close in Heq; lia.
Qed.

(** Storing bytes into the free part leaves the queue as it is. *)
Lemma store_contents pi bs :
  pipe_wf T pi → zlen bs <= T - count pi → nwrite pi mod T + zlen bs <= T →
  pipe_wf T (set_pdata (splice (pdata pi) (nwrite pi mod T) bs) pi) ∧
  contents T (set_pdata (splice (pdata pi) (nwrite pi mod T) bs) pi) = contents T pi.
Proof.
  intros Hwf Hfree Hend. pose proof ring_pos. pose proof (zlen_nonneg bs).
  pose proof (Z.mod_pos_bound (nwrite pi) T ltac:(lia)).
  pose proof Hwf as (Hr & Hw & Hc & Hl). split.
  - split_and!; try exact Hc; simpl; rewrite ?splice_length by lia; lia.
  - apply contents_ext; [done|]. intros k Hk. simpl.
    pose proof (Z.mod_pos_bound (nread pi + k) T ltac:(lia)).
    rewrite splice_aget by lia.
    destruct (andb _ _) eqn:Hb; [|done]. exfalso.
    apply (used_not_free pi k (zlen bs)); done || lia.
Qed.

(** Storing [bs] at the write position and advancing [nwrite] appends [bs]. *)
Lemma append_contents pi bs :
  pipe_wf T pi → zlen bs <= T - count pi → nwrite pi mod T + zlen bs <= T →
  let pi' := set_nwrite (u32 (nwrite pi + zlen bs))
               (set_pdata (splice (pdata pi) (nwrite pi mod T) bs) pi) in
  pipe_wf T pi' ∧ contents T pi' = contents T pi ++ bs ∧ count pi' = count pi + zlen bs.
Proof.
  intros Hwf Hfree Hend pi'. pose proof ring_pos. pose proof (zlen_nonneg bs) as Hnn.
  pose proof (Z.mod_pos_bound (nwrite pi) T ltac:(lia)) as Hmb.
  destruct (store_contents pi bs Hwf Hfree Hend) as [(Hr & Hw & Hc & Hl) Hst].
  pose proof (count_range pi) as Hcr.
  assert (count pi' = count pi + zlen bs) as Hcnt.
  { unfold count in *. simpl in *.
    rewrite u32_sub_l. rewrite <-(u32_small (u32 (nwrite pi - nread pi) + zlen bs)) by lia.
    rewrite u32_add_l. f_equal. lia. }
  split_and!; [|  |done].
  - unfold pipe_wf. rewrite Hcnt. simpl in *.
    split_and!; try apply u32_range; lia || done.
  - apply aget_ext.
    { pose proof (contents_length pi'). pose proof (contents_length pi).
      pose proof (zlen_app (contents T pi) bs). unfold zlen in *. lia. }
    rewrite contents_length, Hcnt. intros j Hj.
    rewrite contents_aget by lia. rewrite aget_app by lia. rewrite contents_length.
    destruct (Z.ltb_spec j (count pi)).
    + rewrite <-Hst, contents_aget; [done|].
      change (0 <= j < count pi). lia.
    + simpl. replace (nread pi + j) with (nread pi + count pi + (j - count pi)) by lia.
      rewrite <-(Zplus_mod_idemp_l (nread pi + count pi)), <-nwrite_mod.
      rewrite (Z.mod_small (nwrite pi mod T + _)) by lia.
      destruct Hwf as (_ & _ & _ & Hlen).
      rewrite splice_aget by lia.
      destruct (andb _ _) eqn:Hb; [|lia]. f_equal. lia.
Qed.

(** Reading [c] bytes at the read position gives the front of the queue, and
    advancing [nread] removes it. *)
Lemma take_contents pi c :
  pipe_wf T pi → 0 <= c <= count pi → nread pi mod T + c <= T →
  let pi' := set_nread (u32 (nread pi + c)) pi in
  pipe_wf T pi' ∧ contents T pi = slice (pdata pi) (nread pi mod T) c ++ contents T pi' ∧
  count pi' = count pi - c.
Proof.
  intros (Hr & Hw & Hc & Hl) Hcc Hend pi'. pose proof ring_pos.
  pose proof (Z.mod_pos_bound (nread pi) T ltac:(lia)) as Hmb.
  pose proof (count_range pi) as Hcr.
  assert (count pi' = count pi - c) as Hcnt.
  { unfold count in *. simpl. unfold u32 in *. mlia. }
  assert (zlen (slice (pdata pi) (nread pi mod T) c) = c) as Hsl by (apply slice_length; lia).
  split_and!; [| |done].
  - unfold pipe_wf. rewrite Hcnt. simpl in *.
    split_and!; try apply u32_range; lia || done.
  - apply aget_ext.
    { pose proof (contents_length pi'). pose proof (contents_length pi).
      pose proof (zlen_app (slice (pdata pi) (nread pi mod T) c) (contents T pi')).
      unfold zlen in *. lia. }
    rewrite contents_length. intros j Hj.
    rewrite contents_aget, aget_app, Hsl by lia.
    destruct (Z.ltb_spec j c).
    + rewrite slice_aget by lia. f_equal.
      rewrite <-Zplus_mod_idemp_l. apply Z.mod_small. lia.
    + rewrite contents_aget by lia. simpl. f_equal.
      rewrite <-(Zplus_mod_idemp_l (u32 _)), mod_u32, Zplus_mod_idemp_l. f_equal. lia.
Qed.
End ring.
