(* ===== verification/PipeProg.v ===== *)
(** * Functional correctness of pipewrite and piperead

    The five bodies of each function are instances of one generic program
    ([wstep], [rstep]) whose parameters are the ring size, the chunk
    computation, whether the user bytes go straight into the ring, and whether
    the final wakeup is conditional.  The refinement lemmas [wstep_spec] and
    [rstep_spec] relate one step to the byte queue [contents]. *)
From S2P Require Import Prelude Riscv Proc UserMem Pipe PipeRing.

(** ** Generic programs *)
Record wcfg := mkW {
  w_ver : Z;                      (* PIPE_VERSION, for wakeup *)
  w_total : Z;                    (* capacity *)
  w_chunk : pipe → Z → Z * Z;     (* position and length of the next copy *)
  w_direct : bool;                (* copyin stores into the ring itself *)
  w_lazy : bool                   (* wakeup only if need_wakeup && i > 0 *)
}.

Record rcfg := mkR {
  r_ver : Z;
  r_total : Z;
  r_chunk : pipe → Z → Z * Z;
  r_first : bool;                 (* consume before copying *)
  r_lazy : bool
}.

(** The chunk computations of the versions, writer and reader side. *)
Definition byte_chunk (T pos : Z) : Z * Z := (pos mod T, 1).
Definition bulk_chunk (T pos avail rem : Z) : Z * Z :=
  (pos mod T, i32 (umin (u32 rem) (umin avail (u32 (T - pos mod T))))).
Definition row_chunk (T B pos avail rem : Z) : Z * Z :=
  (pos mod T / B * B + pos mod T mod B,
   i32 (umin (u32 rem) (umin avail (u32 (B - pos mod T mod B))))).

Definition free_of (T : Z) (pi : pipe) : Z := u32 (T - u32 (nwrite pi - nread pi)).
Definition avail_of (pi : pipe) : Z := u32 (nwrite pi - nread pi).

Definition wcfg_of (V : Z) : wcfg :=
  if V =? 1 then mkW 1 PIPESIZE (λ pi _, byte_chunk PIPESIZE (nwrite pi)) false false
  else if V =? 2 then
    mkW 2 PIPESIZE (λ pi, bulk_chunk PIPESIZE (nwrite pi) (free_of PIPESIZE pi)) true false
  else if V =? 3 then
    mkW 3 (N_BUFS * BUFSIZE)
      (λ pi, row_chunk (N_BUFS * BUFSIZE) BUFSIZE (nwrite pi) (free_of (N_BUFS * BUFSIZE) pi))
      true false
  else if V =? 4 then
    mkW 4 (DATA_PAGES * PGSIZE)
      (λ pi, bulk_chunk (DATA_PAGES * PGSIZE) (nwrite pi) (free_of (DATA_PAGES * PGSIZE) pi))
      true false
  else
    mkW V (DATA_PAGES * PGSIZE)
      (λ pi, bulk_chunk (DATA_PAGES * PGSIZE) (nwrite pi) (free_of (DATA_PAGES * PGSIZE) pi))
      true true.

Definition rcfg_of (V : Z) : rcfg :=
  if V =? 1 then mkR 1 PIPESIZE (λ pi _, byte_chunk PIPESIZE (nread pi)) true false
  else if V =? 2 then
    mkR 2 PIPESIZE (λ pi, bulk_chunk PIPESIZE (nread pi) (avail_of pi)) false false
  else if V =? 3 then
    mkR 3 (N_BUFS * BUFSIZE)
      (λ pi, row_chunk (N_BUFS * BUFSIZE) BUFSIZE (nread pi) (avail_of pi)) false false
  else if V =? 4 then
    mkR 4 (DATA_PAGES * PGSIZE)
      (λ pi, bulk_chunk (DATA_PAGES * PGSIZE) (nread pi) (avail_of pi)) false false
  else
    mkR V (DATA_PAGES * PGSIZE)
      (λ pi, bulk_chunk (DATA_PAGES * PGSIZE) (nread pi) (avail_of pi)) false true.

(** What a chunk computation guarantees: it starts at the ring position and
    stays inside the data or free part and inside the buffer. *)
Definition chunk_ok (T : Z) (chunk : pipe → Z → Z * Z) (pos avail : pipe → Z) : Prop :=
  ∀ pi rem, pipe_wf T pi → 0 < avail pi → 0 < rem < 2147483648 →
    ∃ c, chunk pi rem = (pos pi mod T, c) ∧
      0 < c ∧ c <= rem ∧ c <= avail pi ∧ pos pi mod T + c <= T.

Section chunks.
Context (T : Z) `{!RingSize T}.

Lemma byte_chunk_ok (pos avail : pipe → Z) :
  chunk_ok T (λ pi _, byte_chunk T (pos pi)) pos avail.
Proof.
  intros pi rem _ Ha Hr. pose proof (ring_pos (T:=T)). exists 1. split; [done|].
  pose proof (Z.mod_pos_bound (pos pi) T ltac:(lia)). lia.
Qed.

Lemma bulk_chunk_ok (pos avail : pipe → Z) :
  (∀ pi, pipe_wf T pi → 0 <= avail pi <= T) →
  chunk_ok T (λ pi, bulk_chunk T (pos pi) (avail pi)) pos avail.
Proof.
  intros Hav pi rem Hwf Ha Hr. pose proof (ring_pos (T:=T)). specialize (Hav pi Hwf).
  pose proof (Z.mod_pos_bound (pos pi) T ltac:(lia)).
  unfold bulk_chunk. eexists. split; [done|].
  rewrite (u32_small rem), (u32_small (T - _)) by lia.
  unfold umin. repeat zcase; rewrite i32_small by lia; lia.
Qed.

Lemma row_chunk_ok (B : Z) (pos avail : pipe → Z) :
  0 < B → (B | T) → (∀ pi, pipe_wf T pi → 0 <= avail pi <= T) →
  chunk_ok T (λ pi, row_chunk T B (pos pi) (avail pi)) pos avail.
Proof.
  intros HB [q Hq] Hav pi rem Hwf Ha Hr. pose proof (ring_pos (T:=T)). specialize (Hav pi Hwf).
  pose proof (Z.mod_pos_bound (pos pi) T ltac:(lia)).
  set (x := pos pi mod T) in *.
  pose proof (Z.mod_pos_bound x B ltac:(lia)) as Hm.
  pose proof (Z.div_mod x B ltac:(lia)) as Hdm.
  assert (x / B < q) by (apply Z.div_lt_upper_bound; lia).
  assert (0 <= x / B) by (apply Z.div_pos; lia).
  assert (B * (x / B + 1) <= B * q) by (apply Z.mul_le_mono_nonneg_l; lia).
  assert (B * 1 <= B * q) by (apply Z.mul_le_mono_nonneg_l; lia).
  unfold row_chunk. fold x. eexists. split; [f_equal; lia|].
  rewrite (u32_small rem), (u32_small (B - _)) by lia.
  assert (x + (B - x mod B) <= T) by lia.
  unfold umin. repeat zcase; rewrite i32_small by lia; lia.
Qed.
End chunks.

Lemma free_of_range T `{!RingSize T} pi : pipe_wf T pi → free_of T pi = T - count pi.
Proof. intros. unfold free_of. by rewrite free_slots_eq. Qed.

Lemma w_total_of V : w_total (wcfg_of V) = PIPE_TOTAL V.
Proof. unfold wcfg_of, PIPE_TOTAL. repeat zcase; simpl; done || lia. Qed.

Lemma r_total_of V : r_total (rcfg_of V) = PIPE_TOTAL V.
Proof. unfold rcfg_of, PIPE_TOTAL. repeat zcase; simpl; done || lia. Qed.

Lemma chunk_ok_ext T chunk chunk' pos avail avail' :
  (∀ pi rem, chunk pi rem = chunk' pi rem) →
  (∀ pi, pipe_wf T pi → avail pi = avail' pi) →
  chunk_ok T chunk pos avail → chunk_ok T chunk' pos avail'.
Proof.
  intros Hc Ha Hok pi rem Hwf. rewrite <-Ha, <-Hc by done. by apply Hok.
Qed.

Section side_chunks.
Context (T : Z) `{!RingSize T}.

Lemma wf_count pi : pipe_wf T pi → 0 <= count pi <= T.
Proof. intros (_ & _ & ? & _). pose proof (count_range pi). lia. Qed.

Lemma wf_free pi : pipe_wf T pi → 0 <= free_of T pi <= T.
Proof. intros Hwf. rewrite free_of_range by done. pose proof (wf_count pi Hwf). lia. Qed.

Lemma bulk_w_ok :
  chunk_ok T (λ pi, bulk_chunk T (nwrite pi) (free_of T pi)) nwrite (λ pi, T - count pi).
Proof.
  eapply chunk_ok_ext; [done|by apply free_of_range|].
  apply bulk_chunk_ok; [done|apply wf_free].
Qed.

Lemma row_w_ok B : 0 < B → (B | T) →
  chunk_ok T (λ pi, row_chunk T B (nwrite pi) (free_of T pi)) nwrite (λ pi, T - count pi).
Proof.
  intros. eapply chunk_ok_ext; [done|by apply free_of_range|].
  apply row_chunk_ok; try done. apply wf_free.
Qed.

Lemma bulk_r_ok : chunk_ok T (λ pi, bulk_chunk T (nread pi) (avail_of pi)) nread count.
Proof. apply bulk_chunk_ok; [done|apply wf_count]. Qed.

Lemma row_r_ok B : 0 < B → (B | T) →
  chunk_ok T (λ pi, row_chunk T B (nread pi) (avail_of pi)) nread count.
Proof. intros. apply row_chunk_ok; try done. apply wf_count. Qed.
End side_chunks.

(** Every version's writer and reader computes admissible chunks. *)
Lemma w_chunk_ok V :
  chunk_ok (PIPE_TOTAL V) (w_chunk (wcfg_of V)) nwrite (λ pi, PIPE_TOTAL V - count pi).
Proof.
  pose proof (ring_PIPE_TOTAL V) as HR.
  unfold wcfg_of, PIPE_TOTAL in *. repeat zcase; simpl in *; try lia.
  - by apply byte_chunk_ok.
  - by apply bulk_w_ok.
  - apply row_w_ok; [done|done|by exists N_BUFS].
  - by apply bulk_w_ok.
  - by apply bulk_w_ok.
Qed.

Lemma r_chunk_ok V : chunk_ok (PIPE_TOTAL V) (r_chunk (rcfg_of V)) nread count.
Proof.
  pose proof (ring_PIPE_TOTAL V) as HR.
  unfold rcfg_of, PIPE_TOTAL in *. repeat zcase; simpl in *; try lia.
  - by apply byte_chunk_ok.
  - by apply bulk_r_ok.
  - apply row_r_ok; [done|done|by exists N_BUFS].
  - by apply bulk_r_ok.
  - by apply bulk_r_ok.
Qed.

Section programs.
Context {M : Type} `{UserMem M}.
Implicit Types s : pst M.

Definition wstep (c : wcfg) (me : nat) (addr n : Z) (pc : wpc) (s : pst M) : wpc * pst M :=
  let pi := pp s in
  match pc with
  | WEnter => (WLoop 0 (if w_lazy c then bool_to_Z (nwrite pi =? nread pi) else 0), s)
  | WLoop i nw =>
      if i <? n then
        if (readopen pi =? 0) || is_killed me s then (WRet (-1), s)
        else if nwrite pi =? u32 (nread pi + w_total c) then
          (WAsleep i nw, sleep_writer me (wake_readers (w_ver c) me s))
        else
          let '(slot, k) := w_chunk c pi (n - i) in
          let '(m, r, bs) := copyin (um s) (u64 (addr + i)) k in
          let pi' := set_pdata (splice (pdata pi) slot bs) pi in
          if r =? -1 then (WExit i nw, mkP (if w_direct c then pi' else pi) m (ptab s))
          else (WLoop (i + k) nw, mkP (set_nwrite (u32 (nwrite pi + k)) pi') m (ptab s))
      else (WExit i nw, s)
  | WAsleep i nw => (WLoop i (if w_lazy c then 1 else nw), resume me s)
  | WExit i nw =>
      (WRet i, if w_lazy c
               then if negb (nw =? 0) && (0 <? i) then wake_readers (w_ver c) me s else s
               else wake_readers (w_ver c) me s)
  | WRet r => (WRet r, s)
  end.

Definition rstep (c : rcfg) (me : nat) (addr n : Z) (pc : rpc) (s : pst M) : rpc * pst M :=
  let pi := pp s in
  match pc with
  | REnter => (RWait, s)
  | RWait =>
      if (nread pi =? nwrite pi) && negb (writeopen pi =? 0) then
        if is_killed me s then (RRet (-1), s) else (RAsleep, sleep_reader me s)
      else (RLoop 0 (if r_lazy c then bool_to_Z (nwrite pi =? u32 (nread pi + r_total c))
                     else 0), s)
  | RAsleep => (RWait, resume me s)
  | RLoop i fl =>
      if i <? n then
        if nread pi =? nwrite pi then (RExit i fl, s)
        else
          let '(slot, k) := r_chunk c pi (n - i) in
          let pi' := set_nread (u32 (nread pi + k)) pi in
          let '(m, r) := copyout (um s) (u64 (addr + i)) (slice (pdata pi) slot k) in
          if r =? -1 then
            (RExit (if r_first c then i else if i =? 0 then -1 else i) fl,
             mkP (if r_first c then pi' else pi) m (ptab s))
          else (RLoop (i + k) fl, mkP pi' m (ptab s))
      else (RExit i fl, s)
  | RExit i fl =>
      (RRet i, if r_lazy c
               then if negb (fl =? 0) && (0 <? i) then wake_writers (r_ver c) me s else s
               else wake_writers (r_ver c) me s)
  | RRet r => (RRet r, s)
  end.

(** The translated versions are the generic programs. *)
Lemma pipewrite_gen V me addr n pc s :
  pipewrite V me addr n pc s = wstep (wcfg_of V) me addr n pc s.
Proof. unfold pipewrite, wcfg_of. repeat zcase; destruct pc; reflexivity. Qed.

Lemma piperead_gen V me addr n pc s :
  piperead V me addr n pc s = rstep (rcfg_of V) me addr n pc s.
Proof. unfold piperead, rcfg_of. repeat zcase; destruct pc; reflexivity. Qed.

(** The [n] bytes of user memory at [a]. *)
Definition ubytes (m : M) (a n : Z) : list Z :=
  (λ k, default 0 (uget m (u64 (a + k)))) <$> seqZ 0 n.

Lemma ubytes_length m a n : 0 <= n → zlen (ubytes m a n) = n.
Proof. intros. unfold ubytes, zlen. rewrite length_fmap, length_seqZ. lia. Qed.

Lemma ubytes_aget m a n k :
  0 <= k < n → aget (ubytes m a n) k = default 0 (uget m (u64 (a + k))).
Proof.
  intros. unfold aget, ubytes. rewrite list_lookup_fmap, lookup_seqZ_lt by lia. simpl.
  do 4 f_equal. lia.
Qed.

Lemma ubytes_eq m a bs :
  (∀ k, 0 <= k < zlen bs → uget m (u64 (a + k)) = Some (aget bs k)) →
  ubytes m a (zlen bs) = bs.
Proof.
  intros Hk. apply aget_ext.
  - pose proof (ubytes_length m a (zlen bs) (zlen_nonneg bs)). unfold zlen in *. lia.
  - rewrite ubytes_length by apply zlen_nonneg. intros j Hj.
    by rewrite ubytes_aget, Hk by done.
Qed.

Lemma ubytes_app m a n k :
  0 <= n → 0 <= k → ubytes m a (n + k) = ubytes m a n ++ ubytes m (a + n) k.
Proof.
  intros. apply aget_ext.
  - pose proof (zlen_app (ubytes m a n) (ubytes m (a + n) k)) as Hz.
    rewrite !ubytes_length in Hz by lia.
    pose proof (ubytes_length m a (n + k) ltac:(lia)). unfold zlen in *. lia.
  - rewrite ubytes_length by lia. intros j Hj.
    rewrite aget_app, !ubytes_aget, ubytes_length by lia.
    zcase; [by rewrite ubytes_aget by lia|].
    rewrite ubytes_aget by lia. do 3 f_equal. lia.
Qed.

Lemma ubytes_ext m m' a a' n :
  (∀ k, 0 <= k < n → uget m' (u64 (a' + k)) = uget m (u64 (a + k))) →
  ubytes m' a' n = ubytes m a n.
Proof.
  intros Hk. unfold ubytes. apply list_fmap_ext. intros i x Hi.
  apply lookup_seqZ in Hi as [-> Hi]. rewrite !Z.add_0_l. rewrite Hk by lia. done.
Qed.

Lemma ubytes_u64 m a n : ubytes m (u64 a) n = ubytes m a n.
Proof. apply ubytes_ext. intros. by rewrite u64_add_l. Qed.
End programs.

(** ** One loop turn against the byte queue *)

(** The fields [pipewrite] and [piperead] never touch. *)
Definition same_hdr (pi pi' : pipe) : Prop :=
  paddr pi' = paddr pi ∧ pdata_page pi' = pdata_page pi ∧
  readopen pi' = readopen pi ∧ writeopen pi' = writeopen pi.

Section steps.
Context {M : Type} `{UserMemLaws M}.
Context (V : Z).
Local Abbreviation T := (PIPE_TOTAL V).
Implicit Types s : pst M.

#[local] Instance V_ring : RingSize T := ring_PIPE_TOTAL V.

(** What one copying turn of [pipewrite] does: it either appends the next [k]
    user bytes, or hits an unreadable address and leaves the queue alone. *)
Lemma wstep_copy me addr n i nw s :
  um_ok (um s) → pipe_wf T (pp s) → 0 <= i < n → n < 2147483648 →
  readopen (pp s) ≠ 0 → is_killed me s = false → count (pp s) < T →
  ∃ s', same_hdr (pp s) (pp s') ∧ ptab s' = ptab s ∧ um_ok (um s') ∧
    (∀ va, uget (um s') va = uget (um s) va) ∧
    (∀ va, readable (um s) va → readable (um s') va) ∧ pipe_wf T (pp s') ∧
    ((∃ k, 0 < k ∧ k <= n - i ∧ k <= T - count (pp s) ∧
        pipewrite V me addr n (WLoop i nw) s = (WLoop (i + k) nw, s') ∧
        contents T (pp s') = contents T (pp s) ++ ubytes (um s) (addr + i) k ∧
        count (pp s') = count (pp s) + k) ∨
     (pipewrite V me addr n (WLoop i nw) s = (WExit i nw, s') ∧
      contents T (pp s') = contents T (pp s) ∧ count (pp s') = count (pp s) ∧
      ¬ (∀ k, 0 <= k < n - i → readable (um s) (u64 (addr + i + k))))).
Proof.
  intros Hok Hwf Hi Hn Hro Hk Hfull. rewrite pipewrite_gen. simpl.
  destruct (Z.ltb_spec i n); [|lia]. destruct (Z.eqb_spec (readopen (pp s)) 0); [done|].
  rewrite Hk. simpl. rewrite w_total_of, (full_count T) by done.
  destruct (Z.eqb_spec (count (pp s)) T); [lia|].
  destruct (w_chunk_ok V (pp s) (n - i) Hwf) as (c & -> & Hc0 & Hcr & Hca & Hce); [lia|lia|].
  destruct (copyin (um s) (u64 (addr + i)) c) as [[m r] bs] eqn:Hcp.
  destruct (copyin_spec (um s) _ c m r bs Hok ltac:(lia) Hcp) as (Hok' & Hv & Hbs & Hr).
  pose proof (λ va, copyin_keeps_readable _ _ _ _ _ _ va Hok Hcp) as Hkr.
  destruct Hr as [[-> Hlen]|[-> Hlen]]; simpl.
  - rewrite <-Hlen in *.
    destruct (append_contents T (pp s) bs Hwf) as (Hwf' & Hcon & Hcnt); [lia|lia|].
    eexists (mkP _ m (ptab s)). split_and!; cycle -1.
    { left. exists (zlen bs). split_and!; try done; simpl.
      rewrite Hcon, <-ubytes_u64, ubytes_eq; [done|]. intros j Hj. by rewrite Hbs. }
    all: done.
  - destruct (store_contents T (pp s) bs Hwf) as (Hwf' & Hcon); [lia|lia|].
    eexists (mkP _ m (ptab s)). split_and!; cycle -1.
    { right. split_and!; [done|by destruct (w_direct (wcfg_of V))..|].
      intros Hall. assert (-1 = 0); [|done].
      eapply (copyin_readable (um s)); [done| |exact Hcp|]; [lia|].
      intros k Hk'. rewrite u64_add_l. apply Hall. lia. }
    all: simpl; by destruct (w_direct (wcfg_of V)).
Qed.

(** What one copying turn of [piperead] does: it moves the next [k] bytes of
    the queue to user memory, or hits an unwritable address; then version 1
    has lost the byte and the other versions keep the queue. *)
Lemma rstep_copy me addr n i fl s :
  um_ok (um s) → pipe_wf T (pp s) → 0 <= i < n → n < 2147483648 → 0 < count (pp s) →
  ∃ s', same_hdr (pp s) (pp s') ∧ ptab s' = ptab s ∧ um_ok (um s') ∧
    (∀ va, writable (um s) va → writable (um s') va) ∧ pipe_wf T (pp s') ∧
    ((∃ k, 0 < k ∧ k <= n - i ∧ k <= count (pp s) ∧
        piperead V me addr n (RLoop i fl) s = (RLoop (i + k) fl, s') ∧
        contents T (pp s) = ubytes (um s') (addr + i) k ++ contents T (pp s') ∧
        count (pp s') = count (pp s) - k ∧
        (∀ va, (∀ j, 0 <= j < k → va ≠ u64 (addr + i + j)) →
           uget (um s') va = uget (um s) va)) ∨
     (∃ i', piperead V me addr n (RLoop i fl) s = (RExit i' fl, s') ∧
        (if V =? 1 then i' = i ∧ ∃ b, contents T (pp s) = b :: contents T (pp s') ∧
           (copyout (um s) (u64 (addr + i)) [b]).2 = -1
         else i' = (if i =? 0 then -1 else i) ∧ pp s' = pp s) ∧
        ¬ (∀ k, 0 <= k < n - i → writable (um s) (u64 (addr + i + k))) ∧
        (∀ va, (∀ j, 0 <= j < n - i → va ≠ u64 (addr + i + j)) →
           uget (um s') va = uget (um s) va))).
Proof.
  intros Hok Hwf Hi Hn Hpos. rewrite piperead_gen. simpl.
  destruct (Z.ltb_spec i n); [|lia]. rewrite (empty_count T) by done.
  destruct (Z.eqb_spec (count (pp s)) 0); [lia|].
  destruct (r_chunk_ok V (pp s) (n - i) Hwf) as (c & Hch & Hc0 & Hcr & Hca & Hce); [lia|lia|].
  assert (V = 1 → c = 1) as Hc1.
  { intros ->. unfold rcfg_of in Hch. simpl in Hch. unfold byte_chunk in Hch. congruence. }
  rewrite Hch.
  pose proof (Z.mod_pos_bound (nread (pp s)) T) as Hmb. pose proof (ring_pos (T:=T)) as HT.
  destruct (take_contents T (pp s) c Hwf) as (Hwf' & Hcon & Hcnt); [lia|lia|].
  assert (zlen (slice (pdata (pp s)) (nread (pp s) mod T) c) = c) as Hsl.
  { destruct Hwf as (_ & _ & _ & Hlen). apply slice_length; lia. }
  destruct (copyout (um s) (u64 (addr + i)) _) as [m r] eqn:Hcp.
  destruct (copyout_spec (um s) _ (slice (pdata (pp s)) (nread (pp s) mod T) c) m r Hok ltac:(lia) Hcp) as (Hok' & k & Hk & Hin & Hout & Hr).
  pose proof (λ va, copyout_keeps_writable _ _ _ _ _ va Hok Hcp) as Hkw.
  destruct Hr as [[-> ->]|[-> Hlt]]; simpl.
  - rewrite Hsl in *. eexists (mkP _ m (ptab s)). split_and!; cycle -1.
    { left. exists c. split_and!; try done; simpl.
      - rewrite Hcon. f_equal. rewrite <-ubytes_u64. rewrite <-Hsl at 2. symmetry.
        apply ubytes_eq. intros j Hj. rewrite Hsl in Hj. by rewrite Hin.
      - intros va Hva. apply Hout. intros j Hj. rewrite u64_add_l. by apply Hva. }
    all: done.
  - eexists (mkP _ m (ptab s)). split_and!; cycle -1.
    { right. eexists. split_and!; [done| | |].
      - unfold rcfg_of. destruct (Z.eqb_spec V 1) as [->|HV1]; simpl.
        { rewrite Hc1 in * by done. split; [done|].
          destruct (slice _ _ 1) as [|b [|]] eqn:Hs; unfold zlen in Hsl; simpl in Hsl; [lia| |lia].
          exists b. rewrite Hcp. by rewrite Hcon. }
        by repeat zcase.
      - intros Hall. assert (-1 = 0); [|done].
        eapply (copyout_writable (um s)); [done|exact Hcp|].
        intros j Hj. rewrite u64_add_l. apply Hall. lia.
      - simpl. intros va Hva. apply Hout. intros j Hj. rewrite u64_add_l. apply Hva. lia. }
    all: simpl; by destruct (r_first (rcfg_of V)).
Qed.
End steps.
