(* ===== verification/PipeRun.v ===== *)
(** * Whole calls of pipewrite and piperead

    [wrun]/[rrun] run a call until it returns or goes to sleep, with no other
    process taking a step in between.  The loop lemmas give every outcome; the
    properties at the end state functional correctness, termination, the error
    returns and the equivalence of the versions. *)
From S2P Require Import Prelude Riscv Proc UserMem Pipe PipeRing PipeProg.

Section runs.
Context {M : Type} `{UserMem M}.

(** Run to the next return or sleep; the fuel bounds the loop turns. *)
Fixpoint wrun (V : Z) (fuel : nat) (me : nat) (addr n : Z) (pc : wpc) (s : pst M)
    : wpc * pst M :=
  match pc, fuel with
  | WRet _, _ | WAsleep _ _, _ | _, O => (pc, s)
  | _, S f => let '(pc', s') := pipewrite V me addr n pc s in wrun V f me addr n pc' s'
  end.

Fixpoint rrun (V : Z) (fuel : nat) (me : nat) (addr n : Z) (pc : rpc) (s : pst M)
    : rpc * pst M :=
  match pc, fuel with
  | RRet _, _ | RAsleep, _ | _, O => (pc, s)
  | _, S f => let '(pc', s') := piperead V me addr n pc s in rrun V f me addr n pc' s'
  end.
End runs.

Lemma w_ver_of V : w_ver (wcfg_of V) = V.
Proof. unfold wcfg_of. by repeat zcase. Qed.

Lemma r_ver_of V : r_ver (rcfg_of V) = V.
Proof. unfold rcfg_of. by repeat zcase. Qed.

Lemma w_lazy_of V : 1 <= V → w_lazy (wcfg_of V) = (5 <=? V).
Proof. intros. unfold wcfg_of. repeat zcase; simpl; done || lia. Qed.

Lemma r_lazy_of V : 1 <= V → r_lazy (rcfg_of V) = (5 <=? V).
Proof. intros. unfold rcfg_of. repeat zcase; simpl; done || lia. Qed.

Section loops.
Context {M : Type} `{UserMemLaws M}.
Context (V : Z).
Local Abbreviation T := (PIPE_TOTAL V).
Implicit Types s : pst M.

#[local] Instance V_ring' : RingSize T := ring_PIPE_TOTAL V.

(** The process table after [pipewrite] falls out of its loop. *)
Definition wexit_tab (me : nat) (i nw : Z) s : list proc :=
  if w_lazy (wcfg_of V) && ((nw =? 0) || (i <=? 0)) then ptab s
  else wakeup V (Some me) (ChNread (paddr (pp s))) (ptab s).

Definition rexit_tab (me : nat) (i fl : Z) s : list proc :=
  if r_lazy (rcfg_of V) && ((fl =? 0) || (i <=? 0)) then ptab s
  else wakeup V (Some me) (ChNwrite (paddr (pp s))) (ptab s).

Lemma wstep_exit me addr n i nw s :
  pipewrite V me addr n (WExit i nw) s = (WRet i, with_tab (wexit_tab me i nw s) s).
Proof.
  rewrite pipewrite_gen. simpl. unfold wexit_tab, wake_readers. rewrite w_ver_of.
  destruct s; simpl. destruct (w_lazy _); simpl; [|done].
  destruct (Z.eqb_spec nw 0); simpl; [done|].
  destruct (Z.ltb_spec 0 i), (Z.leb_spec i 0); done || lia.
Qed.

Lemma rstep_exit me addr n i fl s :
  piperead V me addr n (RExit i fl) s = (RRet i, with_tab (rexit_tab me i fl s) s).
Proof.
  rewrite piperead_gen. simpl. unfold rexit_tab, wake_writers. rewrite r_ver_of.
  destruct s; simpl. destruct (r_lazy _); simpl; [|done].
  destruct (Z.eqb_spec fl 0); simpl; [done|].
  destruct (Z.ltb_spec 0 i), (Z.leb_spec i 0); done || lia.
Qed.

(** What a run of [pipewrite] from the loop head ends in, when [j] bytes in
    all have been accepted. *)
Definition wdone (me : nat) (addr n i nw : Z) s (j : Z) (pc : wpc) s' : Prop :=
  match pc with
  | WRet r =>
      (r = j ∧ ptab s' = wexit_tab me j nw s ∧
         (j = n ∨ ¬ (∀ k, 0 <= k < n → readable (um s) (u64 (addr + k))))) ∨
      (r = -1 ∧ j = i ∧ i < n ∧ s' = s ∧ (readopen (pp s) = 0 ∨ is_killed me s = true))
  | WAsleep i' nw' =>
      i' = j ∧ nw' = nw ∧ j < n ∧ count (pp s') = T ∧
      readopen (pp s) ≠ 0 ∧ is_killed me s = false ∧
      ptab s' = sleep_begin me (ChNwrite (paddr (pp s)))
                  (wakeup V (Some me) (ChNread (paddr (pp s))) (ptab s))
  | _ => False
  end.

Lemma wrun_loop me addr n nw : n < 2147483648 → ∀ fuel i s,
  um_ok (um s) → pipe_wf T (pp s) → 0 <= i <= n → n - i + 2 <= Z.of_nat fuel →
  ∃ j pc s', wrun V fuel me addr n (WLoop i nw) s = (pc, s') ∧ i <= j <= n ∧
    same_hdr (pp s) (pp s') ∧ um_ok (um s') ∧
    (∀ va, uget (um s') va = uget (um s) va) ∧ pipe_wf T (pp s') ∧
    contents T (pp s') = contents T (pp s) ++ ubytes (um s) (addr + i) (j - i) ∧
    wdone me addr n i nw s j pc s'.
Proof.
  intros Hn fuel. induction fuel as [|fuel IH]; intros i s Hok Hwf Hi Hfuel; [lia|].
  destruct (decide (i = n)) as [->|Hin].
  { destruct fuel as [|fuel]; [lia|]. simpl. rewrite pipewrite_gen. simpl.
    rewrite Z.ltb_irrefl, wstep_exit.
    exists n, (WRet n). eexists. split; [by destruct fuel|]. simpl.
    rewrite Z.sub_diag, app_nil_r. split_and!; try done; try lia. left. auto. }
  destruct (decide (readopen (pp s) = 0 ∨ is_killed me s = true)) as [Hstop|Hgo].
  { simpl. rewrite pipewrite_gen. simpl. destruct (Z.ltb_spec i n); [|lia].
    assert ((readopen (pp s) =? 0) || is_killed me s = true) as ->.
    { destruct Hstop as [->| ->]; [done|]. by rewrite orb_true_r. }
    exists i, (WRet (-1)), s. split; [by destruct fuel|].
    rewrite Z.sub_diag, app_nil_r. split_and!; try done; try lia. right. auto with lia. }
  assert (readopen (pp s) ≠ 0) as Hro by tauto.
  assert (is_killed me s = false) as Hk by (apply not_true_is_false; tauto).
  destruct (decide (count (pp s) = T)) as [Hfull|Hfull].
  { simpl. rewrite pipewrite_gen. simpl. destruct (Z.ltb_spec i n); [|lia].
    destruct (Z.eqb_spec (readopen (pp s)) 0); [done|]. rewrite Hk. simpl.
    rewrite w_total_of, (full_count T), Hfull, Z.eqb_refl by done.
    eexists i, _, _. split; [by destruct fuel|]. rewrite Z.sub_diag, app_nil_r.
    rewrite w_ver_of. split_and!; try done; lia. }
  assert (count (pp s) < T) as Hlt by (destruct Hwf as (_ & _ & ? & _); lia).
  destruct (wstep_copy V me addr n i nw s Hok Hwf) as
    (s1 & Hh1 & Ht1 & Hok1 & Hv1 & Hr1 & Hwf1 &
      [(k & Hk0 & Hk1 & Hk2 & Hst & Hc1 & Hcnt1)|(Hst & Hc1 & Hcnt1 & Hnr)]); try done; try lia.
  - simpl. rewrite Hst.
    destruct (IH (i + k) s1) as
      (j & pc & s' & Hrun & Hj & Hh & Hok' & Hv & Hwf' & Hc & Hd); try done; try lia.
    exists j, pc, s'. split; [done|]. destruct Hh1 as (Hpa & Hpd & Hro1 & Hwo1).
    destruct Hh as (Hpa' & Hpd' & Hro' & Hwo').
    split_and!; try done; try lia.
    + unfold same_hdr. split_and!; congruence.
    + by intros va; rewrite Hv, Hv1.
    + rewrite Hc, Hc1, <-app_assoc. f_equal.
      replace (j - i) with (k + (j - (i + k))) by lia. rewrite ubytes_app by lia. f_equal.
      rewrite Z.add_assoc. apply ubytes_ext. auto.
    + destruct pc as [| |i' nw'| |r]; try done; simpl in Hd |- *.
      * rewrite Ht1, Hpa, Hro1 in Hd. unfold is_killed in *. by rewrite Ht1 in Hd.
      * destruct Hd as [(-> & Htab & Hend)|(? & -> & ? & -> & Hbad)].
        -- left. split; [done|]. unfold wexit_tab in *. rewrite Ht1, Hpa in Htab.
           split; [done|]. destruct Hend as [->|Hend]; [by left|right].
           intros Hall. apply Hend. auto.
        -- exfalso. unfold is_killed in *. rewrite Ht1, Hro1 in Hbad.
           destruct Hbad as [Hb|Hb]; [done|congruence].
  - destruct fuel as [|fuel]; [lia|]. simpl. rewrite Hst, wstep_exit.
    exists i, (WRet i). eexists. split; [by destruct fuel|].
    rewrite Z.sub_diag, app_nil_r. simpl. split_and!; try done; try lia.
    left. split_and!; [done| |].
    { destruct Hh1 as (Hpa & _). unfold wexit_tab. by rewrite Ht1, Hpa. }
    right. intros Hall. apply Hnr. intros k Hk'.
    replace (addr + i + k) with (addr + (i + k)) by lia. apply Hall. lia.
Qed.

(** What a run of [piperead] from the copy loop ends in, when [j] bytes in
    all have been delivered. *)
Definition rdone (me : nat) (addr n i fl : Z) s (j : Z) (pc : rpc) s' : Prop :=
  match pc with
  | RRet r =>
      ptab s' = rexit_tab me r fl s ∧
      ((r = j ∧ (j = n ∨ count (pp s') = 0) ∧
        contents T (pp s) = ubytes (um s') (addr + i) (j - i) ++ contents T (pp s')) ∨
       (¬ (∀ k, 0 <= k < n → writable (um s) (u64 (addr + k))) ∧
        if V =? 1 then
          r = j ∧ ∃ b, contents T (pp s) =
                        ubytes (um s') (addr + i) (j - i) ++ b :: contents T (pp s')
        else
          r = (if j =? 0 then -1 else j) ∧
          contents T (pp s) = ubytes (um s') (addr + i) (j - i) ++ contents T (pp s')))
  | _ => False
  end.

(** Bytes already delivered are not overwritten by later turns. *)
Lemma ubytes_frame (m m' : M) addr i k n :
  0 <= i → 0 <= k → i + k <= n → n < 2147483648 →
  (∀ va, (∀ j, 0 <= j < n - (i + k) → va ≠ u64 (addr + (i + k) + j)) →
     uget m' va = uget m va) →
  ubytes m' (addr + i) k = ubytes m (addr + i) k.
Proof.
  intros Hi Hk Hik Hn Hfr. apply ubytes_ext. intros x Hx. apply Hfr. intros j Hj Heq.
  replace (addr + i + x) with (addr + (i + x)) in Heq by lia.
  replace (addr + (i + k) + j) with (addr + (i + k + j)) in Heq by lia.
  apply u64_distinct in Heq; lia.
Qed.

Lemma rrun_loop me addr n fl : n < 2147483648 → ∀ fuel i s,
  um_ok (um s) → pipe_wf T (pp s) → 0 <= i <= n → n - i + 2 <= Z.of_nat fuel →
  ∃ j pc s', rrun V fuel me addr n (RLoop i fl) s = (pc, s') ∧ i <= j <= n ∧
    same_hdr (pp s) (pp s') ∧ um_ok (um s') ∧ pipe_wf T (pp s') ∧
    (∀ va, (∀ x, 0 <= x < n - i → va ≠ u64 (addr + i + x)) →
       uget (um s') va = uget (um s) va) ∧
    rdone me addr n i fl s j pc s'.
Proof.
  intros Hn fuel. induction fuel as [|fuel IH]; intros i s Hok Hwf Hi Hfuel; [lia|].
  assert (0 <= count (pp s)) as Hc0 by apply count_range.
  destruct (decide (i = n ∨ count (pp s) = 0)) as [Hend|Hgo].
  { assert (piperead V me addr n (RLoop i fl) s = (RExit i fl, s)) as Hst.
    { rewrite piperead_gen. simpl. rewrite (empty_count T) by done.
      destruct (Z.ltb_spec i n); [|done]. destruct Hend as [->| ->]; [lia|done]. }
    destruct fuel as [|fuel]; [lia|]. simpl. rewrite Hst, rstep_exit.
    exists i, (RRet i). eexists. split; [by destruct fuel|]. simpl.
    rewrite Z.sub_diag. split_and!; try done; try lia. left. done. }
  destruct (rstep_copy V me addr n i fl s Hok Hwf) as
    (s1 & Hh1 & Ht1 & Hok1 & Hw1 & Hwf1 &
      [(k & Hk0 & Hk1 & Hk2 & Hst & Hc1 & Hcnt1 & Hfr1)
      |(i' & Hst & Hcase & Hnw & Hfr1)]); try done; try lia.
  - simpl. rewrite Hst.
    destruct (IH (i + k) s1) as
      (j & pc & s' & Hrun & Hj & Hh & Hok' & Hwf' & Hfr & Hd); try done; try lia.
    exists j, pc, s'. split; [done|]. destruct Hh1 as (Hpa & Hpd & Hro1 & Hwo1).
    destruct Hh as (Hpa' & Hpd' & Hro' & Hwo').
    assert (ubytes (um s') (addr + i) (j - i) =
            ubytes (um s1) (addr + i) k ++ ubytes (um s') (addr + (i + k)) (j - (i + k))) as Hub.
    { replace (j - i) with (k + (j - (i + k))) by lia. rewrite ubytes_app by lia.
      rewrite (ubytes_frame (um s1) (um s') addr i k n) by (done || lia).
      by rewrite Z.add_assoc. }
    split_and!; try done; try lia.
    + unfold same_hdr. split_and!; congruence.
    + intros va Hva. rewrite Hfr, Hfr1; [done|..].
      * intros x Hx. apply Hva. lia.
      * intros x Hx. replace (addr + (i + k) + x) with (addr + i + (k + x)) by lia.
        apply Hva. lia.
    + destruct pc as [| | | | |r]; try done. simpl in Hd |- *. unfold rexit_tab in *.
      rewrite Ht1, Hpa in Hd. destruct Hd as [Htab Hd]. split; [done|].
      rewrite Hub, Hc1, <-!app_assoc. destruct Hd as [(-> & Hend & ->)|[Hnw Hd]]; [by left|].
      right. split; [intros Hall; apply Hnw; auto|].
      destruct (V =? 1).
      * destruct Hd as [-> [b ->]]. split; [done|]. exists b. by rewrite <-app_assoc.
      * by destruct Hd as [-> ->].
  - destruct fuel as [|fuel]; [lia|]. simpl. rewrite Hst, rstep_exit.
    exists i, (RRet i'). eexists. split; [by destruct fuel|]. simpl.
    rewrite Z.sub_diag. simpl. split_and!; try done; try lia.
    { unfold rexit_tab. destruct Hh1 as (Hpa & _). by rewrite Ht1, Hpa. }
    right. split.
    { intros Hall. apply Hnw. intros k Hk'.
      replace (addr + i + k) with (addr + (i + k)) by lia. apply Hall. lia. }
    destruct (V =? 1); [naive_solver|]. destruct Hcase as [-> Hpp]. by rewrite Hpp.
Qed.
End loops.

Section calls.
Context {M : Type} `{UserMemLaws M}.
Context (V : Z).
Local Abbreviation T := (PIPE_TOTAL V).
Implicit Types s : pst M.

#[local] Instance V_ring'' : RingSize T := ring_PIPE_TOTAL V.

(** [need_wakeup] as computed on entry. *)
Definition need0 s : Z :=
  if w_lazy (wcfg_of V) then bool_to_Z (nwrite (pp s) =? nread (pp s)) else 0.

Definition full0 s : Z :=
  if r_lazy (rcfg_of V) then bool_to_Z (nwrite (pp s) =? u32 (nread (pp s) + T)) else 0.

Lemma wrun_enter fuel me addr n s :
  wrun V (S fuel) me addr n WEnter s = wrun V fuel me addr n (WLoop 0 (need0 s)) s.
Proof. simpl. by rewrite pipewrite_gen. Qed.

Lemma rrun_enter fuel me addr n s :
  (nread (pp s) =? nwrite (pp s)) && negb (writeopen (pp s) =? 0) = false →
  rrun V (S (S fuel)) me addr n REnter s = rrun V fuel me addr n (RLoop 0 (full0 s)) s.
Proof.
  intros Hw. simpl. rewrite !piperead_gen. simpl. rewrite !piperead_gen. simpl.
  rewrite Hw. unfold full0. by rewrite r_total_of.
Qed.

(** All outcomes of a call of [pipewrite]. *)
Lemma wrun_call me addr n s fuel :
  um_ok (um s) → pipe_wf T (pp s) → n < 2147483648 → Z.max 0 n + 3 <= Z.of_nat fuel →
  ∃ j pc s', wrun V fuel me addr n WEnter s = (pc, s') ∧ 0 <= j <= Z.max 0 n ∧
    same_hdr (pp s) (pp s') ∧ um_ok (um s') ∧
    (∀ va, uget (um s') va = uget (um s) va) ∧ pipe_wf T (pp s') ∧
    contents T (pp s') = contents T (pp s) ++ ubytes (um s) addr j ∧
    wdone V me addr (Z.max 0 n) 0 (need0 s) s j pc s'.
Proof.
  intros Hok Hwf Hn Hfuel. destruct fuel as [|fuel]; [lia|]. rewrite wrun_enter.
  destruct (decide (0 <= n)) as [Hpos|Hneg].
  - destruct (wrun_loop V me addr n (need0 s) Hn fuel 0 s) as
      (j & pc & s' & Hrun & Hj & Hh & Hok' & Hv & Hwf' & Hc & Hd); try done; try lia.
    exists j, pc, s'. rewrite Z.max_r by lia. rewrite Z.sub_0_r, Z.add_0_r in Hc. done.
  - destruct fuel as [|[|fuel]]; [lia|lia|].
    exists 0, (WRet 0). eexists. rewrite Z.max_l by lia. split.
    { simpl. rewrite pipewrite_gen. simpl. destruct (Z.ltb_spec 0 n); [lia|].
      rewrite wstep_exit. by destruct fuel. }
    simpl. rewrite app_nil_r. split_and!; try done; try lia. left. auto.
Qed.

(** All outcomes of a call of [piperead] that does not have to wait. *)
Lemma rrun_call me addr n s fuel :
  um_ok (um s) → pipe_wf T (pp s) → 0 <= n < 2147483648 → n + 4 <= Z.of_nat fuel →
  count (pp s) ≠ 0 ∨ writeopen (pp s) = 0 →
  ∃ j r s', rrun V fuel me addr n REnter s = (RRet r, s') ∧ 0 <= j <= n ∧
    same_hdr (pp s) (pp s') ∧ um_ok (um s') ∧ pipe_wf T (pp s') ∧
    (∀ va, (∀ x, 0 <= x < n → va ≠ u64 (addr + x)) → uget (um s') va = uget (um s) va) ∧
    rdone V me addr n 0 (full0 s) s j (RRet r) s'.
Proof.
  intros Hok Hwf Hn Hfuel Hrdy. destruct fuel as [|[|fuel]]; [lia|lia|].
  rewrite rrun_enter.
  2:{ rewrite (empty_count T) by done. destruct (Z.eqb_spec (count (pp s)) 0); [|done].
      destruct Hrdy as [Hx|Hx]; [done|]. by rewrite Hx. }
  destruct (rrun_loop V me addr n (full0 s) ltac:(lia) fuel 0 s) as
    (j & pc & s' & Hrun & Hj & Hh & Hok' & Hwf' & Hfr & Hd); try done; try lia.
  destruct pc as [| | | | |r]; try done. exists j, r, s'.
  rewrite Z.sub_0_r, Z.add_0_r in Hfr. done.
Qed.
End calls.

(** * Properties *)
Section properties.
Context {M : Type} `{UserMemLaws M}.

(** C2: functional correctness of [pipewrite], every version: with the read
    end open, the caller not killed and the user buffer readable, a call on a
    well-formed pipe terminates (after at most [n + 3] steps); it returns [n]
    with exactly the user bytes appended to the queue when they fit, and
    otherwise goes to sleep with the pipe full after appending as many user
    bytes as fit. User memory is not changed. *)
Theorem pipewrite_correct (V : Z) (me : nat) (addr n : Z) (s : pst M) (fuel : nat) :
  um_ok (um s) → pipe_wf (PIPE_TOTAL V) (pp s) → 0 <= n < 2147483648 →
  readopen (pp s) ≠ 0 → killed me (ptab s) = 0 →
  (∀ k, 0 <= k < n → readable (um s) (u64 (addr + k))) →
  n + 3 <= Z.of_nat fuel →
  let free := PIPE_TOTAL V - zlen (contents (PIPE_TOTAL V) (pp s)) in
  ∃ pc s', wrun V fuel me addr n WEnter s = (pc, s') ∧
    pipe_wf (PIPE_TOTAL V) (pp s') ∧ (∀ va, uget (um s') va = uget (um s) va) ∧
    contents (PIPE_TOTAL V) (pp s') =
      contents (PIPE_TOTAL V) (pp s) ++ ubytes (um s) addr (Z.min n free) ∧
    if n <=? free then pc = WRet n
    else ∃ nw, pc = WAsleep free nw ∧ zlen (contents (PIPE_TOTAL V) (pp s')) = PIPE_TOTAL V.
Proof.
  intros Hok Hwf Hn Hro Hk Hall Hfuel free.
  assert (is_killed me s = false) as Hnk by (unfold is_killed; by rewrite Hk).
  destruct (wrun_call V me addr n s fuel) as
    (j & pc & s' & Hrun & Hj & _ & _ & Hv & Hwf' & Hc & Hd); try done; try lia.
  rewrite Z.max_r in * by lia. unfold free in *. rewrite contents_length in *.
  assert (count (pp s') = count (pp s) + j) as Hcnt.
  { rewrite <-(contents_length (PIPE_TOTAL V)), Hc, zlen_app, contents_length, ubytes_length; lia. }
  pose proof (wf_count (PIPE_TOTAL V) _ Hwf'). exists pc, s'.
  destruct pc as [| |i nw| |r]; try done; simpl in Hd.
  - destruct Hd as (-> & -> & Hlt & Hfull & _). split_and!; try done.
    + rewrite Hc. do 2 f_equal. lia.
    + destruct (Z.leb_spec n (PIPE_TOTAL V - count (pp s))); [lia|].
      exists (need0 V s). split; [f_equal; lia|by rewrite contents_length].
  - destruct Hd as [(-> & _ & [->|Hnr])|(_ & _ & _ & _ & [?|Hb])]; [|done..|congruence].
    split_and!; try done.
    + rewrite Hc. do 2 f_equal. lia.
    + destruct (Z.leb_spec n (PIPE_TOTAL V - count (pp s))); [done|lia].
Qed.

(** Every outcome of a call of [pipewrite], also with unreadable user
    memory, a closed read end or a killed caller: the call terminates; a
    return value [r >= 0] is exactly the number of user bytes appended, and
    is short only if some user byte is unreadable; -1 is returned only when
    the read end is closed or the caller is killed, and then the pipe is
    untouched; it sleeps only on a full pipe. *)
Theorem pipewrite_outcomes (V : Z) (me : nat) (addr n : Z) (s : pst M) (fuel : nat) :
  um_ok (um s) → pipe_wf (PIPE_TOTAL V) (pp s) → n < 2147483648 →
  Z.max 0 n + 3 <= Z.of_nat fuel →
  let T := PIPE_TOTAL V in
  ∃ pc s', wrun V fuel me addr n WEnter s = (pc, s') ∧ pipe_wf T (pp s') ∧
    match pc with
    | WRet r =>
        (0 <= r ∧ contents T (pp s') = contents T (pp s) ++ ubytes (um s) addr r ∧
           (r = Z.max 0 n ∨ ¬ (∀ k, 0 <= k < n → readable (um s) (u64 (addr + k))))) ∨
        (r = -1 ∧ s' = s ∧ (readopen (pp s) = 0 ∨ killed me (ptab s) ≠ 0))
    | WAsleep i _ =>
        0 <= i < n ∧ contents T (pp s') = contents T (pp s) ++ ubytes (um s) addr i ∧
        count (pp s') = T
    | _ => False
    end.
Proof.
  intros Hok Hwf Hn Hfuel T.
  destruct (wrun_call V me addr n s fuel) as
    (j & pc & s' & Hrun & Hj & _ & _ & _ & Hwf' & Hc & Hd); try done.
  exists pc, s'. split_and!; try done. destruct pc as [| |i nw| |r]; try done; simpl in Hd.
  - destruct Hd as (-> & _ & Hlt & Hfull & _). split_and!; done || lia.
  - destruct Hd as [(-> & _ & Hend)|(-> & _ & _ & -> & Hb)].
    + left. split_and!; [lia|done|]. destruct Hend as [->|Hnr]; [by left|right].
      intros Hall. apply Hnr. intros k Hk. apply Hall. lia.
    + right. split_and!; try done. destruct Hb as [Hb|Hb]; [by left|right].
      unfold is_killed in Hb. destruct (Z.eqb_spec (killed me (ptab s)) 0); done.
Qed.

(** C3: functional correctness of [piperead], every version: with a writable
    user buffer and data in the pipe (or the write end closed), a call
    terminates and returns [r = min n (bytes in the pipe)]; the first [r]
    bytes of the queue are in user memory at [addr], the rest is still queued
    in order, and no user byte outside the buffer changes. *)
Theorem piperead_correct (V : Z) (me : nat) (addr n : Z) (s : pst M) (fuel : nat) :
  um_ok (um s) → pipe_wf (PIPE_TOTAL V) (pp s) → 0 <= n < 2147483648 →
  (∀ k, 0 <= k < n → writable (um s) (u64 (addr + k))) →
  contents (PIPE_TOTAL V) (pp s) ≠ [] ∨ writeopen (pp s) = 0 →
  n + 4 <= Z.of_nat fuel →
  let T := PIPE_TOTAL V in
  let r := Z.min n (zlen (contents T (pp s))) in
  ∃ s', rrun V fuel me addr n REnter s = (RRet r, s') ∧ pipe_wf T (pp s') ∧
    contents T (pp s) = ubytes (um s') addr r ++ contents T (pp s') ∧
    (∀ va, (∀ x, 0 <= x < n → va ≠ u64 (addr + x)) → uget (um s') va = uget (um s) va).
Proof.
  intros Hok Hwf Hn Hall Hrdy Hfuel T r.
  destruct (rrun_call V me addr n s fuel) as
    (j & r' & s' & Hrun & Hj & _ & _ & Hwf' & Hfr & _ & Hd); try done.
  { destruct Hrdy as [Hne|]; [left|by right]. intros H0c. apply Hne. apply zlen_nil_inv.
    rewrite contents_length. lia. }
  destruct Hd as [(-> & Hend & Hc)|[Hnw _]]; [|done].
  rewrite Z.sub_0_r, Z.add_0_r in Hc. fold T in Hc.
  assert (count (pp s) = j + count (pp s')) as Hcnt.
  { rewrite <-!(contents_length T), Hc, zlen_app, ubytes_length; lia. }
  pose proof (wf_count T _ Hwf'). unfold r. rewrite contents_length.
  replace (Z.min n (count (pp s))) with j by lia. by exists s'.
Qed.

(** The other outcomes of [piperead] from version 2 on: on an empty pipe
    with the write end open it returns -1 if the caller is killed and sleeps
    otherwise; when user memory cannot be written, no byte is lost: the
    delivered prefix and the remaining queue make up the old queue, and the
    result is -1 if nothing was delivered, else the number of bytes delivered. *)
Theorem piperead_outcomes (V : Z) (me : nat) (addr n : Z) (s : pst M) (fuel : nat) :
  V ≠ 1 → um_ok (um s) → pipe_wf (PIPE_TOTAL V) (pp s) → 0 <= n < 2147483648 →
  n + 4 <= Z.of_nat fuel →
  let T := PIPE_TOTAL V in
  ∃ pc s', rrun V fuel me addr n REnter s = (pc, s') ∧ pipe_wf T (pp s') ∧
    match pc with
    | RAsleep => contents T (pp s) = [] ∧ writeopen (pp s) ≠ 0 ∧ pp s' = pp s
    | RRet r =>
        (contents T (pp s) = [] ∧ writeopen (pp s) ≠ 0 ∧ r = -1 ∧
           killed me (ptab s) ≠ 0 ∧ s' = s) ∨
        ∃ j, contents T (pp s) = ubytes (um s') addr j ++ contents T (pp s') ∧ 0 <= j <= n ∧
          (r = j ∨ (r = -1 ∧ j = 0 ∧
             ¬ (∀ k, 0 <= k < n → writable (um s) (u64 (addr + k)))))
    | _ => False
    end.
Proof.
  intros HV Hok Hwf Hn Hfuel T. pose proof (ring_PIPE_TOTAL V) as HR.
  destruct (decide (count (pp s) ≠ 0 ∨ writeopen (pp s) = 0)) as [Hrdy|Hwait].
  - destruct (rrun_call V me addr n s fuel) as
      (j & r & s' & Hrun & Hj & _ & _ & Hwf' & _ & _ & Hd); try done.
    exists (RRet r), s'. split_and!; try done. right. exists j.
    rewrite Z.sub_0_r, Z.add_0_r in Hd. destruct (Z.eqb_spec V 1); [done|].
    destruct Hd as [(-> & _ & Hc)|(Hnw & -> & Hc)]; [by auto|].
    split_and!; try done; try lia. destruct (Z.eqb_spec j 0); auto.
  - assert (count (pp s) = 0) as H0c by lia. assert (writeopen (pp s) ≠ 0) as Hwo by lia.
    assert (contents T (pp s) = []) as Hnil.
    { apply zlen_nil_inv. rewrite contents_length. lia. }
    destruct fuel as [|[|fuel]]; [lia|lia|].
    simpl. rewrite !piperead_gen. simpl. rewrite !piperead_gen. simpl.
    rewrite (empty_count (PIPE_TOTAL V)), H0c by done. simpl.
    destruct (Z.eqb_spec (writeopen (pp s)) 0); [done|]. simpl.
    destruct (is_killed me s) eqn:Hk.
    + exists (RRet (-1)), s. split; [by destruct fuel|]. split; [done|]. left.
      split_and!; try done. unfold is_killed in Hk.
      destruct (Z.eqb_spec (killed me (ptab s)) 0); done.
    + eexists RAsleep, _. split; [by destruct fuel|]. done.
Qed.
End properties.

(** A fresh pipe as [pipealloc] leaves it, with counters at [c]. *)
Definition pipe_at (T c : Z) : pipe := mkPipe 8192 12288 (replicate (Z.to_nat T) 0) c c 1 1.

Lemma pipe_at_wf T c : 0 <= T → 0 <= c < 4294967296 → pipe_wf T (pipe_at T c).
Proof.
  intros. unfold pipe_wf, count. simpl. rewrite Z.sub_diag. unfold zlen.
  rewrite length_replicate. change (u32 0) with 0. lia.
Qed.

Lemma pipe_at_contents T c : contents T (pipe_at T c) = [].
Proof. unfold contents, count. simpl. by rewrite Z.sub_diag. Qed.

(** Write/read round trip, every version: [n] bytes written into an empty
    pipe by one process are read back unchanged and in order by another, with
    the pipe empty again, even when the 32-bit counters wrap on the way. *)
Theorem pipe_roundtrip {M : Type} `{UserMemLaws M} (V : Z) (c addr addr' n : Z)
    (mw mr : M) (w r : nat) (tab : list proc) (fuel : nat) :
  um_ok mw → um_ok mr → 0 <= c < 4294967296 →
  0 < n <= PIPE_TOTAL V → killed w tab = 0 →
  (∀ k, 0 <= k < n → readable mw (u64 (addr + k))) →
  (∀ k, 0 <= k < n → writable mr (u64 (addr' + k))) →
  n + 4 <= Z.of_nat fuel →
  ∃ s1 s2, wrun V fuel w addr n WEnter (mkP (pipe_at (PIPE_TOTAL V) c) mw tab) = (WRet n, s1) ∧
    rrun V fuel r addr' n REnter (mkP (pp s1) mr (ptab s1)) = (RRet n, s2) ∧
    ubytes (um s2) addr' n = ubytes mw addr n ∧ contents (PIPE_TOTAL V) (pp s2) = [].
Proof.
  intros Hokw Hokr Hc Hn Hk Hrd Hwr Hfuel.
  pose proof (ring_PIPE_TOTAL V) as HR. pose proof (ring_pos (T := PIPE_TOTAL V)) as HT.
  pose proof (pipe_at_wf (PIPE_TOTAL V) c ltac:(lia) Hc) as Hwf.
  set (s := mkP (pipe_at (PIPE_TOTAL V) c) mw tab).
  destruct (pipewrite_correct V w addr n s fuel) as (pc & s1 & Hrun & Hwf1 & _ & Hc1 & Hpc);
    try done; try lia.
  simpl in *. rewrite pipe_at_contents in *. change (zlen []) with 0 in *.
  rewrite Z.sub_0_r in *. destruct (Z.leb_spec n (PIPE_TOTAL V)); [|lia]. subst pc.
  rewrite Z.min_l in Hc1 by lia. simpl in Hc1.
  assert (zlen (contents (PIPE_TOTAL V) (pp s1)) = n) as Hlen
    by (rewrite Hc1; apply ubytes_length; lia).
  set (s2 := mkP (pp s1) mr (ptab s1)).
  destruct (piperead_correct V r addr' n s2 fuel) as (s3 & Hrun2 & Hwf3 & Hc3 & _);
    try done; try lia.
  { left. intros Hnil. unfold s2 in Hnil. simpl in Hnil. rewrite Hnil in Hlen.
    change (zlen []) with 0 in Hlen. lia. }
  unfold s2 in Hrun2, Hc3. simpl in Hrun2, Hc3. rewrite Hlen, Z.min_l in * by lia.
  exists s1, s3. rewrite Hc1 in Hc3.
  assert (length (ubytes (um s3) addr' n) = length (ubytes mw addr n)) as Hll.
  { pose proof (ubytes_length (um s3) addr' n ltac:(lia)).
    pose proof (ubytes_length mw addr n ltac:(lia)). unfold zlen in *. lia. }
  rewrite <-(app_nil_r (ubytes mw addr n)) in Hc3.
  apply app_inj_1 in Hc3 as [Heq Hnil]; [|done]. done.
Qed.

(** Version 1 loses data on a bad read buffer: when [copyout] of the oldest
    byte fails, [piperead] returns 0, the value for end of file, and the byte is
    gone from the pipe (the later versions return -1 and keep it, C12). *)
Theorem piperead_v1_loses_byte {M : Type} `{UserMemLaws M} (me : nat) (addr n b : Z)
    (rest : list Z) (s : pst M) (m : M) (fuel : nat) :
  pipe_wf 512 (pp s) → 0 < n → contents 512 (pp s) = b :: rest →
  copyout (um s) (u64 addr) [b] = (m, -1) → (4 <= fuel)%nat →
  ∃ s', rrun 1 fuel me addr n REnter s = (RRet 0, s') ∧ contents 512 (pp s') = rest.
Proof.
  intros Hwf Hn Hc Hcp Hfuel. destruct fuel as [|[|[|[|fuel]]]]; try lia.
  assert (count (pp s) = 1 + zlen rest) as Hcnt.
  { rewrite <-(contents_length 512), Hc. unfold zlen. simpl. lia. }
  pose proof (zlen_nonneg rest).
  pose proof (Z.mod_pos_bound (nread (pp s)) 512 ltac:(lia)).
  destruct (take_contents 512 (pp s) 1 Hwf) as (_ & Htk & _); [lia|lia|].
  assert (zlen (slice (pdata (pp s)) (nread (pp s) mod 512) 1) = 1) as Hsl.
  { destruct Hwf as (_ & _ & _ & ?). apply slice_length; lia. }
  destruct (slice (pdata (pp s)) (nread (pp s) mod 512) 1) as [|b' [|]] eqn:Hs;
    [done| |unfold zlen in Hsl; simpl in Hsl; lia].
  rewrite Hc in Htk. injection Htk as <- Hrest.
  rewrite rrun_enter.
  2:{ rewrite (empty_count 512) by done. by destruct (Z.eqb_spec (count (pp s)) 0); [lia|]. }
  simpl. unfold piperead at 1. simpl. destruct (Z.ltb_spec 0 n); [|lia].
  rewrite (empty_count 512) by done. destruct (Z.eqb_spec (count (pp s)) 0); [lia|].
  unfold PIPESIZE. rewrite Hs, Z.add_0_r, Hcp. simpl. unfold piperead. simpl.
  eexists. split; [by destruct fuel|]. done.
Qed.

(** ** Witnesses and examples on a flat user memory *)
Import Flat.

Definition buf5 : flat := mk 4096 [104; 101; 108; 108; 111].
Definition one_proc : list proc := [proc0].

(** A pipe whose counters are about to wrap, version [V]. *)
Definition wrap_state (V : Z) : pst flat :=
  mkP (pipe_at (PIPE_TOTAL V) 4294967294) buf5 one_proc.

Lemma wrap_state_wf V : pipe_wf (PIPE_TOTAL V) (pp (wrap_state V)).
Proof. apply pipe_at_wf; [|lia]. unfold PIPE_TOTAL. repeat zcase; done. Qed.

Lemma buf5_readable n : n <= 5 → ∀ k, 0 <= k < n → readable buf5 (u64 (4096 + k)).
Proof. intros. apply (mk_readable 4096 [104; 101; 108; 108; 111] n); done. Qed.

Lemma buf5_writable n : n <= 5 → ∀ k, 0 <= k < n → writable buf5 (u64 (4096 + k)).
Proof. intros. apply (mk_writable 4096 [104; 101; 108; 108; 111] n); done. Qed.

Lemma pipewrite_correct_witness :
  ∃ pc s', wrun 7 20 0 4096 5 WEnter (wrap_state 7) = (pc, s') ∧ pc = WRet 5 ∧
    contents 4096 (pp s') = [104; 101; 108; 108; 111].
Proof.
  destruct (pipewrite_correct 7 0 4096 5 (wrap_state 7) 20) as (pc & s' & Hr & _ & _ & Hc & Hp);
    [done|apply wrap_state_wf|lia|done|done|by apply buf5_readable|lia|].
  exists pc, s'. split; [exact Hr|]. split; [exact Hp|exact Hc].
Defined.

Lemma pipewrite_outcomes_witness :
  ∃ pc s', wrun 7 20 0 4096 6 WEnter (wrap_state 7) = (pc, s') ∧ pipe_wf 4096 (pp s').
Proof.
  destruct (pipewrite_outcomes 7 0 4096 6 (wrap_state 7) 20) as (pc & s' & Hr & Hwf & _);
    [done|apply wrap_state_wf|lia|lia|].
  exists pc, s'. split; [exact Hr|exact Hwf].
Defined.

Lemma piperead_correct_witness :
  ∃ s', rrun 3 20 0 4096 5 REnter (mkP (set_writeopen 0 (pp (wrap_state 3))) buf5 one_proc)
          = (RRet 0, s').
Proof.
  destruct (piperead_correct 3 0 4096 5
    (mkP (set_writeopen 0 (pp (wrap_state 3))) buf5 one_proc) 20) as (s' & Hr & _);
    [done|apply (wrap_state_wf 3)|lia|by apply buf5_writable|by right|lia|].
  exists s'. exact Hr.
Defined.

Lemma piperead_outcomes_witness :
  ∃ pc s', rrun 8 20 0 4096 5 REnter (wrap_state 8) = (pc, s') ∧ pc = RAsleep.
Proof.
  destruct (piperead_outcomes 8 0 4096 5 (wrap_state 8) 20) as (pc & s' & Hr & _);
    [done|done|apply wrap_state_wf|lia|lia|].
  exists pc, s'. split; [exact Hr|]. vm_compute in Hr. by injection Hr as <- _.
Defined.

Lemma pipe_roundtrip_witness :
  ∃ s1 s2, wrun 2 20 0 4096 5 WEnter (wrap_state 2) = (WRet 5, s1) ∧
    rrun 2 20 1 4096 5 REnter (mkP (pp s1) (mk 4096 [0; 0; 0; 0; 0]) (ptab s1)) = (RRet 5, s2) ∧
    ubytes (um s2) 4096 5 = [104; 101; 108; 108; 111].
Proof.
  destruct (pipe_roundtrip 2 4294967294 4096 4096 5 buf5 (mk 4096 [0; 0; 0; 0; 0]) 0 1 one_proc 20)
    as (s1 & s2 & H1 & H2 & H3 & _);
    [done|done|lia|split; done|done|by apply buf5_readable| |lia|].
  { by apply (mk_writable 4096 [0; 0; 0; 0; 0]). }
  exists s1, s2. split_and!; [exact H1|exact H2|exact H3].
Defined.

(** One byte queued, no writable user memory. *)
Definition bad_buf_state : pst flat :=
  mkP (mkPipe 8192 12288 (7 :: replicate 511 0) 0 1 1 1) (mkFlat ∅ (λ _, false)) one_proc.

Lemma piperead_v1_loses_byte_witness :
  ∃ s', rrun 1 4 0 4096 1 REnter bad_buf_state = (RRet 0, s') ∧ contents 512 (pp s') = [].
Proof.
  apply (piperead_v1_loses_byte 0 4096 1 7 [] bad_buf_state (mkFlat ∅ (λ _, false)) 4);
    [by vm_compute|lia|by vm_compute|by vm_compute|lia].
Defined.
