(* ===== verification/PipeSys.v ===== *)
(** * Processes sharing a pipe: interleavings, FIFO order, lost wakeups

    A system of processes that call [pipewrite] and [piperead] on one pipe.
    Process [t] is entry [t] of the process table; its thread holds its user
    memory and the call in progress.  One system step is one turn of a C loop
    under the pipe lock, taking the lock (on entry, or after waking up), a
    scheduler decision, a preemption, a kill, a close of one end, or any
    activity of a process that is not inside the pipe.  The ghost logs record
    the bytes accepted from writers and the bytes delivered to readers. *)
From S2P Require Import Prelude Riscv Proc UserMem Pipe PipeRing PipeProg PipeRun.

(** ** Sleepers in the process table *)
Definition slp (ch : channel) (tab : list proc) (i : nat) : Prop :=
  ∃ p, tab !! i = Some p ∧ sleeping_on ch p.

Definition sleepers (ch : channel) (tab : list proc) : Prop := ∃ i, slp ch tab i.

Definition running (tab : list proc) (i : nat) : Prop :=
  ∃ p, tab !! i = Some p ∧ state p = RUNNING.

Section sleepers.
Context (V : Z).
Implicit Types (tab : list proc) (ch : channel).

Lemma running_not_slp ch tab i : running tab i → ¬ slp ch tab i.
Proof. intros (p & Hp & Hr) (p' & Hp' & Hs & _). congruence. Qed.

Lemma slp_wakeup ch ch' me tab i : slp ch' (wakeup V me ch tab) i → slp ch' tab i.
Proof. intros (p & Hp & Hs). by destruct (wakeup_sleepers _ _ _ _ _ _ _ Hp Hs) as [? _]. Qed.

Lemma slp_wakeup_same ch me tab i :
  slp ch (wakeup V (Some me) ch tab) i → i = me ∧ slp ch tab me.
Proof.
  intros Hs. pose proof (slp_wakeup _ _ _ _ _ Hs) as Hs0. destruct Hs as (p & Hp & Hs).
  destruct (wakeup_sleepers _ _ _ _ _ _ _ Hp Hs) as [_ Hme].
  specialize (Hme eq_refl) as [= ->]. done.
Qed.

Lemma no_sleepers_wakeup ch me tab :
  running tab me → ¬ sleepers ch (wakeup V (Some me) ch tab).
Proof. intros Hr [i [-> Hs]%slp_wakeup_same]. by eapply running_not_slp. Qed.

Lemma slp_sleep_begin ch ch' me tab i :
  slp ch' (sleep_begin me ch tab) i → (i = me ∧ ch' = ch) ∨ slp ch' tab i.
Proof.
  intros (p & Hp & Hs). rewrite sleep_begin_lookup in Hp. case_decide as Hme; subst.
  - left. destruct (tab !! i) as [q|]; [|done]. simplify_eq/=. by destruct Hs as [_ <-].
  - right. by exists p.
Qed.

Lemma slp_alter ch (f : proc → proc) k tab i :
  (∀ p, tab !! k = Some p → state (f p) = SLEEPING →
     state p = SLEEPING ∧ chan (f p) = chan p) →
  slp ch (alter f k tab) i → slp ch tab i.
Proof.
  intros Hf (p & Hp & Hs). destruct (decide (i = k)) as [->|Hne].
  - rewrite list_lookup_alter_eq in Hp. destruct (tab !! k) as [q|] eqn:Hq; [|done].
    simplify_eq/=. destruct Hs as [Hst Hch]. destruct (Hf q eq_refl Hst).
    exists q. split; [done|]. split; [done|congruence].
  - rewrite list_lookup_alter_ne in Hp by done. by exists p.
Qed.

Lemma slp_resume ch me tab i : running tab me → slp ch (sleep_end me tab) i → slp ch tab i.
Proof.
  intros (q & Hq & Hr). apply slp_alter. simpl. intros p Hp Hst. congruence.
Qed.

Lemma slp_kkill ch tpid tab i : slp ch (snd (kkill tpid tab)) i → slp ch tab i.
Proof.
  destruct (kkill_spec tpid tab) as [[-> _]|(l & p & r & -> & _ & _ & ->)]; [done|]. simpl.
  intros (q & Hq & Hs). destruct (decide (i = length l)) as [->|Hne].
  - rewrite list_lookup_middle in Hq by done. simplify_eq. exfalso.
    destruct Hs as [Hst _]. unfold kill_entry in Hst. by case_bool_decide.
  - exists q. split; [|done]. destruct (decide (i < length l)%nat).
    + by rewrite lookup_app_l in Hq |- * by done.
    + rewrite lookup_app_r in Hq |- * by lia.
      by destruct (i - length l)%nat eqn:?; [lia|].
Qed.

Lemma slp_yield ch k tab i : slp ch (yield_begin V k tab) i → slp ch tab i.
Proof. unfold yield_begin. apply slp_alter. intros p _. by repeat case_match. Qed.

Lemma running_wakeup ch me tab i : running tab i → running (wakeup V me ch tab) i.
Proof.
  intros (p & Hp & Hr). exists p. split; [|done]. rewrite wakeup_lookup, Hp.
  case_decide; [done|]. simpl. rewrite wakeup1_other; [done|].
  intros [Hs _]. congruence.
Qed.
End sleepers.

(** ** The system *)
Inductive op :=
| OpIdle
| OpW (addr n : Z) (pc : wpc)
| OpR (addr n : Z) (pc : rpc).

(** The program counters at which the pipe lock is held. *)
Definition holds_lock (o : op) : bool :=
  match o with
  | OpW _ _ (WLoop _ _) | OpW _ _ (WExit _ _)
  | OpR _ _ RWait | OpR _ _ (RLoop _ _) | OpR _ _ (RExit _ _) => true
  | _ => false
  end.

(** A call that has not returned. *)
Definition active_w (o : op) : Prop :=
  match o with OpW _ _ (WRet _) => False | OpW _ _ _ => True | _ => False end.
Definition active_r (o : op) : Prop :=
  match o with OpR _ _ (RRet _) => False | OpR _ _ _ => True | _ => False end.

Section system.
Context {M : Type} `{UserMem M}.

Record thread := mkTh { th_mem : M; th_op : op }.

Record sys := mkSys {
  y_pipe : pipe;
  y_tab : list proc;
  y_thr : list thread;
  y_lock : option nat;
  y_sent : list Z;
  y_taken : list (bool * Z)
}.

(** Of the bytes taken from the ring, those delivered to user memory. *)
Definition y_got (y : sys) : list Z := (filter (λ p, p.1 = true) (y_taken y)).*2.

Definition idle (th : thread) : Prop := ¬ active_w (th_op th) ∧ ¬ active_r (th_op th).

(** Bytes accepted or delivered by one turn. *)
Definition turn_sent (m : M) (addr : Z) (pc pc' : wpc) : list Z :=
  match pc, pc' with WLoop i _, WLoop i' _ => ubytes m (addr + i) (i' - i) | _, _ => [] end.
(** The one byte a turn of version 1 takes and does not deliver, when the copy
    to user memory fails. *)
Definition turn_lost (V : Z) (s : pst M) (addr n i : Z) : list (bool * Z) :=
  match contents (PIPE_TOTAL V) (pp s) with
  | b :: _ => if (V =? 1) && (i <? n) && ((copyout (um s) (u64 (addr + i)) [b]).2 =? -1) then [(false, b)] else []
  | [] => []
  end.
Definition turn_taken (V : Z) (s : pst M) (m' : M) (addr n : Z) (pc pc' : rpc) : list (bool * Z) :=
  match pc, pc' with
  | RLoop i _, RLoop i' _ => pair true <$> ubytes m' (addr + i) (i' - i)
  | RLoop i _, RExit _ _ => turn_lost V s addr n i
  | _, _ => []
  end.

(** The system after thread [t] has made the step to [o] and [s]. *)
Definition upd (y : sys) (t : nat) (o : op) (s : pst M) (sent : list Z) (taken : list (bool * Z)) : sys :=
  mkSys (pp s) (ptab s) (<[t := mkTh (um s) o]> (y_thr y))
    (if holds_lock o then Some t else None) (y_sent y ++ sent) (y_taken y ++ taken).

Definition set_tab (tab : list proc) (y : sys) : sys :=
  mkSys (y_pipe y) tab (y_thr y) (y_lock y) (y_sent y) (y_taken y).
Definition set_thread (t : nat) (th : thread) (y : sys) : sys :=
  mkSys (y_pipe y) (y_tab y) (<[t := th]> (y_thr y)) (y_lock y) (y_sent y) (y_taken y).

Definition at_pipe (y : sys) (th : thread) : pst M := mkP (y_pipe y) (th_mem th) (y_tab y).

(** May thread [t] make a step of its call now?  It runs, and either holds the
    lock and is inside the critical section, or takes the free lock. *)
Definition may_run (y : sys) (t : nat) (o : op) : Prop :=
  running (y_tab y) t ∧ y_lock y = if holds_lock o then Some t else None.

(** [kill_any = false] excludes the kill of the process that holds the lock. *)
Inductive sys_step (V : Z) (kill_any : bool) : sys → sys → Prop :=
| step_begin_write y t th m addr n :
    y_thr y !! t = Some th → idle th → running (y_tab y) t → um_ok m → n < 2147483648 →
    writeopen (y_pipe y) ≠ 0 →
    sys_step V kill_any y (set_thread t (mkTh m (OpW addr n WEnter)) y)
| step_begin_read y t th m addr n :
    y_thr y !! t = Some th → idle th → running (y_tab y) t → um_ok m → n < 2147483648 →
    readopen (y_pipe y) ≠ 0 →
    sys_step V kill_any y (set_thread t (mkTh m (OpR addr n REnter)) y)
| step_write y t th addr n pc pc' s' :
    y_thr y !! t = Some th → th_op th = OpW addr n pc → active_w (th_op th) →
    may_run y t (th_op th) →
    pipewrite V t addr n pc (at_pipe y th) = (pc', s') →
    sys_step V kill_any y (upd y t (OpW addr n pc') s' (turn_sent (th_mem th) addr pc pc') [])
| step_read y t th addr n pc pc' s' :
    y_thr y !! t = Some th → th_op th = OpR addr n pc → active_r (th_op th) →
    may_run y t (th_op th) →
    piperead V t addr n pc (at_pipe y th) = (pc', s') →
    sys_step V kill_any y (upd y t (OpR addr n pc') s' [] (turn_taken V (at_pipe y th) (um s') addr n pc pc'))
| step_close y t th wr :
    y_thr y !! t = Some th → idle th → running (y_tab y) t → y_lock y = None →
    (∀ u thu, y_thr y !! u = Some thu →
       ¬ (if wr =? 0 then active_r (th_op thu) else active_w (th_op thu))) →
    sys_step V kill_any y
      (upd y t OpIdle (snd (pipeclose_cs V t wr (at_pipe y th))) [] [])
| step_kill y tpid :
    (kill_any = false → ∀ t p, y_lock y = Some t → y_tab y !! t = Some p → pid p ≠ tpid) →
    sys_step V kill_any y (set_tab (snd (kkill tpid (y_tab y))) y)
| step_dispatch y i p :
    y_tab y !! i = Some p → state p = RUNNABLE →
    sys_step V kill_any y (set_tab (alter (set_state RUNNING) i (y_tab y)) y)
| step_preempt y i :
    running (y_tab y) i → y_lock y ≠ Some i →
    sys_step V kill_any y (set_tab (yield_begin V i (y_tab y)) y)
| step_other y i th p :
    y_thr y !! i = Some th → idle th →
    ¬ sleeping_on (ChNread (paddr (y_pipe y))) p →
    ¬ sleeping_on (ChNwrite (paddr (y_pipe y))) p →
    sys_step V kill_any y (set_tab (<[i := p]> (y_tab y)) y).

(** A fresh pipe at counter value [c], nobody inside it. *)
Definition sys_init (V c : Z) (y : sys) : Prop :=
  y_pipe y = pipe_at (PIPE_TOTAL V) c ∧ 0 <= c < 4294967296 ∧ y_lock y = None ∧
  y_sent y = [] ∧ y_taken y = [] ∧
  (∀ t th, y_thr y !! t = Some th → um_ok (th_mem th) ∧ th_op th = OpIdle) ∧
  (∀ i, ¬ slp (ChNread (paddr (y_pipe y))) (y_tab y) i ∧
        ¬ slp (ChNwrite (paddr (y_pipe y))) (y_tab y) i).
End system.
Arguments sys M : clear implicits.
Arguments thread M : clear implicits.

(** ** The outcomes of one turn *)
Section turns.
Context {M : Type} `{UserMemLaws M}.
Context (V : Z).
Local Abbreviation T := (PIPE_TOTAL V).
Implicit Types s : pst M.

#[local] Instance V_ring3 : RingSize T := ring_PIPE_TOTAL V.

Lemma same_hdr_refl pi : same_hdr pi pi.
Proof. by split_and!. Qed.

Variant wturn (t : nat) (addr n i nw : Z) s : wpc → pst M → Prop :=
| wturn_exit s' :
    ptab s' = ptab s → contents T (pp s') = contents T (pp s) → count (pp s') = count (pp s) →
    wturn t addr n i nw s (WExit i nw) s'
| wturn_fail :
    (readopen (pp s) = 0 ∨ killed t (ptab s) ≠ 0) → wturn t addr n i nw s (WRet (-1)) s
| wturn_sleep s' :
    pp s' = pp s → um s' = um s → count (pp s) = T → readopen (pp s) ≠ 0 →
    ptab s' = sleep_begin t (ChNwrite (paddr (pp s)))
                (wakeup V (Some t) (ChNread (paddr (pp s))) (ptab s)) →
    wturn t addr n i nw s (WAsleep i nw) s'
| wturn_copy k s' :
    0 < k → ptab s' = ptab s → count (pp s) < T → count (pp s') = count (pp s) + k →
    readopen (pp s) ≠ 0 → killed t (ptab s) = 0 →
    contents T (pp s') = contents T (pp s) ++ ubytes (um s) (addr + i) k →
    wturn t addr n i nw s (WLoop (i + k) nw) s'.

Lemma wturn_cases t addr n i nw s :
  um_ok (um s) → pipe_wf T (pp s) → 0 <= i → n < 2147483648 →
  ∃ pc s', pipewrite V t addr n (WLoop i nw) s = (pc, s') ∧ um_ok (um s') ∧
    pipe_wf T (pp s') ∧ same_hdr (pp s) (pp s') ∧ wturn t addr n i nw s pc s'.
Proof.
  intros Hok Hwf Hi Hn.
  destruct (decide (n <= i)) as [Hin|Hin].
  { eexists _, s. rewrite pipewrite_gen. simpl. destruct (Z.ltb_spec i n); [lia|].
    split_and!; try done. by constructor. }
  destruct (decide (readopen (pp s) = 0 ∨ killed t (ptab s) ≠ 0)) as [Hstop|Hgo].
  { eexists _, s. rewrite pipewrite_gen. simpl. destruct (Z.ltb_spec i n); [|lia].
    unfold is_killed. destruct (Z.eqb_spec (readopen (pp s)) 0),
      (Z.eqb_spec (killed t (ptab s)) 0); simpl; try tauto;
    (split_and!; [done..|by constructor]). }
  assert (readopen (pp s) ≠ 0) as Hro by tauto.
  assert (killed t (ptab s) = 0) as Hk by lia.
  assert (is_killed t s = false) as Hk' by (unfold is_killed; by rewrite Hk).
  destruct (decide (count (pp s) = T)) as [Hfull|Hfull].
  { rewrite pipewrite_gen. simpl. destruct (Z.ltb_spec i n); [|lia].
    destruct (Z.eqb_spec (readopen (pp s)) 0); [done|]. rewrite Hk'. simpl.
    rewrite w_total_of, (full_count T), Hfull, Z.eqb_refl, w_ver_of by done.
    eexists _, _. split; [done|]. split_and!; try done. by constructor. }
  pose proof (wf_count T _ Hwf).
  destruct (wstep_copy V t addr n i nw s Hok Hwf) as
    (s1 & Hh1 & Ht1 & Hok1 & Hv1 & Hr1 & Hwf1 &
      [(k & Hk0 & Hk1 & Hk2 & Hst & Hc1 & Hcnt1)|(Hst & Hc1 & Hcnt1 & Hnr)]); try done; try lia;
    eexists _, s1; (split_and!; [exact Hst|done..|]).
  - constructor; done || lia.
  - by constructor.
Qed.

Variant rturn (t : nat) (addr n i fl : Z) s : rpc → pst M → Prop :=
| rturn_exit :
    n <= i ∨ count (pp s) = 0 →
    rturn t addr n i fl s (RExit i fl) s
| rturn_fault i' s' :
    ptab s' = ptab s →
    (if V =? 1 then i' = i ∧ ∃ b, contents T (pp s) = b :: contents T (pp s') ∧
                    (copyout (um s) (u64 (addr + i)) [b]).2 = -1
     else i' = (if i =? 0 then -1 else i) ∧ pp s' = pp s) →
    i < n → 0 < count (pp s) → rturn t addr n i fl s (RExit i' fl) s'
| rturn_copy k s' :
    0 < k → ptab s' = ptab s → 0 < count (pp s) → count (pp s') = count (pp s) - k →
    contents T (pp s) = ubytes (um s') (addr + i) k ++ contents T (pp s') →
    rturn t addr n i fl s (RLoop (i + k) fl) s'.

Lemma rturn_cases t addr n i fl s :
  um_ok (um s) → pipe_wf T (pp s) → 0 <= i → n < 2147483648 →
  ∃ pc s', piperead V t addr n (RLoop i fl) s = (pc, s') ∧ um_ok (um s') ∧
    pipe_wf T (pp s') ∧ same_hdr (pp s) (pp s') ∧ rturn t addr n i fl s pc s'.
Proof.
  intros Hok Hwf Hi Hn. pose proof (wf_count T _ Hwf).
  destruct (decide (n <= i ∨ count (pp s) = 0)) as [Hend|Hgo].
  { eexists _, s. rewrite piperead_gen. simpl. rewrite (empty_count T) by done.
    split_and!; [|done..|by constructor].
    destruct (Z.ltb_spec i n); [|done]. destruct Hend as [| ->]; [lia|done]. }
  destruct (rstep_copy V t addr n i fl s Hok Hwf) as
    (s1 & Hh1 & Ht1 & Hok1 & Hw1 & Hwf1 &
      [(k & Hk0 & Hk1 & Hk2 & Hst & Hc1 & Hcnt1 & Hfr1)
      |(i' & Hst & Hcase & Hnw & Hfr1)]); try done; try lia;
    eexists _, s1; (split_and!; [exact Hst|done..|]).
  - constructor; done || lia.
  - by constructor; [done| |lia|lia].
Qed.
End turns.

(** ** FIFO invariant *)
Section fifo.
Context {M : Type} `{UserMemLaws M}.
Context (V : Z).
Local Abbreviation T := (PIPE_TOTAL V).

#[local] Instance V_ring4 : RingSize T := ring_PIPE_TOTAL V.

Definition op_ok (o : op) : Prop :=
  match o with
  | OpIdle => True
  | OpW _ n pc => n < 2147483648 ∧
      match pc with WLoop i _ | WAsleep i _ => 0 <= i | _ => True end
  | OpR _ n pc => n < 2147483648 ∧
      match pc with RLoop i _ => 0 <= i | _ => True end
  end.

Definition threads_ok (ths : list (thread M)) : Prop :=
  ∀ t th, ths !! t = Some th → um_ok (th_mem th) ∧ op_ok (th_op th).

Definition fifo_inv (y : sys M) : Prop :=
  pipe_wf T (y_pipe y) ∧ threads_ok (y_thr y) ∧
  y_sent y = (y_taken y).*2 ++ contents T (y_pipe y) ∧
  (V ≠ 1 → Forall (λ p, p.1 = true) (y_taken y)).

Lemma threads_ok_insert ths t m o :
  threads_ok ths → um_ok m → op_ok o → threads_ok (<[t := mkTh m o]> ths).
Proof.
  intros Hths Hm Ho u th Hu. apply list_lookup_insert_Some in Hu as [(<- & <- & _)|[_ Hu]].
  - done.
  - eauto.
Qed.

(** A step of a call, in the terms of the invariant. *)
Lemma pipewrite_fifo t addr n pc s pc' s' :
  um_ok (um s) → pipe_wf T (pp s) → op_ok (OpW addr n pc) →
  pipewrite V t addr n pc s = (pc', s') →
  um_ok (um s') ∧ pipe_wf T (pp s') ∧ op_ok (OpW addr n pc') ∧
  contents T (pp s') = contents T (pp s) ++ turn_sent (um s) addr pc pc'.
Proof.
  intros Hok Hwf [Hn Hpc] Hst. destruct pc as [|i nw|i nw|i nw|r].
  - rewrite pipewrite_gen in Hst. simpl in Hst. simplify_eq. simpl. rewrite app_nil_r. done.
  - destruct (wturn_cases V t addr n i nw s Hok Hwf Hpc Hn) as
      (pc1 & s1 & Hst1 & Hok1 & Hwf1 & _ & Hturn). rewrite Hst1 in Hst. simplify_eq.
    split_and!; try done; destruct Hturn; simpl; rewrite ?app_nil_r, ?Z.add_simpl_l; done || lia || congruence.
  - rewrite pipewrite_gen in Hst. simpl in Hst. simplify_eq. simpl. rewrite app_nil_r. done.
  - rewrite wstep_exit in Hst. simplify_eq. simpl. rewrite app_nil_r. done.
  - rewrite pipewrite_gen in Hst. simpl in Hst. simplify_eq. simpl. rewrite app_nil_r. done.
Qed.

Lemma turn_lost_end s addr n i :
  pipe_wf T (pp s) → n <= i ∨ count (pp s) = 0 → turn_lost V s addr n i = [].
Proof.
  intros Hwf Hend. unfold turn_lost. destruct (contents T (pp s)) as [|b l] eqn:Hc; [done|].
  destruct Hend as [?|Hc0]; [by rewrite (proj2 (Z.ltb_ge i n)), andb_false_r by done|].
  pose proof (contents_length T (pp s)) as Hl. rewrite Hc0, Hc in Hl. unfold zlen in Hl. simpl in Hl. lia.
Qed.

Lemma turn_lost_other s addr n i : V ≠ 1 → turn_lost V s addr n i = [].
Proof. intros HV. unfold turn_lost. rewrite (proj2 (Z.eqb_neq _ _)) by done. by case_match. Qed.

Lemma piperead_fifo t addr n pc s pc' s' :
  um_ok (um s) → pipe_wf T (pp s) → op_ok (OpR addr n pc) →
  piperead V t addr n pc s = (pc', s') →
  um_ok (um s') ∧ pipe_wf T (pp s') ∧ op_ok (OpR addr n pc') ∧
  contents T (pp s) = (turn_taken V s (um s') addr n pc pc').*2 ++ contents T (pp s') ∧
  (V ≠ 1 → Forall (λ p, p.1 = true) (turn_taken V s (um s') addr n pc pc')).
Proof.
  intros Hok Hwf [Hn Hpc] Hst. destruct pc as [| | |i fl|i fl|r].
  - rewrite piperead_gen in Hst. simpl in Hst. by simplify_eq.
  - rewrite piperead_gen in Hst. simpl in Hst. repeat case_match; simplify_eq; split_and!; done || lia.
  - rewrite piperead_gen in Hst. simpl in Hst. by simplify_eq.
  - destruct (rturn_cases V t addr n i fl s Hok Hwf Hpc Hn) as
      (pc1 & s1 & Hst1 & Hok1 & Hwf1 & _ & Hturn). rewrite Hst1 in Hst. simplify_eq.
    split_and!; try done; destruct Hturn as [Hend|i' s'' Ht Hf Hin Hc|k s'' Hk Ht Hc Hcnt Hcon]; simpl.
    + done.
    + done.
    + lia.
    + by rewrite turn_lost_end.
    + destruct (Z.eqb_spec V 1) as [->|HV].
      * destruct Hf as (_ & b & Hb & Hcp). unfold turn_lost. by rewrite Hb, Hcp, (proj2 (Z.ltb_lt _ _)).
      * destruct Hf as [_ ->]. by rewrite turn_lost_other.
    + rewrite Z.add_simpl_l, Hcon. by rewrite <-list_fmap_compose, list_fmap_id.
    + intros _. by rewrite turn_lost_end.
    + intros HV. by rewrite turn_lost_other.
    + intros _. by apply Forall_fmap, Forall_true.
  - rewrite rstep_exit in Hst. by simplify_eq.
  - rewrite piperead_gen in Hst. simpl in Hst. by simplify_eq.
Qed.

Lemma pipeclose_fifo t wr (s : pst M) :
  pipe_wf T (pp s) →
  let s' := snd (pipeclose_cs V t wr s) in
  um s' = um s ∧ pipe_wf T (pp s') ∧ contents T (pp s') = contents T (pp s).
Proof. intros Hwf. unfold pipeclose_cs. simpl. by destruct (wr =? 0). Qed.

Lemma filter_all {A} (P : A → Prop) `{∀ x, Decision (P x)} l : Forall P l → filter P l = l.
Proof. induction 1 as [|x l Hx _ IH]; [done|]. by rewrite filter_cons_True, IH. Qed.

Lemma fifo_step ka y y' : fifo_inv y → sys_step V ka y y' → fifo_inv y'.
Proof.
  intros (Hwf & Hths & Hq & Hall) Hst.
  destruct Hst as
    [y t th m addr n Ht Hidle Hrun Hm Hn Hw
    |y t th m addr n Ht Hidle Hrun Hm Hn Hr
    |y t th addr n pc pc' s' Ht Hop Hact Hmay Hpw
    |y t th addr n pc pc' s' Ht Hop Hact Hmay Hpr
    |y t th wr Ht Hidle Hrun Hlock Hno
    |y tpid Hk|y i p Hp Hr|y i Hr Hl|y i th p Ht Hidle H1 H2];
    try (split_and!; done).
  - split_and!; try done. by apply threads_ok_insert.
  - split_and!; try done. by apply threads_ok_insert.
  - destruct (Hths _ _ Ht) as [Hok Ho]. rewrite Hop in Ho.
    destruct (pipewrite_fifo _ _ _ _ (at_pipe y th) _ _ Hok Hwf Ho Hpw)
      as (Hok' & Hwf' & Ho' & Hc). split_and!; simpl; [done|by apply threads_ok_insert| |by rewrite app_nil_r].
    by rewrite app_nil_r, Hc, Hq, <-app_assoc.
  - destruct (Hths _ _ Ht) as [Hok Ho]. rewrite Hop in Ho.
    destruct (piperead_fifo _ _ _ _ (at_pipe y th) _ _ Hok Hwf Ho Hpr)
      as (Hok' & Hwf' & Ho' & Hc & Ha). split_and!; simpl; [done|by apply threads_ok_insert| |].
    + simpl in Hc. by rewrite app_nil_r, Hq, Hc, fmap_app, <-app_assoc.
    + intros HV. apply Forall_app. auto.
  - destruct (Hths _ _ Ht) as [Hok _].
    destruct (pipeclose_fifo t wr (at_pipe y th) Hwf) as (Hum & Hwf' & Hc).
    split_and!; [done|apply threads_ok_insert; [done| |done]| |].
    + by rewrite Hum.
    + cbn -[pipeclose_cs]. by rewrite !app_nil_r, Hc.
    + cbn -[pipeclose_cs]. by rewrite app_nil_r.
Qed.

Lemma fifo_init c y : sys_init V c y → fifo_inv y.
Proof.
  intros (Hp & Hc & _ & Hs & Hg & Hth & _). unfold fifo_inv. rewrite Hp, Hs, Hg.
  pose proof (ring_pos (T := T)). split_and!; [by apply pipe_at_wf; [lia|]| | |].
  - intros t th Ht. destruct (Hth _ _ Ht) as [Hm Ho]. by rewrite Ho.
  - by rewrite pipe_at_contents.
  - by constructor.
Qed.
End fifo.

(** ** Executable schedules

    A schedule is a list of events; [play] performs them one by one, checking
    the guard of the corresponding rule, so that a concrete interleaving can
    be evaluated.  [play_sound]: what it performs are steps of the system. *)
Section schedules.
Context {M : Type} `{UserMem M}.

Inductive event :=
| EBeginW (t : nat) (m : M) (addr n : Z)
| EBeginR (t : nat) (m : M) (addr n : Z)
| ETurn (t : nat)                       (* one turn of the call of [t] *)
| EKill (tpid : Z)
| EDispatch (i : nat)
| EPreempt (i : nat).

Definition idleb (o : op) : bool :=
  match o with OpIdle | OpW _ _ (WRet _) | OpR _ _ (RRet _) => true | _ => false end.

Definition runningb (tab : list proc) (i : nat) : bool :=
  match tab !! i with Some p => bool_decide (state p = RUNNING) | None => false end.

Definition play1 (V : Z) (y : sys M) (e : event) : option (sys M) :=
  match e with
  | EBeginW t m addr n =>
      th ← y_thr y !! t;
      if idleb (th_op th) && runningb (y_tab y) t && (n <? 2147483648)
         && negb (writeopen (y_pipe y) =? 0)
      then Some (set_thread t (mkTh m (OpW addr n WEnter)) y) else None
  | EBeginR t m addr n =>
      th ← y_thr y !! t;
      if idleb (th_op th) && runningb (y_tab y) t && (n <? 2147483648)
         && negb (readopen (y_pipe y) =? 0)
      then Some (set_thread t (mkTh m (OpR addr n REnter)) y) else None
  | ETurn t =>
      th ← y_thr y !! t;
      if negb (idleb (th_op th)) && runningb (y_tab y) t
         && bool_decide (y_lock y = if holds_lock (th_op th) then Some t else None)
      then match th_op th with
           | OpIdle => None
           | OpW addr n pc =>
               let '(pc', s') := pipewrite V t addr n pc (at_pipe y th) in
               Some (upd y t (OpW addr n pc') s' (turn_sent (th_mem th) addr pc pc') [])
           | OpR addr n pc =>
               let '(pc', s') := piperead V t addr n pc (at_pipe y th) in
               Some (upd y t (OpR addr n pc') s' [] (turn_taken V (at_pipe y th) (um s') addr n pc pc'))
           end
      else None
  | EKill tpid => Some (set_tab (snd (kkill tpid (y_tab y))) y)
  | EDispatch i =>
      p ← y_tab y !! i;
      if bool_decide (state p = RUNNABLE)
      then Some (set_tab (alter (set_state RUNNING) i (y_tab y)) y) else None
  | EPreempt i =>
      if runningb (y_tab y) i && bool_decide (y_lock y ≠ Some i)
      then Some (set_tab (yield_begin V i (y_tab y)) y) else None
  end.

Fixpoint play (V : Z) (y : sys M) (es : list event) : option (sys M) :=
  match es with [] => Some y | e :: es' => y' ← play1 V y e; play V y' es' end.

Definition event_ok (ka : bool) (e : event) : Prop :=
  match e with
  | EBeginW _ m _ _ | EBeginR _ m _ _ => um_ok m
  | EKill _ => ka = true
  | _ => True
  end.

Lemma idleb_idle (th : thread M) : idleb (th_op th) = true → idle th.
Proof. unfold idle. destruct (th_op th) as [|? ? []|? ? []]; simpl; intuition done. Qed.

Lemma idleb_active o : idleb o = false → active_w o ∨ active_r o.
Proof. destruct o as [|? ? []|? ? []]; simpl; tauto || done. Qed.

Lemma runningb_running tab i : runningb tab i = true → running tab i.
Proof.
  unfold runningb. destruct (tab !! i) as [p|] eqn:Hp; [|done].
  intros ?%bool_decide_eq_true. by exists p.
Qed.

Lemma play1_sound V ka y e y' : event_ok ka e → play1 V y e = Some y' → sys_step V ka y y'.
Proof.
  intros He. destruct e as [t m addr n|t m addr n|t|tpid|i|i]; simpl in *.
  - destruct (y_thr y !! t) as [th|] eqn:Ht; simpl; [|done].
    destruct (_ && _) eqn:Hg; [|done]. intros [= <-].
    apply andb_prop in Hg as [[[Hi Hr]%andb_prop Hn]%andb_prop Hw].
    eapply step_begin_write; eauto using idleb_idle, runningb_running; lia.
  - destruct (y_thr y !! t) as [th|] eqn:Ht; simpl; [|done].
    destruct (_ && _) eqn:Hg; [|done]. intros [= <-].
    apply andb_prop in Hg as [[[Hi Hr]%andb_prop Hn]%andb_prop Hw].
    eapply step_begin_read; eauto using idleb_idle, runningb_running; lia.
  - destruct (y_thr y !! t) as [th|] eqn:Ht; simpl; [|done].
    destruct (_ && _) eqn:Hg; [|done].
    apply andb_prop in Hg as [[Hi Hr]%andb_prop Hl%bool_decide_eq_true].
    apply negb_true_iff, idleb_active in Hi.
    destruct (th_op th) as [|addr n pc|addr n pc] eqn:Hop; [done| |].
    + destruct (pipewrite _ _ _ _ _ _) as [pc' s'] eqn:Hst. intros [= <-].
      eapply step_write; eauto; rewrite Hop.
      * by destruct Hi.
      * split; eauto using runningb_running.
    + destruct (piperead _ _ _ _ _ _) as [pc' s'] eqn:Hst. intros [= <-].
      eapply step_read; eauto; rewrite Hop.
      * by destruct Hi.
      * split; eauto using runningb_running.
  - intros [= <-]. constructor. congruence.
  - destruct (y_tab y !! i) as [p|] eqn:Hp; simpl; [|done].
    case_bool_decide; [|done]. intros [= <-]. by econstructor.
  - destruct (_ && _) eqn:Hg; [|done]. intros [= <-].
    apply andb_prop in Hg as [Hr Hl%bool_decide_eq_true].
    constructor; eauto using runningb_running.
Qed.

Lemma play_sound V ka es : ∀ y y',
  Forall (event_ok ka) es → play V y es = Some y' → rtc (sys_step V ka) y y'.
Proof.
  induction es as [|e es IH]; intros y y' Hes; simpl; [intros [= ->]; done|].
  apply Forall_cons in Hes as [He Hes].
  destruct (play1 V y e) as [y1|] eqn:H1; simpl; [|done]. intros H2.
  eapply rtc_l; [by eapply play1_sound|by eapply IH].
Qed.
End schedules.
Arguments event M : clear implicits.

(** ** Properties *)

(** C1: the pipe is FIFO under every interleaving, in every version: in every
    reachable state the bytes accepted from all writers, in order, are the
    bytes taken by the readers, in order, followed by what is in the ring; and
    the ring stays well-formed.  From version 2 on every byte taken is
    delivered to its reader.  In version 1 a byte taken is not delivered only
    when the copy of this byte to user memory failed ([turn_lost]). *)
Theorem pipe_fifo {M : Type} `{UserMemLaws M} (V c : Z) (ka : bool) (y0 y : sys M) :
  sys_init V c y0 → rtc (sys_step V ka) y0 y →
  y_sent y = (y_taken y).*2 ++ contents (PIPE_TOTAL V) (y_pipe y) ∧
  pipe_wf (PIPE_TOTAL V) (y_pipe y) ∧
  (V ≠ 1 → y_sent y = y_got y ++ contents (PIPE_TOTAL V) (y_pipe y)).
Proof.
  intros Hi Hst. assert (fifo_inv V y) as (Hwf & _ & Hq & Ha).
  { eapply rtc_invariant; [|exact Hst|by eapply fifo_init]. intros ???. by apply fifo_step. }
  split_and!; [done|done|]. intros HV. unfold y_got. by rewrite filter_all, Hq by auto.
Qed.

(** *** Witness: two processes, one writes five bytes, the other reads three *)
Import Flat.

(** Running processes with pids 1, 2, ... *)
Definition procs (n : nat) : list proc :=
  (λ k, set_state RUNNING (set_pid k proc0)) <$> seqZ 1 (Z.of_nat n).

Definition sys2 (V : Z) : sys flat :=
  mkSys (pipe_at (PIPE_TOTAL V) 0) (procs 2)
    [mkTh buf5 OpIdle; mkTh buf5 OpIdle] None [] [].

Definition sched53 : list (event flat) :=
  [EBeginW 0 buf5 4096 5; EBeginR 1 (mk 4096 [0; 0; 0]) 4096 3; ETurn 0; ETurn 0; ETurn 0;
   ETurn 0; ETurn 1; ETurn 1; ETurn 1; ETurn 1; ETurn 1].

Lemma sys2_init V : sys_init V 0 (sys2 V).
Proof.
  split_and!; try done.
  - by intros [|[|[|t]]] th [= <-].
  - intros i. split; intros (p & Hp & Hs & _); destruct i as [|[|[|i]]]; simplify_eq/=.
Qed.

Lemma pipe_fifo_witness :
  ∃ y, play 4 (sys2 4) sched53 = Some y ∧ y_got y = [104; 101; 108] ∧
    y_sent y = y_got y ++ contents 4096 (y_pipe y).
Proof.
  destruct (play 4 (sys2 4) sched53) as [y|] eqn:Hp; [|by vm_compute in Hp].
  exists y. split; [done|]. split; [vm_compute in Hp; by injection Hp as <-|].
  apply (pipe_fifo 4 0 true (sys2 4) y); [apply sys2_init| |done].
  eapply play_sound; [|exact Hp]. by repeat constructor.
Defined.

(** Version 1 loses the byte of a reader whose buffer is not mapped. *)
Definition sched_bad : list (event flat) :=
  [EBeginW 0 buf5 4096 5; EBeginR 1 (mk 4096 [0]) 8192 3; ETurn 0; ETurn 0; ETurn 0;
   ETurn 0; ETurn 0; ETurn 0; ETurn 0; ETurn 0; ETurn 1; ETurn 1; ETurn 1; ETurn 1].

Example version1_loses :
  (λ y, (y_taken y, contents 512 (y_pipe y))) <$> play 1 (sys2 1) sched_bad =
    Some ([(false, 104)], [101; 108; 108; 111]).
Proof. by vm_compute. Qed.
