(* ===== verification/PipeWake.v ===== *)
(** * Sleeping and waking up on a pipe

    The wake invariant of the pipe system: who may be asleep on [&pi->nread] and
    [&pi->nwrite] in terms of the queue, of the open flags and of the program
    counter of the process that holds [pi->lock].  As long as the holder of the
    lock is not killed, no version loses a wakeup; when it is killed in the
    middle of [pipewrite], the conditional wakeup of version 5 and later is lost
    for good, while the unconditional one of version 2 to 4 is repaired by the
    next write. *)
From S2P Require Import Prelude Riscv Proc UserMem Pipe PipeRing PipeProg PipeRun PipeSys.

Section wake.
Context {M : Type} `{UserMemLaws M}.
Context (V : Z) (ka : bool).
Local Abbreviation T := (PIPE_TOTAL V).
Implicit Types (s : pst M) (y : sys M) (pi : pipe) (tab : list proc).

#[local] Instance V_ring5 : RingSize T := ring_PIPE_TOTAL V.

Definition chr pi : channel := ChNread (paddr pi).
Definition chw pi : channel := ChNwrite (paddr pi).
Definition lazy : Prop := w_lazy (wcfg_of V) = true.

(** A reader sleeps, and no process was killed while it held the lock. *)
Definition waits_r pi tab : Prop := ka = false ∧ sleepers (chr pi) tab.

(** A sleeping reader waits for data, a sleeping writer for room. *)
Definition quiet_r pi tab : Prop := waits_r pi tab → count pi = 0 ∧ writeopen pi ≠ 0.
Definition quiet_w pi tab : Prop := sleepers (chw pi) tab → count pi = T ∧ readopen pi ≠ 0.

(** What a writer, or a reader, inside the critical section still owes. *)
Definition owes_r pi tab (i nw : Z) : Prop :=
  waits_r pi tab → writeopen pi ≠ 0 ∧ (lazy → nw ≠ 0 ∧ (count pi = 0 ∨ 0 < i)).
Definition owes_w pi tab (i fl : Z) : Prop :=
  sleepers (chw pi) tab → readopen pi ≠ 0 ∧ (lazy → fl ≠ 0 ∧ (count pi = T ∨ 0 < i)).

(** The state of the queue and of the sleepers when thread [t] is at [o]. *)
Definition phase (t : nat) (o : op) pi tab : Prop :=
  match o with
  | OpW _ _ (WLoop i nw) =>
      quiet_w pi tab ∧ owes_r pi tab i nw ∧
      (killed t tab ≠ 0 → waits_r pi tab → count pi = 0)
  | OpW _ _ (WExit i nw) => quiet_w pi tab ∧ owes_r pi tab i nw
  | OpR _ _ (RLoop i fl) | OpR _ _ (RExit i fl) => quiet_r pi tab ∧ owes_w pi tab i fl
  | _ => quiet_r pi tab ∧ quiet_w pi tab
  end.

Definition at_op y (t : nat) (P : op → Prop) : Prop :=
  ∃ th, y_thr y !! t = Some th ∧ P (th_op th).

Record wake_inv y : Prop := {
  wi_r : ∀ i, slp (chr (y_pipe y)) (y_tab y) i →
           at_op y i (λ o, ∃ a n, o = OpR a n RAsleep);
  wi_w : ∀ i, slp (chw (y_pipe y)) (y_tab y) i →
           at_op y i (λ o, ∃ a n j nw, o = OpW a n (WAsleep j nw));
  wi_ro : readopen (y_pipe y) = 0 → ∀ i, ¬ at_op y i active_r;
  wi_wo : writeopen (y_pipe y) = 0 → ∀ i, ¬ at_op y i active_w;
  wi_lock : ∀ i, at_op y i (λ o, holds_lock o = true) → y_lock y = Some i;
  wi_run : ∀ t, y_lock y = Some t →
             running (y_tab y) t ∧ at_op y t (λ o, holds_lock o = true);
  wi_phase : match y_lock y with
             | None => quiet_r (y_pipe y) (y_tab y) ∧ quiet_w (y_pipe y) (y_tab y)
             | Some t => at_op y t (λ o, phase t o (y_pipe y) (y_tab y))
             end
}.

(** What a step of thread [t] from [o] to [o'] has to establish. *)
Record turn_ok (t : nat) (o o' : op) s s' : Prop := {
  to_hdr : same_hdr (pp s) (pp s');
  to_others : ∀ ch i, slp ch (ptab s') i → slp ch (ptab s) i ∨ i = t;
  to_self_r : slp (chr (pp s)) (ptab s') t → ∃ a n, o' = OpR a n RAsleep;
  to_self_w : slp (chw (pp s)) (ptab s') t → ∃ a n j nw, o' = OpW a n (WAsleep j nw);
  to_run : holds_lock o' = true → running (ptab s') t;
  to_phase : phase t o' (pp s') (ptab s');
  to_act_r : active_r o' → active_r o;
  to_act_w : active_w o' → active_w o
}.

Lemma phase_mono t o pi tab tab' :
  (∀ i, slp (chr pi) tab' i → slp (chr pi) tab i) →
  (∀ i, slp (chw pi) tab' i → slp (chw pi) tab i) →
  (ka = false → killed t tab' = killed t tab) → phase t o pi tab → phase t o pi tab'.
Proof.
  intros Hr Hw Hk. assert (waits_r pi tab' → waits_r pi tab).
  { intros [Hka [i Hi]]. split; [done|]. exists i. eauto. }
  assert (sleepers (chw pi) tab' → sleepers (chw pi) tab).
  { intros [i Hi]. exists i. eauto. }
  assert (waits_r pi tab' → killed t tab' = killed t tab) by (intros [? _]; auto).
  unfold phase, quiet_r, quiet_w, owes_r, owes_w.
  destruct o as [|? ? []|? ? []]; try tauto. intuition congruence.
Qed.

(** The phase of the thread that may run, whether it holds the lock or takes it. *)
Lemma wake_phase y t th :
  wake_inv y → y_thr y !! t = Some th → may_run y t (th_op th) →
  phase t (th_op th) (y_pipe y) (y_tab y).
Proof.
  intros Hi Ht [_ Hl]. pose proof (wi_phase _ Hi) as Hp. rewrite Hl in Hp.
  destruct (holds_lock (th_op th)) eqn:Ho.
  - destruct Hp as (th' & Ht' & Hp). by simplify_eq.
  - by destruct (th_op th) as [|? ? []|? ? []].
Qed.

Lemma at_op_insert y t th' i P pi tab l sent got :
  is_Some (y_thr y !! t) →
  at_op (mkSys pi tab (<[t := th']> (y_thr y)) l sent got) i P →
  (i = t ∧ P (th_op th')) ∨ (i ≠ t ∧ at_op y i P).
Proof.
  intros Hs (th & Hth & HP). simpl in Hth.
  apply list_lookup_insert_Some in Hth as [(-> & -> & _)|[Hne Hth]]; [auto|].
  right. split; [done|]. by exists th.
Qed.

Lemma at_op_self y t th' (P : op → Prop) pi tab l sent got :
  is_Some (y_thr y !! t) → P (th_op th') →
  at_op (mkSys pi tab (<[t := th']> (y_thr y)) l sent got) t P.
Proof.
  intros Hs HP. exists th'. split; [|done]. simpl. apply list_lookup_insert_eq.
  by apply lookup_lt_is_Some.
Qed.

Lemma at_op_other y t th' i (P : op → Prop) pi tab l sent got :
  i ≠ t → at_op y i P → at_op (mkSys pi tab (<[t := th']> (y_thr y)) l sent got) i P.
Proof. intros Hne (th & Hth & HP). exists th. split; [|done]. simpl. by rewrite list_lookup_insert_ne. Qed.

Lemma turn_ok_inv y t th o' s' sent got :
  wake_inv y → y_thr y !! t = Some th → may_run y t (th_op th) →
  turn_ok t (th_op th) o' (at_pipe y th) s' → wake_inv (upd y t o' s' sent got).
Proof.
  intros Hi Ht [Hrun Hl] Hto. assert (is_Some (y_thr y !! t)) as Hsm by eauto.
  destruct (to_hdr _ _ _ _ _ Hto) as (Hpa & _ & Hro & Hwo). simpl in *.
  assert (∀ P, at_op y t P → P (th_op th)) as Hself.
  { intros P (th' & Ht' & HP). by simplify_eq. }
  split; simpl.
  - unfold chr. rewrite Hpa. intros i Hs. destruct (decide (i = t)) as [->|Hne].
    + apply at_op_self; [done|]. by apply (to_self_r _ _ _ _ _ Hto).
    + apply at_op_other; [done|]. apply (wi_r _ Hi).
      by destruct (to_others _ _ _ _ _ Hto _ _ Hs).
  - unfold chw. rewrite Hpa. intros i Hs. destruct (decide (i = t)) as [->|Hne].
    + apply at_op_self; [done|]. by apply (to_self_w _ _ _ _ _ Hto).
    + apply at_op_other; [done|]. apply (wi_w _ Hi).
      by destruct (to_others _ _ _ _ _ Hto _ _ Hs).
  - rewrite Hro. intros H0' i Ha. apply (wi_ro _ Hi H0' i).
    apply at_op_insert in Ha as [[-> Ha]|[_ Ha]]; [|done|done].
    exists th. split; [done|]. by apply (to_act_r _ _ _ _ _ Hto).
  - rewrite Hwo. intros H0' i Ha. apply (wi_wo _ Hi H0' i).
    apply at_op_insert in Ha as [[-> Ha]|[_ Ha]]; [|done|done].
    exists th. split; [done|]. by apply (to_act_w _ _ _ _ _ Hto).
  - intros i Ha. apply at_op_insert in Ha as [[-> Ha]|[Hne Ha]]; [simpl in *; by rewrite Ha| |done].
    exfalso. apply (wi_lock _ Hi) in Ha. rewrite Hl in Ha. by destruct (holds_lock (th_op th)); simplify_eq.
  - intros u. destruct (holds_lock o') eqn:Ho; [|done]. intros [= <-].
    split; [by apply (to_run _ _ _ _ _ Hto)|by apply at_op_self].
  - pose proof (to_phase _ _ _ _ _ Hto) as Hp.
    destruct (holds_lock o') eqn:Ho; [by apply at_op_self|].
    by destruct o' as [|? ? []|? ? []].
Qed.

(** ** The turns *)
Lemma turn_ok_gen t o o' s s' :
  same_hdr (pp s) (pp s') → (∀ ch i, slp ch (ptab s') i → slp ch (ptab s) i) →
  running (ptab s) t → running (ptab s') t → phase t o' (pp s') (ptab s') →
  (active_r o' → active_r o) → (active_w o' → active_w o) → turn_ok t o o' s s'.
Proof.
  intros Hh Hs Hr Hr' Hp Ha Ha'. split; try done.
  - auto.
  - by intros ?%(running_not_slp _ _ _ Hr').
  - by intros ?%(running_not_slp _ _ _ Hr').
Qed.

Lemma running_resume tab t i : running tab i → running (sleep_end t tab) i.
Proof.
  intros (p & Hp & Hr). unfold running. rewrite sleep_end_lookup, Hp.
  case_decide; simpl; eauto.
Qed.

Lemma killed_resume tab t i : killed i (sleep_end t tab) = killed i tab.
Proof. unfold killed. rewrite sleep_end_lookup. case_decide; by destruct (tab !! i). Qed.

Lemma sleep_self_only t ch ch' tab i :
  slp ch' (sleep_begin t ch tab) i → slp ch' tab i ∨ i = t.
Proof. intros [[-> _]|]%slp_sleep_begin; auto. Qed.

Lemma sleepers_sleep t ch ch' tab :
  sleepers ch' (sleep_begin t ch tab) → ch' ≠ ch → sleepers ch' tab.
Proof. intros [i [[_ ->]|Hs]%slp_sleep_begin] Hne; [done|by exists i]. Qed.

Lemma bool_to_Z_eqb (a b : Z) : a = b → bool_to_Z (a =? b) ≠ 0.
Proof. intros ->. by rewrite Z.eqb_refl. Qed.

Lemma lazy_same : r_lazy (rcfg_of V) = w_lazy (wcfg_of V).
Proof. unfold wcfg_of, rcfg_of. by repeat case_match. Qed.

(** Leaving [pipewrite] pays the debt to the readers. *)
Lemma wexit_quiet t i nw s :
  running (ptab s) t → owes_r (pp s) (ptab s) i nw →
  quiet_r (pp s) (wexit_tab V t i nw s).
Proof.
  unfold owes_r, quiet_r, waits_r, wexit_tab, lazy, chr. intros Hr Ho Hs.
  destruct (w_lazy (wcfg_of V)); simpl in *.
  - destruct (Z.eqb_spec nw 0), (Z.leb_spec i 0); simpl in *;
      [tauto|tauto|destruct (Ho Hs) as (? & ?); intuition lia|].
    by apply proj2, no_sleepers_wakeup in Hs.
  - by apply proj2, no_sleepers_wakeup in Hs.
Qed.

Lemma rexit_quiet t i fl s :
  running (ptab s) t → owes_w (pp s) (ptab s) i fl →
  quiet_w (pp s) (rexit_tab V t i fl s).
Proof.
  unfold owes_w, quiet_w, rexit_tab, lazy, chw. intros Hr Ho Hs.
  rewrite lazy_same in Hs. destruct (w_lazy (wcfg_of V)); simpl in *.
  - destruct (Z.eqb_spec fl 0), (Z.leb_spec i 0); simpl in *;
      [tauto|tauto|destruct (Ho Hs) as (? & ?); intuition lia|].
    by apply no_sleepers_wakeup in Hs.
  - by apply no_sleepers_wakeup in Hs.
Qed.

Lemma slp_wexit t i nw s ch j : slp ch (wexit_tab V t i nw s) j → slp ch (ptab s) j.
Proof. unfold wexit_tab. case_match; [done|]. apply slp_wakeup. Qed.

Lemma slp_rexit t i fl s ch j : slp ch (rexit_tab V t i fl s) j → slp ch (ptab s) j.
Proof. unfold rexit_tab. case_match; [done|]. apply slp_wakeup. Qed.

Lemma running_wexit t i nw s j : running (ptab s) j → running (wexit_tab V t i nw s) j.
Proof. unfold wexit_tab. case_match; [done|]. apply running_wakeup. Qed.

Lemma running_rexit t i fl s j : running (ptab s) j → running (rexit_tab V t i fl s) j.
Proof. unfold rexit_tab. case_match; [done|]. apply running_wakeup. Qed.

Lemma quiet_r_mono pi tab tab' :
  (∀ ch i, slp ch tab' i → slp ch tab i) → quiet_r pi tab → quiet_r pi tab'.
Proof. intros Hs Hq [Hka [i Hi]]. apply Hq. split; [done|]. exists i. eauto. Qed.

Lemma quiet_w_mono pi tab tab' :
  (∀ ch i, slp ch tab' i → slp ch tab i) → quiet_w pi tab → quiet_w pi tab'.
Proof. intros Hs Hq [i Hi]. apply Hq. exists i. eauto. Qed.

Lemma write_loop_turn t addr n i nw s pc' s' :
  um_ok (um s) → pipe_wf T (pp s) → 0 <= i → n < 2147483648 → running (ptab s) t →
  (readopen (pp s) = 0 → ¬ sleepers (chr (pp s)) (ptab s)) →
  phase t (OpW addr n (WLoop i nw)) (pp s) (ptab s) →
  pipewrite V t addr n (WLoop i nw) s = (pc', s') →
  turn_ok t (OpW addr n (WLoop i nw)) (OpW addr n pc') s s'.
Proof.
  intros Hok Hwf Hi Hn Hr Hro (Hqw & How & Hk) Hst.
  destruct (wturn_cases V t addr n i nw s Hok Hwf Hi Hn) as
    (pc1 & s1 & Hst1 & _ & _ & Hh & Hturn). rewrite Hst1 in Hst. simplify_eq.
  pose proof Hh as (Hpa & _ & Hro' & Hwo').
  assert (chr (pp s') = chr (pp s)) as Hcr by (unfold chr; congruence).
  assert (chw (pp s') = chw (pp s)) as Hcw by (unfold chw; congruence).
  destruct Hturn as [s' Ht Hc Hcnt|Hfail|s' Hpp Hum Hfull Hop Ht
                    |k s' Hk0 Ht Hlt Hcnt Hop Hkl Hcont].
  - apply turn_ok_gen; try done; rewrite Ht; try done. simpl.
    unfold quiet_w, owes_r, waits_r in *. by rewrite Hcr, Hcw, Hcnt, Hro', Hwo'.
  - apply turn_ok_gen; try done. split; [|done]. intros Hs.
    destruct Hfail as [H0'|Hkd]; [by destruct (Hro H0'), Hs|]. split; [auto|]. by apply How.
  - split; try done; rewrite ?Ht.
    + intros ch j [Hs| ->]%sleep_self_only; [left; by eapply slp_wakeup|by right].
    + unfold chr. intros [[_ [=]]|Hs]%slp_sleep_begin.
      apply slp_wakeup_same in Hs as [_ Hs]. by apply running_not_slp in Hs.
    + eauto 10.
    + unfold phase. rewrite Hpp. split; [|done]. unfold quiet_r, waits_r, chr.
      intros [_ Hs%sleepers_sleep]; [|done]. by apply no_sleepers_wakeup in Hs.
  - apply turn_ok_gen; try done; rewrite Ht; try done. simpl.
    unfold quiet_w, owes_r, waits_r in *. rewrite Hcr, Hcw, Hcnt, Hro', Hwo'. split_and!.
    + intros [? ?]%Hqw. lia.
    + intros [Hw Hl]%How. split; [done|]. intros [? ?]%Hl. split; [done|]. lia.
    + intros. congruence.
Qed.

Lemma pipewrite_turn t addr n pc s pc' s' :
  um_ok (um s) → pipe_wf T (pp s) → op_ok (OpW addr n pc) → active_w (OpW addr n pc) →
  running (ptab s) t →
  (readopen (pp s) = 0 → ¬ sleepers (chr (pp s)) (ptab s)) →
  phase t (OpW addr n pc) (pp s) (ptab s) →
  pipewrite V t addr n pc s = (pc', s') → turn_ok t (OpW addr n pc) (OpW addr n pc') s s'.
Proof.
  intros Hok Hwf [Hn Hpc] Hact Hr Hro Hph Hst. destruct pc as [|i nw|i nw|i nw|r]; [| | | |done].
  - rewrite pipewrite_gen in Hst. simpl in Hst. simplify_eq. apply turn_ok_gen; try done.
    destruct Hph as [Hqr Hqw]. split_and!; [done| |by intros _ [? ?]%Hqr].
    intros [Hc Hw]%Hqr. split; [done|]. unfold lazy. intros ->. split; [|auto].
    apply (empty_count' T) in Hwf. rewrite Hwf, Hc. done.
  - by apply write_loop_turn.
  - rewrite pipewrite_gen in Hst. simpl in Hst. simplify_eq. destruct Hph as [Hqr Hqw].
    assert (∀ ch j, slp ch (sleep_end t (ptab s)) j → slp ch (ptab s) j) as Hs
      by (intros ch j; by apply slp_resume).
    apply turn_ok_gen; try done; [by apply running_resume|]. simpl.
    pose proof (quiet_r_mono _ _ _ Hs Hqr) as Hqr'.
    split_and!; [by eapply quiet_w_mono| |by intros _ [? ?]%Hqr'].
    intros [Hc Hw]%Hqr'. split; [done|]. unfold lazy. intros ->. auto.
  - rewrite wstep_exit in Hst. simplify_eq. destruct Hph as [Hqw How].
    apply turn_ok_gen; try done; [by apply slp_wexit|by apply running_wexit|]. simpl.
    split; [by apply wexit_quiet|]. eapply quiet_w_mono; [by apply slp_wexit|done].
Qed.

Lemma read_loop_turn t addr n i fl s pc' s' :
  um_ok (um s) → pipe_wf T (pp s) → 0 <= i → n < 2147483648 → running (ptab s) t →
  phase t (OpR addr n (RLoop i fl)) (pp s) (ptab s) →
  piperead V t addr n (RLoop i fl) s = (pc', s') →
  turn_ok t (OpR addr n (RLoop i fl)) (OpR addr n pc') s s'.
Proof.
  intros Hok Hwf Hi Hn Hr (Hqr & How) Hst.
  destruct (rturn_cases V t addr n i fl s Hok Hwf Hi Hn) as
    (pc1 & s1 & Hst1 & _ & _ & Hh & Hturn). rewrite Hst1 in Hst. simplify_eq.
  pose proof Hh as (Hpa & _ & Hro' & Hwo').
  assert (chr (pp s') = chr (pp s)) as Hcr by (unfold chr; congruence).
  assert (chw (pp s') = chw (pp s)) as Hcw by (unfold chw; congruence).
  destruct Hturn as [Hend|i' s' Ht Hf Hin Hpos|k s' Hk Ht Hpos Hcnt Hcont].
  - by apply turn_ok_gen.
  - apply turn_ok_gen; try done; rewrite Ht; try done. simpl.
    unfold quiet_r, owes_w, waits_r in *. rewrite Hcr, Hcw, Hro', Hwo'. split; [intros [? ?]%Hqr; lia|].
    intros [Hw Hl]%How. split; [done|]. intros Hlz. destruct (Z.eqb_spec V 1) as [HV|HV].
    + unfold lazy, wcfg_of in Hlz. by rewrite HV in Hlz.
    + destruct (Hl Hlz) as [? ?], Hf as [-> ->]. split; [done|]. zcase; lia.
  - apply turn_ok_gen; try done; rewrite Ht; try done. simpl.
    unfold quiet_r, owes_w, waits_r in *. rewrite Hcr, Hcw, Hcnt, Hro', Hwo'. split.
    + intros [? ?]%Hqr. lia.
    + intros [Hw Hl]%How. split; [done|]. intros [? ?]%Hl. split; [done|]. lia.
Qed.

Lemma sleep_reader_turn t addr n s :
  running (ptab s) t → count (pp s) = 0 → writeopen (pp s) ≠ 0 →
  phase t (OpR addr n RWait) (pp s) (ptab s) →
  turn_ok t (OpR addr n RWait) (OpR addr n RAsleep) s (sleep_reader t s).
Proof.
  intros Hr Hc Hw [Hqr Hqw]. split; try done; simpl.
  - intros ch j. apply sleep_self_only.
  - eauto.
  - unfold chw. intros [[_ [=]]|Hs]%slp_sleep_begin. by apply running_not_slp in Hs.
  - split; [done|]. unfold quiet_w, chw. by intros Hs%sleepers_sleep; [apply Hqw|].
Qed.

Lemma piperead_turn t addr n pc s pc' s' :
  um_ok (um s) → pipe_wf T (pp s) → op_ok (OpR addr n pc) → active_r (OpR addr n pc) →
  running (ptab s) t → phase t (OpR addr n pc) (pp s) (ptab s) →
  piperead V t addr n pc s = (pc', s') → turn_ok t (OpR addr n pc) (OpR addr n pc') s s'.
Proof.
  intros Hok Hwf [Hn Hpc] Hact Hr Hph Hst. destruct pc as [| | |i fl|i fl|r]; [| | | | |done].
  - rewrite piperead_gen in Hst. simpl in Hst. simplify_eq. by apply turn_ok_gen.
  - rewrite piperead_gen in Hst. simpl in Hst. destruct Hph as [Hqr Hqw].
    rewrite (empty_count T), r_total_of, (full_count T) in Hst by done.
    assert (∀ fl, (lazy → fl = bool_to_Z (count (pp s) =? T)) →
              turn_ok t (OpR addr n RWait) (OpR addr n (RLoop 0 fl)) s s) as Hgo.
    { intros fl Hfl. apply turn_ok_gen; try done. split; [done|]. intros [Hf Ho]%Hqw.
      split; [done|]. intros ->%Hfl. rewrite Hf, Z.eqb_refl. auto. }
    destruct (Z.eqb_spec (count (pp s)) 0) as [Hc|Hc],
      (Z.eqb_spec (writeopen (pp s)) 0) as [Hw|Hw]; simpl in Hst;
      [|destruct (is_killed t s)| |]; simplify_eq;
      try (apply Hgo; unfold lazy; rewrite <-lazy_same; by intros ->).
    + by apply turn_ok_gen.
    + by apply sleep_reader_turn.
  - rewrite piperead_gen in Hst. simpl in Hst. simplify_eq. destruct Hph as [Hqr Hqw].
    assert (∀ ch j, slp ch (sleep_end t (ptab s)) j → slp ch (ptab s) j) as Hs
      by (intros ch j; by apply slp_resume).
    apply turn_ok_gen; try done; [by apply running_resume|]. simpl.
    split; [by eapply quiet_r_mono|by eapply quiet_w_mono].
  - by apply read_loop_turn.
  - rewrite rstep_exit in Hst. simplify_eq. destruct Hph as [Hqr How].
    apply turn_ok_gen; try done; [by apply slp_rexit|by apply running_rexit|]. simpl.
    split; [|by apply rexit_quiet]. eapply quiet_r_mono; [by apply slp_rexit|done].
Qed.

(** ** The other steps *)
Lemma set_tab_inv y tab' :
  wake_inv y →
  (∀ i, slp (chr (y_pipe y)) tab' i → slp (chr (y_pipe y)) (y_tab y) i) →
  (∀ i, slp (chw (y_pipe y)) tab' i → slp (chw (y_pipe y)) (y_tab y) i) →
  (∀ t, y_lock y = Some t → running tab' t ∧ (ka = false → killed t tab' = killed t (y_tab y))) →
  wake_inv (set_tab tab' y).
Proof.
  intros Hi Hr Hw Hl. split; simpl.
  - intros i Hs. by apply (wi_r _ Hi), Hr.
  - intros i Hs. by apply (wi_w _ Hi), Hw.
  - apply (wi_ro _ Hi).
  - apply (wi_wo _ Hi).
  - apply (wi_lock _ Hi).
  - intros t Ht. split; [by apply Hl|by apply (wi_run _ Hi)].
  - pose proof (wi_phase _ Hi) as Hp. destruct (y_lock y) as [t|] eqn:Ht.
    + destruct Hp as (th & Hth & Hp). exists th. split; [done|].
      eapply phase_mono; [done|done|by apply Hl|done].
    + destruct Hp as [Hqr Hqw].
      split; [intros [Hka [i Hs]]; apply Hqr; split; [done|]|intros [i Hs]; apply Hqw]; exists i; auto.
Qed.

Lemma set_thread_inv y t th th' :
  wake_inv y → y_thr y !! t = Some th → idle th → running (y_tab y) t →
  holds_lock (th_op th') = false →
  (readopen (y_pipe y) = 0 → ¬ active_r (th_op th')) →
  (writeopen (y_pipe y) = 0 → ¬ active_w (th_op th')) →
  wake_inv (set_thread t th' y).
Proof.
  intros Hi Ht Hidle Hrun Hh Hr Hw. assert (is_Some (y_thr y !! t)) as Hsm by eauto.
  assert (∀ u, y_lock y = Some u → u ≠ t) as Hne.
  { intros u [_ (thu & Hu & Hhu)]%(wi_run _ Hi) ->. simplify_eq. unfold idle in Hidle.
    destruct (th_op th) as [|? ? []|? ? []]; simpl in *; tauto || done. }
  assert (∀ ch u, slp ch (y_tab y) u → u ≠ t) as Hns.
  { intros ch u Hs ->. by apply running_not_slp in Hs. }
  split; simpl.
  - intros i Hs. apply at_op_other; [by eapply Hns|by apply (wi_r _ Hi)].
  - intros i Hs. apply at_op_other; [by eapply Hns|by apply (wi_w _ Hi)].
  - intros H0' i [[-> Ha]|[_ Ha]]%at_op_insert; [by apply Hr| |done]. by apply (wi_ro _ Hi H0' i).
  - intros H0' i [[-> Ha]|[_ Ha]]%at_op_insert; [by apply Hw| |done]. by apply (wi_wo _ Hi H0' i).
  - intros i [[-> Ha]|[_ Ha]]%at_op_insert; [congruence| |done]. by apply (wi_lock _ Hi).
  - intros u Hu. destruct (wi_run _ Hi _ Hu) as [? Ha]. split; [done|].
    apply at_op_other; [by apply Hne|done].
  - pose proof (wi_phase _ Hi) as Hp. destruct (y_lock y) as [u|] eqn:Hu; [|done].
    apply at_op_other; [by apply Hne|done].
Qed.

Lemma close_inv y t th wr :
  wake_inv y → y_thr y !! t = Some th → idle th → running (y_tab y) t → y_lock y = None →
  (∀ u thu, y_thr y !! u = Some thu →
     ¬ (if wr =? 0 then active_r (th_op thu) else active_w (th_op thu))) →
  wake_inv (upd y t OpIdle (snd (pipeclose_cs V t wr (at_pipe y th))) [] []).
Proof.
  intros Hi Ht Hidle Hrun Hl Hno. assert (is_Some (y_thr y !! t)) as Hsm by eauto.
  pose proof (wi_phase _ Hi) as Hp. rewrite Hl in Hp. destruct Hp as [Hqr Hqw].
  assert (∀ ch u, slp ch (y_tab y) u → u ≠ t) as Hns.
  { intros ch u Hs ->. by apply running_not_slp in Hs. }
  assert (∀ i P, at_op y i P → i ≠ t →
    at_op (upd y t OpIdle (snd (pipeclose_cs V t wr (at_pipe y th))) [] []) i P) as Hot.
  { intros. by apply at_op_other. }
  unfold pipeclose_cs in *. destruct (Z.eqb_spec wr 0) as [H0'|H0']; simpl in *;
    (split; simpl; [
      intros i Hs%slp_wakeup; apply Hot; [by apply (wi_r _ Hi)|by eapply Hns]|
      intros i Hs%slp_wakeup; apply Hot; [by apply (wi_w _ Hi)|by eapply Hns]| | | | | ]).
  - intros _ i [[-> Ha]|[_ (thu & Hu & Ha)]]%at_op_insert; [done| |done]. by eapply Hno.
  - intros Hw i [[-> Ha]|[_ Ha]]%at_op_insert; [done| |done]. by apply (wi_wo _ Hi Hw i).
  - intros i [[-> Ha]|[_ Ha]]%at_op_insert; [done| |done].
    apply (wi_lock _ Hi) in Ha. congruence.
  - done.
  - split; intros Hs.
    + apply Hqr. destruct Hs as [Hka [i Hs%slp_wakeup]]. split; [done|]. by exists i.
    + by apply no_sleepers_wakeup in Hs.
  - intros Hw i [[-> Ha]|[_ Ha]]%at_op_insert; [done| |done]. by apply (wi_ro _ Hi Hw i).
  - intros _ i [[-> Ha]|[_ (thu & Hu & Ha)]]%at_op_insert; [done| |done]. by eapply Hno.
  - intros i [[-> Ha]|[_ Ha]]%at_op_insert; [done| |done].
    apply (wi_lock _ Hi) in Ha. congruence.
  - done.
  - split; intros Hs.
    + by apply proj2, no_sleepers_wakeup in Hs.
    + apply Hqw. destruct Hs as [i Hs%slp_wakeup]. by exists i.
Qed.

Lemma sleepers_no_reader y :
  wake_inv y → readopen (y_pipe y) = 0 → ¬ sleepers (chr (y_pipe y)) (y_tab y).
Proof.
  intros Hi Hro [i Hs]. apply (wi_r _ Hi) in Hs as (th & Ht & a & n & Ho).
  apply (wi_ro _ Hi Hro i). exists th. by rewrite Ho.
Qed.

Lemma running_alter f i tab t :
  running tab t → (∀ p, tab !! i = Some p → i = t → state (f p) = RUNNING) →
  running (alter f i tab) t.
Proof.
  intros (p & Hp & Hr) Hf. destruct (decide (i = t)) as [->|Hne].
  - exists (f p). by rewrite list_lookup_alter_eq, Hp, Hf.
  - exists p. by rewrite list_lookup_alter_ne.
Qed.

Lemma killed_alter f i tab t :
  (∀ p, killed_flag (f p) = killed_flag p) → killed t (alter f i tab) = killed t tab.
Proof.
  intros Hf. unfold killed. destruct (decide (i = t)) as [->|Hne].
  - rewrite list_lookup_alter_eq. destruct (tab !! t); simpl; auto.
  - by rewrite list_lookup_alter_ne.
Qed.

Lemma kkill_spares tpid tab t :
  (∀ p, tab !! t = Some p → pid p ≠ tpid) → (snd (kkill tpid tab)) !! t = tab !! t.
Proof.
  intros Hne. destruct (kkill_spec tpid tab) as [[-> _]|(l & p & r & -> & Hl & Hp & ->)]; [done|].
  simpl. destruct (decide (t = length l)) as [->|Hd].
  - exfalso. by apply (Hne p); [apply list_lookup_middle|].
  - destruct (decide (t < length l)%nat).
    + by rewrite !lookup_app_l by done.
    + rewrite !lookup_app_r by lia. by destruct (t - length l)%nat eqn:?; [lia|].
Qed.

Lemma running_kkill tpid tab t : running tab t → running (snd (kkill tpid tab)) t.
Proof.
  intros (q & Hq & Hr).
  destruct (kkill_spec tpid tab) as [[-> _]|(l & p & r & -> & Hl & Hp & ->)]; [by exists q|]. simpl.
  destruct (decide (t = length l)) as [->|Hd].
  - rewrite list_lookup_middle in Hq by done. injection Hq as ->.
    exists (kill_entry q). rewrite list_lookup_middle by done. split; [done|].
    unfold kill_entry. by rewrite bool_decide_eq_false_2 by (simpl; congruence).
  - exists q. split; [|done]. destruct (decide (t < length l)%nat).
    + by rewrite lookup_app_l in Hq |- * by done.
    + rewrite lookup_app_r in Hq |- * by lia. by destruct (t - length l)%nat eqn:?; [lia|].
Qed.

Lemma wake_step y y' :
  fifo_inv V y → wake_inv y → sys_step V ka y y' → wake_inv y'.
Proof.
  intros (Hwf & Hths & _) Hi Hst.
  destruct Hst as
    [y t th m addr n Ht Hidle Hrun Hm Hn Hw
    |y t th m addr n Ht Hidle Hrun Hm Hn Hr
    |y t th addr n pc pc' s' Ht Hop Hact Hmay Hpw
    |y t th addr n pc pc' s' Ht Hop Hact Hmay Hpr
    |y t th wr Ht Hidle Hrun Hlock Hno
    |y tpid Hk|y i p Hp Hr|y i Hr Hl|y i th p Ht Hidle H1 H2].
  - eapply set_thread_inv; simpl; done || tauto.
  - eapply set_thread_inv; simpl; done || tauto.
  - destruct (Hths _ _ Ht) as [Hok Ho].
    pose proof (wake_phase _ _ _ Hi Ht Hmay) as Hph.
    apply (turn_ok_inv _ _ th); [done..|]. pose proof Hmay as [Hrun _]. rewrite Hop in *.
    apply pipewrite_turn; try done. by apply sleepers_no_reader.
  - destruct (Hths _ _ Ht) as [Hok Ho].
    pose proof (wake_phase _ _ _ Hi Ht Hmay) as Hph.
    apply (turn_ok_inv _ _ th); [done..|]. pose proof Hmay as [Hrun _]. rewrite Hop in *.
    by apply piperead_turn.
  - by apply close_inv.
  - apply set_tab_inv; [done|intros i; apply slp_kkill..|].
    intros t Ht. destruct (wi_run _ Hi _ Ht) as [Hrun _].
    split; [by apply running_kkill|]. intros Hka. unfold killed.
    rewrite kkill_spares; [done|]. intros p. by apply Hk.
  - apply set_tab_inv; [done|intros j; by apply slp_alter..|].
    intros t Ht. destruct (wi_run _ Hi _ Ht) as [Hrun _].
    split; [by apply running_alter|intros _; by apply killed_alter].
  - apply set_tab_inv; [done|intros j; apply slp_yield..|].
    intros t Ht. destruct (wi_run _ Hi _ Ht) as [Hrun _]. unfold yield_begin.
    split; [apply running_alter; [done|congruence]|].
    intros _. apply killed_alter. intros. by repeat case_match.
  - assert (∀ ch j, ¬ sleeping_on ch p → slp ch (<[i:=p]> (y_tab y)) j → slp ch (y_tab y) j) as Hs.
    { intros ch j Hn (q & Hq & Hsl). apply list_lookup_insert_Some in Hq as [(-> & -> & _)|[_ Hq]].
      - done.
      - by exists q. }
    apply set_tab_inv; [done|intros j; by apply Hs..|].
    intros t Hlt. destruct (wi_run _ Hi _ Hlt) as [Hrun (th' & Ht' & Hh)].
    assert (i ≠ t) as Hne.
    { intros ->. rewrite Ht in Ht'. injection Ht' as <-. unfold idle in Hidle.
      destruct (th_op th) as [|? ? []|? ? []]; simpl in *; tauto || done. }
    unfold running, killed. by rewrite list_lookup_insert_ne.
Qed.

Lemma wake_init c y : sys_init V c y → wake_inv y.
Proof.
  intros (Hp & Hc & Hl & _ & _ & Hth & Hs).
  assert (∀ (P : op → Prop) i, at_op y i P → P OpIdle) as Hidle.
  { intros P i (th & Ht & HP). by rewrite (proj2 (Hth _ _ Ht)) in HP. }
  split.
  - intros i Hsl. by destruct (proj1 (Hs i)).
  - intros i Hsl. by destruct (proj2 (Hs i)).
  - by intros _ i Ha%Hidle.
  - by intros _ i Ha%Hidle.
  - by intros i Ha%Hidle.
  - by rewrite Hl.
  - rewrite Hl. split; [intros [_ [i Hsl]]|intros [i Hsl]]; exfalso; [by apply (proj1 (Hs i))|by apply (proj2 (Hs i))].
Qed.

Lemma wake_reachable c y0 y :
  sys_init V c y0 → rtc (sys_step V ka) y0 y → fifo_inv V y ∧ wake_inv y.
Proof.
  intros Hi Hst. eapply rtc_invariant with (P := λ y, fifo_inv V y ∧ wake_inv y); [|done|].
  - intros a b [Hf Hw] Hab. split; [by eapply fifo_step|by eapply wake_step].
  - split; [by eapply fifo_init|by eapply wake_init].
Qed.
End wake.

(** ** Properties *)

(** C4: no lost wakeup, all versions.  Whenever the pipe lock is free, a process
    asleep on [&pi->nwrite] is inside [pipewrite] with the pipe full and the read
    end open, whoever is killed.  If moreover no process was killed while it
    held the pipe lock ([ka = false]; [lazy_wakeup_lost] shows that this is
    needed), a process asleep on [&pi->nread] is inside [piperead] with the pipe
    empty and the write end open; so readers and writers are never asleep at
    the same time (the pipe does not deadlock on itself). *)
Theorem no_lost_wakeup {M : Type} `{UserMemLaws M} (V c : Z) (ka : bool) (y0 y : sys M) :
  sys_init V c y0 → rtc (sys_step V ka) y0 y → y_lock y = None →
  (∀ i, slp (chw (y_pipe y)) (y_tab y) i →
     count (y_pipe y) = PIPE_TOTAL V ∧ readopen (y_pipe y) ≠ 0 ∧
     ∃ th a n j nw, y_thr y !! i = Some th ∧ th_op th = OpW a n (WAsleep j nw)) ∧
  (ka = false →
   (∀ i, slp (chr (y_pipe y)) (y_tab y) i →
     count (y_pipe y) = 0 ∧ writeopen (y_pipe y) ≠ 0 ∧
     ∃ th a n, y_thr y !! i = Some th ∧ th_op th = OpR a n RAsleep) ∧
   ¬ (sleepers (chr (y_pipe y)) (y_tab y) ∧
      sleepers (chw (y_pipe y)) (y_tab y))).
Proof.
  intros Hi Hst Hl. destruct (wake_reachable _ _ _ _ _ Hi Hst) as [_ Hw].
  pose proof (wi_phase _ _ _ Hw) as Hp. rewrite Hl in Hp. destruct Hp as [Hqr Hqw].
  split; [intros i Hs|intros Hka; split; [intros i Hs|intros [Hr Hwr]]].
  - destruct (Hqw (ex_intro _ i Hs)).
    destruct (wi_w _ _ _ Hw _ Hs) as (th & Ht & a & n & j & nw & Ho). eauto 10.
  - destruct (Hqr (conj Hka (ex_intro _ i Hs))).
    destruct (wi_r _ _ _ Hw _ Hs) as (th & Ht & a & n & Ho). eauto 10.
  - destruct (Hqr (conj Hka Hr)), (Hqw Hwr). pose proof (ring_PIPE_TOTAL V) as [Hpos _]. lia.
Qed.

(** *** Concrete schedules *)
Import Flat.

(** [n] running processes around a fresh pipe whose counters are at [c]. *)
Definition sys_of (V c : Z) (n : nat) : sys flat :=
  mkSys (pipe_at (PIPE_TOTAL V) c) (procs n) (replicate n (mkTh buf5 OpIdle)) None [] [].

Lemma sys_of_init V c n : 0 <= c < 4294967296 → sys_init V c (sys_of V c n).
Proof.
  intros Hc. split_and!; try (done || lia).
  - intros t th [-> _]%lookup_replicate. done.
  - intros i. split; intros (p & Hp & Hs & _);
      apply list_lookup_fmap_Some in Hp as (k & -> & _); simplify_eq/=.
Qed.

(** The reader [0] finds the pipe empty and sleeps.  The writer [1] copies the
    one byte that fits before the end of the ring; it is then killed by [3] and
    gives up.  The writer [2] then writes five bytes and returns. *)
Definition sched_killed_writer : list (event flat) :=
  [EBeginR 0 buf5 4096 5; ETurn 0; ETurn 0;
   EBeginW 1 buf5 4096 5; ETurn 1; ETurn 1; EKill 2; ETurn 1;
   EBeginW 2 buf5 4096 5; ETurn 2; ETurn 2; ETurn 2; ETurn 2].

Definition asleep_with_data (y : sys flat) (T : Z) : Prop :=
  y_lock y = None ∧ slp (ChNread (paddr (y_pipe y))) (y_tab y) 0 ∧
  contents T (y_pipe y) = [104; 104; 101; 108; 108; 111] ∧
  th_op <$> y_thr y = [OpR 4096 5 RAsleep; OpW 4096 5 (WRet (-1)); OpW 4096 5 (WRet 5); OpIdle].

(** The part of the final state that [asleep_with_data] is about. *)
Definition sys_view (T : Z) (y : sys flat) :=
  (y_lock y, (λ p, (state p, bool_decide (chan p = ChNread (paddr (y_pipe y))))) <$> y_tab y !! 0%nat,
   contents T (y_pipe y), th_op <$> y_thr y).

Lemma killed_writer_view V :
  5 <= V <= 8 →
  sys_view (PIPE_TOTAL V) <$> play V (sys_of V 4095 4) sched_killed_writer =
    Some (None, Some (SLEEPING, true), [104; 104; 101; 108; 108; 111],
          [OpR 4096 5 RAsleep; OpW 4096 5 (WRet (-1)); OpW 4096 5 (WRet 5); OpIdle]).
Proof.
  intros HV. assert (V = 5 ∨ V = 6 ∨ V = 7 ∨ V = 8) as [->|[->|[->| ->]]] by lia;
    by vm_compute.
Qed.

(** C36: the conditional wakeup of version 5 to 8 loses a wakeup when a writer is
    killed in the middle of [pipewrite]: there is a run after which the lock is
    free, every writer has returned (one of them successfully, after the kill),
    six bytes are in the pipe, and the reader is still asleep. *)
Theorem lazy_wakeup_lost (V : Z) :
  5 <= V <= 8 →
  ∃ y, rtc (sys_step V true) (sys_of V 4095 4) y ∧ asleep_with_data y (PIPE_TOTAL V).
Proof.
  intros HV. destruct (play V (sys_of V 4095 4) sched_killed_writer) as [y|] eqn:Hp;
    pose proof (killed_writer_view V HV) as Hv; rewrite Hp in Hv; [|done].
  exists y. split; [eapply play_sound; [|exact Hp]; by repeat constructor|].
  injection Hv as Hl Hsc Hc Ho. split_and!; [done| |done|done].
  destruct (y_tab y !! 0%nat) as [p|] eqn:H0; [|done]. injection Hsc as Hs Hch%bool_decide_eq_true.
  exists p. split; [done|]. by split.
Qed.

Lemma lazy_wakeup_lost_witness :
  ∃ y, rtc (sys_step 7 true) (sys_of 7 4095 4) y ∧ asleep_with_data y 4096.
Proof. apply (lazy_wakeup_lost 7). lia. Defined.

(** The next write repairs it in version 2 to 4: on the same schedule the reader
    is runnable at the end. *)
Example eager_wakeup_repairs :
  Forall (λ V, (play V (sys_of V 4095 4) sched_killed_writer
                  ≫= λ y, state <$> y_tab y !! 0%nat) = Some RUNNABLE) [2; 3; 4].
Proof. repeat (apply Forall_cons; split; [by vm_compute|]). apply Forall_nil. done. Qed.

(** Witness of [no_lost_wakeup]: a reader asleep on the empty pipe. *)
Lemma no_lost_wakeup_witness :
  ∃ y, play 7 (sys_of 7 4095 4) [EBeginR 0 buf5 4096 5; ETurn 0; ETurn 0] = Some y ∧
    count (y_pipe y) = 0.
Proof.
  assert (sys_view 4096 <$> play 7 (sys_of 7 4095 4)
            [EBeginR 0 buf5 4096 5; ETurn 0; ETurn 0] =
          Some (None, Some (SLEEPING, true), [], [OpR 4096 5 RAsleep; OpIdle; OpIdle; OpIdle]))
    as Hv by by vm_compute.
  destruct (play 7 (sys_of 7 4095 4) _) as [y|] eqn:Hp; [|done].
  exists y. split; [done|].
  destruct (no_lost_wakeup 7 4095 false (sys_of 7 4095 4) y) as [_ Hr].
  - by apply sys_of_init.
  - eapply play_sound; [|exact Hp]. by repeat constructor.
  - by injection Hv.
  - apply (proj1 (Hr eq_refl) 0%nat). injection Hv as _ Hs _ _.
    destruct (y_tab y !! 0%nat) as [p|] eqn:H0; [|done]. injection Hs as Hs Hch%bool_decide_eq_true.
    exists p. split; [done|]. by split.
Defined.
