(* ===== verification/Mem.v ===== *)
(** * Byte-addressed memory

    The kernel's view of physical memory (the kernel page table maps it one to
    one): bytes by address, little-endian 64-bit words on top.  C pointer
    arithmetic does not wrap, so addresses are plain [Z]. *)
From S2P Require Import Prelude.

Abbreviation mem := (gmap Z Z).

Definition ld8 (m : mem) (a : Z) : Z := default 0 (m !! a).
Definition st8 (m : mem) (a v : Z) : mem := <[a := u8 v]> m.

Fixpoint ldn (m : mem) (a : Z) (n : nat) : Z :=
  match n with O => 0 | S n' => ld8 m a + 256 * ldn m (a + 1) n' end.
Fixpoint stn (m : mem) (a v : Z) (n : nat) : mem :=
  match n with O => m | S n' => stn (st8 m a (v mod 256)) (a + 1) (v / 256) n' end.

Definition ld64 (m : mem) (a : Z) : Z := ldn m a 8.
Definition st64 (m : mem) (a v : Z) : mem := stn m a (u64 v) 8.

(** Two memories that agree byte for byte. *)
Definition mem_eq (m m' : mem) : Prop := ∀ a, ld8 m a = ld8 m' a.

(** Every byte is a byte. *)
Definition mem_ok (m : mem) : Prop := ∀ a, 0 <= ld8 m a < 256.

Lemma ld8_st8 m a v b : ld8 (st8 m a v) b = if decide (a = b) then u8 v else ld8 m b.
Proof. unfold ld8, st8. rewrite lookup_insert. by case_decide. Qed.

Lemma ld8_stn m n : ∀ a v b,
  ld8 (stn m a v n) b =
    if decide (a <= b < a + Z.of_nat n) then (v / 256 ^ (b - a)) mod 256 else ld8 m b.
Proof.
  revert m. induction n as [|n IH]; intros m a v b.
  - simpl. case_decide; [lia|done].
  - cbn [stn]. rewrite IH, ld8_st8. unfold u8.
    destruct (decide (a = b)) as [->|Hne].
    + case_decide; [lia|]. case_decide; [|lia].
      rewrite Z.sub_diag, Z.pow_0_r, Z.div_1_r, Z.mod_mod by lia. done.
    + case_decide as H1; case_decide as H2; try lia.
      replace (256 ^ (b - a)) with (256 * 256 ^ (b - (a + 1))).
      * by rewrite Z.div_div by lia.
      * rewrite <-Z.pow_succ_r by lia. f_equal. lia.
Qed.

Lemma ldn_ext m m' n : ∀ a,
  (∀ b, a <= b < a + Z.of_nat n → ld8 m b = ld8 m' b) → ldn m a n = ldn m' a n.
Proof.
  induction n as [|n IH]; intros a Hb; simpl; [done|].
  rewrite Hb, (IH (a + 1)) by (intros; try apply Hb; lia). done.
Qed.

Lemma ldn_stn m n : ∀ a v, ldn (stn m a v n) a n = v mod 256 ^ Z.of_nat n.
Proof.
  revert m. induction n as [|n IH]; intros m a v.
  - simpl. by rewrite Z.mod_1_r.
  - cbn [stn ldn]. rewrite IH, ld8_stn, ld8_st8. case_decide; [lia|].
    rewrite decide_True by done. unfold u8. rewrite Z.mod_mod by lia.
    replace (256 ^ Z.of_nat (S n)) with (256 * 256 ^ Z.of_nat n)
      by (rewrite Nat2Z.inj_succ, Z.pow_succ_r; lia).
    rewrite Z.rem_mul_r by lia. lia.
Qed.

Lemma ldn_range m n : mem_ok m → ∀ a, 0 <= ldn m a n < 256 ^ Z.of_nat n.
Proof.
  intros Hm. induction n as [|n IH]; intros a; simpl ldn; [simpl; lia|].
  specialize (IH (a + 1)). specialize (Hm a). rewrite Nat2Z.inj_succ, Z.pow_succ_r by lia. lia.
Qed.

Lemma ld64_st64 m a v : ld64 (st64 m a v) a = u64 v.
Proof.
  unfold ld64, st64. rewrite ldn_stn. change (256 ^ Z.of_nat 8) with 18446744073709551616.
  unfold u64. by rewrite Z.mod_mod by lia.
Qed.

Lemma ld8_st64_ne m a v b : b < a ∨ a + 8 <= b → ld8 (st64 m a v) b = ld8 m b.
Proof. intros. unfold st64. rewrite ld8_stn. case_decide; [lia|done]. Qed.

Lemma ld64_st64_ne m a v b : b + 8 <= a ∨ a + 8 <= b → ld64 (st64 m a v) b = ld64 m b.
Proof. intros. apply ldn_ext. intros. apply ld8_st64_ne. lia. Qed.

Lemma ld64_ext m m' a : (∀ b, a <= b < a + 8 → ld8 m b = ld8 m' b) → ld64 m a = ld64 m' a.
Proof. intros Hb. by apply ldn_ext. Qed.

Lemma ld64_range m a : mem_ok m → 0 <= ld64 m a < 18446744073709551616.
Proof. intros. by apply (ldn_range m 8). Qed.

Lemma st8_ok m a v : mem_ok m → mem_ok (st8 m a v).
Proof.
  intros Hm b. rewrite ld8_st8. case_decide; [|apply Hm].
  unfold u8. apply Z.mod_pos_bound. lia.
Qed.

Lemma st64_ok m a v : mem_ok m → mem_ok (st64 m a v).
Proof.
  intros Hm b. unfold st64. rewrite ld8_stn. case_decide; [|apply Hm].
  apply Z.mod_pos_bound. lia.
Qed.

#[export] Hint Resolve st8_ok st64_ok : xv6.
