(* ===== verification/CString.v ===== *)
(** * string.c

    The memory and string functions of [kernel/string.c] on the byte memory of
    [Mem].  Functions that return their first argument return the memory only.
    The C loops run over a [uint] or [int] count, here the [nat] of the
    remaining iterations; [strlen] has no bound of its own and takes fuel. *)
From S2P Require Import Prelude Mem.

Fixpoint memset_loop (m : mem) (p c : Z) (n : nat) : mem :=
  match n with O => m | S n' => memset_loop (st8 m p c) (p + 1) c n' end.
Definition memset (m : mem) (dst c n : Z) : mem := memset_loop m dst c (Z.to_nat n).

Fixpoint memcmp_loop (m : mem) (s1 s2 : Z) (n : nat) : Z :=
  match n with
  | O => 0
  | S n' => if negb (ld8 m s1 =? ld8 m s2) then ld8 m s1 - ld8 m s2
            else memcmp_loop m (s1 + 1) (s2 + 1) n'
  end.
Definition memcmp (m : mem) (v1 v2 n : Z) : Z := memcmp_loop m v1 v2 (Z.to_nat n).

(** The two loops of [memmove]: from the end, and from the start. *)
Fixpoint move_down (m : mem) (d s : Z) (n : nat) : mem :=
  match n with
  | O => m
  | S n' => move_down (st8 m (d - 1) (ld8 m (s - 1))) (d - 1) (s - 1) n'
  end.
Fixpoint move_up (m : mem) (d s : Z) (n : nat) : mem :=
  match n with O => m | S n' => move_up (st8 m d (ld8 m s)) (d + 1) (s + 1) n' end.

Definition memmove (m : mem) (dst src n : Z) : mem :=
  if n =? 0 then m
  else if (src <? dst) && (dst <? src + n)
  then move_down m (dst + n) (src + n) (Z.to_nat n)
  else move_up m dst src (Z.to_nat n).

Definition memcpy (m : mem) (dst src n : Z) : mem := memmove m dst src n.

Fixpoint strncmp_loop (m : mem) (p q : Z) (n : nat) : Z :=
  match n with
  | O => 0
  | S n' => if negb (ld8 m p =? 0) && (ld8 m p =? ld8 m q)
            then strncmp_loop m (p + 1) (q + 1) n'
            else ld8 m p - ld8 m q
  end.
Definition strncmp (m : mem) (p q n : Z) : Z := strncmp_loop m p q (Z.to_nat n).

(** The first loop of [strncpy]: the memory, [s] and what is left of [n]. *)
Fixpoint strncpy_copy (m : mem) (s t : Z) (n : nat) : mem * Z * nat :=
  match n with
  | O => (m, s, O)
  | S n' => let c := ld8 m t in
            let m := st8 m s c in
            if negb (c =? 0) then strncpy_copy m (s + 1) (t + 1) n' else (m, s + 1, n')
  end.
Definition strncpy (m : mem) (s t n : Z) : mem :=
  let '(m, s, n) := strncpy_copy m s t (Z.to_nat n) in memset_loop m s 0 n.

(** The loop of [safestrcpy]; [n] is the number of bytes it may copy. *)
Fixpoint safestrcpy_copy (m : mem) (s t : Z) (n : nat) : mem * Z :=
  match n with
  | O => (m, s)
  | S n' => let c := ld8 m t in
            let m := st8 m s c in
            if negb (c =? 0) then safestrcpy_copy m (s + 1) (t + 1) n' else (m, s + 1)
  end.
Definition safestrcpy (m : mem) (s t n : Z) : mem :=
  if n <=? 0 then m
  else let '(m, s) := safestrcpy_copy m s t (Z.to_nat (n - 1)) in st8 m s 0.

Fixpoint strlen_loop (m : mem) (s n : Z) (fuel : nat) : res Z :=
  match fuel with
  | O => NoFuel
  | S f => if ld8 m (s + n) =? 0 then Ok n else strlen_loop m s (n + 1) f
  end.
Definition strlen (m : mem) (s : Z) (fuel : nat) : res Z := strlen_loop m s 0 fuel.

(** ** What the loops do, byte by byte *)
Lemma memset_loop_ld8 c n : ∀ m p a,
  ld8 (memset_loop m p c n) a = if decide (p <= a < p + Z.of_nat n) then u8 c else ld8 m a.
Proof.
  induction n as [|n IH]; intros m p a; simpl.
  - case_decide; [lia|done].
  - rewrite IH, ld8_st8. repeat case_decide; done || lia.
Qed.

Lemma memset_ld8 m dst c n a :
  0 <= n → ld8 (memset m dst c n) a = if decide (dst <= a < dst + n) then u8 c else ld8 m a.
Proof. intros. unfold memset. rewrite memset_loop_ld8, Z2Nat.id by lia. done. Qed.

Lemma u8_ld8 m a : mem_ok m → u8 (ld8 m a) = ld8 m a.
Proof. intros Hm. apply Z.mod_small, Hm. Qed.

Lemma move_down_ld8 n : ∀ m d s a,
  mem_ok m → s < d →
  ld8 (move_down m d s n) a =
    if decide (d - Z.of_nat n <= a < d) then ld8 m (s - d + a) else ld8 m a.
Proof.
  induction n as [|n IH]; intros m d s a Hm Hsd; simpl.
  - case_decide; [lia|done].
  - rewrite IH by (auto with xv6; lia). rewrite !ld8_st8.
    repeat case_decide; try lia; rewrite ?u8_ld8 by done; try done; f_equal; lia.
Qed.

Lemma move_up_ld8 n : ∀ m d s a,
  mem_ok m → d <= s ∨ s + Z.of_nat n <= d →
  ld8 (move_up m d s n) a =
    if decide (d <= a < d + Z.of_nat n) then ld8 m (s - d + a) else ld8 m a.
Proof.
  induction n as [|n IH]; intros m d s a Hm Hsd; simpl.
  - case_decide; [lia|done].
  - rewrite IH by (auto with xv6; lia). rewrite !ld8_st8.
    repeat case_decide; try lia; rewrite ?u8_ld8 by done; try done; f_equal; lia.
Qed.

(** Bytes [0 .. k) of the string at [t] are not NUL. *)
Definition no_nul (m : mem) (t k : Z) : Prop := ∀ j, 0 <= j < k → ld8 m (t + j) ≠ 0.

Lemma no_nul_S m t k : ld8 m t ≠ 0 → no_nul m (t + 1) k → no_nul m t (k + 1).
Proof.
  intros H0 Hk j Hj. destruct (decide (j = 0)) as [->|]; [by rewrite Z.add_0_r|].
  replace (t + j) with (t + 1 + (j - 1)) by lia. apply Hk. lia.
Qed.

Lemma no_nul_mono m m' t t' k k' :
  no_nul m t k → k' <= k → (∀ j, 0 <= j < k' → ld8 m' (t' + j) = ld8 m (t + j)) → no_nul m' t' k'.
Proof. intros Hn Hk He j Hj. rewrite He by done. apply Hn. lia. Qed.

(** The bytes both copying loops store before they stop: [k] bytes before the
    NUL, or [n] bytes of a longer string. *)
Lemma safestrcpy_copy_spec n : ∀ m s t m' s',
  mem_ok m → s + Z.of_nat n <= t ∨ t + Z.of_nat n <= s →
  safestrcpy_copy m s t n = (m', s') →
  ∃ k, 0 <= k <= Z.of_nat n ∧ no_nul m t k ∧ s <= s' <= s + Z.of_nat n ∧ mem_ok m' ∧
    (∀ j, 0 <= j < k → ld8 m' (s + j) = ld8 m (t + j)) ∧
    (∀ a, a < s ∨ s' <= a → ld8 m' a = ld8 m a) ∧
    ((k = Z.of_nat n ∧ s' = s + k) ∨
     (k < Z.of_nat n ∧ ld8 m (t + k) = 0 ∧ s' = s + k + 1 ∧ ld8 m' (s + k) = 0)).
Proof.
  induction n as [|n IH]; intros m s t m' s' Hm Hd Hc; simpl in Hc.
  { simplify_eq. exists 0. split_and!; try done; try lia; try (intros ?; lia). }
  destruct (Z.eqb_spec (ld8 m t) 0) as [H0|H0]; simpl in Hc.
  - simplify_eq. exists 0. split_and!; try lia; auto with xv6.
    + intros ? ?; lia.
    + intros a Ha. rewrite ld8_st8. case_decide; [lia|done].
    + right. rewrite Z.add_0_r, ld8_st8, decide_True by (done || lia). rewrite Z.add_0_r, H0.
      split_and!; done || lia.
  - destruct (IH _ (s + 1) (t + 1) _ _ (st8_ok _ _ _ Hm) ltac:(lia) Hc) as (k & Hk & Hn & Hs & Hm' & Hin & Hout & Hend).
    assert (∀ j, 0 <= j < Z.of_nat n → ld8 (st8 m s (ld8 m t)) (t + 1 + j) = ld8 m (t + (j + 1))) as Hsrc.
    { intros j Hj. rewrite ld8_st8. case_decide; [lia|]. f_equal. lia. }
    exists (k + 1). split_and!; try lia; try done.
    + apply no_nul_S; [done|]. eapply no_nul_mono; [exact Hn|lia|].
      intros j Hj. rewrite Hsrc by lia. f_equal. lia.
    + intros j Hj. destruct (decide (j = 0)) as [->|].
      * rewrite !Z.add_0_r, Hout, ld8_st8, decide_True by (done || lia). by apply u8_ld8.
      * replace (s + j) with (s + 1 + (j - 1)) by lia. rewrite Hin, Hsrc by lia. f_equal. lia.
    + intros a Ha. rewrite Hout by lia. rewrite ld8_st8. case_decide; [lia|done].
    + destruct Hend as [[-> ->]|(Hlt & Hz & -> & Hz')]; [left; lia|right].
      rewrite Hsrc in Hz by lia. split_and!; [lia|exact Hz|lia|].
      by replace (s + (k + 1)) with (s + 1 + k) by lia.
Qed.

Lemma safestrcpy_copy_end n : ∀ m s t m' s',
  safestrcpy_copy m s t n = (m', s') → s <= s' <= s + Z.of_nat n.
Proof.
  induction n as [|n IH]; intros m s t m' s'; simpl; [intros [= <- <-]; lia|].
  case_match; [|intros [= <- <-]; lia]. intros Hc. apply IH in Hc. lia.
Qed.

Lemma strncpy_copy_safe n : ∀ m s t,
  strncpy_copy m s t n =
    let '(m', s') := safestrcpy_copy m s t n in (m', s', (n - Z.to_nat (s' - s))%nat).
Proof.
  induction n as [|n IH]; intros m s t; simpl; [done|].
  destruct (Z.eqb_spec (ld8 m t) 0); simpl.
  - f_equal. lia.
  - rewrite IH. destruct (safestrcpy_copy _ _ _ n) as [m' s'] eqn:Hc.
    apply safestrcpy_copy_end in Hc. f_equal. lia.
Qed.

(** [strncpy] copies up to the NUL and pads with zeroes to [n] bytes. *)
Lemma strncpy_spec m s t n :
  mem_ok m → 0 <= n → s + n <= t ∨ t + n <= s →
  ∃ k, 0 <= k <= n ∧ no_nul m t k ∧ (k = n ∨ ld8 m (t + k) = 0) ∧
    (∀ j, 0 <= j < k → ld8 (strncpy m s t n) (s + j) = ld8 m (t + j)) ∧
    (∀ j, k <= j < n → ld8 (strncpy m s t n) (s + j) = 0) ∧
    (∀ a, a < s ∨ s + n <= a → ld8 (strncpy m s t n) a = ld8 m a).
Proof.
  intros Hm Hn Hd. unfold strncpy. rewrite strncpy_copy_safe.
  destruct (safestrcpy_copy m s t (Z.to_nat n)) as [m' s'] eqn:Hc.
  destruct (safestrcpy_copy_spec (Z.to_nat n) _ s t _ _ Hm ltac:(lia) Hc)
    as (k & Hk & Hnn & Hs & Hm' & Hin & Hout & Hend).
  exists k. split_and!; try lia; try done.
  - intros j Hj. rewrite memset_loop_ld8. case_decide; [lia|]. by apply Hin.
  - intros j Hj. rewrite memset_loop_ld8. case_decide as Hd'; [done|].
    destruct Hend as [[-> ->]|(? & ? & -> & Hz)]; [lia|].
    replace j with k by lia. done.
  - intros a Ha. rewrite memset_loop_ld8. case_decide; [lia|]. apply Hout. lia.
Qed.

(** [strncmp] is 0 exactly when the strings agree up to [n] bytes or the NUL. *)
Lemma strncmp_loop_zero n : ∀ m p q,
  strncmp_loop m p q n = 0 ↔
    ∃ k, 0 <= k <= Z.of_nat n ∧ no_nul m p k ∧
      (∀ j, 0 <= j < k → ld8 m (q + j) = ld8 m (p + j)) ∧
      (k = Z.of_nat n ∨ (ld8 m (p + k) = 0 ∧ ld8 m (q + k) = 0)).
Proof.
  induction n as [|n IH]; intros m p q; simpl.
  { split; [|done]. intros _. exists 0. split_and!; try lia; intros ??; lia. }
  destruct (Z.eqb_spec (ld8 m p) 0) as [H0|H0]; simpl.
  - split.
    + intros. exists 0. rewrite !Z.add_0_r. split_and!; try lia; intros ??; lia.
    + intros (k & Hk & Hnn & Heq & Hend). destruct (decide (k = 0)) as [->|].
      * rewrite !Z.add_0_r in Hend. lia.
      * exfalso. apply (Hnn 0); [lia|]. by rewrite Z.add_0_r.
  - destruct (Z.eqb_spec (ld8 m p) (ld8 m q)) as [He|He].
    + rewrite IH. split; intros (k & Hk & Hnn & Heq & Hend).
      * exists (k + 1). split_and!; try lia.
        -- by apply no_nul_S.
        -- intros j Hj. destruct (decide (j = 0)) as [->|]; [by rewrite !Z.add_0_r|].
           replace (q + j) with (q + 1 + (j - 1)) by lia.
           replace (p + j) with (p + 1 + (j - 1)) by lia. apply Heq. lia.
        -- replace (p + (k + 1)) with (p + 1 + k) by lia.
           replace (q + (k + 1)) with (q + 1 + k) by lia. lia.
      * destruct (decide (k = 0)) as [->|].
        { exfalso. rewrite Z.add_0_r in Hend. lia. }
        exists (k - 1). replace (p + 1 + (k - 1)) with (p + k) by lia.
        replace (q + 1 + (k - 1)) with (q + k) by lia. split_and!; try lia.
        -- intros j Hj. replace (p + 1 + j) with (p + (j + 1)) by lia. apply Hnn. lia.
        -- intros j Hj. replace (p + 1 + j) with (p + (j + 1)) by lia.
           replace (q + 1 + j) with (q + (j + 1)) by lia. apply Heq. lia.
    + split; [lia|]. intros (k & Hk & Hnn & Heq & Hend). exfalso.
      destruct (decide (k = 0)) as [->|]; [rewrite !Z.add_0_r in Hend; lia|].
      apply He. specialize (Heq 0). rewrite !Z.add_0_r in Heq. symmetry. apply Heq. lia.
Qed.

(** [strlen] returns the index of the first NUL, given fuel beyond it. *)
Lemma strlen_spec m s k fuel :
  0 <= k → no_nul m s k → ld8 m (s + k) = 0 → (Z.to_nat k < fuel)%nat →
  strlen m s fuel = Ok k.
Proof.
  intros Hk Hnn Hz Hf. unfold strlen.
  assert (∀ fuel n, 0 <= n <= k → (Z.to_nat (k - n) < fuel)%nat →
            strlen_loop m s n fuel = Ok k) as Hgen; [|apply Hgen; lia].
  clear fuel Hf. induction fuel as [|fuel IH]; intros n Hn Hf; [lia|]. simpl.
  destruct (Z.eqb_spec (ld8 m (s + n)) 0) as [H0|H0].
  - f_equal. destruct (decide (n = k)); [done|]. exfalso. apply (Hnn n); [lia|done].
  - destruct (decide (n = k)) as [->|]; [done|]. apply IH; lia.
Qed.

(** ** Properties *)

(** [memmove] copies as if through a temporary buffer, for every overlap of
    source and destination, and changes no byte outside the destination. *)
Theorem memmove_correct (m : mem) (dst src n a : Z) :
  mem_ok m → 0 <= n →
  ld8 (memmove m dst src n) a =
    if decide (dst <= a < dst + n) then ld8 m (src + (a - dst)) else ld8 m a.
Proof.
  intros Hm Hn. unfold memmove. destruct (Z.eqb_spec n 0) as [->|Hn0].
  { case_decide; [lia|done]. }
  destruct (Z.ltb_spec src dst), (Z.ltb_spec dst (src + n)); simpl.
  - rewrite move_down_ld8 by (done || lia). repeat case_decide; try lia; f_equal; lia.
  - rewrite move_up_ld8 by (done || lia). repeat case_decide; try lia; f_equal; lia.
  - rewrite move_up_ld8 by (done || lia). repeat case_decide; try lia; f_equal; lia.
  - rewrite move_up_ld8 by (done || lia). repeat case_decide; try lia; f_equal; lia.
Qed.

(** [safestrcpy] always NUL-terminates within the [n] bytes of the
    destination: it stores the longest prefix of the source string of at most
    [n - 1] bytes, then a NUL, and writes nothing outside [s, s + n). *)
Theorem safestrcpy_correct (m : mem) (s t n : Z) :
  mem_ok m → 0 < n → s + n <= t ∨ t + n <= s →
  ∃ k, 0 <= k < n ∧ no_nul m t k ∧ (k = n - 1 ∨ ld8 m (t + k) = 0) ∧
    (∀ j, 0 <= j < k → ld8 (safestrcpy m s t n) (s + j) = ld8 m (t + j)) ∧
    ld8 (safestrcpy m s t n) (s + k) = 0 ∧
    (∀ a, a < s ∨ s + n <= a → ld8 (safestrcpy m s t n) a = ld8 m a).
Proof.
  intros Hm Hn Hd. unfold safestrcpy. destruct (Z.leb_spec n 0); [lia|].
  destruct (safestrcpy_copy m s t (Z.to_nat (n - 1))) as [m' s'] eqn:Hc.
  destruct (safestrcpy_copy_spec (Z.to_nat (n - 1)) _ s t _ _ Hm ltac:(lia) Hc)
    as (k & Hk & Hnn & Hs & Hm' & Hin & Hout & Hend).
  exists k. split_and!; try lia; try done.
  - intros j Hj. rewrite ld8_st8. case_decide; [lia|]. by apply Hin.
  - rewrite ld8_st8. case_decide; [done|]. destruct Hend as [[-> ->]|(_ & _ & _ & ->)]; done.
  - intros a Ha. rewrite ld8_st8. case_decide; [lia|]. apply Hout. lia.
Qed.

(** *** Witnesses *)
Fixpoint mem_of (a : Z) (bs : list Z) : mem :=
  match bs with [] => ∅ | b :: bs' => <[a := u8 b]> (mem_of (a + 1) bs') end.

Lemma mem_of_ok bs : ∀ a, mem_ok (mem_of a bs).
Proof.
  induction bs as [|b bs IH]; intros a x; [by vm_compute|].
  change (mem_of a (b :: bs)) with (st8 (mem_of (a + 1) bs) a b). apply st8_ok, IH.
Qed.

(** "xv6" moved one byte up, over itself. *)
Lemma memmove_correct_witness :
  let m' := memmove (mem_of 100 [120; 118; 54; 0]) 101 100 3 in
  ld8 m' 100 = 120 ∧ ld8 m' 101 = 120 ∧ ld8 m' 102 = 118 ∧ ld8 m' 103 = 54.
Proof.
  cbv zeta. rewrite !(memmove_correct (mem_of 100 [120; 118; 54; 0]) 101 100 3)
    by (apply mem_of_ok || lia). split_and!; reflexivity.
Defined.

Lemma safestrcpy_correct_witness :
  ∃ k, 0 <= k < 3 ∧ ld8 (safestrcpy (mem_of 100 [120; 118; 54; 0]) 200 100 3) (200 + k) = 0.
Proof.
  destruct (safestrcpy_correct (mem_of 100 [120; 118; 54; 0]) 200 100 3)
    as (k & Hk & _ & _ & _ & Hz & _); [apply mem_of_ok|lia|lia|].
  exists k. split; [exact Hk|exact Hz].
Defined.
