(* ===== verification/Kalloc.v ===== *)
(** * kalloc.c: the physical page allocator

    The free list is threaded through the free pages themselves: the first
    eight bytes of a free page hold the address of the next one.  The state is
    physical memory and [kmem.freelist]; both functions run their list update
    under [kmem.lock].  [kend] is the linker symbol [end]. *)
From S2P Require Import Prelude Riscv Mem CString.

Record kst := mkK { km : mem; freelist : Z }.

Definition kfree (kend pa : Z) (s : kst) : res kst :=
  if negb (pa mod PGSIZE =? 0) || (pa <? kend) || (PHYSTOP <=? pa) then Panic "kfree"
  else
    let m := memset (km s) pa 1 PGSIZE in
    Ok (mkK (st64 m pa (freelist s)) pa).

Definition kalloc (s : kst) : Z * kst :=
  let r := freelist s in
  let fl := if negb (r =? 0) then ld64 (km s) r else freelist s in
  let m := if negb (r =? 0) then memset (km s) r 5 PGSIZE else km s in
  (r, mkK m fl).

(** [freerange]: the loop [for(; p + PGSIZE <= pa_end; p += PGSIZE)]. *)
Fixpoint freerange_loop (kend p pa_end : Z) (s : kst) (fuel : nat) : res kst :=
  if p + PGSIZE <=? pa_end then
    match fuel with
    | O => NoFuel
    | S f => s' ← kfree kend p s; freerange_loop kend (p + PGSIZE) pa_end s' f
    end
  else Ok s.

Definition freerange (kend pa_start pa_end : Z) (s : kst) (fuel : nat) : res kst :=
  freerange_loop kend (PGROUNDUP pa_start) pa_end s fuel.

Definition kinit (kend : Z) (s : kst) (fuel : nat) : res kst := freerange kend kend PHYSTOP s fuel.

(** ** The free list as a list of pages *)
Definition valid_page (kend pa : Z) : Prop :=
  pa mod 4096 = 0 ∧ kend <= pa < PHYSTOP ∧ 0 < pa.

Fixpoint is_list (m : mem) (head : Z) (l : list Z) : Prop :=
  match l with
  | [] => head = 0
  | p :: l' => head = p ∧ is_list m (ld64 m p) l'
  end.

Definition kinv (kend : Z) (s : kst) (l : list Z) : Prop :=
  mem_ok (km s) ∧ is_list (km s) (freelist s) l ∧ NoDup l ∧ Forall (valid_page kend) l.

(** The bytes of the page at [pa]. *)
Definition in_page (pa a : Z) : Prop := pa <= a < pa + 4096.

Lemma pages_disjoint kend p q a :
  valid_page kend p → valid_page kend q → p ≠ q → in_page p a → ¬ in_page q a.
Proof. unfold valid_page, in_page. intros (? & _) (? & _) ? ? ?. mlia. Qed.

Lemma is_list_ext m m' l : ∀ h,
  (∀ p b, p ∈ l → p <= b < p + 8 → ld8 m' b = ld8 m b) → is_list m h l → is_list m' h l.
Proof.
  induction l as [|p l IH]; simpl; intros h He; [done|]. intros [-> Hl]. split; [done|].
  rewrite (ld64_ext m' m) by (intros b ?; apply (He p b); [left|done]).
  apply IH; [|done]. intros q b Hq. apply (He q b). by right.
Qed.

Lemma memset_ok m p c n : mem_ok m → mem_ok (memset m p c n).
Proof.
  unfold memset. generalize (Z.to_nat n). intros k. revert m p.
  induction k as [|k IH]; intros m p Hm; simpl; [done|]. apply IH, st8_ok, Hm.
Qed.
#[export] Hint Resolve memset_ok : xv6.

Section kalloc_facts.
Context (kend : Z) (Hend : 0 < kend).

(** A frame rule: writes outside the free pages keep the free list. *)
Lemma kinv_frame m s l :
  kinv kend s l → mem_ok m →
  (∀ p a, p ∈ l → in_page p a → ld8 m a = ld8 (km s) a) → kinv kend (mkK m (freelist s)) l.
Proof.
  intros (Hm & Hl & Hnd & Hv) Hm' Hf. split_and!; simpl; try done.
  eapply is_list_ext; [|done]. intros p b Hp Hb. apply (Hf p); [done|].
  unfold in_page. lia.
Qed.

Lemma kfree_spec pa s l :
  kinv kend s l → valid_page kend pa → pa ∉ l →
  ∃ s', kfree kend pa s = Ok s' ∧ kinv kend s' (pa :: l) ∧
    (∀ a, ¬ in_page pa a → ld8 (km s') a = ld8 (km s) a).
Proof.
  intros (Hm & Hl & Hnd & Hv) Hpa Hni. pose proof Hpa as (Hal & Hr & Hp).
  unfold kfree, PGSIZE. destruct (Z.eqb_spec (pa mod 4096) 0); [|done]. simpl.
  destruct (Z.ltb_spec pa kend); [lia|]. destruct (Z.leb_spec PHYSTOP pa); [lia|]. simpl.
  eexists. split; [done|].
  assert (∀ a, ¬ in_page pa a →
    ld8 (st64 (memset (km s) pa 1 4096) pa (freelist s)) a = ld8 (km s) a) as Hout.
  { intros a Ha. unfold in_page in Ha. rewrite ld8_st64_ne, memset_ld8 by lia.
    case_decide; [lia|done]. }
  split; [|done]. split_and!; simpl.
  - auto with xv6.
  - split; [done|]. rewrite ld64_st64. assert (u64 (freelist s) = freelist s) as ->.
    { destruct l as [|q l']; simpl in Hl; [by rewrite Hl|]. destruct Hl as [-> _].
      apply Forall_cons in Hv as [(_ & Hq & ?) _]. apply u64_small.
      unfold PHYSTOP, KERNBASE in Hq. lia. }
    eapply is_list_ext; [|done]. intros p b Hp' Hb. apply Hout. apply (pages_disjoint kend p).
    + by eapply Forall_forall in Hv.
    + done.
    + congruence.
    + unfold in_page. lia.
  - by apply NoDup_cons.
  - by apply Forall_cons.
Qed.

Lemma kalloc_empty s : kinv kend s [] → kalloc s = (0, s).
Proof. intros (_ & Hl & _). simpl in Hl. unfold kalloc. destruct s. simpl in *. by subst. Qed.

Lemma kalloc_cons s pa l :
  kinv kend s (pa :: l) →
  ∃ s', kalloc s = (pa, s') ∧ kinv kend s' l ∧
    (∀ a, ld8 (km s') a = if decide (in_page pa a) then 5 else ld8 (km s) a).
Proof.
  intros (Hm & [Hh Hl] & Hnd & Hv). apply NoDup_cons in Hnd as [Hni Hnd].
  apply Forall_cons in Hv as [Hpa Hv]. unfold kalloc. rewrite Hh.
  destruct (Z.eqb_spec pa 0) as [->|Hne]; [by destruct Hpa as (_ & _ & ?)|]. simpl.
  assert (∀ a, ld8 (memset (km s) pa 5 PGSIZE) a =
    if decide (in_page pa a) then 5 else ld8 (km s) a) as Hld.
  { intros a. unfold in_page. rewrite memset_ld8 by done. unfold PGSIZE.
    by repeat case_decide. }
  eexists. split; [done|]. split; [|done]. split_and!; simpl; [by auto with xv6| |done|done].
  eapply is_list_ext; [|done]. intros p b Hp Hb. rewrite Hld.
  rewrite decide_False; [done|]. apply (pages_disjoint kend p).
  - by eapply Forall_forall in Hv.
  - done.
  - congruence.
  - unfold in_page. lia.
Qed.

(** [kfree] panics exactly on an address that is not an allocatable page. *)
Lemma kfree_panic pa s :
  kfree kend pa s = Panic "kfree" ↔ ¬ (pa mod 4096 = 0 ∧ kend <= pa < PHYSTOP).
Proof.
  unfold kfree, PGSIZE. destruct (Z.eqb_spec (pa mod 4096) 0); simpl; [|tauto].
  destruct (Z.ltb_spec pa kend); simpl; [split; [lia|done]|].
  destruct (Z.leb_spec PHYSTOP pa); simpl; (split; [lia||done|lia||done]).
Qed.
End kalloc_facts.

(** ** The pages [kinit] frees *)
Fixpoint pages_from (p : Z) (n : nat) : list Z :=
  match n with O => [] | S n' => p :: pages_from (p + 4096) n' end.

Lemma pages_from_elem n : ∀ p q, q ∈ pages_from p n → p <= q < p + 4096 * Z.of_nat n.
Proof.
  induction n as [|n IH]; intros p q; simpl; [by intros ?%not_elem_of_nil|].
  intros [->|Hq]%elem_of_cons; [lia|]. apply IH in Hq. lia.
Qed.

Lemma freerange_loop_spec kend fuel : ∀ p pa_end s l,
  0 < kend → kinv kend s l → p mod 4096 = 0 → kend <= p → pa_end <= PHYSTOP →
  (∀ q, q ∈ l → q < p) → pa_end - p < 4096 * (Z.of_nat fuel + 1) →
  ∃ s' n, freerange_loop kend p pa_end s fuel = Ok s' ∧
    kinv kend s' (reverse (pages_from p n) ++ l) ∧
    (∀ q, q ∈ pages_from p n ↔ q mod 4096 = 0 ∧ p <= q ∧ q + 4096 <= pa_end).
Proof.
  induction fuel as [|fuel IH]; intros p pa_end s l He Hk Hal Hp Hend Hlt Hf; simpl;
    unfold PGSIZE; destruct (Z.leb_spec (p + 4096) pa_end).
  - lia.
  - exists s, 0%nat. split_and!; [done|done|]. simpl. intros q.
    split; [by intros ?%not_elem_of_nil|lia].
  - destruct (kfree_spec kend p s l Hk) as (s1 & -> & Hk1 & _).
    { split_and!; lia. }
    { intros Hq%Hlt. lia. }
    simpl. destruct (IH (p + 4096) pa_end s1 (p :: l)) as (s2 & n & -> & Hk2 & Hq); try done.
    + mlia.
    + lia.
    + intros q [->|Hq%Hlt]%elem_of_cons; lia.
    + lia.
    + exists s2, (S n). split_and!; [done| |].
      * simpl. rewrite reverse_cons, <-app_assoc. done.
      * intros q. simpl. rewrite elem_of_cons, Hq. split; [intros [->|]; mlia|].
        intros (Hm & Hge & Hle). destruct (decide (q = p)); [by left|right].
        split_and!; [done| |done]. mlia.
  - exists s, 0%nat. split_and!; [done|done|]. simpl. intros q.
    split; [by intros ?%not_elem_of_nil|lia].
Qed.

(** ** Clients of the allocator

    Several clients allocate and free pages and write to the pages they own;
    [owned] is the set of pages handed out and not yet freed. *)
Inductive kstep (kend : Z) : kst * gset Z → kst * gset Z → Prop :=
| kstep_alloc s s' pa owned :
    kalloc s = (pa, s') → pa ≠ 0 → kstep kend (s, owned) (s', owned ∪ {[pa]})
| kstep_alloc_fail s s' owned :
    kalloc s = (0, s') → kstep kend (s, owned) (s', owned)
| kstep_free s s' pa owned :
    pa ∈ owned → kfree kend pa s = Ok s' → kstep kend (s, owned) (s', owned ∖ {[pa]})
| kstep_write s pa a v owned :
    pa ∈ owned → in_page pa a → kstep kend (s, owned) (mkK (st8 (km s) a v) (freelist s), owned).

Definition kalloc_inv (kend : Z) (x : kst * gset Z) : Prop :=
  ∃ l, kinv kend x.1 l ∧ (∀ p, p ∈ x.2 → valid_page kend p ∧ p ∉ l).

Lemma kalloc_inv_step kend x y :
  0 < kend → kalloc_inv kend x → kstep kend x y → kalloc_inv kend y.
Proof.
  intros He (l & Hk & Ho) Hst. destruct Hst as [s s' pa owned Ha Hpa|s s' owned Ha
    |s s' pa owned Hin Hf|s pa a v owned Hin Ha]; simpl in *.
  - destruct l as [|p l]; [rewrite (kalloc_empty kend) in Ha by done; congruence|].
    destruct (kalloc_cons kend s p l Hk) as (s1 & Heq & Hk1 & _).
    rewrite Heq in Ha. simplify_eq. destruct Hk as (_ & _ & [Hni _]%NoDup_cons & Hv).
    apply Forall_cons in Hv as [Hv _]. exists l. split; [done|]. simpl.
    intros q [Hq|Hq]%elem_of_union.
    + destruct (Ho _ Hq) as [? Hn]. split; [done|]. by apply not_elem_of_cons in Hn as [_ ?].
    + apply elem_of_singleton in Hq as ->. done.
  - destruct l as [|p l].
    + rewrite (kalloc_empty kend) in Ha by done. simplify_eq. by exists [].
    + destruct (kalloc_cons kend s p l Hk) as (s1 & Heq & _). rewrite Heq in Ha. simplify_eq.
      destruct Hk as (_ & _ & _ & [(_ & _ & ?) _]%Forall_cons). lia.
  - destruct (Ho _ Hin) as [Hv Hn].
    destruct (kfree_spec kend pa s l Hk Hv Hn) as (s1 & Heq & Hk1 & _).
    rewrite Heq in Hf. simplify_eq. exists (pa :: l). split; [done|]. simpl.
    intros q [Hq Hne]%elem_of_difference. destruct (Ho _ Hq). split; [done|].
    apply not_elem_of_cons. split; [|done]. set_solver.
  - destruct (Ho _ Hin) as [Hv Hn]. exists l. split; [|done]. simpl.
    apply kinv_frame; [done|apply st8_ok, Hk|].
    intros p b Hp Hb. rewrite ld8_st8, decide_False; [done|]. intros ->.
    eapply (pages_disjoint kend p pa); try done; [|congruence].
    destruct Hk as (_ & _ & _ & Hvl). by eapply Forall_forall in Hvl.
Qed.

(** ** Properties *)

(** [kinit] builds a free list of exactly the whole pages between [end] and
    [PHYSTOP], each once, without panicking. *)
Theorem kinit_correct (kend : Z) (m : mem) (fuel : nat) :
  mem_ok m → 0 < kend <= PHYSTOP → PHYSTOP - kend < 4096 * (Z.of_nat fuel + 1) →
  ∃ s' l, kinit kend (mkK m 0) fuel = Ok s' ∧ kinv kend s' l ∧
    (∀ q, q ∈ l ↔ q mod 4096 = 0 ∧ kend <= q ∧ q + 4096 <= PHYSTOP).
Proof.
  intros Hm He Hf. unfold kinit, freerange.
  assert (PGROUNDUP kend = (kend + 4095) / 4096 * 4096) as Hup.
  { apply PGROUNDUP_eq. unfold PHYSTOP, KERNBASE in He. lia. }
  destruct (freerange_loop_spec kend fuel (PGROUNDUP kend) PHYSTOP (mkK m 0) [])
    as (s' & n & Heq & Hk & Hq); try lia.
  - split_and!; [done|done|by apply NoDup_nil|by apply Forall_nil].
  - rewrite Hup. mlia.
  - rewrite Hup. mlia.
  - intros q ?%not_elem_of_nil. done.
  - rewrite Hup. mlia.
  - exists s', (reverse (pages_from (PGROUNDUP kend) n)). rewrite app_nil_r in Hk.
    split_and!; [done|done|]. intros q. rewrite elem_of_reverse, Hq, Hup. mlia.
Qed.

(** C9: no page is handed out twice: however the clients allocate, free and
    write to the pages they own, [kalloc] returns either 0 or an aligned page of
    allocatable memory that nobody owns, filled with the junk byte 5, and
    changes no byte outside it. *)
Theorem kalloc_no_alias (kend : Z) (x0 : kst * gset Z) (s : kst) (owned : gset Z) (pa : Z) (s' : kst) :
  0 < kend → kalloc_inv kend x0 → rtc (kstep kend) x0 (s, owned) → kalloc s = (pa, s') →
  pa ≠ 0 →
  valid_page kend pa ∧ (pa ∉ owned) ∧
  (∀ a, ld8 (km s') a = if decide (in_page pa a) then 5 else ld8 (km s) a).
Proof.
  intros He H0 Hst Ha Hne. assert (kalloc_inv kend (s, owned)) as (l & Hk & Ho).
  { eapply rtc_invariant; [|exact Hst|exact H0]. intros. by eapply kalloc_inv_step. }
  simpl in *. destruct l as [|p l].
  - rewrite (kalloc_empty kend) in Ha by done. congruence.
  - destruct (kalloc_cons kend s p l Hk) as (s1 & Heq & _ & Hld).
    rewrite Heq in Ha. simplify_eq. destruct Hk as (_ & _ & _ & [Hv _]%Forall_cons).
    split_and!; [done| |done]. intros Hin. destruct (Ho _ Hin) as [_ Hn]. set_solver.
Qed.

(** *** Witnesses *)
Lemma mem_ok_empty : mem_ok ∅.
Proof. intros a. unfold ld8. rewrite lookup_empty. simpl. lia. Qed.

Lemma kinit_correct_witness :
  ∃ s' l, kinit (PHYSTOP - 8000) (mkK ∅ 0) 2 = Ok s' ∧ kinv (PHYSTOP - 8000) s' l ∧
    (PHYSTOP - 4096) ∈ l.
Proof.
  destruct (kinit_correct (PHYSTOP - 8000) ∅ 2) as (s' & l & Heq & Hk & Hq);
    [apply mem_ok_empty|by vm_compute|by vm_compute|].
  exists s', l. split_and!; [exact Heq|exact Hk|]. apply Hq. by vm_compute.
Defined.

(** One free page, nothing handed out yet. *)
Definition one_page : kst := mkK (st64 ∅ (PHYSTOP - 4096) 0) (PHYSTOP - 4096).

Lemma one_page_inv : kalloc_inv (PHYSTOP - 4096) (one_page, ∅).
Proof.
  exists [PHYSTOP - 4096]. split; [|set_solver]. split_and!.
  - apply st64_ok, mem_ok_empty.
  - split; [done|]. simpl. by rewrite ld64_st64.
  - apply NoDup_singleton.
  - apply Forall_singleton. by vm_compute.
Qed.

Lemma kalloc_no_alias_witness :
  valid_page (PHYSTOP - 4096) (PHYSTOP - 4096) ∧
  ld8 (km (kalloc one_page).2) (PHYSTOP - 1) = 5.
Proof.
  destruct (kalloc_no_alias (PHYSTOP - 4096) (one_page, ∅) one_page ∅ (PHYSTOP - 4096)
    (kalloc one_page).2) as (Hv & _ & Hld);
    [by vm_compute|exact one_page_inv|exact (rtc_refl _ _)|reflexivity|by vm_compute|].
  split; [exact Hv|]. rewrite Hld, decide_True; [reflexivity|]. unfold in_page. lia.
Defined.

(** Clients reason about these two through their byte-wise lemmas. *)
#[global] Opaque memset memmove.
