(* ===== verification/Vm.v ===== *)
(** * vm.c: page tables and user memory

    Page tables live in physical memory as the hardware reads them: a page of
    512 little-endian entries per node.  The functions below are the functions
    of [kernel/vm.c] (and [proc_mapstacks] of [kernel/proc.c]) in the [res]
    monad over the state of the page allocator; a pointer result is an address,
    0 for the null pointer.  Loops over an address range take fuel that covers
    the range. *)
From S2P Require Import Prelude Riscv Mem CString Kalloc.

Section vm.
Context (kend : Z).

Definition set_km (m : mem) (s : kst) : kst := mkK m (freelist s).
Definition kmemset (p c n : Z) (s : kst) : kst := set_km (memset (km s) p c n) s.
Definition kmemmove (d p n : Z) (s : kst) : kst := set_km (memmove (km s) d p n) s.
Definition store (a v : Z) (s : kst) : kst := set_km (st64 (km s) a v) s.
Definition load (a : Z) (s : kst) : Z := ld64 (km s) a.

(** [pte & flag] as a condition. *)
Definition has (pte flag : Z) : bool := negb (Z.land pte flag =? 0).

Fixpoint walk_loop (level : nat) (pagetable va : Z) (alloc : bool) (s : kst) : option Z * kst :=
  match level with
  | O => (Some pagetable, s)
  | S l =>
      let pte := pagetable + 8 * PX (Z.of_nat level) va in
      if has (load pte s) PTE_V then walk_loop l (PTE2PA (load pte s)) va alloc s
      else if negb alloc then (None, s)
      else
        let '(pg, s) := kalloc s in
        if pg =? 0 then (None, s)
        else
          let s := kmemset pg 0 PGSIZE s in
          let s := store pte (Z.lor (PA2PTE pg) PTE_V) s in
          walk_loop l pg va alloc s
  end.

Definition walk (pagetable va : Z) (alloc : bool) (s : kst) : res (Z * kst) :=
  if MAXVA <=? va then Panic "walk"
  else match walk_loop 2 pagetable va alloc s with
       | (None, s) => Ok (0, s)
       | (Some pt, s) => Ok (pt + 8 * PX 0 va, s)
       end.

Definition walkaddr (pagetable va : Z) (s : kst) : res (Z * kst) :=
  if MAXVA <=? va then Ok (0, s)
  else
    '(pte, s) ← walk pagetable va false s;
    if pte =? 0 then Ok (0, s)
    else if negb (has (load pte s) PTE_V) then Ok (0, s)
    else if negb (has (load pte s) PTE_U) then Ok (0, s)
    else Ok (PTE2PA (load pte s), s).

Fixpoint mappages_loop (fuel : nat) (pagetable a last pa perm : Z) (s : kst) : res (Z * kst) :=
  match fuel with
  | O => NoFuel
  | S f =>
      '(pte, s) ← walk pagetable a true s;
      if pte =? 0 then Ok (-1, s)
      else if has (load pte s) PTE_V then Panic "mappages: remap"
      else
        let s := store pte (Z.lor (Z.lor (PA2PTE pa) perm) PTE_V) s in
        if a =? last then Ok (0, s)
        else mappages_loop f pagetable (u64 (a + PGSIZE)) last (u64 (pa + PGSIZE)) perm s
  end.

Definition mappages (pagetable va size pa perm : Z) (s : kst) : res (Z * kst) :=
  if negb (va mod PGSIZE =? 0) then Panic "mappages: va not aligned"
  else if negb (size mod PGSIZE =? 0) then Panic "mappages: size not aligned"
  else if size =? 0 then Panic "mappages: size"
  else mappages_loop (Z.to_nat (size / PGSIZE)) pagetable va (u64 (va + size - PGSIZE)) pa perm s.

Definition kvmmap (kpgtbl va pa sz perm : Z) (s : kst) : res kst :=
  '(r, s) ← mappages kpgtbl va sz pa perm s;
  if negb (r =? 0) then Panic "kvmmap" else Ok s.

(** [proc_mapstacks] of proc.c: a kernel stack for each of the [n] processes
    from index [i] on. *)
Fixpoint proc_mapstacks (n : nat) (i kpgtbl : Z) (s : kst) : res kst :=
  match n with
  | O => Ok s
  | S n' =>
      let '(pa, s) := kalloc s in
      if pa =? 0 then Panic "kalloc"
      else s ← kvmmap kpgtbl (KSTACK i) pa PGSIZE (Z.lor PTE_R PTE_W) s;
           proc_mapstacks n' (i + 1) kpgtbl s
  end.

(** [etext] and [trampoline] are linker symbols. *)
Definition kvmmake (etext trampoline : Z) (nproc : nat) (s : kst) : res (Z * kst) :=
  let '(kpgtbl, s) := kalloc s in
  let s := kmemset kpgtbl 0 PGSIZE s in
  s ← kvmmap kpgtbl UART0 UART0 PGSIZE (Z.lor PTE_R PTE_W) s;
  s ← kvmmap kpgtbl VIRTIO0 VIRTIO0 PGSIZE (Z.lor PTE_R PTE_W) s;
  s ← kvmmap kpgtbl PLIC PLIC 67108864 (Z.lor PTE_R PTE_W) s;
  s ← kvmmap kpgtbl KERNBASE KERNBASE (u64 (etext - KERNBASE)) (Z.lor PTE_R PTE_X) s;
  s ← kvmmap kpgtbl etext etext (u64 (PHYSTOP - etext)) (Z.lor PTE_R PTE_W) s;
  s ← kvmmap kpgtbl TRAMPOLINE trampoline PGSIZE (Z.lor PTE_R PTE_X) s;
  s ← proc_mapstacks nproc 0 kpgtbl s;
  Ok (kpgtbl, s).

Definition uvmcreate (s : kst) : Z * kst :=
  let '(pagetable, s) := kalloc s in
  if pagetable =? 0 then (0, s) else (pagetable, kmemset pagetable 0 PGSIZE s).

(** The body of the loop of [uvmunmap] for one address. *)
Definition uvmunmap1 (pagetable a : Z) (do_free : bool) (s : kst) : res kst :=
  '(pte, s) ← walk pagetable a false s;
  if pte =? 0 then Ok s
  else if negb (has (load pte s) PTE_V) then Ok s
  else
    s ← (if do_free then kfree kend (PTE2PA (load pte s)) s else Ok s);
    Ok (store pte 0 s).

Fixpoint uvmunmap_loop (fuel : nat) (pagetable a end_ : Z) (do_free : bool) (s : kst) : res kst :=
  if a <? end_ then
    match fuel with
    | O => NoFuel
    | S f => s ← uvmunmap1 pagetable a do_free s;
             uvmunmap_loop f pagetable (u64 (a + PGSIZE)) end_ do_free s
    end
  else Ok s.

Definition uvmunmap (pagetable va npages : Z) (do_free : bool) (s : kst) : res kst :=
  if negb (va mod PGSIZE =? 0) then Panic "uvmunmap: not aligned"
  else uvmunmap_loop (Z.to_nat npages) pagetable va (u64 (va + npages * PGSIZE)) do_free s.

Definition uvmdealloc (pagetable oldsz newsz : Z) (s : kst) : res (Z * kst) :=
  if oldsz <=? newsz then Ok (oldsz, s)
  else
    s ← (if PGROUNDUP newsz <? PGROUNDUP oldsz then
           let npages := i32 ((PGROUNDUP oldsz - PGROUNDUP newsz) / PGSIZE) in
           uvmunmap pagetable (PGROUNDUP newsz) (u64 npages) true s
         else Ok s);
    Ok (newsz, s).

Fixpoint uvmalloc_loop (fuel : nat) (pagetable oldsz a newsz xperm : Z) (s : kst) : res (Z * kst) :=
  if a <? newsz then
    match fuel with
    | O => NoFuel
    | S f =>
        let '(mem, s) := kalloc s in
        if mem =? 0 then
          '(_, s) ← uvmdealloc pagetable a oldsz s; Ok (0, s)
        else
          let s := kmemset mem 0 PGSIZE s in
          '(r, s) ← mappages pagetable a PGSIZE mem (Z.lor (Z.lor PTE_R PTE_U) xperm) s;
          if negb (r =? 0) then
            s ← kfree kend mem s;
            '(_, s) ← uvmdealloc pagetable a oldsz s; Ok (0, s)
          else uvmalloc_loop f pagetable oldsz (u64 (a + PGSIZE)) newsz xperm s
    end
  else Ok (newsz, s).

Definition uvmalloc (pagetable oldsz newsz xperm : Z) (s : kst) : res (Z * kst) :=
  if newsz <? oldsz then Ok (oldsz, s)
  else
    let oldsz := PGROUNDUP oldsz in
    uvmalloc_loop (Z.to_nat ((newsz - oldsz) / PGSIZE + 1)) pagetable oldsz oldsz newsz xperm s.

(** [freewalk]; the recursion is as deep as the page table. *)
Fixpoint freewalk (depth : nat) (pagetable : Z) (s : kst) : res kst :=
  match depth with
  | O => NoFuel
  | S d =>
      s ← foldl (λ rs i,
            s ← rs;
            let pte := load (pagetable + 8 * i) s in
            if has pte PTE_V && negb (has pte (Z.lor (Z.lor PTE_R PTE_W) PTE_X)) then
              s ← freewalk d (PTE2PA pte) s; Ok (store (pagetable + 8 * i) 0 s)
            else if has pte PTE_V then Panic "freewalk: leaf"
            else Ok s) (Ok s) (seqZ 0 512);
      kfree kend pagetable s
  end.

Definition uvmfree (pagetable sz : Z) (s : kst) : res kst :=
  s ← (if 0 <? sz then uvmunmap pagetable 0 (PGROUNDUP sz / PGSIZE) true s else Ok s);
  freewalk 3 pagetable s.

Fixpoint uvmcopy_loop (fuel : nat) (old new i sz : Z) (s : kst) : res (Z * kst) :=
  if i <? sz then
    match fuel with
    | O => NoFuel
    | S f =>
        let err s := (s ← uvmunmap new 0 (i / PGSIZE) true s; Ok (-1, s)) in
        '(pte, s) ← walk old i false s;
        if pte =? 0 then uvmcopy_loop f old new (u64 (i + PGSIZE)) sz s
        else if negb (has (load pte s) PTE_V) then
          uvmcopy_loop f old new (u64 (i + PGSIZE)) sz s
        else
          let pa := PTE2PA (load pte s) in
          let flags := PTE_FLAGS (load pte s) in
          let '(mem, s) := kalloc s in
          if mem =? 0 then err s
          else
            let s := kmemmove mem pa PGSIZE s in
            '(r, s) ← mappages new i PGSIZE mem flags s;
            if negb (r =? 0) then s ← kfree kend mem s; err s
            else uvmcopy_loop f old new (u64 (i + PGSIZE)) sz s
    end
  else Ok (0, s).

Definition uvmcopy (old new sz : Z) (s : kst) : res (Z * kst) :=
  uvmcopy_loop (Z.to_nat (sz / PGSIZE + 1)) old new 0 sz s.

Definition uvmclear (pagetable va : Z) (s : kst) : res kst :=
  '(pte, s) ← walk pagetable va false s;
  if pte =? 0 then Panic "uvmclear"
  else Ok (store pte (Z.land (load pte s) (Z.lnot PTE_U)) s).

Definition ismapped (pagetable va : Z) (s : kst) : res (Z * kst) :=
  '(pte, s) ← walk pagetable va false s;
  if pte =? 0 then Ok (0, s)
  else if has (load pte s) PTE_V then Ok (1, s)
  else Ok (0, s).

(** [psz] and [ppt] are the size and the page table of [myproc()]. *)
Definition vmfault (psz ppt pagetable va : Z) (s : kst) : res (Z * kst) :=
  if psz <=? va then Ok (0, s)
  else
    let va := PGROUNDDOWN va in
    '(mapped, s) ← ismapped pagetable va s;
    if negb (mapped =? 0) then Ok (0, s)
    else
      let '(mem, s) := kalloc s in
      if mem =? 0 then Ok (0, s)
      else
        let s := kmemset mem 0 PGSIZE s in
        '(r, s) ← mappages ppt va PGSIZE mem (Z.lor (Z.lor PTE_W PTE_U) PTE_R) s;
        if negb (r =? 0) then s ← kfree kend mem s; Ok (0, s)
        else Ok (mem, s).

Fixpoint copyout_loop (fuel : nat) (psz ppt pagetable dstva src len : Z) (s : kst)
    : res (Z * kst) :=
  if 0 <? len then
    match fuel with
    | O => NoFuel
    | S f =>
        let va0 := PGROUNDDOWN dstva in
        if MAXVA <=? va0 then Ok (-1, s)
        else
          '(pa0, s) ← walkaddr pagetable va0 s;
          '(pa0, s) ← (if pa0 =? 0 then vmfault psz ppt pagetable va0 s else Ok (pa0, s));
          if pa0 =? 0 then Ok (-1, s)
          else
            '(pte, s) ← walk pagetable va0 false s;
            if negb (has (load pte s) PTE_W) then Ok (-1, s)
            else
              let n := PGSIZE - (dstva - va0) in
              let n := if len <? n then len else n in
              let s := kmemmove (pa0 + (dstva - va0)) src n s in
              copyout_loop f psz ppt pagetable (u64 (va0 + PGSIZE)) (src + n) (len - n) s
    end
  else Ok (0, s).

Definition copyout (psz ppt pagetable dstva src len : Z) (s : kst) : res (Z * kst) :=
  copyout_loop (Z.to_nat (len / PGSIZE + 2)) psz ppt pagetable dstva src len s.

Fixpoint copyin_loop (fuel : nat) (psz ppt pagetable dst srcva len : Z) (s : kst)
    : res (Z * kst) :=
  if 0 <? len then
    match fuel with
    | O => NoFuel
    | S f =>
        let va0 := PGROUNDDOWN srcva in
        '(pa0, s) ← walkaddr pagetable va0 s;
        '(pa0, s) ← (if pa0 =? 0 then vmfault psz ppt pagetable va0 s else Ok (pa0, s));
        if pa0 =? 0 then Ok (-1, s)
        else
          let n := PGSIZE - (srcva - va0) in
          let n := if len <? n then len else n in
          let s := kmemmove dst (pa0 + (srcva - va0)) n s in
          copyin_loop f psz ppt pagetable (dst + n) (u64 (va0 + PGSIZE)) (len - n) s
    end
  else Ok (0, s).

Definition copyin (psz ppt pagetable dst srcva len : Z) (s : kst) : res (Z * kst) :=
  copyin_loop (Z.to_nat (len / PGSIZE + 2)) psz ppt pagetable dst srcva len s.

(** The inner loop of [copyinstr] over the [n] bytes left in a page: the NUL
    flag, [dst] and [max] after it, and the memory. *)
Fixpoint copyinstr_page (n : nat) (p dst max : Z) (m : mem) : bool * Z * Z * mem :=
  match n with
  | O => (false, dst, max, m)
  | S n' =>
      if ld8 m p =? 0 then (true, dst, max, st8 m dst 0)
      else copyinstr_page n' (p + 1) (dst + 1) (max - 1) (st8 m dst (ld8 m p))
  end.

Fixpoint copyinstr_loop (fuel : nat) (pagetable dst srcva max : Z) (s : kst) : res (Z * kst) :=
  if 0 <? max then
    match fuel with
    | O => NoFuel
    | S f =>
        let va0 := PGROUNDDOWN srcva in
        '(pa0, s) ← walkaddr pagetable va0 s;
        if pa0 =? 0 then Ok (-1, s)
        else
          let n := PGSIZE - (srcva - va0) in
          let n := if max <? n then max else n in
          let '(got_null, dst, max, m) :=
            copyinstr_page (Z.to_nat n) (pa0 + (srcva - va0)) dst max (km s) in
          let s := set_km m s in
          if got_null then Ok (0, s)
          else copyinstr_loop f pagetable dst (u64 (va0 + PGSIZE)) max s
    end
  else Ok (-1, s).

Definition copyinstr (pagetable dst srcva max : Z) (s : kst) : res (Z * kst) :=
  copyinstr_loop (Z.to_nat (max / PGSIZE + 2)) pagetable dst srcva max s.
End vm.
