(* ===== verification/VmInv.v ===== *)
(** * The page-table invariant and what the operations of vm.c do to mappings

    [own] records the level and the virtual-address prefix of every page-table
    page.  As [own] is a function, no page-table page is used at two places, so
    an update of one entry is seen by the addresses of one virtual page only.
    [pte_at] is the entry the hardware finds for an address (0 when the walk
    stops early); the lemmas say how each operation changes it. *)
From S2P Require Import Prelude Riscv Mem CString Kalloc Vm.

(** ** Virtual page numbers *)
Definition vpn (l : nat) (va : Z) : Z := va / 2 ^ (12 + 9 * Z.of_nat l).

Lemma vpn_S l va : vpn (S l) va = vpn l va / 512.
Proof.
  unfold vpn. rewrite Z.div_div by lia. f_equal. change 512 with (2 ^ 9).
  rewrite <-Z.pow_add_r by lia. f_equal. lia.
Qed.

Lemma PX_vpn l va : PX (Z.of_nat l) va = vpn l va mod 512.
Proof.
  unfold PX, PXMASK, vpn, PXSHIFT, PGSHIFT. change 511 with (Z.ones 9).
  rewrite Z.land_ones, Z.shiftr_div_pow2 by lia. done.
Qed.

Lemma vpn_split l va : vpn (S l) va * 512 + PX (Z.of_nat l) va = vpn l va.
Proof. rewrite PX_vpn, vpn_S. pose proof (Z.div_mod (vpn l va) 512). lia. Qed.

Lemma vpn_root va : 0 <= va < MAXVA → vpn 3 va = 0.
Proof.
  change MAXVA with 274877906944. unfold vpn.
  change (2 ^ (12 + 9 * Z.of_nat 3)) with 549755813888. intros. apply Z.div_small. lia.
Qed.

(** ** The invariant *)
Section inv.
Context (kend : Z).
Implicit Types (s : kst) (l : list Z) (own : gmap Z (nat * Z)).

Definition links own s : Prop := ∀ q lv pre idx,
  own !! q = Some (S lv, pre) → 0 <= idx < 512 →
  has (load (q + 8 * idx) s) PTE_V = true →
  own !! PTE2PA (load (q + 8 * idx) s) = Some (lv, pre * 512 + idx).

Record vminv s l own : Prop := {
  vi_k : kinv kend s l;
  vi_valid : ∀ q x, own !! q = Some x → valid_page kend q;
  vi_free : ∀ q x, own !! q = Some x → q ∉ l;
  vi_links : links own s
}.

(** The entry found for [va] from the node [q] of level [n]. *)
Definition pte_from (n : nat) (q va : Z) s : Z :=
  match walk_loop n q va false s with
  | (Some pt, _) => load (pt + 8 * PX 0 va) s
  | (None, _) => 0
  end.

Definition pte_at (root va : Z) s : Z := pte_from 2 root va s.

Lemma walk_loop_ro n : ∀ q va s, ∃ r, walk_loop n q va false s = (r, s).
Proof.
  induction n as [|n IH]; intros q va s; [by eexists|]. cbn [walk_loop].
  destruct (has _ _); [apply IH|by eexists].
Qed.

(** A walk stays in the tree and reaches the node of its prefix. *)
Lemma walk_loop_node n : ∀ q va s own q',
  links own s → own !! q = Some (n, vpn (S n) va) →
  walk_loop n q va false s = (Some q', s) → own !! q' = Some (0%nat, vpn 1 va).
Proof.
  induction n as [|n IH]; intros q va s own q' Hl Hq; [simpl; intros [= <-]; done|].
  cbn [walk_loop]. destruct (has _ _) eqn:Hv; [|done]. simpl negb. intros Hw.
  eapply IH; [done| |exact Hw].
  rewrite (Hl _ _ _ _ Hq (PX_range _ _) Hv). by rewrite vpn_split.
Qed.

Lemma walk_loop_same n : ∀ q va va' s,
  vpn 1 va = vpn 1 va' → walk_loop n q va false s = walk_loop n q va' false s.
Proof.
  induction n as [|n IH]; intros q va va' s Hv; [done|]. cbn [walk_loop].
  assert (vpn (S n) va = vpn (S n) va') as Hvn.
  { clear -Hv. induction n as [|n IHn]; [done|]. rewrite (vpn_S (S n) va), (vpn_S (S n) va'). congruence. }
  rewrite !PX_vpn, Hvn. by destruct (has _ _); [apply IH|].
Qed.

(** Nodes of the tree are disjoint from one another, entry by entry. *)
Lemma entry_inj q q' i i' :
  valid_page kend q → valid_page kend q' → 0 <= i < 512 → 0 <= i' < 512 →
  q + 8 * i = q' + 8 * i' → q = q' ∧ i = i'.
Proof. intros (? & _) (? & _) ? ? ?. mlia. Qed.

Lemma entry_apart q q' i i' :
  valid_page kend q → valid_page kend q' → 0 <= i < 512 → 0 <= i' < 512 →
  q + 8 * i ≠ q' + 8 * i' → q + 8 * i + 8 <= q' + 8 * i' ∨ q' + 8 * i' + 8 <= q + 8 * i.
Proof. intros (? & _) (? & _) ? ? ?. mlia. Qed.

Lemma load_store q q' i i' v s :
  valid_page kend q → valid_page kend q' → 0 <= i < 512 → 0 <= i' < 512 →
  load (q' + 8 * i') (store (q + 8 * i) v s) =
    if decide (q = q' ∧ i = i') then u64 v else load (q' + 8 * i') s.
Proof.
  intros Hq Hq' Hi Hi'. unfold load, store. simpl. case_decide as Hd.
  - destruct Hd as [-> ->]. apply ld64_st64.
  - apply ld64_st64_ne. destruct (entry_apart q' q i' i); try done; [|lia|lia].
    intros He. apply Hd. apply entry_inj in He as [-> ->]; done.
Qed.

Lemma kinv_store q i v s l :
  kinv kend s l → valid_page kend q → 0 <= i < 512 → q ∉ l → kinv kend (store (q + 8 * i) v s) l.
Proof.
  intros Hk Hq Hi Hn. unfold store, set_km. apply kinv_frame; [done|apply st64_ok, Hk|].
  intros p a Hp Ha. apply ld8_st64_ne. pose proof Hk as (_ & _ & _ & Hv).
  assert (valid_page kend p) as Hvp by by eapply Forall_forall in Hv.
  assert (p ≠ q) by congruence. destruct Hvp as (? & _), Hq as (? & _). unfold in_page in Ha. mlia.
Qed.

(** ** Storing into a leaf entry *)
Lemma store_leaf root va v s l own q :
  vminv s l own → own !! root = Some (2%nat, 0) → 0 <= va < MAXVA →
  walk_loop 2 root va false s = (Some q, s) →
  let s' := store (q + 8 * PX 0 va) v s in
  vminv s' l own ∧
  (∀ va', 0 <= va' < MAXVA →
     pte_at root va' s' = if decide (vpn 0 va' = vpn 0 va) then u64 v else pte_at root va' s).
Proof.
  intros Hi Hr Hva Hw s'. pose proof (vi_links _ _ _ Hi) as Hl.
  assert (own !! q = Some (0%nat, vpn 1 va)) as Hq.
  { eapply walk_loop_node; [done| |exact Hw]. by rewrite vpn_root. }
  pose proof (vi_valid _ _ _ Hi _ _ Hq) as Hvq.
  assert (∀ q' lv pre idx, own !! q' = Some (S lv, pre) → 0 <= idx < 512 →
            load (q' + 8 * idx) s' = load (q' + 8 * idx) s) as Hnode.
  { intros q' lv pre idx Hq' Hidx. unfold s'. rewrite load_store; try done.
    - case_decide as Hd; [|done]. destruct Hd as [<- _]. congruence.
    - by eapply vi_valid.
    - apply PX_range. }
  assert (∀ n q' va', own !! q' = Some (n, vpn (S n) va') →
            (walk_loop n q' va' false s').1 = (walk_loop n q' va' false s).1) as Hwalk.
  { induction n as [|n IH]; intros q' va' Hq'; [done|]. cbn [walk_loop].
    rewrite (Hnode _ _ _ _ Hq') by apply PX_range.
    destruct (has _ _) eqn:Hv; [|done]. apply IH.
    rewrite (Hl _ _ _ _ Hq' (PX_range _ _) Hv). by rewrite vpn_split. }
  split.
  - split.
    + apply kinv_store; [apply Hi|done|apply PX_range|by eapply vi_free].
    + apply Hi.
    + apply Hi.
    + intros q' lv pre idx Hq' Hidx. rewrite (Hnode _ _ _ _ Hq' Hidx). by apply Hl.
  - intros va' Hva'. unfold pte_at, pte_from.
    assert (own !! root = Some (2%nat, vpn 3 va')) as Hr' by by rewrite vpn_root.
    pose proof (Hwalk 2%nat root va' Hr') as He.
    destruct (walk_loop_ro 2 root va' s) as [r Hrw], (walk_loop_ro 2 root va' s') as [r' Hrw'].
    rewrite Hrw, Hrw' in *. simpl in He. subst r'. destruct r as [q'|].
    + assert (own !! q' = Some (0%nat, vpn 1 va')) as Hq' by by eapply walk_loop_node.
      unfold s'. rewrite load_store; [|done|by eapply vi_valid|apply PX_range..].
      change (PX 0 va) with (PX (Z.of_nat 0) va). change (PX 0 va') with (PX (Z.of_nat 0) va').
      pose proof (vpn_split 0 va). pose proof (vpn_split 0 va').
      destruct (decide (vpn 0 va' = vpn 0 va)) as [Hv|Hv].
      * assert (vpn 1 va' = vpn 1 va) as Hv1 by (rewrite !vpn_S; congruence).
        assert (q = q') as ->.
        { rewrite (walk_loop_same 2 root va' va s Hv1) in Hrw. congruence. }
        rewrite decide_True; [done|]. split; [done|]. lia.
      * rewrite decide_False; [done|]. intros [-> Hpx]. apply Hv.
        assert (vpn 1 va' = vpn 1 va) by congruence. lia.
    + case_decide as Hv; [|done]. exfalso.
      assert (vpn 1 va' = vpn 1 va) as Hv1 by (rewrite !vpn_S; congruence).
      rewrite (walk_loop_same 2 root va' va s Hv1) in Hrw. congruence.
Qed.

(** ** A new page-table page *)
Lemma valid_page_page q : 0 <= kend → valid_page kend q → page q.
Proof. intros ? (? & ? & ?). split; [done|]. unfold PHYSTOP, KERNBASE in *. lia. Qed.

Lemma pte_entry q fl :
  0 <= kend → valid_page kend q → 0 <= fl < 1024 →
  u64 (Z.lor (PA2PTE q) fl) = Z.lor (PA2PTE q) fl ∧ PTE2PA (Z.lor (PA2PTE q) fl) = q ∧
  PTE_FLAGS (Z.lor (PA2PTE q) fl) = fl ∧
  (∀ b, Z.land b 1023 = b → has (Z.lor (PA2PTE q) fl) b = has fl b).
Proof.
  intros He Hq Hf. pose proof (valid_page_page q He Hq) as Hp. split_and!.
  - rewrite PTE_pack by done. destruct Hp as [_ Hr]. change (2 ^ 56) with 72057594037927936 in Hr.
    apply u64_small. mlia.
  - by apply PTE_unpack.
  - by apply PTE_flags.
  - intros b Hb. unfold has. rewrite (PTE_test _ b Hb), PTE_flags by done. done.
Qed.

Lemma ld64_zero m a : (∀ b, a <= b < a + 8 → ld8 m b = 0) → ld64 m a = 0.
Proof.
  intros Hb. rewrite (ld64_ext m ∅).
  - unfold ld64, ldn, ld8. by rewrite !lookup_empty.
  - intros b Hr. rewrite Hb by done. unfold ld8. by rewrite lookup_empty.
Qed.

Lemma kalloc_own s l own pg s1 :
  0 <= kend → vminv s l own → kalloc s = (pg, s1) → pg ≠ 0 →
  ∃ l', l = pg :: l' ∧ kinv kend s1 l' ∧ own !! pg = None ∧ valid_page kend pg ∧ (pg ∉ l') ∧
    (∀ a, ¬ in_page pg a → ld8 (km s1) a = ld8 (km s) a).
Proof.
  intros He Hi Ha Hne. pose proof (vi_k _ _ _ Hi) as Hk. destruct l as [|p l'].
  - rewrite (kalloc_empty kend) in Ha by done. congruence.
  - destruct (kalloc_cons kend s p l' Hk) as (s2 & Heq & Hk2 & Hld).
    rewrite Heq in Ha. simplify_eq. pose proof Hk as (_ & _ & Hnd & Hv).
    apply NoDup_cons in Hnd as [Hni _]. apply Forall_cons in Hv as [Hv _].
    exists l'. split_and!; try done.
    + destruct (own !! pg) as [x|] eqn:Hx; [|done]. exfalso.
      apply (vi_free _ _ _ Hi _ _ Hx). left.
    + intros a Hn. by rewrite Hld, decide_False.
Qed.

Definition zeroed (pg : Z) s : kst := kmemset pg 0 PGSIZE s.

Lemma zeroed_ld8 pg s a :
  ld8 (km (zeroed pg s)) a = if decide (in_page pg a) then 0 else ld8 (km s) a.
Proof. unfold zeroed, kmemset, in_page. simpl. rewrite memset_ld8 by done. by repeat case_decide. Qed.

Lemma kinv_zeroed pg s l :
  kinv kend s l → valid_page kend pg → pg ∉ l → kinv kend (zeroed pg s) l.
Proof.
  intros Hk Hp Hn. apply kinv_frame; [done|apply memset_ok, Hk|].
  intros q a Hq Ha. pose proof (zeroed_ld8 pg s a) as Hz. unfold zeroed, kmemset in Hz. simpl in Hz.
  rewrite Hz, decide_False; [done|]. pose proof Hk as (_ & _ & _ & Hv).
  apply (pages_disjoint kend q); [by eapply Forall_forall in Hv|exact Hp|congruence|exact Ha].
Qed.

Lemma load_ext a s s' :
  (∀ b, a <= b < a + 8 → ld8 (km s) b = ld8 (km s') b) → load a s = load a s'.
Proof. apply ld64_ext. Qed.

Lemma link_step s l own q lv pre idx pg s1 :
  0 <= kend → vminv s l own → own !! q = Some (S lv, pre) → 0 <= idx < 512 →
  has (load (q + 8 * idx) s) PTE_V = false → kalloc s = (pg, s1) → pg ≠ 0 →
  let s3 := store (q + 8 * idx) (Z.lor (PA2PTE pg) PTE_V) (zeroed pg s1) in
  ∃ l', l = pg :: l' ∧ own !! pg = None ∧
    vminv s3 l' (<[pg := (lv, pre * 512 + idx)]> own) ∧
    load (q + 8 * idx) s3 = Z.lor (PA2PTE pg) PTE_V ∧
    (∀ q' x i, own !! q' = Some x → 0 <= i < 512 → has (load (q' + 8 * i) s) PTE_V = true →
       load (q' + 8 * i) s3 = load (q' + 8 * i) s) ∧
    (∀ n q' va, own !! q' = Some (n, vpn (S n) va) → pte_from n q' va s3 = pte_from n q' va s) ∧
    (∀ a, ¬ in_page pg a → ¬ in_page q a → ld8 (km s3) a = ld8 (km s) a).
Proof.
  intros He Hi Hq Hidx Hv Ha Hne s3.
  destruct (kalloc_own _ _ _ _ _ He Hi Ha Hne) as (l' & -> & Hk1 & Hpg & Hvp & Hnl & Hf1).
  pose proof (vi_valid _ _ _ Hi _ _ Hq) as Hvq.
  assert (q ∉ l') as Hql. { pose proof (vi_free _ _ _ Hi _ _ Hq) as Hx. set_solver. }
  destruct (pte_entry pg PTE_V He Hvp) as (Hu & Hpa & _ & Hhas); [by vm_compute|].
  assert (∀ a, ¬ in_page pg a → ld8 (km (zeroed pg s1)) a = ld8 (km s) a) as Hfz.
  { intros a Hn. rewrite zeroed_ld8, decide_False by done. by apply Hf1. }
  assert (∀ q' x i, own !! q' = Some x → 0 <= i < 512 → load (q' + 8 * i) s3 =
            if decide (q = q' ∧ idx = i) then Z.lor (PA2PTE pg) PTE_V else load (q' + 8 * i) s) as Hold.
  { intros q' x i Hq' Hr. unfold s3. rewrite load_store, Hu by (done || by eapply vi_valid).
    case_decide; [done|]. apply load_ext. intros b Hb. apply Hfz.
    apply (pages_disjoint kend q'); [by eapply vi_valid|exact Hvp|congruence|]. unfold in_page. lia. }
  assert (∀ i, 0 <= i < 512 → load (pg + 8 * i) s3 = 0) as Hnew.
  { intros i Hr. unfold s3. rewrite load_store by done.
    rewrite decide_False by (intros [-> _]; congruence). apply ld64_zero.
    intros b Hb. rewrite zeroed_ld8, decide_True; [done|]. unfold in_page. lia. }
  exists l'. split; [reflexivity|]. split; [exact Hpg|]. split; [|split; [|split; [|split]]].
  - split.
    + apply kinv_store; [by apply kinv_zeroed|exact Hvq|exact Hidx|exact Hql].
    + intros q' x [[<- <-]|[_ Hx]]%lookup_insert_Some; [done|]. by eapply vi_valid.
    + intros q' x [[<- <-]|[_ Hx]]%lookup_insert_Some; [done|].
      pose proof (vi_free _ _ _ Hi _ _ Hx). set_solver.
    + intros q' lv' pre' i [[<- [= -> <-]]|[Hn Hx]]%lookup_insert_Some Hr.
      * rewrite Hnew by done. by vm_compute.
      * rewrite (Hold _ _ _ Hx Hr). case_decide as Hd.
        -- destruct Hd as [<- <-]. intros _. rewrite Hpa, lookup_insert_eq. congruence.
        -- intros Hv'. pose proof (vi_links _ _ _ Hi _ _ _ _ Hx Hr Hv') as Hc.
           rewrite lookup_insert_ne; [done|]. congruence.
  - rewrite (Hold _ _ _ Hq Hidx). by rewrite decide_True.
  - intros q' x i Hq' Hr Hv'. rewrite (Hold _ _ _ Hq' Hr), decide_False; [reflexivity|].
    intros [<- <-]. congruence.
  - intros n q' va. revert q'. unfold pte_from. induction n as [|n IH]; intros q' Hq'.
    + cbn [walk_loop]. rewrite (Hold _ _ _ Hq') by apply PX_range.
      rewrite decide_False; [done|]. intros [<- _]. congruence.
    + cbn [walk_loop]. rewrite (Hold _ _ _ Hq') by apply PX_range. case_decide as Hd.
      * destruct Hd as [<- Hi']. rewrite <-Hi', Hv, Hhas, Hpa by done. simpl.
        destruct n as [|n]; cbn [walk_loop]; rewrite Hnew by apply PX_range; done.
      * destruct (has (load (q' + 8 * PX (Z.of_nat (S n)) va) s) PTE_V) eqn:Hv'; [|reflexivity].
        apply IH. rewrite (vi_links _ _ _ Hi _ _ _ _ Hq' (PX_range _ _) Hv'). by rewrite vpn_split.
  - intros a Hnp Hnq. unfold s3, store, set_km. simpl. rewrite ld8_st64_ne; [by apply Hfz|].
    unfold in_page in Hnq. lia.
Qed.

(** ** Walking with allocation *)

(** [s'] and [own'] extend the page tables of [s] and [own] with pages taken from
    the free list [l], of which [l'] is left, and change no mapping. *)
Record pt_extends s l own s' l' own' : Prop := {
  pe_inv : vminv s' l' own';
  pe_free : ∃ used, l = used ++ l';
  pe_own : own ⊆ own';
  pe_new : ∀ p x, own' !! p = Some x → own !! p = Some x ∨ p ∈ l;
  pe_valid : ∀ q x i, own !! q = Some x → 0 <= i < 512 →
    has (load (q + 8 * i) s) PTE_V = true → load (q + 8 * i) s' = load (q + 8 * i) s;
  pe_pte : ∀ n q va, own !! q = Some (n, vpn (S n) va) → pte_from n q va s' = pte_from n q va s;
  pe_frame : ∀ a, (∀ p, p ∈ l → ¬ in_page p a) → (∀ p x, own !! p = Some x → ¬ in_page p a) →
    ld8 (km s') a = ld8 (km s) a
}.

Lemma pt_extends_refl s l own : vminv s l own → pt_extends s l own s l own.
Proof. intros Hi. split; try done; [by exists []|by left]. Qed.

Lemma pt_extends_trans s l own s1 l1 own1 s2 l2 own2 :
  pt_extends s l own s1 l1 own1 → pt_extends s1 l1 own1 s2 l2 own2 →
  pt_extends s l own s2 l2 own2.
Proof.
  intros H1 H2. destruct (pe_free _ _ _ _ _ _ H1) as [u1 Hu1], (pe_free _ _ _ _ _ _ H2) as [u2 Hu2].
  assert (∀ p, p ∈ l1 → p ∈ l) as Hsub by (intros p; rewrite Hu1, elem_of_app; auto).
  assert (∀ p x, own !! p = Some x → own1 !! p = Some x) as Ho.
  { intros p x Hx. eapply lookup_weaken; [exact Hx|apply H1]. }
  split.
  - apply H2.
  - exists (u1 ++ u2). by rewrite <-app_assoc, <-Hu2.
  - transitivity own1; [apply H1|apply H2].
  - intros p x [Hx|Hx]%(pe_new _ _ _ _ _ _ H2); [|auto]. by apply (pe_new _ _ _ _ _ _ H1).
  - intros q x i Hq Hi Hv. pose proof (pe_valid _ _ _ _ _ _ H1 _ _ _ Hq Hi Hv) as He.
    rewrite (pe_valid _ _ _ _ _ _ H2 _ _ _ (Ho _ _ Hq) Hi); congruence.
  - intros n q va Hq. rewrite (pe_pte _ _ _ _ _ _ H2 _ _ _ (Ho _ _ Hq)).
    by apply (pe_pte _ _ _ _ _ _ H1).
  - intros a Hl Ho'. rewrite (pe_frame _ _ _ _ _ _ H2).
    + by apply (pe_frame _ _ _ _ _ _ H1).
    + intros p Hp. auto.
    + intros p x [Hx|Hx]%(pe_new _ _ _ _ _ _ H1); eauto.
Qed.

Lemma link_extends s l own q lv pre idx pg s1 :
  0 <= kend → vminv s l own → own !! q = Some (S lv, pre) → 0 <= idx < 512 →
  has (load (q + 8 * idx) s) PTE_V = false → kalloc s = (pg, s1) → pg ≠ 0 →
  let s3 := store (q + 8 * idx) (Z.lor (PA2PTE pg) PTE_V) (zeroed pg s1) in
  ∃ l', pt_extends s l own s3 l' (<[pg := (lv, pre * 512 + idx)]> own) ∧
    load (q + 8 * idx) s3 = Z.lor (PA2PTE pg) PTE_V ∧ valid_page kend pg.
Proof.
  intros He Hi Hq Hidx Hv Ha Hne s3.
  destruct (link_step _ _ _ _ _ _ _ _ _ He Hi Hq Hidx Hv Ha Hne)
    as (l' & -> & Hpg & Hi3 & Hent & Hval & Hpte & Hfr). fold s3 in Hi3, Hent, Hval, Hpte, Hfr.
  exists l'. split; [|split; [exact Hent|]].
  - split; [exact Hi3|by exists [pg]|by apply insert_subseteq| |exact Hval|exact Hpte|].
    + intros p x [[<- _]|[_ Hx]]%lookup_insert_Some; [right; left|by left].
    + intros a Hl Ho. apply Hfr; [apply Hl; left|by eapply Ho].
  - eapply (vi_valid _ _ _ Hi3). apply lookup_insert_eq.
Qed.

Lemma walk_alloc n : ∀ q va s l own,
  0 <= kend → vminv s l own → own !! q = Some (n, vpn (S n) va) →
  ∃ r s' l' own', walk_loop n q va true s = (r, s') ∧ pt_extends s l own s' l' own' ∧
    match r with
    | Some q' => walk_loop n q va false s' = (Some q', s')
    | None => l' = []
    end.
Proof.
  induction n as [|n IH]; intros q va s l own He Hi Hq; cbn [walk_loop].
  { eexists _, s, l, own. split; [reflexivity|]. split; [by apply pt_extends_refl|reflexivity]. }
  set (e := q + 8 * PX (Z.of_nat (S n)) va).
  destruct (has (load e s) PTE_V) eqn:Hv.
  - pose proof (vi_links _ _ _ Hi _ _ _ _ Hq (PX_range _ _) Hv) as Hc. rewrite vpn_split in Hc.
    destruct (IH _ va s l own He Hi Hc) as (r & s' & l' & own' & Heq & Hext & Hr).
    fold e in Hc, Heq, Hr. eexists _, _, _, _. split; [exact Heq|]. split; [exact Hext|].
    destruct r as [q'|]; [|done].
    assert (load e s' = load e s) as ->; [|by rewrite Hv].
    eapply (pe_valid _ _ _ _ _ _ Hext); [exact Hq|apply PX_range|exact Hv].
  - simpl negb. cbv iota. destruct (kalloc s) as [pg s1] eqn:Ha.
    destruct (Z.eqb_spec pg 0) as [->|Hne].
    + eexists _, _, l, own. split; [reflexivity|].
      pose proof (vi_k _ _ _ Hi) as Hk. destruct l as [|p l].
      * rewrite (kalloc_empty kend) in Ha by done. simplify_eq.
        split; [by apply pt_extends_refl|done].
      * exfalso. destruct (kalloc_cons kend s p l Hk) as (s2 & Heq & _).
        rewrite Heq in Ha. simplify_eq.
        destruct Hk as (_ & _ & _ & [(_ & _ & ?) _]%Forall_cons). lia.
    + destruct (link_extends _ _ _ _ _ _ _ _ _ He Hi Hq (PX_range _ va) Hv Ha Hne)
        as (l3 & Hext3 & Hent & Hvp). fold e in Hext3, Hent.
      fold (zeroed pg s1). set (s3 := store e _ _) in *. clearbody s3.
      rewrite vpn_split in Hext3.
      destruct (IH pg va s3 l3 _ He (pe_inv _ _ _ _ _ _ Hext3) (lookup_insert_eq _ _ _))
        as (r & s' & l' & own' & Heq & Hext & Hr).
      eexists _, _, _, _. split; [exact Heq|]. split; [by eapply pt_extends_trans|].
      destruct r as [q'|]; [|done].
      destruct (pte_entry pg PTE_V He Hvp) as (_ & Hpa & _ & Hhas); [by vm_compute|].
      assert (has (load e s3) PTE_V = true) as Hv3 by (rewrite Hent, Hhas; done).
      assert (load e s' = load e s3) as ->.
      { eapply (pe_valid _ _ _ _ _ _ Hext); [|apply PX_range|exact Hv3].
        eapply lookup_weaken; [exact Hq|apply Hext3]. }
      by rewrite Hv3, Hent, Hpa.
Qed.
End inv.
