(* ===== verification/VmMap.v ===== *)
(** * Mapping, unmapping and translating user pages

    Specifications of [walk], [walkaddr], [mappages], [uvmunmap] and [ismapped]
    in terms of [pte_at], with allocation failures. *)
From S2P Require Import Prelude Riscv Mem CString Kalloc Vm VmInv.

Section maps.
Context (kend : Z) (Hend : 0 <= kend).
Implicit Types (s : kst) (l : list Z) (own : gmap Z (nat * Z)).

Definition root_of (root : Z) own : Prop := own !! root = Some (2%nat, 0).

Lemma root_node root own va : root_of root own → 0 <= va < MAXVA → own !! root = Some (2%nat, vpn 3 va).
Proof. intros Hr Hva. by rewrite vpn_root. Qed.

Lemma walk_false root va s :
  0 <= va < MAXVA →
  ∃ p, walk root va false s = Ok (p, s) ∧
    match walk_loop 2 root va false s with
    | (Some q, _) => p = q + 8 * PX 0 va
    | (None, _) => p = 0
    end.
Proof.
  intros Hva. unfold walk. destruct (Z.leb_spec MAXVA va); [lia|].
  destruct (walk_loop_ro 2 root va s) as [r Hr]. rewrite Hr. destruct r; eauto.
Qed.

(** [walk] without allocation finds the entry [pte_at] talks about. *)
Lemma walk_pte root va s l own p :
  vminv kend s l own → root_of root own → 0 <= va < MAXVA → walk root va false s = Ok (p, s) →
  if p =? 0 then pte_at root va s = 0
  else load p s = pte_at root va s ∧
    ∃ q, p = q + 8 * PX 0 va ∧ walk_loop 2 root va false s = (Some q, s).
Proof.
  intros Hi Hr Hva Hw. destruct (walk_false root va s Hva) as (p' & Hw' & Hp).
  rewrite Hw in Hw'. simplify_eq. unfold pte_at, pte_from.
  destruct (walk_loop_ro 2 root va s) as [r Hrw]. rewrite Hrw in *. destruct r as [q|].
  - assert (own !! q = Some (0%nat, vpn 1 va)) as Hq.
    { eapply walk_loop_node; [apply Hi|by eapply root_node|exact Hrw]. }
    pose proof (vi_valid _ _ _ _ Hi _ _ Hq) as (_ & _ & Hpos).
    pose proof (PX_range 0 va). destruct (Z.eqb_spec p' 0); [lia|]. subst p'. eauto.
  - subst p'. done.
Qed.

Lemma walk_true root va s l own :
  vminv kend s l own → root_of root own → 0 <= va < MAXVA →
  ∃ p s' l' own', walk root va true s = Ok (p, s') ∧ pt_extends kend s l own s' l' own' ∧
    if p =? 0 then l' = []
    else ∃ q, p = q + 8 * PX 0 va ∧ walk_loop 2 root va false s' = (Some q, s') ∧
           load p s' = pte_at root va s.
Proof.
  intros Hi Hr Hva. pose proof (root_node _ _ _ Hr Hva) as Hrn.
  destruct (walk_alloc kend 2 root va s l own Hend Hi Hrn) as (r & s' & l' & own' & Hw & Hext & Hres).
  unfold walk. destruct (Z.leb_spec MAXVA va); [lia|]. rewrite Hw. destruct r as [q|].
  - eexists _, _, _, _. split; [reflexivity|]. split; [exact Hext|].
    assert (own' !! q = Some (0%nat, vpn 1 va)) as Hq.
    { eapply walk_loop_node; [apply Hext| |exact Hres].
      eapply lookup_weaken; [exact Hrn|apply Hext]. }
    pose proof (vi_valid _ _ _ _ (pe_inv _ _ _ _ _ _ _ Hext) _ _ Hq) as (_ & _ & Hpos).
    pose proof (PX_range 0 va). destruct (Z.eqb_spec (q + 8 * PX 0 va) 0); [lia|].
    exists q. split; [done|]. split; [done|].
    unfold pte_at. rewrite <-(pe_pte _ _ _ _ _ _ _ Hext _ _ _ Hrn).
    unfold pte_from. by rewrite Hres.
  - eexists _, _, _, _. split; [reflexivity|]. by split.
Qed.

(** ** mappages *)

(** The entry for page [pa] with permissions [perm]. *)
Definition pte_of (pa perm : Z) : Z := Z.lor (Z.lor (PA2PTE pa) perm) PTE_V.

Lemma pte_of_lor pa perm : pte_of pa perm = Z.lor (PA2PTE pa) (Z.lor perm PTE_V).
Proof. unfold pte_of. by rewrite Z.lor_assoc. Qed.

Lemma lor_flags perm : 0 <= perm < 1024 → 0 <= Z.lor perm PTE_V < 1024.
Proof.
  intros Hp. change PTE_V with 1.
  assert (0 <= Z.lor perm 1) by (apply Z.lor_nonneg; lia). split; [done|].
  destruct (decide (Z.lor perm 1 = 0)) as [->|Hne]; [lia|].
  change 1024 with (2 ^ 10). apply Z.log2_lt_pow2; [lia|]. rewrite Z.log2_lor by lia.
  apply Z.max_lub_lt; [|done]. destruct (decide (perm = 0)) as [->|]; [done|].
  apply Z.log2_lt_pow2; lia.
Qed.

Lemma pte_of_u64 pa perm : page pa → 0 <= perm < 1024 → u64 (pte_of pa perm) = pte_of pa perm.
Proof.
  intros Hp Hf. rewrite pte_of_lor, PTE_pack by (done || by apply lor_flags).
  pose proof (lor_flags _ Hf). destruct Hp as [_ Hr]. change (2 ^ 56) with 72057594037927936 in Hr.
  apply u64_small. mlia.
Qed.

Lemma pte_of_valid pa perm : has (pte_of pa perm) PTE_V = true.
Proof.
  unfold has, pte_of. apply negb_true_iff, Z.eqb_neq. intros H0.
  assert (Z.testbit (Z.land (Z.lor (Z.lor (PA2PTE pa) perm) PTE_V) PTE_V) 0 = true) as Hb.
  { rewrite Z.land_spec, Z.lor_spec. by rewrite orb_true_r. }
  by rewrite H0 in Hb.
Qed.

(** What [mappages] has done after [k] pages. *)
Definition mapped_upto (root va pa perm k : Z) s s' : Prop :=
  ∀ va', 0 <= va' < MAXVA →
    pte_at root va' s' =
      if decide (vpn 0 va <= vpn 0 va' < vpn 0 va + k)
      then pte_of (pa + (vpn 0 va' - vpn 0 va) * 4096) perm
      else pte_at root va' s.

Lemma vpn0 va : vpn 0 va = va / 4096.
Proof. done. Qed.

Lemma mappages_step root va pa perm s l own :
  vminv kend s l own → root_of root own → 0 <= va < MAXVA → page pa → 0 <= perm < 1024 →
  has (pte_at root va s) PTE_V = false →
  ∃ p s1 l' own', walk root va true s = Ok (p, s1) ∧ pt_extends kend s l own s1 l' own' ∧
    if p =? 0 then l' = []
    else has (load p s1) PTE_V = false ∧
      let s' := store p (pte_of pa perm) s1 in
      vminv kend s' l' own' ∧ mapped_upto root va pa perm 1 s s' ∧
      (∀ a, (∀ q x, own' !! q = Some x → ¬ in_page q a) → ld8 (km s') a = ld8 (km s1) a).
Proof.
  intros Hi Hr Hva Hpa Hperm Hun.
  destruct (walk_true root va s l own Hi Hr Hva) as (p & s1 & l' & own' & Hw & Hext & Hp).
  exists p, s1, l', own'. split; [exact Hw|]. split; [exact Hext|].
  destruct (Z.eqb_spec p 0) as [->|Hne]; [done|]. destruct Hp as (q & -> & Hq & Hld).
  split; [by rewrite Hld|]. cbv zeta.
  assert (root_of root own') as Hr' by (eapply lookup_weaken; [exact Hr|apply Hext]).
  destruct (store_leaf kend root va (pte_of pa perm) s1 l' own' q (pe_inv _ _ _ _ _ _ _ Hext) Hr' Hva Hq)
    as [Hi' Hpte]. cbv zeta in Hi', Hpte. split; [exact Hi'|]. split.
  - intros va' Hva'. rewrite Hpte by done. rewrite pte_of_u64 by done.
    case_decide as H1; case_decide as H2; try lia.
    + rewrite H1, Z.sub_diag, Z.add_0_r. done.
    + unfold pte_at. apply (pe_pte _ _ _ _ _ _ _ Hext). by apply root_node.
  - intros a Ha. unfold store, set_km. simpl. apply ld8_st64_ne.
    assert (own' !! q = Some (0%nat, vpn 1 va)) as Hqo.
    { eapply walk_loop_node; [apply Hext|by eapply root_node|exact Hq]. }
    pose proof (Ha _ _ Hqo). pose proof (PX_range 0 va). unfold in_page in *. lia.
Qed.

Lemma mappages_loop_S f pagetable a last pa perm s :
  mappages_loop (S f) pagetable a last pa perm s =
    '(pte, s) ← walk pagetable a true s;
    if pte =? 0 then Ok (-1, s)
    else if has (load pte s) PTE_V then Panic "mappages: remap"
    else
      let s := store pte (pte_of pa perm) s in
      if a =? last then Ok (0, s)
      else mappages_loop f pagetable (u64 (a + PGSIZE)) last (u64 (pa + PGSIZE)) perm s.
Proof. reflexivity. Qed.

Lemma mappages_loop_spec n : ∀ root va pa perm s l own,
  vminv kend s l own → root_of root own → va mod 4096 = 0 → 0 <= va →
  va + Z.of_nat n * 4096 + 4096 <= MAXVA →
  pa mod 4096 = 0 → 0 <= pa → pa + Z.of_nat n * 4096 + 4096 <= 2 ^ 56 → 0 <= perm < 1024 →
  (∀ va', va <= va' < va + Z.of_nat n * 4096 + 4096 → has (pte_at root va' s) PTE_V = false) →
  ∃ k r s' l' own',
    mappages_loop (S n) root va (va + Z.of_nat n * 4096) pa perm s = Ok (r, s') ∧
    vminv kend s' l' own' ∧ own ⊆ own' ∧ (∃ used, l = used ++ l') ∧
    (∀ p x, own' !! p = Some x → own !! p = Some x ∨ p ∈ l) ∧
    mapped_upto root va pa perm k s s' ∧
    ((r = 0 ∧ k = Z.of_nat n + 1) ∨ (r = -1 ∧ 0 <= k <= Z.of_nat n ∧ l' = [])) ∧
    (∀ a, (∀ p, p ∈ l → ¬ in_page p a) → (∀ p x, own !! p = Some x → ¬ in_page p a) →
      ld8 (km s') a = ld8 (km s) a).
Proof.
  induction n as [|n IH]; intros root va pa perm s l own Hi Hr Hal Hva0 Hva Hpal Hpa0 Hpa Hperm Hun;
    destruct (mappages_step root va pa perm s l own) as (p & s1 & l1 & own1 & Hw & Hext & Hp);
    try done; try lia; try (split; [done|lia]); try (apply Hun; lia);
    rewrite mappages_loop_S, Hw; cbn [mbind res_bind];
    (destruct (Z.eqb_spec p 0) as [->|Hne];
     [exists 0, (-1), s1, l1, own1; split_and!; try apply Hext; [done| |right; split; [done|]; split; [lia|exact Hp]]|]).
  all: try (intros va' Hva'; rewrite decide_False by lia;
    unfold pte_at; apply (pe_pte _ _ _ _ _ _ _ Hext); by apply root_node).
  - destruct Hp as (Hv & Hi' & Hm & Hf). rewrite Hv.
    cbv zeta. rewrite Z.add_0_r, Z.eqb_refl. exists 1, 0, (store p (pte_of pa perm) s1), l1, own1.
    split_and!; try apply Hext; [done|exact Hi'|exact Hm|left; lia|].
    intros a Hl Ho. rewrite Hf; [by apply Hext|].
    intros q x [Hx|Hx]%(pe_new _ _ _ _ _ _ _ Hext); eauto.
  - destruct Hp as (Hv & Hi' & Hm & Hf). rewrite Hv.
    cbv zeta in *. set (s2 := store p (pte_of pa perm) s1) in *. clearbody s2.
    destruct (Z.eqb_spec va (va + Z.of_nat (S n) * 4096)); [lia|].
    unfold PGSIZE. rewrite !u64_small by (change MAXVA with 274877906944 in *;
      change (2 ^ 56) with 72057594037927936 in *; lia).
    replace (va + Z.of_nat (S n) * 4096) with (va + 4096 + Z.of_nat n * 4096) by lia.
    assert (root_of root own1) as Hr1 by (eapply lookup_weaken; [exact Hr|apply Hext]).
    destruct (IH root (va + 4096) (pa + 4096) perm s2 l1 own1)
      as (k & r & s' & l' & own' & Heq & Hi3 & Hsub & [u Hu] & Hnew & Hm' & Hres & Hf');
      try done; try lia; try mlia.
    { intros va' Hr'. rewrite Hm by lia. rewrite decide_False by (rewrite !vpn0; mlia).
      apply Hun. lia. }
    destruct (pe_free _ _ _ _ _ _ _ Hext) as [u1 Hu1].
    exists (k + 1), r, s', l', own'. split; [exact Heq|]. split; [exact Hi3|].
    split_and!; try done.
    + transitivity own1; [apply Hext|done].
    + exists (u1 ++ u). by rewrite <-app_assoc, <-Hu.
    + intros q x [Hx|Hx]%Hnew; [by apply Hext|]. right. rewrite Hu1. apply elem_of_app. auto.
    + intros va' Hva'. rewrite Hm', Hm by done.
      assert (vpn 0 (va + 4096) = vpn 0 va + 1) as -> by (rewrite !vpn0; mlia).
      assert (0 <= k) by lia. repeat case_decide; try lia; f_equal; lia.
    + destruct Hres as [[? ?]|(? & ? & ?)]; [left; lia|].
      right. split; [done|]. split; [lia|done].
    + intros a Hl Ho. rewrite Hf'.
      * rewrite Hf; [by apply Hext|]. intros q x [Hx|Hx]%(pe_new _ _ _ _ _ _ _ Hext); eauto.
      * intros q Hq. apply Hl. rewrite Hu1. apply elem_of_app. auto.
      * intros q x [Hx|Hx]%(pe_new _ _ _ _ _ _ _ Hext); eauto.
Qed.

(** ** Translation and unmapping *)

(** [walkaddr] reads the valid user entries. *)
Lemma walkaddr_spec root va s l own :
  vminv kend s l own → root_of root own → 0 <= va →
  walkaddr root va s =
    Ok (if (va <? MAXVA) && has (pte_at root va s) PTE_V && has (pte_at root va s) PTE_U
        then PTE2PA (pte_at root va s) else 0, s).
Proof.
  intros Hi Hr Hva. unfold walkaddr.
  destruct (Z.leb_spec MAXVA va), (Z.ltb_spec va MAXVA); try lia; [done|].
  destruct (walk_false root va s) as (p & Hw & _); [done|]. rewrite Hw. cbn [mbind res_bind].
  pose proof (walk_pte root va s l own p Hi Hr ltac:(lia) Hw) as Hp.
  destruct (p =? 0); [by rewrite Hp|]. destruct Hp as [-> _]. simpl.
  destruct (has _ PTE_V), (has _ PTE_U); done.
Qed.

Lemma ismapped_spec root va s l own :
  vminv kend s l own → root_of root own → 0 <= va < MAXVA →
  ismapped root va s = Ok (if has (pte_at root va s) PTE_V then 1 else 0, s).
Proof.
  intros Hi Hr Hva. unfold ismapped.
  destruct (walk_false root va s Hva) as (p & Hw & _). rewrite Hw. cbn [mbind res_bind].
  pose proof (walk_pte root va s l own p Hi Hr Hva Hw) as Hp.
  destruct (p =? 0); [by rewrite Hp|]. destruct Hp as [-> _]. by destruct (has _ PTE_V).
Qed.

(** [uvmunmap] of one page without freeing clears its entry and no other. *)
Lemma uvmunmap1_spec root va s l own :
  vminv kend s l own → root_of root own → 0 <= va < MAXVA →
  ∃ s', uvmunmap1 kend root va false s = Ok s' ∧ vminv kend s' l own ∧
    (∀ va', 0 <= va' < MAXVA →
       has (pte_at root va' s') PTE_V =
         (if decide (vpn 0 va' = vpn 0 va) then false else has (pte_at root va' s) PTE_V) ∧
       (vpn 0 va' ≠ vpn 0 va → pte_at root va' s' = pte_at root va' s)).
Proof.
  intros Hi Hr Hva. unfold uvmunmap1.
  destruct (walk_false root va s Hva) as (p & Hw & _). rewrite Hw. cbn [mbind res_bind].
  pose proof (walk_pte root va s l own p Hi Hr Hva Hw) as Hp.
  assert (∀ va', vpn 0 va' = vpn 0 va → pte_at root va' s = pte_at root va s) as Hsame.
  { intros va' Hv. unfold pte_at, pte_from. rewrite (walk_loop_same 2 root va' va s).
    - destruct (walk_loop_ro 2 root va s) as [[q|] ->]; [|done].
      change (PX 0 va') with (PX (Z.of_nat 0) va'). change (PX 0 va) with (PX (Z.of_nat 0) va).
      by rewrite !PX_vpn, Hv.
    - rewrite !vpn_S. congruence. }
  assert (∀ va', has (pte_at root va s) PTE_V = false → 
     has (pte_at root va' s) PTE_V =
         (if decide (vpn 0 va' = vpn 0 va) then false else has (pte_at root va' s) PTE_V)) as Hinv.
  { intros va' Hf. case_decide as Hd; [|done]. by rewrite Hsame. }
  destruct (p =? 0).
  { exists s. split; [done|]. split; [done|]. intros va' _. split; [|done].
    apply Hinv. by rewrite Hp. }
  destruct Hp as (Hld & q & -> & Hq). rewrite Hld.
  destruct (has (pte_at root va s) PTE_V) eqn:Hv; simpl; cbn [mbind res_bind].
  - destruct (store_leaf kend root va 0 s l own q Hi Hr Hva Hq) as [Hi' Hpte]. cbv zeta in Hi', Hpte.
    eexists. split; [done|]. split; [exact Hi'|]. intros va' Hva'. rewrite Hpte by done.
    by case_decide.
  - exists s. split; [done|]. split; [done|]. auto.
Qed.
End maps.

(** ** Properties *)

(** C8: [mappages] installs exactly the requested mappings: on success every
    address of the range finds the entry for its physical page with the given
    permissions, every other address finds what it found before, and no byte
    outside page-table pages and free pages changes; when the allocator runs
    dry it returns -1 having mapped a proper prefix. It never panics on an
    unmapped range. *)
Theorem mappages_correct (kend root va n pa perm : Z) (s : kst) (l : list Z)
    (own : gmap Z (nat * Z)) :
  0 <= kend → vminv kend s l own → root_of root own →
  va mod 4096 = 0 → 0 <= va → va + n * 4096 <= MAXVA → 0 < n →
  pa mod 4096 = 0 → 0 <= pa → pa + n * 4096 <= 2 ^ 56 → 0 <= perm < 1024 →
  (∀ va', va <= va' < va + n * 4096 → has (pte_at root va' s) PTE_V = false) →
  ∃ k r s' l' own', mappages root va (n * 4096) pa perm s = Ok (r, s') ∧
    vminv kend s' l' own' ∧ root_of root own' ∧ mapped_upto root va pa perm k s s' ∧
    ((r = 0 ∧ k = n) ∨ (r = -1 ∧ 0 <= k < n ∧ l' = [])) ∧
    (∀ a, (∀ p, p ∈ l → ¬ in_page p a) → (∀ p x, own !! p = Some x → ¬ in_page p a) →
      ld8 (km s') a = ld8 (km s) a).
Proof.
  intros He Hi Hr Hal Hva Hmax Hn Hpal Hpa Hpmax Hperm Hun. unfold mappages, PGSIZE.
  rewrite Hal, Z.mod_mul, Z.div_mul by lia. simpl.
  destruct (Z.eqb_spec (n * 4096) 0); [lia|].
  destruct (Z.to_nat n) as [|m] eqn:Hm; [lia|].
  change MAXVA with 274877906944 in Hmax.
  rewrite u64_small by lia. replace (va + n * 4096 - 4096) with (va + Z.of_nat m * 4096) by lia.
  destruct (mappages_loop_spec kend He m root va pa perm s l own)
    as (k & r & s' & l' & own' & Heq & Hi' & Hsub & _ & _ & Hm' & Hres & Hf); try done; try lia.
  { change MAXVA with 274877906944. lia. }
  { intros va' Hr'. apply Hun. lia. }
  exists k, r, s', l', own'. split; [exact Heq|]. split; [exact Hi'|].
  split; [eapply lookup_weaken; [exact Hr|done]|]. split; [exact Hm'|]. split; [|exact Hf].
  destruct Hres as [[? ?]|(? & ? & ?)]; [left; lia|]. right. split; [done|]. split; [lia|done].
Qed.

(** A page of zeroes is an empty page table. *)
Lemma zero_root kend root s l :
  kinv kend s l → valid_page kend root → root ∉ l →
  (∀ i, 0 <= i < 512 → load (root + 8 * i) s = 0) →
  vminv kend s l {[root := (2%nat, 0)]} ∧ ∀ va, pte_at root va s = 0.
Proof.
  intros Hk Hv Hn Hz. split.
  - split; [done| | |].
    + by intros q x [<- _]%lookup_singleton_Some.
    + by intros q x [<- _]%lookup_singleton_Some.
    + intros q lv pre idx [<- _]%lookup_singleton_Some Hi. rewrite Hz by done. done.
  - intros va. unfold pte_at, pte_from. cbn [walk_loop]. by rewrite Hz by apply PX_range.
Qed.

(** [uvmcreate] returns 0 or an empty page table. *)
Lemma uvmcreate_spec kend s l :
  0 <= kend → kinv kend s l →
  (l = [] ∧ uvmcreate s = (0, s)) ∨
  ∃ root l' s', l = root :: l' ∧ uvmcreate s = (root, s') ∧
    vminv kend s' l' {[root := (2%nat, 0)]} ∧ ∀ va, pte_at root va s' = 0.
Proof.
  intros He Hk. destruct l as [|root l].
  - left. split; [done|]. unfold uvmcreate. by rewrite (kalloc_empty kend).
  - right. destruct (kalloc_cons kend s root l Hk) as (s1 & Ha & Hk1 & _).
    pose proof Hk as (_ & _ & [Hn _]%NoDup_cons & [Hv _]%Forall_cons).
    exists root, l, (zeroed root s1). split; [done|].
    split.
    { unfold uvmcreate. rewrite Ha. pose proof Hv as (_ & _ & ?).
      by destruct (Z.eqb_spec root 0); [lia|]. }
    apply zero_root; [by apply kinv_zeroed|done|done|].
    intros i Hi. apply ld64_zero. intros b Hb. rewrite zeroed_ld8, decide_True; [done|].
    unfold in_page. lia.
Qed.

(** *** Witness: an empty page table and two free pages *)
Definition B : Z := PHYSTOP.
Definition two_free : kst :=
  mkK (st64 (st64 ∅ (B - 8192) (B - 12288)) (B - 12288) 0) (B - 8192).

Lemma two_free_inv :
  vminv (B - 12288) two_free [B - 8192; B - 12288] {[B - 4096 := (2%nat, 0)]} ∧
  ∀ va, pte_at (B - 4096) va two_free = 0.
Proof.
  apply zero_root.
  - split_and!.
    + apply st64_ok, st64_ok, mem_ok_empty.
    + by vm_compute.
    + apply NoDup_cons. split; [by intros ?%list_elem_of_singleton|apply NoDup_singleton].
    + repeat (apply Forall_cons; split; [by vm_compute|]). by apply Forall_nil.
  - by vm_compute.
  - by intros [?|[?|?%not_elem_of_nil]%elem_of_cons]%elem_of_cons.
  - intros i Hi. unfold load, two_free. simpl. rewrite !ld64_st64_ne by lia. by vm_compute.
Qed.

Lemma mappages_correct_witness :
  ∃ k r s' l' own', mappages (B - 4096) 8192 (1 * 4096) KERNBASE 22 two_free = Ok (r, s') ∧
    vminv (B - 12288) s' l' own' ∧ mapped_upto (B - 4096) 8192 KERNBASE 22 k two_free s'.
Proof.
  destruct two_free_inv as [Hi Hz].
  destruct (mappages_correct (B - 12288) (B - 4096) 8192 1 KERNBASE 22 two_free
    [B - 8192; B - 12288] {[B - 4096 := (2%nat, 0)]})
    as (k & r & s' & l' & own' & Heq & Hi' & _ & Hm & _);
    [by vm_compute|exact Hi|apply lookup_singleton_eq|done|lia|by vm_compute|lia|done|
     by vm_compute|by vm_compute|lia| |].
  { intros va' _. by rewrite Hz. }
  exists k, r, s', l', own'. split; [exact Heq|]. split; [exact Hi'|exact Hm].
Defined.
