(* ===== verification/Uvm.v ===== *)
(** * User memory of a process

    [uvm kend root sz s l own]: the page table at [root] maps user pages below
    [sz] only, each to a frame of its own that is neither free nor part of the
    page table.  [uvmunmap], [uvmdealloc] and [uvmalloc] of [vm.c] keep it, and
    always return: growing maps every page to a zeroed frame of the free list or
    undoes what it did, shrinking unmaps exactly the pages given up. *)
From S2P Require Import Prelude Riscv Mem CString Kalloc Vm VmInv VmMap.

Section uvm.
Context (kend : Z) (Hend : 0 <= kend).
Implicit Types (s : kst) (l : list Z) (own : gmap Z (nat * Z)).

Definition mapped (root va : Z) s : Prop := has (pte_at root va s) PTE_V = true.
Definition frame_of (root va : Z) s : Z := PTE2PA (pte_at root va s).

Record uvm (root sz : Z) s l own : Prop := {
  um_inv : vminv kend s l own;
  um_root : root_of root own;
  um_frame va : 0 <= va < TRAPFRAME → mapped root va s →
    valid_page kend (frame_of root va s) ∧ frame_of root va s ∉ l ∧ own !! frame_of root va s = None;
  um_inj va va' : 0 <= va < TRAPFRAME → 0 <= va' < TRAPFRAME → mapped root va s → mapped root va' s →
    frame_of root va s = frame_of root va' s → vpn 0 va = vpn 0 va';
  um_top va : 0 <= va → PGROUNDUP sz <= va < TRAPFRAME → ¬ mapped root va s
}.

Lemma tf_lt va : 0 <= va < TRAPFRAME → 0 <= va < MAXVA.
Proof. change TRAPFRAME with 274877898752. change MAXVA with 274877906944. lia. Qed.

(** ** Memory that the page table does not see *)
Lemma vminv_ext s s' l l' own :
  vminv kend s l own → kinv kend s' l' → (∀ q x, own !! q = Some x → q ∉ l') →
  (∀ q x a, own !! q = Some x → in_page q a → ld8 (km s') a = ld8 (km s) a) →
  vminv kend s' l' own ∧ ∀ n q va, own !! q = Some (n, vpn (S n) va) →
    (walk_loop n q va false s').1 = (walk_loop n q va false s).1 ∧ pte_from n q va s' = pte_from n q va s.
Proof.
  intros Hi Hk Hn Hm.
  assert (∀ q x i, own !! q = Some x → 0 <= i < 512 → load (q + 8 * i) s' = load (q + 8 * i) s) as Hl.
  { intros q x i Hq Hr. apply load_ext. intros b Hb. eapply Hm; [exact Hq|]. unfold in_page. lia. }
  split.
  - split; [done|apply Hi|done|]. intros q lv pre idx Hq Hr. rewrite (Hl _ _ _ Hq Hr). by apply (vi_links _ _ _ _ Hi).
  - intros n. induction n as [|n IH]; intros q va Hq; unfold pte_from in *; cbn [walk_loop].
    + split; [done|]. by rewrite (Hl _ _ _ Hq) by apply (PX_range 0).
    + rewrite (Hl _ _ _ Hq) by apply PX_range. destruct (has _ PTE_V) eqn:Hv; [|done]. cbn [negb].
      apply IH. rewrite (vi_links _ _ _ _ Hi _ _ _ _ Hq (PX_range _ _) Hv). by rewrite vpn_split.
Qed.

Lemma vpn_same root va va' s : vpn 0 va = vpn 0 va' → pte_at root va s = pte_at root va' s.
Proof.
  intros Hv. unfold pte_at, pte_from. rewrite (walk_loop_same 2 root va va') by (rewrite !vpn_S; congruence).
  destruct (walk_loop_ro 2 root va' s) as [[q|] ->]; [|done].
  change (PX 0 va) with (PX (Z.of_nat 0) va). change (PX 0 va') with (PX (Z.of_nat 0) va'). by rewrite !PX_vpn, Hv.
Qed.

(** ** uvmunmap *)

(** The page of [va] and its bytes are as before. *)
Definition same_page (root va : Z) s s' : Prop :=
  pte_at root va s' = pte_at root va s ∧
  (mapped root va s → ∀ b, in_page (frame_of root va s) b → ld8 (km s') b = ld8 (km s) b).

Lemma same_page_refl root va s : same_page root va s s.
Proof. done. Qed.
Lemma same_page_trans root va s1 s2 s3 : same_page root va s1 s2 → same_page root va s2 s3 → same_page root va s1 s3.
Proof.
  intros [E1 B1] [E2 B2]. split; [congruence|]. intros Hm b Hb.
  rewrite B2, B1; [done..|unfold mapped; by rewrite E1|unfold frame_of; by rewrite E1].
Qed.
Lemma same_page_mapped root va s s' : same_page root va s s' → mapped root va s' ↔ mapped root va s.
Proof. intros [E _]. unfold mapped. by rewrite E. Qed.

(** The pages from [a] on, [n] of them, are gone; the others are as before. *)
Definition unmapped_from (root a n : Z) s s' : Prop := ∀ va, 0 <= va < TRAPFRAME →
  if decide (vpn 0 a <= vpn 0 va < vpn 0 a + n) then ¬ mapped root va s' else same_page root va s s'.

Lemma unmap1_free root sz a s l own :
  uvm root sz s l own → 0 <= a < TRAPFRAME →
  ∃ s' l', uvmunmap1 kend root a true s = Ok s' ∧ uvm root sz s' l' own ∧ unmapped_from root a 1 s s'.
Proof.
  intros Hu Ha. pose proof (um_inv _ _ _ _ _ Hu) as Hi. pose proof (um_root _ _ _ _ _ Hu) as Hr.
  pose proof (tf_lt _ Ha) as Hav.
  assert (¬ mapped root a s → unmapped_from root a 1 s s) as Hno.
  { intros Hn va Hva. case_decide as Hd; [|apply same_page_refl]. unfold mapped. by rewrite (vpn_same root va a) by lia. }
  unfold uvmunmap1. destruct (walk_false root a s Hav) as (p & Hw & _). rewrite Hw. cbn [mbind res_bind].
  pose proof (walk_pte _ root a s l own p Hi Hr Hav Hw) as Hp.
  destruct (p =? 0).
  { exists s, l. split; [done|]. split; [done|]. apply Hno. unfold mapped. by rewrite Hp. }
  destruct Hp as (Hld & q & -> & Hq). rewrite Hld.
  destruct (has (pte_at root a s) PTE_V) eqn:Hv; cbn [negb].
  2: { exists s, l. split; [done|]. split; [done|]. apply Hno. unfold mapped. congruence. }
  destruct (um_frame _ _ _ _ _ Hu a Ha Hv) as (Hvp & Hnl & Hno'). unfold frame_of in *.
  set (pg := PTE2PA (pte_at root a s)) in *.
  destruct (kfree_spec kend pg s l) as (s1 & Hf & Hk1 & Hm1); [apply Hi|done|done|].
  rewrite Hf. cbn [mbind res_bind].
  destruct (vminv_ext s s1 l (pg :: l) own Hi Hk1) as [Hi1 Hsame].
  { intros q' x Hq' [->|Hin]%elem_of_cons; [congruence|]. by apply (vi_free _ _ _ _ Hi _ _ Hq'). }
  { intros q' x b Hq' Hb. apply Hm1. apply (pages_disjoint kend q'); [by eapply (vi_valid _ _ _ _ Hi)|done| |done].
    intros ->. congruence. }
  assert (∀ va, 0 <= va < TRAPFRAME → pte_at root va s1 = pte_at root va s) as Hpte.
  { intros va Hva. apply Hsame. by apply root_node; [|apply tf_lt]. }
  assert (walk_loop 2 root a false s1 = (Some q, s1)) as Hq1.
  { destruct (Hsame 2%nat root a) as [Hw1 _]; [by apply root_node|]. rewrite Hq in Hw1.
    destruct (walk_loop_ro 2 root a s1) as [r Hr1]. rewrite Hr1 in *. simpl in Hw1. by subst. }
  destruct (store_leaf kend root a 0 s1 (pg :: l) own q Hi1 Hr Hav Hq1) as [Hi2 Hst]. cbv zeta in Hi2, Hst.
  set (s2 := store (q + 8 * PX 0 a) 0 s1) in *.
  assert (∀ va, 0 <= va < TRAPFRAME → pte_at root va s2 =
    if decide (vpn 0 va = vpn 0 a) then 0 else pte_at root va s) as Hst2.
  { intros va Hva. rewrite Hst by by apply tf_lt. case_decide; [done|]. by apply Hpte. }
  assert (∀ va, 0 <= va < TRAPFRAME → mapped root va s2 →
    vpn 0 va ≠ vpn 0 a ∧ mapped root va s ∧ pte_at root va s2 = pte_at root va s) as Hm2.
  { unfold mapped. intros va Hva. rewrite Hst2 by done. case_decide; [done|]. auto. }
  exists s2, (pg :: l). split; [done|]. split.
  - split; [exact Hi2|exact Hr| | |].
    + intros va Hva (Hne & Hms & He)%Hm2; [|done]. unfold frame_of. rewrite He.
      destruct (um_frame _ _ _ _ _ Hu va Hva Hms) as (? & ? & ?). split_and!; [done| |done].
      intros [Heq|?]%elem_of_cons; [|done]. apply Hne. exact (um_inj _ _ _ _ _ Hu va a Hva Ha Hms Hv Heq).
    + intros va va' Hva Hva' (_ & Hms & He)%Hm2 (_ & Hms' & He')%Hm2; [|done..]. unfold frame_of. rewrite He, He'.
      exact (um_inj _ _ _ _ _ Hu va va' Hva Hva' Hms Hms').
    + intros va H0 Hva Hm. destruct (Hm2 va ltac:(lia) Hm) as (_ & Hms & _).
      exact (um_top _ _ _ _ _ Hu va H0 Hva Hms).
  - intros va Hva. case_decide; [unfold mapped; rewrite Hst2, decide_True by (done || lia); done|].
    split; [rewrite Hst2, decide_False by (done || lia); done|]. intros Hms b Hb.
    destruct (um_frame _ _ _ _ _ Hu va Hva Hms) as (Hvf & _ & Hof).
    assert (own !! q = Some (0%nat, vpn 1 a)) as Hqo.
    { eapply walk_loop_node; [apply Hi|by apply root_node|exact Hq]. }
    unfold s2, store, set_km. cbn [km]. rewrite ld8_st64_ne.
    + apply Hm1. apply (pages_disjoint kend (frame_of root va s)); [done|done| |done].
      intros He. pose proof (um_inj _ _ _ _ _ Hu va a Hva Ha Hms Hv He). lia.
    + assert (¬ in_page q b) as Hnb.
      { apply (pages_disjoint kend (frame_of root va s)); [done|by eapply (vi_valid _ _ _ _ Hi)| |done].
        intros He. rewrite He, Hqo in Hof. done. }
      pose proof (PX_range 0 a). unfold in_page in Hnb. lia.
Qed.

Lemma unmap_loop_free f : ∀ root sz a e s l own,
  uvm root sz s l own → a mod 4096 = 0 → e mod 4096 = 0 → 0 <= a → e <= TRAPFRAME →
  e - a <= Z.of_nat f * 4096 →
  ∃ s' l', uvmunmap_loop kend f root a e true s = Ok s' ∧ uvm root sz s' l' own ∧
    unmapped_from root a ((e - a) / 4096) s s'.
Proof.
  induction f as [|f IH]; intros root sz a e s l own Hu Ha He H0 Hb Hf; cbn [uvmunmap_loop];
    destruct (Z.ltb_spec a e) as [Hlt|Hge]; try lia.
  1,3: exists s, l; split; [done|]; split; [done|]; intros va Hva; rewrite decide_False; [apply same_page_refl|];
    assert ((e - a) / 4096 <= 0) by mlia; lia.
  destruct (unmap1_free root sz a s l own Hu) as (s1 & l1 & -> & Hu1 & Hm1); [lia|]. cbn [mbind res_bind].
  change TRAPFRAME with 274877898752 in Hb. rewrite u64_small by (change PGSIZE with 4096; lia).
  change PGSIZE with 4096.
  destruct (IH root sz (a + 4096) e s1 l1 own Hu1) as (s2 & l2 & -> & Hu2 & Hm2);
    [mlia|done|lia|by change TRAPFRAME with 274877898752|lia|].
  exists s2, l2. split; [done|]. split; [done|]. intros va Hva.
  specialize (Hm1 va Hva). specialize (Hm2 va Hva).
  assert (vpn 0 (a + 4096) = vpn 0 a + 1) as Ev by (rewrite !vpn0; mlia). rewrite Ev in Hm2.
  assert ((e - a) / 4096 = (e - (a + 4096)) / 4096 + 1) as Eq by mlia. rewrite Eq.
  assert (0 <= (e - (a + 4096)) / 4096) by mlia.
  destruct (decide (vpn 0 a + 1 <= vpn 0 va < vpn 0 a + 1 + (e - (a + 4096)) / 4096)).
  - by rewrite decide_True by lia.
  - destruct (decide (vpn 0 a <= vpn 0 va < vpn 0 a + 1)).
    + rewrite decide_True by lia. by rewrite (same_page_mapped _ _ _ _ Hm2).
    + rewrite decide_False by lia. by eapply same_page_trans.
Qed.

(** ** uvmdealloc *)
Lemma roundup x : 0 <= x <= TRAPFRAME → PGROUNDUP x mod 4096 = 0 ∧ x <= PGROUNDUP x < x + 4096 ∧ PGROUNDUP x <= TRAPFRAME.
Proof.
  change TRAPFRAME with 274877898752. intros Hx. rewrite PGROUNDUP_eq by lia. split_and!; mlia.
Qed.

Lemma unmapped_uvm root sz new a n s s' l' own : uvm root sz s' l' own → unmapped_from root a n s s' →
  (∀ va, 0 <= va → PGROUNDUP new <= va < TRAPFRAME → (vpn 0 a <= vpn 0 va < vpn 0 a + n) ∨ ¬ mapped root va s) →
  uvm root new s' l' own.
Proof.
  intros Hu Hm Hn. split; try apply Hu. intros va H0 Hva. specialize (Hm va ltac:(lia)).
  destruct (Hn va H0 Hva) as [Hd|Hd]; [by rewrite decide_True in Hm|].
  case_decide; [done|]. by rewrite (same_page_mapped _ _ _ _ Hm).
Qed.

(** Nothing of the first [sz] bytes has changed. *)
Definition kept (root sz : Z) s s' : Prop :=
  ∀ va, 0 <= va < TRAPFRAME → va < PGROUNDUP sz → same_page root va s s'.

Lemma vpn_lt a va : a mod 4096 = 0 → vpn 0 va < vpn 0 a ↔ va < a.
Proof. rewrite !vpn0. intros. mlia. Qed.

Lemma uvmdealloc_ok root old new s l own : uvm root old s l own → 0 <= old <= TRAPFRAME → 0 <= new <= TRAPFRAME →
  ∃ s' l', uvmdealloc kend root old new s = Ok (Z.min old new, s') ∧ uvm root (Z.min old new) s' l' own ∧
    kept root (Z.min old new) s s'.
Proof.
  intros Hu Ho Hn. unfold uvmdealloc. destruct (Z.leb_spec old new) as [Hle|Hgt].
  { rewrite Z.min_l by done. exists s, l. by split_and!. }
  rewrite Z.min_r by lia. destruct (roundup old Ho) as (Mo & Bo & To), (roundup new Hn) as (Mn & Bn & Tn).
  destruct (Z.ltb_spec (PGROUNDUP new) (PGROUNDUP old)) as [Hlt|Hge].
  - set (o := PGROUNDUP old) in *. set (w := PGROUNDUP new) in *. change TRAPFRAME with 274877898752 in To.
    change PGSIZE with 4096. rewrite i32_small by mlia.
    rewrite u64_small by mlia. unfold uvmunmap. change PGSIZE with 4096. rewrite Mn. cbn [Z.eqb negb].
    replace (w + (o - w) / 4096 * 4096) with o by mlia. rewrite u64_small by lia.
    destruct (unmap_loop_free (Z.to_nat ((o - w) / 4096)) root old w o s l own Hu Mn Mo) as (s1 & l1 & -> & Hu1 & Hm1);
      [lia|change TRAPFRAME with 274877898752; lia|mlia|]. cbn [mbind res_bind].
    exists s1, l1. split; [done|]. split.
    + eapply unmapped_uvm; [exact Hu1|exact Hm1|]. intros va H0 Hva.
      destruct (decide (va < o)); [left; rewrite !vpn0; fold w in Hva; mlia|right].
      apply (um_top _ _ _ _ _ Hu va H0). fold o. lia.
    + intros va Hva Hlt'. fold w in Hlt'. specialize (Hm1 va Hva). rewrite decide_False in Hm1; [done|].
      apply (vpn_lt w va) in Hlt'; [lia|done].
  - cbn [mbind res_bind]. exists s, l. split; [done|]. split; [|done].
    split; try apply Hu. intros va H0 Hva. apply (um_top _ _ _ _ _ Hu va H0). lia.
Qed.

(** ** uvmalloc *)

(** The page of [va] is a frame of zeroes, mapped with [perm]. *)
Definition fresh_page (root va perm : Z) s : Prop := ∃ pg, pte_at root va s = pte_of pg perm ∧
  valid_page kend pg ∧ ∀ b, in_page pg b → ld8 (km s) b = 0.

Lemma frame_fresh pg perm : valid_page kend pg → 0 <= perm < 1024 → PTE2PA (pte_of pg perm) = pg.
Proof.
  intros Hv Hp. rewrite pte_of_lor. by apply (pte_entry kend pg (Z.lor perm PTE_V) Hend Hv), lor_flags.
Qed.

Lemma fresh_page_same root va perm s s' : 0 <= perm < 1024 → fresh_page root va perm s →
  same_page root va s s' → fresh_page root va perm s'.
Proof.
  intros Hp (pg & E & Hv & Hz) [E' B]. exists pg. rewrite E'. split_and!; [done|done|].
  intros b Hb. rewrite B; [by apply Hz|unfold mapped; rewrite E; apply pte_of_valid|].
  unfold frame_of. by rewrite E, frame_fresh.
Qed.

(** A frame taken from the free list for the page at [a]. *)
Lemma alloc_page root sz a perm s l own pg s1 :
  uvm root sz s l own → a mod 4096 = 0 → PGROUNDUP sz <= a → 0 <= a < TRAPFRAME → 0 <= perm < 1024 →
  kalloc s = (pg, s1) → pg ≠ 0 →
  ∃ r s2 l2 own2, mappages root a PGSIZE pg perm (zeroed pg s1) = Ok (r, s2) ∧
    vminv kend s2 l2 own2 ∧ root_of root own2 ∧
    valid_page kend pg ∧ pg ∉ l2 ∧ own2 !! pg = None ∧ (∀ b, in_page pg b → ld8 (km s2) b = 0) ∧
    (∀ va, 0 <= va < TRAPFRAME → mapped root va s → frame_of root va s ≠ pg ∧ frame_of root va s ∉ l2 ∧
       own2 !! frame_of root va s = None) ∧
    (∀ va, 0 <= va < TRAPFRAME →
       if decide (r = 0 ∧ vpn 0 va = vpn 0 a) then pte_at root va s2 = pte_of pg perm else same_page root va s s2) ∧
    (r = 0 ∨ r = -1).
Proof.
  intros Hu Ha Hsz Hr Hp Hk Hne. pose proof (um_inv _ _ _ _ _ Hu) as Hi. pose proof (um_root _ _ _ _ _ Hu) as Hrt.
  destruct (kalloc_own kend s l own pg s1 Hend Hi Hk Hne) as (l' & -> & Hk1 & Hpo & Hvp & Hpl & Hm1).
  pose proof (kinv_zeroed kend pg s1 l' Hk1 Hvp Hpl) as Hkz.
  assert (∀ b, ¬ in_page pg b → ld8 (km (zeroed pg s1)) b = ld8 (km s) b) as Hmz.
  { intros b Hb. rewrite zeroed_ld8, decide_False by done. by apply Hm1. }
  destruct (vminv_ext s (zeroed pg s1) (pg :: l') l' own Hi Hkz) as [Hiz Hsame].
  { intros q x Hq Hin. apply (vi_free _ _ _ _ Hi _ _ Hq). by right. }
  { intros q x b Hq Hb. apply Hmz. apply (pages_disjoint kend q); [by eapply (vi_valid _ _ _ _ Hi)|done| |done].
    intros ->. congruence. }
  assert (∀ va, 0 <= va < TRAPFRAME → pte_at root va (zeroed pg s1) = pte_at root va s) as Hpte.
  { intros va Hva. apply Hsame. by apply root_node; [|apply tf_lt]. }
  pose proof (valid_page_page kend pg Hend Hvp) as [Hpg1 Hpg2].
  destruct (mappages_loop_spec kend Hend 0 root a pg perm (zeroed pg s1) l' own)
    as (k & r & s2 & l2 & own2 & Heq & Hi2 & Hsub & [used ->] & Hnew & Hm2 & Hres & Hf2);
    [done|done|done|lia|change MAXVA with 274877906944; change TRAPFRAME with 274877898752 in Hr; mlia|done|lia| |done| |].
  { destruct Hvp as (? & Hb & _). unfold PHYSTOP, KERNBASE in Hb. change (2 ^ 56) with 72057594037927936. lia. }
  { intros va Hva. rewrite (vpn_same root va a) by (rewrite !vpn0; mlia). rewrite Hpte by done.
    apply not_true_is_false. apply (um_top _ _ _ _ _ Hu a); lia. }
  rewrite Z.mul_0_l, Z.add_0_r in Heq.
  exists r, s2, l2, own2. unfold mappages. change PGSIZE with 4096. rewrite Ha. cbn [Z.eqb negb].
  replace (u64 (a + 4096 - 4096)) with a by (rewrite u64_small; change TRAPFRAME with 274877898752 in Hr; lia).
  change (Z.to_nat (4096 / 4096)) with 1%nat. cbn [Z.modulo Z.div_eucl] . 
  split; [exact Heq|]. split; [exact Hi2|].
  assert (own2 !! pg = None) as Hp2.
  { destruct (own2 !! pg) as [x|] eqn:Hx; [|done]. apply Hnew in Hx as [?|?]; [congruence|done]. }
  assert (∀ b, in_page pg b → ld8 (km s2) b = 0) as Hz.
  { intros b Hb. rewrite Hf2, zeroed_ld8, decide_True; [done..| |].
    - intros q Hq. apply (pages_disjoint kend pg); [done| | |done].
      + pose proof Hkz as (_ & _ & _ & Hv). by eapply Forall_forall in Hv.
      + intros ->. done.
    - intros q x Hq. apply (pages_disjoint kend pg); [done|by eapply (vi_valid _ _ _ _ Hiz)| |done]. congruence. }
  split; [by eapply lookup_weaken|]. split; [done|].
  split; [by apply not_elem_of_app in Hpl as [_ ?]|]. split; [done|]. split; [done|].
  assert (∀ va, 0 <= va < TRAPFRAME → mapped root va s → frame_of root va s ≠ pg ∧ frame_of root va s ∉ used ++ l2 ∧
    own !! frame_of root va s = None ∧ valid_page kend (frame_of root va s)) as Hfr.
  { intros va Hva Hm. destruct (um_frame _ _ _ _ _ Hu va Hva Hm) as (Hvf & Hnl & Ho).
    apply not_elem_of_cons in Hnl as [Hn Hl]. by split_and!. }
  split; [|split; [|lia]].
  - intros va Hva Hm. destruct (Hfr va Hva Hm) as (Hn & Hl & Ho & _). pose proof Hl as [_ Hl2]%not_elem_of_app. split_and!; [done..|].
    destruct (own2 !! frame_of root va s) as [x|] eqn:Hx; [|done]. apply Hnew in Hx as [?|?]; [congruence|done].
  - intros va Hva. pose proof (Hm2 va (tf_lt _ Hva)) as Hv.
    destruct (decide (r = 0 ∧ vpn 0 va = vpn 0 a)) as [Hd|Hd].
    + destruct Hd as [Hr0 Hd]. rewrite decide_True in Hv by lia. rewrite Hv. f_equal. lia.
    + split.
      * rewrite decide_False in Hv by lia. rewrite Hv. by apply Hpte.
      * intros Hm b Hb. destruct (Hfr va Hva Hm) as (Hn & Hl & Ho & Hvf). rewrite Hf2.
        -- apply Hmz. by apply (pages_disjoint kend (frame_of root va s)).
        -- intros q Hq. apply (pages_disjoint kend (frame_of root va s)); [done| | |done].
           ++ pose proof Hkz as (_ & _ & _ & Hvl). by eapply Forall_forall in Hvl.
           ++ intros <-. done.
        -- intros q x Hq. apply (pages_disjoint kend (frame_of root va s)); [done|by eapply (vi_valid _ _ _ _ Hi)| |done].
           congruence.
Qed.

Lemma roundup_aligned a : 0 <= a <= TRAPFRAME → a mod 4096 = 0 → PGROUNDUP a = a.
Proof. intros Ha Hm. destruct (roundup a Ha) as (? & ? & _). mlia. Qed.

(** The page at [a] is now mapped to the frame [pg]. *)
Lemma uvm_add root a perm s l own s2 l2 own2 pg :
  uvm root a s l own → a mod 4096 = 0 → 0 <= a < TRAPFRAME → 0 <= perm < 1024 →
  vminv kend s2 l2 own2 → root_of root own2 → valid_page kend pg → pg ∉ l2 → own2 !! pg = None →
  (∀ va, 0 <= va < TRAPFRAME → mapped root va s → frame_of root va s ≠ pg ∧ frame_of root va s ∉ l2 ∧
       own2 !! frame_of root va s = None) →
  (∀ va, 0 <= va < TRAPFRAME →
     if decide (vpn 0 va = vpn 0 a) then pte_at root va s2 = pte_of pg perm else same_page root va s s2) →
  uvm root (a + 4096) s2 l2 own2.
Proof.
  intros Hu Ha Hr Hp Hi2 Hr2 Hvp Hnl Hno Hold Hnew.
  assert (∀ va, 0 <= va < TRAPFRAME → mapped root va s2 →
    (vpn 0 va = vpn 0 a ∧ frame_of root va s2 = pg) ∨
    (vpn 0 va ≠ vpn 0 a ∧ mapped root va s ∧ frame_of root va s2 = frame_of root va s)) as Hm.
  { intros va Hva Hm. specialize (Hnew va Hva). case_decide as Hd.
    - left. split; [done|]. unfold frame_of. by rewrite Hnew, frame_fresh.
    - right. split; [done|]. split; [by apply (same_page_mapped _ _ _ _ Hnew)|]. unfold frame_of. by destruct Hnew as [-> _]. }
  split; [done|done| | |].
  - intros va Hva [[_ ->]|(Hn & Hms & ->)]%Hm; [done| |done].
    destruct (um_frame _ _ _ _ _ Hu va Hva Hms) as (? & _ & _), (Hold va Hva Hms) as (_ & ? & ?). done.
  - intros va va' Hva Hva' Hm1 Hm2 He.
    destruct (Hm va Hva Hm1) as [[E1 F1]|(N1 & M1 & F1)], (Hm va' Hva' Hm2) as [[E2 F2]|(N2 & M2 & F2)].
    + congruence.
    + destruct (Hold va' Hva' M2). congruence.
    + destruct (Hold va Hva M1). congruence.
    + rewrite F1, F2 in He. exact (um_inj _ _ _ _ _ Hu va va' Hva Hva' M1 M2 He).
  - intros va H0 Hva Hm1. assert (0 <= a + 4096 <= TRAPFRAME) as Hb.
    { split; [lia|]. change TRAPFRAME with 274877898752 in *. mlia. }
    rewrite roundup_aligned in Hva by (done || mlia).
    destruct (Hm va ltac:(lia) Hm1) as [[E1 _]|(_ & M1 & _)].
    + rewrite !vpn0 in E1. mlia.
    + apply (um_top _ _ _ _ _ Hu va H0); [|done]. rewrite roundup_aligned by (done || lia). lia.
Qed.

(** The invariant counts whole pages. *)
Lemma uvm_size root sz sz' s l own : uvm root sz s l own → PGROUNDUP sz' = PGROUNDUP sz → uvm root sz' s l own.
Proof. intros Hu He. split; try apply Hu. rewrite He. apply Hu. Qed.

(** The pages of [[a, new)] are new, the others as before. *)
Definition regrown (root a new perm : Z) s s' : Prop := ∀ va, 0 <= va < TRAPFRAME →
  if decide (a <= va < PGROUNDUP new) then fresh_page root va perm s' else same_page root va s s'.

Lemma alloc_undo root base a s l own s1 : uvm root a s l own → a mod 4096 = 0 → base mod 4096 = 0 →
  0 <= base <= a → a <= TRAPFRAME → (∀ va, 0 <= va < TRAPFRAME → va < base → same_page root va s1 s) →
  ∃ r s' l', ('(_, s) ← uvmdealloc kend root a base s; Ok (0, s)) = Ok (r, s') ∧ r = 0 ∧
    uvm root base s' l' own ∧ ∀ va, 0 <= va < TRAPFRAME → va < base → same_page root va s1 s'.
Proof.
  intros Hu Ha Hb H0 Ht Hs. destruct (uvmdealloc_ok root a base s l own Hu) as (s' & l' & -> & Hu' & Hk); [lia|lia|].
  rewrite Z.min_r in * by lia. cbn [mbind res_bind]. exists 0, s', l'. split_and!; [done..|].
  intros va Hva Hlt. eapply same_page_trans; [by apply Hs|]. apply Hk; [done|].
  by rewrite roundup_aligned by (done || lia).
Qed.

Lemma uvmalloc_loop_ok f : ∀ root base a new xperm s l own,
  uvm root a s l own → a mod 4096 = 0 → base mod 4096 = 0 → 0 <= base <= a → a <= TRAPFRAME →
  0 <= new <= TRAPFRAME → new - a <= Z.of_nat f * 4096 → 0 <= Z.lor (Z.lor PTE_R PTE_U) xperm < 1024 →
  ∃ r s' l' own', uvmalloc_loop kend f root base a new xperm s = Ok (r, s') ∧
    ((r = new ∧ uvm root (Z.max a new) s' l' own' ∧ regrown root a new (Z.lor (Z.lor PTE_R PTE_U) xperm) s s') ∨
     (r = 0 ∧ uvm root base s' l' own' ∧ ∀ va, 0 <= va < TRAPFRAME → va < base → same_page root va s s')).
Proof.
  induction f as [|f IH]; intros root base a new xperm s l own Hu Ha Hb H0 Ht Hn Hf Hp; cbn [uvmalloc_loop];
    destruct (Z.ltb_spec a new) as [Hlt|Hge]; try lia.
  1,3: exists new, s, l, own; split; [done|]; left; split; [done|]; rewrite Z.max_l by done; split; [done|];
    intros va Hva; rewrite decide_False; [apply same_page_refl|];
    pose proof (roundup new Hn) as (? & ? & _); mlia.
  destruct (kalloc s) as [pg s1] eqn:Hk. set (perm := Z.lor (Z.lor PTE_R PTE_U) xperm) in *.
  destruct (Z.eqb_spec pg 0) as [->|Hne].
  { assert (s1 = s) as ->.
    { pose proof (vi_k _ _ _ _ (um_inv _ _ _ _ _ Hu)) as Hki. destruct l as [|q l'].
      - rewrite (kalloc_empty kend) in Hk by done. by injection Hk.
      - destruct (kalloc_cons kend s q l' Hki) as (s2 & Hk2 & _). rewrite Hk2 in Hk. injection Hk as -> _.
        pose proof Hki as (_ & _ & _ & Hv). apply Forall_cons in Hv as [(_ & _ & ?) _]. lia. }
    destruct (alloc_undo root base a s l own s Hu Ha Hb H0 Ht) as (r & s' & l' & -> & -> & Hu' & Hs');
      [intros; apply same_page_refl|]. exists 0, s', l', own. split; [done|]. by right. }
  destruct (alloc_page root a a perm s l own pg s1) as (r & s2 & l2 & own2 & Hm & Hi2 & Hr2 & Hvp & Hnl & Hno & Hz & Hold & Hnew & Hr);
    [done|done|rewrite roundup_aligned by (done || lia); lia|lia|done|done|done|].
  fold (zeroed pg s1). rewrite Hm. cbn [mbind res_bind]. destruct (Z.eqb_spec r 0) as [->|Hr0]; cbn [negb].
  - assert (uvm root (a + 4096) s2 l2 own2) as Hu2.
    { eapply uvm_add; try done; [lia|]. intros va Hva. specialize (Hnew va Hva).
      destruct (decide (vpn 0 va = vpn 0 a)); [by rewrite decide_True in Hnew|by rewrite decide_False in Hnew by tauto]. }
    change TRAPFRAME with 274877898752 in *. change PGSIZE with 4096. rewrite u64_small by lia.
    destruct (IH root base (a + 4096) new xperm s2 l2 own2 Hu2)
      as (r' & s' & l' & own' & -> & Hres); [mlia|done|lia|change TRAPFRAME with 274877898752; mlia|done|lia|done|].
    exists r', s', l', own'. split; [done|].
    assert (∀ va, 0 <= va < TRAPFRAME → vpn 0 va ≠ vpn 0 a → same_page root va s s2) as Hs2.
    { intros va Hva Hd. specialize (Hnew va Hva). by rewrite decide_False in Hnew by tauto. }
    destruct Hres as [(-> & Hu' & Hg)|(-> & Hu' & Hs')]; [left|right].
    + split; [done|]. pose proof (roundup new ltac:(change TRAPFRAME with 274877898752; lia)) as (Mn & Bn & _).
      split.
      * eapply uvm_size; [exact Hu'|]. rewrite Z.max_r by lia. destruct (Z.max_spec (a + 4096) new) as [[_ ->]|[? ->]]; [done|].
        rewrite (roundup_aligned (a + 4096)) by (change TRAPFRAME with 274877898752; mlia). mlia.
      * intros va Hva. specialize (Hg va Hva). fold perm in Hg.
        destruct (decide (vpn 0 va = vpn 0 a)) as [Hd|Hd].
        -- assert (a <= va < a + 4096) by (rewrite !vpn0 in Hd; mlia). rewrite decide_True by mlia.
           rewrite decide_False in Hg by lia. eapply fresh_page_same; [done| |exact Hg].
           specialize (Hnew va Hva). rewrite decide_True in Hnew by done. by exists pg.
        -- assert (¬ (a <= va < a + 4096)) by (intros ?; apply Hd; rewrite !vpn0; mlia).
           destruct (decide (a + 4096 <= va < PGROUNDUP new)).
           ++ by rewrite decide_True by lia.
           ++ rewrite decide_False by lia. eapply same_page_trans; [by apply Hs2|done].
    + split; [done|]. split; [done|]. intros va Hva Hlt'. eapply same_page_trans; [apply Hs2|by apply Hs']; [done|].
      rewrite !vpn0. mlia.
  - destruct Hr as [?|Hr]; [done|].
    destruct (kfree_spec kend pg s2 l2) as (s3 & -> & Hk3 & Hm3); [apply Hi2|done|done|]. cbn [mbind res_bind].
    destruct (vminv_ext s2 s3 l2 (pg :: l2) own2 Hi2 Hk3) as [Hi3 Hsame].
    { intros q x Hq [->|Hin]%elem_of_cons; [congruence|]. by apply (vi_free _ _ _ _ Hi2 _ _ Hq). }
    { intros q x b Hq Hb'. apply Hm3. apply (pages_disjoint kend q); [by eapply (vi_valid _ _ _ _ Hi2)|done| |done].
      intros ->. congruence. }
    assert (∀ va, 0 <= va < TRAPFRAME → same_page root va s s3) as Hs3.
    { intros va Hva. specialize (Hnew va Hva). rewrite decide_False in Hnew by tauto. destruct Hnew as [E B].
      split; [rewrite <-E; apply Hsame; by apply root_node; [|apply tf_lt]|].
      intros Hms b Hb'. destruct (Hold va Hva Hms) as (Hfp & _), (um_frame _ _ _ _ _ Hu va Hva Hms) as (Hvf & _).
      rewrite Hm3; [by apply B|]. by apply (pages_disjoint kend (frame_of root va s)). }
    assert (uvm root a s3 (pg :: l2) own2) as Hu3.
    { split; [done|done| | |].
      - intros va Hva Hm'. destruct (Hs3 va Hva) as [E _]. unfold mapped, frame_of in *. rewrite E in *.
        destruct (Hold va Hva Hm') as (? & ? & ?), (um_frame _ _ _ _ _ Hu va Hva Hm') as (? & _). unfold frame_of in *.
        split_and!; [done|by apply not_elem_of_cons|done].
      - intros va va' Hva Hva'. destruct (Hs3 va Hva) as [E _], (Hs3 va' Hva') as [E' _].
        unfold mapped, frame_of. rewrite E, E'. by apply (um_inj _ _ _ _ _ Hu).
      - intros va Hva0 Hva. rewrite (same_page_mapped _ _ _ _ (Hs3 va ltac:(pose proof (roundup a ltac:(lia)); lia))).
        by apply (um_top _ _ _ _ _ Hu). }
    destruct (alloc_undo root base a s3 (pg :: l2) own2 s Hu3 Ha Hb H0 Ht) as (r' & s' & l' & -> & -> & Hu' & Hs');
      [intros va Hva _; by apply Hs3|]. exists 0, s', l', own2. split; [done|]. by right.
Qed.

Lemma uvmalloc_ok root old new xperm s l own :
  uvm root old s l own → 0 <= old <= TRAPFRAME → old <= new <= TRAPFRAME →
  0 <= Z.lor (Z.lor PTE_R PTE_U) xperm < 1024 →
  ∃ r s' l' own', uvmalloc kend root old new xperm s = Ok (r, s') ∧
    ((r = new ∧ uvm root new s' l' own' ∧
      regrown root (PGROUNDUP old) new (Z.lor (Z.lor PTE_R PTE_U) xperm) s s') ∨
     (r = 0 ∧ uvm root old s' l' own' ∧ kept root old s s')).
Proof.
  intros Hu Ho Hn Hp. unfold uvmalloc. rewrite (proj2 (Z.ltb_ge _ _)) by lia.
  destruct (roundup old Ho) as (Mo & Bo & To). destruct (roundup new ltac:(lia)) as (Mn & Bn & Tn).
  assert (PGROUNDUP (PGROUNDUP old) = PGROUNDUP old) as Hrr by (apply roundup_aligned; [lia|done]).
  assert (uvm root (PGROUNDUP old) s l own) as Hu' by (by eapply uvm_size).
  destruct (uvmalloc_loop_ok (Z.to_nat ((new - PGROUNDUP old) / PGSIZE + 1)) root (PGROUNDUP old) (PGROUNDUP old) new
    xperm s l own Hu') as (r & s' & l' & own' & -> & [(-> & Hr & Hg)|(-> & Hr & Hs)]);
    try done; try lia; [change PGSIZE with 4096; mlia|..].
  - exists new, s', l', own'. split; [done|]. left. split; [done|]. split; [|done].
    eapply uvm_size; [exact Hr|]. destruct (Z.max_spec (PGROUNDUP old) new) as [[_ ->]|[? ->]]; [done|].
    rewrite Hrr. mlia.
  - exists 0, s', l', own'. split; [done|]. right. split; [done|]. split; [by eapply uvm_size|].
    intros va Hva Hlt. by apply Hs.
Qed.
End uvm.
