(* ===== verification/Spinlock.v ===== *)
(** * spinlock.c: spin locks and nested interrupt disabling

    Per-CPU state is [noff], [intena] and the interrupt-enable bit of
    [sstatus].  [acquire] and [release] are sequences of atomic actions on the
    shared lock; [spin_step] interleaves the actions of all CPUs, so that the
    test-and-set loop and the separate stores to [lk->cpu] and [lk->locked]
    are visible. *)
From S2P Require Import Prelude.

Record cpu := mkCpu { noff : Z; intena : Z; sie : bool }.

Definition intr_get (c : cpu) : Z := if sie c then 1 else 0.
Definition intr_off (c : cpu) : cpu := mkCpu (noff c) (intena c) false.
Definition intr_on (c : cpu) : cpu := mkCpu (noff c) (intena c) true.

Definition push_off (c : cpu) : cpu :=
  let old := intr_get c in
  let c := intr_off c in
  let c := if noff c =? 0 then mkCpu (noff c) old (sie c) else c in
  mkCpu (noff c + 1) (intena c) (sie c).

Definition pop_off (c : cpu) : res cpu :=
  if negb (intr_get c =? 0) then Panic "pop_off - interruptible"
  else if noff c <? 1 then Panic "pop_off"
  else
    let c := mkCpu (noff c - 1) (intena c) (sie c) in
    Ok (if (noff c =? 0) && negb (intena c =? 0) then intr_on c else c).

(** [struct spinlock]; [lcpu] is an index into [cpus], [None] the null pointer. *)
Record spinlock := mkLk { locked : Z; lcpu : option nat }.

Definition initlock : spinlock := mkLk 0 None.

Definition holding (lk : spinlock) (me : nat) : bool :=
  negb (locked lk =? 0) && bool_decide (lcpu lk = Some me).

(** [__sync_lock_test_and_set(&lk->locked, 1)]: the old value. *)
Definition test_and_set (lk : spinlock) : Z * spinlock := (locked lk, mkLk 1 (lcpu lk)).

(** Program counter of a CPU: outside; in [acquire] before the [holding] check,
    at the test-and-set, after it; in the critical section; in [release] after
    the [holding] check, before the store to [locked], before [pop_off]. *)
Inductive lpc := LOut | LCheck | LSpin | LGot | LHeld | LRelCpu | LRelLock | LPop | LPanic (msg : string).

(** The next atomic action of [acquire] or [release] of CPU [me]. *)
Definition lock_step (me : nat) (pc : lpc) (c : cpu) (lk : spinlock) : lpc * cpu * spinlock :=
  match pc with
  | LOut => (LCheck, push_off c, lk)
  | LCheck => if holding lk me then (LPanic "acquire", c, lk) else (LSpin, c, lk)
  | LSpin => let '(old, lk) := test_and_set lk in
             if negb (old =? 0) then (LSpin, c, lk) else (LGot, c, lk)
  | LGot => (LHeld, c, mkLk (locked lk) (Some me))
  | LHeld => if negb (holding lk me) then (LPanic "release", c, lk) else (LRelCpu, c, lk)
  | LRelCpu => (LRelLock, c, mkLk (locked lk) None)
  | LRelLock => (LPop, c, mkLk 0 (lcpu lk))
  | LPop => match pop_off c with
            | Ok c => (LOut, c, lk)
            | Panic s => (LPanic s, c, lk)
            | NoFuel => (LPop, c, lk)
            end
  | LPanic s => (LPanic s, c, lk)
  end.

Record spins := mkSp { sp_lk : spinlock; sp_cpus : list (lpc * cpu) }.

(** CPU [i] makes its next step. *)
Inductive spin_step : spins → spins → Prop :=
| spin_cpu x i pc c pc' c' lk' :
    sp_cpus x !! i = Some (pc, c) → lock_step i pc c (sp_lk x) = (pc', c', lk') →
    spin_step x (mkSp lk' (<[i := (pc', c')]> (sp_cpus x))).

(** ** Interrupt nesting *)
Definition cpu_ok (c : cpu) : Prop := 0 <= noff c ∧ (0 < noff c → sie c = false).

Lemma push_off_ok c : cpu_ok c → cpu_ok (push_off c) ∧ 1 <= noff (push_off c).
Proof. unfold cpu_ok, push_off. intros [? ?]. simpl. case_match; simpl; split_and!; done || lia. Qed.

(** [pop_off] undoes [push_off] exactly, except that the saved [intena] may stay. *)
Lemma pop_push c :
  cpu_ok c → ∃ c', pop_off (push_off c) = Ok c' ∧ noff c' = noff c ∧ sie c' = sie c ∧
    (0 < noff c → intena c' = intena c).
Proof.
  intros [Hn Hs]. unfold push_off, pop_off, intr_get, intr_off. simpl.
  destruct (Z.eqb_spec (noff c) 0) as [H0|H0]; simpl.
  - rewrite H0. simpl. destruct (sie c) eqn:Hsie; simpl; eexists; split_and!; done || lia.
  - destruct (Z.ltb_spec (noff c + 1) 1); [lia|]. destruct (Z.eqb_spec (noff c + 1 - 1) 0); [lia|].
    simpl. eexists. split; [done|]. simpl. split_and!; [lia|rewrite Hs by lia; done|done].
Qed.

(** ** Mutual exclusion *)
Definition owns (pc : lpc) : bool :=
  match pc with LGot | LHeld | LRelCpu | LRelLock => true | _ => false end.
Definition named (pc : lpc) : bool := match pc with LHeld | LRelCpu => true | _ => false end.
Definition inside (pc : lpc) : bool := match pc with LOut | LPanic _ => false | _ => true end.

Record spin_inv (x : spins) : Prop := {
  si_locked : locked (sp_lk x) = 0 ∨ locked (sp_lk x) = 1;
  si_owner : ∀ i pc c, sp_cpus x !! i = Some (pc, c) → owns pc = true → locked (sp_lk x) = 1;
  si_unique : ∀ i j pc c pc' c', sp_cpus x !! i = Some (pc, c) → sp_cpus x !! j = Some (pc', c') →
    owns pc = true → owns pc' = true → i = j;
  si_cpu : ∀ i, lcpu (sp_lk x) = Some i ↔ ∃ pc c, sp_cpus x !! i = Some (pc, c) ∧ named pc = true;
  si_noff : ∀ i pc c, sp_cpus x !! i = Some (pc, c) →
    cpu_ok c ∧ (inside pc = true → 1 <= noff c) ∧ (∀ s, pc ≠ LPanic s)
}.

Lemma named_owns pc : named pc = true → owns pc = true.
Proof. by destruct pc. Qed.

(** An invariant-preserving change of one CPU that keeps its role. *)
Lemma spin_local x i pc c pc' c' :
  spin_inv x → sp_cpus x !! i = Some (pc, c) → owns pc' = owns pc → named pc' = named pc →
  cpu_ok c' → (inside pc' = true → 1 <= noff c') → (∀ s, pc' ≠ LPanic s) →
  spin_inv (mkSp (sp_lk x) (<[i := (pc', c')]> (sp_cpus x))).
Proof.
  intros Hi Hx Ho Hn Hc Hin Hp.
  assert (∀ j q d, <[i := (pc', c')]> (sp_cpus x) !! j = Some (q, d) →
    (j = i ∧ q = pc' ∧ d = c') ∨ (j ≠ i ∧ sp_cpus x !! j = Some (q, d))) as Hl.
  { intros j q d [(-> & [= -> ->] & _)|[? ?]]%list_lookup_insert_Some; auto. }
  split; simpl.
  - apply Hi.
  - intros j q d [(-> & -> & ->)|[_ Hj]]%Hl Hq; [|by eapply si_owner].
    rewrite Ho in Hq. by eapply si_owner.
  - intros j k q d q' d' Hj Hk Hq Hq'.
    apply Hl in Hj as [(-> & -> & ->)|[_ Hj]], Hk as [(-> & -> & ->)|[_ Hk]]; try done;
      rewrite ?Ho in *; by eapply si_unique.
  - intros j. rewrite (si_cpu _ Hi). split.
    + intros (q & d & Hj & Hq). destruct (decide (j = i)) as [->|Hne].
      * exists pc', c'. rewrite list_lookup_insert_eq by by eapply lookup_lt_Some.
        split; [done|]. congruence.
      * exists q, d. by rewrite list_lookup_insert_ne.
    + intros (q & d & [(-> & -> & ->)|[_ Hj]]%Hl & Hq); [|by eauto].
      exists pc, c. split; [done|congruence].
  - intros j q d [(-> & -> & ->)|[_ Hj]]%Hl; [done|]. by eapply si_noff.
Qed.

(** A change of the lock while no other CPU owns it. *)
Lemma spin_exclusive x i pc c pc' c' lk' :
  spin_inv x → sp_cpus x !! i = Some (pc, c) →
  (∀ j q d, j ≠ i → sp_cpus x !! j = Some (q, d) → owns q = false) →
  (locked lk' = 0 ∨ locked lk' = 1) → (owns pc' = true → locked lk' = 1) →
  lcpu lk' = (if named pc' then Some i else None) →
  cpu_ok c' → (inside pc' = true → 1 <= noff c') → (∀ s, pc' ≠ LPanic s) →
  spin_inv (mkSp lk' (<[i := (pc', c')]> (sp_cpus x))).
Proof.
  intros Hi Hx Hex Hl01 Ho Hcpu Hc Hin Hp.
  assert (∀ j q d, <[i := (pc', c')]> (sp_cpus x) !! j = Some (q, d) →
    (j = i ∧ q = pc' ∧ d = c') ∨ (j ≠ i ∧ sp_cpus x !! j = Some (q, d))) as Hl.
  { intros j q d [(-> & [= -> ->] & _)|[? ?]]%list_lookup_insert_Some; auto. }
  split; simpl; [done| | | |].
  - intros j q d [(-> & -> & ->)|[Hne Hj]]%Hl Hq; [auto|]. by rewrite (Hex _ _ _ Hne Hj) in Hq.
  - intros j k q d q' d' Hj Hk Hq Hq'.
    apply Hl in Hj as [(-> & -> & ->)|[Hne Hj]]; [|by rewrite (Hex _ _ _ Hne Hj) in Hq].
    apply Hl in Hk as [(-> & -> & ->)|[Hne Hk]]; [done|by rewrite (Hex _ _ _ Hne Hk) in Hq'].
  - intros j. rewrite Hcpu. split.
    + destruct (named pc') eqn:Hn; [|done]. intros [= <-]. exists pc', c'.
      split; [|done]. apply list_lookup_insert_eq. by eapply lookup_lt_Some.
    + intros (q & d & [(-> & -> & ->)|[Hne Hj]]%Hl & Hq); [by rewrite Hq|].
      apply named_owns in Hq. by rewrite (Hex _ _ _ Hne Hj) in Hq.
  - intros j q d [(-> & -> & ->)|[_ Hj]]%Hl; [done|]. by eapply si_noff.
Qed.

Lemma free_no_owner x j q d :
  spin_inv x → locked (sp_lk x) = 0 → sp_cpus x !! j = Some (q, d) → owns q = false.
Proof.
  intros Hi H0 Hj. destruct (owns q) eqn:Ho; [|done].
  pose proof (si_owner _ Hi _ _ _ Hj Ho). lia.
Qed.

Lemma owner_excludes x i pc c j q d :
  spin_inv x → sp_cpus x !! i = Some (pc, c) → owns pc = true → j ≠ i →
  sp_cpus x !! j = Some (q, d) → owns q = false.
Proof.
  intros Hi Hx Ho Hne Hj. destruct (owns q) eqn:Hq; [|done].
  destruct Hne. by eapply si_unique.
Qed.

Lemma holding_iff x i pc c :
  spin_inv x → sp_cpus x !! i = Some (pc, c) → holding (sp_lk x) i = named pc.
Proof.
  intros Hi Hx. unfold holding. destruct (named pc) eqn:Hn.
  - rewrite (si_owner _ Hi _ _ _ Hx (named_owns _ Hn)). simpl. apply bool_decide_eq_true.
    apply (si_cpu _ Hi). eauto.
  - apply andb_false_iff. right. apply bool_decide_eq_false.
    intros (q & d & Hj & Hq)%(si_cpu _ Hi). congruence.
Qed.

Lemma free_no_name x : spin_inv x → locked (sp_lk x) = 0 → lcpu (sp_lk x) = None.
Proof.
  intros Hi H0. destruct (lcpu (sp_lk x)) as [j|] eqn:Hl; [|done]. exfalso.
  apply (si_cpu _ Hi) in Hl as (q & d & Hj & Hq%named_owns).
  by rewrite (free_no_owner _ _ _ _ Hi H0 Hj) in Hq.
Qed.

Lemma spin_inv_step x y : spin_inv x → spin_step x y → spin_inv y.
Proof.
  intros Hi Hstep. destruct Hstep as [x' i pc c pc' c' lk' Hx Hst]. destruct (si_noff _ Hi _ _ _ Hx) as (Hok & Hin & Hnp).
  pose proof (holding_iff _ _ _ _ Hi Hx) as Hh.
  destruct pc; simpl in Hst, Hh, Hin; try rewrite Hh in Hst; simpl in Hst; simplify_eq.
  - destruct (push_off_ok _ Hok). by eapply spin_local.
  - by eapply spin_local.
  - destruct (Z.eqb_spec (locked (sp_lk x')) 0) as [H0|H0]; simpl in Hst; simplify_eq.
    + eapply spin_exclusive; simpl; try done; [|by right|by rewrite free_no_name].
      intros j q d _. by eapply free_no_owner.
    + assert (mkLk 1 (lcpu (sp_lk x')) = sp_lk x') as ->.
      { destruct (si_locked _ Hi) as [?|H1]; [done|]. destruct (sp_lk x'). simpl in *. by subst. }
      by eapply spin_local.
  - eapply spin_exclusive; simpl; try done; [|apply Hi|intros _].
    + intros j q d Hne Hj. by apply (owner_excludes _ _ _ _ _ _ _ Hi Hx eq_refl Hne Hj).
    + by eapply si_owner.
  - by eapply spin_local.
  - eapply spin_exclusive; simpl; try done; [|apply Hi|intros _].
    + intros j q d Hne Hj. by apply (owner_excludes _ _ _ _ _ _ _ Hi Hx eq_refl Hne Hj).
    + by eapply si_owner.
  - eapply spin_exclusive; simpl; try done; [|by left|].
    + intros j q d Hne Hj. by apply (owner_excludes _ _ _ _ _ _ _ Hi Hx eq_refl Hne Hj).
    + destruct (lcpu (sp_lk x')) as [j|] eqn:Hl; [|done]. exfalso.
      apply (si_cpu _ Hi) in Hl as (q & d & Hj & Hq).
      assert (j = i) as -> by (eapply si_unique; eauto using named_owns). by simplify_eq.
  - specialize (Hin eq_refl). destruct Hok as [Hn Hs]. unfold pop_off, intr_get in Hst.
    rewrite Hs in Hst by lia. simpl in Hst. destruct (Z.ltb_spec (noff c) 1); [lia|].
    simplify_eq. eapply spin_local; try done.
    unfold cpu_ok, intr_on. destruct (Z.eqb_spec (noff c - 1) 0); simpl; [case_match; simpl|];
      (split; [lia|]; intros; try lia); apply Hs; lia.
  - by destruct (Hnp msg).
Qed.

(** All CPUs outside, the lock free. *)
Definition spin_init (x : spins) : Prop :=
  sp_lk x = initlock ∧ ∀ i pc c, sp_cpus x !! i = Some (pc, c) → pc = LOut ∧ cpu_ok c.

Lemma spin_init_inv x : spin_init x → spin_inv x.
Proof.
  intros [Hl Hc]. assert (∀ i pc c, sp_cpus x !! i = Some (pc, c) → pc = LOut) as Ho.
  { intros i pc c Hx. by destruct (Hc _ _ _ Hx). }
  split; rewrite ?Hl; simpl.
  - by left.
  - intros i pc c ->%Ho. done.
  - intros i j pc c pc' c' ->%Ho _. done.
  - intros i. split; [done|]. intros (pc & c & ->%Ho & ?). done.
  - intros i pc c Hx. destruct (Hc _ _ _ Hx) as [-> ?]. done.
Qed.

(** ** Properties *)

(** C10: spin locks exclude each other and never panic: in every interleaving of
    the atomic actions of [acquire] and [release] on any number of CPUs, at most
    one CPU is between its successful test-and-set and its store of 0, the lock
    word is 1 while it is there, interrupts are off on every CPU inside the two
    functions or the critical section, and no CPU reaches a panic. *)
Theorem spinlock_mutex (x0 x : spins) :
  spin_init x0 → rtc spin_step x0 x →
  (∀ i j pc c pc' c', sp_cpus x !! i = Some (pc, c) → sp_cpus x !! j = Some (pc', c') →
     owns pc = true → owns pc' = true → i = j) ∧
  (∀ i pc c, sp_cpus x !! i = Some (pc, c) →
     (owns pc = true → locked (sp_lk x) = 1) ∧ (inside pc = true → sie c = false) ∧
     (∀ s, pc ≠ LPanic s)).
Proof.
  intros H0 Hst. assert (spin_inv x) as Hi.
  { eapply rtc_invariant; [|exact Hst|by apply spin_init_inv]. intros a b. apply spin_inv_step. }
  split; [apply Hi|]. intros i pc c Hx. destruct (si_noff _ Hi _ _ _ Hx) as (Hok & Hin & Hp).
  split_and!; [by eapply si_owner| |done]. intros Hins. apply Hok. specialize (Hin Hins). lia.
Qed.

(** The calls of a balanced sequence of [push_off] and [pop_off]. *)
Inductive balanced : list bool → Prop :=
| bal_nil : balanced []
| bal_nest w : balanced w → balanced (true :: w ++ [false])
| bal_app w w' : balanced w → balanced w' → balanced (w ++ w').

Definition off_step (c : res cpu) (push : bool) : res cpu :=
  c ← c; if push then Ok (push_off c) else pop_off c.

Definition same_intr (c c' : cpu) : Prop :=
  noff c' = noff c ∧ sie c' = sie c ∧ (0 < noff c → intena c' = intena c).

Lemma pop_same c c1 :
  cpu_ok c → same_intr (push_off c) c1 →
  ∃ c', pop_off c1 = Ok c' ∧ same_intr c c'.
Proof.
  intros Hok (Hn & Hs & He). destruct (push_off_ok _ Hok) as [_ H1].
  assert (c1 = push_off c) as ->.
  { destruct c1, (push_off c). simpl in *. f_equal; try done. apply He. lia. }
  destruct (pop_push _ Hok) as (c' & Hp & ? & ? & ?). by exists c'.
Qed.

(** [push_off] and [pop_off] match: running any balanced sequence of them
    from a state where [noff > 0] implies interrupts off succeeds and leaves the
    nesting depth and the interrupt-enable bit as they were. *)
Theorem push_pop_balanced (w : list bool) (c : cpu) :
  balanced w → cpu_ok c → ∃ c', foldl off_step (Ok c) w = Ok c' ∧ same_intr c c'.
Proof.
  intros Hw. revert c. induction Hw as [|w Hw IH|w w' Hw IH Hw' IH']; intros c Hok.
  - by exists c.
  - simpl. rewrite foldl_app. destruct (push_off_ok _ Hok) as [Hok1 _].
    destruct (IH _ Hok1) as (c1 & -> & Hs). simpl.
    by apply pop_same.
  - rewrite foldl_app. destruct (IH _ Hok) as (c1 & -> & Hn & Hs & He).
    assert (cpu_ok c1) as Hok1 by (unfold cpu_ok in *; rewrite Hn, Hs; done).
    destruct (IH' _ Hok1) as (c2 & -> & Hn' & Hs' & He').
    exists c2. split; [done|]. split_and!; [congruence|congruence|].
    intros H0. rewrite He', He by lia. done.
Qed.

(** *** Witnesses *)
Definition cpu0 : cpu := mkCpu 0 0 true.
Definition cpus2 : spins := mkSp initlock [(LOut, cpu0); (LOut, cpu0)].

Lemma spinlock_mutex_witness :
  rtc spin_step cpus2 (mkSp initlock [(LCheck, push_off cpu0); (LOut, cpu0)]) ∧
  sie (push_off cpu0) = false.
Proof.
  assert (rtc spin_step cpus2 (mkSp initlock [(LCheck, push_off cpu0); (LOut, cpu0)])) as Hst.
  { apply rtc_once. by apply (spin_cpu cpus2 0 LOut cpu0 LCheck (push_off cpu0) initlock). }
  split; [exact Hst|].
  destruct (spinlock_mutex cpus2 (mkSp initlock [(LCheck, push_off cpu0); (LOut, cpu0)]))
    as [_ Hi]; [|exact Hst|].
  - split; [done|]. intros [|[|i]] pc c Hx; simplify_eq/=; split; done || split; done || lia.
  - by apply (Hi 0%nat LCheck (push_off cpu0)).
Defined.

Lemma push_pop_balanced_witness :
  ∃ c', foldl off_step (Ok cpu0) [true; true; false; false] = Ok c' ∧ same_intr cpu0 c'.
Proof.
  apply (push_pop_balanced [true; true; false; false] cpu0).
  - apply (bal_nest [true; false]), (bal_nest []), bal_nil.
  - split; [done|]. simpl. lia.
Defined.
