(* ===== verification/Bio.v ===== *)
(** * bio.c: the buffer cache

    The doubly linked LRU list is the list [lru] of buffer indices, from
    [head.next] (most recent) to [head.prev]; a buffer's sleep lock is the pid of
    its holder.  Functions run for the process [me]; one that has to wait for a
    buffer lock held by another process does not return ([NoFuel]).
    [virtio_disk_rw] is an atomic transfer of one block; [wlog] records the
    writes in order, for reasoning about crashes. *)
From S2P Require Import Prelude.

Definition MAXOPBLOCKS : Z := 10.
Definition LOGBLOCKS : Z := MAXOPBLOCKS * 3.
Definition NBUF : nat := 30.
Definition BSIZE : Z := 1024.

Abbreviation block := (list Z).

Record buf := mkBuf {
  valid : Z; bdev : Z; blockno : Z; refcnt : Z; bdata : block; bowner : option Z
}.

Definition set_refcnt (v : Z) (b : buf) : buf :=
  mkBuf (valid b) (bdev b) (blockno b) v (bdata b) (bowner b).
Definition set_owner (v : option Z) (b : buf) : buf :=
  mkBuf (valid b) (bdev b) (blockno b) (refcnt b) (bdata b) v.
Definition set_data (v : block) (b : buf) : buf :=
  mkBuf (valid b) (bdev b) (blockno b) (refcnt b) v (bowner b).
Definition set_valid (v : Z) (b : buf) : buf :=
  mkBuf v (bdev b) (blockno b) (refcnt b) (bdata b) (bowner b).

Record bst := mkB { bufs : list buf; lru : list nat; disk : gmap Z block; wlog : list (Z * block) }.

Definition set_bufs (v : list buf) (s : bst) : bst := mkB v (lru s) (disk s) (wlog s).
Definition upd_buf (i : nat) (f : buf → buf) (s : bst) : bst := set_bufs (alter f i (bufs s)) s.

Definition zero_block : block := replicate (Z.to_nat BSIZE) 0.
Definition dget (d : gmap Z block) (blk : Z) : block := default zero_block (d !! blk).

Definition buf0 : buf := mkBuf 0 0 0 0 zero_block None.
Definition getb (s : bst) (i : nat) : buf := default buf0 (bufs s !! i).

(** [binit]: each buffer in turn goes to the front of the list. *)
Definition binit (d : gmap Z block) : bst :=
  mkB (replicate NBUF buf0) (foldl (λ l i, i :: l) [] (seq 0 NBUF)) d [].

Definition acquiresleep (me : Z) (i : nat) (s : bst) : res bst :=
  match bowner (getb s i) with
  | Some _ => NoFuel
  | None => Ok (upd_buf i (set_owner (Some me)) s)
  end.
Definition releasesleep (i : nat) (s : bst) : bst := upd_buf i (set_owner None) s.
Definition holdingsleep (me : Z) (i : nat) (s : bst) : bool :=
  bool_decide (bowner (getb s i) = Some me).

(** The first buffer along [order] that satisfies [P]. *)
Fixpoint scan (P : buf → bool) (s : bst) (order : list nat) : option nat :=
  match order with
  | [] => None
  | i :: order' => if P (getb s i) then Some i else scan P s order'
  end.

Definition is_block (dev blk : Z) (b : buf) : bool := (bdev b =? dev) && (blockno b =? blk).
Definition is_unused (b : buf) : bool := refcnt b =? 0.

Definition bget (me dev blk : Z) (s : bst) : res (nat * bst) :=
  match scan (is_block dev blk) s (lru s) with
  | Some i =>
      let s := upd_buf i (λ b, set_refcnt (u32 (refcnt b + 1)) b) s in
      s ← acquiresleep me i s; Ok (i, s)
  | None =>
      match scan is_unused s (reverse (lru s)) with
      | Some i =>
          let s := upd_buf i (λ b, mkBuf 0 dev blk 1 (bdata b) (bowner b)) s in
          s ← acquiresleep me i s; Ok (i, s)
      | None => Panic "bget: no buffers"
      end
  end.

Definition virtio_disk_rw (i : nat) (write : bool) (s : bst) : bst :=
  let b := getb s i in
  if write then mkB (bufs s) (lru s) (<[blockno b := bdata b]> (disk s)) (wlog s ++ [(blockno b, bdata b)])
  else upd_buf i (set_data (dget (disk s) (blockno b))) s.

Definition bread (me dev blk : Z) (s : bst) : res (nat * bst) :=
  '(i, s) ← bget me dev blk s;
  if valid (getb s i) =? 0 then Ok (i, upd_buf i (set_valid 1) (virtio_disk_rw i false s))
  else Ok (i, s).

Definition bwrite (me : Z) (i : nat) (s : bst) : res bst :=
  if negb (holdingsleep me i s) then Panic "bwrite" else Ok (virtio_disk_rw i true s).

Definition brelse (me : Z) (i : nat) (s : bst) : res bst :=
  if negb (holdingsleep me i s) then Panic "brelse"
  else
    let s := releasesleep i s in
    let s := upd_buf i (λ b, set_refcnt (u32 (refcnt b - 1)) b) s in
    Ok (if refcnt (getb s i) =? 0
        then mkB (bufs s) (i :: filter (.≠ i) (lru s)) (disk s) (wlog s) else s).

Definition bpin (i : nat) (s : bst) : bst := upd_buf i (λ b, set_refcnt (u32 (refcnt b + 1)) b) s.
Definition bunpin (i : nat) (s : bst) : bst := upd_buf i (λ b, set_refcnt (u32 (refcnt b - 1)) b) s.

(** ** The invariant *)

(** What a reader of block [blk] sees: the cached copy if there is one. *)
Definition bview (s : bst) (dev blk : Z) : block :=
  match scan (is_block dev blk) s (lru s) with
  | Some i => if valid (getb s i) =? 0 then dget (disk s) blk else bdata (getb s i)
  | None => dget (disk s) blk
  end.


Lemma scan_Some P s order i :
  scan P s order = Some i → i ∈ order ∧ P (getb s i) = true.
Proof.
  induction order as [|j order IH]; simpl; [done|]. destruct (P (getb s j)) eqn:Hp.
  - intros [= <-]. split; [left|done].
  - intros [? ?]%IH. split; [by right|done].
Qed.

Lemma scan_None P s order : scan P s order = None → ∀ i, i ∈ order → P (getb s i) = false.
Proof.
  induction order as [|j order IH]; simpl; intros Hs i; [by intros ?%not_elem_of_nil|].
  destruct (P (getb s j)) eqn:Hp; [done|]. intros [->|Hi]%elem_of_cons; auto.
Qed.

Lemma scan_ext P s s' order :
  (∀ i, i ∈ order → P (getb s' i) = P (getb s i)) → scan P s' order = scan P s order.
Proof.
  induction order as [|j order IH]; simpl; intros He; [done|].
  rewrite He by left. destruct (P (getb s j)); [done|]. apply IH. intros i Hi. apply He. by right.
Qed.

Lemma getb_Some s i b : bufs s !! i = Some b → getb s i = b.
Proof. unfold getb. by intros ->. Qed.

Lemma getb_upd f i j s :
  is_Some (bufs s !! i) → getb (upd_buf i f s) j = if decide (i = j) then f (getb s i) else getb s j.
Proof.
  intros [b Hb]. unfold getb, upd_buf, set_bufs. simpl. case_decide; subst.
  - by rewrite list_lookup_alter_eq, Hb.
  - by rewrite list_lookup_alter_ne.
Qed.

(** ** One device *)
Section device.
Context (dev : Z) (Hdev : dev ≠ 0).
Implicit Types (s : bst) (b : buf) (i : nat) (blk : Z).

(** The cache is consistent: the list holds every buffer once, a block has at
    most one buffer, an unused buffer is unlocked and agrees with the disk. *)
Record binv s : Prop := {
  bi_lru : NoDup (lru s) ∧ ∀ i, i ∈ lru s ↔ is_Some (bufs s !! i);
  bi_unique : ∀ i j b b', bufs s !! i = Some b → bufs s !! j = Some b' →
    bdev b ≠ 0 → bdev b = bdev b' → blockno b = blockno b' → i = j;
  bi_refcnt : ∀ i b, bufs s !! i = Some b → 0 <= refcnt b < 4294967295;
  bi_free : ∀ i b, bufs s !! i = Some b → refcnt b = 0 →
    bowner b = None ∧ (valid b ≠ 0 → bdata b = dget (disk s) (blockno b));
  bi_dev : ∀ i b, bufs s !! i = Some b → valid b ≠ 0 ∨ refcnt b ≠ 0 → bdev b = dev;
  bi_len : length (bufs s) = NBUF
}.

(** The buffer that caches a block. *)
Definition at_buf s blk i b : Prop := bufs s !! i = Some b ∧ bdev b = dev ∧ blockno b = blk.

Definition cached s blk : option buf := getb s <$> scan (is_block dev blk) s (lru s).

Lemma is_block_spec blk b : is_block dev blk b = true ↔ bdev b = dev ∧ blockno b = blk.
Proof. unfold is_block. rewrite andb_true_iff, !Z.eqb_eq. done. Qed.

Lemma cached_at s blk b : binv s → cached s blk = Some b ↔ ∃ i, at_buf s blk i b.
Proof.
  intros Hi. unfold cached, at_buf. destruct (scan _ _ _) as [i|] eqn:Hs; simpl.
  - apply scan_Some in Hs as [Hin [Hd Hb]%is_block_spec].
    apply (proj2 (bi_lru _ Hi)) in Hin as [b0 Hb0]. rewrite (getb_Some _ _ _ Hb0) in *.
    split; [intros [= <-]; eauto|]. intros (j & Hj & Hdj & Hbj). f_equal.
    assert (i = j) as -> by (eapply (bi_unique _ Hi i j); [exact Hb0|exact Hj|congruence..]).
    congruence.
  - split; [done|]. intros (i & Hb & Hd & Hk). exfalso.
    assert (is_block dev blk (getb s i) = false) as Hf.
    { eapply scan_None; [exact Hs|]. apply (proj2 (bi_lru _ Hi)). eauto. }
    rewrite (getb_Some _ _ _ Hb), (proj2 (is_block_spec blk b)) in Hf; done.
Qed.

Lemma cached_None s blk : binv s → cached s blk = None ↔ ∀ i b, ¬ at_buf s blk i b.
Proof.
  intros Hi. destruct (cached s blk) as [b|] eqn:Hc.
  - apply cached_at in Hc as [i Hb]; [|done]. split; [done|]. intros Hn. by destruct (Hn i b).
  - split; [|done]. intros _ i b Hb. assert (cached s blk = Some b); [|congruence].
    apply cached_at; [done|by exists i].
Qed.

(** Two states whose caching buffers correspond. *)
Lemma cached_ext s s' blk :
  binv s → binv s' → (∀ b, (∃ i, at_buf s' blk i b) ↔ (∃ i, at_buf s blk i b)) →
  cached s' blk = cached s blk.
Proof.
  intros Hi Hi' He. destruct (cached s blk) as [b|] eqn:Hc.
  - apply cached_at; [done|]. apply He. by apply cached_at.
  - apply cached_None; [done|]. intros i b Hb.
    assert (∃ i, at_buf s blk i b) as [j Hj] by (apply He; eauto).
    by eapply (proj1 (cached_None s blk Hi)) in Hj.
Qed.

Lemma cached_bufs s s' blk : bufs s' = bufs s → lru s' = lru s → cached s' blk = cached s blk.
Proof.
  intros Hb Hl. assert (∀ i, getb s' i = getb s i) as Hg by (intros i; unfold getb; by rewrite Hb).
  unfold cached. rewrite Hl, (scan_ext _ s s') by (intros; by rewrite Hg).
  destruct (scan _ _ _); simpl; by rewrite ?Hg.
Qed.

Definition view s blk : block := 
  match cached s blk with
  | Some b => if valid b =? 0 then dget (disk s) blk else bdata b
  | None => dget (disk s) blk
  end.
Definition rc s blk : Z := match cached s blk with Some b => refcnt b | None => 0 end.
Definition holder s blk : option Z := match cached s blk with Some b => bowner b | None => None end.

Lemma view_bview s blk : view s blk = bview s dev blk.
Proof. unfold view, bview, cached. by destruct (scan _ _ _). Qed.

(** The number of buffers nobody uses. *)
Definition nfree s : nat := length (filter (λ b, refcnt b = 0) (bufs s)).

Lemma nfree_pos s : binv s → (0 < nfree s)%nat ↔ scan is_unused s (reverse (lru s)) ≠ None.
Proof.
  intros Hi. unfold nfree. split.
  - intros Hl Hs. destruct (filter _ (bufs s)) as [|b l] eqn:Hf; [simpl in Hl; lia|].
    assert (b ∈ filter (λ b, refcnt b = 0) (bufs s)) as Hb by (rewrite Hf; left).
    apply list_elem_of_filter in Hb as [H0 [i Hb]%list_elem_of_lookup].
    assert (is_unused (getb s i) = false) as Hu.
    { eapply scan_None; [exact Hs|]. rewrite elem_of_reverse. apply (proj2 (bi_lru _ Hi)). eauto. }
    rewrite (getb_Some _ _ _ Hb) in Hu. unfold is_unused in Hu. lia.
  - intros Hs. destruct (scan _ _ _) as [i|] eqn:Hsc; [|done].
    apply scan_Some in Hsc as [Hin Hu]. rewrite elem_of_reverse in Hin.
    apply (proj2 (bi_lru _ Hi)) in Hin as [b Hb]. rewrite (getb_Some _ _ _ Hb) in Hu.
    unfold is_unused in Hu.
    assert (b ∈ filter (λ b, refcnt b = 0) (bufs s)) as Hf.
    { apply list_elem_of_filter. split; [lia|]. apply list_elem_of_lookup. eauto. }
    destruct (filter _ (bufs s)); [by apply not_elem_of_nil in Hf|simpl; lia].
Qed.

Definition isz (z : Z) : nat := if z =? 0 then 1 else 0.

Lemma filter_alter (f : buf → buf) (l : list buf) : ∀ (i : nat) b,
  l !! i = Some b →
  (length (filter (λ b, refcnt b = 0%Z) (alter f i l)) + isz (refcnt b) =
   length (filter (λ b, refcnt b = 0%Z) l) + isz (refcnt (f b)))%nat.
Proof.
  induction l as [|b0 l IH]; intros [|i] b Hb; simplify_eq/=.
  - rewrite !filter_cons. unfold isz.
    destruct (Z.eqb_spec (refcnt b) 0), (Z.eqb_spec (refcnt (f b)) 0);
      repeat case_decide; simpl; done || lia.
  - specialize (IH _ _ Hb). rewrite !filter_cons. change (list_alter f i l) with (alter f i l).
    case_decide; simpl; lia.
Qed.

Lemma nfree_upd i f s b :
  bufs s !! i = Some b →
  (nfree (upd_buf i f s) + isz (refcnt b) = nfree s + isz (refcnt (f b)))%nat.
Proof. apply filter_alter. Qed.

(** ** Updating one buffer in place *)
Lemma at_upd i f s blk j b :
  at_buf (upd_buf i f s) blk j b ↔
    (j ≠ i ∧ at_buf s blk j b) ∨
    (j = i ∧ ∃ b0, bufs s !! i = Some b0 ∧ b = f b0 ∧ bdev b = dev ∧ blockno b = blk).
Proof.
  unfold at_buf, upd_buf, set_bufs. simpl. destruct (decide (j = i)) as [->|Hne].
  - rewrite list_lookup_alter_eq, fmap_Some. naive_solver.
  - rewrite list_lookup_alter_ne by done. naive_solver.
Qed.

(** An update that keeps the identity of the buffer. *)
Lemma binv_upd i f s :
  binv s → (∀ b, bdev (f b) = bdev b ∧ blockno (f b) = blockno b) →
  (∀ b, bufs s !! i = Some b → 0 <= refcnt (f b) < 4294967295 ∧
     (refcnt (f b) = 0 → bowner (f b) = None ∧
        (valid (f b) ≠ 0 → bdata (f b) = dget (disk s) (blockno b))) ∧
     (valid (f b) ≠ 0 ∨ refcnt (f b) ≠ 0 → valid b ≠ 0 ∨ refcnt b ≠ 0)) →
  binv (upd_buf i f s).
Proof.
  intros Hi Hid Hf.
  assert (∀ j b, bufs (upd_buf i f s) !! j = Some b →
    (j ≠ i ∧ bufs s !! j = Some b) ∨ (j = i ∧ ∃ b0, bufs s !! i = Some b0 ∧ b = f b0)) as Hl.
  { intros j b. unfold upd_buf, set_bufs. simpl. destruct (decide (j = i)) as [->|Hne].
    - rewrite list_lookup_alter_eq, fmap_Some. naive_solver.
    - rewrite list_lookup_alter_ne by done. auto. }
  split.
  - destruct (bi_lru _ Hi) as [Hnd Hin]. split; [done|]. intros j. simpl. rewrite Hin.
    unfold upd_buf, set_bufs. simpl. destruct (decide (j = i)) as [->|Hne].
    + by rewrite list_lookup_alter_eq, fmap_is_Some.
    + by rewrite list_lookup_alter_ne.
  - intros j k b b' Hj Hk Hd Hdd Hbb.
    assert (∃ c, bufs s !! j = Some c ∧ bdev c = bdev b ∧ blockno c = blockno b) as (c & Hc & Hcd & Hcb).
    { apply Hl in Hj as [[_ ?]|(-> & b0 & ? & ->)]; [eauto|]. destruct (Hid b0). eauto. }
    assert (∃ c, bufs s !! k = Some c ∧ bdev c = bdev b' ∧ blockno c = blockno b') as (c' & Hc' & Hcd' & Hcb').
    { apply Hl in Hk as [[_ ?]|(-> & b0 & ? & ->)]; [eauto|]. destruct (Hid b0). eauto. }
    eapply (bi_unique _ Hi j k c c'); congruence.
  - intros j b [[_ Hb]|(-> & b0 & Hb & ->)]%Hl; [by eapply bi_refcnt|].
    by destruct (Hf _ Hb) as [? _].
  - intros j b [[_ Hb]|(-> & b0 & Hb & ->)]%Hl; [exact (bi_free _ Hi _ _ Hb)|].
    destruct (Hid b0) as [_ ->]. by destruct (Hf _ Hb) as (_ & ? & _).
  - intros j b [[_ Hb]|(-> & b0 & Hb & ->)]%Hl; [by eapply bi_dev|].
    destruct (Hid b0) as [-> _], (Hf _ Hb) as (_ & _ & Hv). intros ?%Hv. by eapply bi_dev.
  - unfold upd_buf, set_bufs. simpl. rewrite length_alter. apply Hi.
Qed.

Lemma cached_upd i f s b0 blk :
  binv s → binv (upd_buf i f s) → (∀ b, bdev (f b) = bdev b ∧ blockno (f b) = blockno b) →
  bufs s !! i = Some b0 →
  cached (upd_buf i f s) blk =
    if decide (bdev b0 = dev ∧ blockno b0 = blk) then Some (f b0) else cached s blk.
Proof.
  intros Hi Hi' Hid Hb0. case_decide as Hd.
  - apply cached_at; [done|]. exists i. apply at_upd. right. split; [done|].
    exists b0. destruct (Hid b0) as [-> ->]. naive_solver.
  - apply cached_ext; [done..|]. intros b. split.
    + intros (j & [[Hne Hat]|(-> & b1 & Hb1 & -> & Hd1 & Hb2)]%at_upd); [by exists j|].
      destruct (Hid b1) as [He1 He2]. simplify_eq. destruct Hd. split; congruence.
    + intros (j & Hat). exists j. apply at_upd. left. split; [|done].
      intros ->. destruct Hat as (Hb & ? & ?). apply Hd. simplify_eq. done.
Qed.

(** ** Replacing the contents of a buffer *)
Lemma upd_const i f s b : bufs s !! i = Some b → upd_buf i f s = upd_buf i (λ _, f b) s.
Proof.
  intros Hb. unfold upd_buf, set_bufs. f_equal. apply list_eq. intros j.
  destruct (decide (i = j)) as [->|Hne].
  - rewrite !list_lookup_alter_eq, Hb. done.
  - by rewrite !list_lookup_alter_ne.
Qed.

Lemma lookup_upd_eq i f s : bufs (upd_buf i f s) !! i = f <$> bufs s !! i.
Proof. unfold upd_buf, set_bufs. simpl. apply list_lookup_alter_eq. Qed.

Lemma lookup_upd_ne i f s j : j ≠ i → bufs (upd_buf i f s) !! j = bufs s !! j.
Proof. intros. unfold upd_buf, set_bufs. simpl. by apply list_lookup_alter_ne. Qed.

Lemma upd_upd i f g s : upd_buf i g (upd_buf i f s) = upd_buf i (λ b, g (f b)) s.
Proof.
  unfold upd_buf, set_bufs. simpl. f_equal. apply list_eq. intros j.
  destruct (decide (i = j)) as [->|Hne].
  - rewrite !list_lookup_alter_eq. by destruct (bufs s !! j).
  - by rewrite !list_lookup_alter_ne.
Qed.

Lemma replace_lookup i nb s b0 j b :
  bufs s !! i = Some b0 →
  bufs (upd_buf i (λ _, nb) s) !! j = Some b ↔
    (j ≠ i ∧ bufs s !! j = Some b) ∨ (j = i ∧ b = nb).
Proof.
  intros Hb0. unfold upd_buf, set_bufs. simpl. destruct (decide (j = i)) as [->|Hne].
  - rewrite list_lookup_alter_eq, Hb0. simpl. naive_solver.
  - rewrite list_lookup_alter_ne by done. naive_solver.
Qed.

(** Buffer [i] becomes [nb], a used buffer for block [blk]: either it cached
    [blk] already, or it was unused and nothing cached [blk]. *)
Lemma replace_spec i nb s b0 blk :
  binv s → bufs s !! i = Some b0 → bdev nb = dev → blockno nb = blk →
  0 < refcnt nb < 4294967295 →
  ((bdev b0 = dev ∧ blockno b0 = blk) ∨ (refcnt b0 = 0 ∧ cached s blk = None)) →
  let s' := upd_buf i (λ _, nb) s in
  binv s' ∧ cached s' blk = Some nb ∧
  ∀ blk', blk' ≠ blk →
    view s' blk' = view s blk' ∧ rc s' blk' = rc s blk' ∧ holder s' blk' = holder s blk'.
Proof.
  intros Hi Hb0 Hd Hb Hr Hcase s'.
  pose proof (λ j b, replace_lookup i nb s b0 j b Hb0) as Hl. fold s' in Hl.
  assert (∀ j b, j ≠ i → bufs s !! j = Some b → bdev b = dev → blockno b = blk → False) as Hnew.
  { intros j b Hne Hj Hdj Hbj. destruct Hcase as [[Hd0 Hk0]|[_ Hc]].
    - apply Hne. eapply (bi_unique _ Hi j i b b0); congruence.
    - apply (cached_None s blk Hi) with (i := j) (b := b) in Hc. by apply Hc. }
  assert (binv s') as Hi'.
  { split.
    - destruct (bi_lru _ Hi) as [Hnd Hin]. split; [done|]. intros j. simpl. rewrite Hin.
      unfold s', upd_buf, set_bufs. simpl. destruct (decide (j = i)) as [->|Hne].
      + by rewrite list_lookup_alter_eq, fmap_is_Some.
      + by rewrite list_lookup_alter_ne.
    - intros j k b b' [[Hj Hbj]|[-> ->]]%Hl [[Hk Hbk]|[-> ->]]%Hl Hd1 Hd2 Hb2; try done.
      + by eapply (bi_unique _ Hi j k b b').
      + exfalso. eapply (Hnew j b); congruence.
      + exfalso. eapply (Hnew k b'); congruence.
    - intros j b [[_ Hb']|[-> ->]]%Hl; [by eapply bi_refcnt|lia].
    - intros j b [[_ Hb']|[-> ->]]%Hl; [exact (bi_free _ Hi _ _ Hb')|lia].
    - intros j b [[_ Hb']|[-> ->]]%Hl; [by eapply bi_dev|done].
    - unfold s', upd_buf, set_bufs. simpl. rewrite length_alter. apply Hi. }
  split; [done|]. split.
  { apply cached_at; [done|]. exists i. split_and!; try done. apply Hl. by right. }
  intros blk' Hne.
  assert (cached s' blk' = cached s blk' ∨
    (cached s blk' = Some b0 ∧ cached s' blk' = None ∧ refcnt b0 = 0 ∧ blockno b0 = blk')) as Hc.
  { destruct (decide (bdev b0 = dev ∧ blockno b0 = blk')) as [[Hd0 Hk0]|Hno].
    - right. destruct Hcase as [[_ ?]|[H0 Hc]]; [congruence|].
      split; [by apply cached_at; [done|exists i]|]. split; [|done].
      apply cached_None; [done|]. intros j b ([[Hji Hj]|[-> ->]]%Hl & ? & ?); [|congruence].
      apply Hji. eapply (bi_unique _ Hi j i b b0); congruence.
    - left. apply cached_ext; [done..|]. intros b. split; intros (j & Hj & Hdj & Hbj).
      + apply Hl in Hj as [[Hji Hj]|[-> ->]]; [by exists j|congruence].
      + exists j. split_and!; try done. apply Hl. left. split; [|done].
        intros ->. apply Hno. simplify_eq. done. }
  unfold view, rc, holder. change (disk s') with (disk s).
  destruct Hc as [->|(-> & -> & H0 & Hk0)]; [done|].
  destruct (bi_free _ Hi _ _ Hb0 H0) as [Ho Hv]. rewrite H0, Ho. split; [|done].
  destruct (Z.eqb_spec (valid b0) 0) as [|Hv0]; [done|].
  by rewrite Hv, Hk0.
Qed.

(** ** bread *)
Definition bread_ok (me blk : Z) s i s' : Prop :=
  binv s' ∧
  (∃ b, at_buf s' blk i b ∧ valid b ≠ 0 ∧ bowner b = Some me ∧ refcnt b = rc s blk + 1 ∧
     bdata b = view s blk) ∧
  disk s' = disk s ∧ wlog s' = wlog s ∧ (∀ blk', view s' blk' = view s blk') ∧
  (∀ blk', blk' ≠ blk → rc s' blk' = rc s blk' ∧ holder s' blk' = holder s blk') ∧
  (nfree s' + isz (rc s blk) = nfree s)%nat ∧
  (∀ j, j ≠ i → bufs s' !! j = bufs s !! j) ∧
  (∃ b0, bufs s !! i = Some b0 ∧ (blockno b0 = blk ∨ refcnt b0 = 0)).

Lemma replace_bread me blk s i b0 nb :
  binv s → bufs s !! i = Some b0 → refcnt b0 = rc s blk → rc s blk < 4294967294 →
  ((bdev b0 = dev ∧ blockno b0 = blk) ∨ (refcnt b0 = 0 ∧ cached s blk = None)) →
  nb = mkBuf (valid nb) dev blk (rc s blk + 1) (view s blk) (Some me) → valid nb ≠ 0 →
  bread_ok me blk s i (upd_buf i (λ _, nb) s).
Proof.
  intros Hi Hb0 Hrc Hlt Hcase Hnb Hv. pose proof (bi_refcnt _ Hi _ _ Hb0).
  destruct (replace_spec i nb s b0 blk) as (Hi' & Hc & Ho); try done; [by rewrite Hnb..| |].
  { rewrite Hnb. simpl. lia. }
  set (s' := upd_buf i (λ _, nb) s) in *. split; [done|]. split_and!; try done.
  - exists nb. split; [|by split_and!; try done; rewrite Hnb].
    split; [|by rewrite Hnb]. apply replace_lookup with b0; [done|]. by right.
  - intros blk'. destruct (decide (blk' = blk)) as [->|]; [|by apply Ho].
    unfold view at 1. rewrite Hc. destruct (Z.eqb_spec (valid nb) 0); [done|]. by rewrite Hnb.
  - intros blk' Hne. by apply Ho.
  - pose proof (nfree_upd i (λ _, nb) s b0 Hb0) as Hn. fold s' in Hn.
    assert (isz (refcnt nb) = 0%nat) as Hz.
    { rewrite Hnb. simpl. unfold isz. destruct (Z.eqb_spec (rc s blk + 1) 0); lia. }
    rewrite Hrc, Hz in Hn. lia.
  - intros j Hne. by apply lookup_upd_ne.
  - exists b0. split; [done|]. naive_solver.
Qed.

Lemma bread_spec me blk s :
  binv s → holder s blk = None → rc s blk < 4294967294 →
  (cached s blk ≠ None ∨ (0 < nfree s)%nat) →
  ∃ i s', bread me dev blk s = Ok (i, s') ∧ bread_ok me blk s i s'.
Proof.
  intros Hi Hh Hlt Hav. unfold bread, bget.
  destruct (scan (is_block dev blk) s (lru s)) as [i|] eqn:Hs.
  - assert (cached s blk = Some (getb s i)) as Hc by (unfold cached; by rewrite Hs).
    apply scan_Some in Hs as [Hin [Hd Hk]%is_block_spec].
    apply (proj2 (bi_lru _ Hi)) in Hin as [b0 Hb0].
    pose proof (getb_Some _ _ _ Hb0) as Hg. rewrite Hg in *.
    assert (rc s blk = refcnt b0) as Hrc by (unfold rc; by rewrite Hc).
    unfold holder in Hh. rewrite Hc in Hh. pose proof (bi_refcnt _ Hi _ _ Hb0).
    unfold acquiresleep. rewrite getb_upd, decide_True by (done || eauto). rewrite Hg. simpl.
    rewrite Hh. cbn [mbind res_bind]. rewrite upd_upd, getb_upd, decide_True by (done || eauto).
    rewrite Hg. simpl.
    destruct (Z.eqb_spec (valid b0) 0) as [Hv|Hv].
    + eexists i, _. split; [reflexivity|]. unfold virtio_disk_rw.
      rewrite !upd_upd, (upd_const _ _ _ _ Hb0).
      apply (replace_bread me blk s i b0); [done|done|lia|lia|by left| |done].
      unfold set_valid, set_data, set_owner, set_refcnt. simpl.
      rewrite u32_small, Hrc by lia. unfold view. by rewrite Hc, Hv, Hk, Hd.
    + eexists i, _. split; [reflexivity|]. rewrite (upd_const _ _ _ _ Hb0).
      apply (replace_bread me blk s i b0); [done|done|lia|lia|by left| |done].
      unfold set_owner, set_refcnt. simpl.
      rewrite u32_small, Hrc by lia. unfold view. rewrite Hc, Hd, Hk.
      by destruct (Z.eqb_spec (valid b0) 0).
  - assert (cached s blk = None) as Hc by (unfold cached; by rewrite Hs).
    destruct Hav as [|Hn]; [done|]. apply nfree_pos in Hn; [|done].
    destruct (scan is_unused s (reverse (lru s))) as [i|] eqn:Hs2; [|done].
    apply scan_Some in Hs2 as [Hin Hu]. rewrite elem_of_reverse in Hin.
    apply (proj2 (bi_lru _ Hi)) in Hin as [b0 Hb0].
    pose proof (getb_Some _ _ _ Hb0) as Hg. rewrite Hg in Hu.
    assert (refcnt b0 = 0) as H0 by (unfold is_unused in Hu; lia).
    destruct (bi_free _ Hi _ _ Hb0 H0) as [Hob _].
    assert (rc s blk = 0) as Hrc by (unfold rc; by rewrite Hc).
    unfold acquiresleep. rewrite getb_upd, decide_True by (done || eauto). rewrite Hg. simpl.
    rewrite Hob. cbn [mbind res_bind]. rewrite upd_upd, getb_upd, decide_True by (done || eauto).
    rewrite Hg. simpl. eexists i, _. split; [reflexivity|]. unfold virtio_disk_rw.
    rewrite !upd_upd, (upd_const _ _ _ _ Hb0).
    apply (replace_bread me blk s i b0); [done|done|congruence|lia|by right| |done].
    unfold set_valid, set_data, set_owner. simpl.
    rewrite Hrc. unfold view. by rewrite Hc.
Qed.

(** ** Using a buffer that is held *)

(** [i] holds block [blk], read and locked by [me], with [r] references. *)
Definition held s (me blk : Z) i (r : Z) (data : block) : Prop :=
  ∃ b, at_buf s blk i b ∧ valid b ≠ 0 ∧ bowner b = Some me ∧ refcnt b = r ∧ bdata b = data.

Lemma held_cached s me blk i r data :
  binv s → held s me blk i r data →
  rc s blk = r ∧ holder s blk = Some me ∧ view s blk = data ∧ holdingsleep me i s = true ∧
  getb s i = mkBuf (valid (getb s i)) dev blk r data (Some me).
Proof.
  intros Hi (b & Hat & Hv & Ho & Hr & Hd).
  assert (cached s blk = Some b) as Hc by (apply cached_at; eauto).
  destruct Hat as (Hb & Hbd & Hbk). pose proof (getb_Some _ _ _ Hb) as Hg.
  unfold rc, holder, view, holdingsleep. rewrite Hc, Hg. split_and!; try done.
  - by destruct (Z.eqb_spec (valid b) 0).
  - by apply bool_decide_eq_true.
  - destruct b. simpl in *. congruence.
Qed.

(** What stays when only block [blk] is touched. *)
Definition same_other (blk : Z) s s' : Prop :=
  ∀ blk', blk' ≠ blk →
    view s' blk' = view s blk' ∧ rc s' blk' = rc s blk' ∧ holder s' blk' = holder s blk'.

(** An update of the held buffer that keeps it valid. *)
Lemma held_upd me blk i r data s f :
  binv s → held s me blk i r data →
  (∀ b, bdev (f b) = bdev b ∧ blockno (f b) = blockno b ∧ valid (f b) = valid b) →
  (∀ b, refcnt b = r → 0 <= refcnt (f b) < 4294967295 ∧
     (refcnt (f b) = 0 → bowner (f b) = None ∧ (bdata b = data → bdata (f b) = dget (disk s) blk))) →
  ∃ b, at_buf s blk i b ∧ binv (upd_buf i f s) ∧ cached (upd_buf i f s) blk = Some (f b) ∧
    same_other blk s (upd_buf i f s).
Proof.
  intros Hi (b & Hat & Hv & Ho & Hr & Hd) Hid Hf. pose proof Hat as (Hb & Hbd & Hbk).
  assert (binv (upd_buf i f s)) as Hi'.
  { apply binv_upd; [done|intros b'; by destruct (Hid b') as (? & ? & _)|].
    intros b' Hb'. simplify_eq. destruct (Hf b eq_refl) as [? Hz].
    split_and!; [lia|lia| |by left].
    intros [? Hdd]%Hz. split; [done|]. intros _. by apply Hdd. }
  exists b. split_and!; try done.
  - rewrite (cached_upd i f s b) by (done || by intros b'; destruct (Hid b') as (? & ? & _)).
    by rewrite decide_True.
  - intros blk' Hne. unfold view, rc, holder.
    rewrite (cached_upd i f s b) by (done || by intros b'; destruct (Hid b') as (? & ? & _)).
    rewrite decide_False by naive_solver. done.
Qed.

(** Storing into [b->data]. *)
Definition put_data i (data : block) s : bst := upd_buf i (set_data data) s.

Lemma put_data_spec me blk i r data data' s :
  binv s → held s me blk i r data → r ≠ 0 →
  let s' := put_data i data' s in
  binv s' ∧ held s' me blk i r data' ∧ same_other blk s s' ∧
  disk s' = disk s ∧ wlog s' = wlog s ∧ nfree s' = nfree s.
Proof.
  intros Hi Hh Hr s'. destruct (held_upd me blk i r data s (set_data data')) as (b & Hat & Hi' & Hc & Ho);
    try done.
  { intros b Hb. pose proof (held_cached _ _ _ _ _ _ Hi Hh) as (Hrc & _ & _ & _ & Hg).
    destruct Hh as (b' & (Hb' & _) & _ & _ & Hr' & _). pose proof (bi_refcnt _ Hi _ _ Hb').
    simpl. split; [lia|lia]. }
  split; [done|]. destruct Hh as (b' & (Hb' & Hd' & Hk') & Hv & Hown & Hr' & Hdd).
  destruct Hat as (Hb & _). assert (b' = b) as -> by congruence. split.
  { exists (set_data data' b). split; [|done]. split; [|done].
    unfold s', put_data. by rewrite lookup_upd_eq, Hb. }
  split_and!; try done. pose proof (nfree_upd i (set_data data') s b Hb) as Hn. simpl in Hn.
  unfold s', put_data. lia.
Qed.

Lemma bwrite_spec me blk i r data s :
  binv s → held s me blk i r data →
  ∃ s', bwrite me i s = Ok s' ∧ binv s' ∧ held s' me blk i r data ∧
    disk s' = <[blk := data]> (disk s) ∧ wlog s' = wlog s ++ [(blk, data)] ∧
    nfree s' = nfree s ∧ bufs s' = bufs s ∧
    (∀ blk', view s' blk' = view s blk' ∧ rc s' blk' = rc s blk' ∧ holder s' blk' = holder s blk').
Proof.
  intros Hi Hh. destruct (held_cached _ _ _ _ _ _ Hi Hh) as (Hrc & Hho & Hvw & Hhs & Hg).
  unfold bwrite. rewrite Hhs. simpl. unfold virtio_disk_rw. rewrite Hg. simpl.
  eexists. split; [reflexivity|].
  assert (∀ b, bufs s !! i = Some b → blockno b = blk ∧ bdev b = dev ∧ valid b ≠ 0 ∧ bdata b = data) as Hbi.
  { destruct Hh as (b & (Hb & ? & ?) & ? & ? & ? & ?). intros b' Hb'. by simplify_eq. }
  split.
  { split; try apply Hi. intros j b Hb H0. simpl.
    destruct (bi_free _ Hi _ _ Hb H0) as [Ho Hd]. split; [done|]. intros Hv.
    unfold dget. rewrite lookup_insert. case_decide as Hk; [|by apply Hd].
    destruct (decide (j = i)) as [->|Hne]; [by destruct (Hbi b Hb) as (_ & _ & _ & ->)|].
    exfalso. destruct Hh as (bi & (Hb' & Hbd & Hbk) & _). apply Hne.
    pose proof (bi_dev _ Hi _ _ Hb (or_introl Hv)).
    apply (bi_unique _ Hi j i b bi Hb Hb'); congruence. }
  split; [exact Hh|]. split_and!; try done.
  intros blk'. set (s2 := mkB _ _ _ _).
  assert (cached s2 blk' = cached s blk') as Hcb by by apply cached_bufs.
  unfold view, rc, holder. rewrite Hcb. split_and!; try done.
  simpl. destruct (decide (blk' = blk)) as [->|Hne].
  - destruct Hh as (b & Hat & Hv & _).
    assert (cached s blk = Some b) as -> by (apply cached_at; eauto).
    by destruct (Z.eqb_spec (valid b) 0).
  - unfold dget. rewrite !lookup_insert_ne by congruence. done.
Qed.

(** Releasing: the last reference may only go when the block is clean. *)
Lemma brelse_spec me blk i r data s :
  binv s → held s me blk i r data → r ≠ 0 → (r = 1 → data = dget (disk s) blk) →
  ∃ s', brelse me i s = Ok s' ∧ binv s' ∧ rc s' blk = r - 1 ∧ holder s' blk = None ∧
    view s' blk = data ∧ same_other blk s s' ∧ disk s' = disk s ∧ wlog s' = wlog s ∧
    nfree s' = (nfree s + isz (r - 1))%nat ∧ (∀ j, j ≠ i → bufs s' !! j = bufs s !! j).
Proof.
  intros Hi Hh Hr0 Hcl. destruct (held_cached _ _ _ _ _ _ Hi Hh) as (Hrc & Hho & Hvw & Hhs & Hg).
  pose proof Hh as (b0 & (Hb0 & Hd0 & Hk0) & Hv0 & Ho0 & Hr & Hdata).
  pose proof (bi_refcnt _ Hi _ _ Hb0) as Hrng.
  unfold brelse, releasesleep. rewrite Hhs. cbn [negb]. cbv zeta. rewrite !upd_upd.
  set (f := λ b, set_refcnt _ (set_owner None b)).
  assert (refcnt (f b0) = r - 1) as Hfr by (simpl; rewrite Hr, u32_small by lia; lia).
  destruct (held_upd me blk i r data s f) as (b & Hat & Hi1 & Hc1 & Ho1); try done.
  { intros b Hb. simpl. rewrite Hb, u32_small by lia. split; [lia|]. intros Hz.
    split; [done|]. intros ->. apply Hcl. lia. }
  assert (b = b0) as -> by (destruct Hat as (? & _); congruence).
  rewrite getb_upd, decide_True by (done || eauto). rewrite (getb_Some _ _ _ Hb0), Hfr.
  set (s1 := upd_buf i f s) in *.
  set (s2 := if r - 1 =? 0 then _ else s1).
  assert (bufs s2 = bufs s1 ∧ disk s2 = disk s1 ∧ wlog s2 = wlog s1) as (Hb2 & Hd2 & Hw2).
  { unfold s2. by destruct (r - 1 =? 0). }
  assert (binv s2) as Hi2.
  { split; rewrite ?Hb2, ?Hd2; try apply Hi1. unfold s2. destruct (r - 1 =? 0); [|apply Hi1].
    destruct (bi_lru _ Hi1) as [Hnd Hin]. change (lru s1) with (lru s) in *. simpl. split.
    - apply NoDup_cons. split; [|by apply NoDup_filter].
      intros [? _]%list_elem_of_filter. done.
    - intros j. rewrite elem_of_cons, list_elem_of_filter, Hin.
      destruct (decide (j = i)) as [->|]; [|naive_solver].
      split; [|auto]. intros _. change (is_Some (bufs (upd_buf i f s) !! i)).
      rewrite lookup_upd_eq, Hb0. by eexists. }
  assert (∀ blk', cached s2 blk' = cached s1 blk') as Hc2.
  { intros blk'. apply cached_ext; [done..|]. intros b. unfold at_buf. by rewrite Hb2. }
  exists s2. split; [done|]. split; [done|].
  assert (∀ blk', rc s2 blk' = rc s1 blk' ∧ holder s2 blk' = holder s1 blk' ∧
            view s2 blk' = view s1 blk') as Hsame.
  { intros blk'. unfold rc, holder, view. by rewrite Hc2, Hd2. }
  destruct (Hsame blk) as (-> & -> & ->). split_and!.
  - unfold rc. by rewrite Hc1.
  - unfold holder. by rewrite Hc1.
  - unfold view. rewrite Hc1. simpl. by destruct (Z.eqb_spec (valid b0) 0).
  - intros blk' Hne. destruct (Hsame blk') as (-> & -> & ->). by apply Ho1.
  - done.
  - done.
  - unfold nfree. rewrite Hb2. pose proof (nfree_upd i f s b0 Hb0) as Hn. fold s1 in Hn.
    rewrite Hfr, Hr in Hn. unfold nfree in Hn.
    assert (isz r = 0%nat) by (unfold isz; destruct (Z.eqb_spec r 0); done). lia.
  - intros j Hj. rewrite Hb2. by apply lookup_upd_ne.
Qed.

Lemma refcnt_spec me blk i r data s r' :
  binv s → held s me blk i r data → 0 < r' < 4294967295 → r ≠ 0 →
  let s' := upd_buf i (λ b, set_refcnt (u32 (refcnt b + (r' - r))) b) s in
  binv s' ∧ held s' me blk i r' data ∧ same_other blk s s' ∧ disk s' = disk s ∧
  wlog s' = wlog s ∧ nfree s' = nfree s.
Proof.
  intros Hi Hh Hr' Hr0 s'.
  set (f := λ b, set_refcnt (u32 (refcnt b + (r' - r))) b) in *.
  assert (∀ b, refcnt b = r → refcnt (f b) = r') as Hf.
  { intros b Hb. simpl. rewrite Hb, u32_small by lia. lia. }
  destruct (held_upd me blk i r data s f) as (b & Hat & Hi1 & Hc1 & Ho1); try done.
  { intros b Hb. rewrite (Hf b Hb). lia. }
  split; [done|]. destruct Hh as (b' & (Hb' & Hd' & Hk') & Hv & Hown & Hrb & Hdd).
  destruct Hat as (Hb & _). assert (b' = b) as -> by congruence. split.
  { exists (f b). split; [|split_and!; try done; auto]. split; [|done].
    unfold s'. by rewrite lookup_upd_eq, Hb. }
  split_and!; try done. pose proof (nfree_upd i f s b Hb) as Hn.
  rewrite (Hf b Hrb), Hrb in Hn. fold s' in Hn. unfold isz in Hn.
  destruct (Z.eqb_spec r 0), (Z.eqb_spec r' 0); lia.
Qed.

(** [bpin] and [bunpin] on a held buffer. *)
Lemma bpin_spec me blk i r data s :
  binv s → held s me blk i r data → 0 < r < 4294967294 →
  binv (bpin i s) ∧ held (bpin i s) me blk i (r + 1) data ∧ same_other blk s (bpin i s) ∧
  disk (bpin i s) = disk s ∧ wlog (bpin i s) = wlog s ∧ nfree (bpin i s) = nfree s.
Proof.
  intros Hi Hh Hr. pose proof (refcnt_spec me blk i r data s (r + 1) Hi Hh) as Hp.
  replace (r + 1 - r) with 1 in Hp by lia. apply Hp; lia.
Qed.

Lemma bunpin_spec me blk i r data s :
  binv s → held s me blk i r data → 1 < r < 4294967295 →
  binv (bunpin i s) ∧ held (bunpin i s) me blk i (r - 1) data ∧ same_other blk s (bunpin i s) ∧
  disk (bunpin i s) = disk s ∧ wlog (bunpin i s) = wlog s ∧ nfree (bunpin i s) = nfree s.
Proof.
  intros Hi Hh Hr. pose proof (refcnt_spec me blk i r data s (r - 1) Hi Hh) as Hp.
  replace (r - 1 - r) with (-1) in Hp by lia. apply Hp; lia.
Qed.

Lemma binit_inv d : binv (binit d).
Proof.
  assert (∀ i b, bufs (binit d) !! i = Some b → b = buf0) as Hb.
  { intros i b [-> _]%lookup_replicate. done. }
  split.
  - split; [apply (bool_decide_unpack _); by vm_compute|]. intros i.
    assert (lru (binit d) = reverse (seq 0 NBUF)) as -> by by vm_compute.
    change (bufs (binit d)) with (replicate NBUF buf0). rewrite elem_of_reverse, elem_of_seq.
    rewrite lookup_lt_is_Some, length_replicate. lia.
  - intros i j b b' ->%Hb. done.
  - intros i b ->%Hb. simpl. lia.
  - intros i b ->%Hb. done.
  - intros i b ->%Hb. simpl. lia.
  - apply length_replicate.
Qed.

(** When no block is referenced, every buffer is free. *)
Lemma rc_zero_free s : binv s → (∀ blk, rc s blk = 0) → nfree s = NBUF.
Proof.
  intros Hi Hz. unfold nfree. rewrite <-(bi_len _ Hi).
  assert (∀ b, b ∈ bufs s → refcnt b = 0) as Hall.
  { intros b [i Hb]%list_elem_of_lookup. destruct (decide (refcnt b = 0)) as [|Hne]; [done|].
    rewrite <-(Hz (blockno b)). unfold rc.
    assert (cached s (blockno b) = Some b) as ->; [|done].
    apply cached_at; [done|]. exists i. split_and!; [done| |done]. by eapply bi_dev; [done|exact Hb|right]. }
  clear -Hall. induction (bufs s) as [|b l IH]; [done|]. rewrite filter_cons, decide_True by (apply Hall; left).
  simpl. f_equal. apply IH. intros c Hc. apply Hall. by right.
Qed.

(** A held buffer stays held while other buffers change. *)
Lemma held_frame s s' me blk i r data :
  held s me blk i r data → bufs s' !! i = bufs s !! i → held s' me blk i r data.
Proof. intros (b & (Hb & Hd) & Hr) He. exists b. split; [|done]. split; [congruence|done]. Qed.

Lemma held_distinct s me me' blk blk' i i' r r' d d' :
  held s me blk i r d → held s me' blk' i' r' d' → blk ≠ blk' → i ≠ i'.
Proof. intros (b & (Hb & _ & Hk) & _) (b' & (Hb' & _ & Hk') & _) Hne ->. congruence. Qed.

(** An unreferenced block reads as the disk block. *)
Lemma view_clean s blk : binv s → rc s blk = 0 → view s blk = dget (disk s) blk.
Proof.
  intros Hi Hr. unfold rc, view in *. destruct (cached s blk) as [b|] eqn:Hc; [|done].
  apply cached_at in Hc as (i & Hb & _ & Hk); [|done].
  destruct (Z.eqb_spec (valid b) 0); [done|].
  destruct (bi_free _ Hi _ _ Hb Hr) as [_ Hd]. rewrite Hd by done. congruence.
Qed.

Lemma rc_nonneg s blk : binv s → 0 <= rc s blk < 4294967295.
Proof.
  intros Hi. unfold rc. destruct (cached s blk) as [b|] eqn:Hc; [|lia].
  apply cached_at in Hc as (i & Hb & _); [|done]. by eapply bi_refcnt.
Qed.
End device.

(** ** Properties *)

(** C11: [bread] is coherent: when the block's buffer is not locked by another
    process and the block is cached or some buffer is unused, it returns a
    buffer locked by the caller whose data is the latest content of the block
    (the cached copy if there is one, the disk block otherwise), keeps the cache
    consistent, and changes neither the disk nor what a read of any other block
    would return, even when it recycles a buffer. *)
Theorem bread_coherent (dev me blk : Z) (s : bst) :
  dev ≠ 0 → binv dev s → holder dev s blk = None → rc dev s blk < 4294967294 →
  (cached dev s blk ≠ None ∨ (0 < nfree s)%nat) →
  ∃ i s', bread me dev blk s = Ok (i, s') ∧ binv dev s' ∧
    bdata (getb s' i) = bview s dev blk ∧ bowner (getb s' i) = Some me ∧
    blockno (getb s' i) = blk ∧ disk s' = disk s ∧
    (∀ blk', bview s' dev blk' = bview s dev blk').
Proof.
  intros Hd Hi Hh Hr Hav.
  destruct (bread_spec dev Hd me blk s Hi Hh Hr Hav) as (i & s' & Heq & Hi' & Hb & Hdk & _ & Hv & _).
  destruct Hb as (b & (Hb & _ & Hk) & _ & Ho & _ & Hdata). apply getb_Some in Hb.
  exists i, s'. rewrite Hb, <-view_bview. split_and!; try done.
  intros blk'. by rewrite <-!view_bview.
Qed.

(** [bget] panics exactly when the block is not cached and every buffer is in
    use. *)
Theorem bget_no_buffers (dev me blk : Z) (s : bst) :
  dev ≠ 0 → binv dev s →
  bget me dev blk s = Panic "bget: no buffers" ↔ cached dev s blk = None ∧ nfree s = 0%nat.
Proof.
  intros Hd Hi. pose proof (nfree_pos dev s Hi) as Hn. unfold bget, cached, acquiresleep in *.
  destruct (scan (is_block dev blk) s (lru s)); simpl.
  { split; [|naive_solver]. by case_match. }
  destruct (scan is_unused s (reverse (lru s))).
  - split; [by case_match|]. intros [_ H0]. rewrite H0 in Hn. destruct Hn as [_ Hn].
    assert (0 < 0)%nat by by apply Hn. lia.
  - split; [|done]. intros _. split; [done|]. destruct (nfree s); [done|].
    destruct Hn as [Hn _]. by destruct (Hn ltac:(lia)).
Qed.

(** *** Witnesses *)
Definition disk1 : gmap Z block := <[5 := replicate 1024 7]> ∅.

Lemma bread_coherent_witness :
  ∃ i s', bread 1 1 5 (binit disk1) = Ok (i, s') ∧ bdata (getb s' i) = replicate 1024 7.
Proof.
  destruct (bread_coherent 1 1 5 (binit disk1)) as (i & s' & Heq & _ & Hd & _);
    [done|apply binit_inv|by vm_compute|by vm_compute|right; apply Nat.ltb_lt; by vm_compute|].
  exists i, s'. split; [exact Heq|]. rewrite Hd. by vm_compute.
Defined.

(** Every buffer in use for some other block. *)
Definition all_used : bst :=
  mkB ((λ k, mkBuf 1 1 k 1 zero_block None) <$> seqZ 100 30) (lru (binit ∅)) ∅ [].

Lemma all_used_inv : binv 1 all_used.
Proof.
  assert (∀ i b, bufs all_used !! i = Some b →
    b = mkBuf 1 1 (100 + Z.of_nat i) 1 zero_block None) as Hb.
  { intros i b. change (bufs all_used) with
      ((λ k, mkBuf 1 1 k 1 zero_block None) <$> seqZ 100 30). rewrite list_lookup_fmap.
    intros (k & [-> _]%lookup_seqZ & ->)%fmap_Some. done. }
  split.
  - split; [apply (bool_decide_unpack _); by vm_compute|]. intros i.
    change (lru all_used) with (lru (binit ∅)).
    assert (lru (binit ∅) = reverse (seq 0 NBUF)) as -> by by vm_compute.
    rewrite elem_of_reverse, elem_of_seq. change (bufs all_used) with
      ((λ k, mkBuf 1 1 k 1 zero_block None) <$> seqZ 100 30).
    rewrite lookup_lt_is_Some, length_fmap, length_seqZ. unfold NBUF. lia.
  - intros i j b b' ->%Hb ->%Hb _ _. simpl. lia.
  - intros i b ->%Hb. simpl. lia.
  - intros i b ->%Hb. done.
  - intros i b ->%Hb. done.
  - by vm_compute.
Qed.

Lemma bget_no_buffers_witness : bget 1 1 5 all_used = Panic "bget: no buffers".
Proof.
  apply (bget_no_buffers 1 1 5 all_used); [done|exact all_used_inv|]. split; by vm_compute.
Defined.
