(* ===== verification/Log.v ===== *)
(** * log.c: the redo log

    The state is the in-memory [struct log] and the buffer cache.  The functions
    run for the process [me].  A write of the disk block is atomic; the cache
    records the writes in order ([wlog]), so that a crash is a prefix of them. *)
From S2P Require Import Prelude Proc Bio.

Record logst := mkLog {
  start : Z; outstanding : Z; committing : Z; ldev : Z; lh_n : Z; lh_block : list Z
}.

Definition set_lh_n (v : Z) (l : logst) : logst :=
  mkLog (start l) (outstanding l) (committing l) (ldev l) v (lh_block l).
Definition set_lh_block (v : list Z) (l : logst) : logst :=
  mkLog (start l) (outstanding l) (committing l) (ldev l) (lh_n l) v.
Definition set_outstanding (v : Z) (l : logst) : logst :=
  mkLog (start l) v (committing l) (ldev l) (lh_n l) (lh_block l).
Definition set_committing (v : Z) (l : logst) : logst :=
  mkLog (start l) (outstanding l) v (ldev l) (lh_n l) (lh_block l).

Definition lblock (l : logst) (i : Z) : Z := aget (lh_block l) i.

(** ** Integers in a block, little-endian *)
Definition le32 (v : Z) : list Z :=
  let v := u32 v in [v mod 256; v / 256 mod 256; v / 65536 mod 256; v / 16777216].
Definition get32 (d : block) (off : Z) : Z :=
  i32 (aget d off + 256 * aget d (off + 1) + 65536 * aget d (off + 2) + 16777216 * aget d (off + 3)).
Definition put32 (d : block) (off v : Z) : block := splice d off (le32 v).

(** [struct logheader] in a block: [n] at 0, [block[i]] at 4 + 4 i. *)
Fixpoint put_blocks (d : block) (l : logst) (i : Z) (k : nat) : block :=
  match k with
  | O => d
  | S k' => put_blocks (put32 d (4 + 4 * i) (lblock l i)) l (i + 1) k'
  end.

Fixpoint get_blocks (d : block) (bl : list Z) (i : Z) (k : nat) : list Z :=
  match k with
  | O => bl
  | S k' => get_blocks d (<[Z.to_nat i := get32 d (4 + 4 * i)]> bl) (i + 1) k'
  end.

Section log.
Context (me : Z).

(** One iteration of [install_trans]. *)
Definition install1 (recovering : bool) (l : logst) (tail : Z) (s : bst) : res bst :=
  '(lbuf, s) ← bread me (ldev l) (start l + tail + 1) s;
  '(dbuf, s) ← bread me (ldev l) (lblock l tail) s;
  let s := put_data dbuf (bdata (getb s lbuf)) s in
  s ← bwrite me dbuf s;
  let s := if recovering then s else bunpin dbuf s in
  s ← brelse me lbuf s;
  brelse me dbuf s.

Fixpoint install_loop (recovering : bool) (l : logst) (tail : Z) (k : nat) (s : bst) : res bst :=
  match k with
  | O => Ok s
  | S k' => s ← install1 recovering l tail s; install_loop recovering l (tail + 1) k' s
  end.
Definition install_trans (recovering : bool) (l : logst) (s : bst) : res bst :=
  install_loop recovering l 0 (Z.to_nat (lh_n l)) s.

Definition read_head (l : logst) (s : bst) : res (logst * bst) :=
  '(b, s) ← bread me (ldev l) (start l) s;
  let d := bdata (getb s b) in
  let n := get32 d 0 in
  let l := set_lh_n n l in
  let l := set_lh_block (get_blocks d (lh_block l) 0 (Z.to_nat n)) l in
  s ← brelse me b s;
  Ok (l, s).

Definition write_head (l : logst) (s : bst) : res bst :=
  '(b, s) ← bread me (ldev l) (start l) s;
  let d := put32 (bdata (getb s b)) 0 (lh_n l) in
  let d := put_blocks d l 0 (Z.to_nat (lh_n l)) in
  let s := put_data b d s in
  s ← bwrite me b s;
  brelse me b s.

Definition recover_from_log (l : logst) (s : bst) : res (logst * bst) :=
  '(l, s) ← read_head l s;
  s ← install_trans true l s;
  let l := set_lh_n 0 l in
  s ← write_head l s;
  Ok (l, s).

Definition initlog (dev logstart : Z) (l : logst) (s : bst) : res (logst * bst) :=
  if BSIZE <=? 4 + 4 * LOGBLOCKS then Panic "initlog: too big logheader"
  else recover_from_log (mkLog logstart (outstanding l) (committing l) dev (lh_n l) (lh_block l)) s.

Definition write_log1 (l : logst) (tail : Z) (s : bst) : res bst :=
  '(to, s) ← bread me (ldev l) (start l + tail + 1) s;
  '(from, s) ← bread me (ldev l) (lblock l tail) s;
  let s := put_data to (bdata (getb s from)) s in
  s ← bwrite me to s;
  s ← brelse me from s;
  brelse me to s.

Fixpoint write_log_loop (l : logst) (tail : Z) (k : nat) (s : bst) : res bst :=
  match k with
  | O => Ok s
  | S k' => s ← write_log1 l tail s; write_log_loop l (tail + 1) k' s
  end.
Definition write_log (l : logst) (s : bst) : res bst := write_log_loop l 0 (Z.to_nat (lh_n l)) s.

Definition commit (l : logst) (s : bst) : res (logst * bst) :=
  if 0 <? lh_n l then
    s ← write_log l s;
    s ← write_head l s;
    s ← install_trans false l s;
    let l := set_lh_n 0 l in
    s ← write_head l s;
    Ok (l, s)
  else Ok (l, s).

(** One turn of the loop of [begin_op]: [None] when the process has to sleep. *)
Definition begin_op (l : logst) : option logst :=
  if negb (committing l =? 0) then None
  else if LOGBLOCKS <? lh_n l + (outstanding l + 1) * MAXOPBLOCKS then None
  else Some (set_outstanding (outstanding l + 1) l).

(** [end_op] up to the release of the lock: whether to commit, and the process
    table after the wakeup. *)
Definition end_op_begin (V : Z) (p : nat) (l : logst) (tab : list proc)
    : res (bool * logst * list proc) :=
  let l := set_outstanding (outstanding l - 1) l in
  if negb (committing l =? 0) then Panic "log.committing"
  else if outstanding l =? 0 then Ok (true, set_committing 1 l, tab)
  else Ok (false, l, wakeup V (Some p) ChLog tab).

Definition end_op (V : Z) (p : nat) (l : logst) (tab : list proc) (s : bst)
    : res (logst * list proc * bst) :=
  '(do_commit, l, tab) ← end_op_begin V p l tab;
  if do_commit : bool then
    '(l, s) ← commit l s;
    Ok (set_committing 0 l, wakeup V (Some p) ChLog tab, s)
  else Ok (l, tab, s).

(** The index the loop of [log_write] stops at. *)
Fixpoint find_block (l : logst) (blk i : Z) (k : nat) : Z :=
  match k with
  | O => i
  | S k' => if lblock l i =? blk then i else find_block l blk (i + 1) k'
  end.

Definition log_write (b : nat) (l : logst) (s : bst) : res (logst * bst) :=
  if LOGBLOCKS <=? lh_n l then Panic "too big a transaction"
  else if outstanding l <? 1 then Panic "log_write outside of trans"
  else
    let blk := blockno (getb s b) in
    let i := find_block l blk 0 (Z.to_nat (lh_n l)) in
    let l := set_lh_block (<[Z.to_nat i := blk]> (lh_block l)) l in
    if i =? lh_n l then Ok (set_lh_n (lh_n l + 1) l, bpin b s) else Ok (l, s).
End log.
