(* ===== verification/LogSpec.v ===== *)
(** * What the phases of the log do to the disk and the cache *)
From S2P Require Import Prelude Proc Bio Log.

(** ** The header block *)
Lemma le32_length v : zlen (le32 v) = 4.
Proof. done. Qed.

Lemma le32_sum v :
  let b := le32 v in
  aget b 0 + 256 * aget b 1 + 65536 * aget b 2 + 16777216 * aget b 3 = u32 v.
Proof.
  unfold le32, aget. simpl. set (x := u32 v). pose proof (u32_range v). fold x in H.
  pose proof (Z.div_mod x 256). pose proof (Z.div_mod (x / 256) 256).
  pose proof (Z.div_mod (x / 65536) 256).
  replace (x / 65536) with (x / 256 / 256) in * by (by rewrite Z.div_div by lia).
  replace (x / 16777216) with (x / 256 / 256 / 256) by (by rewrite !Z.div_div by lia). lia.
Qed.

Lemma i32_u32 v : i32 (u32 v) = i32 v.
Proof. unfold i32. by rewrite u32_idemp. Qed.

Lemma get32_put32 d off v :
  0 <= off → off + 4 <= zlen d → get32 (put32 d off v) off = i32 v.
Proof.
  intros Ho Hl. unfold get32, put32. rewrite !splice_aget by (rewrite ?le32_length; lia).
  rewrite le32_length. repeat (rewrite (proj2 (Z.leb_le _ _)) by lia).
  repeat (rewrite (proj2 (Z.ltb_lt _ _)) by lia). simpl.
  replace (off - off) with 0 by lia. replace (off + 1 - off) with 1 by lia.
  replace (off + 2 - off) with 2 by lia. replace (off + 3 - off) with 3 by lia.
  rewrite le32_sum. apply i32_u32.
Qed.

Lemma get32_put32_ne d off off' v :
  0 <= off → 0 <= off' → off + 4 <= zlen d → off' + 4 <= off ∨ off + 4 <= off' →
  get32 (put32 d off v) off' = get32 d off'.
Proof.
  intros Ho Ho' Hl Hne. unfold get32, put32.
  assert (∀ j, 0 <= j < 4 → aget (splice d off (le32 v)) (off' + j) = aget d (off' + j)) as Hj.
  { intros j Hj. rewrite splice_aget by (rewrite ?le32_length; lia). rewrite le32_length.
    destruct (Z.leb_spec off (off' + j)), (Z.ltb_spec (off' + j) (off + 4)); simpl; done || lia. }
  replace off' with (off' + 0) at 1 by lia. rewrite !Hj by lia. by rewrite Z.add_0_r.
Qed.

Lemma put32_length d off v : 0 <= off → off + 4 <= zlen d → zlen (put32 d off v) = zlen d.
Proof. intros. apply splice_length; rewrite ?le32_length; lia. Qed.

Lemma put_blocks_spec l k : ∀ d i,
  0 <= i → 4 + 4 * (i + Z.of_nat k) <= zlen d →
  zlen (put_blocks d l i k) = zlen d ∧
  (∀ j, i <= j < i + Z.of_nat k → get32 (put_blocks d l i k) (4 + 4 * j) = i32 (lblock l j)) ∧
  (∀ off, 0 <= off → off + 4 <= 4 + 4 * i → get32 (put_blocks d l i k) off = get32 d off).
Proof.
  induction k as [|k IH]; intros d i Hi Hl; simpl.
  { split_and!; [done|lia|done]. }
  assert (zlen (put32 d (4 + 4 * i) (lblock l i)) = zlen d) as Hlen by (apply put32_length; lia).
  destruct (IH (put32 d (4 + 4 * i) (lblock l i)) (i + 1)) as (H1 & H2 & H3); [lia|lia|].
  split_and!.
  - congruence.
  - intros j Hj. destruct (decide (j = i)) as [->|]; [|apply H2; lia].
    rewrite H3 by lia. apply get32_put32; lia.
  - intros off Ho Hle. rewrite H3 by lia. apply get32_put32_ne; lia.
Qed.

(** The header block for the in-memory header [l], over old contents [d]. *)
Definition head_block (l : logst) (d : block) : block :=
  put_blocks (put32 d 0 (lh_n l)) l 0 (Z.to_nat (lh_n l)).

Definition head_ok (l : logst) : Prop :=
  0 <= lh_n l <= LOGBLOCKS ∧ length (lh_block l) = Z.to_nat LOGBLOCKS ∧
  ∀ i, 0 <= i < lh_n l → 0 <= lblock l i < 2147483648.

Lemma head_block_spec l d :
  head_ok l → zlen d = BSIZE →
  zlen (head_block l d) = BSIZE ∧ get32 (head_block l d) 0 = lh_n l ∧
  ∀ i, 0 <= i < lh_n l → get32 (head_block l d) (4 + 4 * i) = lblock l i.
Proof.
  intros (Hn & _ & Hb) Hd. unfold head_block, LOGBLOCKS, MAXOPBLOCKS, BSIZE in *.
  assert (zlen (put32 d 0 (lh_n l)) = 1024) as Hlen by (rewrite put32_length; lia).
  destruct (put_blocks_spec l (Z.to_nat (lh_n l)) (put32 d 0 (lh_n l)) 0) as (H1 & H2 & H3);
    [lia|lia|]. split_and!.
  - congruence.
  - rewrite H3, get32_put32 by lia. apply i32_small. lia.
  - intros i Hi. rewrite H2 by lia. by apply i32_small, Hb.
Qed.

Lemma get_blocks_spec d k : ∀ bl i,
  0 <= i → i + Z.of_nat k <= zlen bl →
  length (get_blocks d bl i k) = length bl ∧
  (∀ j, i <= j < i + Z.of_nat k → aget (get_blocks d bl i k) j = get32 d (4 + 4 * j)) ∧
  (∀ j, 0 <= j < i → aget (get_blocks d bl i k) j = aget bl j).
Proof.
  unfold zlen. induction k as [|k IH]; intros bl i Hi Hl; simpl.
  { split_and!; [done|lia|done]. }
  destruct (IH (<[Z.to_nat i := get32 d (4 + 4 * i)]> bl) (i + 1)) as (H1 & H2 & H3);
    [lia|rewrite length_insert; lia|]. split_and!.
  - by rewrite H1, length_insert.
  - intros j Hj. destruct (decide (j = i)) as [->|]; [|apply H2; lia].
    rewrite H3 by lia. unfold aget. by rewrite list_lookup_insert_eq by lia.
  - intros j Hj. rewrite H3 by lia. unfold aget. by rewrite list_lookup_insert_ne by lia.
Qed.

(** ** Copying a block through the cache *)
Section xfer.
Context (me dev : Z) (Hdev : dev ≠ 0).
Implicit Types s : bst.
Local Abbreviation binv := (binv dev).
Local Abbreviation view := (view dev).
Local Abbreviation rc := (rc dev).
Local Abbreviation holder := (holder dev).

(** Every reference count leaves room for two more. *)
Definition rc_small s : Prop := ∀ b, rc s b < 4294967290.

(** The net effect of writing [data] to block [dst] through the cache. *)
Record wrote (dst : Z) (data : block) (unpin : bool) s s' : Prop := {
  wr_inv : binv s';
  wr_disk : disk s' = <[dst := data]> (disk s);
  wr_wlog : wlog s' = wlog s ++ [(dst, data)];
  wr_view : ∀ b, view s' b = if decide (b = dst) then data else view s b;
  wr_holder : ∀ b, holder s' b = holder s b;
  wr_rc : ∀ b, rc s' b = if decide (unpin = true ∧ b = dst) then rc s b - 1 else rc s b;
  wr_free : (nfree s <= nfree s')%nat
}.

(** Reading two blocks. *)
Lemma bread2 a b s :
  binv s → rc_small s → a ≠ b → holder s a = None → holder s b = None → (2 <= nfree s)%nat →
  ∃ i s1 j s2, bread me dev a s = Ok (i, s1) ∧ bread me dev b s1 = Ok (j, s2) ∧
    binv s2 ∧ held dev s2 me a i (rc s a + 1) (view s a) ∧ held dev s2 me b j (rc s b + 1) (view s b) ∧
    i ≠ j ∧ disk s2 = disk s ∧ wlog s2 = wlog s ∧ (∀ x, view s2 x = view s x) ∧
    (∀ x, x ≠ a → x ≠ b → rc s2 x = rc s x ∧ holder s2 x = holder s x) ∧
    (nfree s2 + isz (rc s a) + isz (rc s b) = nfree s)%nat.
Proof.
  intros Hi Hrc Hne Hha Hhb Hn. pose proof (Hrc a). pose proof (Hrc b).
  destruct (bread_spec dev Hdev me a s) as (i & s1 & E1 & Hi1 & Hb1 & D1 & W1 & V1 & O1 & F1 & K1 & _);
    [done|done|lia|right; lia|].
  destruct (O1 b) as [Hrb Hob]; [done|].
  assert (isz (rc s a) <= 1)%nat by (unfold isz; case_match; lia).
  destruct (bread_spec dev Hdev me b s1) as
    (j & s2 & E2 & Hi2 & Hb2 & D2 & W2 & V2 & O2 & F2 & K2 & b0 & Hb0 & Hor);
    [done|congruence|lia|right; lia|].
  rewrite Hrb, V1 in Hb2. pose proof (rc_nonneg dev Hdev s a Hi).
  assert (held dev s1 me a i (rc s a + 1) (view s a)) as Hh1 by exact Hb1.
  assert (i ≠ j) as Hij.
  { intros <-. destruct Hb1 as (b1 & (Hl1 & Hd1 & Hk1) & _ & _ & Hr1 & _).
    assert (b1 = b0) as -> by congruence. destruct Hor; [congruence|lia]. }
  exists i, s1, j, s2. split; [exact E1|]. split; [exact E2|]. split; [exact Hi2|].
  split; [eapply held_frame; [exact Hh1|by apply K2]|]. split; [exact Hb2|].
  split; [exact Hij|]. split; [congruence|]. split; [congruence|]. split_and!.
  - intros x. by rewrite V2, V1.
  - intros x Hxa Hxb. destruct (O2 x Hxb) as [-> ->]. by apply O1.
  - rewrite Hrb in F2. lia.
Qed.

(** The end of both copy loops: the destination [j] (block [dst]) has been
    filled from [i] (block [src]); write it, drop a pin if asked, release both. *)
Lemma write_release src dst i j r r' data data0 (unpin : bool) s :
  binv s → src ≠ dst → i ≠ j →
  held dev s me src i r data → held dev s me dst j r' data0 →
  1 <= r < 4294967295 → (if unpin then 2 else 1) <= r' < 4294967295 →
  (r = 1 → data = dget (disk s) src) →
  ∃ s1 s2 s3, bwrite me j (put_data j data s) = Ok s1 ∧
    brelse me i (if unpin then bunpin j s1 else s1) = Ok s2 ∧ brelse me j s2 = Ok s3 ∧
    binv s3 ∧ disk s3 = <[dst := data]> (disk s) ∧ wlog s3 = wlog s ++ [(dst, data)] ∧
    view s3 dst = data ∧ view s3 src = data ∧ holder s3 dst = None ∧ holder s3 src = None ∧
    rc s3 src = r - 1 ∧ rc s3 dst = r' - 1 - (if unpin then 1 else 0) ∧
    (∀ b, b ≠ src → b ≠ dst →
       view s3 b = view s b ∧ rc s3 b = rc s b ∧ holder s3 b = holder s b) ∧
    (nfree s + isz (r - 1) + isz (r' - 1 - (if unpin then 1 else 0)) = nfree s3)%nat.
Proof.
  intros Hi Hne Hij Hhs Hhd Hr Hr' Hcl.
  destruct (put_data_spec dev Hdev me dst j r' data0 data s) as (I1 & H1 & O1 & D1 & W1 & F1);
    [done|done|destruct unpin; lia|]. set (s0 := put_data j data s) in *.
  assert (held dev s0 me src i r data) as Hs0.
  { eapply held_frame; [exact Hhs|]. by apply lookup_upd_ne. }
  destruct (bwrite_spec dev Hdev me dst j r' data s0) as (s1 & E1 & I2 & H2 & D2 & W2 & F2 & B2 & V2);
    [done|done|].
  assert (held dev s1 me src i r data) as Hs1 by (eapply held_frame; [exact Hs0|by rewrite B2]).
  set (u := if unpin then 1 else 0).
  assert (∃ sb, (if unpin then bunpin j s1 else s1) = sb ∧ binv sb ∧ held dev sb me dst j (r' - u) data ∧
    held dev sb me src i r data ∧ same_other dev dst s1 sb ∧ disk sb = disk s1 ∧ wlog sb = wlog s1 ∧
    nfree sb = nfree s1) as (sb & Esb & Ib & Hbd & Hbs & Ob & Db & Wb & Fb).
  { eexists. split; [reflexivity|]. destruct unpin.
    - destruct (bunpin_spec dev Hdev me dst j r' data s1) as (? & ? & ? & ? & ? & ?); [done|done|lia|].
      split_and!; try done. eapply held_frame; [exact Hs1|]. by apply lookup_upd_ne.
    - unfold u. rewrite Z.sub_0_r. split_and!; try done. }
  destruct (brelse_spec dev Hdev me src i r data sb) as
    (s2 & E2 & I3 & R3 & Ho3 & V3 & O3 & D3 & W3 & F3 & K3); [done|done|lia| |].
  { intros H1r. rewrite Db, D2, D1. unfold dget. rewrite lookup_insert_ne by congruence. auto. }
  assert (held dev s2 me dst j (r' - u) data) as Hd2 by (eapply held_frame; [exact Hbd|by apply K3]).
  destruct (brelse_spec dev Hdev me dst j (r' - u) data s2) as
    (s3 & E3 & I4 & R4 & Ho4 & V4 & O4 & D4 & W4 & F4 & K4);
    [done|done|unfold u; destruct unpin; lia| |].
  { intros _. rewrite D3, Db, D2. unfold dget. by rewrite lookup_insert_eq. }
  exists s1, s2, s3. split; [exact E1|]. split; [rewrite Esb; exact E2|]. split; [exact E3|].
  split; [done|]. split; [congruence|]. split; [congruence|]. split_and!; try done.
  - destruct (O4 src) as (-> & _); [done|]. done.
  - destruct (O4 src) as (_ & _ & ->); [done|]. done.
  - destruct (O4 src) as (_ & -> & _); [done|]. done.
  - rewrite R4. unfold u. destruct unpin; lia.
  - intros b Hbs' Hbd'. destruct (O4 b) as (-> & -> & ->); [done|].
    destruct (O3 b) as (-> & -> & ->); [done|]. destruct (Ob b) as (-> & -> & ->); [done|].
    destruct (V2 b) as (-> & -> & ->). by apply O1.
  - rewrite F4, F3, Fb, F2, F1. replace (r' - u - 1) with (r' - 1 - u) by lia. lia.
Qed.

Lemma write_release_wrote src dst (unpin : bool) s s2 i j :
  binv s → rc_small s → src ≠ dst → holder s src = None → holder s dst = None →
  (if unpin then 1 <= rc s dst else True) →
  binv s2 → held dev s2 me src i (rc s src + 1) (view s src) →
  held dev s2 me dst j (rc s dst + 1) (view s dst) → i ≠ j → disk s2 = disk s → wlog s2 = wlog s →
  (∀ x, view s2 x = view s x) →
  (∀ x, x ≠ src → x ≠ dst → rc s2 x = rc s x ∧ holder s2 x = holder s x) →
  (nfree s2 + isz (rc s src) + isz (rc s dst) = nfree s)%nat →
  ∃ sa sb sc, bwrite me j (put_data j (view s src) s2) = Ok sa ∧
    brelse me i (if unpin then bunpin j sa else sa) = Ok sb ∧ brelse me j sb = Ok sc ∧
    wrote dst (view s src) unpin s sc.
Proof.
  intros Hi Hrc Hne Hhs Hhd Hun I2 Hs2 Hd2 Hij D2 W2 V2 O2 F2.
  pose proof (rc_nonneg dev Hdev s src Hi). pose proof (rc_nonneg dev Hdev s dst Hi).
  pose proof (Hrc src). pose proof (Hrc dst).
  destruct (write_release src dst i j (rc s src + 1) (rc s dst + 1) (view s src) (view s dst) unpin s2)
    as (sa & sb & sc & E1 & E2 & E3 & I3 & D3 & W3 & Vd & Vs & Hd & Hs & Rs & Rd & O3 & F3);
    try done; try lia; [destruct unpin; lia| |].
  { intros Hone. rewrite D2. apply view_clean; [done|done|lia]. }
  exists sa, sb, sc. split; [exact E1|]. split; [exact E2|]. split; [exact E3|].
  split; [done|congruence|congruence| | | |].
  - intros b. case_decide as Hb; [by subst|].
    destruct (decide (b = src)) as [->|Hbs]; [done|]. destruct (O3 b Hbs Hb) as (-> & _). apply V2.
  - intros b. destruct (decide (b = src)) as [->|Hbs]; [congruence|].
    destruct (decide (b = dst)) as [->|Hbd]; [congruence|].
    destruct (O3 b Hbs Hbd) as (_ & _ & ->). by apply O2.
  - intros b. destruct (decide (b = dst)) as [->|Hbd].
    + rewrite Rd. destruct unpin; case_decide; naive_solver lia.
    + rewrite decide_False by naive_solver.
      destruct (decide (b = src)) as [->|Hbs]; [lia|].
      destruct (O3 b Hbs Hbd) as (_ & -> & _). by apply O2.
  - replace (rc s src + 1 - 1) with (rc s src) in F3 by lia. 
    assert (isz (rc s dst) <= isz (rc s dst + 1 - 1 - (if unpin then 1 else 0)))%nat; [|lia].
    unfold isz. repeat case_match; lia.
Qed.

Lemma install1_spec recovering l tail s :
  ldev l = dev → binv s → rc_small s → start l + tail + 1 ≠ lblock l tail →
  holder s (start l + tail + 1) = None → holder s (lblock l tail) = None → (2 <= nfree s)%nat →
  (recovering = false → 1 <= rc s (lblock l tail)) →
  ∃ s', install1 me recovering l tail s = Ok s' ∧
    wrote (lblock l tail) (view s (start l + tail + 1)) (negb recovering) s s'.
Proof.
  intros Hl Hi Hrc Hne Hha Hhb Hn Hpin. unfold install1. rewrite Hl.
  destruct (bread2 (start l + tail + 1) (lblock l tail) s)
    as (i & s1 & j & s2 & E1 & E2 & I2 & Ha & Hb & Hij & D2 & W2 & V2 & O2 & F2); try done.
  rewrite E1. cbn [mbind res_bind]. rewrite E2. cbn [mbind res_bind].
  destruct (held_cached dev Hdev _ _ _ _ _ _ I2 Ha) as (_ & _ & _ & _ & Hg). rewrite Hg. simpl bdata.
  destruct (write_release_wrote (start l + tail + 1) (lblock l tail) (negb recovering) s s2 i j)
    as (sa & sb & sc & Ea & Eb & Ec & Hw); try done.
  { destruct recovering; [done|]. by apply Hpin. }
  exists sc. split; [|done]. rewrite Ea. cbn [mbind res_bind].
  destruct recovering; simpl in Eb; rewrite Eb; exact Ec.
Qed.

Lemma write_log1_spec l tail s :
  ldev l = dev → binv s → rc_small s → start l + tail + 1 ≠ lblock l tail →
  holder s (start l + tail + 1) = None → holder s (lblock l tail) = None → (2 <= nfree s)%nat →
  ∃ s', write_log1 me l tail s = Ok s' ∧
    wrote (start l + tail + 1) (view s (lblock l tail)) false s s'.
Proof.
  intros Hl Hi Hrc Hne Hha Hhb Hn. unfold write_log1. rewrite Hl.
  destruct (bread2 (start l + tail + 1) (lblock l tail) s)
    as (j & s1 & i & s2 & E1 & E2 & I2 & Ha & Hb & Hij & D2 & W2 & V2 & O2 & F2); try done.
  rewrite E1. cbn [mbind res_bind]. rewrite E2. cbn [mbind res_bind].
  destruct (held_cached dev Hdev _ _ _ _ _ _ I2 Hb) as (_ & _ & _ & _ & Hg). rewrite Hg. simpl bdata.
  destruct (write_release_wrote (lblock l tail) (start l + tail + 1) false s s2 i j)
    as (sa & sb & sc & Ea & Eb & Ec & Hw); try done; [auto..|lia|].
  exists sc. split; [|done]. rewrite Ea. cbn [mbind res_bind].
  simpl in Eb. rewrite Eb. exact Ec.
Qed.

(** Rewriting one block in place. *)
Lemma write_head_spec l s :
  ldev l = dev → binv s → rc_small s → holder s (start l) = None → (2 <= nfree s)%nat →
  ∃ s', write_head me l s = Ok s' ∧ wrote (start l) (head_block l (view s (start l))) false s s'.
Proof.
  intros Hl Hi Hrc Hh Hn. unfold write_head. rewrite Hl.
  pose proof (Hrc (start l)). pose proof (rc_nonneg dev Hdev s (start l) Hi).
  destruct (bread_spec dev Hdev me (start l) s) as (i & s1 & E1 & I1 & Hb & D1 & W1 & V1 & O1 & F1 & _);
    [done|done|lia|right; lia|].
  rewrite E1. cbn [mbind res_bind].
  assert (held dev s1 me (start l) i (rc s (start l) + 1) (view s (start l))) as Hh1 by exact Hb.
  destruct (held_cached dev Hdev _ _ _ _ _ _ I1 Hh1) as (_ & _ & _ & _ & Hg). rewrite Hg. simpl bdata.
  fold (head_block l (view s (start l))). set (d := head_block l (view s (start l))).
  destruct (put_data_spec dev Hdev me (start l) i (rc s (start l) + 1) (view s (start l)) d s1)
    as (I2 & H2 & O2 & D2 & W2 & F2); [done|done|lia|].
  destruct (bwrite_spec dev Hdev me (start l) i (rc s (start l) + 1) d (put_data i d s1))
    as (s3 & E3 & I3 & H3 & D3 & W3 & F3 & _ & V3); [done|done|].
  rewrite E3. cbn [mbind res_bind].
  destruct (brelse_spec dev Hdev me (start l) i (rc s (start l) + 1) d s3)
    as (s4 & E4 & I4 & R4 & Ho4 & V4 & O4 & D4 & W4 & F4 & _); [done|done|lia| |].
  { intros _. rewrite D3. unfold dget. by rewrite lookup_insert_eq. }
  exists s4. split; [exact E4|]. split; [done|congruence|congruence| | | |].
  - intros b. case_decide as Hb'; [by subst|]. destruct (O4 b Hb') as (-> & _).
    destruct (V3 b) as (-> & _). destruct (O2 b Hb') as (-> & _). apply V1.
  - intros b. destruct (decide (b = start l)) as [->|Hb']; [congruence|].
    destruct (O4 b Hb') as (_ & _ & ->). destruct (V3 b) as (_ & _ & ->).
    destruct (O2 b Hb') as (_ & _ & ->). by apply O1.
  - intros b. rewrite decide_False by naive_solver.
    destruct (decide (b = start l)) as [->|Hb']; [rewrite R4; lia|].
    destruct (O4 b Hb') as (_ & -> & _). destruct (V3 b) as (_ & -> & _).
    destruct (O2 b Hb') as (_ & -> & _). by apply O1.
  - replace (rc s (start l) + 1 - 1) with (rc s (start l)) in F4 by lia. lia.
Qed.
End xfer.
