(* ===== verification/LogCrash.v ===== *)
(** * Crash safety of the log *)
From S2P Require Import Prelude Proc Bio Log LogSpec.

(** ** Sequences of disk writes *)
Definition apply_writes (d : gmap Z block) (ws : list (Z * block)) : gmap Z block :=
  foldl (λ d w, <[w.1 := w.2]> d) d ws.

Lemma apply_writes_app d ws ws' : apply_writes d (ws ++ ws') = apply_writes (apply_writes d ws) ws'.
Proof. apply foldl_app. Qed.

Lemma dget_insert d a x b : dget (<[a := x]> d) b = if decide (a = b) then x else dget d b.
Proof. unfold dget. rewrite lookup_insert. by case_decide. Qed.

Lemma dget_notin ws : ∀ d b, b ∉ ws.*1 → dget (apply_writes d ws) b = dget d b.
Proof.
  induction ws as [|[a x] ws IH]; intros d b; simpl; [done|].
  intros [Hne Hn]%not_elem_of_cons. unfold apply_writes in *. simpl. rewrite IH by done.
  rewrite dget_insert, decide_False; done.
Qed.

Lemma dget_in ws : ∀ d b x, NoDup ws.*1 → (b, x) ∈ ws → dget (apply_writes d ws) b = x.
Proof.
  induction ws as [|[a y] ws IH]; intros d b x; simpl; [by intros _ ?%not_elem_of_nil|].
  intros [Hn Hnd]%NoDup_cons [[= -> ->]|Hin]%elem_of_cons.
  - change (dget (apply_writes (<[a:=y]> d) ws) a = y). rewrite dget_notin by done.
    rewrite dget_insert, decide_True; done.
  - by apply (IH (<[a:=y]> d)).
Qed.

Section crash.
Context (me dev : Z) (Hdev : dev ≠ 0).
Implicit Types s : bst.
Local Abbreviation binv := (binv dev).
Local Abbreviation view := (view dev).
Local Abbreviation rc := (rc dev).
Local Abbreviation holder := (holder dev).
Local Abbreviation rc_small := (rc_small dev).
Local Abbreviation wrote := (wrote dev).

(** The net effect of a loop that performs the writes [ws]. *)
Record wrote_all (ws : list (Z * block)) s s' : Prop := {
  wa_inv : binv s';
  wa_disk : disk s' = apply_writes (disk s) ws;
  wa_wlog : wlog s' = wlog s ++ ws;
  wa_view : ∀ b, b ∉ ws.*1 → view s' b = view s b;
  wa_holder : ∀ b, holder s' b = holder s b;
  wa_rc : ∀ b, rc s' b <= rc s b;
  wa_rc_other : ∀ b, b ∉ ws.*1 → rc s' b = rc s b;
  wa_free : (nfree s <= nfree s')%nat
}.

Lemma wrote_all_nil s : binv s → wrote_all [] s s.
Proof. intros. split; try done. simpl. by rewrite app_nil_r. Qed.

Lemma wrote_all_one dst data unpin s s' : wrote dst data unpin s s' → wrote_all [(dst, data)] s s'.
Proof.
  intros H. split; try apply H.
  - intros b Hb. rewrite (wr_view _ _ _ _ _ _ H), decide_False; [done|]. set_solver.
  - intros b. rewrite (wr_rc _ _ _ _ _ _ H). case_decide; lia.
  - intros b Hb. rewrite (wr_rc _ _ _ _ _ _ H), decide_False; [done|]. set_solver.
Qed.

Lemma wrote_all_trans ws ws' s s1 s2 :
  wrote_all ws s s1 → wrote_all ws' s1 s2 → wrote_all (ws ++ ws') s s2.
Proof.
  intros H1 H2. split.
  - apply H2.
  - rewrite apply_writes_app, (wa_disk _ _ _ H2), (wa_disk _ _ _ H1). done.
  - rewrite (wa_wlog _ _ _ H2), (wa_wlog _ _ _ H1). by rewrite app_assoc.
  - intros b. rewrite fmap_app, not_elem_of_app. intros [Hb Hb'].
    rewrite (wa_view _ _ _ H2), (wa_view _ _ _ H1); done.
  - intros b. by rewrite (wa_holder _ _ _ H2), (wa_holder _ _ _ H1).
  - intros b. pose proof (wa_rc _ _ _ H2 b). pose proof (wa_rc _ _ _ H1 b). lia.
  - intros b. rewrite fmap_app, not_elem_of_app. intros [Hb Hb'].
    rewrite (wa_rc_other _ _ _ H2), (wa_rc_other _ _ _ H1); done.
  - pose proof (wa_free _ _ _ H1). pose proof (wa_free _ _ _ H2). lia.
Qed.

Lemma wrote_all_small ws s s' : wrote_all ws s s' → rc_small s → rc_small s'.
Proof. intros H Hs b. pose proof (wa_rc _ _ _ H b). pose proof (Hs b). lia. Qed.

(** ** The two copy loops *)

(** The blocks of iterations [tail .. tail + k) are free to be read, and log
    blocks are not home blocks. *)
Definition apart (l : logst) (n : Z) : Prop :=
  ∀ t j, 0 <= t < n → -1 <= j < LOGBLOCKS → lblock l t ≠ start l + j + 1.

Definition log_writes (l : logst) (new : Z → block) (tail k : Z) : list (Z * block) :=
  (λ t, (start l + t + 1, new t)) <$> seqZ tail k.
Definition home_writes (l : logst) (new : Z → block) (tail k : Z) : list (Z * block) :=
  (λ t, (lblock l t, new t)) <$> seqZ tail k.

Lemma seqZ_S m k : seqZ m (Z.of_nat (S k)) = m :: seqZ (m + 1) (Z.of_nat k).
Proof. rewrite seqZ_cons by lia. f_equal. f_equal; lia. Qed.

Lemma log_writes_fst l new tail k b :
  b ∈ (log_writes l new tail k).*1 ↔ tail < b - start l <= tail + k.
Proof.
  unfold log_writes. rewrite <-list_fmap_compose, list_elem_of_fmap. simpl. split.
  - intros (t & -> & Ht%elem_of_seqZ). lia.
  - intros Hb. exists (b - start l - 1). split; [simpl; lia|]. apply elem_of_seqZ. lia.
Qed.

Lemma home_writes_fst l new tail k b :
  b ∈ (home_writes l new tail k).*1 ↔ ∃ t, tail <= t < tail + k ∧ b = lblock l t.
Proof.
  unfold home_writes. rewrite <-list_fmap_compose, list_elem_of_fmap. simpl. split.
  - intros (t & -> & Ht%elem_of_seqZ). exists t. split; [lia|done].
  - intros (t & Ht & ->). exists t. split; [done|]. apply elem_of_seqZ. lia.
Qed.

Lemma write_log_loop_spec l new n : ldev l = dev → n <= LOGBLOCKS → apart l n →
  ∀ k tail s,
  binv s → rc_small s → (2 <= nfree s)%nat → 0 <= tail → tail + Z.of_nat k <= n →
  (∀ b, start l < b <= start l + n → holder s b = None) →
  (∀ t, 0 <= t < n → holder s (lblock l t) = None ∧ view s (lblock l t) = new t) →
  ∃ s', write_log_loop me l tail k s = Ok s' ∧
    wrote_all (log_writes l new tail (Z.of_nat k)) s s' ∧
    ∀ t, tail <= t < tail + Z.of_nat k → view s' (start l + t + 1) = new t.
Proof.
  intros Hl Hn Hap. induction k as [|k IH]; intros tail s Hi Hrc Hf Ht Hk Hh Hb.
  { exists s. split; [done|]. split; [by apply wrote_all_nil|lia]. }
  destruct (Hb tail) as [Hhb Hvb]; [lia|].
  destruct (write_log1_spec me dev Hdev l tail s) as (s1 & E1 & Hw); try done.
  { intros He. apply (Hap tail tail); [lia|lia|done]. }
  { apply Hh. lia. }
  rewrite Hvb in Hw. pose proof (wrote_all_one _ _ _ _ _ Hw) as Ha.
  destruct (IH (tail + 1) s1) as (s' & E2 & Ha2 & Hv2).
  - apply Hw.
  - by eapply wrote_all_small.
  - pose proof (wa_free _ _ _ Ha). lia.
  - lia.
  - lia.
  - intros b Hbr. rewrite (wa_holder _ _ _ Ha). by apply Hh.
  - intros t Htr. rewrite (wa_holder _ _ _ Ha). destruct (Hb t Htr) as [? ?]. split; [done|].
    rewrite (wa_view _ _ _ Ha); [done|]. simpl. intros He%list_elem_of_singleton.
    apply (Hap t tail); [lia|lia|done].
  - exists s'. split; [cbn [write_log_loop]; rewrite E1; exact E2|]. split.
    + unfold log_writes. rewrite seqZ_S. by eapply (wrote_all_trans [_]).
    + intros t Htr. destruct (decide (t = tail)) as [->|]; [|apply Hv2; lia].
      rewrite (wa_view _ _ _ Ha2); [|rewrite log_writes_fst; lia].
      rewrite (wr_view _ _ _ _ _ _ Hw). by rewrite decide_True.
Qed.

Lemma install_loop_spec recovering l new n : ldev l = dev → n <= LOGBLOCKS → apart l n →
  (∀ t t', 0 <= t < n → 0 <= t' < n → lblock l t = lblock l t' → t = t') →
  ∀ k tail s,
  binv s → rc_small s → (2 <= nfree s)%nat → 0 <= tail → tail + Z.of_nat k <= n →
  (∀ t, 0 <= t < n → holder s (start l + t + 1) = None ∧ view s (start l + t + 1) = new t) →
  (∀ t, 0 <= t < n → holder s (lblock l t) = None) →
  (recovering = false → ∀ t, tail <= t < n → 1 <= rc s (lblock l t)) →
  ∃ s', install_loop me recovering l tail k s = Ok s' ∧
    wrote_all (home_writes l new tail (Z.of_nat k)) s s' ∧
    (recovering = false → ∀ t, tail <= t < tail + Z.of_nat k → rc s' (lblock l t) = rc s (lblock l t) - 1).
Proof.
  intros Hl Hn Hap Hinj. induction k as [|k IH]; intros tail s Hi Hrc Hf Ht Hk Hlog Hhome Hpin.
  { exists s. split_and!; [done|by apply wrote_all_nil|lia]. }
  destruct (Hlog tail) as [Hhb Hvb]; [lia|].
  destruct (install1_spec me dev Hdev recovering l tail s) as (s1 & E1 & Hw); try done.
  { intros He. apply (Hap tail tail); [lia|lia|done]. }
  { apply Hhome. lia. }
  { intros Hr. apply Hpin; [done|lia]. }
  rewrite Hvb in Hw. pose proof (wrote_all_one _ _ _ _ _ Hw) as Ha.
  destruct (IH (tail + 1) s1) as (s' & E2 & Ha2 & Hu2).
  - apply Hw.
  - by eapply wrote_all_small.
  - pose proof (wa_free _ _ _ Ha). lia.
  - lia.
  - lia.
  - intros t Htr. rewrite (wa_holder _ _ _ Ha). destruct (Hlog t Htr) as [? ?]. split; [done|].
    rewrite (wa_view _ _ _ Ha); [done|]. simpl. intros He%list_elem_of_singleton.
    apply (Hap tail t); [lia|lia|done].
  - intros t Htr. rewrite (wa_holder _ _ _ Ha). by apply Hhome.
  - intros Hr t Htr. rewrite (wa_rc_other _ _ _ Ha); [apply Hpin; [done|lia]|].
    simpl. intros He%list_elem_of_singleton. apply Hinj in He; lia.
  - exists s'. split; [cbn [install_loop]; rewrite E1; exact E2|].
    split; [unfold home_writes; rewrite seqZ_S; by eapply (wrote_all_trans [_])|].
    intros Hr t Htr. pose proof (wr_rc _ _ _ _ _ _ Hw) as Hwr. rewrite Hr in Hwr.
    destruct (decide (t = tail)) as [->|Hne].
    + rewrite (wa_rc_other _ _ _ Ha2), Hwr, decide_True; [done|done|].
      rewrite home_writes_fst. intros (t' & Ht' & He). apply Hinj in He; lia.
    + rewrite (Hu2 Hr) by lia. rewrite Hwr, decide_False; [done|]. intros [_ He]. apply Hinj in He; lia.
Qed.

(** ** commit *)
Record commit_pre (l : logst) s : Prop := {
  cp_dev : ldev l = dev;
  cp_head : head_ok l;
  cp_pos : 0 < lh_n l;
  cp_inv : binv s;
  cp_small : rc_small s;
  cp_free : (2 <= nfree s)%nat;
  cp_unlocked : ∀ b, holder s b = None;
  cp_apart : apart l (lh_n l);
  cp_inj : ∀ t t', 0 <= t < lh_n l → 0 <= t' < lh_n l → lblock l t = lblock l t' → t = t';
  cp_pin : ∀ t, 0 <= t < lh_n l → 1 <= rc s (lblock l t);
  cp_hdr : rc s (start l) = 0;
  cp_size : zlen (dget (disk s) (start l)) = BSIZE;
  cp_empty : get32 (dget (disk s) (start l)) 0 = 0
}.

(** The contents the transaction gives to the block of its entry [t]. *)
Definition new_block (l : logst) s (t : Z) : block := view s (lblock l t).

Definition commit_writes (l : logst) s : list (Z * block) :=
  let hb := head_block l (dget (disk s) (start l)) in
  log_writes l (new_block l s) 0 (lh_n l) ++ [(start l, hb)] ++
  home_writes l (new_block l s) 0 (lh_n l) ++ [(start l, head_block (set_lh_n 0 l) hb)].

Lemma commit_spec l s :
  commit_pre l s → ∃ s', commit me l s = Ok (set_lh_n 0 l, s') ∧ wrote_all (commit_writes l s) s s' ∧
    ∀ t, 0 <= t < lh_n l → rc s' (lblock l t) = rc s (lblock l t) - 1.
Proof.
  intros Hp. pose proof (cp_dev _ _ Hp) as Hl. pose proof (cp_head _ _ Hp) as (Hn & _ & _).
  pose proof (cp_pos _ _ Hp). pose proof (cp_apart _ _ Hp) as Hap. pose proof (cp_unlocked _ _ Hp) as Hun.
  unfold commit. destruct (Z.ltb_spec 0 (lh_n l)); [|lia]. unfold write_log, install_trans.
  destruct (write_log_loop_spec l (new_block l s) (lh_n l) Hl ltac:(lia) Hap
    (Z.to_nat (lh_n l)) 0 s (cp_inv _ _ Hp) (cp_small _ _ Hp) (cp_free _ _ Hp))
    as (s1 & E1 & A1 & V1); try lia; [done|done|].
  rewrite Z2Nat.id in A1, V1 by lia. rewrite E1. cbn [mbind res_bind].
  destruct (write_head_spec me dev Hdev l s1) as (s2 & E2 & W2);
    [done|apply A1|by eapply wrote_all_small, (cp_small _ _ Hp)|by rewrite (wa_holder _ _ _ A1)|
     pose proof (wa_free _ _ _ A1); pose proof (cp_free _ _ Hp); lia|].
  assert (view s1 (start l) = dget (disk s) (start l)) as Hhd.
  { rewrite (wa_view _ _ _ A1) by (rewrite log_writes_fst; lia).
    apply (view_clean dev Hdev); [apply (cp_inv _ _ Hp)|apply (cp_hdr _ _ Hp)]. }
  rewrite Hhd in W2. pose proof (wrote_all_trans _ _ _ _ _ A1 (wrote_all_one _ _ _ _ _ W2)) as A2.
  rewrite E2. cbn [mbind res_bind].
  assert (∀ t, 0 <= t < lh_n l → rc s2 (lblock l t) = rc s (lblock l t)) as Hkeep.
  { intros t Ht. apply (wa_rc_other _ _ _ A2). rewrite fmap_app, not_elem_of_app, log_writes_fst. split.
    - intros Hc. apply (Hap t (lblock l t - start l - 1)); lia.
    - simpl. intros He%list_elem_of_singleton. apply (Hap t (-1)); lia. }
  destruct (install_loop_spec false l (new_block l s) (lh_n l) Hl ltac:(lia) Hap (cp_inj _ _ Hp)
    (Z.to_nat (lh_n l)) 0 s2) as (s3 & E3 & A3 & U3); try lia.
  { apply A2. }
  { by eapply wrote_all_small, (cp_small _ _ Hp). }
  { pose proof (wa_free _ _ _ A2). pose proof (cp_free _ _ Hp). lia. }
  { intros t Ht. rewrite (wa_holder _ _ _ A2). split; [done|].
    rewrite (wr_view _ _ _ _ _ _ W2), decide_False by lia. apply V1. lia. }
  { intros t Ht. by rewrite (wa_holder _ _ _ A2). }
  { intros _ t Ht. rewrite Hkeep by done. by apply (cp_pin _ _ Hp). }
  rewrite Z2Nat.id in A3 by lia. rewrite E3. cbn [mbind res_bind].
  pose proof (wrote_all_trans _ _ _ _ _ A2 A3) as A3'.
  destruct (write_head_spec me dev Hdev (set_lh_n 0 l) s3) as (s4 & E4 & W4);
    [done|apply A3|by eapply wrote_all_small, (cp_small _ _ Hp)|by rewrite (wa_holder _ _ _ A3')|
     pose proof (wa_free _ _ _ A3'); pose proof (cp_free _ _ Hp); lia|].
  rewrite E4. cbn [mbind res_bind]. exists s4. split; [done|].
  assert (view s3 (start l) = head_block l (dget (disk s) (start l))) as Hh3.
  { rewrite (wa_view _ _ _ A3).
    - rewrite (wr_view _ _ _ _ _ _ W2). by rewrite decide_True.
    - rewrite home_writes_fst. intros (t & Ht & He). apply (Hap t (-1)); lia. }
  change (start (set_lh_n 0 l)) with (start l) in W4. rewrite Hh3 in W4.
  pose proof (wrote_all_trans _ _ _ _ _ A3' (wrote_all_one _ _ _ _ _ W4)) as A4.
  unfold commit_writes. rewrite <-!app_assoc in A4. split; [exact A4|].
  intros t Ht. rewrite (wr_rc _ _ _ _ _ _ W4), decide_False by (intros [? _]; done).
  rewrite (U3 eq_refl) by lia. by rewrite Hkeep.
Qed.

(** ** Recovery *)
Lemma read_head_spec l s :
  ldev l = dev → binv s → rc_small s → (∀ b, holder s b = None) → (2 <= nfree s)%nat →
  let d := view s (start l) in
  let n := get32 d 0 in
  ∃ s', read_head me l s =
          Ok (set_lh_block (get_blocks d (lh_block l) 0 (Z.to_nat n)) (set_lh_n n l), s') ∧
    wrote_all [] s s'.
Proof.
  intros Hl Hi Hrc Hh Hn d n. unfold read_head. rewrite Hl.
  pose proof (Hrc (start l)). pose proof (rc_nonneg dev Hdev s (start l) Hi).
  destruct (bread_spec dev Hdev me (start l) s) as (i & s1 & E1 & I1 & Hb & D1 & W1 & V1 & O1 & F1 & _);
    [done|done|lia|right; lia|].
  rewrite E1. cbn [mbind res_bind].
  assert (held dev s1 me (start l) i (rc s (start l) + 1) (view s (start l))) as Hh1 by exact Hb.
  destruct (held_cached dev Hdev _ _ _ _ _ _ I1 Hh1) as (_ & _ & _ & _ & Hg). rewrite Hg. simpl bdata.
  destruct (brelse_spec dev Hdev me (start l) i (rc s (start l) + 1) (view s (start l)) s1)
    as (s2 & E2 & I2 & R2 & Ho2 & V2 & O2 & D2 & W2 & F2 & _); [done|done|lia| |].
  { intros Hone. rewrite D1. apply view_clean; [done|done|lia]. }
  rewrite E2. cbn [mbind res_bind]. exists s2. split; [done|].
  assert (∀ b, rc s2 b = rc s b) as Hr.
  { intros b. destruct (decide (b = start l)) as [->|Hne]; [lia|].
    destruct (O2 b Hne) as (_ & -> & _). by apply O1. }
  split; [exact I2|simpl; congruence|rewrite app_nil_r; congruence| | | | |].
  - intros b _. destruct (decide (b = start l)) as [->|Hne]; [done|].
    destruct (O2 b Hne) as (-> & _). apply V1.
  - intros b. destruct (decide (b = start l)) as [->|Hne]; [congruence|].
    destruct (O2 b Hne) as (_ & _ & ->). by apply O1.
  - intros b. rewrite Hr. lia.
  - auto.
  - replace (rc s (start l) + 1 - 1) with (rc s (start l)) in F2 by lia. lia.
Qed.

(** The header found on the disk [d]. *)
Definition disk_head (l : logst) (d : gmap Z block) : logst :=
  let h := dget d (start l) in
  set_lh_block (get_blocks h (lh_block l) 0 (Z.to_nat (get32 h 0))) (set_lh_n (get32 h 0) l).

Lemma binit_view d b : view (binit d) b = dget d b ∧ rc (binit d) b = 0 ∧ holder (binit d) b = None.
Proof.
  assert (cached dev (binit d) b = None) as Hc.
  { apply (cached_None dev Hdev); [apply binit_inv|]. intros i b' (Hb & Hd & _).
    apply lookup_replicate in Hb as [-> _]. simpl in Hd. congruence. }
  unfold Bio.view, Bio.rc, Bio.holder. by rewrite Hc.
Qed.

Lemma binit_free d : nfree (binit d) = 30%nat.
Proof. by vm_compute. Qed.

Lemma recover_spec l d :
  ldev l = dev → let l1 := disk_head l d in
  0 <= lh_n l1 <= LOGBLOCKS → apart l1 (lh_n l1) →
  (∀ t t', 0 <= t < lh_n l1 → 0 <= t' < lh_n l1 → lblock l1 t = lblock l1 t' → t = t') →
  ∃ s' hb, recover_from_log me l (binit d) = Ok (set_lh_n 0 l1, s') ∧
    disk s' = apply_writes d (home_writes l1 (λ t, dget d (start l + t + 1)) 0 (lh_n l1) ++ [(start l, hb)]).
Proof.
  intros Hl l1 Hn Hap Hinj. unfold recover_from_log.
  assert (rc_small (binit d)) as Hsm by (intros b; destruct (binit_view d b) as (_ & -> & _); lia).
  assert (∀ b, holder (binit d) b = None) as Hun by (intros b; apply binit_view).
  assert (∀ b, view (binit d) b = dget d b) as Hvw by (intros b; apply binit_view).
  destruct (read_head_spec l (binit d)) as (s1 & E1 & A1); try done.
  { apply binit_inv. }
  { rewrite binit_free. lia. }
  rewrite E1, Hvw. fold (disk_head l d). fold l1. cbn [mbind res_bind].
  unfold install_trans.
  destruct (install_loop_spec true l1 (λ t, dget d (start l + t + 1)) (lh_n l1) Hl ltac:(lia) Hap Hinj
    (Z.to_nat (lh_n l1)) 0 s1) as (s2 & E2 & A2 & _); try lia.
  { apply A1. }
  { by eapply wrote_all_small. }
  { pose proof (wa_free _ _ _ A1). rewrite binit_free in *. lia. }
  { intros t Ht. rewrite (wa_holder _ _ _ A1), (wa_view _ _ _ A1) by apply not_elem_of_nil. auto. }
  { intros t Ht. rewrite (wa_holder _ _ _ A1). auto. }
  rewrite Z2Nat.id in A2 by lia. pose proof (wrote_all_trans _ _ _ _ _ A1 A2) as A2'.
  rewrite E2. cbn [mbind res_bind].
  destruct (write_head_spec me dev Hdev (set_lh_n 0 l1) s2) as (s3 & E3 & W3).
  { exact Hl. }
  { apply A2. }
  { by eapply wrote_all_small. }
  { by rewrite (wa_holder _ _ _ A2'). }
  { pose proof (wa_free _ _ _ A2'). rewrite binit_free in *. lia. }
  rewrite E3. cbn [mbind res_bind]. eexists s3, _. split; [done|].
  rewrite apply_writes_app, (wr_disk _ _ _ _ _ _ W3), (wa_disk _ _ _ A2'). done.
Qed.

(** ** Crash points *)
Definition home (l : logst) (b : Z) : Prop := ¬ (start l <= b <= start l + LOGBLOCKS).

Section points.
Context (l : logst) (s : bst) (Hp : commit_pre l s).
Let n := lh_n l.
Let d0 := disk s.
Let LW := log_writes l (new_block l s) 0 n.
Let HW := home_writes l (new_block l s) 0 n.
Let hb := head_block l (dget d0 (start l)).
Let hb0 := head_block (set_lh_n 0 l) hb.

Lemma cp_n : 0 < n <= LOGBLOCKS.
Proof. pose proof (cp_pos _ _ Hp). destruct (cp_head _ _ Hp) as ((_ & ?) & _). unfold n. lia. Qed.

Lemma hb_ok : zlen hb = BSIZE ∧ get32 hb 0 = n ∧ ∀ i, 0 <= i < n → get32 hb (4 + 4 * i) = lblock l i.
Proof. apply head_block_spec; [apply (cp_head _ _ Hp)|apply (cp_size _ _ Hp)]. Qed.

Lemma hb0_ok : get32 hb0 0 = 0.
Proof.
  destruct (head_block_spec (set_lh_n 0 l) hb) as (_ & H0 & _); [|apply hb_ok|exact H0].
  destruct (cp_head _ _ Hp) as (? & ? & _). split_and!; simpl; [done|done|done|lia].
Qed.

Lemma LW_nodup : NoDup LW.*1.
Proof.
  unfold LW, log_writes. rewrite <-list_fmap_compose. apply NoDup_fmap_2; [|apply NoDup_seqZ].
  intros x y. simpl. lia.
Qed.

Lemma HW_nodup : NoDup HW.*1.
Proof.
  unfold HW, home_writes. rewrite <-list_fmap_compose.
  apply NoDup_fmap_2_strong; [|apply NoDup_seqZ]. intros x y Hx%elem_of_seqZ Hy%elem_of_seqZ. simpl.
  apply (cp_inj _ _ Hp); fold n; lia.
Qed.

Lemma HW_home b : b ∈ HW.*1 → home l b.
Proof.
  unfold HW. rewrite home_writes_fst. intros (t & Ht & ->) Hb.
  apply (cp_apart _ _ Hp t (lblock l t - start l - 1)); fold n; lia.
Qed.

Lemma LW_log b : b ∈ LW.*1 → ¬ home l b ∧ b ≠ start l.
Proof. unfold LW. rewrite log_writes_fst. unfold home. pose proof cp_n. lia. Qed.

Lemma take_fst_subset (ws : list (Z * block)) k b : b ∈ (take k ws).*1 → b ∈ ws.*1.
Proof. rewrite <-(take_drop k ws) at 2. rewrite fmap_app, elem_of_app. auto. Qed.

(** What the transaction makes of a home block. *)
Definition final (b : Z) : block := dget (apply_writes d0 HW) b.

Lemma final_of d b :
  (home l b → b ∉ HW.*1 → dget d b = dget d0 b) → home l b → dget (apply_writes d HW) b = final b.
Proof.
  intros Hd Hb. unfold final. destruct (decide (b ∈ HW.*1)) as [Hin|Hn].
  - apply list_elem_of_fmap in Hin as ([b' x] & -> & Hin). simpl.
    by rewrite !(dget_in HW _ b' x) by (done || apply HW_nodup).
  - by rewrite !dget_notin by done; auto.
Qed.

Lemma crash_home_log ws b : home l b → b ∉ ws.*1 → dget (apply_writes d0 (LW ++ [(start l, hb)] ++ ws)) b = dget d0 b.
Proof.
  intros Hb Hn. apply dget_notin. rewrite !fmap_app, !not_elem_of_app. split_and!; [|simpl|done].
  - intros Hl. by apply LW_log in Hl as [? _].
  - intros ->%list_elem_of_singleton. apply Hb. unfold LOGBLOCKS, MAXOPBLOCKS. lia.
Qed.

Lemma recover_empty l0 d :
  ldev l0 = dev → start l0 = start l → get32 (dget d (start l)) 0 = 0 →
  ∃ l' s', recover_from_log me l0 (binit d) = Ok (l', s') ∧ ∀ b, home l b → dget (disk s') b = dget d b.
Proof.
  intros Hl Hst H0. unfold home.
  destruct (recover_spec l0 d Hl) as (s' & x & E & Hd);
    unfold disk_head; simpl; rewrite ?Hst, ?H0; try lia.
  { unfold LOGBLOCKS, MAXOPBLOCKS. lia. }
  { intros t j Ht. lia. }
  eexists _, s'. split; [exact E|]. intros b Hb. rewrite Hd.
  unfold disk_head. simpl lh_n. rewrite Hst, H0. apply dget_notin. simpl.
  intros ->%list_elem_of_singleton. apply Hb. unfold LOGBLOCKS, MAXOPBLOCKS. lia.
Qed.

(** Recovery after the header has been written installs the transaction. *)
Lemma recover_committed l0 d :
  ldev l0 = dev → start l0 = start l → length (lh_block l0) = Z.to_nat LOGBLOCKS →
  dget d (start l) = hb → (∀ t, 0 <= t < n → dget d (start l + t + 1) = new_block l s t) →
  (∀ b, home l b → b ∉ HW.*1 → dget d b = dget d0 b) →
  ∃ l' s', recover_from_log me l0 (binit d) = Ok (l', s') ∧ ∀ b, home l b → dget (disk s') b = final b.
Proof.
  intros Hl Hst Hlen Hh Hlog Hhome. destruct hb_ok as (_ & Hn & Hb). pose proof cp_n as Hn30.
  set (l1 := disk_head l0 d).
  assert (lh_n l1 = n ∧ start l1 = start l ∧ ∀ t, 0 <= t < n → lblock l1 t = lblock l t) as (Hn1 & Hs1 & Hb1).
  { unfold l1, disk_head, lblock. simpl. rewrite Hst, Hh, Hn. split_and!; try done.
    intros t Ht. destruct (get_blocks_spec hb (Z.to_nat n) (lh_block l0) 0) as (_ & Hg & _);
      [lia|unfold zlen; lia|]. rewrite Hg by lia. by apply Hb. }
  destruct (recover_spec l0 d Hl) as (s' & x & E & Hd); fold l1; rewrite ?Hn1; try lia.
  { intros t j Ht Hj. rewrite Hs1, Hb1 by done. by apply (cp_apart _ _ Hp). }
  { intros t t' Ht Ht'. rewrite !Hb1 by done. by apply (cp_inj _ _ Hp). }
  fold l1 in E, Hd. rewrite Hn1, Hst in Hd.
  assert (home_writes l1 (λ t, dget d (start l + t + 1)) 0 n = HW) as Heq.
  { unfold HW, home_writes. apply list_fmap_ext. intros i t Hi. apply lookup_seqZ in Hi as [-> Hi].
    rewrite Hb1, Hlog by lia. done. }
  eexists _, s'. split; [exact E|]. intros b Hbh. rewrite Hd, Heq, apply_writes_app.
  change (dget (<[start l := x]> (apply_writes d HW)) b = final b).
  rewrite dget_insert, decide_False; [apply final_of; [apply Hhome|done]|].
  intros <-. apply Hbh. unfold LOGBLOCKS, MAXOPBLOCKS. lia.
Qed.

(** The disk after the header and [j] of the home writes. *)
Lemma disk_committed j :
  let d := apply_writes d0 (LW ++ [(start l, hb)] ++ take j HW) in
  dget d (start l) = hb ∧ (∀ t, 0 <= t < n → dget d (start l + t + 1) = new_block l s t) ∧
  (∀ b, home l b → b ∉ HW.*1 → dget d b = dget d0 b).
Proof.
  intros d. pose proof cp_n. split_and!.
  - unfold d. rewrite app_assoc, !apply_writes_app. rewrite dget_notin.
    + simpl. rewrite dget_insert, decide_True; done.
    + intros Hb%take_fst_subset%HW_home. apply Hb. unfold LOGBLOCKS, MAXOPBLOCKS. lia.
  - intros t Ht. unfold d. rewrite !apply_writes_app.
    rewrite (dget_notin (take j HW)), (dget_notin [(start l, hb)]).
    + apply dget_in; [apply LW_nodup|]. unfold LW, log_writes. apply list_elem_of_fmap.
      exists t. split; [done|]. apply elem_of_seqZ. lia.
    + simpl. intros ?%list_elem_of_singleton. lia.
    + intros Hb%take_fst_subset%HW_home. apply Hb. lia.
  - intros b Hb Hn. apply crash_home_log; [done|]. intros ?%take_fst_subset. done.
Qed.

Lemma crash_point l0 k :
  ldev l0 = dev → start l0 = start l → length (lh_block l0) = Z.to_nat LOGBLOCKS →
  ∃ l' s', recover_from_log me l0 (binit (apply_writes d0 (take k (commit_writes l s)))) = Ok (l', s') ∧
    ((∀ b, home l b → dget (disk s') b = dget d0 b) ∨ (∀ b, home l b → dget (disk s') b = final b)).
Proof.
  intros Hl Hst Hlen. change (commit_writes l s) with (LW ++ [(start l, hb)] ++ HW ++ [(start l, hb0)]).
  destruct (decide (k <= length LW)%nat) as [Hk|Hk].
  { rewrite take_app_le by done.
    assert (∀ b, home l b ∨ b = start l → dget (apply_writes d0 (take k LW)) b = dget d0 b) as Hsame.
    { intros b Hb. apply dget_notin. intros [? ?]%take_fst_subset%LW_log. tauto. }
    destruct (recover_empty l0 (apply_writes d0 (take k LW)) Hl Hst) as (l' & s' & E & Hd).
    { rewrite Hsame by auto. apply (cp_empty _ _ Hp). }
    exists l', s'. split; [exact E|]. left. intros b Hb. rewrite Hd, Hsame; auto. }
  rewrite take_app_ge by lia. set (j := (k - length LW - 1)%nat).
  replace (k - length LW)%nat with (S j) by lia. simpl take.
  destruct (decide (j <= length HW)%nat) as [Hj|Hj].
  - rewrite take_app_le by done. destruct (disk_committed j) as (H1 & H2 & H3).
    destruct (recover_committed l0 _ Hl Hst Hlen H1 H2 H3) as (l' & s' & E & Hd).
    exists l', s'. split; [exact E|]. by right.
  - rewrite take_ge by (rewrite length_app; simpl; lia).
    change ((start l, hb) :: HW ++ [(start l, hb0)]) with ([(start l, hb)] ++ HW ++ [(start l, hb0)]).
    rewrite !app_assoc, apply_writes_app, <-app_assoc.
    set (d := apply_writes d0 (LW ++ [(start l, hb)] ++ HW)).
    destruct (recover_empty l0 (apply_writes d [(start l, hb0)]) Hl Hst) as (l' & s' & E & Hd).
    { change (get32 (dget (<[start l := hb0]> d) (start l)) 0 = 0).
      rewrite dget_insert, decide_True; [apply hb0_ok|reflexivity]. }
    exists l', s'. split; [exact E|]. right. intros b Hb. rewrite Hd by done.
    change (dget (<[start l := hb0]> d) b = final b). rewrite dget_insert, decide_False.
    + unfold d. rewrite app_assoc, apply_writes_app. apply final_of; [|done].
      intros _ Hn. rewrite <-(app_nil_r [(start l, hb)]). apply crash_home_log; [done|].
      apply not_elem_of_nil.
    + intros <-. apply Hb. unfold LOGBLOCKS, MAXOPBLOCKS. lia.
Qed.

Lemma final_value b :
  final b = (if decide (b ∈ HW.*1) then view s b else dget d0 b).
Proof.
  unfold final. case_decide as Hin; [|by apply dget_notin].
  unfold HW in Hin. apply home_writes_fst in Hin as (t & Ht & ->).
  apply dget_in; [apply HW_nodup|]. unfold HW, home_writes. apply list_elem_of_fmap.
  exists t. split; [done|]. apply elem_of_seqZ. lia.
Qed.
End points.
End crash.

(** ** The reservation of log space

    A file-system operation that is in progress may still log [left] new blocks;
    it starts with [MAXOPBLOCKS].  [begin_op] admits an operation only when the
    log has room for all of them. *)
Record resv := mkR { rv_log : logst; rv_left : list Z }.

Inductive resv_step : resv → resv → Prop :=
| rs_begin r l' :
    begin_op (rv_log r) = Some l' → resv_step r (mkR l' (MAXOPBLOCKS :: rv_left r))
| rs_write r a x b i s l' s' :
    rv_left r = a ++ x :: b → 0 < x → log_write i (rv_log r) s = Ok (l', s') →
    resv_step r (mkR l' (a ++ (x - (lh_n l' - lh_n (rv_log r))) :: b))
| rs_end r a x b V p tab do_commit l' tab' :
    rv_left r = a ++ x :: b → end_op_begin V p (rv_log r) tab = Ok (do_commit, l', tab') →
    resv_step r (mkR l' (a ++ b))
| rs_commit r l' :
    committing (rv_log r) ≠ 0 → l' = set_committing 0 (set_lh_n 0 (rv_log r)) →
    resv_step r (mkR l' (rv_left r)).

Definition sumz (l : list Z) : Z := foldr Z.add 0 l.

Lemma sumz_app a b : sumz (a ++ b) = sumz a + sumz b.
Proof. induction a as [|x a IH]; simpl; [done|]. rewrite IH. lia. Qed.

Record resv_inv (r : resv) : Prop := {
  ri_out : outstanding (rv_log r) = zlen (rv_left r);
  ri_left : Forall (λ x, 0 <= x <= MAXOPBLOCKS) (rv_left r);
  ri_n : 0 <= lh_n (rv_log r);
  ri_room : lh_n (rv_log r) + sumz (rv_left r) <= LOGBLOCKS
}.

Lemma sumz_bound l : Forall (λ x, 0 <= x <= MAXOPBLOCKS) l → 0 <= sumz l <= zlen l * MAXOPBLOCKS.
Proof.
  unfold zlen. induction 1 as [|x l Hx Hl IH]; [simpl; lia|].
  unfold MAXOPBLOCKS in *. simpl length. simpl sumz. lia.
Qed.

Lemma find_block_range l blk k : ∀ i, i <= find_block l blk i k <= i + Z.of_nat k.
Proof.
  induction k as [|k IH]; intros i; simpl; [lia|]. case_match; [lia|].
  specialize (IH (i + 1)). lia.
Qed.

(** [log_write] adds at most one block. *)
Lemma log_write_n i l s l' s' :
  log_write i l s = Ok (l', s') → outstanding l' = outstanding l ∧ committing l' = committing l ∧
  lh_n l <= lh_n l' <= lh_n l + 1.
Proof. unfold log_write. repeat case_match; intros [= <- <-]; simpl; split_and!; done || lia. Qed.

Lemma resv_inv_step r r' : resv_inv r → resv_step r r' → resv_inv r'.
Proof.
  intros [Ho Hl Hn Hr] Hst. destruct Hst as [r l' Hb|r a x b i s l' s' He Hx Hw
    |r a x b V p tab dc l' tab' He Hd|r l' Hc ->].
  - unfold begin_op in Hb. repeat case_match; simplify_eq.
    pose proof (sumz_bound _ Hl). split; simpl.
    + rewrite Ho. unfold zlen. simpl. lia.
    + apply Forall_cons. split; [by vm_compute|done].
    + done.
    + unfold MAXOPBLOCKS in *. lia.
  - apply log_write_n in Hw as (Ho' & _ & Hn'). rewrite He in *.
    apply Forall_app in Hl as [Ha [Hxb Hb]%Forall_cons].
    rewrite sumz_app in Hr. simpl in Hr. split; simpl.
    + rewrite Ho', Ho, !zlen_app. unfold zlen. simpl. lia.
    + apply Forall_app. split; [done|]. apply Forall_cons. split; [lia|done].
    + lia.
    + rewrite sumz_app. simpl. lia.
  - rewrite He in *. apply Forall_app in Hl as [Ha [Hxb Hb]%Forall_cons].
    rewrite sumz_app in Hr. simpl in Hr.
    assert (outstanding l' = outstanding (rv_log r) - 1 ∧ lh_n l' = lh_n (rv_log r)) as [Ho' Hn'].
    { unfold end_op_begin in Hd. repeat case_match; simplify_eq; done. }
    split; simpl.
    + rewrite Ho', Ho, !zlen_app. unfold zlen. simpl. lia.
    + by apply Forall_app.
    + lia.
    + rewrite sumz_app. lia.
  - pose proof (sumz_bound _ Hl). split; simpl; try done. lia.
Qed.

(** ** Properties *)

(** C6: crash atomicity: [commit] succeeds, and if the machine stops after any
    number [k] of its block writes, the recovery that [initlog] runs at the next
    boot succeeds and leaves every home block as it was before the transaction,
    or every home block as the transaction wrote it (the cached contents for the
    logged blocks, unchanged otherwise). *)
Theorem log_crash_atomic (me dev : Z) (l l0 : logst) (s : bst) (k : nat) :
  dev ≠ 0 → commit_pre dev l s →
  ldev l0 = dev → start l0 = start l → length (lh_block l0) = Z.to_nat LOGBLOCKS →
  ∃ s' l' s'', commit me l s = Ok (set_lh_n 0 l, s') ∧
    wlog s' = wlog s ++ commit_writes dev l s ∧
    recover_from_log me l0
      (binit (apply_writes (disk s) (take k (commit_writes dev l s)))) = Ok (l', s'') ∧
    ((∀ b, home l b → dget (disk s'') b = dget (disk s) b) ∨
     (∀ b, home l b → dget (disk s'') b =
        if decide (b ∈ lblock l <$> seqZ 0 (lh_n l)) then view dev s b else dget (disk s) b)).
Proof.
  intros Hd Hp Hl Hst Hlen. destruct (commit_spec me dev Hd l s Hp) as (s' & E & Ha & _).
  destruct (crash_point me dev Hd l s Hp l0 k Hl Hst Hlen) as (l' & s'' & E' & Hcase).
  exists s', l', s''. split; [exact E|]. split; [apply Ha|]. split; [exact E'|].
  destruct Hcase as [Hold|Hnew]; [by left|right]. intros b Hb.
  rewrite Hnew, (final_value dev l s Hp) by done.
  assert (b ∈ (home_writes l (new_block dev l s) 0 (lh_n l)).*1 ↔ b ∈ lblock l <$> seqZ 0 (lh_n l)) as Hiff.
  { unfold home_writes. by rewrite <-list_fmap_compose. }
  repeat case_decide; tauto.
Qed.

(** The reservation of [begin_op] is enough: in every sequence of operations
    that each log at most [MAXOPBLOCKS] new blocks, the log never holds more than
    [LOGBLOCKS] blocks, and an operation with budget left never meets the panic
    of [log_write]. *)
Theorem log_reservation (r0 r : resv) (i : nat) (s : bst) :
  resv_inv r0 → rtc resv_step r0 r →
  lh_n (rv_log r) <= LOGBLOCKS ∧
  ((∃ x, x ∈ rv_left r ∧ 0 < x) → ∃ l' s', log_write i (rv_log r) s = Ok (l', s')).
Proof.
  intros H0 Hst. assert (resv_inv r) as [Ho Hl Hn Hr].
  { eapply rtc_invariant; [|exact Hst|exact H0]. intros ??. apply resv_inv_step. }
  pose proof (sumz_bound _ Hl). split; [lia|]. intros (x & Hin & Hx).
  apply list_elem_of_split in Hin as (a & b & He). rewrite He in *.
  apply Forall_app in Hl as [Ha [_ Hb]%Forall_cons].
  pose proof (sumz_bound _ Ha). pose proof (sumz_bound _ Hb).
  rewrite sumz_app in Hr. simpl in Hr. rewrite zlen_app in Ho. unfold zlen in Ho. simpl in Ho.
  unfold log_write. destruct (Z.leb_spec LOGBLOCKS (lh_n (rv_log r))); [lia|].
  destruct (Z.ltb_spec (outstanding (rv_log r)) 1); [lia|]. case_match; eauto.
Qed.

(** [NBUF] is too small for a full log: when the blocks of the transaction
    keep every buffer referenced, [commit] panics in [bget] before it has
    written anything. *)
Theorem commit_no_buffers (me dev : Z) (l : logst) (s : bst) :
  dev ≠ 0 → ldev l = dev → binv dev s → 0 < lh_n l → nfree s = 0%nat →
  cached dev s (start l + 1) = None →
  commit me l s = Panic "bget: no buffers".
Proof.
  intros Hd Hl Hi Hn Hf Hc. unfold commit, write_log.
  destruct (Z.ltb_spec 0 (lh_n l)); [|lia]. destruct (Z.to_nat (lh_n l)) as [|k] eqn:Hk; [lia|].
  cbn [write_log_loop]. unfold write_log1, bread, bget. rewrite Hl, Z.add_0_r.
  unfold cached in Hc. destruct (scan (is_block dev (start l + 1)) s (lru s)); [done|].
  pose proof (nfree_pos dev s Hi) as Hnf.
  destruct (scan is_unused s (reverse (lru s))) as [i|]; [|done].
  rewrite Hf in Hnf. exfalso. assert (0 < 0)%nat by by apply Hnf. lia.
Qed.

(** *** Witnesses *)

(** A log of 30 blocks from block 2 on, one block (50) in the transaction. *)
Definition log1 : logst := mkLog 2 0 1 1 1 (50 :: replicate 29 0).
Definition log_boot : logst := mkLog 2 0 0 1 0 (replicate 30 0).

(** Block 50 read, filled with 9s, pinned and released. *)
Definition dirty50 : res bst :=
  '(i, s) ← bread 1 1 50 (binit ∅);
  brelse 1 i (bpin i (put_data i (replicate 1024 9) s)).

Lemma dirty50_pre : ∃ s, dirty50 = Ok s ∧ commit_pre 1 log1 s ∧ view 1 s 50 = replicate 1024 9.
Proof.
  assert (1 ≠ 0) as H1 by done. pose proof (binit_view 1 H1 ∅) as Hb.
  unfold dirty50. destruct (bread_spec 1 H1 1 50 (binit ∅))
    as (i & s1 & -> & I1 & H50 & D1 & _ & V1 & O1 & F1 & _).
  { apply binit_inv. }
  { apply Hb. }
  { destruct (Hb 50) as (_ & -> & _). lia. }
  { right. rewrite binit_free. lia. }
  destruct (Hb 50) as (_ & Hrc & _). rewrite Hrc in *. cbn [mbind res_bind].
  destruct (put_data_spec 1 H1 1 50 i 1 _ (replicate 1024 9) s1 I1 H50) as (I2 & H2 & O2 & D2 & _ & F2);
    [lia|].
  destruct (bpin_spec 1 H1 1 50 i 1 _ _ I2 H2) as (I3 & H3 & O3 & D3 & _ & F3); [lia|].
  destruct (brelse_spec 1 H1 1 50 i 2 _ _ I3 H3)
    as (s4 & E4 & I4 & R4 & Ho4 & V4 & O4 & D4 & _ & F4 & _); [lia|lia|].
  exists s4. split; [exact E4|]. split; [|exact V4].
  assert (∀ b, b ≠ 50 → rc 1 s4 b = 0 ∧ holder 1 s4 b = None) as Hother.
  { intros b Hne. destruct (O4 b Hne) as (_ & -> & ->), (O3 b Hne) as (_ & -> & ->),
      (O2 b Hne) as (_ & -> & ->), (O1 b Hne) as (-> & ->). split; apply Hb. }
  assert (disk s4 = ∅) as Hdk by (rewrite D4, D3, D2, D1; done).
  split; try done.
  - split_and!; [by vm_compute|by vm_compute|done|].
    intros t Ht. assert (t = 0) as -> by (simpl in Ht; lia). by vm_compute.
  - intros b. destruct (decide (b = 50)) as [->|Hne]; [lia|]. destruct (Hother b Hne). lia.
  - rewrite binit_free in F1. simpl in F1. unfold isz in *. simpl in *. lia.
  - intros b. destruct (decide (b = 50)) as [->|Hne]; [done|]. by apply Hother.
  - intros t j Ht Hj. assert (t = 0) as -> by (simpl in Ht; lia). unfold LOGBLOCKS, MAXOPBLOCKS in Hj.
    simpl. change (lblock log1 0) with 50. lia.
  - intros t t' Ht Ht'. simpl in *. lia.
  - intros t Ht. assert (t = 0) as -> by (simpl in Ht; lia). change (lblock log1 0) with 50. lia.
  - by apply Hother.
  - rewrite Hdk. by vm_compute.
  - rewrite Hdk. by vm_compute.
Qed.

Lemma log_crash_atomic_witness :
  ∃ s s' l' s'', dirty50 = Ok s ∧ commit 1 log1 s = Ok (set_lh_n 0 log1, s') ∧
    recover_from_log 1 log_boot
      (binit (apply_writes (disk s) (take 2 (commit_writes 1 log1 s)))) = Ok (l', s'').
Proof.
  destruct dirty50_pre as (s & Es & Hp & _).
  destruct (log_crash_atomic 1 1 log1 log_boot s 2) as (s' & l' & s'' & E & _ & E' & _);
    [done|exact Hp|done|done|done|].
  exists s, s', l', s''. split; [exact Es|]. split; [exact E|exact E'].
Defined.

Lemma log_reservation_witness :
  ∃ l' s', log_write 0 (set_outstanding 1 log_boot) (binit ∅) = Ok (l', s').
Proof.
  apply (log_reservation (mkR log_boot []) (mkR (set_outstanding 1 log_boot) [10])).
  - split; simpl; [done|by apply Forall_nil|done|by vm_compute].
  - apply rtc_once. by apply (rs_begin (mkR log_boot [])).
  - exists 10. split; [left|lia].
Defined.

Lemma commit_no_buffers_witness :
  commit 1 (mkLog 2 0 1 1 30 (seqZ 100 30)) all_used = Panic "bget: no buffers".
Proof.
  apply (commit_no_buffers 1 1 (mkLog 2 0 1 1 30 (seqZ 100 30)) all_used);
    [done|done|exact all_used_inv|done|by vm_compute|by vm_compute].
Defined.
