(* ===== verification/Buf.v ===== *)
(** * What fs.c sees of the buffer cache and the log

    [BufOps] are the operations of bio.c and log.c that the file system calls,
    on a state [S]; a buffer is a handle.  [BufLaws] is the promise: [brep s v d
    h] says that the blocks read as [v], that [d] are the blocks changed since
    they were last logged, and that [h] maps the buffers the caller holds to
    their blocks.  Blocks of the log itself ([in_log]) must not be
    logged.  Operations may end in a panic of the lower layers
    ([io_panic]: no buffers, transaction too big); they end in nothing else,
    and when they return the promise holds. *)
From S2P Require Import Prelude Bio.

(** Outcomes: a value that satisfies [Q], or a panic of [P]. Running out of fuel
    (a loop that does not end, a lock that is never released) is no outcome. *)
Definition outcome {A} (P : string → Prop) (Q : A → Prop) (r : res A) : Prop :=
  match r with Ok a => Q a | Panic m => P m | NoFuel => False end.

Lemma outcome_bind {A B} P (Q : A → Prop) (R : B → Prop) (m : res A) (f : A → res B) :
  outcome P Q m → (∀ a, Q a → outcome P R (f a)) → outcome P R (m ≫= f).
Proof. destruct m; simpl; auto. Qed.

Lemma outcome_mono {A} P (Q R : A → Prop) (m : res A) :
  outcome P Q m → (∀ a, Q a → R a) → outcome P R m.
Proof. destruct m; simpl; auto. Qed.

(** Without lower-layer panics an outcome is a value. *)
Lemma outcome_total {A} (Q : A → Prop) (m : res A) :
  outcome (λ _, False) Q m → ∃ a, m = Ok a ∧ Q a.
Proof. destruct m; simpl; [eauto|done|done]. Qed.

Class BufOps (S : Type) := {
  bf_read : Z → Z → S → res (nat * S);       (* bread(dev, blockno) *)
  bf_data : nat → S → block;                 (* bp->data *)
  bf_store : nat → block → S → S;            (* stores into bp->data *)
  bf_log : nat → S → res S;                  (* log_write(bp) *)
  bf_rel : nat → S → res S;                  (* brelse(bp) *)
  tx_begin : S → res S;                      (* begin_op() *)
  tx_end : S → res S;                        (* end_op() *)
  log_init : Z → Z → S → res S               (* initlog(dev, sb) with sb->logstart *)
}.

Definition dview : Type := Z → block.
Definition vset (b : Z) (d : block) (v : dview) : dview := λ c, if decide (b = c) then d else v c.

Lemma vset_eq b d v : vset b d v b = d.
Proof. unfold vset. by rewrite decide_True. Qed.
Lemma vset_ne b d v c : b ≠ c → vset b d v c = v c.
Proof. intros. unfold vset. by rewrite decide_False. Qed.

(** The device all blocks live on, ROOTDEV of param.h. *)
Definition ROOTDEV : Z := 1.

(** The blocks that cannot be logged. *)
Class LogArea := in_log : Z → bool.

(** For the log of log.c at block [start]: its own blocks, and numbers that do
    not fit the header's [int]s. *)
Definition log_area (start b : Z) : bool :=
  (start <=? b) && (b <=? start + LOGBLOCKS) || (b <? 0) || (2147483648 <=? b).

Lemma log_area_no start b :
  log_area start b = false ↔ ¬ (start <= b <= start + LOGBLOCKS) ∧ 0 <= b < 2147483648.
Proof.
  unfold log_area. rewrite !orb_false_iff, andb_false_iff, !Z.leb_gt, Z.ltb_ge. lia.
Qed.

Class BufLaws (S : Type) `{BufOps S} `{LogArea} := {
  io_panic : string → Prop;
  brep : S → dview → gset Z → gmap nat Z → Prop;
  brep_ext s v v' d h : (∀ b, v b = v' b) → brep s v d h → brep s v' d h;
  brep_len s v d h b : brep s v d h → length (v b) = Z.to_nat BSIZE;
  bf_read_spec s v d h b : brep s v d h → (∀ i, h !! i ≠ Some b) →
    outcome io_panic (λ '(i, s'), h !! i = None ∧ brep s' v d (<[i := b]> h)) (bf_read ROOTDEV b s);
  bf_data_spec s v d h i b : brep s v d h → h !! i = Some b → bf_data i s = v b;
  bf_store_spec s v d h i b x : brep s v d h → h !! i = Some b → length x = Z.to_nat BSIZE →
    brep (bf_store i x s) (vset b x v) ({[b]} ∪ d) h;
  bf_store_same s v d h i b : brep s v d h → h !! i = Some b → brep (bf_store i (v b) s) v d h;
  bf_log_spec s v d h i b : brep s v d h → h !! i = Some b → in_log b = false →
    outcome io_panic (λ s', brep s' v (d ∖ {[b]}) h) (bf_log i s);
  bf_rel_spec s v d h i b : brep s v d h → h !! i = Some b → b ∉ d →
    outcome io_panic (λ s', brep s' v d (delete i h)) (bf_rel i s)
}.

(** ** A flat disk

    The simplest instance: the blocks by number and the buffers held. A second
    read of a held block waits for the buffer's sleep lock, which its holder
    never releases. *)
Module FlatDisk.
Record fdisk := mkFD { fd_blocks : gmap Z block; fd_held : gmap nat Z }.

Definition fd_get (s : fdisk) (b : Z) : block :=
  match fd_blocks s !! b with
  | Some d => if decide (length d = Z.to_nat BSIZE) then d else zero_block
  | None => zero_block
  end.

Definition fd_bread (dev b : Z) (s : fdisk) : res (nat * fdisk) :=
  if decide (b ∈ (map_to_list (fd_held s)).*2) then NoFuel
  else let i := fresh (dom (fd_held s)) in Ok (i, mkFD (fd_blocks s) (<[i := b]> (fd_held s))).

Definition fd_store (i : nat) (d : block) (s : fdisk) : fdisk :=
  match fd_held s !! i with
  | Some b => mkFD (<[b := d]> (fd_blocks s)) (fd_held s)
  | None => s
  end.

Definition fd_brelse (i : nat) (s : fdisk) : res fdisk :=
  match fd_held s !! i with
  | Some _ => Ok (mkFD (fd_blocks s) (delete i (fd_held s)))
  | None => Panic "brelse"
  end.

#[export] Instance fd_ops : BufOps fdisk := {
  bf_read := fd_bread;
  bf_data i s := match fd_held s !! i with Some b => fd_get s b | None => [] end;
  bf_store := fd_store;
  bf_log i s := if decide (is_Some (fd_held s !! i)) then Ok s else Panic "log_write outside of trans";
  bf_rel := fd_brelse;
  tx_begin s := Ok s;
  tx_end s := Ok s;
  log_init _ _ s := Ok s
}.

Lemma fd_get_len s b : length (fd_get s b) = Z.to_nat BSIZE.
Proof. unfold fd_get, zero_block. repeat case_match; rewrite ?length_replicate; done. Qed.

Definition no_log : LogArea := λ _, false.

#[export] Program Instance fd_laws `{LogArea} : BufLaws fdisk := {
  io_panic _ := False;
  brep s v d h := (∀ b, fd_get s b = v b) ∧ fd_held s = h
}.
Next Obligation. simpl. intros ? s v v' d h Hv [H1 H2]. split; [congruence|done]. Qed.
Next Obligation. simpl. intros ? s v d h b [H1 H2]. rewrite <-H1. apply fd_get_len. Qed.
Next Obligation.
  simpl. intros ? s v d h b [H1 <-] Hh. unfold fd_bread. rewrite decide_False.
  2: { rewrite list_elem_of_fmap. intros ([i b'] & ? & Hi). simplify_eq/=.
       by apply elem_of_map_to_list, Hh in Hi. }
  simpl. split; [|done]. apply not_elem_of_dom, is_fresh.
Qed.
Next Obligation. simpl. intros ? s v d h i b [H1 <-] Hi. by rewrite Hi. Qed.
Next Obligation.
  simpl. intros ? s v d h i b x [H1 <-] Hi Hx. unfold fd_store. rewrite Hi. split; [|done].
  intros c. unfold vset. rewrite <-H1. unfold fd_get. simpl. rewrite lookup_insert.
  destruct (decide (b = c)) as [->|]; [by rewrite decide_True|done].
Qed.
Next Obligation.
  simpl. intros ? s v d h i b [H1 <-] Hi. unfold fd_store. rewrite Hi. split; [|done].
  intros c. rewrite <-!H1. unfold fd_get at 1. simpl. rewrite lookup_insert.
  destruct (decide (b = c)) as [->|]; [by rewrite decide_True by apply fd_get_len|done].
Qed.
Next Obligation. simpl. intros ? s v d h i b [H1 <-] Hi _. by rewrite Hi. Qed.
Next Obligation. simpl. intros ? s v d h i b [H1 <-] Hi _. unfold fd_brelse. by rewrite Hi. Qed.
End FlatDisk.
