(* ===== verification/LogDisk.v ===== *)
(** * The buffer cache and the log below the file system

    The operations of [Bio] and [Log] as an instance of [BufOps], and the proof
    that inside a transaction they keep the promise [BufLaws]: the blocks of the
    transaction are pinned in the cache, nothing is written to the disk, and a
    buffer that may be recycled agrees with it.  Then what [end_op] does with the
    transaction, and what a crash leaves. *)
From S2P Require Import Prelude Proc Bio Log LogSpec LogCrash Buf.

(** The log, the cache and, for the sleepers of [log], the process table. *)
Record ldst := mkLD { ld_log : logst; ld_buf : bst; ld_tab : list proc }.

Definition set_ld_buf (x : bst) (s : ldst) : ldst := mkLD (ld_log s) x (ld_tab s).

Section ops.
Context (V : Z) (p : nat) (me : Z).

Definition ld_read (dev b : Z) (s : ldst) : res (nat * ldst) :=
  '(i, x) ← bread me dev b (ld_buf s); Ok (i, set_ld_buf x s).
Definition ld_logw (i : nat) (s : ldst) : res ldst :=
  '(l, x) ← log_write i (ld_log s) (ld_buf s); Ok (mkLD l x (ld_tab s)).
Definition ld_rel (i : nat) (s : ldst) : res ldst :=
  x ← brelse me i (ld_buf s); Ok (set_ld_buf x s).
(** A process that has to wait in [begin_op] does not return here. *)
Definition ld_begin (s : ldst) : res ldst :=
  match begin_op (ld_log s) with Some l => Ok (mkLD l (ld_buf s) (ld_tab s)) | None => NoFuel end.
Definition ld_end (s : ldst) : res ldst :=
  '(l, tab, x) ← end_op me V p (ld_log s) (ld_tab s) (ld_buf s); Ok (mkLD l x tab).
Definition ld_init (dev logstart : Z) (s : ldst) : res ldst :=
  '(l, x) ← initlog me dev logstart (ld_log s) (ld_buf s); Ok (mkLD l x (ld_tab s)).

#[local] Instance ld_ops : BufOps ldst := {
  bf_read := ld_read;
  bf_data i s := bdata (getb (ld_buf s) i);
  bf_store i d s := set_ld_buf (put_data i d (ld_buf s)) s;
  bf_log := ld_logw;
  bf_rel := ld_rel;
  tx_begin := ld_begin;
  tx_end := ld_end;
  log_init := ld_init
}.
End ops.

(** ** The invariant of a transaction *)

(** The blocks of the transaction so far. *)
Definition logged (l : logst) : list Z := lblock l <$> seqZ 0 (lh_n l).

(** The blocks whose buffers may not be recycled: held, or in the transaction. *)
Definition hblocks (h : gmap nat Z) : gset Z := map_img h.
Definition pinned (h : gmap nat Z) (l : logst) : gset Z := hblocks h ∪ list_to_set (logged l).

Definition one (P : Prop) `{Decision P} : Z := if decide P then 1 else 0.

Lemma elem_hblocks h b : b ∈ hblocks h ↔ ∃ i, h !! i = Some b.
Proof. apply elem_of_map_img. Qed.

Lemma hblocks_insert h i b : h !! i = None → hblocks (<[i := b]> h) = {[b]} ∪ hblocks h.
Proof. apply map_img_insert_notin_L. Qed.

Lemma size_add (b : Z) (X : gset Z) : size ({[b]} ∪ X) = (size X + (if decide (b ∈ X) then 0 else 1))%nat.
Proof.
  case_decide.
  - replace ({[b]} ∪ X) with X by set_solver. lia.
  - rewrite size_union by set_solver. rewrite size_singleton. lia.
Qed.

(** ** log_write *)
Lemma elem_logged l b : b ∈ logged l ↔ ∃ t, 0 <= t < lh_n l ∧ lblock l t = b.
Proof.
  unfold logged. rewrite list_elem_of_fmap. setoid_rewrite elem_of_seqZ. split.
  - intros (t & -> & Ht). exists t. split; [lia|done].
  - intros (t & Ht & <-). exists t. split; [done|lia].
Qed.

Lemma find_block_spec l b k : ∀ i,
  (i <= find_block l b i k < i + Z.of_nat k ∧ lblock l (find_block l b i k) = b) ∨
  (find_block l b i k = i + Z.of_nat k ∧ ∀ t, i <= t < i + Z.of_nat k → lblock l t ≠ b).
Proof.
  induction k as [|k IH]; intros i; cbn [find_block].
  - right. split; [lia|]. intros t Ht. lia.
  - destruct (Z.eqb_spec (lblock l i) b) as [He|He]; [left; split; [lia|done]|].
    destruct (IH (i + 1)) as [(H1 & H2)|(H1 & H2)]; [left; split; [lia|done]|right].
    split; [lia|]. intros t Ht. destruct (decide (t = i)) as [->|]; [done|]. apply H2. lia.
Qed.

Lemma lblock_insert l n b t : 0 <= n < zlen (lh_block l) → 0 <= t →
  aget (<[Z.to_nat n := b]> (lh_block l)) t = if t =? n then b else lblock l t.
Proof.
  intros Hn Ht. unfold lblock, aget, zlen in *. destruct (Z.eqb_spec t n) as [->|Hne].
  - by rewrite list_lookup_insert_eq by lia.
  - by rewrite list_lookup_insert_ne by lia.
Qed.

(** [log_write] of a block of the transaction changes nothing. *)
Lemma insert_same l i b : 0 <= i < zlen (lh_block l) → lblock l i = b → <[Z.to_nat i := b]> (lh_block l) = lh_block l.
Proof.
  unfold zlen, lblock, aget. intros Hi Hb. apply list_insert_id.
  destruct (lh_block l !! Z.to_nat i) eqn:He; [by simpl in Hb; subst|].
  apply lookup_ge_None in He. lia.
Qed.

Definition add_block (b : Z) (l : logst) : logst :=
  set_lh_n (lh_n l + 1) (set_lh_block (<[Z.to_nat (lh_n l) := b]> (lh_block l)) l).

Lemma log_write_cases i b l s :
  head_ok l → lh_n l < LOGBLOCKS → 1 <= outstanding l → blockno (getb s i) = b →
  (b ∈ logged l ∧ log_write i l s = Ok (l, s)) ∨
  (b ∉ logged l ∧ log_write i l s = Ok (add_block b l, bpin i s)).
Proof.
  intros (Hn & Hlen & _) Hlt Ho Hb. unfold log_write. rewrite Hb.
  rewrite (proj2 (Z.leb_gt _ _)), (proj2 (Z.ltb_ge _ _)) by lia. cbv zeta.
  assert (zlen (lh_block l) = LOGBLOCKS) as Hz by (unfold zlen; by rewrite Hlen).
  destruct (find_block_spec l b (Z.to_nat (lh_n l)) 0) as [[Hr Hf]|[Hr Hf]].
  - left. split; [apply elem_logged; eexists; split; [|exact Hf]; lia|].
    assert (zlen (lh_block l) = LOGBLOCKS) by done. rewrite insert_same by (done || lia).
    replace (set_lh_block (lh_block l) l) with l by (by destruct l). by rewrite (proj2 (Z.eqb_neq _ _)) by lia.
  - right. split.
    { rewrite elem_logged. intros (t & Ht & Hl). apply (Hf t); [lia|done]. }
    rewrite Hr. replace (0 + Z.of_nat (Z.to_nat (lh_n l))) with (lh_n l) by lia. by rewrite Z.eqb_refl.
Qed.

Lemma add_block_spec b l : head_ok l → lh_n l < LOGBLOCKS → 0 <= b < 2147483648 →
  head_ok (add_block b l) ∧ logged (add_block b l) = logged l ++ [b].
Proof.
  intros (Hn & Hlen & Hr) Hlt Hb.
  assert (zlen (lh_block l) = LOGBLOCKS) as Hz by (unfold zlen; by rewrite Hlen).
  assert (∀ t, 0 <= t → lblock (add_block b l) t = if t =? lh_n l then b else lblock l t) as Hl.
  { intros t Ht. unfold lblock at 1. simpl. apply lblock_insert; lia. }
  split.
  - split_and!; simpl; [lia|lia|by rewrite length_insert|]. intros t Ht. rewrite Hl by lia.
    destruct (Z.eqb_spec t (lh_n l)); [done|]. apply Hr. lia.
  - unfold logged. simpl lh_n. rewrite (seqZ_app 0 (lh_n l) 1) by lia. rewrite fmap_app. f_equal.
    + apply list_fmap_ext. intros k t Ht. apply lookup_seqZ in Ht as [-> Ht]. rewrite Hl by lia.
      by rewrite (proj2 (Z.eqb_neq _ _)) by lia.
    + simpl. rewrite Hl by lia. rewrite Z.add_0_l, Z.eqb_refl. done.
Qed.

Section laws.
Context (me start0 : Z) (d0 : gmap Z block) (w0 : list (Z * block)).
Local Abbreviation dev := ROOTDEV.

Record ldcore (s : ldst) (v : dview) (d : gset Z) (h : gmap nat Z) : Prop := {
  lr_inv : binv dev (ld_buf s);
  lr_disk : disk (ld_buf s) = d0;
  lr_wlog : wlog (ld_buf s) = w0;
  lr_start : start (ld_log s) = start0;
  lr_dev : ldev (ld_log s) = dev;
  lr_head : head_ok (ld_log s);
  lr_nodup : NoDup (logged (ld_log s));
  lr_area b : b ∈ logged (ld_log s) → log_area start0 b = false;
  lr_view b : view dev (ld_buf s) b = v b;
  lr_len b : length (v b) = Z.to_nat BSIZE;
  lr_held i b : h !! i = Some b → held dev (ld_buf s) me b i (rc dev (ld_buf s) b) (v b);
  lr_holder b : holder dev (ld_buf s) b ≠ None → ∃ i, h !! i = Some b;
  lr_rc b : rc dev (ld_buf s) b = one (b ∈ hblocks h) + one (b ∈ logged (ld_log s));
  lr_clean b : b ∉ d → b ∉ logged (ld_log s) → v b = dget d0 b;
  lr_free : (nfree (ld_buf s) + size (pinned h (ld_log s)) = 30)%nat
}.

(** The log in the middle of a transaction of one process. *)
Definition in_tx (l : logst) : Prop := outstanding l = 1 ∧ committing l = 0.
Definition ldrep (s : ldst) (v : dview) (d : gset Z) (h : gmap nat Z) : Prop :=
  in_tx (ld_log s) ∧ ldcore s v d h.

Definition ld_panic (m : string) : Prop :=
  m = "bget: no buffers"%string ∨ m = "too big a transaction"%string.

Lemma dev_nz : dev ≠ 0.
Proof. done. Qed.

Lemma core_rc s v d h b : ldcore s v d h → 0 <= rc dev (ld_buf s) b <= 2 ∧
  (rc dev (ld_buf s) b = 0 ↔ b ∉ pinned h (ld_log s)).
Proof.
  intros Hc. rewrite (lr_rc _ _ _ _ Hc b). unfold pinned. rewrite elem_of_union, elem_of_list_to_set.
  unfold one. repeat case_decide; (split; [lia|]); naive_solver lia.
Qed.

Lemma core_unheld s v d h b : ldcore s v d h → (∀ i, h !! i ≠ Some b) →
  holder dev (ld_buf s) b = None ∧ b ∉ hblocks h.
Proof.
  intros Hc Hb. split.
  - destruct (holder dev (ld_buf s) b) eqn:He; [|done].
    destruct (lr_holder _ _ _ _ Hc b) as [i Hi]; [by rewrite He|]. by destruct (Hb i).
  - rewrite elem_hblocks. intros [i Hi]. by destruct (Hb i).
Qed.

Lemma core_held_blk s v d h i b : ldcore s v d h → h !! i = Some b →
  ∃ x, bufs (ld_buf s) !! i = Some x ∧ blockno x = b ∧ bdev x = dev ∧ 1 <= refcnt x.
Proof.
  intros Hc Hi. destruct (lr_held _ _ _ _ Hc i b Hi) as (x & (Hx & Hd & Hk) & _ & _ & Hr & _).
  exists x. split_and!; [done..|]. rewrite Hr, (lr_rc _ _ _ _ Hc). unfold one.
  rewrite (decide_True (P := b ∈ hblocks h)) by (apply elem_hblocks; eauto). case_decide; lia.
Qed.

Lemma core_inj s v d h i j b : ldcore s v d h → h !! i = Some b → h !! j = Some b → i = j.
Proof.
  intros Hc Hi Hj. destruct (core_held_blk _ _ _ _ _ _ Hc Hi) as (x & Hx & Hxb & Hxd & _).
  destruct (core_held_blk _ _ _ _ _ _ Hc Hj) as (y & Hy & Hyb & Hyd & _).
  eapply (bi_unique _ _ (lr_inv _ _ _ _ Hc)); [exact Hx|exact Hy|by rewrite Hxd|congruence..].
Qed.

(** *** bread *)
Lemma core_read s v d h b i x :
  ldcore s v d h → (∀ i, h !! i ≠ Some b) → bread_ok dev me b (ld_buf s) i x →
  h !! i = None ∧ ldcore (set_ld_buf x s) v d (<[i := b]> h).
Proof.
  intros Hc Hb (Hi & (nb & Hat & Hv & Ho & Hr & Hd) & Hdk & Hw & Hvw & Hot & Hf & Hsame & b0 & Hb0 & Hor).
  destruct (core_unheld _ _ _ _ _ Hc Hb) as [_ Hnh].
  assert (h !! i = None) as Hni.
  { destruct (h !! i) as [c|] eqn:Hhi; [|done]. exfalso.
    destruct (core_held_blk _ _ _ _ _ _ Hc Hhi) as (y & Hy & Hyb & _ & Hyr).
    assert (y = b0) as -> by congruence. destruct Hor as [?|?]; [|lia]. apply (Hb i). congruence. }
  split; [done|].
  assert (held dev x me b i (rc dev (ld_buf s) b + 1) (v b)) as Hheld.
  { exists nb. split_and!; try done. by rewrite Hd, (lr_view _ _ _ _ Hc). }
  destruct (held_cached dev dev_nz _ _ _ _ _ _ Hi Hheld) as (Hrc & Hho & _).
  split; simpl; try apply Hc; try done.
  - simpl. rewrite Hdk. apply Hc.
  - simpl. rewrite Hw. apply Hc.
  - intros c. rewrite Hvw. apply Hc.
  - intros j c Hj. apply lookup_insert_Some in Hj as [[<- <-]|[Hne Hj]]; [by rewrite Hrc|].
    assert (c ≠ b) as Hcb by (intros ->; by apply (Hb j)).
    destruct (Hot c Hcb) as [-> _]. eapply held_frame; [by apply Hc|]. by apply Hsame.
  - intros c Hn. destruct (decide (c = b)) as [->|Hcb]; [exists i; apply lookup_insert_eq|].
    destruct (Hot c Hcb) as [_ He]. rewrite He in Hn. destruct (lr_holder _ _ _ _ Hc c Hn) as [j Hj].
    exists j. rewrite lookup_insert_ne; [done|]. intros ->. congruence.
  - intros c. rewrite hblocks_insert by done. destruct (decide (c = b)) as [->|Hcb].
    + rewrite Hrc, (lr_rc _ _ _ _ Hc b). unfold one. repeat case_decide; set_solver by lia || lia.
    + destruct (Hot c Hcb) as [-> _]. rewrite (lr_rc _ _ _ _ Hc c). unfold one.
      repeat case_decide; set_solver.
  - unfold pinned. rewrite hblocks_insert by done.
    rewrite <-(assoc_L (∪)). fold (pinned h (ld_log s)). rewrite size_add.
    pose proof (lr_free _ _ _ _ Hc). destruct (core_rc _ _ _ _ b Hc) as [Hr0 Hr1].
    unfold isz in Hf. case_decide as Hp; destruct (Z.eqb_spec (rc dev (ld_buf s) b) 0); try tauto; lia.
Qed.

Lemma ld_read_spec s v d h b : ldrep s v d h → (∀ i, h !! i ≠ Some b) →
  outcome ld_panic (λ '(i, s'), h !! i = None ∧ ldrep s' v d (<[i := b]> h)) (ld_read me dev b s).
Proof.
  intros [Ht Hc] Hb. destruct (core_unheld _ _ _ _ _ Hc Hb) as [Hho _].
  destruct (core_rc _ _ _ _ b Hc) as [Hr _]. unfold ld_read.
  destruct (decide (cached dev (ld_buf s) b = None ∧ nfree (ld_buf s) = 0%nat)) as [Hno|Hav].
  - apply (bget_no_buffers dev me b (ld_buf s) dev_nz) in Hno; [|apply Hc].
    unfold bread. rewrite Hno. by left.
  - destruct (bread_spec dev dev_nz me b (ld_buf s)) as (i & x & -> & Hok); [apply Hc|done|lia| |].
    { destruct (cached dev (ld_buf s) b) eqn:He; [by left|right]. destruct (nfree _); [by destruct Hav|lia]. }
    simpl. destruct (core_read _ _ _ _ _ _ _ Hc Hb Hok). by split.
Qed.

(** *** Stores into a buffer *)
Lemma core_held_r s v d h i b : ldcore s v d h → h !! i = Some b →
  1 <= rc dev (ld_buf s) b ∧ b ∈ hblocks h.
Proof.
  intros Hc Hi. assert (b ∈ hblocks h) as Hb by (apply elem_hblocks; eauto). split; [|done].
  rewrite (lr_rc _ _ _ _ Hc). unfold one. rewrite (decide_True (P := b ∈ hblocks h)) by done. case_decide; lia.
Qed.

Lemma ld_data_spec s v d h i b : ldrep s v d h → h !! i = Some b → bdata (getb (ld_buf s) i) = v b.
Proof.
  intros [_ Hc] Hi. destruct (lr_held _ _ _ _ Hc i b Hi) as (x & (Hx & _) & _ & _ & _ & Hd).
  by rewrite (getb_Some _ _ _ Hx).
Qed.

Lemma put_bufs i x s j : j ≠ i → bufs (put_data i x s) !! j = bufs s !! j.
Proof. apply lookup_upd_ne. Qed.

(** Storing the content a held buffer has changes nothing. *)
Lemma ld_store_same s v d h i b : ldrep s v d h → h !! i = Some b →
  ldrep (set_ld_buf (put_data i (v b) (ld_buf s)) s) v d h.
Proof.
  intros Hs Hi. rewrite <-(ld_data_spec _ _ _ _ _ _ Hs Hi).
  destruct Hs as [Ht Hc]. destruct (lr_held _ _ _ _ Hc i b Hi) as (x & (Hx & _) & _).
  rewrite (getb_Some _ _ _ Hx). unfold put_data, upd_buf.
  replace (alter (set_data (bdata x)) i (bufs (ld_buf s))) with (bufs (ld_buf s)); [by destruct s as [? [] ?]|].
  apply list_eq. intros j. destruct (decide (i = j)) as [<-|].
  - rewrite list_lookup_alter_eq, Hx. by destruct x.
  - by rewrite list_lookup_alter_ne.
Qed.

Lemma ld_store_spec s v d h i b x : ldrep s v d h → h !! i = Some b → length x = Z.to_nat BSIZE →
  ldrep (set_ld_buf (put_data i x (ld_buf s)) s) (vset b x v) ({[b]} ∪ d) h.
Proof.
  intros [Ht Hc] Hi Hx. split; [done|]. destruct (core_held_r _ _ _ _ _ _ Hc Hi) as [Hr _].
  destruct (put_data_spec dev dev_nz me b i _ _ x (ld_buf s) (lr_inv _ _ _ _ Hc) (lr_held _ _ _ _ Hc i b Hi))
    as (Hi' & Hh' & Hot & Hdk & Hw & Hf); [lia|].
  destruct (held_cached dev dev_nz _ _ _ _ _ _ Hi' Hh') as (Hrc & _ & Hvw & _).
  assert (∀ c, rc dev (put_data i x (ld_buf s)) c = rc dev (ld_buf s) c) as Hrcs.
  { intros c. destruct (decide (c = b)) as [->|Hne]; [done|]. by destruct (Hot c Hne) as (_ & ? & _). }
  split; simpl; try apply Hc; try done.
  - intros c. unfold vset. case_decide as He; [by subst|]. destruct (Hot c) as (-> & _); [done|apply Hc].
  - intros c. unfold vset. case_decide; [done|apply Hc].
  - intros j c Hj. rewrite Hrcs. destruct (decide (c = b)) as [->|Hne].
    + assert (j = i) as -> by by eapply core_inj. by rewrite vset_eq.
    + rewrite vset_ne by done. eapply held_frame; [by apply Hc|]. apply put_bufs. intros ->. congruence.
  - intros c Hn. destruct (decide (c = b)) as [->|Hne]; [by exists i|].
    destruct (Hot c Hne) as (_ & _ & He). rewrite He in Hn. by apply (lr_holder _ _ _ _ Hc).
  - intros c. rewrite Hrcs. apply Hc.
  - intros c Hn Hl. rewrite vset_ne by set_solver. apply (lr_clean _ _ _ _ Hc); set_solver.
  - rewrite Hf. apply Hc.
Qed.

(** *** log_write *)
Lemma ld_log_spec s v d h i b : ldrep s v d h → h !! i = Some b → log_area start0 b = false →
  outcome ld_panic (λ s', ldrep s' v (d ∖ {[b]}) h) (ld_logw i s).
Proof.
  intros [[Ho Hcm] Hc] Hi Hlg. destruct (core_held_blk _ _ _ _ _ _ Hc Hi) as (y & Hy & Hyb & _ & _).
  unfold ld_logw. destruct (decide (LOGBLOCKS <= lh_n (ld_log s))) as [Hfull|Hroom].
  { unfold log_write. rewrite (proj2 (Z.leb_le _ _)) by done. by right. }
  destruct (log_write_cases i b (ld_log s) (ld_buf s)) as [[Hin ->]|[Hnin ->]];
    [apply Hc|lia|lia|by rewrite (getb_Some _ _ _ Hy)|..]; simpl.
  - destruct s as [l x t]. split; [done|]. split; simpl; try apply Hc.
    intros c Hn Hl. apply (lr_clean _ _ _ _ Hc); [|done]. simpl in *. set_solver.
  - destruct (add_block_spec b (ld_log s)) as [Hhd Hlog]; [apply Hc|lia|by apply log_area_no in Hlg as [_ ?]|].
    destruct (core_held_r _ _ _ _ _ _ Hc Hi) as [Hr Hbh]. destruct (core_rc _ _ _ _ b Hc) as [Hr2 _].
    destruct (bpin_spec dev dev_nz me b i _ _ (ld_buf s) (lr_inv _ _ _ _ Hc) (lr_held _ _ _ _ Hc i b Hi))
      as (Hi' & Hh' & Hot & Hdk & Hw & Hf); [lia|].
    destruct (held_cached dev dev_nz _ _ _ _ _ _ Hi' Hh') as (Hrc & Hho & Hvw & _).
    split; [done|]. split; simpl; rewrite ?Hlog; try apply Hc; try done.
    + apply NoDup_app. split_and!; [apply Hc| |apply NoDup_singleton].
      intros c Hin ->%list_elem_of_singleton. done.
    + intros c. rewrite elem_of_app, list_elem_of_singleton. intros [?| ->]; [by apply (lr_area _ _ _ _ Hc)|done].
    + intros c. destruct (decide (c = b)) as [->|Hne]; [done|]. destruct (Hot c Hne) as (-> & _). apply Hc.
    + intros j c Hj. destruct (decide (c = b)) as [->|Hne].
      * assert (j = i) as -> by by eapply core_inj. by rewrite Hrc.
      * destruct (Hot c Hne) as (_ & -> & _). eapply held_frame; [by apply Hc|].
        apply lookup_upd_ne. intros ->. congruence.
    + intros c Hn. destruct (decide (c = b)) as [->|Hne]; [by exists i|].
      destruct (Hot c Hne) as (_ & _ & He). rewrite He in Hn. by apply (lr_holder _ _ _ _ Hc).
    + intros c. destruct (decide (c = b)) as [->|Hne].
      * rewrite Hrc, (lr_rc _ _ _ _ Hc b). unfold one. repeat case_decide; set_solver by lia || lia.
      * destruct (Hot c Hne) as (_ & -> & _). rewrite (lr_rc _ _ _ _ Hc c). unfold one. repeat case_decide; set_solver.
    + intros c Hn Hl. apply (lr_clean _ _ _ _ Hc); set_solver.
    + rewrite Hf. replace (pinned h (add_block b (ld_log s))) with (pinned h (ld_log s)); [apply Hc|].
      unfold pinned. rewrite Hlog. set_solver.
Qed.

(** *** brelse *)
Lemma hblocks_delete s v d h i b : ldcore s v d h → h !! i = Some b → hblocks (delete i h) = hblocks h ∖ {[b]}.
Proof.
  intros Hc Hi. apply set_eq. intros c. rewrite elem_of_difference, !elem_hblocks, not_elem_of_singleton.
  setoid_rewrite lookup_delete_Some. split.
  - intros (j & Hne & Hj). split; [eauto|]. intros ->. apply Hne. by eapply core_inj.
  - intros [[j Hj] Hne]. exists j. split; [|done]. intros ->. congruence.
Qed.

Lemma ld_rel_spec s v d h i b : ldrep s v d h → h !! i = Some b → b ∉ d →
  outcome ld_panic (λ s', ldrep s' v d (delete i h)) (ld_rel me i s).
Proof.
  intros [Ht Hc] Hi Hd. destruct (core_held_r _ _ _ _ _ _ Hc Hi) as [Hr Hbh].
  pose proof (lr_rc _ _ _ _ Hc b) as Hrc0. unfold one in Hrc0. rewrite (decide_True (P := b ∈ hblocks h)) in Hrc0 by done.
  destruct (brelse_spec dev dev_nz me b i _ _ (ld_buf s) (lr_inv _ _ _ _ Hc) (lr_held _ _ _ _ Hc i b Hi))
    as (x & E & Hi' & Hrc & Hho & Hvw & Hot & Hdk & Hw & Hf & Hsame); [lia| |].
  { intros H1. rewrite (lr_disk _ _ _ _ Hc). apply (lr_clean _ _ _ _ Hc); [done|]. case_decide; [lia|done]. }
  unfold ld_rel. rewrite E. simpl. split; [done|].
  split; simpl; rewrite ?(hblocks_delete _ _ _ _ _ _ Hc Hi); try apply Hc; try done.
  - rewrite Hdk. apply Hc.
  - rewrite Hw. apply Hc.
  - intros c. destruct (decide (c = b)) as [->|Hne]; [done|]. destruct (Hot c Hne) as (-> & _). apply Hc.
  - intros j c [Hji Hj]%lookup_delete_Some.
    assert (c ≠ b) as Hne by (intros ->; apply Hji; by eapply core_inj).
    destruct (Hot c Hne) as (_ & -> & _). eapply held_frame; [by apply Hc|]. by apply Hsame.
  - intros c Hn. destruct (decide (c = b)) as [->|Hne]; [done|].
    destruct (Hot c Hne) as (_ & _ & He). rewrite He in Hn. destruct (lr_holder _ _ _ _ Hc c Hn) as [j Hj].
    exists j. apply lookup_delete_Some. split; [|done]. intros ->. congruence.
  - intros c. destruct (decide (c = b)) as [->|Hne].
    + rewrite Hrc, Hrc0. unfold one. repeat case_decide; set_solver by lia || lia.
    + destruct (Hot c Hne) as (_ & -> & _). rewrite (lr_rc _ _ _ _ Hc c). unfold one. repeat case_decide; set_solver.
  - pose proof (lr_free _ _ _ _ Hc) as Hfr. rewrite Hf. unfold pinned in *.
    rewrite (hblocks_delete _ _ _ _ _ _ Hc Hi). set (L := list_to_set (logged (ld_log s))) in *.
    assert (hblocks h ∪ L = {[b]} ∪ (hblocks h ∖ {[b]} ∪ L)) as Heq.
    { apply set_eq. intros c. rewrite !elem_of_union, elem_of_difference, elem_of_singleton.
      destruct (decide (c = b)) as [->|]; naive_solver. }
    rewrite Heq, size_add in Hfr. rewrite Hrc0. unfold isz, L in *. repeat case_decide; simpl in *; set_solver by lia || lia.
Qed.

(** The log and the cache keep the promise to the file system. *)
#[local] Existing Instance ld_ops.
Program Definition ld_laws V p : @BufLaws ldst (ld_ops V p me) (log_area start0) :=
  {| io_panic := ld_panic; brep := ldrep |}.
Next Obligation.
  intros V p s v v' d h Hv [Ht Hc]. split; [done|]. split; try apply Hc; intros *; rewrite <-?Hv; apply Hc.
Qed.
Next Obligation. intros V p s v d h b [_ Hc]. apply Hc. Qed.
Next Obligation. intros V p. exact ld_read_spec. Qed.
Next Obligation. intros V p. exact ld_data_spec. Qed.
Next Obligation. intros V p. exact ld_store_spec. Qed.
Next Obligation. intros V p. exact ld_store_same. Qed.
Next Obligation. intros V p. exact ld_log_spec. Qed.
Next Obligation. intros V p. exact ld_rel_spec. Qed.
End laws.
