(* ===== verification/LogTx.v ===== *)
(** * Transactions on the cache and the log

    [begin_op] opens a transaction on a system at rest, and [end_op] commits it:
    afterwards the disk is what reads returned inside the transaction, the
    system is at rest again, and a crash at any block write leaves all of the
    transaction or nothing of it once the next boot has recovered. *)
From S2P Require Import Prelude Proc Bio Log LogSpec LogCrash Buf LogDisk.

(** ** Between transactions *)

(** No transaction is open and the log on disk is empty: what a read returns is
    the disk. *)
Record at_rest (start0 : Z) (me : Z) (d : gmap Z block) (w : list (Z * block)) (s : ldst) : Prop := {
  id_core : ldcore me start0 d w s (dget d) ∅ ∅;
  id_n : lh_n (ld_log s) = 0;
  id_out : outstanding (ld_log s) = 0 ∧ committing (ld_log s) = 0;
  id_head : get32 (dget d start0) 0 = 0
}.

(** A home block: any block that the log may hold. *)
Definition home_same (start0 : Z) (d : gmap Z block) (v : dview) : Prop :=
  ∀ b, log_area start0 b = false → dget d b = v b.

(** What a crash after any number of the writes [ws] leaves, once [initlog] of
    the next boot has run: all home blocks as in [v], or all as in [v']. *)
Definition crash_atomic (me start0 : Z) (d : gmap Z block) (ws : list (Z * block)) (v v' : dview) : Prop :=
  ∀ k l0 tab, length (lh_block l0) = Z.to_nat LOGBLOCKS →
    ∃ s', ld_init me ROOTDEV start0 (mkLD l0 (binit (apply_writes d (take k ws))) tab) = Ok s' ∧
      (home_same start0 (disk (ld_buf s')) v ∨ home_same start0 (disk (ld_buf s')) v').

Section tx.
Context (V : Z) (p : nat) (me start0 : Z) (d0 : gmap Z block) (w0 : list (Z * block)).
Local Abbreviation dev := ROOTDEV.
Local Abbreviation ldcore := (ldcore me start0 d0 w0).
Local Abbreviation ldrep := (ldrep me start0 d0 w0).

Lemma ld_begin_spec s : at_rest start0 me d0 w0 s →
  ∃ s', ld_begin s = Ok s' ∧ ldrep s' (dget d0) ∅ ∅ ∧ lh_n (ld_log s') = 0.
Proof.
  intros [Hc Hn [Ho Hcm] _]. unfold ld_begin, begin_op. rewrite Hcm, Hn, Ho. simpl.
  eexists. split; [done|]. split; [|exact Hn]. split; [split; simpl; [lia|done]|].
  destruct s as [l x t]. split; apply Hc.
Qed.

Lemma pinned_empty l : lh_n l = 0 → pinned ∅ l = ∅.
Proof.
  intros Hn. unfold pinned, logged. rewrite Hn. simpl. unfold hblocks. rewrite map_img_empty_L. set_solver.
Qed.

Lemma size_pinned l : NoDup (logged l) → size (pinned ∅ l) = Z.to_nat (lh_n l).
Proof.
  intros Hn. unfold pinned, hblocks. rewrite map_img_empty_L, union_empty_l_L, size_list_to_set by done.
  unfold logged. by rewrite length_fmap, length_seqZ.
Qed.

Lemma core_commit s v c : ldcore s v ∅ ∅ → 0 < lh_n (ld_log s) <= 28 → get32 (dget d0 start0) 0 = 0 →
  ldev c = ldev (ld_log s) → start c = start (ld_log s) → lh_n c = lh_n (ld_log s) →
  lh_block c = lh_block (ld_log s) → commit_pre dev c (ld_buf s).
Proof.
  intros Hc Hn H0 Hd Hst Hln Hlb. pose proof (lr_head _ _ _ _ _ _ _ _ Hc) as Hhd.
  assert (∀ t, lblock c t = lblock (ld_log s) t) as Hlbl by (intros t; unfold lblock; by rewrite Hlb).
  assert (∀ t, 0 <= t < lh_n (ld_log s) → lblock (ld_log s) t ∈ logged (ld_log s)) as Hin
    by (intros t Ht; apply elem_logged; eauto).
  assert (∀ b, holder dev (ld_buf s) b = None) as Hho.
  { intros b. destruct (holder dev (ld_buf s) b) eqn:He; [|done].
    destruct (lr_holder _ _ _ _ _ _ _ _ Hc b) as [i Hi]; [by rewrite He|]. by rewrite lookup_empty in Hi. }
  assert (zlen (dget d0 start0) = BSIZE ∧ rc dev (ld_buf s) start0 = 0) as [Hz Hr0].
  { assert (start0 ∉ logged (ld_log s)) as Hns.
    { intros Hl%(lr_area _ _ _ _ _ _ _ _ Hc)%log_area_no. unfold LOGBLOCKS, MAXOPBLOCKS in Hl. lia. }
    split.
    - rewrite <-(lr_clean _ _ _ _ _ _ _ _ Hc start0) by (done || set_solver). unfold zlen.
      by rewrite (lr_len _ _ _ _ _ _ _ _ Hc).
    - destruct (core_rc _ _ _ _ _ _ _ _ start0 Hc) as [_ ->]. unfold pinned, hblocks.
      rewrite map_img_empty_L. set_solver. }
  split; rewrite ?Hd, ?Hst, ?Hln, ?(lr_start _ _ _ _ _ _ _ _ Hc), ?(lr_disk _ _ _ _ _ _ _ _ Hc); try done.
  - apply Hc.
  - unfold head_ok. rewrite Hln, Hlb. destruct Hhd as (? & ? & Hr). split_and!; [lia|lia|done|].
    intros i. rewrite Hlbl. apply Hr.
  - lia.
  - apply Hc.
  - intros b. destruct (core_rc _ _ _ _ _ _ _ _ b Hc). lia.
  - pose proof (lr_free _ _ _ _ _ _ _ _ Hc). pose proof (size_pinned (ld_log s) (lr_nodup _ _ _ _ _ _ _ _ Hc)). lia.
  - intros t j Ht Hj. rewrite Hlbl, Hst, (lr_start _ _ _ _ _ _ _ _ Hc). intros He.
    apply Hin, (lr_area _ _ _ _ _ _ _ _ Hc), log_area_no in Ht as [Ha _]. lia.
  - intros t t' Ht Ht'. rewrite !Hlbl. intros He. pose proof (lr_nodup _ _ _ _ _ _ _ _ Hc) as Hnd.
    unfold logged in Hnd. assert (Z.to_nat t = Z.to_nat t') as Htt; [|lia].
    eapply NoDup_lookup; [exact Hnd|rewrite list_lookup_fmap, lookup_seqZ_lt by lia; done|].
    rewrite list_lookup_fmap, lookup_seqZ_lt by lia. simpl. f_equal.
    rewrite !Z2Nat.id by lia. by rewrite !Z.add_0_l.
  - intros t Ht. rewrite Hlbl, (lr_rc _ _ _ _ _ _ _ _ Hc). unfold one.
    rewrite (decide_True (P := _ ∈ logged _)) by auto. case_decide; lia.
Qed.

Lemma apply_writes_len ws : ∀ d, (∀ b, length (dget d b) = Z.to_nat BSIZE) →
  Forall (λ w, length w.2 = Z.to_nat BSIZE) ws → ∀ b, length (dget (apply_writes d ws) b) = Z.to_nat BSIZE.
Proof.
  induction ws as [|[a x] ws IH]; intros d Hd Hw; [done|]. apply Forall_cons in Hw as [Hx Hw]. simpl in Hx.
  apply (IH (<[a := x]> d)); [|done]. intros b. rewrite dget_insert. case_decide; [done|apply Hd].
Qed.

Lemma core_ext s v v' : (∀ b, v b = v' b) → ldcore s v ∅ ∅ → ldcore s v' ∅ ∅.
Proof. intros Hv Hc. split; try apply Hc; intros *; rewrite <-?Hv; apply Hc. Qed.

(** [initlog] on a disk whose log is empty. *)
Lemma init_crash k ws l0 tab v :
  length (lh_block l0) = Z.to_nat LOGBLOCKS →
  (∃ l' x, recover_from_log me (mkLog start0 (outstanding l0) (committing l0) dev (lh_n l0) (lh_block l0))
             (binit (apply_writes d0 (take k ws))) = Ok (l', x) ∧
     (home_same start0 (disk x) (dget d0) ∨ home_same start0 (disk x) v)) →
  ∃ s', ld_init me dev start0 (mkLD l0 (binit (apply_writes d0 (take k ws))) tab) = Ok s' ∧
    (home_same start0 (disk (ld_buf s')) (dget d0) ∨ home_same start0 (disk (ld_buf s')) v).
Proof.
  intros Hl (l' & x & E & Hx). unfold ld_init, initlog. simpl ld_log. simpl ld_buf.
  rewrite (proj2 (Z.leb_gt _ _)) by done. rewrite E. simpl. eexists. split; [done|exact Hx].
Qed.

Lemma home_of b l : log_area start0 b = false → start l = start0 → home l b.
Proof. intros [Hb _]%log_area_no Hl. unfold home. by rewrite Hl. Qed.

(** The end of a transaction that changed nothing. *)
Lemma end_empty s v : ldrep s v ∅ ∅ → lh_n (ld_log s) = 0 → get32 (dget d0 start0) 0 = 0 →
  ∃ s', ld_end V p me s = Ok s' ∧ at_rest start0 me d0 w0 s' ∧ home_same start0 d0 v ∧
    crash_atomic me start0 d0 [] (dget d0) v.
Proof.
  intros [[Ho Hcm] Hc] Hn H0.
  assert (∀ b, v b = dget d0 b) as Hv.
  { intros b. apply (lr_clean _ _ _ _ _ _ _ _ Hc); [set_solver|]. unfold logged. rewrite Hn. apply not_elem_of_nil. }
  unfold ld_end, end_op, end_op_begin. simpl. rewrite Ho, Hcm. simpl. unfold commit. simpl. rewrite Hn. simpl.
  eexists. split; [done|]. split_and!.
  - split; [|done|done|exact H0]. apply (core_ext _ v); [exact Hv|]. split; apply Hc.
  - intros b _. by rewrite Hv.
  - intros k l0 tab Hl. apply init_crash; [done|].
    destruct (recover_empty me dev (dev_nz) (mkLog start0 0 0 0 0 [])
      (mkLog start0 (outstanding l0) (committing l0) dev (lh_n l0) (lh_block l0)) d0) as (l' & x & E & Hx); try done.
    rewrite take_nil. exists l', x. split; [exact E|]. left. intros b Hb. apply Hx. by apply home_of.
Qed.

Lemma commit_writes_len c s v : ldcore s v ∅ ∅ → commit_pre dev c (ld_buf s) →
  Forall (λ w, length w.2 = Z.to_nat BSIZE) (commit_writes dev c (ld_buf s)).
Proof.
  intros Hc Hp. assert (∀ t, length (new_block dev c (ld_buf s) t) = Z.to_nat BSIZE) as Hnew.
  { intros t. unfold new_block. rewrite (lr_view _ _ _ _ _ _ _ _ Hc). apply Hc. }
  destruct (hb_ok dev c (ld_buf s) Hp) as (Hz & _ & _).
  assert (zlen (head_block (set_lh_n 0 c) (head_block c (dget (disk (ld_buf s)) (start c)))) = BSIZE) as Hz0.
  { apply head_block_spec; [|exact Hz]. destruct (cp_head _ _ _ Hp) as (? & ? & _).
    split_and!; simpl; [done|done|done|lia]. }
  assert (∀ d : block, zlen d = BSIZE → length d = Z.to_nat BSIZE) as Hl by (unfold zlen; lia).
  assert (∀ (f : Z → Z * block) l, (∀ t, ∃ t', (f t).2 = new_block dev c (ld_buf s) t') →
    Forall (λ w, length w.2 = Z.to_nat BSIZE) (f <$> l)) as Hmap.
  { intros f l Hf. apply Forall_fmap, Forall_forall. intros t _. destruct (Hf t) as [t' Ht]. simpl. by rewrite Ht. }
  unfold commit_writes, log_writes, home_writes. rewrite !Forall_app. split_and!.
  - apply Hmap. eauto.
  - constructor; [by apply Hl|constructor].
  - apply Hmap. eauto.
  - constructor; [by apply Hl|constructor].
Qed.

(** A cache that nothing refers to, over an empty log. *)
Lemma core_fresh d w l x tab : d = disk x → w = wlog x → binv dev x → (∀ b, rc dev x b = 0) →
  (∀ b, holder dev x b = None) → (∀ b, length (dget d b) = Z.to_nat BSIZE) →
  start l = start0 → ldev l = dev → lh_n l = 0 → length (lh_block l) = Z.to_nat LOGBLOCKS →
  LogDisk.ldcore me start0 d w (mkLD l x tab) (dget d) ∅ ∅.
Proof.
  intros -> -> Hi Hrc Hho Hlen Hst Hd Hn Hlb.
  assert (logged l = []) as Hlog by (unfold logged; by rewrite Hn).
  split; simpl; rewrite ?Hlog; try done.
  - split_and!; [lia|unfold LOGBLOCKS, MAXOPBLOCKS; lia|done|lia].
  - apply NoDup_nil_2.
  - intros b Hb. by apply not_elem_of_nil in Hb.
  - intros b. by apply (view_clean dev dev_nz).
  - intros b Hb. by destruct (Hb (Hho b)).
  - rewrite (rc_zero_free dev dev_nz x Hi Hrc), pinned_empty by done. by rewrite size_empty.
Qed.

(** What the writes of a commit make of the disk. *)
Section committed.
Context (s : ldst) (v : dview) (c : logst) (x : bst).
Context (Hc : ldcore s v ∅ ∅) (Hp : commit_pre dev c (ld_buf s)).
Context (Ha : wrote_all dev (commit_writes dev c (ld_buf s)) (ld_buf s) x).
Context (Hst : start c = start0) (Hlog : ∀ t, lblock c t = lblock (ld_log s) t) (Hn : lh_n c = lh_n (ld_log s)).

Lemma home_logged b :
  b ∈ (home_writes c (new_block dev c (ld_buf s)) 0 (lh_n c)).*1 ↔ b ∈ logged (ld_log s).
Proof using Hlog Hn.
  clear Ha Hst Hp Hc.
  rewrite home_writes_fst, elem_logged, Hn. split.
  - intros (t & Ht & ->). exists t. split; [lia|done].
  - intros (t & Ht & <-). exists t. by rewrite Hlog.
Qed.

Lemma final_view b : final dev c (ld_buf s) b = v b.
Proof using Hlog Hn Hc Hp.
  clear Ha Hst.
  rewrite (final_value dev c (ld_buf s) Hp), (lr_disk _ _ _ _ _ _ _ _ Hc).
  case_decide as Hb; rewrite home_logged in Hb; [apply Hc|].
  symmetry. apply (lr_clean _ _ _ _ _ _ _ _ Hc); set_solver.
Qed.

Lemma committed_home : (∀ b, view dev x b = dget (disk x) b) → home_same start0 (disk x) v.
Proof using Hlog Hn Hc Hp Ha Hst.
  intros Hvw b Hb. assert (home c b) as Hh by by apply home_of.
  assert (b ≠ start c) as Hne by (intros ->; apply Hh; unfold LOGBLOCKS, MAXOPBLOCKS; lia).
  destruct (decide (b ∈ logged (ld_log s))) as [Hin|Hnin].
  - rewrite (wa_disk _ _ _ _ Ha), <-final_view. unfold commit_writes. rewrite !apply_writes_app. simpl.
    rewrite dget_insert, decide_False by done. unfold final. rewrite <-home_logged in Hin.
    apply list_elem_of_fmap in Hin as ([b' y] & -> & Hin).
    pose proof (HW_nodup dev c (ld_buf s) Hp) as Hnd. simpl.
    by rewrite !(dget_in (home_writes c _ 0 (lh_n c)) _ b' y).
  - rewrite <-Hvw, <-(lr_view _ _ _ _ _ _ _ _ Hc). apply (wa_view _ _ _ _ Ha).
    unfold commit_writes. rewrite !fmap_app, !not_elem_of_app, home_logged. split_and!; try done.
    + intros Hl. by apply (LW_log dev c (ld_buf s) Hp) in Hl as [? _].
    + simpl. by rewrite list_elem_of_singleton.
    + simpl. by rewrite list_elem_of_singleton.
Qed.

Lemma committed_unref :
  (∀ t, 0 <= t < lh_n c → rc dev x (lblock c t) = rc dev (ld_buf s) (lblock c t) - 1) → ∀ b, rc dev x b = 0.
Proof using Hlog Hn Hc Ha.
  clear Hst Hp.
  intros Hu b. pose proof (rc_nonneg dev dev_nz x b (wa_inv _ _ _ _ Ha)).
  pose proof (wa_rc _ _ _ _ Ha b). pose proof (lr_rc _ _ _ _ _ _ _ _ Hc b) as Hr. unfold one in Hr.
  rewrite (decide_False (P := b ∈ hblocks ∅)) in Hr by (unfold hblocks; rewrite map_img_empty_L; set_solver).
  case_decide as Hb; [|lia]. apply elem_logged in Hb as (t & Ht & Hb).
  specialize (Hu t ltac:(lia)). rewrite Hlog, Hb in Hu. lia.
Qed.
End committed.

Lemma end_commit s v :
  (∀ b, length (dget d0 b) = Z.to_nat BSIZE) → ldrep s v ∅ ∅ → 0 < lh_n (ld_log s) <= 28 →
  get32 (dget d0 start0) 0 = 0 →
  ∃ s' ws, ld_end V p me s = Ok s' ∧ at_rest start0 me (disk (ld_buf s')) (w0 ++ ws) s' ∧
    home_same start0 (disk (ld_buf s')) v ∧ crash_atomic me start0 d0 ws (dget d0) v.
Proof.
  intros Hlen [[Ho Hcm] Hc] Hn H0. set (c := set_committing 1 (set_outstanding 0 (ld_log s))).
  assert (commit_pre dev c (ld_buf s)) as Hp by (by eapply (core_commit s v c Hc)).
  assert (start c = start0) as Hst by apply Hc.
  destruct (commit_spec me dev dev_nz c (ld_buf s) Hp) as (x & E & Ha & Hu).
  pose proof (committed_unref s v c x Hc Ha (λ t, eq_refl) eq_refl Hu) as Hrc.
  exists (mkLD (set_committing 0 (set_lh_n 0 c)) x (wakeup V (Some p) ChLog (ld_tab s))), (commit_writes dev c (ld_buf s)).
  pose proof (lr_disk _ _ _ _ _ _ _ _ Hc) as Hdk. split_and!.
  - assert (end_op_begin V p (ld_log s) (ld_tab s) = Ok (true, c, ld_tab s)) as Eb.
    { unfold end_op_begin. simpl. by rewrite Ho, Hcm. }
    unfold ld_end, end_op. rewrite Eb. cbn [mbind res_bind]. by rewrite E.
  - split; [|done|done|].
    + apply core_fresh; try done; [rewrite (wa_wlog _ _ _ _ Ha); f_equal; symmetry; apply Hc|apply Ha| | |apply Hc|apply Hc].
      * intros b. rewrite (wa_holder _ _ _ _ Ha). apply (cp_unlocked _ _ _ Hp).
      * intros b. simpl. rewrite (wa_disk _ _ _ _ Ha), Hdk. apply apply_writes_len; [apply Hlen|].
        by eapply commit_writes_len.
    + simpl. rewrite (wa_disk _ _ _ _ Ha). unfold commit_writes. rewrite !apply_writes_app. simpl.
      rewrite dget_insert, decide_True by done. exact (hb0_ok dev c (ld_buf s) Hp).
  - apply (committed_home s v c x Hc Hp Ha Hst (λ t, eq_refl) eq_refl).
    intros b. apply (view_clean dev dev_nz); [apply Ha|apply Hrc].
  - intros k l0 tab Hl. apply init_crash; [done|].
    destruct (crash_point me dev dev_nz c (ld_buf s) Hp
      (mkLog start0 (outstanding l0) (committing l0) dev (lh_n l0) (lh_block l0)) k) as (l' & y & E' & Hy);
      [done|done|done|]. rewrite Hdk in E', Hy. exists l', y. split; [exact E'|].
    destruct Hy as [Hy|Hy]; [left|right]; intros b Hb; rewrite Hy by (by apply home_of); [done|].
    by apply (final_view s v c Hc Hp).
Qed.

(** [end_op] of the only transaction: the disk becomes what reads return, and a
    crash on the way leaves all of it or nothing. *)
Lemma ld_end_spec s v :
  (∀ b, length (dget d0 b) = Z.to_nat BSIZE) → ldrep s v ∅ ∅ → lh_n (ld_log s) <= 28 →
  get32 (dget d0 start0) 0 = 0 →
  ∃ s' ws, ld_end V p me s = Ok s' ∧ at_rest start0 me (disk (ld_buf s')) (w0 ++ ws) s' ∧
    home_same start0 (disk (ld_buf s')) v ∧ crash_atomic me start0 d0 ws (dget d0) v.
Proof.
  intros Hlen Hr Hn H0. pose proof (lr_head _ _ _ _ _ _ _ _ (proj2 Hr)) as [[Hn0 _] _].
  destruct (decide (lh_n (ld_log s) = 0)) as [Hz|Hz]; [|by apply end_commit; [..|lia|]].
  destruct (end_empty s v Hr Hz H0) as (s' & E & Hi & Hh & Hcr). exists s', [].
  pose proof (lr_disk _ _ _ _ _ _ _ _ (id_core _ _ _ _ _ Hi)) as Hd. rewrite Hd, app_nil_r. done.
Qed.
End tx.
