(* ===== verification/Uart.v ===== *)
(** * The UART driver and character output

    Models [kernel/uart.c] and [consputc] of [kernel/console.c].  The device is
    the 16550 the source cites: [WriteReg] and [ReadReg] act on its registers
    (register 0 and 1 are the baud-rate divisor while the latch bit of LCR is
    set), [out] is every byte sent through the transmit register, [rxq] the
    bytes received and not yet read.  The spin of [uartputc_sync] on
    LSR_TX_IDLE ends when the device is idle, so the write follows at once;
    its spin after a panic ends never, which is the result [NoFuel]. *)
From S2P Require Import Prelude Riscv Proc.

Definition RHR : Z := 0.
Definition THR : Z := 0.
Definition IER : Z := 1.
Definition IER_RX_ENABLE : Z := Z.shiftl 1 0.
Definition IER_TX_ENABLE : Z := Z.shiftl 1 1.
Definition FCR : Z := 2.
Definition FCR_FIFO_ENABLE : Z := Z.shiftl 1 0.
Definition FCR_FIFO_CLEAR : Z := Z.shiftl 3 1.
Definition LCR : Z := 3.
Definition LCR_EIGHT_BITS : Z := Z.shiftl 3 0.
Definition LCR_BAUD_LATCH : Z := Z.shiftl 1 7.
Definition LSR : Z := 5.
Definition LSR_RX_READY : Z := Z.shiftl 1 0.
Definition LSR_TX_IDLE : Z := Z.shiftl 1 5.

(** The device, and the static variables of uart.c and printf.c. *)
Record uart := mkUart {
  ier : Z; lcr : Z; dll : Z; dlm : Z; fifo : Z;
  out : list Z;          (* bytes written to THR *)
  idle : bool;           (* THR can accept a byte *)
  rxq : list Z;          (* receive FIFO *)
  tx_busy : Z;
  panicking : Z;
  panicked : Z
}.

Definition with_out (o : list Z) (i : bool) (u : uart) : uart :=
  mkUart (ier u) (lcr u) (dll u) (dlm u) (fifo u) o i (rxq u) (tx_busy u) (panicking u) (panicked u).
Definition with_rxq (q : list Z) (u : uart) : uart :=
  mkUart (ier u) (lcr u) (dll u) (dlm u) (fifo u) (out u) (idle u) q (tx_busy u) (panicking u) (panicked u).
Definition with_busy (b : Z) (u : uart) : uart :=
  mkUart (ier u) (lcr u) (dll u) (dlm u) (fifo u) (out u) (idle u) (rxq u) b (panicking u) (panicked u).
Definition with_panic (p q : Z) (u : uart) : uart :=
  mkUart (ier u) (lcr u) (dll u) (dlm u) (fifo u) (out u) (idle u) (rxq u) (tx_busy u) p q.

Definition latched (u : uart) : bool := negb (Z.land (lcr u) LCR_BAUD_LATCH =? 0).

Definition WriteReg (reg v : Z) (u : uart) : uart :=
  let v := u8 v in
  if reg =? 0 then
    if latched u
    then mkUart (ier u) (lcr u) v (dlm u) (fifo u) (out u) (idle u) (rxq u) (tx_busy u) (panicking u) (panicked u)
    else with_out (out u ++ [v]) false u
  else if reg =? 1 then
    if latched u
    then mkUart (ier u) (lcr u) (dll u) v (fifo u) (out u) (idle u) (rxq u) (tx_busy u) (panicking u) (panicked u)
    else mkUart v (lcr u) (dll u) (dlm u) (fifo u) (out u) (idle u) (rxq u) (tx_busy u) (panicking u) (panicked u)
  else if reg =? 2 then
    mkUart (ier u) (lcr u) (dll u) (dlm u) v (out u) (idle u)
      (if Z.testbit v 1 then [] else rxq u) (tx_busy u) (panicking u) (panicked u)
  else if reg =? 3 then
    mkUart (ier u) v (dll u) (dlm u) (fifo u) (out u) (idle u) (rxq u) (tx_busy u) (panicking u) (panicked u)
  else u.

(** [ReadReg(LSR)]. *)
Definition read_LSR (u : uart) : Z :=
  Z.lor (match rxq u with [] => 0 | _ => LSR_RX_READY end) (if idle u then LSR_TX_IDLE else 0).

(** [ReadReg(RHR)] takes the oldest byte of the receive FIFO. *)
Definition read_RHR (u : uart) : Z * uart :=
  match rxq u with [] => (0, u) | c :: q => (c, with_rxq q u) end.

Definition uartinit (u : uart) : uart :=
  let u := WriteReg IER 0 u in
  let u := WriteReg LCR LCR_BAUD_LATCH u in
  let u := WriteReg 0 3 u in
  let u := WriteReg 1 0 u in
  let u := WriteReg LCR LCR_EIGHT_BITS u in
  let u := WriteReg FCR (Z.lor FCR_FIFO_ENABLE FCR_FIFO_CLEAR) u in
  WriteReg IER (Z.lor IER_TX_ENABLE IER_RX_ENABLE) u.

Definition uartputc_sync (c : Z) (u : uart) : res uart :=
  if negb (panicked u =? 0) then NoFuel else Ok (WriteReg THR c u).

Definition uartgetc (u : uart) : Z * uart :=
  if negb (Z.land (read_LSR u) LSR_RX_READY =? 0) then read_RHR u else (-1, u).

Definition BACKSPACE : Z := 256.

Definition consputc (c : Z) (u : uart) : res uart :=
  if c =? BACKSPACE then
    u ← uartputc_sync 8 u; u ← uartputc_sync 32 u; uartputc_sync 8 u
  else uartputc_sync c u.

(** A loop of [consputc] over a list of characters. *)
Fixpoint consputs (cs : list Z) (u : uart) : res uart :=
  match cs with
  | [] => Ok u
  | c :: cs' => u ← consputc c u; consputs cs' u
  end.

(** [uartwrite]; the byte loop between two sleeps. [UWAsleep] is the sleep on
    [&tx_chan], [UWRet] the return. *)
Inductive uwpc := UWLoop (i : Z) | UWAsleep (i : Z) | UWRet.

Definition uartwrite (me : nat) (bs : list Z) (n : Z) (pc : uwpc) (st : uart * list proc)
    : uwpc * (uart * list proc) :=
  let '(u, ps) := st in
  match pc with
  | UWLoop i =>
      if i <? n then
        if negb (tx_busy u =? 0) then (UWAsleep i, (u, sleep_begin me ChTx ps))
        else (UWLoop (i + 1), (with_busy 1 (WriteReg THR (aget bs i) u), ps))
      else (UWRet, (u, ps))
  | UWAsleep i => (UWLoop i, (u, sleep_end me ps))
  | UWRet => (UWRet, (u, ps))
  end.

(** The transmit half of [uartintr]. *)
Definition uartintr_tx (V : Z) (me : option nat) (st : uart * list proc) : uart * list proc :=
  let '(u, ps) := st in
  if negb (Z.land (read_LSR u) LSR_TX_IDLE =? 0)
  then (with_busy 0 u, wakeup V me ChTx ps) else (u, ps).

(** ** Facts *)

(** The device after [uartinit]: eight bits, interrupts on, no latch. *)
Definition uart_on (u : uart) : Prop := latched u = false ∧ panicked u = 0.

Lemma uartinit_on u : panicked u = 0 → uart_on (uartinit u) ∧ ier (uartinit u) = 3 ∧ rxq (uartinit u) = [].
Proof.
  intros Hp. unfold uartinit.
  assert (panicked (WriteReg IER 0 u) = 0) as H1 by (unfold WriteReg; simpl; by destruct (latched u)).
  destruct (WriteReg IER 0 u). simpl in H1. subst. vm_compute. done.
Qed.

Lemma uartputc_sync_ok c u : uart_on u →
  uartputc_sync c u = Ok (with_out (out u ++ [u8 c]) false u).
Proof.
  intros [Hl Hp]. unfold uartputc_sync, WriteReg. rewrite Hp. simpl. by rewrite Hl.
Qed.

(** What [consputc] shows for a character. *)
Definition shown (c : Z) : list Z := if c =? BACKSPACE then [8; 32; 8] else [u8 c].

Lemma with_out_out a b i j u : with_out a i (with_out b j u) = with_out a i u.
Proof. done. Qed.

Lemma uart_on_out o i u : uart_on u → uart_on (with_out o i u).
Proof. done. Qed.
#[export] Hint Resolve uart_on_out : xv6.

Lemma consputc_ok c u : uart_on u →
  consputc c u = Ok (with_out (out u ++ shown c) false u).
Proof.
  intros Hu. unfold consputc, shown. destruct (c =? BACKSPACE).
  - rewrite uartputc_sync_ok by done. simpl. rewrite uartputc_sync_ok by auto with xv6. simpl.
    rewrite uartputc_sync_ok by auto with xv6. by rewrite !with_out_out; simpl; rewrite <-!app_assoc.
  - by apply uartputc_sync_ok.
Qed.

Lemma consputs_ok cs : ∀ u, uart_on u → cs ≠ [] →
  consputs cs u = Ok (with_out (out u ++ concat (map shown cs)) false u).
Proof.
  induction cs as [|c cs IH]; intros u Hu Hne; [done|]. simpl. rewrite consputc_ok by done. simpl.
  destruct cs as [|c' cs]; [simpl; by rewrite app_nil_r|].
  rewrite IH by (auto with xv6 || done). by rewrite with_out_out; simpl out; rewrite <-app_assoc.
Qed.

Lemma consputs_app a b u : consputs (a ++ b) u = (u ← consputs a u; consputs b u).
Proof. revert u. induction a as [|c a IH]; intros u; simpl; [done|]. destruct (consputc c u); simpl; auto. Qed.

Lemma uartgetc_nil u : rxq u = [] → uartgetc u = (-1, u).
Proof. intros H. unfold uartgetc, read_LSR. rewrite H. by destruct (idle u). Qed.

Lemma uartgetc_cons u c q : rxq u = c :: q → uartgetc u = (c, with_rxq q u).
Proof. intros H. unfold uartgetc, read_LSR, read_RHR. rewrite H. by destruct (idle u). Qed.
