(* ===== verification/Printf.v ===== *)
(** * Formatted output

    Models [kernel/printf.c] ([printint], [printptr], [printf], [panic]) and
    [procdump] of [kernel/proc.c] over the UART of [Uart].  A format is the
    list of its characters (reading at its end gives the NUL), an argument is
    an integer as the caller passed it or a string pointer ([AStr None] is the
    null pointer).  An argument list that does not fit the format is undefined
    in C and ends here in a [Panic "va_arg"]. *)
From S2P Require Import Prelude Riscv Proc Uart.

(** The characters of a C string literal. *)
Definition cstr (s : string) : list Z :=
  map (λ a, Z.of_nat (Ascii.nat_of_ascii a)) (String.list_ascii_of_string s).

(** The one-character string of a newline. *)
Definition nl : string := String (Ascii.ascii_of_nat 10) EmptyString.

Definition digits : list Z := cstr "0123456789abcdef".

Definition i64 (x : Z) : Z :=
  let y := u64 x in if y <? 9223372036854775808 then y else y - 18446744073709551616.

(** The do-while loop of [printint]: the buffer with the digits, least
    significant first. *)
Fixpoint printint_digits (fuel : nat) (x base : Z) (buf : list Z) : res (list Z) :=
  match fuel with
  | O => NoFuel
  | S f =>
      let buf := buf ++ [aget digits (x mod base)] in
      let x := x / base in
      if negb (x =? 0) then printint_digits f x base buf else Ok buf
  end.

(** [buf[0..i)] of [printint] when the printing loop starts. *)
Definition printint_buf (xx base : Z) (sign : bool) : res (list Z) :=
  let sign := sign && (xx <? 0) in
  let x := if sign then u64 (- xx) else u64 xx in
  buf ← printint_digits 64 x base [];
  Ok (if sign then buf ++ [45] else buf).

Definition printint (xx base : Z) (sign : bool) (u : uart) : res uart :=
  buf ← printint_buf xx base sign; consputs (reverse buf) u.

Fixpoint printptr_loop (n : nat) (x : Z) (u : uart) : res uart :=
  match n with
  | O => Ok u
  | S n' => u ← consputc (aget digits (Z.shiftr x 60)) u;
            printptr_loop n' (u64 (Z.shiftl x 4)) u
  end.

Definition printptr (x : Z) (u : uart) : res uart :=
  u ← consputc 48 u; u ← consputc 120 u; printptr_loop 16 x u.

Inductive arg := ANum (z : Z) | AStr (s : option (list Z)).

Definition va_num (args : list arg) : res (Z * list arg) :=
  match args with ANum z :: r => Ok (z, r) | _ => Panic "va_arg" end.
Definition va_str (args : list arg) : res (option (list Z) * list arg) :=
  match args with AStr s :: r => Ok (s, r) | _ => Panic "va_arg" end.

(** [for(; s[0]; s++) consputc(s[0])]. *)
Fixpoint putstr (s : list Z) (u : uart) : res uart :=
  match s with
  | [] => Ok u
  | c :: s' => if c =? 0 then Ok u else u ← consputc c u; putstr s' u
  end.

Fixpoint printf_loop (fuel : nat) (fmt : list Z) (i : Z) (args : list arg) (u : uart) : res uart :=
  match fuel with
  | O => NoFuel
  | S f =>
      let cx := aget fmt i in
      if cx =? 0 then Ok u
      else if negb (cx =? 37) then u ← consputc cx u; printf_loop f fmt (i + 1) args u
      else
        let i := i + 1 in
        let c0 := aget fmt i in
        let c1 := if negb (c0 =? 0) then aget fmt (i + 1) else 0 in
        let c2 := if negb (c1 =? 0) then aget fmt (i + 2) else 0 in
        let num conv base sign skip :=
          '(v, args) ← va_num args;
          u ← printint (conv v) base sign u;
          printf_loop f fmt (i + skip + 1) args u in
        if c0 =? 100 then num i32 10 true 0
        else if (c0 =? 108) && (c1 =? 100) then num i64 10 true 1
        else if (c0 =? 108) && (c1 =? 108) && (c2 =? 100) then num i64 10 true 2
        else if c0 =? 117 then num u32 10 false 0
        else if (c0 =? 108) && (c1 =? 117) then num i64 10 false 1
        else if (c0 =? 108) && (c1 =? 108) && (c2 =? 117) then num i64 10 false 2
        else if c0 =? 120 then num u32 16 false 0
        else if (c0 =? 108) && (c1 =? 120) then num i64 16 false 1
        else if (c0 =? 108) && (c1 =? 108) && (c2 =? 120) then num i64 16 false 2
        else if c0 =? 112 then
          '(v, args) ← va_num args;
          u ← printptr (u64 v) u; printf_loop f fmt (i + 1) args u
        else if c0 =? 99 then
          '(v, args) ← va_num args;
          u ← consputc (i32 v) u; printf_loop f fmt (i + 1) args u
        else if c0 =? 115 then
          '(s, args) ← va_str args;
          let s := match s with None => cstr "(null)" | Some s => s end in
          u ← putstr s u; printf_loop f fmt (i + 1) args u
        else if c0 =? 37 then u ← consputc 37 u; printf_loop f fmt (i + 1) args u
        else if c0 =? 0 then Ok u
        else u ← consputc 37 u; u ← consputc c0 u; printf_loop f fmt (i + 1) args u
  end.

Definition printf (fmt : string) (args : list arg) (u : uart) : res uart :=
  printf_loop (S (String.length fmt)) (cstr fmt) 0 args u.

(** [panic]: what it leaves on the device before it spins. *)
Definition panic (s : list Z) (u : uart) : res uart :=
  let u := with_panic 1 (panicked u) u in
  u ← printf "panic: " [] u;
  u ← printf (String.append "%s" nl) [AStr (Some s)] u;
  Ok (with_panic 1 1 u).

(** [procdump]; the test for an unknown state is dead code, [state] being an
    enumeration whose six values all have a name. *)
Definition state_name (s : procstate) : string :=
  match s with
  | UNUSED => "unused"
  | USED => "used"
  | SLEEPING => "sleep "
  | RUNNABLE => "runble"
  | RUNNING => "run   "
  | ZOMBIE => "zombie"
  end.

Fixpoint procdump_loop (ps : list proc) (u : uart) : res uart :=
  match ps with
  | [] => Ok u
  | p :: ps' =>
      if bool_decide (state p = UNUSED) then procdump_loop ps' u
      else
        u ← printf "%d %s %s" [ANum (pid p); AStr (Some (cstr (state_name (state p))));
                               AStr (Some (name p))] u;
        u ← printf nl [] u;
        procdump_loop ps' u
  end.

Definition procdump (ps : list proc) (u : uart) : res uart :=
  u ← printf nl [] u; procdump_loop ps u.

(** ** Facts *)

(** The value of a digit sequence, most significant digit first. *)
Definition value (base : Z) (ds : list Z) : Z := foldl (λ a d, a * base + d) 0 ds.

Lemma value_snoc base ds d : value base (ds ++ [d]) = value base ds * base + d.
Proof. unfold value. by rewrite foldl_app. Qed.

Lemma printint_digits_spec base fuel : 2 <= base → ∀ x buf,
  0 <= x < base ^ Z.of_nat fuel → (0 < fuel)%nat →
  ∃ ds, printint_digits fuel x base buf = Ok (buf ++ reverse (map (aget digits) ds)) ∧
    Forall (λ d, 0 <= d < base) ds ∧ value base ds = x ∧ ds ≠ [] ∧
    (ds = [0] ∨ base ^ (zlen ds - 1) <= x).
Proof.
  intros Hb. induction fuel as [|fuel IH]; intros x buf Hx Hf; [lia|]. simpl.
  pose proof (Z.mod_pos_bound x base ltac:(lia)) as Hm.
  destruct (Z.eqb_spec (x / base) 0) as [H0|H0]; simpl.
  - assert (x < base) by (apply Z.div_small_iff in H0; lia).
    rewrite Z.mod_small by lia. exists [x]. simpl. split_and!; try done.
    + apply Forall_singleton. lia.
    + destruct (decide (x = 0)) as [->|]; [by left|right]. unfold zlen. simpl. lia.
  - assert (0 <= x / base) by (apply Z.div_pos; lia).
    assert (x / base < base ^ Z.of_nat fuel) as Hlt.
    { apply Z.div_lt_upper_bound; [lia|]. rewrite <-Z.pow_succ_r by lia.
      replace (Z.succ (Z.of_nat fuel)) with (Z.of_nat (S fuel)) by lia. lia. }
    destruct fuel as [|fuel]; [simpl in Hlt; lia|].
    destruct (IH (x / base) (buf ++ [aget digits (x mod base)])) as (ds & Heq & Hds & Hv & Hne & Hl);
      [lia|lia|].
    exists (ds ++ [x mod base]). split_and!.
    + rewrite Heq, map_app, reverse_app, <-app_assoc. done.
    + apply Forall_app. split; [done|]. by apply Forall_singleton.
    + rewrite value_snoc, Hv. rewrite (Z.div_mod x base) at 3 by lia. lia.
    + by destruct ds.
    + right. destruct Hl as [->|Hl]; [exfalso; unfold value in Hv; simpl in Hv; lia|].
      assert (0 < zlen ds) by (unfold zlen; destruct ds; [done|simpl; lia]).
      assert (zlen (ds ++ [x mod base]) - 1 = Z.succ (zlen ds - 1)) as ->
        by (rewrite zlen_app; unfold zlen; simpl; lia).
      rewrite Z.pow_succ_r by lia.
      pose proof (Z.mul_div_le x base ltac:(lia)).
      etransitivity; [|eassumption]. apply Z.mul_le_mono_nonneg_l; lia.
Qed.

Lemma digits_shown ds base : 2 <= base <= 16 → Forall (λ d, 0 <= d < base) ds →
  concat (map shown (map (aget digits) ds)) = map (aget digits) ds.
Proof.
  intros Hb. induction 1 as [|d ds Hd _ IH]; simpl; [done|]. rewrite IH.
  assert (shown (aget digits d) = [aget digits d]) as ->; [|done].
  assert (d = 0 ∨ d = 1 ∨ d = 2 ∨ d = 3 ∨ d = 4 ∨ d = 5 ∨ d = 6 ∨ d = 7 ∨ d = 8 ∨ d = 9 ∨
    d = 10 ∨ d = 11 ∨ d = 12 ∨ d = 13 ∨ d = 14 ∨ d = 15) as Hc by lia.
  repeat destruct Hc as [->|Hc]; [reflexivity..|]. by subst.
Qed.

(** ** Property *)

(** [printint] of any 64-bit number in base 10 or 16 stays inside its
    20-byte buffer and prints the sign and the digits of exactly that number,
    without leading zeros. *)
Theorem printint_correct (xx base : Z) (sign : bool) (u : uart) :
  uart_on u → base = 10 ∨ base = 16 →
  -9223372036854775808 <= xx < 9223372036854775808 →
  (base = 16 → sign = false) →
  let neg := sign && (xx <? 0) in
  ∃ buf ds, printint_buf xx base sign = Ok buf ∧ zlen buf <= 20 ∧
    printint xx base sign u =
      Ok (with_out (out u ++ (if neg then [45] else []) ++ map (aget digits) ds) false u) ∧
    Forall (λ d, 0 <= d < base) ds ∧
    value base ds = (if neg then - xx else u64 xx) ∧
    (ds = [0] ∨ base ^ (zlen ds - 1) <= value base ds).
Proof.
  intros Hu Hb Hx Hs neg. unfold printint, printint_buf. fold neg.
  set (x := if neg then u64 (- xx) else u64 xx).
  assert (x = if neg then - xx else u64 xx) as Hxe.
  { subst x neg. destruct sign; simpl; [|done]. destruct (Z.ltb_spec xx 0); [|done].
    apply u64_small. lia. }
  assert (0 <= x < 18446744073709551616) as Hxr.
  { rewrite Hxe. subst neg. destruct sign; simpl; [|apply u64_range].
    destruct (Z.ltb_spec xx 0); [lia|apply u64_range]. }
  assert (neg = true → x <= 9223372036854775808) as Hxn.
  { intros Hn. rewrite Hxe, Hn. lia. }
  destruct (printint_digits_spec base 64 ltac:(lia) x []) as (ds & Heq & Hds & Hv & Hne & Hl).
  { split; [lia|]. destruct Hb as [-> | ->]; eapply Z.lt_le_trans; try apply Hxr; by vm_compute. }
  { lia. }
  rewrite Heq. simpl. eexists _, ds. split; [done|].
  assert (zlen ds <= (if neg then 19 else 20)) as Hlen.
  { destruct Hl as [->|Hl]; [unfold zlen; simpl; destruct neg; lia|].
    assert (neg = true → base = 10) as Hn10.
    { intros Hn. destruct Hb as [?|Hb]; [done|]. subst neg. by rewrite Hs in Hn. }
    assert (base ^ (zlen ds - 1) < base ^ (if neg then 19 else 20)) as Hpow.
    { eapply Z.le_lt_trans; [exact Hl|]. destruct neg.
      - rewrite Hn10 by done. specialize (Hxn eq_refl). lia.
      - destruct Hb as [-> | ->]; lia. }
    apply Z.pow_lt_mono_r_iff in Hpow; [|lia|destruct neg; lia]. destruct neg; lia. }
  assert (zlen (reverse (map (aget digits) ds)) = zlen ds) as Hrl.
  { unfold zlen. by rewrite length_reverse, length_map. }
  split_and!; [| |done|by rewrite Hv|by rewrite Hv].
  - destruct neg; rewrite ?zlen_app, Hrl; unfold zlen at 2 || idtac; simpl; lia.
  - destruct neg; rewrite ?reverse_app, reverse_involutive; simpl.
    + rewrite consputc_ok by done. simpl.
      rewrite consputs_ok by (auto with xv6 || by destruct ds).
      rewrite with_out_out, (digits_shown ds base) by (done || lia). simpl.
      by rewrite <-app_assoc.
    + rewrite consputs_ok by (done || by destruct ds).
      by rewrite (digits_shown ds base) by (done || lia).
Qed.

Definition uart0 : uart := mkUart 3 3 3 0 7 [] true [] 0 0 0.

Lemma printint_correct_witness :
  ∃ buf, printint_buf (-9223372036854775808) 10 true = Ok buf ∧ zlen buf <= 20.
Proof.
  destruct (printint_correct (-9223372036854775808) 10 true uart0)
    as (buf & ds & H & Hl & _); [done|by left|lia|done|].
  exists buf. split; [exact H|exact Hl].
Defined.

(** The text of a process listing. *)
Example procdump_text :
  out <$> (match procdump [set_name (cstr "init") (set_pid 1 (set_state SLEEPING
             (mkProc UNUSED ChNull 0 0 0 None 0 0 0 0 [] [] None [] 0)))] uart0 with
           | Ok u => Some u | _ => None end)
  = Some (cstr (String.append nl (String.append "1 sleep  init" nl))).
Proof. by vm_compute. Qed.
