(* ===== verification/PrintLock.v ===== *)
(** * The lock of printf and the panic flags

    Models how calls of [printf] and [panic] on several CPUs share the console
    in [kernel/printf.c]: the flags [panicking] and [panicked], the lock [pr]
    that is taken only while no CPU panics, and the bytes as they reach the
    device.  What a call prints is what [Printf.printf] sends, byte by byte
    through [uartputc_sync], whose test of [panicked] and whose store to the
    device are two steps.  The echo of the console and the output of user
    programs ([uartwrite]) do not take [pr] and come between at any time.
    [acquire] and [release] are one step each ([Spinlock] takes them apart);
    a trap inside [printf] that prints on the same CPU is not modelled. *)
From S2P Require Import Prelude Riscv Proc Uart Printf Spinlock.

(** The bytes a call sends to the device. *)
Definition message (fmt : string) (args : list arg) : option (list Z) :=
  match printf fmt args (mkUart 3 3 3 0 7 [] true [] 0 0 0) with
  | Ok u => Some (out u)
  | _ => None
  end.

(** Where [printf] returns to: its caller, or the two calls of [panic]. *)
Inductive prk := KRet | KPanic1 (s : list Z) | KPanic2.

(** A CPU: outside; in [printf] before the first test of [panicking], in
    [acquire], with [rest] of the message to send, in [uartputc_sync] after the
    test of [panicked] and waiting for the device, before the second test; in
    [panic] before the first store, before the last, in its loop. *)
Inductive prpc :=
| POut
| PIn (k : prk) (msg : list Z)
| PAcq (k : prk) (msg : list Z)
| PPut (k : prk) (msg rest : list Z)
| PSend (k : prk) (msg : list Z) (c : Z) (rest : list Z)
| PRel (k : prk) (msg : list Z)
| PPanic (s : list Z)
| PFreeze
| PSpin
| PFault (msg : string).

Record prs := mkPr { g_panicking : Z; g_panicked : Z; pr_lock : spinlock; sent : list (bool * Z) }.

Definition printfinit : spinlock := initlock.

(** [acquire] and [release] of [pr.lock]; [None] while it has to spin. *)
Definition pr_acquire (me : nat) (lk : spinlock) : option (res spinlock) :=
  if holding lk me then Some (Panic "acquire")
  else if negb (locked lk =? 0) then None else Some (Ok (mkLk 1 (Some me))).
Definition pr_release (me : nat) (lk : spinlock) : res spinlock :=
  if negb (holding lk me) then Panic "release" else Ok (mkLk 0 None).

Definition set_pr_lock (lk : spinlock) (g : prs) : prs :=
  mkPr (g_panicking g) (g_panicked g) lk (sent g).
(** One byte goes out; [who] tells [printf] from the other writers. *)
Definition putb (who : bool) (c : Z) (g : prs) : prs :=
  mkPr (g_panicking g) (g_panicked g) (pr_lock g) (sent g ++ [(who, c)]).

Definition pr_return (k : prk) : prpc :=
  match k with
  | KRet => POut
  | KPanic1 s => PIn KPanic2 (default [] (message (String.append "%s" nl) [AStr (Some s)]))
  | KPanic2 => PFreeze
  end.

(** The next step of a CPU. *)
Definition pr_act (me : nat) (pc : prpc) (g : prs) : prpc * prs :=
  match pc with
  | POut => (POut, g)
  | PIn k msg => if g_panicking g =? 0 then (PAcq k msg, g) else (PPut k msg msg, g)
  | PAcq k msg => match pr_acquire me (pr_lock g) with
                  | None => (pc, g)
                  | Some (Ok lk) => (PPut k msg msg, set_pr_lock lk g)
                  | Some (Panic e) => (PFault e, g)
                  | Some NoFuel => (pc, g)
                  end
  | PPut k msg [] => (PRel k msg, g)
  | PPut k msg (c :: rest) =>
      if negb (g_panicked g =? 0) then (pc, g) else (PSend k msg c rest, g)
  | PSend k msg c rest => (PPut k msg rest, putb true c g)
  | PRel k msg =>
      if g_panicking g =? 0 then
        match pr_release me (pr_lock g) with
        | Ok lk => (pr_return k, set_pr_lock lk g)
        | Panic e => (PFault e, g)
        | NoFuel => (pc, g)
        end
      else (pr_return k, g)
  | PPanic s => (PIn (KPanic1 s) (default [] (message "panic: " [])),
                 mkPr 1 (g_panicked g) (pr_lock g) (sent g))
  | PFreeze => (PSpin, mkPr (g_panicking g) 1 (pr_lock g) (sent g))
  | PSpin => (PSpin, g)
  | PFault e => (PFault e, g)
  end.

(** The call that a step ends. *)
Definition ended (me : nat) (pc : prpc) : list (nat * list Z) :=
  match pc with PRel _ msg => [(me, msg)] | _ => [] end.

(** The calls that have ended, in order; the shared state; the CPUs. *)
Record prsys := mkPrs { p_tr : list (nat * list Z); p_g : prs; p_cs : list prpc }.

Inductive pr_step : prsys → prsys → Prop :=
| run_step x i pc pc' g' :
    p_cs x !! i = Some pc → pr_act i pc (p_g x) = (pc', g') →
    pr_step x (mkPrs (p_tr x ++ ended i pc) g' (<[i := pc']> (p_cs x)))
| run_printf x i fmt args m :
    p_cs x !! i = Some POut → message fmt args = Some m →
    pr_step x (mkPrs (p_tr x) (p_g x) (<[i := PIn KRet m]> (p_cs x)))
| run_panic x i s :
    p_cs x !! i = Some POut → pr_step x (mkPrs (p_tr x) (p_g x) (<[i := PPanic s]> (p_cs x)))
| run_other x c : pr_step x (mkPrs (p_tr x) (putb false c (p_g x)) (p_cs x)).

(** [n] CPUs after [printfinit]. *)
Definition pr_boot (n : nat) : prsys := mkPrs [] (mkPr 0 0 printfinit []) (replicate n POut).

(** What [printf] has sent. *)
Definition printed (g : prs) : list Z := (filter (λ p, p.1 = true) (sent g)).*2.

Lemma printed_put b c g : printed (putb b c g) = printed g ++ (if b then [c] else []).
Proof. unfold printed, putb. simpl. rewrite filter_app, fmap_app. by destruct b. Qed.

(** ** Invariant *)
Definition sending (pc : prpc) : bool := match pc with PPut _ _ _ | PSend _ _ _ _ | PRel _ _ => true | _ => false end.

(** What the sending CPU has sent of its message. *)
Definition sent_part (pc : prpc) (part : list Z) : Prop :=
  match pc with PPut _ m rest => m = part ++ rest | PSend _ m c rest => m = part ++ c :: rest | PRel _ m => m = part | _ => False end.

(** While no CPU panics: the owner of the lock is the one CPU that sends. *)
Definition turns (tr : list (nat * list Z)) (g : prs) (cs : list prpc) : Prop :=
  (∀ i pc, cs !! i = Some pc → sending pc = true → lcpu (pr_lock g) = Some i) ∧
  match lcpu (pr_lock g) with
  | None => printed g = concat tr.*2
  | Some i => ∃ pc part, cs !! i = Some pc ∧ sent_part pc part ∧ printed g = concat tr.*2 ++ part
  end.

Record pr_inv (tr : list (nat * list Z)) (g : prs) (cs : list prpc) : Prop := {
  pri_lk : match lcpu (pr_lock g) with None => locked (pr_lock g) = 0 | Some _ => locked (pr_lock g) = 1 end;
  pri_acq : ∀ i k m, cs !! i = Some (PAcq k m) → lcpu (pr_lock g) ≠ Some i;
  pri_fault : ∀ i e, cs !! i ≠ Some (PFault e);
  pri_turns : g_panicking g = 0 → turns tr g cs
}.

(** A CPU that does not own the lock moves between places where it does not send. *)
Lemma pr_inv_move tr g cs i pc pc' :
  pr_inv tr g cs → cs !! i = Some pc → sending pc = false → (∀ e, pc' ≠ PFault e) →
  (g_panicking g = 0 → sending pc' = false) → (g_panicking g ≠ 0 → ∀ k m, pc' ≠ PAcq k m) →
  pr_inv tr g (<[i := pc']> cs).
Proof.
  intros [HL HA HF HT] Hi Hs He Hs' Ha.
  assert (g_panicking g = 0 → lcpu (pr_lock g) ≠ Some i) as Hown.
  { intros Hp Hl. destruct (HT Hp) as [_ H]. rewrite Hl in H. destruct H as (q & part & Hq & Hp' & _).
    rewrite Hi in Hq. injection Hq as <-. by destruct pc. }
  split; [done| | |].
  - intros j k m [(-> & -> & _)|[_ Hj]]%list_lookup_insert_Some; [|by eapply HA].
    destruct (decide (g_panicking g = 0)) as [Hp|Hp]; [auto|]. by edestruct (Ha Hp k m).
  - intros j e [(-> & -> & _)|[_ Hj]]%list_lookup_insert_Some; [by eapply He|by eapply HF].
  - intros Hp. destruct (HT Hp) as [H1 H2]. split.
    + intros j q [(-> & -> & _)|[_ Hj]]%list_lookup_insert_Some Hq; [by rewrite Hs' in Hq|by eapply H1].
    + destruct (lcpu (pr_lock g)) as [j|] eqn:Hl; [|done]. destruct H2 as (q & part & Hq & H2).
      exists q, part. split; [|done]. rewrite list_lookup_insert_ne; [done|]. intros ->. by apply Hown.
Qed.

(** After [panicking] is set the message of a CPU may be cut and mixed. *)
Lemma pr_inv_panicking tr tr' g g' cs i pc' :
  pr_inv tr g cs → pr_lock g' = pr_lock g → g_panicking g' ≠ 0 →
  (∀ e, pc' ≠ PFault e) → (∀ k m, pc' ≠ PAcq k m) → pr_inv tr' g' (<[i := pc']> cs).
Proof.
  intros [HL HA HF HT] Hl Hp He Ha. split; rewrite ?Hl; [done| | |done].
  - intros j k m [(-> & -> & _)|[_ Hj]]%list_lookup_insert_Some; [by edestruct Ha|by eapply HA].
  - intros j e [(-> & -> & _)|[_ Hj]]%list_lookup_insert_Some; [by eapply He|by eapply HF].
Qed.

(** The owner of the lock goes on, with what it sends. *)
Lemma pr_inv_send tr g cs i pc pc' bs g' :
  pr_inv tr g cs → cs !! i = Some pc → sending pc = true →
  pr_lock g' = pr_lock g → g_panicking g' = g_panicking g → printed g' = printed g ++ bs →
  (∀ part, sent_part pc part → sent_part pc' (part ++ bs)) → sending pc' = true →
  pr_inv tr g' (<[i := pc']> cs).
Proof.
  intros [HL HA HF HT] Hi Hs Hl Hp Hb Hpart Hs'. split; rewrite ?Hl, ?Hp; [done| | |].
  - intros j k m [(-> & -> & _)|[_ Hj]]%list_lookup_insert_Some; [done|by eapply HA].
  - intros j e [(-> & -> & _)|[_ Hj]]%list_lookup_insert_Some; [done|by eapply HF].
  - intros Hp0. destruct (HT Hp0) as [H1 H2]. pose proof (H1 i pc Hi Hs) as Ho. unfold turns. rewrite Hl.
    split; [intros j q [(-> & -> & _)|[_ Hj]]%list_lookup_insert_Some Hq; [done|by eapply H1]|].
    rewrite Ho in *. destruct H2 as (q & part & Hq & Hsp & Hpr). rewrite Hi in Hq. injection Hq as <-.
    exists pc', (part ++ bs). rewrite Hb, Hpr, <-app_assoc. split_and!; [|by auto|done].
    apply list_lookup_insert_eq. by eapply lookup_lt_Some.
Qed.

(** [acquire] of a free lock. *)
Lemma pr_inv_acquire tr g cs i k m :
  pr_inv tr g cs → cs !! i = Some (PAcq k m) → lcpu (pr_lock g) = None →
  pr_inv tr (set_pr_lock (mkLk 1 (Some i)) g) (<[i := PPut k m m]> cs).
Proof.
  intros [HL HA HF HT] Hi Hl. pose proof (lookup_lt_Some _ _ _ Hi). split; simpl; [done| | |].
  - intros j k' m' [(-> & ? & _)|[Hne Hj]]%list_lookup_insert_Some; [done|congruence].
  - intros j e [(-> & ? & _)|[_ Hj]]%list_lookup_insert_Some; [done|by eapply HF].
  - intros Hp. destruct (HT Hp) as [H1 H2]. rewrite Hl in *. split; simpl.
    + intros j q [(-> & _ & _)|[_ Hj]]%list_lookup_insert_Some Hq; [done|].
      by specialize (H1 _ _ Hj Hq).
    + exists (PPut k m m), []. rewrite app_nil_r. split_and!; [|done|done]. by apply list_lookup_insert_eq.
Qed.

(** [release] at the end of a message. *)
Lemma pr_inv_release tr g cs i k m pc' :
  pr_inv tr g cs → cs !! i = Some (PRel k m) → lcpu (pr_lock g) = Some i → g_panicking g = 0 →
  sending pc' = false → (∀ e, pc' ≠ PFault e) →
  pr_inv (tr ++ [(i, m)]) (set_pr_lock (mkLk 0 None) g) (<[i := pc']> cs).
Proof.
  intros [HL HA HF HT] Hi Hl Hp Hs He. split; simpl; [done|done| |].
  - intros j e [(-> & -> & _)|[_ Hj]]%list_lookup_insert_Some; [by eapply He|by eapply HF].
  - intros _. destruct (HT Hp) as [H1 H2]. rewrite Hl in *. split; simpl.
    + intros j q [(-> & -> & _)|[Hne Hj]]%list_lookup_insert_Some Hq; [congruence|].
      specialize (H1 _ _ Hj Hq). congruence.
    + destruct H2 as (q & part & Hq & Hsp & Hpr). rewrite Hi in Hq. injection Hq as <-. simpl in Hsp. subst part.
      unfold printed in *. simpl. rewrite Hpr, fmap_app, concat_app. simpl. by rewrite app_nil_r.
Qed.

Lemma pr_return_quiet k : sending (pr_return k) = false ∧ (∀ e, pr_return k ≠ PFault e) ∧
  ∀ k' m, pr_return k ≠ PAcq k' m.
Proof. by destruct k. Qed.

Lemma pr_step_inv tr g cs i pc pc' g' :
  pr_inv tr g cs → cs !! i = Some pc → pr_act i pc g = (pc', g') →
  pr_inv (tr ++ ended i pc) g' (<[i := pc']> cs).
Proof.
  intros HI Hi Ha.
  destruct pc as [|k m|k m|k m rest|k m c rest|k m|s| | |e]; simpl ended; rewrite ?app_nil_r; cbn [pr_act] in Ha.
  - injection Ha as <- <-. by apply (pr_inv_move _ _ _ _ POut).
  - destruct (Z.eqb_spec (g_panicking g) 0) as [Hp|Hp]; injection Ha as <- <-;
      by apply (pr_inv_move _ _ _ _ (PIn k m)).
  - pose proof (pri_acq _ _ _ HI i k m Hi) as Hn. pose proof (pri_lk _ _ _ HI) as HL.
    unfold pr_acquire, holding in Ha. rewrite bool_decide_eq_false_2, andb_false_r in Ha by done.
    destruct (lcpu (pr_lock g)) as [j|] eqn:Hl; rewrite HL in Ha; simpl in Ha; injection Ha as <- <-.
    + by rewrite list_insert_id.
    + by apply pr_inv_acquire.
  - destruct rest as [|c rest]; cbn [pr_act] in Ha.
    + injection Ha as <- <-. apply (pr_inv_send _ g _ _ (PPut k m [])  _ []); try done.
      by rewrite app_nil_r.
    + destruct (negb _); injection Ha as <- <-; [by rewrite list_insert_id|].
      apply (pr_inv_send _ g _ _ (PPut k m (c :: rest)) _ []); try done; [by rewrite app_nil_r|].
      intros part ->. simpl. by rewrite app_nil_r.
  - injection Ha as <- <-. eapply (pr_inv_send _ _ _ _ (PSend k m c rest) _ [c]); try done; [by rewrite printed_put|].
    intros part ->. simpl. by rewrite <-app_assoc.
  - destruct (pr_return_quiet k) as (Q1 & Q2 & Q3). destruct (Z.eqb_spec (g_panicking g) 0) as [Hp|Hp].
    + destruct (pri_turns _ _ _ HI Hp) as [H1 _]. pose proof (H1 i _ Hi eq_refl) as Hl.
      pose proof (pri_lk _ _ _ HI) as HL. rewrite Hl in HL.
      unfold pr_release, holding in Ha. rewrite HL, bool_decide_eq_true_2 in Ha by done. simpl in Ha.
      injection Ha as <- <-. by eapply pr_inv_release.
    + injection Ha as <- <-. by eapply pr_inv_panicking.
  - injection Ha as <- <-. by eapply pr_inv_panicking.
  - injection Ha as <- <-. assert (pr_inv tr g (<[i := PSpin]> cs)) as [HL HA HF HT] by by apply (pr_inv_move _ _ _ _ PFreeze).
    by split.
  - injection Ha as <- <-. by rewrite list_insert_id.
  - injection Ha as <- <-. by rewrite list_insert_id.
Qed.

Lemma pr_sys_inv x y : pr_inv (p_tr x) (p_g x) (p_cs x) → pr_step x y → pr_inv (p_tr y) (p_g y) (p_cs y).
Proof.
  intros IH Hst. destruct Hst as [x i pc pc' g' Hi Ha|x i fmt args m Hi Hm|x i s Hi|x c]; simpl.
  - by eapply pr_step_inv.
  - by apply (pr_inv_move _ _ _ _ POut).
  - by apply (pr_inv_move _ _ _ _ POut).
  - destruct IH as [HL HA HF HT]. split; try done. intros H0. destruct (HT H0) as [H1 H2].
    split; [done|]. rewrite printed_put, app_nil_r. done.
Qed.

Lemma pr_boot_inv n : pr_inv [] (mkPr 0 0 printfinit []) (replicate n POut).
Proof.
  split; simpl; [done| | |].
  - intros i k m [? _]%lookup_replicate. done.
  - intros i e [? _]%lookup_replicate. done.
  - intros _. split; [|done]. intros i pc [-> _]%lookup_replicate. done.
Qed.

Lemma pr_run_inv n x : rtc pr_step (pr_boot n) x → pr_inv (p_tr x) (p_g x) (p_cs x).
Proof.
  intros Hr. refine (rtc_invariant _ (λ x, pr_inv (p_tr x) (p_g x) (p_cs x)) _ _ _ Hr _).
  - intros a b. apply pr_sys_inv.
  - apply pr_boot_inv.
Qed.

(** ** After a panic *)

(** CPUs that have passed the test of [panicked] and not yet sent their byte. *)
Definition past_test (pc : prpc) : nat := match pc with PSend _ _ _ _ => 1 | _ => 0 end.
Definition pending (cs : list prpc) : nat := sum_list_with past_test cs.

Lemma pending_insert (cs : list prpc) : ∀ (i : nat) pc pc', cs !! i = Some pc →
  (pending (<[i := pc']> cs) + past_test pc = pending cs + past_test pc')%nat.
Proof.
  unfold pending. induction cs as [|q cs IH]; intros [|i] pc pc' Hi; simplify_eq/=; [lia|].
  specialize (IH _ _ pc' Hi). lia.
Qed.

(** Once [panicked] is set it stays, and only pending bytes go out. *)
Lemma frozen_act i pc g pc' g' : pr_act i pc g = (pc', g') → g_panicked g ≠ 0 →
  g_panicked g' ≠ 0 ∧
  (length (printed g') + past_test pc' <= length (printed g) + past_test pc)%nat.
Proof.
  intros Ha Hp.
  assert (∀ q h, sent h = sent g → g_panicked h ≠ 0 → past_test q = 0%nat → (q, h) = (pc', g') →
    g_panicked g' ≠ 0 ∧ (length (printed g') + past_test pc' <= length (printed g) + past_test pc)%nat) as Hq.
  { intros q h Hs Hh H0 [= <- <-]. split; [done|]. unfold printed. rewrite Hs, H0. lia. }
  destruct pc as [|k m|k m|k m [|c rest]|k m c rest|k m|s| | |e]; cbn [pr_act] in Ha.
  6: { injection Ha as <- <-. split; [done|]. rewrite printed_put, length_app. simpl. lia. }
  4: by apply (Hq (PRel k m) g).
  4: { rewrite (proj2 (Z.eqb_neq _ _)) in Ha by done. by apply (Hq (PPut k m (c :: rest)) g). }
  all: repeat case_match; (eapply Hq; [..|exact Ha]); try done; by destruct k.
Qed.

Lemma frozen_step x y : pr_step x y → g_panicked (p_g x) ≠ 0 →
  g_panicked (p_g y) ≠ 0 ∧
  (length (printed (p_g y)) + pending (p_cs y) <= length (printed (p_g x)) + pending (p_cs x))%nat.
Proof.
  intros Hst Hp. destruct Hst as [x i pc pc' g' Hi Ha|x i fmt args m Hi Hm|x i s Hi|x c]; simpl.
  - pose proof (pending_insert _ _ _ pc' Hi). destruct (frozen_act _ _ _ _ _ Ha Hp). split; [done|lia].
  - pose proof (pending_insert _ _ _ (PIn KRet m) Hi). simpl in *. split; [done|lia].
  - pose proof (pending_insert _ _ _ (PPanic s) Hi). simpl in *. split; [done|lia].
  - by rewrite printed_put, app_nil_r.
Qed.

Lemma frozen_run x y : rtc pr_step x y → g_panicked (p_g x) ≠ 0 →
  (length (printed (p_g y)) + pending (p_cs y) <= length (printed (p_g x)) + pending (p_cs x))%nat.
Proof.
  induction 1 as [|x y z Hxy _ IH]; intros Hp; [done|].
  destruct (frozen_step _ _ Hxy Hp) as [Hp' ?]. specialize (IH Hp'). lia.
Qed.

(** C30: calls of [printf] on any number of CPUs, with panics and other output
    at any time.  Neither [acquire] nor [release] of the print lock panics.
    While no CPU panics the bytes that [printf] sent are the messages of the
    calls that ended, whole and in the order they ended, and then the part that
    the owner of the lock has sent of its own; with the lock free there is no
    such part.  Once [panicked] is set no CPU sends more than the one byte
    for which it had already passed the test in [uartputc_sync]. *)
Theorem printf_whole_messages n x : rtc pr_step (pr_boot n) x →
  (∀ i e, p_cs x !! i ≠ Some (PFault e)) ∧
  (g_panicking (p_g x) = 0 → ∃ part, printed (p_g x) = concat (p_tr x).*2 ++ part ∧
     (locked (pr_lock (p_g x)) = 0 → part = []) ∧
     ∀ i k m rest, p_cs x !! i = Some (PPut k m rest) →
       lcpu (pr_lock (p_g x)) = Some i ∧ m = part ++ rest) ∧
  (g_panicked (p_g x) ≠ 0 → ∀ y, rtc pr_step x y →
     (length (printed (p_g y)) <= length (printed (p_g x)) + pending (p_cs x))%nat).
Proof.
  intros HI%pr_run_inv. split; [apply HI|]. split.
  - intros Hp. destruct (pri_turns _ _ _ HI Hp) as [H1 H2]. pose proof (pri_lk _ _ _ HI) as HL.
    destruct (lcpu (pr_lock (p_g x))) as [j|] eqn:Hl.
    + destruct H2 as (q & part & Hq & Hsp & Hpr). exists part. split_and!; [done|lia|].
      intros i k m rest Hi. pose proof (H1 _ _ Hi eq_refl) as [= ->]. split; [done|].
      rewrite Hi in Hq. by injection Hq as <-.
    + exists []. rewrite app_nil_r. split_and!; [done|done|]. intros i k m rest Hi.
      by specialize (H1 _ _ Hi eq_refl).
  - intros Hp y Hr. apply (frozen_run _ _ Hr) in Hp. lia.
Qed.

(** *** Two CPUs *)
Lemma message_hi : message "hi" [] = Some [104; 105].
Proof. by vm_compute. Qed.

Lemma printf_whole_messages_witness :
  ∃ cs, rtc pr_step (pr_boot 2) (mkPrs [] (mkPr 0 0 (mkLk 1 (Some 0%nat)) [(true, 104)]) cs) ∧
    ∀ i e, cs !! i ≠ Some (PFault e).
Proof.
  eexists. assert (rtc pr_step (pr_boot 2) (mkPrs [] (mkPr 0 0 (mkLk 1 (Some 0%nat)) [(true, 104)])
    [PPut KRet [104; 105] [105]; PAcq KRet [104; 105]])) as Hr.
  { eapply rtc_l; [apply (run_printf _ 0 "hi" [] [104; 105]); [done|apply message_hi]|].
    eapply rtc_l; [apply (run_printf _ 1 "hi" [] [104; 105]); [done|apply message_hi]|].
    eapply rtc_l; [eapply (run_step _ 0); [done|reflexivity]|].
    eapply rtc_l; [eapply (run_step _ 1); [done|reflexivity]|].
    eapply rtc_l; [eapply (run_step _ 0); [done|reflexivity]|].
    eapply rtc_l; [eapply (run_step _ 1); [done|reflexivity]|].
    eapply rtc_l; [eapply (run_step _ 0); [done|reflexivity]|].
    eapply rtc_l; [eapply (run_step _ 0); [done|reflexivity]|]. apply rtc_refl. }
  split; [exact Hr|]. exact (proj1 (printf_whole_messages 2 _ Hr)).
Defined.
