(* ===== verification/Console.v ===== *)
(** * The console: line discipline, reads and writes

    Models [kernel/console.c], the receive loop of [uartintr] of
    [kernel/uart.c], and [either_copyout]/[either_copyin] of [kernel/proc.c].
    The circular input buffer has three free-running [uint] indices: [c_r]
    (next byte to read), [c_w] (end of the committed input) and [c_e] (end of
    the line being edited).  [consoleintr] is one atomic update (it runs under
    [cons.lock] and never sleeps); [consoleread] and [consolewrite] are step
    functions whose program counters carry the C locals, as in [Pipe].
    [char] is unsigned on RISC-V. *)
From S2P Require Import Prelude Riscv Proc UserMem Mem Uart Printf.

Definition INPUT_BUF_SIZE : Z := 128.

(** [C(x)]: control-x. *)
Definition C (x : Z) : Z := x - 64.

Inductive crpc :=
| CEnter
| CLoop (dst n : Z)
| CWait (dst n : Z)
| CAsleep (dst n : Z)
| CRet (r : Z).

Inductive cwpc :=
| CWLoop (i : Z)
| CWUart (i nn : Z) (bs : list Z) (pc : uwpc)
| CWRet (r : Z).

Section console_ops.
Context {M : Type} `{UserMem M}.

(** [cons], the UART, and what the calls reach: kernel memory, the user memory
    of the calling process and the process table. *)
Record cst := mkC {
  cbuf : list Z; c_r : Z; c_w : Z; c_e : Z;
  cuart : uart; ckm : mem; cum : M; ctab : list proc
}.

Definition set_c_r (v : Z) (s : cst) : cst :=
  mkC (cbuf s) v (c_w s) (c_e s) (cuart s) (ckm s) (cum s) (ctab s).
Definition set_c_w (v : Z) (s : cst) : cst :=
  mkC (cbuf s) (c_r s) v (c_e s) (cuart s) (ckm s) (cum s) (ctab s).
Definition set_c_e (v : Z) (s : cst) : cst :=
  mkC (cbuf s) (c_r s) (c_w s) v (cuart s) (ckm s) (cum s) (ctab s).
Definition set_cbuf (v : list Z) (s : cst) : cst :=
  mkC v (c_r s) (c_w s) (c_e s) (cuart s) (ckm s) (cum s) (ctab s).
Definition set_cuart (v : uart) (s : cst) : cst :=
  mkC (cbuf s) (c_r s) (c_w s) (c_e s) v (ckm s) (cum s) (ctab s).
Definition set_cmem (k : mem) (m : M) (s : cst) : cst :=
  mkC (cbuf s) (c_r s) (c_w s) (c_e s) (cuart s) k m (ctab s).
Definition set_ctab (v : list proc) (s : cst) : cst :=
  mkC (cbuf s) (c_r s) (c_w s) (c_e s) (cuart s) (ckm s) (cum s) v.

(** [either_copyout] of the bytes [bs] and [either_copyin] of [len] bytes. *)
Fixpoint st_bytes (k : mem) (a : Z) (bs : list Z) : mem :=
  match bs with [] => k | b :: bs' => st_bytes (st8 k a b) (a + 1) bs' end.
Fixpoint ld_bytes (k : mem) (a : Z) (n : nat) : list Z :=
  match n with O => [] | S n' => ld8 k a :: ld_bytes k (a + 1) n' end.

Definition either_copyout (user_dst dst : Z) (bs : list Z) (k : mem) (m : M) : mem * M * Z :=
  if negb (user_dst =? 0) then let '(m, r) := copyout m dst bs in (k, m, r)
  else (st_bytes k dst bs, m, 0).

Definition either_copyin (user_src src len : Z) (k : mem) (m : M) : M * Z * list Z :=
  if negb (user_src =? 0) then copyin m src len
  else (m, 0, ld_bytes k src (Z.to_nat len)).

(** ** consoleintr *)

(** The loop of control-U. *)
Fixpoint kill_line (fuel : nat) (s : cst) : res cst :=
  if negb (c_e s =? c_w s) &&
     negb (aget (cbuf s) (u32 (c_e s - 1) mod INPUT_BUF_SIZE) =? 10) then
    match fuel with
    | O => NoFuel
    | S f =>
        let s := set_c_e (u32 (c_e s - 1)) s in
        u ← consputc BACKSPACE (cuart s);
        kill_line f (set_cuart u s)
    end
  else Ok s.

Definition consoleintr (V : Z) (me : option nat) (c : Z) (s : cst) : res cst :=
  if c =? C 80 then u ← procdump (ctab s) (cuart s); Ok (set_cuart u s)
  else if c =? C 85 then kill_line (Z.to_nat INPUT_BUF_SIZE) s
  else if (c =? C 72) || (c =? 127) then
    if negb (c_e s =? c_w s) then
      let s := set_c_e (u32 (c_e s - 1)) s in
      u ← consputc BACKSPACE (cuart s); Ok (set_cuart u s)
    else Ok s
  else if negb (c =? 0) && (u32 (c_e s - c_r s) <? INPUT_BUF_SIZE) then
    let c := if c =? 13 then 10 else c in
    u ← consputc c (cuart s);
    let s := set_cuart u s in
    let s := set_cbuf (<[Z.to_nat (c_e s mod INPUT_BUF_SIZE) := u8 c]> (cbuf s)) s in
    let s := set_c_e (u32 (c_e s + 1)) s in
    if (c =? 10) || (c =? C 68) || (u32 (c_e s - c_r s) =? INPUT_BUF_SIZE) then
      let s := set_c_w (c_e s) s in
      Ok (set_ctab (wakeup V me ChCons (ctab s)) s)
    else Ok s
  else Ok s.

(** The receive loop of [uartintr]. *)
Fixpoint uartintr_rx (V : Z) (me : option nat) (fuel : nat) (s : cst) : res cst :=
  match fuel with
  | O => NoFuel
  | S f =>
      let '(c, u) := uartgetc (cuart s) in
      let s := set_cuart u s in
      if c =? -1 then Ok s else s ← consoleintr V me c s; uartintr_rx V me f s
  end.

Definition uartintr (V : Z) (me : option nat) (fuel : nat) (s : cst) : res cst :=
  let '(u, ps) := uartintr_tx V me (cuart s, ctab s) in
  uartintr_rx V me fuel (set_ctab ps (set_cuart u s)).

(** ** consoleread *)
Definition consoleread (me : nat) (user_dst dst0 n0 : Z) (pc : crpc) (s : cst) : crpc * cst :=
  let target := u32 n0 in
  match pc with
  | CEnter => (CLoop dst0 n0, s)
  | CLoop dst n => if 0 <? n then (CWait dst n, s) else (CRet (i32 (target - n)), s)
  | CWait dst n =>
      if c_r s =? c_w s then
        if negb (killed me (ctab s) =? 0) then (CRet (-1), s)
        else (CAsleep dst n, set_ctab (sleep_begin me ChCons (ctab s)) s)
      else
        let c := aget (cbuf s) (c_r s mod INPUT_BUF_SIZE) in
        let s := set_c_r (u32 (c_r s + 1)) s in
        if c =? C 68 then
          let s := if u32 n <? target then set_c_r (u32 (c_r s - 1)) s else s in
          (CRet (i32 (target - n)), s)
        else
          let '(k, m, r) := either_copyout user_dst dst [c] (ckm s) (cum s) in
          let s := set_cmem k m s in
          if r =? -1 then (CRet (i32 (target - n)), s)
          else
            let dst := u64 (dst + 1) in
            let n := n - 1 in
            if c =? 10 then (CRet (i32 (target - n)), s) else (CLoop dst n, s)
  | CAsleep dst n => (CWait dst n, set_ctab (sleep_end me (ctab s)) s)
  | CRet r => (CRet r, s)
  end.

(** ** consolewrite: batches of at most [sizeof(buf)] = 32 bytes *)
Definition consolewrite (me : nat) (user_src src n : Z) (pc : cwpc) (s : cst) : cwpc * cst :=
  match pc with
  | CWLoop i =>
      if i <? n then
        let nn := 32 in
        let nn := if n - i <? nn then n - i else nn in
        let '(m, r, bs) := either_copyin user_src (u64 (src + i)) nn (ckm s) (cum s) in
        let s := set_cmem (ckm s) m s in
        if r =? -1 then (CWRet i, s) else (CWUart i nn bs (UWLoop 0), s)
      else (CWRet i, s)
  | CWUart i nn bs pc' =>
      let '(pc', (u, ps)) := uartwrite me bs nn pc' (cuart s, ctab s) in
      let s := set_ctab ps (set_cuart u s) in
      match pc' with UWRet => (CWLoop (i + nn), s) | _ => (CWUart i nn bs pc', s) end
  | CWRet r => (CWRet r, s)
  end.

(** [consoleinit]: the lock, the UART; the two entries of [devsw] are the
    functions above. *)
Definition consoleinit (s : cst) : cst := set_cuart (uartinit (cuart s)) s.
End console_ops.
Arguments cst M : clear implicits.
