(* ===== verification/ConsoleSpec.v ===== *)
(** * The console as a line editor

    The abstract console is a pair of byte lists: the committed input [q] that
    [consoleread] may take, and the line [ed] being edited.  [crep] relates
    the circular buffer with its wrapping indices to the pair; [line_intr]
    and [read_line] are the specifications of [consoleintr] and [consoleread],
    which refine them. *)
From S2P Require Import Prelude Riscv Proc UserMem PipeProg Mem Uart Printf Console.

(** ** Specification *)

(** A typed character: the new pair, and what is echoed. *)
Definition line_intr (c : Z) (q ed : list Z) : list Z * list Z * list Z :=
  if c =? C 85 then (q, [], concat (replicate (length ed) [8; 32; 8]))
  else if (c =? C 72) || (c =? 127) then
    if bool_decide (ed = []) then (q, ed, [])
    else (q, take (length ed - 1) ed, [8; 32; 8])
  else if (c =? 0) || (128 <=? zlen q + zlen ed) then (q, ed, [])
  else
    let c := if c =? 13 then 10 else c in
    if (c =? 10) || (c =? C 68) || (zlen q + zlen ed + 1 =? 128)
    then (q ++ ed ++ [c], [], [c])
    else (q, ed ++ [c], [c]).

(** A read of [n] bytes: what it delivers and leaves when it returns, or the
    bytes it has delivered when it has to wait for more input. *)
Inductive rline := Done (l rest : list Z) | Wait (l : list Z).

Definition rline_cons (c : Z) (r : rline) : rline :=
  match r with Done l rest => Done (c :: l) rest | Wait l => Wait (c :: l) end.

Fixpoint read_line (first : bool) (n : nat) (q : list Z) : rline :=
  match n with
  | O => Done [] q
  | S n' =>
      match q with
      | [] => Wait []
      | c :: q' =>
          if c =? C 68 then Done [] (if first then q' else q)
          else if c =? 10 then Done [c] q'
          else rline_cons c (read_line false n' q')
      end
  end.

(** ** The circular buffer *)
Fixpoint qread (buf : list Z) (a : Z) (n : nat) : list Z :=
  match n with O => [] | S n' => aget buf (a mod 128) :: qread buf (a + 1) n' end.

Lemma qread_app buf n k : ∀ a,
  qread buf a (n + k) = qread buf a n ++ qread buf (a + Z.of_nat n) k.
Proof.
  induction n as [|n IH]; intros a; simpl; [by rewrite Z.add_0_r|].
  rewrite IH. do 3 f_equal. lia.
Qed.

Lemma qread_mod buf n : ∀ a b, a mod 128 = b mod 128 → qread buf a n = qread buf b n.
Proof.
  induction n as [|n IH]; intros a b Hab; simpl; [done|]. rewrite Hab. f_equal.
  apply IH. mlia.
Qed.

Lemma u32_mod128 x : u32 x mod 128 = x mod 128.
Proof. unfold u32. mlia. Qed.

Lemma qread_u32 buf a n : qread buf (u32 a) n = qread buf a n.
Proof. apply qread_mod, u32_mod128. Qed.

(** Storing at position [p] changes no position that is less than 128 before it. *)
Lemma qread_store buf p c n : ∀ a, length buf = 128%nat →
  a + Z.of_nat n <= p → p < a + 128 →
  qread (<[Z.to_nat (p mod 128) := c]> buf) a n = qread buf a n.
Proof.
  induction n as [|n IH]; intros a Hl H1 H2; simpl; [done|]. rewrite IH by lia. f_equal.
  unfold aget. rewrite list_lookup_insert_ne; [done|]. intros Heq. mlia.
Qed.

Lemma qread_stored buf p c : length buf = 128%nat →
  qread (<[Z.to_nat (p mod 128) := c]> buf) p 1 = [c].
Proof.
  intros Hl. simpl. unfold aget. rewrite list_lookup_insert_eq; [done|]. mlia.
Qed.

(** ** Printing only appends to the output *)
Definition uext (u u' : uart) : Prop := ∃ o i, u' = with_out (out u ++ o) i u.

Lemma uext_refl u : uext u u.
Proof. exists [], (idle u). rewrite app_nil_r. by destruct u. Qed.

Lemma uext_trans u v w : uext u v → uext v w → uext u w.
Proof.
  intros (o & i & ->) (o' & i' & ->). exists (o ++ o'), i'. simpl.
  by rewrite with_out_out, app_assoc.
Qed.

Lemma uext_on u u' : uext u u' → uart_on u → uart_on u'.
Proof. intros (o & i & ->). auto with xv6. Qed.

Definition prints (f : uart → res uart) : Prop :=
  ∀ u, uart_on u → ∃ u', f u = Ok u' ∧ uext u u'.

Lemma prints_ret : prints Ok.
Proof. intros u _. exists u. split; [done|apply uext_refl]. Qed.

Lemma prints_bind f g : prints f → prints g → prints (λ u, u ← f u; g u).
Proof.
  intros Hf Hg u Hu. destruct (Hf u Hu) as (u1 & Heq & H1).
  destruct (Hg u1 (uext_on _ _ H1 Hu)) as (u2 & Heq2 & H2).
  exists u2. rewrite Heq. split; [done|]. by eapply uext_trans.
Qed.

Lemma prints_consputc c : prints (consputc c).
Proof. intros u Hu. rewrite consputc_ok by done. eexists. split; [done|]. by exists (shown c), false. Qed.

Lemma prints_consputs cs : prints (consputs cs).
Proof. induction cs; [exact prints_ret|]. simpl. by apply prints_bind; [apply prints_consputc|]. Qed.

Lemma prints_putstr l : prints (putstr l).
Proof.
  induction l as [|c l IH]; [exact prints_ret|]. intros u Hu. simpl. destruct (c =? 0).
  - by apply prints_ret.
  - revert u Hu. apply (prints_bind (consputc c)); [apply prints_consputc|done].
Qed.

Lemma prints_printint_d z : prints (printint (i32 z) 10 true).
Proof.
  intros u Hu. pose proof (u32_range z) as Hr.
  assert (-9223372036854775808 <= i32 z < 9223372036854775808) by (unfold i32; zcase; lia).
  unfold printint, printint_buf.
  set (x := if true && (i32 z <? 0) then u64 (- i32 z) else u64 (i32 z)).
  destruct (printint_digits_spec 10 64 ltac:(lia) x []) as (ds & Heq & _).
  { split; [subst x; destruct (_ && _); apply u64_range|].
    eapply (Z.lt_le_trans _ 18446744073709551616); [|by vm_compute].
    subst x; destruct (_ && _); apply u64_range. }
  { lia. }
  rewrite Heq. simpl. by apply prints_consputs.
Qed.

(** One turn of the loop of [printf] on the directives [procdump] uses. *)
Lemma printf_end f fmt i args u : aget fmt i = 0 → printf_loop (S f) fmt i args u = Ok u.
Proof. intros Hc. cbn [printf_loop]. by rewrite Hc. Qed.

Lemma prints_char f fmt i args c : aget fmt i = c → c ≠ 0 → c ≠ 37 →
  prints (printf_loop f fmt (i + 1) args) → prints (printf_loop (S f) fmt i args).
Proof.
  intros Hc H0 H37 Hp u Hu. cbn [printf_loop]. rewrite Hc.
  destruct (Z.eqb_spec c 0); [done|]. destruct (Z.eqb_spec c 37); [done|]. cbn [negb].
  by apply (prints_bind (consputc c)); [apply prints_consputc| |].
Qed.

Lemma prints_d f fmt i args z : aget fmt i = 37 → aget fmt (i + 1) = 100 →
  prints (printf_loop f fmt (i + 1 + 0 + 1) args) →
  prints (printf_loop (S f) fmt i (ANum z :: args)).
Proof.
  intros Hc Hd Hp u Hu. cbn [printf_loop]. rewrite Hc, Hd.
  by apply (prints_bind (printint (i32 z) 10 true)); [apply prints_printint_d| |].
Qed.

Lemma prints_s f fmt i args l : aget fmt i = 37 → aget fmt (i + 1) = 115 →
  prints (printf_loop f fmt (i + 1 + 1) args) →
  prints (printf_loop (S f) fmt i (AStr (Some l) :: args)).
Proof.
  intros Hc Hd Hp u Hu. cbn [printf_loop]. rewrite Hc, Hd.
  by apply (prints_bind (putstr l)); [apply prints_putstr| |].
Qed.

Lemma prints_end f fmt i args : aget fmt i = 0 → prints (printf_loop (S f) fmt i args).
Proof. intros Hc u Hu. rewrite printf_end by done. by apply prints_ret. Qed.

Lemma prints_proc_line p : prints (printf "%d %s %s"
  [ANum (pid p); AStr (Some (cstr (state_name (state p)))); AStr (Some (name p))]).
Proof.
  unfold printf.
  apply prints_d; [reflexivity..|].
  apply (prints_char _ _ _ _ 32); [reflexivity|lia|lia|].
  apply prints_s; [reflexivity..|].
  apply (prints_char _ _ _ _ 32); [reflexivity|lia|lia|].
  apply prints_s; [reflexivity..|]. by apply prints_end.
Qed.

Lemma prints_nl : prints (printf nl []).
Proof.
  apply (prints_char _ _ _ _ 10); [reflexivity|lia|lia|]. by apply prints_end.
Qed.

Lemma prints_procdump ps : prints (procdump ps).
Proof.
  apply prints_bind; [apply prints_nl|]. induction ps as [|p ps IH]; [exact prints_ret|].
  intros u Hu. simpl. case_bool_decide; [by apply IH|]. revert u Hu.
  apply prints_bind; [apply prints_proc_line|]. apply prints_bind; [apply prints_nl|done].
Qed.

(** ** The representation invariant *)
Section console.
Context {M : Type} `{UserMem M}.
Implicit Types s : cst M.

Definition crep s (q ed : list Z) : Prop :=
  length (cbuf s) = 128%nat ∧ 0 <= c_r s < 4294967296 ∧
  c_w s = u32 (c_r s + zlen q) ∧ c_e s = u32 (c_r s + zlen q + zlen ed) ∧
  zlen q + zlen ed <= 128 ∧ (zlen q + zlen ed = 128 → ed = []) ∧
  qread (cbuf s) (c_r s) (length (q ++ ed)) = q ++ ed ∧
  Forall (λ c, c ≠ 10 ∧ c ≠ C 68) ed.

Lemma crep_uart s q ed u : crep (set_cuart u s) q ed ↔ crep s q ed.
Proof. done. Qed.
Lemma crep_tab s q ed t : crep (set_ctab t s) q ed ↔ crep s q ed.
Proof. done. Qed.
Lemma crep_mem s q ed k m : crep (set_cmem k m s) q ed ↔ crep s q ed.
Proof. done. Qed.

Lemma crep_ew s q ed : crep s q ed → (c_e s =? c_w s) = bool_decide (ed = []).
Proof.
  intros (_ & Hr & -> & -> & Hl & _). pose proof (zlen_nonneg q). pose proof (zlen_nonneg ed).
  case_bool_decide as He.
  - subst. unfold zlen at 3. simpl. rewrite Z.add_0_r. apply Z.eqb_refl.
  - apply Z.eqb_neq. assert (0 < zlen ed) by (unfold zlen; destruct ed; [done|simpl; lia]).
    unfold u32. mlia.
Qed.

Lemma crep_size s q ed : crep s q ed → u32 (c_e s - c_r s) = zlen q + zlen ed.
Proof.
  intros (_ & Hr & _ & -> & Hl & _). pose proof (zlen_nonneg q). pose proof (zlen_nonneg ed).
  rewrite u32_sub_l. replace (_ - _) with (zlen q + zlen ed) by lia. apply u32_small. lia.
Qed.

Lemma crep_rw s q ed : crep s q ed → (c_r s =? c_w s) = bool_decide (q = []).
Proof.
  intros (_ & Hr & -> & _ & Hl & _). pose proof (zlen_nonneg q). pose proof (zlen_nonneg ed).
  case_bool_decide as Hq.
  - subst. unfold zlen. simpl. rewrite Z.add_0_r, u32_small by lia. apply Z.eqb_refl.
  - apply Z.eqb_neq. assert (0 < zlen q) by (unfold zlen; destruct q; [done|simpl; lia]).
    unfold u32. mlia.
Qed.

Lemma crep_back s q ed c : crep s q (ed ++ [c]) → crep (set_c_e (u32 (c_e s - 1)) s) q ed.
Proof.
  intros (Hb & Hr & Hw & He & Hl & Hf & Hq & Hed).
  rewrite zlen_app in *. change (zlen [c]) with 1 in *. split_and!; simpl; try done; try lia.
  - rewrite He, u32_sub_l. f_equal. lia.
  - rewrite app_assoc, length_app, qread_app in Hq. by apply app_inj_2 in Hq as [? _]; [|done].
  - by apply Forall_app in Hed as [? _].
Qed.

Lemma crep_last s q ed c : crep s q (ed ++ [c]) →
  aget (cbuf s) (u32 (c_e s - 1) mod INPUT_BUF_SIZE) = c.
Proof.
  intros (Hb & Hr & Hw & He & Hl & Hf & Hq & Hed). unfold INPUT_BUF_SIZE.
  rewrite app_assoc, length_app, qread_app in Hq.
  apply app_inj_2 in Hq as [_ Hq]; [|done]. simpl in Hq. injection Hq as Hq.
  etransitivity; [|exact Hq]. f_equal. rewrite He, zlen_app. change (zlen [c]) with 1.
  rewrite u32_mod128, length_app. unfold u32, zlen. mlia.
Qed.

Lemma crep_put s q ed c : crep s q ed → zlen q + zlen ed < 128 → 0 <= c < 256 →
  let s' := set_c_e (u32 (c_e s + 1))
              (set_cbuf (<[Z.to_nat (c_e s mod INPUT_BUF_SIZE) := u8 c]> (cbuf s)) s) in
  (c ≠ 10 → c ≠ C 68 → zlen q + zlen ed + 1 < 128 → crep s' q (ed ++ [c])) ∧
  crep (set_c_w (c_e s') s') (q ++ ed ++ [c]) [].
Proof.
  intros (Hb & Hr & Hw & He & Hl & Hf & Hq & Hed) Hlt Hc s'.
  assert (qread (cbuf s') (c_r s) (length (q ++ ed ++ [c])) = q ++ ed ++ [c]) as Hq'.
  { subst s'. simpl. unfold INPUT_BUF_SIZE. rewrite app_assoc, length_app, qread_app.
    rewrite He, u32_mod128.
    replace (c_r s + Z.of_nat (length (q ++ ed))) with (c_r s + zlen q + zlen ed)
      by (rewrite length_app; unfold zlen; lia).
    rewrite qread_store, Hq by (rewrite ?length_app; unfold zlen in *; lia).
    rewrite qread_stored by done. unfold u8. by rewrite Z.mod_small by lia. }
  assert (c_e s' = u32 (c_r s + zlen q + (zlen ed + 1))) as He'.
  { subst s'. simpl. rewrite He, u32_add_l. f_equal. lia. }
  split.
  - intros H10 H4 Hnf. split_and!; rewrite ?zlen_app; change (zlen [c]) with 1; try apply Hr; try done; try lia.
    + subst s'. simpl. by rewrite length_insert.
    + apply Forall_app. split; [done|]. by apply Forall_singleton.
  - split_and!; simpl; rewrite ?zlen_app; change (zlen [c]) with 1; change (zlen (@nil Z)) with 0;
      rewrite ?app_nil_r; try done; try lia.
    + by rewrite length_insert.
    + change (c_e s' = u32 (c_r s + (zlen q + (zlen ed + 1)))). rewrite He'. f_equal. lia.
    + change (c_e s' = u32 (c_r s + (zlen q + (zlen ed + 1)) + 0)). rewrite He'. f_equal. lia.
Qed.

Lemma crep_get s c q ed : crep s (c :: q) ed →
  aget (cbuf s) (c_r s mod INPUT_BUF_SIZE) = c ∧ crep (set_c_r (u32 (c_r s + 1)) s) q ed.
Proof.
  intros (Hb & Hr & Hw & He & Hl & Hf & Hq & Hed). simpl in Hq. injection Hq as Hc Hq.
  assert (zlen (c :: q) = 1 + zlen q) as Hz by (unfold zlen; simpl; lia). rewrite Hz in *.
  pose proof (zlen_nonneg q). pose proof (zlen_nonneg ed).
  split; [done|]. split_and!; simpl; try done; try apply u32_range; try lia.
  - rewrite Hw, u32_add_l. f_equal. lia.
  - rewrite He, <-(Z.add_assoc (u32 _)), u32_add_l. f_equal. lia.
  - by rewrite qread_u32.
Qed.

(** The control-U loop takes the whole edited line back. *)
Lemma kill_line_spec ed : ∀ fuel s q, crep s q ed → (length ed <= fuel)%nat → uart_on (cuart s) →
  ∃ s', kill_line fuel s = Ok s' ∧ crep s' q [] ∧
    out (cuart s') = out (cuart s) ++ concat (replicate (length ed) [8; 32; 8]) ∧
    uext (cuart s) (cuart s') ∧ ctab s' = ctab s ∧ cum s' = cum s ∧ ckm s' = ckm s.
Proof.
  induction ed as [|c ed IH] using rev_ind; intros fuel s q Hc Hf Hu.
  - assert (kill_line fuel s = Ok s) as ->.
    { destruct fuel; simpl; by rewrite (crep_ew s q []). }
    exists s. rewrite app_nil_r. split_and!; try done. apply uext_refl.
  - rewrite length_app in Hf. simpl in Hf. destruct fuel as [|fuel]; [lia|].
    pose proof (crep_ew _ _ _ Hc) as Hew. rewrite bool_decide_eq_false_2 in Hew by by destruct ed.
    pose proof (crep_last _ _ _ _ Hc) as Hlast.
    assert (c ≠ 10) as H10.
    { destruct Hc as (_&_&_&_&_&_&_&He). apply Forall_app in He as [_ He].
      by apply Forall_singleton in He as [? _]. }
    simpl. rewrite Hew, Hlast. destruct (Z.eqb_spec c 10); [done|]. simpl.
    rewrite consputc_ok by done. simpl.
    set (u1 := with_out (out (cuart s) ++ shown BACKSPACE) false (cuart s)).
    destruct (IH fuel (set_cuart u1 (set_c_e (u32 (c_e s - 1)) s)) q)
      as (s' & Heq & Hr & Ho & Hx & Ht & Hm & Hk);
      [eapply (crep_back s), Hc|lia|by apply uart_on_out|].
    exists s'. simpl in *. rewrite Heq. split_and!; try done.
    + rewrite Ho, length_app, replicate_add, concat_app. simpl.
      rewrite <-app_assoc. f_equal. clear. induction (length ed); simpl; [done|].
      by rewrite <-IHn.
    + eapply uext_trans; [|exact Hx]. by eexists _, _.
Qed.

(** Whether a character commits the line and wakes the reader. *)
Definition commits (c : Z) (q ed : list Z) : bool :=
  negb ((c =? C 80) || (c =? C 85) || (c =? C 72) || (c =? 127) || (c =? 0) ||
        (128 <=? zlen q + zlen ed)) &&
  ((c =? 13) || (c =? 10) || (c =? C 68) || (zlen q + zlen ed + 1 =? 128)).

(** The storing branch of [consoleintr]. *)
Lemma intr_store V me c s q ed :
  crep s q ed → uart_on (cuart s) → 0 < c < 256 → zlen q + zlen ed < 128 →
  c ≠ C 80 → c ≠ C 85 → c ≠ C 72 → c ≠ 127 →
  ∃ s', consoleintr V me c s = Ok s' ∧
    crep s' (line_intr c q ed).1.1 (line_intr c q ed).1.2 ∧
    out (cuart s') = out (cuart s) ++ (line_intr c q ed).2 ∧
    ctab s' = (if commits c q ed then wakeup V me ChCons (ctab s) else ctab s) ∧
    cum s' = cum s ∧ ckm s' = ckm s ∧ uart_on (cuart s').
Proof.
  intros Hc Hu Hr Hlt H1 H2 H3 H4. unfold consoleintr, line_intr, commits.
  rewrite (crep_size s q ed Hc). unfold INPUT_BUF_SIZE.
  repeat match goal with
  | |- context [c =? ?k] =>
      lazymatch k with 10 => fail | 13 => fail | C 68 => fail
      | _ => rewrite (proj2 (Z.eqb_neq c k)) by done || lia end
  end.
  destruct (Z.ltb_spec (zlen q + zlen ed) 128); [|lia].
  destruct (Z.leb_spec 128 (zlen q + zlen ed)); [lia|]. cbn [negb orb andb].
  set (c' := if c =? 13 then 10 else c).
  assert (0 <= c' < 256) as Hc' by (subst c'; zcase; lia).
  assert ((c =? 13) || (c =? 10) = (c' =? 10)) as ->.
  { subst c'. destruct (Z.eqb_spec c 13); [by subst|done]. }
  assert ((c =? C 68) = (c' =? C 68)) as ->.
  { subst c'. destruct (Z.eqb_spec c 13); [by subst|done]. }
  assert (shown c' = [c']) as Hsh.
  { unfold shown, BACKSPACE, u8. destruct (Z.eqb_spec c' 256); [lia|].
    by rewrite Z.mod_small by lia. }
  rewrite consputc_ok by done. cbn [mbind res_bind].
  set (s1 := set_cuart (with_out (out (cuart s) ++ shown c') false (cuart s)) s).
  destruct (crep_put s1 q ed c' Hc Hlt Hc') as [Hno Hyes].
  set (s2 := set_c_e _ _) in *. change (set_c_e _ _) with s2.
  assert (u32 (c_e s2 - c_r s2) = zlen q + zlen ed + 1) as ->.
  { pose proof (crep_size _ _ _ Hyes) as Hs. rewrite !zlen_app in Hs.
    change (zlen [c']) with 1 in Hs. change (zlen (@nil Z)) with 0 in Hs.
    change (u32 (c_e s2 - c_r s2) = zlen q + (zlen ed + 1) + 0) in Hs. rewrite Hs. lia. }
  destruct ((c' =? 10) || (c' =? C 68) || (zlen q + zlen ed + 1 =? 128)) eqn:Hb;
    eexists; (split; [done|]); simpl; rewrite Hsh; split_and!; try done.
  apply Hno; intros; destruct (Z.eqb_spec c' 10), (Z.eqb_spec c' (C 68)),
    (Z.eqb_spec (zlen q + zlen ed + 1) 128); simpl in Hb; done || lia.
Qed.

(** C13: [consoleintr] refines the line editor: control-U and backspace take
    back the edited line or its last character and nothing that was committed,
    a printable character is stored and echoed, newline, control-D and a full
    buffer commit the line and wake the readers, input beyond 128 bytes is
    dropped; control-P only prints. *)
Theorem console_intr_refines (V : Z) (me : option nat) (c : Z) (s : cst M) (q ed : list Z) :
  crep s q ed → uart_on (cuart s) → 0 <= c < 256 →
  ∃ s', consoleintr V me c s = Ok s' ∧ uart_on (cuart s') ∧
    ctab s' = (if commits c q ed then wakeup V me ChCons (ctab s) else ctab s) ∧
    cum s' = cum s ∧ ckm s' = ckm s ∧
    if c =? C 80 then crep s' q ed
    else crep s' (line_intr c q ed).1.1 (line_intr c q ed).1.2 ∧
         out (cuart s') = out (cuart s) ++ (line_intr c q ed).2.
Proof.
  intros Hc Hu Hr.
  destruct (Z.eqb_spec c (C 80)) as [->|Hn80].
  { destruct (prints_procdump (ctab s) _ Hu) as (u' & Hp & Hx).
    exists (set_cuart u' s). unfold consoleintr. simpl. rewrite Hp. simpl.
    split_and!; try done. by eapply uext_on. }
  destruct (Z.eqb_spec c (C 85)) as [->|Hn85].
  { destruct (kill_line_spec ed (Z.to_nat INPUT_BUF_SIZE) s q Hc) as
      (s' & Heq & Hr' & Ho & Hx & Ht & Hm & Hk); [|done|].
    { destruct Hc as (_ & _ & _ & _ & Hl & _). pose proof (zlen_nonneg q).
      unfold zlen, INPUT_BUF_SIZE in *. lia. }
    exists s'. split_and!; try done. by eapply uext_on. }
  destruct (decide (c = C 72 ∨ c = 127)) as [Hbs|Hbs].
  { assert ((c =? C 72) || (c =? 127) = true) as Hbt by (destruct Hbs as [->| ->]; done).
    assert (commits c q ed = false) as Hcm.
    { unfold commits. destruct Hbs as [->| ->]; simpl; by rewrite ?orb_true_r. }
    unfold consoleintr, line_intr. rewrite Hcm, Hbt.
    destruct (Z.eqb_spec c (C 80)); [done|]. destruct (Z.eqb_spec c (C 85)); [done|].
    rewrite (crep_ew _ _ _ Hc).
    destruct ed as [|x ed' _] using rev_ind; [exists s; simpl; rewrite app_nil_r; by split_and!|].
    rewrite bool_decide_eq_false_2 by by destruct ed'. cbn [negb].
    rewrite consputc_ok by done. eexists. split; [done|]. cbn [fst snd].
    rewrite length_app, Nat.add_sub, take_app_length.
    split_and!; try done. by apply crep_uart, (crep_back s q ed' x). }
  destruct (decide (c = 0 ∨ 128 <= zlen q + zlen ed)) as [Hd|Hd].
  { exists s. unfold consoleintr, line_intr, commits. rewrite (crep_size _ _ _ Hc).
    destruct (Z.eqb_spec c (C 80)); [done|]. destruct (Z.eqb_spec c (C 85)); [done|].
    destruct (Z.eqb_spec c (C 72)); [tauto|]. destruct (Z.eqb_spec c 127); [tauto|]. simpl.
    unfold INPUT_BUF_SIZE.
    destruct (Z.eqb_spec c 0); destruct (Z.ltb_spec (zlen q + zlen ed) 128);
      destruct (Z.leb_spec 128 (zlen q + zlen ed)); try lia; simpl;
      rewrite app_nil_r; by split_and!. }
  destruct (intr_store V me c s q ed) as (s' & Heq & Hr' & Ho & Ht & Hm & Hk & Hu');
    try done || lia || tauto.
  exists s'. split_and!; try done.
Qed.
End console.

(** ** Reading *)
Section reads.
Context {M : Type} `{UserMemLaws M}.
Implicit Types s : cst M.

(** Run [consoleread] to its return or to its sleep. *)
Fixpoint crun (fuel : nat) (me : nat) (ud dst0 n0 : Z) (pc : crpc) s : crpc * cst M :=
  match pc, fuel with
  | CRet _, _ | CAsleep _ _, _ | _, O => (pc, s)
  | _, S f => let '(pc', s') := consoleread me ud dst0 n0 pc s in crun f me ud dst0 n0 pc' s'
  end.

(** User memory [m'] is [m] with the bytes [l] stored from [dst] on. *)
Definition delivered (m m' : M) (dst : Z) (l : list Z) : Prop :=
  um_ok m' ∧ (∀ j, 0 <= j < zlen l → uget m' (u64 (dst + j)) = Some (aget l j)) ∧
  (∀ va, (∀ j, 0 <= j < zlen l → va ≠ u64 (dst + j)) → uget m' va = uget m va).

Lemma delivered_nil m dst : um_ok m → delivered m m dst [].
Proof. intros. split_and!; try done. unfold zlen. simpl. lia. Qed.

Lemma delivered_cons m m1 m2 dst c l : 1 + zlen l < 4294967296 →
  delivered m m1 dst [c] → delivered m1 m2 (u64 (dst + 1)) l → delivered m m2 dst (c :: l).
Proof.
  intros Hlen (_ & H1 & F1) (Hok & H2 & F2).
  assert (zlen (c :: l) = 1 + zlen l) as Hz by (unfold zlen; simpl; lia).
  pose proof (zlen_nonneg l). change (zlen [c]) with 1 in *. split_and!; [done| |].
  - intros j Hj. destruct (decide (j = 0)) as [->|Hne].
    + rewrite F2; [by apply H1|]. intros k Hk. rewrite u64_add_l. intros Heq.
      replace (dst + 1 + k) with (dst + (1 + k)) in Heq by lia.
      apply u64_distinct in Heq; lia.
    + replace (dst + j) with (dst + 1 + (j - 1)) by lia.
      rewrite <-u64_add_l, H2 by lia. unfold aget.
      by replace (Z.to_nat j) with (S (Z.to_nat (j - 1))) by lia.
  - intros va Hva. rewrite F2, F1; [done| |].
    + intros j Hj. apply Hva. lia.
    + intros j Hj. rewrite u64_add_l. replace (dst + 1 + j) with (dst + (j + 1)) by lia.
      apply Hva. lia.
Qed.

(** One byte delivered by [either_copyout] to a writable user address. *)
Lemma copyout1 ud k m dst c : um_ok m → ud ≠ 0 → writable m (u64 dst) →
  ∃ m', either_copyout ud dst [c] k m = (k, m', 0) ∧ delivered m m' dst [c] ∧
    (∀ va, writable m va → writable m' va).
Proof.
  intros Hok Hud Hw. unfold either_copyout. destruct (Z.eqb_spec ud 0); [done|]. simpl.
  destruct (copyout m dst [c]) as [m' r] eqn:Hc. change (zlen [c]) with 1.
  destruct (copyout_spec m dst [c] m' r Hok) as (Hok' & j & Hj & Hin & Hout & Hr);
    [unfold zlen; simpl; lia|done|]. change (zlen [c]) with 1 in *.
  assert (r = 0) as ->.
  { apply (copyout_writable m dst [c] m' r Hok Hc). intros i Hi. change (zlen [c]) with 1 in Hi.
    by replace (dst + i) with dst by lia. }
  destruct Hr as [[_ ->]|[? _]]; [|lia].
  exists m'. split_and!; try done. intros va. by eapply copyout_keeps_writable.
Qed.

Lemma set_c_r_back s : 0 <= c_r s < 4294967296 →
  set_c_r (u32 (u32 (c_r s + 1) - 1)) (set_c_r (u32 (c_r s + 1)) s) = s.
Proof.
  intros Hr. rewrite u32_sub_l. replace (c_r s + 1 - 1) with (c_r s) by lia.
  rewrite u32_small by done. by destruct s.
Qed.

(** What a run from the loop head ends in. *)
Definition rdone (me : nat) (n0 dst n : Z) (r : rline) (ed : list Z) s (pc : crpc) s' : Prop :=
  match r with
  | Done l rest =>
      pc = CRet (n0 - n + zlen l) ∧ crep s' rest ed ∧ ctab s' = ctab s ∧
      delivered (cum s) (cum s') dst l
  | Wait l =>
      crep s' [] ed ∧ delivered (cum s) (cum s') dst l ∧
      if killed me (ctab s) =? 0
      then (∃ dst', pc = CAsleep dst' (n - zlen l)) ∧ ctab s' = sleep_begin me ChCons (ctab s)
      else pc = CRet (-1) ∧ ctab s' = ctab s
  end.

Lemma rdone_cons me n0 dst n c r ed s s1 pc s' :
  1 + (match r with Done l _ | Wait l => zlen l end) < 4294967296 →
  delivered (cum s) (cum s1) dst [c] → ctab s1 = ctab s →
  rdone me n0 (u64 (dst + 1)) (n - 1) r ed s1 pc s' →
  rdone me n0 dst n (rline_cons c r) ed s pc s'.
Proof.
  assert (∀ l, zlen (c :: l) = 1 + zlen l) as Hz by (intros; unfold zlen; simpl; lia).
  intros Hl Hd Ht. destruct r as [l rest|l]; simpl.
  - intros (-> & Hc & Htab & Hdl). split_and!; try done.
    + f_equal. rewrite Hz. lia.
    + congruence.
    + by eapply delivered_cons.
  - rewrite Ht. intros (Hc & Hdl & Hk). split_and!; [done|by eapply delivered_cons|].
    destruct (killed me (ctab s) =? 0); [|done]. destruct Hk as [(dst' & ->) Htab].
    split; [|done]. exists dst'. f_equal. rewrite Hz. lia.
Qed.

Lemma read_line_length first n : ∀ q,
  match read_line first n q with Done l _ | Wait l => zlen l <= Z.of_nat n end.
Proof.
  revert first. induction n as [|n IH]; intros first q; simpl; [done|].
  destruct q as [|c q]; [unfold zlen; simpl; lia|].
  destruct (c =? C 68); [unfold zlen; simpl; lia|].
  destruct (c =? 10); [unfold zlen; simpl; lia|]. specialize (IH false q).
  destruct (read_line false n q); unfold zlen in *; simpl; lia.
Qed.

Lemma crun_loop me ud dst0 n0 ed : 0 < n0 < 2147483648 → ud ≠ 0 → ∀ n fuel s q dst,
  crep s q ed → um_ok (cum s) → Z.of_nat n <= n0 → (2 * n + 1 <= fuel)%nat →
  (∀ k, 0 <= k < Z.of_nat n → writable (cum s) (u64 (dst + k))) →
  ∃ pc s', crun fuel me ud dst0 n0 (CLoop dst (Z.of_nat n)) s = (pc, s') ∧
    rdone me n0 dst (Z.of_nat n) (read_line (bool_decide (Z.of_nat n = n0)) n q) ed s pc s'.
Proof.
  intros Hn0 Hud n. induction n as [|n IH]; intros fuel s q dst Hc Hok Hn Hf Hw.
  { destruct fuel as [|fuel]; [lia|]. exists (CRet n0), s. cbn. split; [|].
    - rewrite Z.sub_0_r, u32_small, i32_small by lia. by destruct fuel.
    - split_and!; [f_equal; unfold zlen; simpl; lia|done|done|by apply delivered_nil]. }
  destruct fuel as [|[|fuel]]; [lia..|].
  assert (crun (S (S fuel)) me ud dst0 n0 (CLoop dst (Z.of_nat (S n))) s =
    let '(pc', s') := consoleread me ud dst0 n0 (CWait dst (Z.of_nat (S n))) s in
    crun fuel me ud dst0 n0 pc' s') as ->.
  { cbn [crun consoleread]. destruct (Z.ltb_spec 0 (Z.of_nat (S n))); [done|lia]. }
  cbn [consoleread read_line]. rewrite (crep_rw _ _ _ Hc).
  destruct q as [|c q].
  { rewrite bool_decide_eq_true_2 by done.
    unfold rdone. destruct (killed me (ctab s) =? 0); cbn [negb]; eexists _, _.
    - split; [by destruct fuel|]. split; [exact Hc|]. split; [by apply delivered_nil|].
      split; [|done]. exists dst. done.
    - split; [by destruct fuel|]. split; [exact Hc|]. split; [by apply delivered_nil|done]. }
  rewrite bool_decide_eq_false_2 by done.
  destruct (crep_get _ _ _ _ Hc) as [-> Hc1].
  assert (u32 n0 - Z.of_nat (S n) = n0 - Z.of_nat (S n)) as Hsub by (rewrite u32_small; lia).
  destruct (Z.eqb_spec c (C 68)) as [->|H4].
  { rewrite !u32_small, i32_small by lia. eexists _, _. split; [by destruct fuel|].
    split_and!; [f_equal; unfold zlen; simpl; lia| | |].
    - destruct (bool_decide_reflect (Z.of_nat (S n) = n0)); destruct (Z.ltb_spec (Z.of_nat (S n)) n0); try lia; [done|].
      change (c_r (set_c_r _ s)) with (u32 (c_r s + 1)). rewrite set_c_r_back; [done|].
      apply Hc.
    - by destruct (_ <? n0).
    - assert (∀ b : bool, cum (if b then set_c_r (u32 (c_r (set_c_r (u32 (c_r s + 1)) s) - 1))
        (set_c_r (u32 (c_r s + 1)) s) else set_c_r (u32 (c_r s + 1)) s) = cum s) as ->
        by by intros []. by apply delivered_nil. }
  destruct (copyout1 ud (ckm s) (cum s) dst c Hok Hud) as (m' & Hco & Hdel & Hkw).
  { specialize (Hw 0). rewrite Z.add_0_r in Hw. apply Hw. lia. }
  change (ckm (set_c_r _ s)) with (ckm s). change (cum (set_c_r _ s)) with (cum s). rewrite Hco.
  cbn [Z.eqb]. change (0 =? -1) with false. cbv iota.
  set (s1 := set_cmem (ckm s) m' _).
  destruct (Z.eqb_spec c 10) as [->|H10].
  { rewrite u32_small, i32_small by lia. eexists _, _. split; [by destruct fuel|].
    split_and!; [f_equal; change (zlen [10]) with 1; lia|done|done|exact Hdel]. }
  destruct (IH fuel s1 q (u64 (dst + 1))) as (pc & s' & Heq & Hd); try done; try lia.
  { apply Hdel. }
  { intros k Hk. rewrite u64_add_l. apply Hkw. replace (dst + 1 + k) with (dst + (k + 1)) by lia.
    apply Hw. lia. }
  replace (Z.of_nat (S n) - 1) with (Z.of_nat n) by lia. exists pc, s'. split; [done|].
  pose proof (read_line_length false n q) as Hrl.
  rewrite bool_decide_eq_false_2 in Hd by lia.
  eapply (rdone_cons me n0 dst _ c _ ed s s1); try done.
  - destruct (read_line false n q); lia.
  - by replace (Z.of_nat (S n) - 1) with (Z.of_nat n) by lia.
Qed.

(** [consoleread] of [n] bytes into writable memory delivers exactly what
    [read_line] says of the committed input: it stops after a newline, before a
    control-D (kept for the next call unless nothing was read, so that the
    caller sees a 0-byte result) or at [n] bytes, and otherwise sleeps with the
    committed input used up, or returns -1 when the process was killed. *)
Theorem consoleread_line (me : nat) (ud dst n fuel : Z) (s : cst M) (q ed : list Z) :
  crep s q ed → um_ok (cum s) → 0 < n < 2147483648 → ud ≠ 0 → 2 * n + 2 <= fuel →
  (∀ k, 0 <= k < n → writable (cum s) (u64 (dst + k))) →
  ∃ pc s', crun (Z.to_nat fuel) me ud dst n CEnter s = (pc, s') ∧
    rdone me n dst n (read_line true (Z.to_nat n) q) ed s pc s'.
Proof.
  intros Hc Hok Hn Hud Hf Hw.
  destruct (crun_loop me ud dst n ed Hn Hud (Z.to_nat n) (Z.to_nat fuel - 1) s q dst)
    as (pc & s' & Heq & Hd); try done; try lia.
  { intros k Hk. apply Hw. lia. }
  rewrite !Z2Nat.id in * by lia. rewrite bool_decide_eq_true_2 in Hd by done.
  exists pc, s'. split; [|done].
  destruct (Z.to_nat fuel) as [|f] eqn:Hfe; [lia|]. cbn [crun consoleread].
  by replace (S f - 1)%nat with f in Heq by lia.
Qed.
End reads.

(** ** Writing *)
Section writes.
Context {M : Type} `{UserMemLaws M}.
Implicit Types s : cst M.

(** The device has sent its byte and raises the transmit interrupt. *)
Definition tx_done (V : Z) s : cst M :=
  let u := with_out (out (cuart s)) true (cuart s) in
  let '(u, ps) := uartintr_tx V None (u, ctab s) in
  set_ctab ps (set_cuart u s).

(** Run [consolewrite] to its return; while it sleeps the transmit interrupt
    arrives. *)
Fixpoint cwrun (fuel : nat) (V : Z) (me : nat) (us src n : Z) (pc : cwpc) s : cwpc * cst M :=
  match pc, fuel with
  | CWRet _, _ | _, O => (pc, s)
  | CWUart _ _ _ (UWAsleep _), S f =>
      let '(pc', s') := consolewrite me us src n pc (tx_done V s) in cwrun f V me us src n pc' s'
  | _, S f => let '(pc', s') := consolewrite me us src n pc s in cwrun f V me us src n pc' s'
  end.

(** [s'] is [s] after the bytes [o] went out: nothing else but the process
    table and the driver's flags changed. *)
Definition sent s s' (o : list Z) : Prop :=
  cbuf s' = cbuf s ∧ c_r s' = c_r s ∧ c_w s' = c_w s ∧ c_e s' = c_e s ∧ ckm s' = ckm s ∧
  cum s' = cum s ∧ uart_on (cuart s') ∧ out (cuart s') = out (cuart s) ++ o.

Lemma sent_refl s : uart_on (cuart s) → sent s s [].
Proof. intros. unfold sent. rewrite app_nil_r. by split_and!. Qed.

Lemma sent_trans s1 s2 s3 o o' : sent s1 s2 o → sent s2 s3 o' → sent s1 s3 (o ++ o').
Proof.
  intros (?&?&?&?&?&?&?&Ho) (?&?&?&?&?&?&?&Ho'). unfold sent.
  rewrite Ho', Ho, app_assoc. split_and!; congruence || done.
Qed.

Lemma tx_done_idle V s : uart_on (cuart s) → sent s (tx_done V s) [] ∧ tx_busy (cuart (tx_done V s)) = 0.
Proof.
  intros Hu. unfold tx_done, uartintr_tx, read_LSR. simpl.
  assert (Z.land (Z.lor match rxq (cuart s) with [] => 0 | _ => LSR_RX_READY end LSR_TX_IDLE)
    LSR_TX_IDLE = 32) as -> by by destruct (rxq (cuart s)).
  simpl. split; [|done]. unfold sent. simpl. rewrite app_nil_r. by split_and!.
Qed.

Section one_call.
Context (V : Z) (me : nat) (us src n : Z).
Local Abbreviation run fuel pc s := (cwrun fuel V me us src n pc s).

(** One byte of [uartwrite], the wait for the device included. *)
Lemma cw_byte i nn bs j fuel s : uart_on (cuart s) → j < nn → (3 <= fuel)%nat →
  ∃ f' s', run fuel (CWUart i nn bs (UWLoop j)) s = run f' (CWUart i nn bs (UWLoop (j + 1))) s' ∧
    (fuel - 3 <= f')%nat ∧ sent s s' [u8 (aget bs j)].
Proof.
  intros Hu Hj Hf.
  assert (∀ f s, uart_on (cuart s) → tx_busy (cuart s) = 0 → ∃ s',
    run (S f) (CWUart i nn bs (UWLoop j)) s = run f (CWUart i nn bs (UWLoop (j + 1))) s' ∧
    sent s s' [u8 (aget bs j)]) as Hidle.
  { intros f s0 Hu0 Hb. cbn [cwrun consolewrite uartwrite].
    destruct (Z.ltb_spec j nn); [|lia]. rewrite Hb. cbn [negb Z.eqb].
    eexists. split; [done|]. unfold sent, WriteReg. destruct Hu0 as [Hl Hp]. simpl. rewrite Hl.
    by split_and!. }
  destruct (decide (tx_busy (cuart s) = 0)) as [Hb|Hb].
  { destruct fuel as [|fuel]; [lia|]. destruct (Hidle fuel s Hu Hb) as (s' & Heq & Hs).
    exists fuel, s'. split_and!; [done|lia|done]. }
  destruct fuel as [|[|[|fuel]]]; [lia..|].
  assert (∃ s1, run (S (S (S fuel))) (CWUart i nn bs (UWLoop j)) s =
    run (S fuel) (CWUart i nn bs (UWLoop j)) s1 ∧ sent s s1 [] ∧ tx_busy (cuart s1) = 0)
    as (s1 & Heq & Hs1 & Hb1).
  { assert (∀ f t, run (S f) (CWUart i nn bs (UWAsleep j)) t = run f (CWUart i nn bs (UWLoop j))
      (set_ctab (sleep_end me (ctab (tx_done V t))) (set_cuart (cuart (tx_done V t)) (tx_done V t))))
      as Hwake by done.
    assert (∀ f, run (S f) (CWUart i nn bs (UWLoop j)) s = run f (CWUart i nn bs (UWAsleep j))
      (set_ctab (sleep_begin me ChTx (ctab s)) (set_cuart (cuart s) s))) as Hsl.
    { intros f. cbn [cwrun consolewrite uartwrite]. destruct (Z.ltb_spec j nn); [|lia].
      destruct (Z.eqb_spec (tx_busy (cuart s)) 0); [done|]. done. }
    rewrite Hsl, Hwake. set (s2 := set_ctab (sleep_begin _ _ _) _).
    destruct (tx_done_idle V s2) as [Hs2 Hb2]; [done|].
    eexists. split; [done|]. split; [|exact Hb2].
    destruct Hs2 as (?&?&?&?&?&?&?&?). by split_and!. }
  destruct (Hidle fuel s1) as (s' & Heq' & Hs'); [apply Hs1|done|].
  exists fuel, s'. rewrite Heq, Heq'. split_and!; [done|lia|].
  by apply (sent_trans s s1 s' [] _).
Qed.

Lemma cw_batch i nn bs : zlen bs = nn → ∀ k j fuel s, uart_on (cuart s) →
  0 <= j → nn - j = Z.of_nat k → (3 * k + 1 <= fuel)%nat →
  ∃ f' s', run fuel (CWUart i nn bs (UWLoop j)) s = run f' (CWLoop (i + nn)) s' ∧
    (fuel - (3 * k + 1) <= f')%nat ∧ sent s s' (u8 <$> drop (Z.to_nat j) bs).
Proof.
  intros Hlen k. induction k as [|k IH]; intros j fuel s Hu Hj Hk Hf.
  { destruct fuel as [|fuel]; [lia|]. exists fuel, s. split_and!; [|lia|].
    - cbn [cwrun consolewrite uartwrite]. destruct (Z.ltb_spec j nn); [lia|]. by destruct s.
    - rewrite drop_ge by (unfold zlen in *; lia). by apply sent_refl. }
  destruct (cw_byte i nn bs j fuel s) as (f1 & s1 & Heq & Hf1 & Hs1); [done|lia|lia|].
  destruct (IH (j + 1) f1 s1) as (f2 & s2 & Heq2 & Hf2 & Hs2); [apply Hs1|lia..|].
  exists f2, s2. rewrite Heq, Heq2. split_and!; [done|lia|].
  destruct (lookup_lt_is_Some_2 bs (Z.to_nat j)) as [b Hb]; [unfold zlen in *; lia|].
  rewrite (drop_S bs b) by done. simpl.
  replace b with (aget bs j) by (unfold aget; by rewrite Hb).
  replace (S (Z.to_nat j)) with (Z.to_nat (j + 1)) by lia.
  by apply (sent_trans s s1 s2 [_] _).
Qed.

(** From the loop head: each batch goes out whole. [b] bounds the batches. *)
Lemma cw_loop : us ≠ 0 → ∀ b i fuel s, uart_on (cuart s) → um_ok (cum s) →
  0 <= i <= n → n - i <= Z.of_nat b → (5 * Z.to_nat (n - i) + 1 <= fuel)%nat →
  (∀ k, i <= k < n → readable (cum s) (u64 (src + k))) →
  ∃ s', run fuel (CWLoop i) s = (CWRet n, s') ∧ uart_on (cuart s') ∧
    (∀ va, uget (cum s') va = uget (cum s) va) ∧
    out (cuart s') = out (cuart s) ++ (u8 <$> ubytes (cum s) (src + i) (n - i)).
Proof.
  intros Hus b. induction b as [|b IH]; intros i fuel s Hu Hok Hi Hb Hf Hr;
    (destruct fuel as [|fuel]; [lia|]); cbn [cwrun consolewrite].
  { destruct (Z.ltb_spec i n); [lia|]. replace i with n by lia. exists s.
    rewrite Z.sub_diag. simpl. rewrite app_nil_r. by destruct fuel. }
  destruct (Z.ltb_spec i n); last first.
  { replace i with n by lia. exists s. rewrite Z.sub_diag. simpl. rewrite app_nil_r.
    by destruct fuel. }
  set (nn := if n - i <? 32 then n - i else 32).
  assert (0 < nn <= n - i ∧ nn <= 32) as Hnn by (subst nn; zcase; lia).
  unfold either_copyin. destruct (Z.eqb_spec us 0); [done|]. cbn [negb].
  destruct (copyin (cum s) (u64 (src + i)) nn) as [[m r] bs] eqn:Hc.
  destruct (copyin_spec (cum s) (u64 (src + i)) nn m r bs Hok ltac:(lia) Hc) as (Hok' & Hg & Hbs & Hres).
  assert (r = 0) as ->.
  { apply (copyin_readable (cum s) (u64 (src + i)) nn m r bs Hok ltac:(lia) Hc). intros k Hk. rewrite u64_add_l.
    replace (src + i + k) with (src + (i + k)) by lia. apply Hr. lia. }
  destruct Hres as [[_ Hzl]|[? _]]; [|lia]. cbn [Z.eqb]. change (0 =? -1) with false. cbv iota.
  destruct (cw_batch i nn bs Hzl (Z.to_nat nn) 0 fuel (set_cmem (ckm s) m s))
    as (f1 & s1 & Heq & Hf1 & Hs1); [done|lia|lia|lia|].
  pose proof Hs1 as (_ & _ & _ & _ & _ & Hm1 & Hu1 & Ho1). simpl in Hm1, Ho1.
  destruct (IH (i + nn) f1 s1) as (s2 & Heq2 & Hu2 & Hg2 & Ho2); rewrite ?Hm1; try done; try lia.
  { intros k Hk. apply (copyin_keeps_readable (cum s) (u64 (src + i)) nn m 0 bs _ Hok Hc).
    apply Hr. lia. }
  exists s2. rewrite Heq, Heq2. split_and!; try done.
  - intros va. rewrite Hg2, Hm1. apply Hg.
  - rewrite Ho2, Ho1, Hm1, drop_0, <-app_assoc. f_equal.
    replace (n - i) with (nn + (n - (i + nn))) by lia.
    rewrite ubytes_app, fmap_app by lia. f_equal.
    + rewrite <-Hzl. f_equal. symmetry. apply ubytes_eq. intros k Hk.
      by rewrite <-u64_add_l, Hbs.
    + f_equal. rewrite Z.add_assoc. apply ubytes_ext. intros k _. apply Hg.
Qed.
End one_call.

(** [consolewrite] of [n] readable bytes, with the transmit interrupt
    arriving whenever the driver sleeps, sends exactly these bytes to the
    UART in order, in batches of 32, and returns [n]. *)
Theorem consolewrite_correct (V : Z) (me : nat) (us src n fuel : Z) (s : cst M) :
  us ≠ 0 → uart_on (cuart s) → um_ok (cum s) → 0 <= n → 5 * n + 1 <= fuel →
  (∀ k, 0 <= k < n → readable (cum s) (u64 (src + k))) →
  ∃ s', cwrun (Z.to_nat fuel) V me us src n (CWLoop 0) s = (CWRet n, s') ∧
    (∀ va, uget (cum s') va = uget (cum s) va) ∧
    out (cuart s') = out (cuart s) ++ (u8 <$> ubytes (cum s) src n).
Proof.
  intros Hus Hu Hok Hn Hf Hr.
  destruct (cw_loop V me us src n Hus (Z.to_nat n) 0 (Z.to_nat fuel) s)
    as (s' & Heq & _ & Hg & Ho); try done; try lia.
  rewrite Z.add_0_r, Z.sub_0_r in Ho. by exists s'.
Qed.
End writes.

(** *** Witnesses *)
Import Flat.

(** A console whose reader has not run yet: "hi" and newline committed, an "x"
    being edited, the indices about to wrap. *)
Definition cons0 : cst Flat.flat :=
  mkC (<[127%nat := 104]> (<[0%nat := 105]> (<[1%nat := 10]> (<[2%nat := 120]> (replicate 128 0)))))
    4294967295 2 3 uart0 ∅ (Flat.mk 4096 [1; 2; 3; 4; 5; 6; 7; 8]) [].

Lemma cons0_rep : crep cons0 [104; 105; 10] [120].
Proof.
  unfold crep. split_and!; try done; try (vm_compute; done). apply Forall_singleton. by split.
Qed.

Lemma console_intr_refines_witness :
  ∃ s', consoleintr 6 None 127 cons0 = Ok s' ∧ crep s' [104; 105; 10] [].
Proof.
  destruct (console_intr_refines 6 None 127 cons0 [104; 105; 10] [120]) as
    (s' & Heq & _ & _ & _ & _ & Hr & _); [exact cons0_rep|done|lia|].
  exists s'. split; [exact Heq|exact Hr].
Defined.

Lemma consoleread_line_witness :
  ∃ s', crun 20 0 1 4096 8 CEnter cons0 = (CRet 3, s') ∧ crep s' [] [120].
Proof.
  destruct (consoleread_line 0 1 4096 8 20 cons0 [104; 105; 10] [120]) as (pc & s' & Heq & Hd);
    [exact cons0_rep|done|lia|lia|lia|apply (Flat.mk_writable 4096 _ 8); by vm_compute|].
  destruct Hd as (-> & Hr & _). exists s'. split; [exact Heq|exact Hr].
Defined.

Lemma consolewrite_correct_witness :
  ∃ s', cwrun 41 6 0 1 4096 8 (CWLoop 0) cons0 = (CWRet 8, s') ∧
    out (cuart s') = [1; 2; 3; 4; 5; 6; 7; 8].
Proof.
  destruct (consolewrite_correct 6 0 1 4096 8 41 cons0) as (s' & Heq & _ & Ho);
    [lia|done|done|lia|lia|apply (Flat.mk_readable 4096 _ 8); by vm_compute|].
  exists s'. split; [exact Heq|]. rewrite Ho. by vm_compute.
Defined.
