(* ===== verification/Fs.v ===== *)
(** * The file system: state and lower layers of fs.c

    Blocks and inodes of [kernel/fs.c] over the interface [BufOps] to the buffer
    cache and the log.  Functions are in the state-and-result monad [FS] over
    [fss]: the super block, the inode table, the lower layers, the memory that
    [readi]/[writei] copy to and from, and what was printed.  The integers have
    the widths of C; a block is its list of bytes, [struct dinode] and
    [struct dirent] are read from and written to it at the offsets of C. *)
From S2P Require Import Prelude Riscv Bio Log Buf Proc UserMem Mem Uart Printf Console.

Definition ROOTINO : Z := 1.
Definition FSMAGIC : Z := 270544960.      (* 0x10203040 *)
Definition NDIRECT : Z := 12.
Definition NINDIRECT : Z := BSIZE / 4.
Definition MAXFILE : Z := NDIRECT + NINDIRECT.
Definition DINODE : Z := 64.              (* sizeof(struct dinode) *)
Definition IPB : Z := BSIZE / DINODE.
Definition BPB : Z := BSIZE * 8.
Definition DIRSIZ : nat := 14.
Definition DIRENT : Z := 16.              (* sizeof(struct dirent) *)
Definition T_DIR : Z := 1.
Definition T_FILE : Z := 2.
Definition T_DEVICE : Z := 3.
Definition NINODE : nat := 50.

Record superblock := mkSB {
  sb_magic : Z; sb_size : Z; sb_nblocks : Z; sb_ninodes : Z;
  sb_nlog : Z; sb_logstart : Z; sb_inodestart : Z; sb_bmapstart : Z
}.

(** [struct inode]; [i_lock] says whether its sleep lock is held. *)
Record inode := mkInode {
  i_dev : Z; i_inum : Z; i_ref : Z; i_lock : bool; i_valid : bool;
  i_type : Z; i_major : Z; i_minor : Z; i_nlink : Z; i_size : Z; i_addrs : list Z
}.

Definition set_i_ref (r : Z) (ip : inode) : inode :=
  mkInode (i_dev ip) (i_inum ip) r (i_lock ip) (i_valid ip) (i_type ip) (i_major ip)
    (i_minor ip) (i_nlink ip) (i_size ip) (i_addrs ip).
Definition set_i_lock (l : bool) (ip : inode) : inode :=
  mkInode (i_dev ip) (i_inum ip) (i_ref ip) l (i_valid ip) (i_type ip) (i_major ip)
    (i_minor ip) (i_nlink ip) (i_size ip) (i_addrs ip).
Definition set_i_valid (v : bool) (ip : inode) : inode :=
  mkInode (i_dev ip) (i_inum ip) (i_ref ip) (i_lock ip) v (i_type ip) (i_major ip)
    (i_minor ip) (i_nlink ip) (i_size ip) (i_addrs ip).
Definition set_i_type (t : Z) (ip : inode) : inode :=
  mkInode (i_dev ip) (i_inum ip) (i_ref ip) (i_lock ip) (i_valid ip) t (i_major ip)
    (i_minor ip) (i_nlink ip) (i_size ip) (i_addrs ip).
Definition set_i_nlink (n : Z) (ip : inode) : inode :=
  mkInode (i_dev ip) (i_inum ip) (i_ref ip) (i_lock ip) (i_valid ip) (i_type ip) (i_major ip)
    (i_minor ip) n (i_size ip) (i_addrs ip).
Definition set_i_size (z : Z) (ip : inode) : inode :=
  mkInode (i_dev ip) (i_inum ip) (i_ref ip) (i_lock ip) (i_valid ip) (i_type ip) (i_major ip)
    (i_minor ip) (i_nlink ip) z (i_addrs ip).
Definition set_i_addrs (a : list Z) (ip : inode) : inode :=
  mkInode (i_dev ip) (i_inum ip) (i_ref ip) (i_lock ip) (i_valid ip) (i_type ip) (i_major ip)
    (i_minor ip) (i_nlink ip) (i_size ip) a.

(** *** Integers in a block *)
Definition i16 (x : Z) : Z := let y := u16 x in if y <? 32768 then y else y - 65536.
Definition le16 (v : Z) : list Z := let v := u16 v in [v mod 256; v / 256].
Definition getu16 (d : block) (off : Z) : Z := u16 (aget d off + 256 * aget d (off + 1)).
Definition put16 (d : block) (off v : Z) : block := splice d off (le16 v).
Definition getu32 (d : block) (off : Z) : Z := u32 (get32 d off).

(** [struct superblock] at the start of block 1. *)
Definition get_sb (d : block) : superblock :=
  mkSB (getu32 d 0) (getu32 d 4) (getu32 d 8) (getu32 d 12)
       (getu32 d 16) (getu32 d 20) (getu32 d 24) (getu32 d 28).

(** The address array of a [struct dinode] at offset [off]. *)
Fixpoint get_addrs (d : block) (off : Z) (n : nat) : list Z :=
  match n with O => [] | S n' => getu32 d off :: get_addrs d (off + 4) n' end.
Fixpoint put_addrs (d : block) (off : Z) (a : list Z) : block :=
  match a with [] => d | x :: a' => put_addrs (put32 d off x) (off + 4) a' end.

(** The fields [iupdate] copies to the [struct dinode] at [o], in its order. *)
Definition put_dinode (d : block) (o : Z) (ip : inode) : block :=
  let d := put16 d o (i_type ip) in
  let d := put16 d (o + 2) (i_major ip) in
  let d := put16 d (o + 4) (i_minor ip) in
  let d := put16 d (o + 6) (i_nlink ip) in
  let d := put32 d (o + 8) (i_size ip) in
  put_addrs d (o + 12) (i_addrs ip).

(** The fields [ilock] copies from it. *)
Definition get_dinode (d : block) (o : Z) (ip : inode) : inode :=
  mkInode (i_dev ip) (i_inum ip) (i_ref ip) (i_lock ip) (i_valid ip)
    (i16 (getu16 d o)) (i16 (getu16 d (o + 2))) (i16 (getu16 d (o + 4))) (i16 (getu16 d (o + 6)))
    (getu32 d (o + 8)) (get_addrs d (o + 12) 13).

Section fs.
Context {S : Type} `{BufOps S} {M : Type} `{UserMem M}.

Record fss := mkFss {
  sb : superblock;
  itable : list inode;
  lower : S;              (* buffer cache and log *)
  fkm : mem;              (* kernel memory *)
  fum : M;                (* user memory of the calling process *)
  msgs : list string      (* printf *)
}.

Definition set_sb (x : superblock) (s : fss) : fss :=
  mkFss x (itable s) (lower s) (fkm s) (fum s) (msgs s).
Definition set_itable (t : list inode) (s : fss) : fss :=
  mkFss (sb s) t (lower s) (fkm s) (fum s) (msgs s).
Definition set_lower (x : S) (s : fss) : fss :=
  mkFss (sb s) (itable s) x (fkm s) (fum s) (msgs s).
Definition set_fmem (k : mem) (m : M) (s : fss) : fss :=
  mkFss (sb s) (itable s) (lower s) k m (msgs s).
Definition add_msg (x : string) (s : fss) : fss :=
  mkFss (sb s) (itable s) (lower s) (fkm s) (fum s) (msgs s ++ [x]).

(** The monad. *)
Definition FS (A : Type) : Type := fss → res (A * fss).
#[global] Instance fs_ret : MRet FS := λ A a s, Ok (a, s).
#[global] Instance fs_bind : MBind FS := λ A B f m s, '(a, s) ← m s; f a s.

Definition getf {A} (g : fss → A) : FS A := λ s, Ok (g s, s).
Definition modf (g : fss → fss) : FS unit := λ s, Ok (tt, g s).
Definition fpanic {A} (m : string) : FS A := λ _, Panic m.
Definition hang {A} : FS A := λ _, NoFuel.
Definition fprintf (m : string) : FS unit := modf (add_msg m).

Definition low {A} (f : S → res (A * S)) : FS A :=
  λ s, '(a, x) ← f (lower s); Ok (a, set_lower x s).
Definition low_ (f : S → res S) : FS unit :=
  λ s, x ← f (lower s); Ok (tt, set_lower x s).

Definition bread (dev b : Z) : FS nat := low (bf_read dev b).
Definition bdata (h : nat) : FS block := getf (λ s, bf_data h (lower s)).
Definition bstore (h : nat) (d : block) : FS unit := modf (λ s, set_lower (bf_store h d (lower s)) s).
Definition log_write (h : nat) : FS unit := low_ (bf_log h).
Definition brelse (h : nat) : FS unit := low_ (bf_rel h).
Definition begin_op : FS unit := low_ tx_begin.
Definition end_op : FS unit := low_ tx_end.

(** *** Blocks *)
Definition readsb (dev : Z) : FS superblock :=
  bp ← bread dev 1;
  d ← bdata bp;
  _ ← brelse bp;
  mret (get_sb d).

Definition bzero (dev bno : Z) : FS unit :=
  bp ← bread dev bno;
  d ← bdata bp;
  _ ← bstore bp (splice d 0 (replicate (Z.to_nat BSIZE) 0));
  _ ← log_write bp;
  brelse bp.

Definition BBLOCK (b : Z) (x : superblock) : Z := b / BPB + sb_bmapstart x.
Definition IBLOCK (i : Z) (x : superblock) : Z := i / IPB + sb_inodestart x.

(** [bp->data[bi/8] & (1 << (bi % 8))], and the byte with the bit set or cleared. *)
Definition bit_set (d : block) (bi : Z) : bool :=
  negb (Z.land (aget d (bi / 8)) (Z.shiftl 1 (bi mod 8)) =? 0).
Definition mark_bit (d : block) (bi : Z) : block :=
  splice d (bi / 8) [Z.lor (aget d (bi / 8)) (Z.shiftl 1 (bi mod 8))].
Definition clear_bit (d : block) (bi : Z) : block :=
  splice d (bi / 8) [Z.land (aget d (bi / 8)) (Z.lnot (Z.shiftl 1 (bi mod 8)))].

(** The inner loop of [balloc] up to a free block: [n] turns are left. *)
Fixpoint balloc_scan (n : nat) (d : block) (b bi size : Z) : option Z :=
  match n with
  | O => None
  | Datatypes.S n' =>
      if b + bi <? size then
        if bit_set d bi then balloc_scan n' d b (bi + 1) size else Some bi
      else None
  end.

Fixpoint balloc_loop (fuel : nat) (dev b : Z) : FS Z :=
  x ← getf sb;
  if b <? sb_size x then
    match fuel with
    | O => hang
    | Datatypes.S f =>
        bp ← bread dev (BBLOCK b x);
        d ← bdata bp;
        match balloc_scan (Z.to_nat BPB) d b 0 (sb_size x) with
        | Some bi =>
            _ ← bstore bp (mark_bit d bi);
            _ ← log_write bp;
            _ ← brelse bp;
            _ ← bzero dev (b + bi);
            mret (b + bi)
        | None => _ ← brelse bp; balloc_loop f dev (b + BPB)
        end
    end
  else _ ← fprintf "balloc: out of blocks"; mret 0.

Definition balloc (dev : Z) : FS Z :=
  x ← getf sb; balloc_loop (Z.to_nat (sb_size x / BPB + 1)) dev 0.

Definition bfree (dev b : Z) : FS unit :=
  x ← getf sb;
  bp ← bread dev (BBLOCK b x);
  d ← bdata bp;
  let bi := b mod BPB in
  if negb (bit_set d bi) then fpanic "freeing free block"
  else
    _ ← bstore bp (clear_bit d bi);
    _ ← log_write bp;
    brelse bp.

(** *** The inode table *)

(** A pointer into the table that is out of range does not occur in C. *)
Definition iat (i : nat) : FS inode :=
  t ← getf itable;
  match t !! i with Some ip => mret ip | None => fpanic "inode index" end.
Definition iset (i : nat) (ip : inode) : FS unit := modf (λ s, set_itable (<[i := ip]> (itable s)) s).

Fixpoint iget_scan (dev inum : Z) (t : list inode) (i : nat) (empty : option nat) : nat + option nat :=
  match t with
  | [] => inr empty
  | ip :: t' =>
      if (0 <? i_ref ip) && (i_dev ip =? dev) && (i_inum ip =? inum) then inl i
      else iget_scan dev inum t' (Datatypes.S i)
             match empty with
             | None => if i_ref ip =? 0 then Some i else None
             | Some _ => empty
             end
  end.

Definition iget (dev inum : Z) : FS nat :=
  t ← getf itable;
  match iget_scan dev inum t 0 None with
  | inl i => ip ← iat i; _ ← iset i (set_i_ref (i32 (i_ref ip + 1)) ip); mret i
  | inr None => fpanic "iget: no inodes"
  | inr (Some i) =>
      ip ← iat i;
      _ ← iset i (mkInode dev inum 1 (i_lock ip) false (i_type ip) (i_major ip) (i_minor ip)
                    (i_nlink ip) (i_size ip) (i_addrs ip));
      mret i
  end.

(** [iinit]: the sleep locks of all entries start free. *)
Definition iinit : FS unit := modf (λ s, set_itable (set_i_lock false <$> itable s) s).

Definition idup (i : nat) : FS nat :=
  ip ← iat i; _ ← iset i (set_i_ref (i32 (i_ref ip + 1)) ip); mret i.

Definition iupdate (i : nat) : FS unit :=
  ip ← iat i;
  x ← getf sb;
  bp ← bread (i_dev ip) (IBLOCK (i_inum ip) x);
  d ← bdata bp;
  _ ← bstore bp (put_dinode d (i_inum ip mod IPB * DINODE) ip);
  _ ← log_write bp;
  brelse bp.

(** [ilock]; a lock that is already held is never released by this process. *)
Definition ilock (o : option nat) : FS unit :=
  match o with
  | None => fpanic "ilock"
  | Some i =>
      ip ← iat i;
      if i_ref ip <? 1 then fpanic "ilock"
      else if i_lock ip then hang
      else
        let ip := set_i_lock true ip in
        _ ← iset i ip;
        if i_valid ip then mret tt
        else
          x ← getf sb;
          bp ← bread (i_dev ip) (IBLOCK (i_inum ip) x);
          d ← bdata bp;
          let ip := get_dinode d (i_inum ip mod IPB * DINODE) ip in
          _ ← iset i ip;
          _ ← brelse bp;
          let ip := set_i_valid true ip in
          _ ← iset i ip;
          if i_type ip =? 0 then fpanic "ilock: no type" else mret tt
  end.

Definition iunlock (o : option nat) : FS unit :=
  match o with
  | None => fpanic "iunlock"
  | Some i =>
      ip ← iat i;
      if negb (i_lock ip) || (i_ref ip <? 1) then fpanic "iunlock"
      else iset i (set_i_lock false ip)
  end.

Fixpoint ialloc_loop (fuel : nat) (dev type inum : Z) : FS (option nat) :=
  x ← getf sb;
  if inum <? sb_ninodes x then
    match fuel with
    | O => hang
    | Datatypes.S f =>
        bp ← bread dev (IBLOCK inum x);
        d ← bdata bp;
        let o := inum mod IPB * DINODE in
        if getu16 d o =? 0 then
          _ ← bstore bp (put16 (splice d o (replicate (Z.to_nat DINODE) 0)) o type);
          _ ← log_write bp;
          _ ← brelse bp;
          i ← iget dev inum;
          mret (Some i)
        else _ ← brelse bp; ialloc_loop f dev type (inum + 1)
    end
  else _ ← fprintf "ialloc: no inodes"; mret None.

Definition ialloc (dev type : Z) : FS (option nat) :=
  x ← getf sb; ialloc_loop (Z.to_nat (sb_ninodes x)) dev type 1.

(** *** Content *)
Definition bmap (i : nat) (bn : Z) : FS Z :=
  ip ← iat i;
  if bn <? NDIRECT then
    let addr := aget (i_addrs ip) bn in
    if addr =? 0 then
      addr ← balloc (i_dev ip);
      if addr =? 0 then mret 0
      else
        _ ← iset i (set_i_addrs (<[Z.to_nat bn := addr]> (i_addrs ip)) ip);
        mret addr
    else mret addr
  else
    let bn := u32 (bn - NDIRECT) in
    if bn <? NINDIRECT then
      let addr := aget (i_addrs ip) NDIRECT in
      addr ← (if addr =? 0 then
                addr ← balloc (i_dev ip);
                _ ← (if addr =? 0 then mret tt
                     else iset i (set_i_addrs (<[Z.to_nat NDIRECT := addr]> (i_addrs ip)) ip));
                mret addr
              else mret addr);
      if addr =? 0 then mret 0
      else
        bp ← bread (i_dev ip) addr;
        a ← bdata bp;
        let addr := getu32 a (4 * bn) in
        addr ← (if addr =? 0 then
                  addr ← balloc (i_dev ip);
                  _ ← (if negb (addr =? 0) then
                         _ ← bstore bp (put32 a (4 * bn) addr);
                         log_write bp
                       else mret tt);
                  mret addr
                else mret addr);
        _ ← brelse bp;
        mret addr
    else fpanic "bmap: out of range".

(** The two loops of [itrunc]. *)
Fixpoint itrunc_direct (n : nat) (i : nat) (k : Z) : FS unit :=
  match n with
  | O => mret tt
  | Datatypes.S n' =>
      ip ← iat i;
      let a := aget (i_addrs ip) k in
      _ ← (if negb (a =? 0) then
             _ ← bfree (i_dev ip) a;
             iset i (set_i_addrs (<[Z.to_nat k := 0]> (i_addrs ip)) ip)
           else mret tt);
      itrunc_direct n' i (k + 1)
  end.

Fixpoint itrunc_indirect (n : nat) (dev : Z) (bp : nat) (j : Z) : FS unit :=
  match n with
  | O => mret tt
  | Datatypes.S n' =>
      a ← bdata bp;
      _ ← (if negb (getu32 a (4 * j) =? 0) then bfree dev (getu32 a (4 * j)) else mret tt);
      itrunc_indirect n' dev bp (j + 1)
  end.

Definition itrunc (i : nat) : FS unit :=
  _ ← itrunc_direct (Z.to_nat NDIRECT) i 0;
  ip ← iat i;
  let a := aget (i_addrs ip) NDIRECT in
  _ ← (if negb (a =? 0) then
         bp ← bread (i_dev ip) a;
         _ ← itrunc_indirect (Z.to_nat NINDIRECT) (i_dev ip) bp 0;
         _ ← brelse bp;
         _ ← bfree (i_dev ip) a;
         iset i (set_i_addrs (<[Z.to_nat NDIRECT := 0]> (i_addrs ip)) ip)
       else mret tt);
  ip ← iat i;
  _ ← iset i (set_i_size 0 ip);
  iupdate i.

Definition iput (i : nat) : FS unit :=
  ip ← iat i;
  _ ← (if (i_ref ip =? 1) && i_valid ip && (i_nlink ip =? 0) then
         if i_lock ip then hang
         else
           _ ← iset i (set_i_lock true ip);
           _ ← itrunc i;
           ip ← iat i;
           _ ← iset i (set_i_type 0 ip);
           _ ← iupdate i;
           ip ← iat i;
           iset i (set_i_lock false (set_i_valid false ip))
       else mret tt);
  ip ← iat i;
  iset i (set_i_ref (i32 (i_ref ip - 1)) ip).

Definition iunlockput (i : nat) : FS unit := _ ← iunlock (Some i); iput i.

Definition fs_stati (i : nat) : FS (Z * Z * Z * Z * Z) :=
  ip ← iat i; mret (i_dev ip, i_inum ip, i_type ip, i_nlink ip, i_size ip).

(** The loop of [readi]: [tot] bytes done. *)
Fixpoint readi_loop (fuel : nat) (i : nat) (user_dst dst off n tot : Z) : FS Z :=
  if tot <? n then
    match fuel with
    | O => hang
    | Datatypes.S f =>
        addr ← bmap i (off / BSIZE);
        if addr =? 0 then mret tot
        else
          ip ← iat i;
          bp ← bread (i_dev ip) addr;
          d ← bdata bp;
          let m := Z.min (u32 (n - tot)) (u32 (BSIZE - off mod BSIZE)) in
          k ← getf fkm;
          um ← getf fum;
          let '(k, um, r) := either_copyout user_dst dst (slice d (off mod BSIZE) m) k um in
          _ ← modf (set_fmem k um);
          _ ← brelse bp;
          if r =? -1 then mret (-1)
          else readi_loop f i user_dst (u64 (dst + m)) (u32 (off + m)) n (u32 (tot + m))
    end
  else mret tot.

Definition readi (i : nat) (user_dst dst off n : Z) : FS Z :=
  ip ← iat i;
  if (i_size ip <? off) || (u32 (off + n) <? off) then mret 0
  else
    let n := if i_size ip <? u32 (off + n) then u32 (i_size ip - off) else n in
    r ← readi_loop (Z.to_nat (n / BSIZE + 2)) i user_dst dst off n 0;
    mret (i32 r).

(** The loop of [writei]: [tot] bytes done; the final [off] and [tot]. A failed
    copy has already stored its first bytes in the buffer. *)
Fixpoint writei_loop (fuel : nat) (i : nat) (user_src src off n tot : Z) : FS (Z * Z) :=
  if tot <? n then
    match fuel with
    | O => hang
    | Datatypes.S f =>
        addr ← bmap i (off / BSIZE);
        if addr =? 0 then mret (off, tot)
        else
          ip ← iat i;
          bp ← bread (i_dev ip) addr;
          d ← bdata bp;
          let m := Z.min (u32 (n - tot)) (u32 (BSIZE - off mod BSIZE)) in
          k ← getf fkm;
          um ← getf fum;
          let '(um, r, bs) := either_copyin user_src src m k um in
          _ ← modf (set_fmem k um);
          _ ← bstore bp (splice d (off mod BSIZE) bs);
          if r =? -1 then _ ← brelse bp; mret (off, tot)
          else
            _ ← log_write bp;
            _ ← brelse bp;
            writei_loop f i user_src (u64 (src + m)) (u32 (off + m)) n (u32 (tot + m))
    end
  else mret (off, tot).

Definition writei (i : nat) (user_src src off n : Z) : FS Z :=
  ip ← iat i;
  if (i_size ip <? off) || (u32 (off + n) <? off) then mret (-1)
  else if MAXFILE * BSIZE <? u32 (off + n) then mret (-1)
  else
    '(off, tot) ← writei_loop (Z.to_nat (n / BSIZE + 2)) i user_src src off n 0;
    ip ← iat i;
    _ ← iset i (if i_size ip <? off then set_i_size off ip else ip);
    _ ← iupdate i;
    mret (i32 tot).

(** *** fsinit *)
Fixpoint ireclaim_loop (fuel : nat) (dev inum : Z) : FS unit :=
  x ← getf sb;
  if inum <? sb_ninodes x then
    match fuel with
    | O => hang
    | Datatypes.S f =>
        bp ← bread dev (IBLOCK inum x);
        d ← bdata bp;
        let o := inum mod IPB * DINODE in
        ip ← (if negb (getu16 d o =? 0) && (getu16 d (o + 6) =? 0)
              then _ ← fprintf "ireclaim: orphaned inode"; i ← iget dev inum; mret (Some i)
              else mret None);
        _ ← brelse bp;
        _ ← match ip with
            | Some i =>
                _ ← begin_op;
                _ ← ilock (Some i);
                _ ← iunlock (Some i);
                _ ← iput i;
                end_op
            | None => mret tt
            end;
        ireclaim_loop f dev (inum + 1)
    end
  else mret tt.

Definition ireclaim (dev : Z) : FS unit :=
  x ← getf sb; ireclaim_loop (Z.to_nat (sb_ninodes x)) dev 1.

Definition fsinit (dev : Z) : FS unit :=
  x ← readsb dev;
  _ ← modf (set_sb x);
  if negb (sb_magic x =? FSMAGIC) then fpanic "invalid file system"
  else
    _ ← low_ (log_init dev (sb_logstart x));
    ireclaim dev.
End fs.
Arguments fss S M : clear implicits.
