(* ===== verification/FsLaws.v ===== *)
(** * Reasoning rules for the file system, and the block allocator

    [fsat m s Q]: from [s] the computation [m] ends in a value and a state that
    satisfy [Q], or in one of the panics [P]; it never hangs.  [frep s v h]: the
    cache reads as the blocks [v], every change is logged, and the caller holds
    the buffers [h].  The rules read, rewrite and allocate blocks; [balloc] and
    [bfree] are specified by the bitmap bit of a block, [used]. *)
From S2P Require Import Prelude Riscv Bio Log LogSpec Buf Proc UserMem Mem Uart Printf Console Fs.

(** [mlia] on the sizes of a block. *)
Ltac blia := unfold BPB, BSIZE, IPB, DINODE, zlen in *; mlia.

(** Bits of a byte. *)
Lemma bit_set_testbit d bi : bit_set d bi = Z.testbit (aget d (bi / 8)) (bi mod 8).
Proof.
  unfold bit_set. set (x := aget d (bi / 8)). assert (∃ k, k = bi mod 8) as [k Hk0] by eauto. rewrite <-Hk0.
  assert (0 <= k) as Hk by mlia.
  rewrite Z.shiftl_1_l. destruct (Z.testbit x k) eqn:Hx.
  - apply negb_true_iff, Z.eqb_neq. intros Hz.
    assert (Z.testbit (Z.land x (2 ^ k)) k = true) as Ht.
    { rewrite Z.land_spec, Hx, Z.pow2_bits_true by lia. done. }
    by rewrite Hz, Z.bits_0 in Ht.
  - apply negb_false_iff, Z.eqb_eq, Z.bits_inj'. intros n Hn.
    rewrite Z.land_spec, Z.bits_0. destruct (decide (n = k)) as [->|]; [by rewrite Hx|].
    rewrite Z.pow2_bits_false by lia. apply andb_false_r.
Qed.

Lemma aget_splice1 d k x j :
  0 <= k < zlen d → 0 <= j → aget (splice d k [x]) j = if k =? j then x else aget d j.
Proof.
  intros. rewrite splice_aget by (unfold zlen in *; simpl; lia).
  change (zlen [x]) with 1.
  destruct (Z.eqb_spec k j) as [Hkj|Hkj].
  - subst j. rewrite Z.leb_refl, (proj2 (Z.ltb_lt k (k + 1))), Z.sub_diag by lia. done.
  - destruct (Z.leb_spec k j); destruct (Z.ltb_spec j (k + 1)); simpl; [lia|done..].
Qed.

Lemma bit_idx_ne bi bj : 0 <= bi → 0 <= bj → bi ≠ bj → bi / 8 = bj / 8 → bi mod 8 ≠ bj mod 8.
Proof. intros. mlia. Qed.

Lemma mark_bit_spec d bi bj :
  0 <= bi < 8 * zlen d → 0 <= bj → bit_set (mark_bit d bi) bj = (bi =? bj) || bit_set d bj.
Proof.
  intros Hi Hj. rewrite !bit_set_testbit. unfold mark_bit.
  rewrite aget_splice1 by mlia.
  destruct (Z.eqb_spec (bi / 8) (bj / 8)) as [He|He].
  - rewrite He, Z.lor_spec, Z.shiftl_1_l, Z.pow2_bits_eqb by mlia. rewrite orb_comm. f_equal.
    destruct (Z.eqb_spec bi bj) as [->|]; [by rewrite Z.eqb_refl|].
    apply Z.eqb_neq, bit_idx_ne; lia.
  - destruct (Z.eqb_spec bi bj); [congruence|done].
Qed.

Lemma clear_bit_spec d bi bj :
  0 <= bi < 8 * zlen d → 0 <= bj → bit_set (clear_bit d bi) bj = negb (bi =? bj) && bit_set d bj.
Proof.
  intros Hi Hj. rewrite !bit_set_testbit. unfold clear_bit.
  rewrite aget_splice1 by mlia.
  destruct (Z.eqb_spec (bi / 8) (bj / 8)) as [He|He].
  - rewrite He, Z.land_spec, Z.lnot_spec, Z.shiftl_1_l, Z.pow2_bits_eqb by mlia.
    rewrite andb_comm. do 2 f_equal.
    destruct (Z.eqb_spec bi bj) as [->|]; [by rewrite Z.eqb_refl|].
    apply Z.eqb_neq, bit_idx_ne; lia.
  - destruct (Z.eqb_spec bi bj); [congruence|done].
Qed.

Lemma mark_bit_len d bi : 0 <= bi < 8 * zlen d → length (mark_bit d bi) = length d.
Proof.
  intros. assert (zlen (mark_bit d bi) = zlen d); [|unfold zlen in *; lia].
  apply splice_length; unfold zlen in *; simpl; mlia.
Qed.
Lemma clear_bit_len d bi : 0 <= bi < 8 * zlen d → length (clear_bit d bi) = length d.
Proof.
  intros. assert (zlen (clear_bit d bi) = zlen d); [|unfold zlen in *; lia].
  apply splice_length; unfold zlen in *; simpl; mlia.
Qed.

(** [balloc_scan] finds the first free bit below the bounds. *)
Lemma balloc_scan_spec n d b : ∀ bi size,
  match balloc_scan n d b bi size with
  | Some k => bi <= k < bi + Z.of_nat n ∧ b + k < size ∧ bit_set d k = false ∧
      (∀ j, bi <= j < k → bit_set d j = true)
  | None => ∀ j, bi <= j < bi + Z.of_nat n → b + j < size → bit_set d j = true
  end.
Proof.
  induction n as [|n IH]; intros bi size; simpl; [lia|].
  destruct (Z.ltb_spec (b + bi) size); [|intros; lia].
  destruct (bit_set d bi) eqn:Hb.
  - specialize (IH (bi + 1) size). destruct (balloc_scan n d b (bi + 1) size) as [k|].
    + destruct IH as (?&?&?&Hj). split_and!; [lia|lia|done|done|].
      intros j ?. destruct (decide (j = bi)) as [->|]; [done|]. apply Hj. lia.
    + intros j ??. destruct (decide (j = bi)) as [->|]; [done|]. apply IH; lia.
  - split_and!; [lia|lia|done|done|]. intros; lia.
Qed.

Section fslaws.
Context {S : Type} `{BufLaws S} {M : Type} `{UserMem M}.
Abbreviation st := (fss S M).
Abbreviation FSM := (@FS S M).

Definition fsat {A} (P : string → Prop) (m : FSM A) (s : st) (Q : A → st → Prop) : Prop :=
  outcome P (λ r, Q r.1 r.2) (m s).

Definition frep (s : st) (v : dview) (h : gmap nat Z) : Prop := brep (lower s) v ∅ h.

Context (P : string → Prop) (HP : ∀ m, io_panic m → P m).

Lemma fsat_bind {A B} (m : FSM A) (f : A → FSM B) s Q :
  fsat P m s (λ a s', fsat P (f a) s' Q) → fsat P (m ≫= f) s Q.
Proof. intros Hm. eapply outcome_bind; [exact Hm|]. by intros []. Qed.

Lemma fsat_mono {A} (m : FSM A) s (Q R : A → st → Prop) :
  fsat P m s Q → (∀ a s', Q a s' → R a s') → fsat P m s R.
Proof. intros Hm HQ. eapply outcome_mono; [exact Hm|]. intros []; apply HQ. Qed.

(** Sequencing after a specified computation. *)
Lemma fsat_seq {A B} (m : FSM A) (f : A → FSM B) s Q R :
  fsat P m s Q → (∀ a s', Q a s' → fsat P (f a) s' R) → fsat P (m ≫= f) s R.
Proof. intros Hm HQ. apply fsat_bind. by eapply fsat_mono. Qed.

Lemma fsat_ret {A} (a : A) s (Q : A → st → Prop) : Q a s → fsat P (mret a) s Q.
Proof. done. Qed.

Lemma fsat_getf {A} (g : st → A) s (Q : A → st → Prop) : Q (g s) s → fsat P (getf g) s Q.
Proof. done. Qed.

Lemma fsat_modf (g : st → st) s (Q : unit → st → Prop) : Q tt (g s) → fsat P (modf g) s Q.
Proof. done. Qed.

Lemma fsat_panic {A} m s (Q : A → st → Prop) : P m → fsat P (fpanic m) s Q.
Proof. done. Qed.

(** *** Buffers *)
Lemma fsat_bread s v h b (Q : nat → st → Prop) :
  frep s v h → (∀ i, h !! i ≠ Some b) →
  (∀ i x, h !! i = None → brep x v ∅ (<[i := b]> h) → Q i (set_lower x s)) →
  fsat P (bread ROOTDEV b) s Q.
Proof using HP.
  intros Hs Hb HQ. pose proof (bf_read_spec _ _ _ _ _ Hs Hb) as Ho.
  unfold fsat, bread, low. destruct (bf_read _ _ _) as [[i x]|m|]; simpl in *; [|auto|done].
  destruct Ho. by apply HQ.
Qed.

Lemma fsat_bdata s v d h i b (Q : block → st → Prop) :
  brep (lower s) v d h → h !! i = Some b → Q (v b) s → fsat P (bdata i) s Q.
Proof. intros Hs Hi HQ. unfold fsat, bdata. simpl. by rewrite (bf_data_spec _ _ _ _ _ _ Hs Hi). Qed.

(** Store the content [x], log it and release the buffer. *)
Lemma fsat_commit {B} s v h i b x (k : FSM B) (Q : B → st → Prop) :
  h !! i = None → brep (lower s) v ∅ (<[i := b]> h) → in_log b = false → length x = Z.to_nat BSIZE →
  (∀ y, brep y (vset b x v) ∅ h → fsat P k (set_lower y s) Q) →
  fsat P (_ ← bstore i x; _ ← log_write i; _ ← brelse i; k) s Q.
Proof using HP.
  intros Hi Hs Hl Hx Hk. pose proof (lookup_insert_eq h i b) as Hib.
  unfold fsat, bstore, log_write, brelse, low_, modf, mbind, fs_bind. simpl.
  pose proof (bf_store_spec _ _ _ _ _ _ x Hs Hib Hx) as Hs1.
  pose proof (bf_log_spec _ _ _ _ _ _ Hs1 Hib Hl) as Ho.
  destruct (bf_log i _) as [y|m|]; simpl in *; [|auto|done].
  replace (({[b]} ∪ ∅) ∖ {[b]} : gset Z) with (∅ : gset Z) in Ho by set_solver.
  pose proof (bf_rel_spec _ _ _ _ _ _ Ho Hib ltac:(set_solver)) as Hr.
  destruct (bf_rel i _) as [z|m|]; simpl in *; [|auto|done].
  rewrite delete_insert_id in Hr by done. by apply Hk.
Qed.

Lemma fsat_brelse s v h i b (Q : unit → st → Prop) :
  h !! i = None → brep (lower s) v ∅ (<[i := b]> h) →
  (∀ y, brep y v ∅ h → Q tt (set_lower y s)) → fsat P (brelse i) s Q.
Proof using HP.
  intros Hi Hs Hk. pose proof (lookup_insert_eq h i b) as Hib.
  pose proof (bf_rel_spec _ _ _ _ _ _ Hs Hib ltac:(set_solver)) as Hr.
  unfold fsat, brelse, low_. destruct (bf_rel i _) as [z|m|]; simpl in *; [|auto|done].
  rewrite delete_insert_id in Hr by done. by apply Hk.
Qed.

(** Store and log, keeping the buffer. *)
Lemma fsat_store s v h i b x (Q : unit → st → Prop) :
  h !! i = Some b → brep (lower s) v ∅ h → in_log b = false → length x = Z.to_nat BSIZE →
  (∀ y, brep y (vset b x v) ∅ h → Q tt (set_lower y s)) →
  fsat P (_ ← bstore i x; log_write i) s Q.
Proof using HP.
  intros Hi Hs Hl Hx Hk. unfold fsat, bstore, log_write, low_, modf, mbind, fs_bind. simpl.
  pose proof (bf_store_spec _ _ _ _ _ _ x Hs Hi Hx) as Hs1.
  pose proof (bf_log_spec _ _ _ _ _ _ Hs1 Hi Hl) as Ho.
  destruct (bf_log i _) as [y|m|]; simpl in *; [|auto|done].
  replace (({[b]} ∪ ∅) ∖ {[b]} : gset Z) with (∅ : gset Z) in Ho by set_solver. by apply Hk.
Qed.

(** Store the content the buffer has. *)
Lemma fsat_store_same s v h i b (Q : unit → st → Prop) :
  h !! i = Some b → brep (lower s) v ∅ h → (∀ y, brep y v ∅ h → Q tt (set_lower y s)) →
  fsat P (bstore i (v b)) s Q.
Proof. intros Hi Hs HQ. apply fsat_modf, HQ. by apply bf_store_same. Qed.

Lemma fsat_ret_r {A} (m : FSM A) s Q : fsat P (m ≫= mret) s Q → fsat P m s Q.
Proof. unfold fsat, mbind, fs_bind, mret, fs_ret. by destruct (m s) as [[]| |]. Qed.

Lemma fsat_commit_end s v h i b x (Q : unit → st → Prop) :
  h !! i = None → brep (lower s) v ∅ (<[i := b]> h) → in_log b = false → length x = Z.to_nat BSIZE →
  (∀ y, brep y (vset b x v) ∅ h → Q tt (set_lower y s)) →
  fsat P (_ ← bstore i x; _ ← log_write i; brelse i) s Q.
Proof using HP.
  intros Hi Hs Hl Hx Hk. pose proof (fsat_commit s v h i b x (mret tt) Q Hi Hs Hl Hx Hk) as Hc.
  unfold fsat, mbind, fs_bind, mret, fs_ret in *. revert Hc.
  destruct (bstore i x s) as [[u s1]| |]; simpl; [|done..].
  destruct (log_write i s1) as [[u2 s2]| |]; simpl; [|done..].
  by destruct (brelse i s2) as [[[] s3]| |].
Qed.

End fslaws.

(** Symbolic execution: read a block the caller does not hold, look at the data
    of a held buffer, commit new data, release a buffer. *)
Ltac fs_read Hs Hh :=
  apply fsat_bind; eapply fsat_bread; [assumption..|exact Hs|exact Hh|].
Ltac fs_data Hx :=
  apply fsat_bind; eapply fsat_bdata; [exact Hx|by rewrite lookup_insert_eq|].
Ltac fs_commit Hi Hx :=
  first [eapply fsat_commit | eapply fsat_commit_end]; [assumption..|exact Hi|exact Hx|eauto| |].
Ltac fs_rel Hi Hx :=
  apply fsat_bind; eapply fsat_brelse; [assumption..|exact Hi|exact Hx|].
Ltac fs_get := apply fsat_bind, fsat_getf.

Section balloc.
Context {S : Type} `{BufLaws S} {M : Type} `{UserMem M}.
Abbreviation st := (fss S M).
Abbreviation FSM := (@FS S M).
Context (P : string → Prop) (HP : ∀ m, io_panic m → P m).

(** *** The block allocator *)
Lemma zero_block_len : length zero_block = Z.to_nat BSIZE.
Proof. apply length_replicate. Qed.

Lemma fsat_bzero (s : st) v h b (Q : unit → st → Prop) :
  frep s v h → (∀ i, h !! i ≠ Some b) → in_log b = false →
  (∀ y, brep y (vset b zero_block v) ∅ h → Q tt (set_lower y s)) →
  fsat P (bzero ROOTDEV b) s Q.
Proof using HP.
  intros Hs Hb Hl HQ. unfold bzero. fs_read Hs Hb.
  intros i x Hi Hx. fs_data Hx.
  pose proof (brep_len _ _ _ _ b Hx) as Hlen.
  replace (splice (v b) 0 _) with zero_block.
  - fs_commit Hi Hx; [apply zero_block_len|done].
  - unfold splice, zero_block. rewrite length_replicate, (drop_ge (v b)) by lia.
    change (Z.to_nat 0) with 0%nat. by rewrite take_0, app_nil_l, app_nil_r.
Qed.

(** The bitmap bit of block [b]. *)
Definition used (x : superblock) (v : dview) (b : Z) : bool :=
  bit_set (v (BBLOCK b x)) (b mod BPB).

(** The blocks after [a] is allocated: its bit set, its content zero. *)
Definition allocated (x : superblock) (v : dview) (a : Z) : dview :=
  vset a zero_block (vset (BBLOCK a x) (mark_bit (v (BBLOCK a x)) (a mod BPB)) v).

(** The blocks that [balloc] may use are not held by the caller, nor in the log. *)
Definition usable (h : gmap nat Z) (b : Z) : Prop := (∀ i, h !! i ≠ Some b) ∧ in_log b = false.
Definition alloc_ready (x : superblock) (v : dview) (h : gmap nat Z) : Prop :=
  ∀ b, 0 <= b < sb_size x → usable h (BBLOCK b x) ∧ (used x v b = false → usable h b).

Definition balloc_post (s : st) (v : dview) (h : gmap nat Z) (a : Z) (s' : st) : Prop :=
  (∃ y, 0 <= a < sb_size (sb s) ∧ used (sb s) v a = false ∧
     (∀ b, 0 <= b < a → used (sb s) v b = true) ∧
     s' = set_lower y s ∧ brep y (allocated (sb s) v a) ∅ h) ∨
  (a = 0 ∧ (∀ b, 0 <= b < sb_size (sb s) → used (sb s) v b = true) ∧
     ∃ y, s' = add_msg "balloc: out of blocks" (set_lower y s) ∧ brep y v ∅ h).

Lemma used_at x v k bi : 0 <= bi < BPB → used x v (BPB * k + bi) = bit_set (v (BBLOCK (BPB * k) x)) bi.
Proof.
  intros. unfold used, BBLOCK.
  replace ((BPB * k + bi) / BPB) with (BPB * k / BPB) by blia.
  by replace ((BPB * k + bi) mod BPB) with bi by blia.
Qed.

Lemma balloc_loop_sat (s : st) v h f : ∀ k x,
  brep x v ∅ h → alloc_ready (sb s) v h →
  0 <= k → sb_size (sb s) <= BPB * k + BPB * Z.of_nat f →
  (∀ b, 0 <= b < BPB * k → b < sb_size (sb s) → used (sb s) v b = true) →
  fsat P (balloc_loop f ROOTDEV (BPB * k)) (set_lower x s) (balloc_post s v h).
Proof using HP.
  induction f as [|f IH]; intros k x0 Hs Hr Hk Hf Hu;
    cbn [balloc_loop]; apply fsat_bind, fsat_getf; cbn [sb set_lower];
    (destruct (Z.ltb_spec (BPB * k) (sb_size (sb s))); [try lia|]).
  1,3: right; split_and!; [done|intros b Hb; apply Hu; lia|by exists x0].
  pose proof (Hr (BPB * k) ltac:(blia)) as [[Hh Hlg] _].
  fs_read Hs Hh.
  intros i x Hi Hx. fs_data Hx.
  pose proof (balloc_scan_spec (Z.to_nat BPB) (v (BBLOCK (BPB * k) (sb s))) (BPB * k) 0 (sb_size (sb s)))
    as Hscan.
  pose proof (brep_len _ _ _ _ (BBLOCK (BPB * k) (sb s)) Hx) as Hlen.
  rewrite Z2Nat.id in Hscan by (unfold BPB, BSIZE; lia).
  destruct (balloc_scan _ _ _ _ _) as [bi|].
  - destruct Hscan as (Hbi & Hsz & Hfree & Hbelow).
    pose proof (used_at (sb s) v k bi ltac:(lia)) as Hub. rewrite Hfree in Hub.
    assert (BBLOCK (BPB * k + bi) (sb s) = BBLOCK (BPB * k) (sb s)) as Hbb
      by (unfold BBLOCK; f_equal; blia).
    assert ((BPB * k + bi) mod BPB = bi) as Hmod by blia.
    fs_commit Hi Hx;
      [rewrite mark_bit_len; [done|unfold zlen, BPB in *; rewrite Hlen, Z2Nat.id by done; lia]|].
    intros y Hy. apply fsat_bind. eapply fsat_bzero; [exact Hy|apply Hr; [blia|done]..|].
    intros z Hz. apply fsat_ret. left. exists z. unfold allocated.
    rewrite Hbb, Hmod. split_and!; [blia|done|done| |done|done].
    intros b Hb. destruct (decide (b < BPB * k)); [apply Hu; lia|].
    replace b with (BPB * k + (b - BPB * k)) by lia. rewrite used_at by lia. apply Hbelow. lia.
  - fs_rel Hi Hx. intros y Hy.
    replace (BPB * k + BPB) with (BPB * (k + 1)) by lia.
    apply (IH (k + 1) y Hy Hr); [lia|lia|].
    intros b Hb Hsz. destruct (decide (b < BPB * k)); [apply Hu; lia|].
    replace b with (BPB * k + (b - BPB * k)) by lia. rewrite used_at by lia. apply Hscan; lia.
Qed.

Lemma balloc_sat (s : st) v h :
  frep s v h → alloc_ready (sb s) v h →
  fsat P (balloc ROOTDEV) s (balloc_post s v h).
Proof using HP.
  intros Hs Hr. unfold balloc. apply fsat_bind, fsat_getf.
  replace s with (set_lower (lower s) s) at 2 by by destruct s.
  apply (balloc_loop_sat s v h _ 0 (lower s) Hs Hr); [lia| |lia].
  destruct (Z.le_gt_cases (sb_size (sb s)) 0); blia.
Qed.

(** [bfree]: the bit cleared, or the panic on a block that is already free. *)
Definition freed (x : superblock) (v : dview) (b : Z) : dview :=
  vset (BBLOCK b x) (clear_bit (v (BBLOCK b x)) (b mod BPB)) v.

Lemma bfree_sat (s : st) v h b :
  frep s v h → usable h (BBLOCK b (sb s)) → used (sb s) v b = true →
  fsat P (bfree ROOTDEV b) s (λ _ s', ∃ y, s' = set_lower y s ∧ brep y (freed (sb s) v b) ∅ h).
Proof using HP.
  intros Hs [Hh Hlg] Hu. unfold bfree. apply fsat_bind, fsat_getf.
  fs_read Hs Hh.
  intros i x Hi Hx.
  fs_data Hx.
  unfold used in Hu. rewrite Hu. simpl.
  pose proof (brep_len _ _ _ _ (BBLOCK b (sb s)) Hx) as Hlen.
  fs_commit Hi Hx.
  - rewrite clear_bit_len; [done|]. blia.
  - intros y Hy. eauto.
Qed.

Lemma bfree_free (s : st) v h b :
  frep s v h → (∀ i, h !! i ≠ Some (BBLOCK b (sb s))) → used (sb s) v b = false →
  P "freeing free block" → fsat P (bfree ROOTDEV b) s (λ _ _, False).
Proof using HP.
  intros Hs Hh Hu Hp. unfold bfree. apply fsat_bind, fsat_getf.
  fs_read Hs Hh.
  intros i x Hi Hx.
  fs_data Hx.
  unfold used in Hu. rewrite Hu. by apply fsat_panic.
Qed.
End balloc.
