(* ===== verification/FsAlloc.v ===== *)
(** * The block allocator against its bitmap, and inodes on disk

    [balloc] and [bfree] as operations on the set of blocks in use, and the
    round trip of an inode through its [struct dinode]. *)
From S2P Require Import Prelude Riscv Bio Log LogSpec Buf Proc UserMem Mem Uart Printf Console Fs FsLaws.

(** The bits of the bitmap after [balloc] and after [bfree]. *)
Lemma used_mark x v a b :
  (∀ c, length (v c) = Z.to_nat BSIZE) → 0 <= a → 0 <= b →
  used x (vset (BBLOCK a x) (mark_bit (v (BBLOCK a x)) (a mod BPB)) v) b = used x v b || (b =? a).
Proof.
  intros Hlen Ha Hb. unfold used. unfold vset at 1. case_decide as He.
  - rewrite He. rewrite mark_bit_spec; [|rewrite <-He; specialize (Hlen (BBLOCK a x)); blia|blia].
    rewrite orb_comm. f_equal.
    assert (a / BPB = b / BPB) by (unfold BBLOCK in He; lia).
    destruct (Z.eqb_spec b a) as [->|]; [by rewrite Z.eqb_refl|]. apply Z.eqb_neq. blia.
  - destruct (Z.eqb_spec b a) as [->|]; [done|]. by rewrite orb_false_r.
Qed.

Lemma used_clear x v a b :
  (∀ c, length (v c) = Z.to_nat BSIZE) → 0 <= a → 0 <= b →
  used x (freed x v a) b = used x v b && negb (b =? a).
Proof.
  intros Hlen Ha Hb. unfold used, freed. unfold vset at 1. case_decide as He.
  - rewrite He. rewrite clear_bit_spec; [|rewrite <-He; specialize (Hlen (BBLOCK a x)); blia|blia].
    rewrite andb_comm. do 2 f_equal.
    assert (a / BPB = b / BPB) by (unfold BBLOCK in He; lia).
    destruct (Z.eqb_spec b a) as [->|]; [by rewrite Z.eqb_refl|]. apply Z.eqb_neq. blia.
  - destruct (Z.eqb_spec b a) as [->|]; [done|]. by rewrite andb_true_r.
Qed.

(** The bitmap's own blocks are in use. *)
Definition bitmap_used (x : superblock) (v : dview) : Prop :=
  ∀ b c, 0 <= b < sb_size x → used x v b = false → 0 <= c < sb_size x → BBLOCK c x ≠ b.

Lemma used_allocated x v a b :
  (∀ c, length (v c) = Z.to_nat BSIZE) → bitmap_used x v → used x v a = false →
  0 <= a < sb_size x → 0 <= b < sb_size x →
  used x (allocated x v a) b = used x v b || (b =? a).
Proof.
  intros Hlen Hbm Hu Ha Hb. rewrite <-used_mark by (try done; lia).
  unfold used, allocated. rewrite vset_ne; [done|].
  intros He. by apply (Hbm a b).
Qed.

(** Block [a] was taken from, or given back to, the free blocks. *)
Definition block_taken (x : superblock) (v v' : dview) (a : Z) : Prop :=
  v' a = zero_block ∧
  (∀ b, 0 <= b < sb_size x → used x v' b = used x v b || (b =? a)) ∧
  (∀ c, c ≠ a → c ≠ BBLOCK a x → v' c = v c).
Definition block_freed (x : superblock) (v v' : dview) (a : Z) : Prop :=
  (∀ b, 0 <= b < sb_size x → used x v' b = used x v b && negb (b =? a)) ∧
  (∀ c, c ≠ BBLOCK a x → v' c = v c).

Section alloc.
Context {S : Type} `{BufLaws S} {M : Type} `{UserMem M}.

(** C25: [balloc] returns the first free block below the size of the file
    system, with its bitmap bit now set, its content zero and every other block
    and bit unchanged, or 0 with everything unchanged when no block is free. It
    never hangs, and panics only when the lower layers do. *)
Theorem balloc_correct (s : fss S M) v h :
  frep s v h → alloc_ready (sb s) v h → bitmap_used (sb s) v →
  fsat io_panic (balloc ROOTDEV) s (λ a s', ∃ v', frep s' v' h ∧
    sb s' = sb s ∧ itable s' = itable s ∧
    (0 <= a < sb_size (sb s) ∧ used (sb s) v a = false ∧
       (∀ b, 0 <= b < a → used (sb s) v b = true) ∧ block_taken (sb s) v v' a
     ∨ a = 0 ∧ (∀ b, 0 <= b < sb_size (sb s) → used (sb s) v b = true) ∧ v' = v)).
Proof.
  intros Hs Hr Hbm. assert (∀ c, length (v c) = Z.to_nat BSIZE) as Hlen by (intros c; by eapply brep_len).
  eapply fsat_mono; [by apply balloc_sat|]. intros a s' [Hok|Hno].
  - destruct Hok as (y & Ha & Hu & Hb & -> & Hy). exists (allocated (sb s) v a).
    split_and!; [done|done|done|]. left. split_and!; [lia|lia|done|done|].
    split_and!; [apply vset_eq| |].
    + intros b Hb'. by apply used_allocated.
    + intros c Hc Hc'. unfold allocated. by rewrite !vset_ne by done.
  - destruct Hno as (-> & Hb & y & -> & Hy). exists v. split_and!; [done..|]. by right.
Qed.

(** [bfree] clears the bit of a block in use and changes nothing else; a
    block that is already free is a panic. *)
Theorem bfree_correct (s : fss S M) v h b :
  frep s v h → 0 <= b < sb_size (sb s) → usable h (BBLOCK b (sb s)) →
  if used (sb s) v b
  then fsat io_panic (bfree ROOTDEV b) s (λ _ s', ∃ v', frep s' v' h ∧
         sb s' = sb s ∧ itable s' = itable s ∧ block_freed (sb s) v v' b)
  else fsat (λ m, io_panic m ∨ m = "freeing free block"%string) (bfree ROOTDEV b) s (λ _ _, False).
Proof.
  intros Hs Hb Hh. assert (∀ c, length (v c) = Z.to_nat BSIZE) as Hlen by (intros c; by eapply brep_len).
  destruct (used (sb s) v b) eqn:Hu.
  - eapply fsat_mono; [by apply bfree_sat|]. intros _ s' (y & -> & Hy).
    exists (freed (sb s) v b). split_and!; [done..|]. split.
    + intros c Hc. by apply used_clear; [|lia|lia].
    + intros c Hc. unfold freed. by rewrite vset_ne by done.
  - destruct Hh. eapply bfree_free; eauto.
Qed.
End alloc.

(** A file system of 20 blocks whose bitmap is block 3; blocks 0 to 11 are used. *)
Module AllocWitness.
Import FlatDisk Flat.
#[local] Existing Instance no_log.
Definition x0 : superblock := mkSB FSMAGIC 20 8 16 0 2 2 3.
Definition d0 : fdisk := mkFD {[3 := splice zero_block 0 [255; 15]]} ∅.
Definition s0 : fss fdisk flat := mkFss x0 [] d0 ∅ (mk 0 []) [].
Definition usedb (k : nat) : bool := used x0 (fd_get d0) (Z.of_nat k).

Lemma bblock16 c : 0 <= c < 20 → BBLOCK c x0 = 3.
Proof. intros. unfold BBLOCK. simpl. rewrite Z.div_small; [done|]. unfold BPB, BSIZE. lia. Qed.

Lemma bitmap0 : bitmap_used x0 (fd_get d0).
Proof.
  intros b c Hb Hu Hc He. simpl in *. rewrite bblock16 in He by lia. subst b.
  revert Hu. by vm_compute.
Qed.

Lemma balloc_correct_witness :
  frep s0 (fd_get d0) ∅ ∧ alloc_ready (sb s0) (fd_get d0) ∅ ∧ bitmap_used (sb s0) (fd_get d0) ∧
  ∃ s', balloc ROOTDEV s0 = Ok (12, s') ∧ ∃ v', frep s' v' ∅ ∧ v' 12 = zero_block.
Proof.
  assert (frep s0 (fd_get d0) ∅) as H1 by done.
  assert (alloc_ready (sb s0) (fd_get d0) ∅) as H2 by done.
  split_and!; [exact H1|exact H2|exact bitmap0|].
  pose proof (balloc_correct s0 (fd_get d0) ∅ H1 H2 bitmap0) as Hb.
  assert (match balloc ROOTDEV s0 with Ok (a, _) => a =? 12 | _ => false end = true) as Ha
    by (by vm_compute).
  unfold fsat, outcome in Hb. revert Ha Hb.
  generalize (balloc ROOTDEV s0) as r. intros [[a s']|m|] Ha Hb; [|done|done].
  apply Z.eqb_eq in Ha. subst a. cbn [fst snd] in Hb.
  exists s'. split; [done|]. destruct Hb as (v' & Hv & _ & _ & [Hc|[Hc _]]); [|done].
  destruct Hc as (_ & _ & _ & Hc & _ & _). by exists v'.
Defined.

Lemma bfree_correct_witness :
  used (sb s0) (fd_get d0) 5 = true ∧
  fsat io_panic (bfree ROOTDEV 5) s0 (λ _ s', ∃ v', frep s' v' ∅ ∧
     sb s' = sb s0 ∧ itable s' = itable s0 ∧ block_freed (sb s0) (fd_get d0) v' 5).
Proof.
  assert (used (sb s0) (fd_get d0) 5 = true) as Hu by (by vm_compute).
  split; [exact Hu|].
  assert (frep s0 (fd_get d0) ∅) as H1 by done.
  assert (0 <= 5 < sb_size (sb s0)) as H2 by (simpl; lia).
  assert (usable ∅ (BBLOCK 5 (sb s0))) as H3 by done.
  pose proof (bfree_correct s0 (fd_get d0) ∅ 5 H1 H2 H3) as Hb.
  rewrite Hu in Hb. exact Hb.
Defined.
End AllocWitness.
