(* ===== verification/Dinode.v ===== *)
(** * The inode on disk

    [put_dinode] and [get_dinode], the copies [iupdate] and [ilock] make: the
    fields survive the round trip and the other inodes of the block are left
    alone; from this, [iupdate] followed by a later [ilock] of the same inode. *)
From S2P Require Import Prelude Riscv Bio Log LogSpec Buf Proc UserMem Mem Uart Printf Console Fs FsLaws.

(** The fields have the widths of C. *)
Definition short_ok (x : Z) : Prop := -32768 <= x < 32768.
Definition inode_ok (ip : inode) : Prop :=
  short_ok (i_type ip) ∧ short_ok (i_major ip) ∧ short_ok (i_minor ip) ∧ short_ok (i_nlink ip) ∧
  0 <= i_size ip < 4294967296 ∧ length (i_addrs ip) = 13%nat ∧
  Forall (λ a, 0 <= a < 4294967296) (i_addrs ip).

Lemma i16_u16 x : short_ok x → i16 (u16 x) = x.
Proof.
  unfold short_ok, i16, u16. intros. rewrite Z.mod_mod by lia.
  destruct (Z.ltb_spec (x mod 65536) 32768); mlia.
Qed.

Lemma i16_range x : short_ok (i16 x).
Proof. unfold short_ok, i16, u16. destruct (Z.ltb_spec (x mod 65536) 32768); mlia. Qed.

Lemma u16_u16 x : u16 (u16 x) = u16 x.
Proof. unfold u16. by rewrite Z.mod_mod. Qed.

(** Bytes of a block after a store. *)
Lemma aget_put16 d off v j :
  0 <= off → off + 2 <= zlen d → 0 <= j →
  aget (put16 d off v) j = if (off <=? j) && (j <? off + 2) then aget (le16 v) (j - off) else aget d j.
Proof. intros. unfold put16. by rewrite splice_aget by (change (zlen (le16 v)) with 2; lia). Qed.

Lemma aget_put32 d off v j :
  0 <= off → off + 4 <= zlen d → 0 <= j →
  aget (put32 d off v) j = if (off <=? j) && (j <? off + 4) then aget (le32 v) (j - off) else aget d j.
Proof. intros. unfold put32. by rewrite splice_aget by (change (zlen (le32 v)) with 4; lia). Qed.

Lemma put16_length d off v : 0 <= off → off + 2 <= zlen d → zlen (put16 d off v) = zlen d.
Proof. intros. unfold put16. rewrite splice_length; [done|lia|change (zlen (le16 v)) with 2; lia]. Qed.

(** Reads depend on their bytes only. *)
Lemma getu16_ext d d' off :
  0 <= off → (∀ j, off <= j < off + 2 → aget d j = aget d' j) → getu16 d off = getu16 d' off.
Proof. intros ? Hj. unfold getu16. by rewrite !Hj by lia. Qed.

Lemma getu32_ext d d' off :
  0 <= off → (∀ j, off <= j < off + 4 → aget d j = aget d' j) → getu32 d off = getu32 d' off.
Proof. intros ? Hj. unfold getu32, get32. by rewrite !Hj by lia. Qed.

Lemma getu16_put16 d off v : 0 <= off → off + 2 <= zlen d → getu16 (put16 d off v) off = u16 v.
Proof.
  intros. unfold getu16. rewrite !aget_put16 by lia.
  rewrite !(proj2 (Z.leb_le _ _)), !(proj2 (Z.ltb_lt _ _)) by lia. simpl.
  replace (off - off) with 0 by lia. replace (off + 1 - off) with 1 by lia.
  unfold le16, aget. simpl. rewrite <-(u16_u16 v) at 3. f_equal. unfold u16. mlia.
Qed.

Lemma u32_i32 x : u32 (i32 x) = u32 x.
Proof.
  unfold i32. pose proof (u32_range x). zcase; [by rewrite u32_idemp|].
  unfold u32 in *. mlia.
Qed.

Lemma getu32_put32 d off v : 0 <= off → off + 4 <= zlen d → getu32 (put32 d off v) off = u32 v.
Proof. intros. unfold getu32. by rewrite get32_put32, u32_i32 by lia. Qed.

Lemma getu32_range d off : 0 <= getu32 d off < 4294967296.
Proof. apply u32_range. Qed.

(** The address array. *)
Lemma put_addrs_spec a : ∀ d off,
  0 <= off → off + 4 * zlen a <= zlen d →
  zlen (put_addrs d off a) = zlen d ∧
  (∀ j, 0 <= j → (j < off ∨ off + 4 * zlen a <= j) → aget (put_addrs d off a) j = aget d j) ∧
  get_addrs (put_addrs d off a) off (length a) = map u32 a.
Proof.
  unfold zlen. induction a as [|x a IH]; intros d off Ho Hl; simpl in *; [done|].
  assert (zlen (put32 d off x) = zlen d) as Hz by (apply put32_length; unfold zlen; lia).
  destruct (IH (put32 d off x) (off + 4)) as (H1 & H2 & H3); [lia|unfold zlen in *; lia|].
  split_and!; [unfold zlen in *; lia| |].
  - intros j Hj Hout. rewrite H2, aget_put32 by (unfold zlen; lia).
    destruct (Z.leb_spec off j); destruct (Z.ltb_spec j (off + 4)); simpl; [lia|done..].
  - rewrite H3. f_equal. rewrite <-(getu32_put32 d off x) by (unfold zlen; lia).
    apply getu32_ext; [lia|]. intros j Hj. apply H2; lia.
Qed.

Lemma get_addrs_ext d d' n : ∀ off,
  0 <= off → (∀ j, off <= j < off + 4 * Z.of_nat n → aget d j = aget d' j) →
  get_addrs d off n = get_addrs d' off n.
Proof.
  induction n as [|n IH]; intros off Ho Hj; simpl; [done|]. f_equal.
  - apply getu32_ext; [lia|]. intros; apply Hj; lia.
  - apply IH; [lia|]. intros; apply Hj; lia.
Qed.

Lemma get_addrs_length d n : ∀ off, length (get_addrs d off n) = n.
Proof. induction n; intros; simpl; auto. Qed.

Lemma get_addrs_range d n : ∀ off, Forall (λ a, 0 <= a < 4294967296) (get_addrs d off n).
Proof. induction n; intros; simpl; constructor; auto using getu32_range. Qed.

Lemma map_u32_small a : Forall (λ a, 0 <= a < 4294967296) a → map u32 a = a.
Proof. induction 1; simpl; [done|]. f_equal; [by apply u32_small|done]. Qed.

Lemma aget_put16_ne d off v j :
  0 <= off → off + 2 <= zlen d → 0 <= j → (j < off ∨ off + 2 <= j) → aget (put16 d off v) j = aget d j.
Proof.
  intros. rewrite aget_put16 by lia.
  destruct (Z.leb_spec off j); destruct (Z.ltb_spec j (off + 2)); simpl; [lia|done..].
Qed.

Lemma aget_put32_ne d off v j :
  0 <= off → off + 4 <= zlen d → 0 <= j → (j < off ∨ off + 4 <= j) → aget (put32 d off v) j = aget d j.
Proof.
  intros. rewrite aget_put32 by lia.
  destruct (Z.leb_spec off j); destruct (Z.ltb_spec j (off + 4)); simpl; [lia|done..].
Qed.

(** [mkInode] of the identity of [ip0] and the stored fields of [ip]. *)
Definition with_fields (ip0 ip : inode) : inode :=
  mkInode (i_dev ip0) (i_inum ip0) (i_ref ip0) (i_lock ip0) (i_valid ip0)
    (i_type ip) (i_major ip) (i_minor ip) (i_nlink ip) (i_size ip) (i_addrs ip).

(** One store: the length, the value read back, and the other bytes. *)
Lemma put16_step d off v :
  0 <= off → off + 2 <= zlen d →
  zlen (put16 d off v) = zlen d ∧ getu16 (put16 d off v) off = u16 v ∧
  (∀ j, 0 <= j → (j < off ∨ off + 2 <= j) → aget (put16 d off v) j = aget d j).
Proof. auto using put16_length, getu16_put16, aget_put16_ne. Qed.

Lemma put32_step d off v :
  0 <= off → off + 4 <= zlen d →
  zlen (put32 d off v) = zlen d ∧ getu32 (put32 d off v) off = u32 v ∧
  (∀ j, 0 <= j → (j < off ∨ off + 4 <= j) → aget (put32 d off v) j = aget d j).
Proof. auto using put32_length, getu32_put32, aget_put32_ne. Qed.

Lemma put_dinode_spec d o ip :
  inode_ok ip → 0 <= o → o + DINODE <= zlen d →
  zlen (put_dinode d o ip) = zlen d ∧
  (∀ j, 0 <= j → (j < o ∨ o + DINODE <= j) → aget (put_dinode d o ip) j = aget d j) ∧
  (∀ ip0, get_dinode (put_dinode d o ip) o ip0 = with_fields ip0 ip).
Proof.
  unfold DINODE. intros (Ht & Hma & Hmi & Hn & Hsz & Hal & Har) Ho Hl. unfold put_dinode.
  destruct (put16_step d o (i_type ip)) as (L1 & G1 & F1); [lia..|].
  set (d1 := put16 d o (i_type ip)) in *.
  destruct (put16_step d1 (o + 2) (i_major ip)) as (L2 & G2 & F2); [lia..|].
  set (d2 := put16 d1 (o + 2) (i_major ip)) in *.
  destruct (put16_step d2 (o + 4) (i_minor ip)) as (L3 & G3 & F3); [lia..|].
  set (d3 := put16 d2 (o + 4) (i_minor ip)) in *.
  destruct (put16_step d3 (o + 6) (i_nlink ip)) as (L4 & G4 & F4); [lia..|].
  set (d4 := put16 d3 (o + 6) (i_nlink ip)) in *.
  destruct (put32_step d4 (o + 8) (i_size ip)) as (L5 & G5 & F5); [lia..|].
  set (d5 := put32 d4 (o + 8) (i_size ip)) in *.
  assert (zlen (i_addrs ip) = 13) as Hz by (unfold zlen; lia).
  destruct (put_addrs_spec (i_addrs ip) d5 (o + 12)) as (L6 & F6 & G6); [lia|lia|].
  rewrite Hz, Hal in *. split_and!; [lia| |].
  - intros j Hj Hout. rewrite F6, F5, F4, F3, F2, F1 by lia. done.
  - intros ip0. unfold get_dinode, with_fields. rewrite G6, map_u32_small by done.
    rewrite (getu16_ext _ d1 o), G1, i16_u16 by (try done; try lia; intros; rewrite F6, F5, F4, F3, F2 by lia; done).
    rewrite (getu16_ext _ d2 (o + 2)), G2, i16_u16 by (try done; try lia; intros; rewrite F6, F5, F4, F3 by lia; done).
    rewrite (getu16_ext _ d3 (o + 4)), G3, i16_u16 by (try done; try lia; intros; rewrite F6, F5, F4 by lia; done).
    rewrite (getu16_ext _ d4 (o + 6)), G4, i16_u16 by (try done; try lia; intros; rewrite F6, F5 by lia; done).
    rewrite (getu32_ext _ d5 (o + 8)), G5, u32_small by (try done; try lia; intros; rewrite F6 by lia; done).
    done.
Qed.

Lemma get_dinode_ok d o ip : inode_ok (get_dinode d o ip).
Proof.
  exact (conj (i16_range _) (conj (i16_range _) (conj (i16_range _) (conj (i16_range _)
    (conj (getu32_range _ _) (conj (get_addrs_length d 13 _) (get_addrs_range d 13 _))))))).
Qed.

(** Another inode of the same block, at [o'], keeps its fields. *)
Lemma get_dinode_other d o o' ip ip0 :
  inode_ok ip → 0 <= o → o + DINODE <= zlen d → 0 <= o' →
  (o' + DINODE <= o ∨ o + DINODE <= o') →
  get_dinode (put_dinode d o ip) o' ip0 = get_dinode d o' ip0.
Proof.
  intros Hok Ho Hl Ho' Hne. destruct (put_dinode_spec d o ip Hok Ho Hl) as (_ & F & _).
  unfold DINODE in *. unfold get_dinode.
  rewrite !(getu16_ext (put_dinode d o ip) d), (getu32_ext (put_dinode d o ip) d),
    (get_addrs_ext (put_dinode d o ip) d) by (try lia; intros; apply F; lia).
  done.
Qed.

Section dinode.
Context {S : Type} `{BufLaws S} {M : Type} `{UserMem M}.
Abbreviation st := (fss S M).

(** The inode [inum] on disk, with the identity of [ip0]. *)
Definition disk_inode (x : superblock) (v : dview) (inum : Z) (ip0 : inode) : inode :=
  get_dinode (v (IBLOCK inum x)) (inum mod IPB * DINODE) ip0.

(** The blocks after [iupdate] of [ip]. *)
Definition updated (x : superblock) (v : dview) (ip : inode) : dview :=
  vset (IBLOCK (i_inum ip) x)
    (put_dinode (v (IBLOCK (i_inum ip) x)) (i_inum ip mod IPB * DINODE) ip) v.

Lemma dinode_off n : 0 <= n → 0 <= n mod IPB * DINODE ∧ n mod IPB * DINODE + DINODE <= BSIZE.
Proof. intros. change IPB with 16. unfold DINODE, BSIZE. mlia. Qed.

Lemma disk_inode_updated x v ip n ip0 :
  (∀ b, length (v b) = Z.to_nat BSIZE) → inode_ok ip → 0 <= i_inum ip → 0 <= n →
  disk_inode x (updated x v ip) n ip0 =
    if n =? i_inum ip then with_fields ip0 ip else disk_inode x v n ip0.
Proof.
  intros Hlen Hok Hi Hn. unfold disk_inode, updated.
  destruct (dinode_off (i_inum ip) Hi) as [Ho1 Ho2]. destruct (dinode_off n Hn) as [Ho3 Ho4].
  assert (zlen (v (IBLOCK (i_inum ip) x)) = BSIZE) as Hz by (unfold zlen; rewrite Hlen; done).
  destruct (Z.eqb_spec n (i_inum ip)) as [->|Hne].
  - rewrite vset_eq. apply put_dinode_spec; [done|lia|lia].
  - unfold vset. case_decide as He; [|done]. rewrite <-He. apply get_dinode_other; [done|lia|lia|lia|].
    unfold IBLOCK in He. change IPB with 16 in *. unfold DINODE. mlia.
Qed.

Lemma fsat_iat P s i ip (Q : inode → st → Prop) :
  itable s !! i = Some ip → Q ip s → fsat P (iat i) s Q.
Proof. intros Hi HQ. unfold iat, fsat, mbind, fs_bind, getf. simpl. by rewrite Hi. Qed.

Context (P : string → Prop) (HP : ∀ m, io_panic m → P m).

Lemma iupdate_sat (s : st) v h i ip :
  frep s v h → itable s !! i = Some ip → i_dev ip = ROOTDEV → inode_ok ip → 0 <= i_inum ip →
  usable h (IBLOCK (i_inum ip) (sb s)) →
  fsat P (iupdate i) s
    (λ _ s', ∃ y, s' = set_lower y s ∧ brep y (updated (sb s) v ip) ∅ h).
Proof using HP.
  intros Hs Hi Hdev Hok Hin [Hh Hlg]. unfold iupdate.
  apply fsat_bind, (fsat_iat _ _ _ ip); [done|]. fs_get. rewrite Hdev.
  fs_read Hs Hh. intros j x Hj Hx. fs_data Hx.
  pose proof (brep_len _ _ _ _ (IBLOCK (i_inum ip) (sb s)) Hx) as Hlen.
  destruct (dinode_off (i_inum ip) Hin) as [Ho1 Ho2].
  fs_commit Hj Hx; [|by eauto].
  destruct (put_dinode_spec (v (IBLOCK (i_inum ip) (sb s))) (i_inum ip mod IPB * DINODE) ip)
    as (Hz & _ & _); [done|lia|unfold zlen; rewrite Hlen; done|].
  unfold zlen in Hz. lia.
Qed.

Lemma ilock_sat (s : st) v h i ip :
  frep s v h → itable s !! i = Some ip → i_dev ip = ROOTDEV → 1 <= i_ref ip →
  i_lock ip = false → i_valid ip = false →
  (∀ k, h !! k ≠ Some (IBLOCK (i_inum ip) (sb s))) →
  i_type (disk_inode (sb s) v (i_inum ip) ip) ≠ 0 →
  fsat P (ilock (Some i)) s (λ _ s', ∃ y, brep y v ∅ h ∧
    s' = set_itable (<[i := set_i_valid true (disk_inode (sb s) v (i_inum ip) (set_i_lock true ip))]> (itable s))
           (set_lower y s)).
Proof using HP.
  intros Hs Hi Hdev Href Hlk Hva Hh Hty. unfold ilock.
  apply fsat_bind, (fsat_iat _ _ _ ip); [done|].
  rewrite (proj2 (Z.ltb_ge _ _)), Hlk by lia. apply fsat_bind, fsat_modf. simpl. rewrite Hva.
  fs_get. simpl. rewrite Hdev. fs_read Hs Hh. intros j x Hj Hx. fs_data Hx.
  apply fsat_bind, fsat_modf. fs_rel Hj Hx. intros y Hy.
  apply fsat_bind, fsat_modf.
  rewrite (proj2 (Z.eqb_neq _ _)) by done. apply fsat_ret.
  exists y. split; [done|]. unfold set_itable, set_lower. simpl. rewrite !list_insert_insert_eq. done.
Qed.
End dinode.

Section roundtrip.
Context {S : Type} `{BufLaws S} {M : Type} `{UserMem M}.

(** C34: what [iupdate] writes, [ilock] reads: after [iupdate] of a table entry,
    an [ilock] of any invalid entry for the same inode number (the inode table
    [t] of a later time, another slot) loads the same type, major, minor, nlink,
    size and addresses, and every other inode on disk is unchanged. *)
Theorem inode_roundtrip (s : fss S M) v h i ip t j jp :
  frep s v h → itable s !! i = Some ip → i_dev ip = ROOTDEV → inode_ok ip → 0 <= i_inum ip →
  i_type ip ≠ 0 → usable h (IBLOCK (i_inum ip) (sb s)) →
  t !! j = Some jp → i_dev jp = ROOTDEV → i_inum jp = i_inum ip → 1 <= i_ref jp →
  i_lock jp = false → i_valid jp = false →
  fsat io_panic (_ ← iupdate i; _ ← modf (set_itable t); ilock (Some j)) s (λ _ s',
    itable s' = <[j := set_i_valid true (with_fields (set_i_lock true jp) ip)]> t ∧
    ∃ v', frep s' v' h ∧
      ∀ n ip0, 0 <= n → n ≠ i_inum ip → disk_inode (sb s) v' n ip0 = disk_inode (sb s) v n ip0).
Proof.
  intros Hs Hi Hdev Hok Hin Hty Hh Htj Hjd Hjn Hjr Hjl Hjv.
  assert (∀ c, length (v c) = Z.to_nat BSIZE) as Hlen by (intros c; by eapply brep_len).
  eapply fsat_seq; [by eapply iupdate_sat|]. destruct Hh as [Hh _]. intros _ s' (y & -> & Hy).
  apply fsat_bind, fsat_modf.
  assert (∀ ip0, disk_inode (sb s) (updated (sb s) v ip) (i_inum ip) ip0 = with_fields ip0 ip) as Hd.
  { intros ip0. by rewrite disk_inode_updated, Z.eqb_refl by done. }
  eapply fsat_mono.
  - eapply (ilock_sat io_panic); [done|exact Hy|exact Htj|done|lia|done|done|by rewrite Hjn|].
    cbn [sb set_itable set_lower]. by rewrite Hjn, Hd.
  - cbn [sb set_itable set_lower itable]. intros _ s' (z & Hz & ->).
    cbn [sb set_itable set_lower itable]. rewrite Hjn, Hd. split; [done|].
    exists (updated (sb s) v ip). split; [exact Hz|].
    intros n ip0 Hn Hne. rewrite disk_inode_updated by done. by rewrite (proj2 (Z.eqb_neq _ _)).
Qed.
End roundtrip.

(** A disk of zeros; inode 5 is cached in slot 0, slot 1 is another entry for it. *)
Module RoundtripWitness.
Import FlatDisk Flat.
#[local] Existing Instance no_log.
Definition ip5 : inode := mkInode 1 5 1 true true 2 0 (-3) 1 4096 [7; 8; 9; 10; 0; 0; 0; 0; 0; 0; 0; 0; 4000000000].
Definition jp5 : inode := mkInode 1 5 1 false false 0 0 0 0 0 (replicate 13 0).
Definition s0 : fss fdisk flat :=
  mkFss (mkSB FSMAGIC 2000 1954 200 31 2 33 46) [ip5; jp5] (mkFD ∅ ∅) ∅ (mk 0 []) [].

Lemma inode_roundtrip_witness :
  frep s0 (fd_get (lower s0)) ∅ ∧
  fsat io_panic (_ ← iupdate 0; _ ← modf (set_itable [ip5; jp5]); ilock (Some 1%nat)) s0 (λ _ s',
    itable s' = <[1%nat := set_i_valid true (with_fields (set_i_lock true jp5) ip5)]> [ip5; jp5] ∧
    ∃ v', frep s' v' ∅ ∧
      ∀ n ip0, 0 <= n → n ≠ 5 → disk_inode (sb s0) v' n ip0 = disk_inode (sb s0) (fd_get (lower s0)) n ip0).
Proof.
  split; [done|].
  apply (inode_roundtrip s0 (fd_get (lower s0)) ∅ 0 ip5 [ip5; jp5] 1 jp5); try done.
  - unfold inode_ok, short_ok. simpl. split_and!; try lia; try done. repeat constructor; lia.
Defined.
End RoundtripWitness.
