(* ===== verification/Dir.v ===== *)
(** * Directories and path names of fs.c

    A C string is the list of its characters, reading at the end of the list
    gives the NUL; [name], the buffer of [DIRSIZ] bytes that [namex] passes
    down, is the list of the characters before its NUL (all [DIRSIZ] of them if
    there is none).  [de] is the address of the local [struct dirent], which
    [readi] and [writei] reach as kernel memory. *)
From S2P Require Import Prelude Riscv Bio Log Buf Proc UserMem Mem Uart Printf Console Fs.

(** [*p] of a string. *)
Definition schar (p : list Z) : Z := match p with c :: _ => c | [] => 0 end.

Fixpoint strncmp_str (n : nat) (p q : list Z) : Z :=
  match n with
  | O => 0
  | Datatypes.S n' =>
      if negb (schar p =? 0) && (schar p =? schar q)
      then strncmp_str n' (tail p) (tail q)
      else schar p - schar q
  end.

Definition namecmp (s t : list Z) : Z := strncmp_str DIRSIZ s t.

(** [strncpy(d, name, n)] into a field of [n] bytes: the padded field. *)
Fixpoint strncpy_str (n : nat) (p : list Z) : list Z :=
  match n with
  | O => []
  | Datatypes.S n' => if schar p =? 0 then replicate n 0 else schar p :: strncpy_str n' (tail p)
  end.

(** *** Paths *)
Fixpoint skip_slashes (p : list Z) : list Z :=
  match p with
  | c :: p' => if c =? 47 then skip_slashes p' else p
  | [] => p
  end.

(** The characters up to a slash or the end, and the rest. *)
Fixpoint split_elem (p : list Z) : list Z * list Z :=
  match p with
  | c :: p' => if negb (c =? 47) && negb (c =? 0)
               then let '(s, r) := split_elem p' in (c :: s, r) else ([], p)
  | [] => ([], p)
  end.

Definition skipelem (path : list Z) : option (list Z * list Z) :=
  let path := skip_slashes path in
  if schar path =? 0 then None
  else
    let '(s, path) := split_elem path in
    let name := if (DIRSIZ <=? length s)%nat then take DIRSIZ s else s in
    Some (skip_slashes path, name).

Section dir.
Context {S : Type} `{BufOps S} {M : Type} `{UserMem M}.
Context (de : Z).
Abbreviation FSM := (@FS S M).

(** [de.inum] and [de.name] in memory. *)
Definition de_inum (k : mem) : Z := ld8 k de + 256 * ld8 k (de + 1).
Definition de_name (k : mem) : list Z := ld_bytes k (de + 2) DIRSIZ.

Fixpoint dirlookup_loop (fuel : nat) (dp : nat) (name : list Z) (off : Z) : FSM (option (nat * Z)) :=
  ip ← iat dp;
  if off <? i_size ip then
    match fuel with
    | O => hang
    | Datatypes.S f =>
        r ← readi dp 0 de off DIRENT;
        if negb (r =? DIRENT) then fpanic "dirlookup read"
        else
          k ← getf fkm;
          if de_inum k =? 0 then dirlookup_loop f dp name (u32 (off + DIRENT))
          else if namecmp name (de_name k) =? 0 then
            j ← iget (i_dev ip) (de_inum k);
            mret (Some (j, off))
          else dirlookup_loop f dp name (u32 (off + DIRENT))
    end
  else mret None.

(** The inode and the offset stored through [poff]. *)
Definition dirlookup (dp : nat) (name : list Z) : FSM (option (nat * Z)) :=
  ip ← iat dp;
  if negb (i_type ip =? T_DIR) then fpanic "dirlookup not DIR"
  else dirlookup_loop (Z.to_nat (i_size ip / DIRENT + 1)) dp name 0.

(** The search of [dirlink] for a free entry: its offset. *)
Fixpoint dirlink_loop (fuel : nat) (dp : nat) (off : Z) : FSM Z :=
  ip ← iat dp;
  if u32 off <? i_size ip then
    match fuel with
    | O => hang
    | Datatypes.S f =>
        r ← readi dp 0 de (u32 off) DIRENT;
        if negb (r =? DIRENT) then fpanic "dirlink read"
        else
          k ← getf fkm;
          if de_inum k =? 0 then mret off else dirlink_loop f dp (i32 (off + DIRENT))
    end
  else mret off.

Definition dirlink (dp : nat) (name : list Z) (inum : Z) : FSM Z :=
  o ← dirlookup dp name;
  match o with
  | Some (i, _) => _ ← iput i; mret (-1)
  | None =>
      ip ← iat dp;
      off ← dirlink_loop (Z.to_nat (i_size ip / DIRENT + 1)) dp 0;
      k ← getf fkm;
      um ← getf fum;
      let k := st_bytes k (de + 2) (strncpy_str DIRSIZ name) in
      let k := st_bytes k de (le16 inum) in
      _ ← modf (set_fmem k um);
      r ← writei dp 0 de (u32 off) DIRENT;
      mret (if negb (r =? DIRENT) then -1 else 0)
  end.

(** The loop of [namex]; the path gets shorter with each element. *)
Fixpoint namex_loop (fuel : nat) (ip : nat) (path : list Z) (nameiparent : bool) (name : list Z)
    : FSM (option nat * list Z) :=
  match fuel with
  | O => hang
  | Datatypes.S f =>
      match skipelem path with
      | Some (path, name) =>
          _ ← ilock (Some ip);
          dp ← iat ip;
          if negb (i_type dp =? T_DIR) then _ ← iunlockput ip; mret (None, name)
          else if nameiparent && (schar path =? 0) then
            _ ← iunlock (Some ip); mret (Some ip, name)
          else
            next ← dirlookup ip name;
            match next with
            | None => _ ← iunlockput ip; mret (None, name)
            | Some (next, _) =>
                _ ← iunlockput ip;
                namex_loop f next path nameiparent name
            end
      | None => if nameiparent then _ ← iput ip; mret (None, name) else mret (Some ip, name)
      end
  end.

(** [cwd] is [myproc()->cwd]. *)
Definition namex (cwd : nat) (path : list Z) (nameiparent : bool) (name : list Z)
    : FSM (option nat * list Z) :=
  ip ← (if schar path =? 47 then iget ROOTDEV ROOTINO else idup cwd);
  namex_loop (Datatypes.S (length path)) ip path nameiparent name.

Definition namei (cwd : nat) (path : list Z) : FSM (option nat) :=
  '(o, _) ← namex cwd path false []; mret o.

Definition nameiparent (cwd : nat) (path : list Z) : FSM (option nat * list Z) :=
  namex cwd path true [].
End dir.
