(* ===== verification/Itable.v ===== *)
(** * The inode table

    Every function of fs.c other than [iget], [idup] and [iput] leaves the
    identity and the reference count of every table entry alone ([ikeys]), and
    every function keeps the fields within their widths ([fs_ok]).  [Keeps m R]
    is the class of computations with this property whose result satisfies [R];
    [fstep] runs a computation by the rules and the instances.  On top of it,
    the reference counts: [iget], [idup] and [iput] against a count of the
    references held, up to path lookup. *)
From S2P Require Import Prelude Riscv Bio Log LogSpec Buf Proc UserMem Mem Uart Printf Console Fs FsLaws Dinode Dir.

Definition key (ip : inode) : Z * Z * Z := (i_dev ip, i_inum ip, i_ref ip).
Definition uint_ok (x : Z) : Prop := 0 <= x < 4294967296.

Lemma insert_addr_ok k a ip :
  inode_ok ip → uint_ok a → inode_ok (set_i_addrs (<[k := a]> (i_addrs ip)) ip).
Proof.
  intros (?&?&?&?&?&Hl&Hf) Ha. unfold inode_ok. simpl. split_and!; try done; try lia.
  - by rewrite length_insert.
  - by apply Forall_insert.
Qed.

Section keeps.
Context {S : Type} `{BufOps S} {M : Type} `{UserMem M}.
Abbreviation st := (fss S M).
Abbreviation FSM := (@FS S M).

Definition ikeys (s : st) : list (Z * Z * Z) := key <$> itable s.
Definition fs_ok (s : st) : Prop := uint_ok (sb_size (sb s)) ∧ Forall inode_ok (itable s).

Definition stable (s s' : st) : Prop := ikeys s' = ikeys s ∧ (fs_ok s → fs_ok s').

Lemma stable_refl s : stable s s.
Proof. done. Qed.
Lemma stable_trans s1 s2 s3 : stable s1 s2 → stable s2 s3 → stable s1 s3.
Proof. intros [H1 K1] [H2 K2]. split; [congruence|auto]. Qed.

(** Partial correctness: what holds when the computation returns. *)
Definition fpart {A} (m : FSM A) (s : st) (Q : A → st → Prop) : Prop :=
  match m s with Ok (a, s') => Q a s' | _ => True end.

Class Keeps {A} (m : FSM A) (R : A → Prop) : Prop :=
  keeps s : fpart m s (λ a s', stable s s' ∧ (fs_ok s → R a)).

Lemma fpart_bind {A B} (m : FSM A) (f : A → FSM B) s Q :
  fpart m s (λ a s', fpart (f a) s' Q) → fpart (m ≫= f) s Q.
Proof. unfold fpart, mbind, fs_bind. by destruct (m s) as [[]| |]. Qed.

Lemma fpart_ok {A} (m : FSM A) s Q a s' : fpart m s Q → m s = Ok (a, s') → Q a s'.
Proof. unfold fpart. intros Hm He. by rewrite He in Hm. Qed.

Lemma fpart_mono {A} (m : FSM A) s (Q R : A → st → Prop) :
  fpart m s Q → (∀ a s', Q a s' → R a s') → fpart m s R.
Proof. unfold fpart. destruct (m s) as [[]| |]; auto. Qed.

(** The rules, relative to an earlier state [s0]. *)
Lemma st_iat s0 s i (Q : inode → st → Prop) :
  stable s0 s →
  (∀ ip, ikeys s0 !! i = Some (key ip) → (fs_ok s0 → inode_ok ip) → Q ip s) → fpart (iat i) s Q.
Proof.
  intros [Hk Hok] HQ. unfold fpart, iat, mbind, fs_bind, getf. simpl.
  destruct (itable s !! i) as [ip|] eqn:Hi; simpl; [|done]. apply HQ.
  - rewrite <-Hk. unfold ikeys. by rewrite list_lookup_fmap, Hi.
  - intros [_ Hf]%Hok. by eapply Forall_lookup in Hf.
Qed.

Lemma st_iset s0 s i ip (Q : unit → st → Prop) :
  stable s0 s → ikeys s0 !! i = Some (key ip) → (fs_ok s0 → inode_ok ip) →
  (∀ s', stable s0 s' → Q tt s') → fpart (iset i ip) s Q.
Proof.
  intros [Hk Hok] Hi Hip HQ. apply HQ. split.
  - unfold ikeys in *. simpl. rewrite list_fmap_insert, Hk. by apply list_insert_id.
  - intros Hs. destruct (Hok Hs) as [Hsb Hf]. split; [done|]. simpl. apply Forall_insert; auto.
Qed.

Lemma st_call {A} (m : FSM A) R s0 s (Q : A → st → Prop) :
  Keeps m R → stable s0 s →
  (∀ a s', stable s0 s' → (fs_ok s0 → R a) → Q a s') → fpart m s Q.
Proof.
  intros Hm Hs HQ. eapply fpart_mono; [apply Hm|]. intros a s' [Hs' HR]. apply HQ.
  - by eapply stable_trans.
  - intros Ho. apply HR. by apply Hs.
Qed.

Lemma st_modf s0 s g (Q : unit → st → Prop) :
  stable s0 s → itable (g s) = itable s → sb (g s) = sb s →
  (∀ s', stable s0 s' → Q tt s') → fpart (modf g) s Q.
Proof.
  intros [Hk Hok] Ht Hb HQ. apply HQ. split; [unfold ikeys in *; congruence|].
  intros Hs. destruct (Hok Hs). split; congruence.
Qed.

Lemma fpart_getf {A} (g : st → A) s (Q : A → st → Prop) : Q (g s) s → fpart (getf g) s Q.
Proof. done. Qed.

Lemma fpart_ret {A} (a : A) s (Q : A → st → Prop) : Q a s → fpart (mret a) s Q.
Proof. done. Qed.

(** Computations on the lower layers alone. *)
#[export] Instance keeps_low {A} (f : S → res (A * S)) : Keeps (low f) (λ _, True).
Proof. intros s. unfold fpart, low. destruct (f (lower s)) as [[a x]| |]; simpl; done. Qed.
#[export] Instance keeps_low_ (f : S → res S) : Keeps (low_ f) (λ _, True).
Proof. intros s. unfold fpart, low_. destruct (f (lower s)) as [x| |]; simpl; done. Qed.
#[export] Instance keeps_bdata h : Keeps (bdata h) (λ _, True).
Proof. intros s. done. Qed.
#[export] Instance keeps_bstore h d : Keeps (bstore h d) (λ _, True).
Proof. intros s. done. Qed.
#[export] Instance keeps_fprintf m : Keeps (fprintf m) (λ _, True).
Proof. intros s. done. Qed.
#[export] Instance keeps_fmem k m : Keeps (modf (set_fmem k m)) (λ _, True).
Proof. intros s. done. Qed.
#[export] Instance keeps_hang {A} R : Keeps (hang : FSM A) R.
Proof. intros s. done. Qed.
#[export] Instance keeps_panic {A} m R : Keeps (fpanic m : FSM A) R.
Proof. intros s. done. Qed.
End keeps.

#[export] Hint Unfold bread log_write brelse begin_op end_op : xv6.

(** One step of a computation. Facts about inodes are left in the context. *)
Ltac fstep :=
  match goal with
  | |- fpart (_ ≫= _) _ _ => apply fpart_bind
  | |- fpart (mret _) _ _ => apply fpart_ret
  | |- stable _ _ ∧ _ => split; [assumption|]
  | |- fpart (getf _) _ _ => apply fpart_getf
  | |- fpart (fpanic _) _ _ => exact I
  | |- fpart hang _ _ => exact I
  | Hs : stable ?s0 ?s |- fpart (iat _) ?s _ =>
      eapply (st_iat s0); [exact Hs|]; intros ? ? ?
  | Hs : stable ?s0 ?s |- fpart (iset _ _) ?s _ =>
      eapply (st_iset s0); [exact Hs|..|intros ? ?]
  | |- fpart (if ?b then _ else _) _ _ => destruct b eqn:?
  | |- fpart (match ?x with _ => _ end) _ _ => destruct x eqn:?
  | Hs : stable ?s0 ?s |- fpart (bread _ _) ?s _ => unfold bread
  | Hs : stable ?s0 ?s |- fpart (log_write _) ?s _ => unfold log_write
  | Hs : stable ?s0 ?s |- fpart (brelse _) ?s _ => unfold brelse
  | Hs : stable ?s0 ?s |- fpart (begin_op) ?s _ => unfold begin_op
  | Hs : stable ?s0 ?s |- fpart (end_op) ?s _ => unfold end_op
  | Hs : stable ?s0 ?s |- fpart _ ?s _ =>
      eapply (st_call _ _ s0 s); [typeclasses eauto|exact Hs|]; intros ? ? ? ?
  end.

(** The inodes written by the code keep the key and the widths. *)
Ltac fkeep :=
  repeat (cbv zeta; fstep); try done; try (by intros _).

Section keeps_fs.
Context {S : Type} `{BufOps S} {M : Type} `{UserMem M}.
Abbreviation st := (fss S M).
Abbreviation FSM := (@FS S M).

#[export] Instance keeps_bzero dev b : Keeps (bzero dev b : FSM _) (λ _, True).
Proof. intros s0. pose proof (stable_refl s0). unfold bzero. fkeep. Qed.

#[export] Instance keeps_balloc_loop f dev b : TCEq (0 <=? b) true → Keeps (balloc_loop f dev b : FSM _) uint_ok.
Proof.
  revert b. induction f as [|f IH]; intros b Hb s0; pose proof (stable_refl s0);
    apply TCEq_eq, Z.leb_le in Hb; cbn [balloc_loop]; fkeep.
  all: try (intros _; unfold uint_ok; lia).
  - intros [Hu _]. unfold uint_ok in *.
    match goal with E : balloc_scan ?n ?d ?b0 0 ?z = Some _ |- _ =>
      pose proof (balloc_scan_spec n d b0 0 z) as Hscan; rewrite E in Hscan end.
    lia.
  - eapply st_call; [apply IH|eassumption|intros ????; split; assumption].
    apply TCEq_eq, Z.leb_le. unfold BPB, BSIZE. lia.
Qed.

#[export] Instance keeps_balloc dev : Keeps (balloc dev : FSM _) uint_ok.
Proof. intros s0. pose proof (stable_refl s0). unfold balloc. fkeep. Qed.

#[export] Instance keeps_bfree dev b : Keeps (bfree dev b : FSM _) (λ _, True).
Proof. intros s0. pose proof (stable_refl s0). unfold bfree. fkeep. Qed.

#[export] Instance keeps_iupdate i : Keeps (iupdate i : FSM _) (λ _, True).
Proof. intros s0. pose proof (stable_refl s0). unfold iupdate. fkeep. Qed.

#[export] Instance keeps_ilock o : Keeps (ilock o : FSM _) (λ _, True).
Proof.
  intros s0. pose proof (stable_refl s0). unfold ilock. fkeep.
  all: intros _; apply get_dinode_ok.
Qed.

#[export] Instance keeps_iunlock o : Keeps (iunlock o : FSM _) (λ _, True).
Proof. intros s0. pose proof (stable_refl s0). unfold iunlock. fkeep. Qed.

Hint Resolve insert_addr_ok : xv6.
Lemma uint_ok_0 : uint_ok 0.
Proof. unfold uint_ok. lia. Qed.
Lemma aget_addr_ok ip k : inode_ok ip → uint_ok (aget (i_addrs ip) k).
Proof.
  intros (?&?&?&?&?&_&Hf). unfold aget. destruct (i_addrs ip !! Z.to_nat k) eqn:Hk; [|apply uint_ok_0].
  by eapply Forall_lookup in Hf.
Qed.

#[export] Instance keeps_bmap i bn : Keeps (bmap i bn : FSM _) uint_ok.
Proof.
  intros s0. pose proof (stable_refl s0). unfold bmap. fkeep.
  all: auto using uint_ok_0, insert_addr_ok, aget_addr_ok.
  all: intros _; apply u32_range.
Qed.

#[export] Instance keeps_itrunc_direct n i k : Keeps (itrunc_direct n i k : FSM _) (λ _, True).
Proof.
  revert k. induction n as [|n IH]; intros k s0; pose proof (stable_refl s0); simpl; fkeep.
  auto using insert_addr_ok, uint_ok_0.
Qed.

#[export] Instance keeps_itrunc_indirect n dev bp j : Keeps (itrunc_indirect n dev bp j : FSM _) (λ _, True).
Proof. revert j. induction n as [|n IH]; intros j s0; pose proof (stable_refl s0); simpl; fkeep. Qed.

Lemma set_i_size_ok z ip : uint_ok z → inode_ok ip → inode_ok (set_i_size z ip).
Proof. intros Hz (?&?&?&?&?&?&?). unfold inode_ok, uint_ok in *. simpl. tauto. Qed.
Lemma set_i_type_ok t ip : short_ok t → inode_ok ip → inode_ok (set_i_type t ip).
Proof. intros Hz (?&?&?&?&?&?&?). unfold inode_ok, uint_ok in *. simpl. tauto. Qed.

#[export] Instance keeps_itrunc i : Keeps (itrunc i : FSM _) (λ _, True).
Proof.
  intros s0. pose proof (stable_refl s0). unfold itrunc.
  fkeep. all: auto using insert_addr_ok, uint_ok_0, set_i_size_ok.
Qed.

#[export] Instance keeps_stati i : Keeps (fs_stati i : FSM _) (λ _, True).
Proof. intros s0. pose proof (stable_refl s0). unfold fs_stati. fkeep. Qed.

#[export] Instance keeps_readi_loop f i u dst off n tot : Keeps (readi_loop f i u dst off n tot : FSM _) (λ _, True).
Proof.
  revert dst off tot. induction f as [|f IH]; intros dst off tot s0; pose proof (stable_refl s0);
    cbn [readi_loop]; fkeep.
Qed.

#[export] Instance keeps_readi i u dst off n : Keeps (readi i u dst off n : FSM _) (λ _, True).
Proof. intros s0. pose proof (stable_refl s0). unfold readi. fkeep. Qed.

Lemma keeps_writei_loop f i u src off n tot :
  uint_ok off → Keeps (writei_loop f i u src off n tot : FSM _) (λ '(o, _), uint_ok o).
Proof.
  revert src off tot. induction f as [|f IH]; intros src off tot Ho s0; pose proof (stable_refl s0);
    cbn [writei_loop]; fkeep.
  eapply st_call; [apply IH, u32_range|eassumption|intros ????; split; assumption].
Qed.

Lemma keeps_writei i u src off n : uint_ok off → Keeps (writei i u src off n : FSM _) (λ _, True).
Proof.
  intros Ho s0. pose proof (stable_refl s0).
  pose proof (λ f, keeps_writei_loop f i u src off n 0 Ho).
  unfold writei. fkeep. all: repeat case_match; subst; auto using set_i_size_ok.
Qed.
End keeps_fs.
