(* ===== verification/IRefs.v ===== *)
(** * Reference counts of the inode table

    [krefs c ks]: entry [i] of the table with keys [ks] has [c i] references,
    and no two referenced entries are for the same inode.  [iget] and [idup] add
    a reference, [iput] takes one, and directory and path lookup return with
    exactly the reference they hand to their caller, on every branch. *)
From S2P Require Import Prelude Riscv Bio Log LogSpec Buf Proc UserMem Mem Uart Printf Console Fs FsLaws Dinode Dir Itable.

Definition krefs (c : nat → Z) (ks : list (Z * Z * Z)) : Prop :=
  (∀ i k, ks !! i = Some k → k.2 = c i) ∧
  (∀ i j a b, ks !! i = Some a → ks !! j = Some b → 0 < a.2 → 0 < b.2 → a.1 = b.1 → i = j).

(** One more reference to entry [i]. *)
Definition cadd (i : nat) (c : nat → Z) : nat → Z := λ j, c j + (if decide (i = j) then 1 else 0).

(** Counts that leave room for two more references in a C [int]. *)
Definition cbnd (n : Z) (c : nat → Z) : Prop := ∀ i, 0 <= c i <= n.

Lemma krefs_ext c c' ks : (∀ i, c i = c' i) → krefs c ks → krefs c' ks.
Proof. intros Hc [H1 H2]. split; [|done]. intros i k Hk. by rewrite <-Hc, (H1 i k). Qed.

Lemma cadd_comm i j c k : cadd i (cadd j c) k = cadd j (cadd i c) k.
Proof. unfold cadd. lia. Qed.

Lemma cadd_bnd n i c : cbnd n c → cbnd (n + 1) (cadd i c).
Proof. intros Hb j. specialize (Hb j). unfold cadd. case_decide; lia. Qed.
Lemma cbnd_mono n m c : n <= m → cbnd n c → cbnd m c.
Proof. intros Hn Hb j. specialize (Hb j). lia. Qed.

(** The scan of [iget]: the entry for the inode, or the first free slot. *)
Lemma iget_scan_spec dev inum t : ∀ i0 e,
  match iget_scan dev inum t i0 e with
  | inl i => ∃ k ip, i = (i0 + k)%nat ∧ t !! k = Some ip ∧ 0 < i_ref ip ∧ i_dev ip = dev ∧ i_inum ip = inum
  | inr o => (∀ ip, ip ∈ t → 0 < i_ref ip → (i_dev ip, i_inum ip) ≠ (dev, inum)) ∧
      match e, o with
      | Some i, o => o = Some i
      | None, None => ∀ ip, ip ∈ t → i_ref ip ≠ 0
      | None, Some i => ∃ k ip, i = (i0 + k)%nat ∧ t !! k = Some ip ∧ i_ref ip = 0
      end
  end.
Proof.
  induction t as [|ip t IH]; intros i0 e; simpl.
  { split; [set_solver|]. destruct e; [done|set_solver]. }
  destruct ((0 <? i_ref ip) && (i_dev ip =? dev) && (i_inum ip =? inum)) eqn:Hm.
  { exists 0%nat, ip. apply andb_true_iff in Hm as [Hm H3]. apply andb_true_iff in Hm as [H1 H2].
    rewrite Nat.add_0_r. split_and!; [done|done|lia..]. }
  set (e' := match e with Some _ => e | None => if i_ref ip =? 0 then Some i0 else None end).
  specialize (IH (S i0) e'). destruct (iget_scan dev inum t (S i0) e') as [i|o].
  { destruct IH as (k & jp & -> & ?). exists (S k), jp. split; [lia|done]. }
  destruct IH as [Hno Ho]. split.
  { intros jp [->|Hj]%elem_of_cons Hr; [|auto]. intros [= H1 H2].
    rewrite H1, H2, !Z.eqb_refl in Hm. apply Z.ltb_lt in Hr. by rewrite Hr in Hm. }
  subst e'. destruct e as [i|]; [done|]. destruct (Z.eqb_spec (i_ref ip) 0).
  - rewrite Ho. exists 0%nat, ip. split; [lia|done].
  - destruct o as [i|].
    + destruct Ho as (k & jp & -> & ?). exists (S k), jp. split; [lia|done].
    + intros jp [->|Hj]%elem_of_cons; auto.
Qed.

(** Changing the count of one entry. *)
Lemma krefs_set c c' ks i d n r :
  krefs c ks → c' i = r → (∀ j, j ≠ i → c' j = c j) →
  (0 < r → ∀ j k, ks !! j = Some k → j ≠ i → 0 < k.2 → k.1 ≠ (d, n)) →
  krefs c' (<[i := (d, n, r)]> ks).
Proof.
  intros [H1 H2] Hi Hj Hu. split.
  - intros j k Hk. apply list_lookup_insert_Some in Hk as [(<- & <- & _)|[Hne Hk]]; [done|].
    rewrite Hj by done. by apply H1.
  - intros j1 j2 a b Ha Hb Hra Hrb Hab.
    apply list_lookup_insert_Some in Ha as [(<- & <- & _)|[Hne Ha]];
      apply list_lookup_insert_Some in Hb as [(<- & <- & _)|[Hne' Hb]]; simpl in *; auto.
    + by destruct (Hu Hra j2 b Hb).
    + by destruct (Hu Hrb j1 a Ha).
    + by apply (H2 j1 j2 a b).
Qed.

(** An entry that is referenced stays the only one for its inode. *)
Lemma krefs_own c ks i k : krefs c ks → ks !! i = Some k → 0 < k.2 →
  ∀ j k', ks !! j = Some k' → j ≠ i → 0 < k'.2 → k'.1 ≠ k.1.
Proof. intros [H1 H2] Hi Hr j k' Hj Hne Hr' He. by apply Hne, (H2 j i k' k). Qed.

Section refs.
Context {S : Type} `{BufOps S} {M : Type} `{UserMem M}.
Abbreviation st := (fss S M).
Abbreviation FSM := (@FS S M).

Lemma set_i_ref_ok r ip : inode_ok ip → inode_ok (set_i_ref r ip).
Proof. done. Qed.

Lemma iset_fs_ok (s : st) i ip : fs_ok s → inode_ok ip → fs_ok (set_itable (<[i := ip]> (itable s)) s).
Proof. intros [H1 H2] Hip. split; [done|]. simpl. by apply Forall_insert. Qed.

Lemma ikeys_iset (s : st) i ip : ikeys (set_itable (<[i := ip]> (itable s)) s) = <[i := key ip]> (ikeys s).
Proof. unfold ikeys. simpl. apply list_fmap_insert. Qed.

(** [iget] as a function of the table. *)
Lemma iget_eq dev inum (s : st) :
  match iget dev inum s with
  | Ok (i, s') => (fs_ok s → fs_ok s') ∧ ∃ ip,
      itable s !! i = Some ip ∧ s' = set_itable (itable s') s ∧
      ((0 < i_ref ip ∧ i_dev ip = dev ∧ i_inum ip = inum ∧
        itable s' = <[i := set_i_ref (i32 (i_ref ip + 1)) ip]> (itable s)) ∨
       (i_ref ip = 0 ∧ (∀ jp, jp ∈ itable s → 0 < i_ref jp → (i_dev jp, i_inum jp) ≠ (dev, inum)) ∧
        ∃ jp, itable s' = <[i := jp]> (itable s) ∧ key jp = (dev, inum, 1) ∧ i_valid jp = false))
  | Panic m => m = "iget: no inodes"%string ∧ ∀ ip, ip ∈ itable s →
      i_ref ip ≠ 0 ∧ (0 < i_ref ip → (i_dev ip, i_inum ip) ≠ (dev, inum))
  | NoFuel => False
  end.
Proof.
  unfold iget, iat, mbind, fs_bind, getf. simpl.
  pose proof (iget_scan_spec dev inum (itable s) 0 None) as Hs.
  destruct (iget_scan dev inum (itable s) 0 None) as [i|[i|]].
  - destruct Hs as (k & ip & -> & Hk & Hr & Hd & Hn). simpl in *. rewrite Hk. simpl. split.
    + intros Hok. apply iset_fs_ok; [done|]. apply set_i_ref_ok.
      by eapply Forall_lookup in Hk; [|apply Hok].
    + exists ip. split_and!; [done|done|]. left. done.
  - destruct Hs as (Hno & k & ip & -> & Hk & Hr). simpl in *. rewrite Hk. simpl. split.
    + intros Hok. apply iset_fs_ok; [done|].
      eapply (Forall_lookup_1 inode_ok) in Hk; [exact Hk|apply Hok].
    + exists ip. split_and!; [done|done|]. right. split_and!; [done|done|].
      eexists. split; [done|]. done.
  - destruct Hs as [Hno Hz]. split; [done|]. auto.
Qed.

(** Facts tracked along a computation: the widths (if [F]) and the counts (if
    [G]). *)
Section rel.
Context (F G : Prop).

Definition rel (c : nat → Z) (s : st) : Prop := (F → fs_ok s) ∧ (G → krefs c (ikeys s)).

Lemma rel_ext c c' s : (∀ i, c i = c' i) → rel c s → rel c' s.
Proof. intros Hc [H1 H2]. split; [done|]. intros g. eapply krefs_ext; eauto. Qed.

Lemma rel_stable c s s' : stable s s' → rel c s → rel c s'.
Proof. intros [Hk Hok] [H1 H2]. split; [auto|]. by rewrite Hk. Qed.

Lemma rel_call {A} (m : FSM A) R c s (Q : A → st → Prop) :
  Keeps m R → rel c s → (∀ a s', rel c s' → (F → R a) → Q a s') → fpart m s Q.
Proof.
  intros Hm Hr HQ. eapply fpart_mono; [apply Hm|]. intros a s' [Hs HR]. apply HQ.
  - by eapply rel_stable.
  - intros f. apply HR, Hr, f.
Qed.

Lemma rel_iat {A} i (k : inode → FSM A) c s (Q : A → st → Prop) :
  rel c s → (∀ ip, itable s !! i = Some ip → fpart (k ip) s Q) → fpart (iat i ≫= k) s Q.
Proof.
  intros Hr Hk. unfold fpart, iat, mbind, fs_bind, getf. simpl.
  destruct (itable s !! i) as [ip|] eqn:Hi; simpl; [|done]. by apply Hk.
Qed.

Lemma rel_iget dev inum c s (Q : nat → st → Prop) :
  rel c s → (G → cbnd 2147483646 c) → (∀ i s', rel (cadd i c) s' → Q i s') →
  fpart (iget dev inum) s Q.
Proof.
  intros [Hf Hg] Hb HQ. unfold fpart. pose proof (iget_eq dev inum s) as He.
  destruct (iget dev inum s) as [[i s']| |]; [|done|done]. apply HQ.
  destruct He as (Hok & ip & Hi & Hs' & Hcase). split; [auto|]. intros g.
  specialize (Hg g). specialize (Hb g i).
  assert (ikeys s !! i = Some (key ip)) as Hk by (unfold ikeys; by rewrite list_lookup_fmap, Hi).
  pose proof (proj1 Hg i _ Hk) as Hc. simpl in Hc. rewrite Hs'.
  destruct Hcase as [(Hr & <- & <- & ->)|(Hr & Hno & jp & -> & Hjk & _)]; rewrite ikeys_iset.
  - apply (krefs_set c); [done| | |].
    + unfold cadd. rewrite decide_True by done. simpl. rewrite i32_small; lia.
    + intros j Hj. unfold cadd. rewrite decide_False by done. lia.
    + intros _ j k Hj Hne Hk'. by apply (krefs_own c _ i (key ip) Hg Hk Hr j).
  - rewrite Hjk. apply (krefs_set c); [done| | |].
    + unfold cadd. rewrite decide_True by done. lia.
    + intros j Hj. unfold cadd. rewrite decide_False by done. lia.
    + intros _ j k Hj Hne Hk'. unfold ikeys in Hj. rewrite list_lookup_fmap in Hj.
      destruct (itable s !! j) as [jp'|] eqn:Hjt; simpl in Hj; [|done]. injection Hj as <-.
      apply Hno; [by eapply list_elem_of_lookup_2|done].
Qed.

Lemma rel_idup i c s (Q : nat → st → Prop) :
  rel c s → (G → cbnd 2147483646 c ∧ 0 < c i) → (∀ s', rel (cadd i c) s' → Q i s') →
  fpart (idup i) s Q.
Proof.
  intros Hr Hb HQ. unfold idup. eapply rel_iat; [done|]. intros ip Hi.
  apply HQ. destruct Hr as [Hf Hg]. split.
  - intros f. apply iset_fs_ok; [auto|]. apply set_i_ref_ok.
    by eapply (Forall_lookup_1 inode_ok) in Hi; [|apply Hf, f].
  - intros g. destruct (Hb g) as [Hbi Hpos]. specialize (Hg g). specialize (Hbi i).
    assert (ikeys s !! i = Some (key ip)) as Hk by (unfold ikeys; by rewrite list_lookup_fmap, Hi).
    pose proof (proj1 Hg i _ Hk) as Hc. unfold key in Hc. simpl in Hc. rewrite ikeys_iset.
    apply (krefs_set c); [done| | |].
    + unfold cadd. rewrite decide_True by done. simpl. rewrite i32_small; lia.
    + intros j Hj. unfold cadd. rewrite decide_False by done. lia.
    + intros _ j k Hj Hne Hk'. assert (0 < i_ref ip) as Hown by lia.
      by apply (krefs_own c _ i (key ip) Hg Hk Hown j).
Qed.

(** The inode freed by [iput] when the last reference goes. *)
Definition iput_free (i : nat) (ip : inode) : FSM unit :=
  if (i_ref ip =? 1) && i_valid ip && (i_nlink ip =? 0) then
    if i_lock ip then hang
    else
      _ ← iset i (set_i_lock true ip);
      _ ← itrunc i;
      ip ← iat i;
      _ ← iset i (set_i_type 0 ip);
      _ ← iupdate i;
      ip ← iat i;
      iset i (set_i_lock false (set_i_valid false ip))
  else mret tt.

Lemma iput_free_stable i ip s :
  itable s !! i = Some ip → fpart (iput_free i ip) s (λ _ s', stable s s').
Proof.
  intros Hi. pose proof (stable_refl s).
  assert (ikeys s !! i = Some (key ip)) by (unfold ikeys; by rewrite list_lookup_fmap, Hi).
  assert (fs_ok s → inode_ok ip) by (intros [_ Hf]; by eapply (Forall_lookup_1 inode_ok) in Hi).
  unfold iput_free. fkeep. all: intros; try apply set_i_type_ok; unfold short_ok; auto; lia.
Qed.

Lemma rel_iput i c s (Q : unit → st → Prop) :
  rel (cadd i c) s → (G → cbnd 2147483646 c) → (∀ s', rel c s' → Q tt s') →
  fpart (iput i) s Q.
Proof.
  intros Hr Hb HQ. unfold iput. eapply rel_iat; [done|]. intros ip Hi.
  change (fpart (iput_free i ip ≫= λ _, ip ← iat i; iset i (set_i_ref (i32 (i_ref ip - 1)) ip)) s Q).
  apply fpart_bind. eapply fpart_mono; [by apply iput_free_stable|].
  intros ? s1 Hs1. cbv beta in Hs1. apply (rel_stable _ _ _ Hs1) in Hr as [Hf Hg].
  eapply rel_iat; [by split|]. intros jp Hj. apply HQ. split.
  - intros f. apply iset_fs_ok; [auto|]. apply set_i_ref_ok.
    by eapply (Forall_lookup_1 inode_ok) in Hj; [|apply Hf, f].
  - intros g. specialize (Hg g). specialize (Hb g i).
    assert (ikeys s1 !! i = Some (key jp)) as Hk by (unfold ikeys; by rewrite list_lookup_fmap, Hj).
    pose proof (proj1 Hg i _ Hk) as Hc. unfold cadd in Hc. rewrite decide_True in Hc by done.
    unfold key in Hc. simpl in Hc. rewrite ikeys_iset. apply (krefs_set (cadd i c)); [done| | |].
    + simpl. rewrite i32_small; lia.
    + intros j Hne. unfold cadd. rewrite decide_False by done. lia.
    + intros Hr j k Hj' Hne Hk'. assert (0 < i_ref jp) as Hown by lia.
      by apply (krefs_own _ _ i (key jp) Hg Hk Hown j).
Qed.

Lemma rel_iunlockput i c s (Q : unit → st → Prop) :
  rel (cadd i c) s → (G → cbnd 2147483646 c) → (∀ s', rel c s' → Q tt s') →
  fpart (iunlockput i) s Q.
Proof.
  intros Hr Hb HQ. unfold iunlockput. apply fpart_bind.
  eapply rel_call; [typeclasses eauto|done|]. intros _ s1 Hs1 _. by eapply rel_iput.
Qed.
End rel.
End refs.

(** One step under [rel]; [iget] and [iput] are left to the caller. *)
Ltac rstep :=
  match goal with
  | Hr : rel _ _ ?c ?s |- fpart (iat _ ≫= _) ?s _ => eapply rel_iat; [exact Hr|]; intros ? ?
  | |- fpart (_ ≫= _) _ _ => apply fpart_bind
  | |- fpart (mret _) _ _ => apply fpart_ret
  | |- fpart (getf _) _ _ => apply fpart_getf
  | |- fpart (fpanic _) _ _ => exact I
  | |- fpart hang _ _ => exact I
  | |- fpart (if ?b then _ else _) _ _ => destruct b eqn:?
  | |- fpart (match ?x with _ => _ end) _ _ => destruct x eqn:?
  | |- fpart (bread _ _) _ _ => unfold bread
  | |- fpart (log_write _) _ _ => unfold log_write
  | |- fpart (brelse _) _ _ => unfold brelse
  | |- fpart begin_op _ _ => unfold begin_op
  | |- fpart end_op _ _ => unfold end_op
  | Hr : rel ?F ?G ?c ?s |- fpart _ ?s _ =>
      eapply (rel_call F G _ _ c s); [typeclasses eauto|exact Hr|]; intros ? ? ? ?
  end.

Section paths.
Context {S : Type} `{BufOps S} {M : Type} `{UserMem M}.
Abbreviation st := (fss S M).
Abbreviation FSM := (@FS S M).
Context (F G : Prop) (de : Z).
Abbreviation REL := (rel F G).

(** The reference a lookup hands out. *)
Definition handed (o : option nat) (c : nat → Z) : nat → Z :=
  match o with Some j => cadd j c | None => c end.

Lemma rel_dirlookup_loop f dp name off c (s : st) :
  REL c s → (G → cbnd 2147483646 c) →
  fpart (dirlookup_loop de f dp name off) s (λ o s', REL (handed (fst <$> o) c) s').
Proof.
  intros Hr Hb. revert off s Hr. induction f as [|f IH]; intros off s Hr; cbn [dirlookup_loop];
    repeat rstep; try done.
  - by apply IH.
  - eapply rel_iget; [done|done|]. intros j ? Hj. by rstep.
  - by apply IH.
Qed.

Lemma rel_dirlookup dp name c (s : st) :
  REL c s → (G → cbnd 2147483646 c) →
  fpart (dirlookup de dp name) s (λ o s', REL (handed (fst <$> o) c) s').
Proof. intros Hr Hb. unfold dirlookup. repeat rstep; try done. by apply rel_dirlookup_loop. Qed.

#[local] Instance keeps_dirlink_loop f dp off : Keeps (dirlink_loop de f dp off : FSM _) (λ _, True).
Proof.
  revert off. induction f as [|f IH]; intros off s0; pose proof (stable_refl s0);
    cbn [dirlink_loop]; fkeep.
Qed.

Lemma rel_dirlink dp name inum c (s : st) :
  REL c s → (G → cbnd 2147483646 c) →
  fpart (dirlink de dp name inum) s (λ _ s', REL c s').
Proof.
  intros Hr Hb. unfold dirlink. apply fpart_bind.
  eapply fpart_mono; [by apply rel_dirlookup|]. intros [[j o]|] s1 H1; simpl in H1.
  - apply fpart_bind. eapply rel_iput; [done|done|]. intros s2 H2. by rstep.
  - repeat rstep. eapply rel_call; [apply keeps_writei, u32_range|done|]. intros ? ? ? ?. by rstep.
Qed.

Lemma rel_ialloc_loop f dev type inum c (s : st) :
  REL c s → (G → cbnd 2147483646 c) →
  fpart (ialloc_loop f dev type inum) s (λ o s', REL (handed o c) s').
Proof.
  intros Hr Hb. revert inum s Hr. induction f as [|f IH]; intros inum s Hr; cbn [ialloc_loop];
    repeat rstep; try done.
  - eapply rel_iget; [done|done|]. intros j ? Hj. by rstep.
  - by apply IH.
Qed.

Lemma rel_ialloc dev type c (s : st) :
  REL c s → (G → cbnd 2147483646 c) → fpart (ialloc dev type) s (λ o s', REL (handed o c) s').
Proof. intros Hr Hb. unfold ialloc. repeat rstep. by apply rel_ialloc_loop. Qed.

Lemma rel_namex_loop f path np name c : ∀ ip (s : st),
  REL (cadd ip c) s → (G → cbnd 2147483645 c) →
  fpart (namex_loop de f ip path np name) s (λ r s', REL (handed r.1 c) s').
Proof.
  revert path name. induction f as [|f IH]; intros path name ip s Hr Hb; cbn [namex_loop]; [done|].
  assert (G → cbnd 2147483646 c) as Hb' by (intros g; eapply cbnd_mono; [|by apply Hb]; lia).
  destruct (skipelem path) as [[rest elem]|].
  - repeat rstep.
    + eapply rel_iunlockput; [done|done|]. intros ? Hs'. by rstep.
    + done.
    + eapply fpart_mono.
      { apply rel_dirlookup; [done|]. intros g. apply (cadd_bnd 2147483645). auto. }
      intros [[next o]|] s2 Hn; simpl in Hn; apply fpart_bind.
      * eapply rel_iunlockput.
        -- eapply rel_ext; [|exact Hn]. apply cadd_comm.
        -- intros g. apply (cadd_bnd 2147483645). auto.
        -- intros s3 Hs3. apply IH; [exact Hs3|exact Hb].
      * eapply rel_iunlockput; [done|done|]. intros s3 Hs3. by rstep.
  - rstep; [|by rstep]. apply fpart_bind. eapply rel_iput; [done|done|]. intros ? Hs'. by rstep.
Qed.

Lemma rel_namex cwd path np name c (s : st) :
  REL c s → (G → cbnd 2147483645 c ∧ 0 < c cwd) →
  fpart (namex de cwd path np name) s (λ r s', REL (handed r.1 c) s').
Proof.
  intros Hr Hb. unfold namex. apply fpart_bind.
  assert (G → cbnd 2147483646 c) as Hb' by (intros g; eapply cbnd_mono; [|by apply Hb]; lia).
  destruct (schar path =? 47).
  - eapply rel_iget; [done|done|]. intros i s' Hs'. apply rel_namex_loop; [done|]. intros g. by apply Hb.
  - eapply rel_idup; [done|intros g; split; [auto|by apply Hb]|].
    intros s' Hs'. apply rel_namex_loop; [done|]. intros g. by apply Hb.
Qed.

Lemma rel_ireclaim_loop f dev inum c (s : st) :
  REL c s → (G → cbnd 2147483646 c) → fpart (ireclaim_loop f dev inum) s (λ _ s', REL c s').
Proof.
  intros Hr Hb. revert inum s Hr. induction f as [|f IH]; intros inum s Hr; cbn [ireclaim_loop];
    repeat rstep; try done.
  - eapply rel_iget; [done|done|]. intros j s2 Hj. repeat rstep.
    eapply rel_iput; [done|done|]. intros s3 ?. repeat rstep. by apply IH.
  - by apply IH.
Qed.

Lemma rel_ireclaim dev c (s : st) :
  REL c s → (G → cbnd 2147483646 c) → fpart (ireclaim dev) s (λ _ s', REL c s').
Proof. intros Hr Hb. unfold ireclaim. repeat rstep. by apply rel_ireclaim_loop. Qed.

(** [fsinit] replaces the super block; its sizes are [uint]s. *)
Lemma rel_fsinit dev c (s : st) :
  REL c s → (G → cbnd 2147483646 c) → fpart (fsinit dev) s (λ _ s', REL c s').
Proof.
  intros Hr Hb. unfold fsinit, readsb. apply fpart_bind. repeat rstep.
  match goal with Hl : REL c ?s' |- fpart (modf (set_sb ?x)) ?s' ?Q =>
    assert (REL c (set_sb x s')) as Hx; [|change (Q tt (set_sb x s'))] end.
  - match goal with Hl : REL c ?s' |- REL c (set_sb _ ?s') => destruct Hl as [Hf Hg] end.
    split; [|exact Hg]. intros f. split; [apply u32_range|by apply Hf].
  - cbv beta. repeat rstep. by apply rel_ireclaim.
Qed.
End paths.

(** ** Lookup and the table, exactly *)
Section lookup.
Context {S : Type} `{BufOps S} {M : Type} `{UserMem M} (de : Z).
Abbreviation st := (fss S M).

(** C22: path lookup leaks no reference and takes none: when [namei] or
    [nameiparent] returns, the table counts one reference more than before for
    the inode it returns and the same for all others; when it fails (a missing
    or a non-directory element, an empty path with [nameiparent]) every count is
    as before. No two referenced entries are for the same inode. *)
Theorem namex_balanced (s s' : st) cwd path np name c o name' :
  krefs c (ikeys s) → (∀ i, 0 <= c i <= 2147483645) → 0 < c cwd →
  namex de cwd path np name s = Ok (o, name', s') →
  krefs (handed o c) (ikeys s').
Proof.
  intros Hk Hb Hc He.
  assert (rel False True c s) as Hr by done.
  pose proof (rel_namex False True de cwd path np name c s Hr (λ _, conj Hb Hc)) as Hn.
  destruct (fpart_ok _ _ _ _ _ Hn He) as [_ Hx]. by apply Hx.
Qed.

(** [iget] returns the table entry of the inode with one more reference,
    reusing the entry that is there and otherwise taking a free one with one
    reference and [valid] clear; it panics exactly when the inode is not in the
    table and no entry is free. The counts and the uniqueness of entries hold
    afterwards. *)
Theorem iget_correct (s : st) dev inum c :
  krefs c (ikeys s) → (∀ i, 0 <= c i <= 2147483645) →
  match iget dev inum s with
  | Ok (i, s') => ikeys s' !! i = Some (dev, inum, c i + 1) ∧ krefs (cadd i c) (ikeys s') ∧
      (∀ j, j ≠ i → itable s' !! j = itable s !! j) ∧
      (c i = 0 → i_valid <$> itable s' !! i = Some false)
  | Panic m => m = "iget: no inodes"%string ∧
      ∀ i k, ikeys s !! i = Some k → c i ≠ 0 ∧ k.1 ≠ (dev, inum)
  | NoFuel => False
  end.
Proof.
  intros Hk Hb.
  pose proof (rel_iget False True dev inum c s (λ i s', rel False True (cadd i c) s')) as Hr.
  unfold fpart in Hr. pose proof (iget_eq dev inum s) as He.
  destruct (iget dev inum s) as [[i s']|m|]; [| |done].
  - assert (krefs (cadd i c) (ikeys s')) as Hk'.
    { apply Hr; [by split|intros _; eapply cbnd_mono; [|exact Hb]; lia|auto|done]. }
    destruct He as (_ & ip & Hi & Hs' & Hcase).
    assert (i_ref ip = c i) as Hci.
    { apply (proj1 Hk i (key ip)). unfold ikeys. by rewrite list_lookup_fmap, Hi. }
    pose proof (lookup_lt_Some _ _ _ Hi) as Hlt. specialize (Hb i).
    split_and!; [|done| |];
      destruct Hcase as [(Hr' & <- & <- & Ht)|(Hr' & Hno & jp & Ht & Hjk & Hv)];
      unfold ikeys; rewrite ?list_lookup_fmap, ?Ht, ?list_lookup_insert_eq by done; simpl.
    + unfold key. simpl. rewrite i32_small, Hci by lia. done.
    + rewrite Hjk. do 2 f_equal. lia.
    + intros j Hj. by rewrite list_lookup_insert_ne.
    + intros j Hj. by rewrite list_lookup_insert_ne.
    + intros. lia.
    + intros _. by rewrite Hv.
  - destruct He as [-> He]. split; [done|]. intros i k Hi.
    pose proof (proj1 Hk i k Hi) as Hc. unfold ikeys in Hi. rewrite list_lookup_fmap in Hi.
    destruct (itable s !! i) as [ip|] eqn:Hip; simplify_eq/=.
    destruct (He ip) as [H1 H2]; [by eapply list_elem_of_lookup_2|].
    specialize (Hb i). split; [lia|apply H2; lia].
Qed.
End lookup.
