(* ===== verification/PathSpec.v ===== *)
(** * Path names

    [skipelem] against the definition of a path as a list of elements separated
    by slashes, termination of the lookup loop, and directory names as C strings
    of at most [DIRSIZ] characters. *)
From S2P Require Import Prelude Riscv Bio Log LogSpec Buf Proc UserMem Mem Uart Printf Console Fs FsLaws Dir.

(** ** Elements of a path *)
Fixpoint split_on (c : Z) (p : list Z) : list (list Z) :=
  match p with
  | [] => [[]]
  | x :: p' =>
      if x =? c then [] :: split_on c p'
      else match split_on c p' with e :: es => (x :: e) :: es | [] => [[x]] end
  end.

(** The elements of a path, each cut to [DIRSIZ] characters. *)
Definition elems (p : list Z) : list (list Z) :=
  take DIRSIZ <$> filter (λ e, e ≠ []) (split_on 47 p).

Definition nul_free (p : list Z) : Prop := Forall (λ c, c ≠ 0) p.

Lemma split_on_ne c p : split_on c p ≠ [].
Proof. destruct p as [|x p]; simpl; [done|]. destruct (x =? c); [done|]. by destruct (split_on c p). Qed.

Lemma elems_skip p : elems (skip_slashes p) = elems p.
Proof.
  induction p as [|c p IH]; simpl; [done|]. destruct (Z.eqb_spec c 47) as [->|]; [|done].
  rewrite IH. done.
Qed.

Lemma skip_slashes_length p : (length (skip_slashes p) <= length p)%nat.
Proof. induction p as [|c p IH]; simpl; [done|]. destruct (c =? 47); simpl; lia. Qed.

Lemma skip_slashes_head p : schar (skip_slashes p) ≠ 47.
Proof. induction p as [|c p IH]; simpl; [lia|]. destruct (Z.eqb_spec c 47); [exact IH|exact n]. Qed.

Lemma skip_slashes_nul_free p : nul_free p → nul_free (skip_slashes p).
Proof. unfold nul_free. induction 1 as [|c p Hc Hp IH]; simpl; [constructor|]. destruct (c =? 47); [done|]. by constructor. Qed.

Lemma split_elem_app p s r : split_elem p = (s, r) → p = s ++ r.
Proof.
  revert s r. induction p as [|c p IH]; intros s r; simpl; [by intros [= <- <-]|].
  destruct (negb (c =? 47) && negb (c =? 0)); [|by intros [= <- <-]].
  destruct (split_elem p) as [s' r'] eqn:He. intros [= <- <-]. simpl. f_equal. by apply IH.
Qed.

(** The element consumed by [split_elem] is the first one of the split. *)
Lemma split_elem_split p s r :
  nul_free p → split_elem p = (s, r) →
  (r = [] ∧ split_on 47 p = [s]) ∨ (∃ r', r = 47 :: r' ∧ split_on 47 p = s :: split_on 47 r').
Proof.
  intros Hp. revert s r. induction Hp as [|c p Hc Hp IH]; intros s r; simpl.
  { intros [= <- <-]. by left. }
  destruct (Z.eqb_spec c 47) as [->|H47]; simpl.
  { intros [= <- <-]. right. by exists p. }
  destruct (Z.eqb_spec c 0); [done|]. simpl.
  destruct (split_elem p) as [s' r'] eqn:He. intros [= <- <-].
  destruct (IH s' r' eq_refl) as [[-> ->]|(r'' & -> & ->)]; [by left|right]. by exists r''.
Qed.

Lemma split_elem_nonempty p s r :
  schar p ≠ 0 → schar p ≠ 47 → split_elem p = (s, r) → s ≠ [].
Proof.
  destruct p as [|c p]; simpl; [done|]. intros H0 H1.
  destruct (Z.eqb_spec c 47); [done|]. destruct (Z.eqb_spec c 0); [done|]. simpl.
  destruct (split_elem p). by intros [= <- <-].
Qed.

(** [skipelem] shortens the path. *)
Lemma skipelem_shorter path rest name : skipelem path = Some (rest, name) → (length rest < length path)%nat.
Proof.
  unfold skipelem. destruct (Z.eqb_spec (schar (skip_slashes path)) 0); [done|].
  destruct (split_elem (skip_slashes path)) as [s r] eqn:He. intros [= <- <-].
  pose proof (split_elem_app _ _ _ He) as Ha. apply (f_equal length) in Ha. rewrite length_app in Ha.
  pose proof (split_elem_nonempty _ _ _ n (skip_slashes_head path) He) as Hs.
  destruct s; [done|]. pose proof (skip_slashes_length path). pose proof (skip_slashes_length r).
  simpl in *. lia.
Qed.

Lemma schar_nil p : nul_free p → schar p = 0 → p = [].
Proof. by destruct 1. Qed.

Lemma skip_cut (s : list Z) : (if (DIRSIZ <=? length s)%nat then take DIRSIZ s else s) = take DIRSIZ s.
Proof. destruct (Nat.leb_spec DIRSIZ (length s)); [done|]. rewrite take_ge; [done|lia]. Qed.

(** [skipelem] takes the elements of a path one by one: it returns the first
    one, cut to [DIRSIZ] characters, and a shorter path with the remaining
    elements, which is at its end exactly when none remain; it returns 0 exactly
    when the path has no element. *)
Theorem skipelem_correct path :
  nul_free path →
  match skipelem path with
  | Some (rest, name) => elems path = name :: elems rest ∧ (length rest < length path)%nat ∧
      (schar rest = 0 ↔ elems rest = []) ∧ nul_free rest
  | None => elems path = []
  end.
Proof.
  intros Hp. destruct (skipelem path) as [[rest name]|] eqn:He.
  - pose proof (skipelem_shorter _ _ _ He) as Hlt. revert He. unfold skipelem.
    destruct (Z.eqb_spec (schar (skip_slashes path)) 0) as [|H0]; [done|].
    destruct (split_elem (skip_slashes path)) as [s r] eqn:Hs. rewrite skip_cut. intros [= <- <-].
    pose proof (skip_slashes_nul_free _ Hp) as Hp'.
    pose proof (split_elem_nonempty _ _ _ H0 (skip_slashes_head path) Hs) as Hne.
    assert (nul_free r) as Hr.
    { unfold nul_free in *. rewrite (split_elem_app _ _ _ Hs), Forall_app in Hp'. apply Hp'. }
    pose proof (skip_slashes_nul_free _ Hr) as Hr'.
    rewrite <-(elems_skip path). unfold elems at 1.
    split_and!; [|done| |done].
    + destruct (split_elem_split _ _ _ Hp' Hs) as [[-> ->]|(r' & -> & ->)].
      * rewrite filter_cons_True by done. done.
      * rewrite filter_cons_True by done. rewrite elems_skip. done.
    + split; [by intros ->%schar_nil|]. intros Hel.
      destruct (skip_slashes r) as [|c q] eqn:Hq; [done|exfalso].
      pose proof (skip_slashes_head r) as Hh. rewrite Hq in Hh. simpl in Hh.
      unfold elems in Hel. simpl in Hel. rewrite (proj2 (Z.eqb_neq _ _)) in Hel by done.
      destruct (split_on 47 q) as [|e es] eqn:Hsq; [by apply split_on_ne in Hsq|].
      rewrite filter_cons_True in Hel by done. done.
  - revert He. unfold skipelem. destruct (Z.eqb_spec (schar (skip_slashes path)) 0) as [H0|].
    + intros _. apply schar_nil in H0; [|by apply skip_slashes_nul_free].
      rewrite <-elems_skip, H0. done.
    + by destruct (split_elem _).
Qed.

Lemma skipelem_correct_witness :
  nul_free [47; 97; 47; 47; 98] ∧ skipelem [47; 97; 47; 47; 98] = Some ([98], [97]) ∧
  elems [47; 97; 47; 47; 98] = [97] :: elems [98].
Proof.
  assert (nul_free [47; 97; 47; 47; 98]) as Hn by (repeat constructor; lia).
  pose proof (skipelem_correct [47; 97; 47; 47; 98] Hn) as Hc.
  split_and!; [exact Hn|done|exact (proj1 Hc)].
Defined.

(** ** Termination of the lookup *)
Section term.
Context {S : Type} `{BufOps S} {M : Type} `{UserMem M} (de : Z).
Abbreviation st := (fss S M).

Lemma fs_bind_ext {A B} (m : @FS S M A) (k k' : A → @FS S M B) s :
  (∀ a s', k a s' = k' a s') → (m ≫= k) s = (m ≫= k') s.
Proof. intros Hk. unfold mbind, fs_bind. destruct (m s) as [[a s']| |]; simpl; auto. Qed.

Lemma namex_loop_fuel np n : ∀ path f f' ip name (s : st),
  (length path <= n)%nat → (length path < f)%nat → (length path < f')%nat →
  namex_loop de f ip path np name s = namex_loop de f' ip path np name s.
Proof.
  induction n as [|n IH]; intros path f f' ip name s Hn Hf Hf';
    (destruct f as [|f]; [lia|]); (destruct f' as [|f']; [lia|]); cbn [namex_loop];
    destruct (skipelem path) as [[rest elem]|] eqn:Hs; try done;
    apply skipelem_shorter in Hs; [lia|].
  apply fs_bind_ext. intros _ s1. apply fs_bind_ext. intros dp s2.
  destruct (negb _); [done|]. destruct (np && _); [done|].
  apply fs_bind_ext. intros [[next o]|] s3; [|done].
  apply fs_bind_ext. intros _ s4. apply IH; lia.
Qed.

(** Turns of the loop of [namex] for a path. *)
Definition lookup_turns (path : list Z) : nat := Datatypes.S (length path).

(** The fuel of the loop of [namex], one turn per character of the path, is
    enough: more gives the same result. *)
Lemma namex_fuel path f ip np name (s : st) :
  (lookup_turns path <= f)%nat →
  namex_loop de f ip path np name s = namex_loop de (lookup_turns path) ip path np name s.
Proof. unfold lookup_turns. intros Hf. eapply (namex_loop_fuel np (length path)); lia. Qed.
End term.

(** ** Names in directory entries *)
Fixpoint cstr (p : list Z) : list Z :=
  match p with c :: p' => if c =? 0 then [] else c :: cstr p' | [] => [] end.

Lemma cstr_schar p : schar p = schar (cstr p).
Proof. destruct p as [|c p]; simpl; [done|]. by destruct (Z.eqb_spec c 0). Qed.

Lemma cstr_tail p : schar p ≠ 0 → cstr p = schar p :: cstr (tail p).
Proof. destruct p as [|c p]; simpl; [done|]. by destruct (Z.eqb_spec c 0). Qed.
Lemma cstr_nul p : schar p = 0 → cstr p = [].
Proof. destruct p as [|c p]; simpl; [done|]. intros ->. done. Qed.

Lemma strncmp_str_eq n : ∀ p q, strncmp_str n p q = 0 ↔ take n (cstr p) = take n (cstr q).
Proof.
  induction n as [|n IH]; intros p q; cbn [strncmp_str]; [done|].
  destruct (Z.eqb_spec (schar p) 0) as [Hp|Hp]; simpl.
  - rewrite (cstr_nul p Hp), Hp. destruct (Z.eqb_spec (schar q) 0) as [Hq|Hq].
    + rewrite (cstr_nul q Hq), Hq. done.
    + rewrite (cstr_tail q Hq). simpl. split; [lia|done].
  - rewrite (cstr_tail p Hp). destruct (Z.eqb_spec (schar p) (schar q)) as [He|He].
    + rewrite (cstr_tail q) by congruence. rewrite IH. simpl. rewrite He. split; [by intros ->|].
      by intros [= ->].
    + split; [lia|]. destruct (Z.eqb_spec (schar q) 0) as [Hq|Hq].
      * by rewrite (cstr_nul q Hq).
      * rewrite (cstr_tail q Hq). simpl. by intros [= ? _].
Qed.

Lemma strncpy_str_length n p : length (strncpy_str n p) = n.
Proof.
  revert p. induction n as [|n IH]; intros p; cbn [strncpy_str]; [done|].
  destruct (schar p =? 0); [apply length_replicate|]. simpl. by rewrite IH.
Qed.

Lemma strncpy_str_cstr n p : cstr (strncpy_str n p) = take n (cstr p).
Proof.
  revert p. induction n as [|n IH]; intros p; cbn [strncpy_str]; [by destruct (cstr p)|].
  destruct (Z.eqb_spec (schar p) 0) as [Hp|Hp].
  - rewrite (cstr_nul p Hp). done.
  - rewrite (cstr_tail p Hp). simpl. rewrite (proj2 (Z.eqb_neq _ _)), IH by done. done.
Qed.

(** Two names are the same for the file system exactly when they agree in
    their first [DIRSIZ] characters, and the name stored by [strncpy] into a
    directory entry is the same as the name it was made from. *)
Theorem namecmp_correct name q :
  (namecmp name q = 0 ↔ take DIRSIZ (cstr name) = take DIRSIZ (cstr q)) ∧
  namecmp name (strncpy_str DIRSIZ name) = 0 ∧
  (namecmp (strncpy_str DIRSIZ name) q = 0 ↔ namecmp name q = 0).
Proof.
  unfold namecmp. rewrite !strncmp_str_eq, !strncpy_str_cstr, take_take, Nat.min_id. done.
Qed.
