(* ===== verification/Content.v ===== *)
(** * File contents

    The abstract file behind an inode: [content v ip o] is byte [o], read
    through the direct addresses and the indirect block; a byte of a block that
    is not allocated is 0.  [dwf] (free blocks are data blocks) and [iwf] (the
    blocks of a file are in use, distinct and data blocks) are the parts of the
    consistency of a disk that [bmap], [readi] and [writei] need and keep.  This
    file holds the facts about blocks; [ContentSpec] the code. *)
From S2P Require Import Prelude Riscv Bio Log LogSpec Buf Proc UserMem Mem Uart Printf Console Fs FsLaws FsAlloc Dinode Itable.

Section content.
Context `{LogArea} (x : superblock).

(** Blocks of the bitmap, of the inodes and of the log. *)
Definition meta (b : Z) : Prop :=
  (∃ c, 0 <= c < sb_size x ∧ b = BBLOCK c x) ∨ (∃ n, 0 <= n < sb_ninodes x ∧ b = IBLOCK n x) ∨
  in_log b = true.

Definition data_block (v : dview) (b : Z) : Prop :=
  0 < b < sb_size x ∧ used x v b = true ∧ ¬ meta b.

Record dwf (v : dview) : Prop := {
  dwf_len b : length (v b) = Z.to_nat BSIZE;
  dwf_free b : 0 <= b < sb_size x → used x v b = false → 0 < b ∧ ¬ meta b;
  dwf_ilog n : 0 <= n < sb_ninodes x → in_log (IBLOCK n x) = false;
  dwf_blog c : 0 <= c < sb_size x → in_log (BBLOCK c x) = false;
  dwf_meta n c : 0 <= n < sb_ninodes x → 0 <= c < sb_size x → IBLOCK n x ≠ BBLOCK c x;
  dwf_size : sb_size x < 4294967296
}.

(** The indirect block, and the block with number [bn] of the file; 0 if none. *)
Definition ind (ip : inode) : Z := aget (i_addrs ip) NDIRECT.
Definition blk (v : dview) (ip : inode) (bn : Z) : Z :=
  if bn <? NDIRECT then aget (i_addrs ip) bn
  else if ind ip =? 0 then 0 else getu32 (v (ind ip)) (4 * (bn - NDIRECT)).

Definition content (v : dview) (ip : inode) (o : Z) : Z :=
  let b := blk v ip (o / BSIZE) in if b =? 0 then 0 else aget (v b) (o mod BSIZE).

Record iwf (v : dview) (ip : inode) : Prop := {
  iwf_ok : inode_ok ip;
  iwf_ind : ind ip ≠ 0 → data_block v (ind ip);
  iwf_blk bn : 0 <= bn < MAXFILE → blk v ip bn ≠ 0 → data_block v (blk v ip bn) ∧ blk v ip bn ≠ ind ip;
  iwf_inj bn bn' : 0 <= bn < MAXFILE → 0 <= bn' < MAXFILE → blk v ip bn ≠ 0 →
    blk v ip bn = blk v ip bn' → bn = bn'
}.

Lemma getu32_zero k : 0 <= k → getu32 zero_block k = 0.
Proof.
  intros. assert (∀ j, aget zero_block j = 0) as Hz.
  { intros j. unfold aget. destruct (zero_block !! Z.to_nat j) eqn:He; [|done].
    unfold zero_block in He. by apply lookup_replicate in He as [-> _]. }
  unfold getu32, get32. rewrite !Hz. done.
Qed.

Lemma aget_zero j : aget zero_block j = 0.
Proof.
  unfold aget. destruct (zero_block !! Z.to_nat j) eqn:He; [|done].
  unfold zero_block in He. by apply lookup_replicate in He as [-> _].
Qed.

(** *** Views that agree on the blocks of a file *)
Lemma blk_ext v v' ip bn : (ind ip ≠ 0 → v' (ind ip) = v (ind ip)) → blk v' ip bn = blk v ip bn.
Proof.
  intros He. unfold blk. destruct (bn <? NDIRECT); [done|].
  destruct (Z.eqb_spec (ind ip) 0); [done|]. by rewrite He.
Qed.

(** What a change of the disk owes to the files it does not concern. *)
Definition keeps_data (v v' : dview) : Prop :=
  ∀ b, data_block v b → v' b = v b ∧ data_block v' b.

Lemma keeps_iwf v v' ip : keeps_data v v' → iwf v ip →
  iwf v' ip ∧ (∀ bn, blk v' ip bn = blk v ip bn) ∧
  (∀ o, 0 <= o < MAXFILE * BSIZE → content v' ip o = content v ip o).
Proof.
  intros Hk [Hok Hind Hblk Hinj].
  assert (∀ bn, blk v' ip bn = blk v ip bn) as Hb.
  { intros bn. apply blk_ext. intros Hi. by apply Hk, Hind. }
  split_and!; [|done|].
  - split; [done| | |].
    + intros Hi. by apply Hk, Hind.
    + intros bn Hbn. rewrite Hb. intros H0. destruct (Hblk bn Hbn H0). split; [|done]. by apply Hk.
    + intros bn bn'. rewrite !Hb. apply Hinj.
  - intros o Ho. unfold content. rewrite Hb. destruct (Z.eqb_spec (blk v ip (o / BSIZE)) 0); [done|].
    f_equal. apply Hk, Hblk; [|done]. unfold MAXFILE, NDIRECT, NINDIRECT, BSIZE in *. mlia.
Qed.

(** *** Allocation *)
Lemma dwf_bitmap v : dwf v → bitmap_used x v.
Proof. intros Hd b c Hb Hu Hc <-. destruct (dwf_free v Hd _ Hb Hu) as [_ Hm]. apply Hm. left. eauto. Qed.

Lemma meta_block a : 0 <= a < sb_size x → meta (BBLOCK a x).
Proof. intros. left. eauto. Qed.

Lemma data_unlogged v b : data_block v b → in_log b = false.
Proof. intros (_ & _ & Hm). destruct (in_log b) eqn:He; [|done]. exfalso. apply Hm. by right; right. Qed.

(** Every block that [balloc] touches may be logged. *)
Lemma dwf_usable v c h : dwf v → 0 <= c < sb_size x →
  (∀ i, h !! i ≠ Some (BBLOCK c x)) → (used x v c = false → ∀ i, h !! i ≠ Some c) →
  usable h (BBLOCK c x) ∧ (used x v c = false → usable h c).
Proof.
  intros Hd Hc Hb Hf. split; [split; [done|by apply (dwf_blog v Hd)]|].
  intros Hu. split; [auto|]. destruct (dwf_free v Hd c Hc Hu) as [_ Hm].
  destruct (in_log c) eqn:He; [|done]. exfalso. apply Hm. by right; right.
Qed.

Lemma allocated_len v a b :
  (∀ c, length (v c) = Z.to_nat BSIZE) → 0 <= a → length (allocated x v a b) = Z.to_nat BSIZE.
Proof.
  intros Hl Ha. unfold allocated, vset. case_decide; [apply zero_block_len|].
  case_decide; [|done]. rewrite mark_bit_len; [done|]. specialize (Hl (BBLOCK a x)). blia.
Qed.

Lemma allocated_dwf v a : dwf v → 0 <= a < sb_size x → used x v a = false → dwf (allocated x v a).
Proof.
  intros Hd Ha Hu. split; try apply Hd.
  - intros b. apply allocated_len; [apply Hd|lia].
  - intros b Hb. rewrite used_allocated by (try done; try apply Hd; by apply dwf_bitmap).
    intros [Hub _]%orb_false_iff. by apply (dwf_free v Hd).
Qed.

Lemma allocated_keeps v a : dwf v → 0 <= a < sb_size x → used x v a = false →
  keeps_data v (allocated x v a).
Proof.
  intros Hd Ha Hu b (Hb & Hub & Hm).
  assert (a ≠ b) by congruence.
  assert (BBLOCK a x ≠ b) by (intros <-; by apply Hm, meta_block).
  unfold data_block. rewrite used_allocated by (try done; try apply Hd; try lia; by apply dwf_bitmap).
  rewrite Hub. split_and!; try done; try lia. unfold allocated. by rewrite !vset_ne.
Qed.

Lemma allocated_new v a : dwf v → 0 <= a < sb_size x → used x v a = false →
  data_block (allocated x v a) a ∧ allocated x v a a = zero_block.
Proof.
  intros Hd Ha Hu. destruct (dwf_free v Hd a Ha Hu). unfold data_block.
  rewrite used_allocated by (try done; try apply Hd; by apply dwf_bitmap).
  rewrite Z.eqb_refl, orb_true_r. split_and!; try done; try lia. apply vset_eq.
Qed.

(** A store into a data block. *)
Lemma vset_used v b d c : data_block v b → 0 <= c < sb_size x → used x (vset b d v) c = used x v c.
Proof.
  intros (_ & _ & Hm) Hc. unfold used. rewrite vset_ne; [done|].
  intros ->. by apply Hm, meta_block.
Qed.

Lemma vset_dwf v b d : dwf v → data_block v b → length d = Z.to_nat BSIZE → dwf (vset b d v).
Proof.
  intros Hd Hb Hl. split; try apply Hd.
  - intros c. unfold vset. case_decide; [done|apply Hd].
  - intros c Hc. rewrite vset_used by done. by apply Hd.
Qed.

Lemma vset_data v b d c : data_block v b → data_block v c → data_block (vset b d v) c.
Proof. intros Hb (Hc & Hu & Hm). unfold data_block. by rewrite vset_used by (try done; lia). Qed.

(** *** A file grows by the block [a] *)
Lemma fresh_not_data v a b : used x v a = false → data_block v b → a ≠ b.
Proof. intros Hu (_ & Hb & _). congruence. Qed.

Lemma extend_iwf v v' ip ip' bn a :
  iwf v ip → inode_ok ip' → ind ip' = ind ip → 0 <= bn < MAXFILE → blk v ip bn = 0 →
  used x v a = false → data_block v' a → v' a = zero_block →
  (∀ b, data_block v b → data_block v' b) →
  (∀ b, data_block v b → b ≠ ind ip → v' b = v b) →
  (∀ b, 0 <= b < MAXFILE → blk v' ip' b = if b =? bn then a else blk v ip b) →
  iwf v' ip' ∧ blk v' ip' bn = a ∧
  (∀ o, 0 <= o < MAXFILE * BSIZE → content v' ip' o = content v ip o).
Proof.
  intros [Hok Hind Hblk Hinj] Hok' Hi Hbn H0 Hu Ha Hz Hd Hv Hb.
  assert (a ≠ 0) as Ha0 by (destruct Ha; lia).
  split_and!.
  - split; [done| | |].
    + rewrite Hi. auto.
    + intros b Hbr. rewrite Hb, Hi by done. destruct (Z.eqb_spec b bn) as [->|]; intros Hne.
      * split; [done|]. destruct (decide (ind ip = 0)) as [->|Hin]; [done|].
        by apply (fresh_not_data v); [|apply Hind].
      * destruct (Hblk b Hbr Hne). auto.
    + intros b b' Hbr Hbr'. rewrite !Hb by done.
      destruct (Z.eqb_spec b bn) as [->|], (Z.eqb_spec b' bn) as [->|]; intros Hne He.
      * done.
      * destruct (fresh_not_data v a (blk v ip b')); [done| |done]. apply Hblk; [done|congruence].
      * destruct (fresh_not_data v a (blk v ip b)); [done|by apply Hblk|done].
      * by apply Hinj.
  - by rewrite Hb, Z.eqb_refl.
  - intros o Ho. assert (0 <= o / BSIZE < MAXFILE) as Hr
      by (unfold MAXFILE, NDIRECT, NINDIRECT, BSIZE in *; mlia).
    unfold content. rewrite Hb by done. destruct (Z.eqb_spec (o / BSIZE) bn) as [->|].
    + rewrite H0. simpl. rewrite (proj2 (Z.eqb_neq _ _)), Hz by done. apply aget_zero.
    + destruct (Z.eqb_spec (blk v ip (o / BSIZE)) 0) as [|Hne]; [done|].
      destruct (Hblk _ Hr Hne). by rewrite Hv.
Qed.

Lemma aget_insert l k y j : (k < length l)%nat → 0 <= j →
  aget (<[k := y]> l) j = if j =? Z.of_nat k then y else aget l j.
Proof.
  intros Hk Hj. unfold aget. destruct (Z.eqb_spec j (Z.of_nat k)) as [->|Hne].
  - by rewrite Nat2Z.id, list_lookup_insert_eq.
  - rewrite list_lookup_insert_ne by lia. done.
Qed.

(** A direct block. *)
Lemma extend_direct v ip bn a :
  dwf v → iwf v ip → 0 <= bn < NDIRECT → aget (i_addrs ip) bn = 0 →
  0 <= a < sb_size x → used x v a = false →
  let v' := allocated x v a in
  let ip' := set_i_addrs (<[Z.to_nat bn := a]> (i_addrs ip)) ip in
  iwf v' ip' ∧ blk v' ip' bn = a ∧ (∀ o, 0 <= o < MAXFILE * BSIZE → content v' ip' o = content v ip o).
Proof.
  intros Hd Hi Hbn H0 Ha Hu v' ip'. unfold NDIRECT in *.
  destruct (allocated_new v a Hd Ha Hu) as [Hnew Hz].
  pose proof (allocated_keeps v a Hd Ha Hu) as Hk.
  pose proof (iwf_ok _ _ Hi) as Hok. pose proof Hok as (_ & _ & _ & _ & _ & Hl & _).
  pose proof (dwf_size v Hd).
  assert (ind ip' = ind ip) as Hind.
  { unfold ind, ip'. simpl. rewrite aget_insert by (unfold NDIRECT; lia).
    rewrite (proj2 (Z.eqb_neq _ _)); [done|unfold NDIRECT; lia]. }
  apply (extend_iwf v); try done.
  - apply insert_addr_ok; [done|unfold uint_ok; lia].
  - unfold MAXFILE, NDIRECT, NINDIRECT, BSIZE. mlia.
  - unfold blk, NDIRECT. by rewrite (proj2 (Z.ltb_lt _ _)) by lia.
  - intros b Hb. by apply Hk.
  - intros b Hb _. by apply Hk.
  - intros b Hb. rewrite (blk_ext v); [|rewrite Hind; intros Hn; by apply Hk, (iwf_ind _ _ Hi)].
    unfold blk. rewrite Hind. unfold NDIRECT. destruct (Z.ltb_spec b 12).
    + unfold ip'. simpl. rewrite aget_insert by lia. by rewrite Z2Nat.id by lia.
    + destruct (Z.eqb_spec b bn); [lia|done].
Qed.

(** The indirect block itself: no block of the file changes. *)
Lemma extend_ind v ip a :
  dwf v → iwf v ip → ind ip = 0 → 0 <= a < sb_size x → used x v a = false →
  let v' := allocated x v a in
  let ip' := set_i_addrs (<[Z.to_nat NDIRECT := a]> (i_addrs ip)) ip in
  iwf v' ip' ∧ ind ip' = a ∧ (∀ b, 0 <= b → blk v' ip' b = blk v ip b) ∧
  (∀ o, 0 <= o < MAXFILE * BSIZE → content v' ip' o = content v ip o).
Proof.
  intros Hd Hi H0 Ha Hu v' ip'. destruct (allocated_new v a Hd Ha Hu) as [Hnew Hz].
  pose proof (allocated_keeps v a Hd Ha Hu) as Hk.
  pose proof (iwf_ok _ _ Hi) as Hok. pose proof Hok as (_ & _ & _ & _ & _ & Hl & _).
  pose proof (dwf_size v Hd).
  assert (a ≠ 0) as Ha0 by (destruct Hnew; lia).
  assert (ind ip' = a) as Hind.
  { unfold ind, ip'. simpl. by rewrite aget_insert by (unfold NDIRECT; lia). }
  assert (∀ b, 0 <= b → blk v' ip' b = blk v ip b) as Hb.
  { intros b Hb0. unfold blk. rewrite Hind, H0. unfold NDIRECT. destruct (Z.ltb_spec b 12).
    - unfold ip'. simpl. rewrite aget_insert by (unfold NDIRECT; lia).
      rewrite (proj2 (Z.eqb_neq _ _)); [done|unfold NDIRECT; lia].
    - rewrite (proj2 (Z.eqb_neq _ _)) by done. unfold v'. rewrite Hz. simpl. apply getu32_zero. lia. }
  split_and!; [|done|done|].
  - split.
    + apply insert_addr_ok; [done|unfold uint_ok; lia].
    + intros _. by rewrite Hind.
    + intros bn Hbn. rewrite Hb, Hind by lia. intros Hne.
      destruct (iwf_blk _ _ Hi bn Hbn Hne) as [Hdb _]. split; [by apply Hk|].
      intros He. by apply (fresh_not_data v a (blk v ip bn)).
    + intros bn bn' Hbn Hbn'. rewrite !Hb by lia. by apply (iwf_inj _ _ Hi).
  - intros o Ho. assert (0 <= o / BSIZE < MAXFILE) as Hr
      by (unfold MAXFILE, NDIRECT, NINDIRECT, BSIZE in *; mlia).
    unfold content. rewrite Hb by lia. destruct (Z.eqb_spec (blk v ip (o / BSIZE)) 0) as [|Hne]; [done|].
    f_equal. by apply Hk, (iwf_blk _ _ Hi).
Qed.

Lemma getu32_put32_ne d off off' y :
  0 <= off → 0 <= off' → off + 4 <= zlen d → off' + 4 <= off ∨ off + 4 <= off' →
  getu32 (put32 d off y) off' = getu32 d off'.
Proof. intros. unfold getu32. by rewrite get32_put32_ne. Qed.

(** An entry of the indirect block. *)
Lemma extend_indirect v ip bn a :
  dwf v → iwf v ip → ind ip ≠ 0 → NDIRECT <= bn < MAXFILE → blk v ip bn = 0 →
  0 <= a < sb_size x → used x v a = false →
  let v1 := allocated x v a in
  let v' := vset (ind ip) (put32 (v (ind ip)) (4 * (bn - NDIRECT)) a) v1 in
  v1 (ind ip) = v (ind ip) ∧ dwf v' ∧ iwf v' ip ∧ blk v' ip bn = a ∧
  (∀ o, 0 <= o < MAXFILE * BSIZE → content v' ip o = content v ip o).
Proof.
  intros Hd Hi H0 Hbn Hb0 Ha Hu v1 v'. destruct (allocated_new v a Hd Ha Hu) as [Hnew Hz].
  pose proof (allocated_keeps v a Hd Ha Hu) as Hk. pose proof (dwf_size v Hd).
  pose proof (iwf_ind _ _ Hi H0) as Hdi. destruct (Hk _ Hdi) as [Hvi Hdi1].
  pose proof (dwf_len v Hd (ind ip)) as Hlen.
  change MAXFILE with 268 in *. change NDIRECT with 12 in *.
  assert (zlen (v (ind ip)) = 1024) as Hzl by (unfold zlen; rewrite Hlen; done).
  assert (a ≠ ind ip) by (intros Hc; by apply (fresh_not_data v a (ind ip))).
  split; [done|]. split.
  { apply vset_dwf; [by apply allocated_dwf|done|].
    pose proof (put32_length (v (ind ip)) (4 * (bn - 12)) a ltac:(lia) ltac:(lia)) as Hp.
    unfold zlen in Hp. lia. }
  apply (extend_iwf v); try done.
  - apply Hi.
  - change MAXFILE with 268. lia.
  - by apply vset_data.
  - unfold v'. rewrite vset_ne by done. done.
  - intros b Hb. apply vset_data; [done|by apply Hk].
  - intros b Hb Hne. unfold v'. rewrite vset_ne by done. by apply Hk.
  - intros b Hb. change MAXFILE with 268 in Hb. unfold blk, v'. rewrite vset_eq. change NDIRECT with 12.
    destruct (Z.ltb_spec b 12).
    + destruct (Z.eqb_spec b bn); [lia|done].
    + rewrite (proj2 (Z.eqb_neq _ _)) by done. destruct (Z.eqb_spec b bn) as [->|].
      * rewrite getu32_put32, u32_small by lia. done.
      * apply getu32_put32_ne; lia.
Qed.

(** *** A block of the file is overwritten *)
Lemma write_content v ip bn d :
  dwf v → iwf v ip → 0 <= bn < MAXFILE → blk v ip bn ≠ 0 → length d = Z.to_nat BSIZE →
  let v' := vset (blk v ip bn) d v in
  dwf v' ∧ iwf v' ip ∧ (∀ b, blk v' ip b = blk v ip b) ∧
  (∀ o, 0 <= o < MAXFILE * BSIZE →
     content v' ip o = if o / BSIZE =? bn then aget d (o mod BSIZE) else content v ip o).
Proof.
  intros Hd Hi Hbn Hne Hl v'. destruct (iwf_blk _ _ Hi bn Hbn Hne) as [Hdb Hni].
  assert (∀ b, blk v' ip b = blk v ip b) as Hb.
  { intros b. apply blk_ext. intros _. unfold v'. by rewrite vset_ne. }
  split_and!; [by apply vset_dwf| |done|].
  - split; [apply Hi| | |].
    + intros H0. by apply vset_data, (iwf_ind _ _ Hi).
    + intros b Hbr. rewrite Hb. intros Hnb. destruct (iwf_blk _ _ Hi b Hbr Hnb).
      split; [by apply vset_data|done].
    + intros b b'. rewrite !Hb. apply Hi.
  - intros o Ho. assert (0 <= o / BSIZE < MAXFILE) as Hr
      by (unfold MAXFILE, NDIRECT, NINDIRECT, BSIZE in *; mlia).
    unfold content. rewrite Hb. destruct (Z.eqb_spec (o / BSIZE) bn) as [->|Hob].
    + rewrite (proj2 (Z.eqb_neq _ _)) by done. unfold v'. by rewrite vset_eq.
    + destruct (Z.eqb_spec (blk v ip (o / BSIZE)) 0) as [|H0]; [done|].
      unfold v'. rewrite vset_ne; [done|]. intros He. apply Hob.
      symmetry. by apply (iwf_inj _ _ Hi).
Qed.

(** [iupdate] touches an inode block only. *)
Lemma updated_used v ip c : dwf v → 0 <= i_inum ip < sb_ninodes x → 0 <= c < sb_size x →
  used x (updated x v ip) c = used x v c.
Proof.
  intros Hd Hin Hc. unfold used, updated. rewrite vset_ne; [done|]. by apply (dwf_meta v Hd).
Qed.

Lemma updated_keeps v ip : dwf v → inode_ok ip → 0 <= i_inum ip < sb_ninodes x →
  dwf (updated x v ip) ∧ keeps_data v (updated x v ip).
Proof.
  intros Hd Hok Hin. destruct (dinode_off (i_inum ip)) as [Ho1 Ho2]; [lia|].
  assert (∀ c, 0 <= c < sb_size x → used x (updated x v ip) c = used x v c) as Hu.
  { intros c. by apply updated_used. }
  split.
  - split; try apply Hd.
    + intros b. unfold updated, vset. case_decide; [|apply Hd].
      pose proof (dwf_len v Hd (IBLOCK (i_inum ip) x)) as Hl.
      destruct (put_dinode_spec (v (IBLOCK (i_inum ip) x)) (i_inum ip mod IPB * DINODE) ip)
        as (Hz & _ & _); [done|lia|unfold zlen; rewrite Hl; done|]. unfold zlen in Hz. lia.
    + intros b Hb. rewrite Hu by done. by apply Hd.
  - intros b (Hb & Hub & Hm). split.
    + unfold updated. rewrite vset_ne; [done|]. intros <-. apply Hm. right. left. eauto.
    + unfold data_block. rewrite Hu by lia. done.
Qed.
End content.
