(* ===== verification/ContentSpec.v ===== *)
(** * bmap, readi and writei against the abstract file

    [ext v ip v' ip']: the disk and the inode changed, but the file's bytes did
    not, both stay consistent, and data blocks of other files are untouched.
    [bmap] only extends; [readi] extends and copies out the bytes; [writei]
    extends, replaces the bytes it copied in, and stores the inode. *)
From S2P Require Import Prelude Riscv Bio Log LogSpec Buf Proc UserMem Mem Uart Printf Console Fs FsLaws FsAlloc Dinode Itable Content.

Section ext.
Context `{LogArea} (x : superblock).

Definition owns (v : dview) (ip : inode) (b : Z) : Prop :=
  b = ind ip ∨ ∃ bn, 0 <= bn < MAXFILE ∧ blk v ip bn = b.

(** Data blocks of other files keep their content and their owner. *)
Definition frame (v : dview) (ip : inode) (v' : dview) (ip' : inode) : Prop :=
  ∀ b, data_block x v b → ¬ owns v ip b → v' b = v b ∧ data_block x v' b ∧ ¬ owns v' ip' b.

(** No block is free. *)
Definition full (v : dview) : Prop := ∀ b, 0 <= b < sb_size x → used x v b = true.

Record ext (v : dview) (ip : inode) (v' : dview) (ip' : inode) : Prop := {
  ext_dwf : dwf x v';
  ext_iwf : iwf x v' ip';
  ext_same : ip' = set_i_addrs (i_addrs ip') ip;
  ext_content o : 0 <= o < MAXFILE * BSIZE → content v' ip' o = content v ip o;
  ext_frame : frame v ip v' ip';
  ext_blk bn : 0 <= bn < MAXFILE → blk v ip bn ≠ 0 → blk v' ip' bn = blk v ip bn
}.

Lemma ext_refl v ip : dwf x v → iwf x v ip → ext v ip v ip.
Proof. intros. split; [done|done|by destruct ip|done|by intros b|done]. Qed.

Lemma frame_trans v1 p1 v2 p2 v3 p3 : frame v1 p1 v2 p2 → frame v2 p2 v3 p3 → frame v1 p1 v3 p3.
Proof.
  intros H1 H2 b Hb Ho. destruct (H1 b Hb Ho) as (He & Hb2 & Ho2).
  destruct (H2 b Hb2 Ho2) as (He' & ? & ?). split_and!; [congruence|done|done].
Qed.

Lemma ext_trans v1 p1 v2 p2 v3 p3 : ext v1 p1 v2 p2 → ext v2 p2 v3 p3 → ext v1 p1 v3 p3.
Proof.
  intros [D1 I1 S1 C1 F1 L1] [D2 I2 S2 C2 F2 L2]. split; [done|done| | |by eapply frame_trans|].
  - rewrite S2, S1. done.
  - intros o Ho. by rewrite C2, C1.
  - intros bn Hbn Hb. rewrite L2; [by apply L1|done|]. by rewrite L1.
Qed.

(** The frame of an extension by the fresh block [a]. *)
Lemma fresh_frame v ip v' ip' a :
  used x v a = false →
  (∀ b, data_block x v b → ¬ owns v ip b → v' b = v b ∧ data_block x v' b) →
  (ind ip' = ind ip ∨ ind ip' = a) →
  (∀ bn, 0 <= bn < MAXFILE → blk v' ip' bn = blk v ip bn ∨ blk v' ip' bn = a) →
  frame v ip v' ip'.
Proof.
  intros Hu Hv Hi Hb b Hd Ho. destruct (Hv b Hd Ho). split_and!; [done|done|].
  pose proof (fresh_not_data x v a b Hu Hd) as Hab. intros [->|(bn & Hbn & Hbb)].
  - destruct Hi as [Hi|Hi]; [|done]. apply Ho. by left.
  - destruct (Hb bn Hbn) as [He|He]; [|congruence]. apply Ho. right. exists bn. split; [done|congruence].
Qed.

(** The blocks of a file that gets [a] as block [bn]. *)
Lemma ind_direct ip bn a : inode_ok ip → 0 <= bn < NDIRECT →
  ind (set_i_addrs (<[Z.to_nat bn := a]> (i_addrs ip)) ip) = ind ip.
Proof using.
  intros (_ & _ & _ & _ & _ & Hl & _) Hbn. change NDIRECT with 12 in *.
  unfold ind. simpl. rewrite aget_insert by (change NDIRECT with 12; lia).
  rewrite (proj2 (Z.eqb_neq _ _)); [done|change NDIRECT with 12; lia].
Qed.

Lemma blk_direct v ip bn a b :
  dwf x v → iwf x v ip → 0 <= bn < NDIRECT → 0 <= a < sb_size x → used x v a = false → 0 <= b →
  blk (allocated x v a) (set_i_addrs (<[Z.to_nat bn := a]> (i_addrs ip)) ip) b =
    if b =? bn then a else blk v ip b.
Proof.
  intros Hd Hi Hbn Ha Hu Hb. pose proof (iwf_ok _ _ _ Hi) as Hok.
  pose proof (ind_direct ip bn a Hok Hbn) as Hin. pose proof Hok as (_ & _ & _ & _ & _ & Hl & _).
  pose proof (allocated_keeps x v a Hd Ha Hu) as Hk.
  rewrite (blk_ext v); [|rewrite Hin; intros Hn; by apply Hk, (iwf_ind _ _ _ Hi)].
  unfold blk. rewrite Hin. change NDIRECT with 12 in *. destruct (Z.ltb_spec b 12); simpl.
  - rewrite aget_insert by lia. by rewrite Z2Nat.id by lia.
  - destruct (Z.eqb_spec b bn); [lia|done].
Qed.

Lemma blk_indirect v ip bn a b :
  dwf x v → ind ip ≠ 0 → NDIRECT <= bn < MAXFILE → 0 <= a < sb_size x → 0 <= b < MAXFILE →
  blk (vset (ind ip) (put32 (v (ind ip)) (4 * (bn - NDIRECT)) a) (allocated x v a)) ip b =
    if b =? bn then a else blk v ip b.
Proof.
  intros Hd H0 Hbn Ha Hb. unfold blk. rewrite vset_eq. destruct (Z.ltb_spec b NDIRECT) as [|Hge].
  - destruct (Z.eqb_spec b bn); [lia|done].
  - rewrite (proj2 (Z.eqb_neq _ _)) by done. pose proof (dwf_len _ v Hd (ind ip)) as Hlen.
    change MAXFILE with 268 in *. change NDIRECT with 12 in *. pose proof (dwf_size _ v Hd).
    assert (zlen (v (ind ip)) = 1024) by (unfold zlen; rewrite Hlen; done).
    destruct (Z.eqb_spec b bn) as [->|].
    + rewrite getu32_put32, u32_small by lia. done.
    + apply getu32_put32_ne; lia.
Qed.

Lemma ext_direct v ip bn a :
  dwf x v → iwf x v ip → 0 <= bn < NDIRECT → aget (i_addrs ip) bn = 0 →
  0 <= a < sb_size x → used x v a = false →
  ext v ip (allocated x v a) (set_i_addrs (<[Z.to_nat bn := a]> (i_addrs ip)) ip) ∧
  blk (allocated x v a) (set_i_addrs (<[Z.to_nat bn := a]> (i_addrs ip)) ip) bn = a.
Proof.
  intros Hd Hi Hbn H0 Ha Hu. destruct (extend_direct x v ip bn a) as (H1 & H2 & H3); try done.
  split; [|done]. pose proof (allocated_keeps x v a Hd Ha Hu) as Hk.
  pose proof (ind_direct ip bn a (iwf_ok _ _ _ Hi) Hbn) as Hin.
  split; [by apply allocated_dwf|done|done|done| |].
  - apply (fresh_frame _ _ _ _ a); [done|intros b Hb' _; by apply Hk|by left|].
    intros b Hb'. rewrite blk_direct by (done || lia). destruct (b =? bn); auto.
  - intros b Hb' Hne. rewrite blk_direct by (done || lia). destruct (Z.eqb_spec b bn) as [->|]; [|done].
    exfalso. apply Hne. unfold blk. by rewrite (proj2 (Z.ltb_lt _ _)) by lia.
Qed.

Lemma ext_ind v ip a :
  dwf x v → iwf x v ip → ind ip = 0 → 0 <= a < sb_size x → used x v a = false →
  ext v ip (allocated x v a) (set_i_addrs (<[Z.to_nat NDIRECT := a]> (i_addrs ip)) ip) ∧
  ind (set_i_addrs (<[Z.to_nat NDIRECT := a]> (i_addrs ip)) ip) = a.
Proof.
  intros Hd Hi H0 Ha Hu. destruct (extend_ind x v ip a) as (H1 & H2 & H3 & H4); try done.
  pose proof (allocated_keeps x v a Hd Ha Hu) as Hk. split; [|done].
  split; [by apply allocated_dwf|done|done|done| |].
  - apply (fresh_frame _ _ _ _ a); [done|intros b Hb _; by apply Hk|by right|].
    intros bn Hbn. left. apply H3. lia.
  - intros bn Hbn _. apply H3. lia.
Qed.

Lemma ext_indirect v ip bn a :
  dwf x v → iwf x v ip → ind ip ≠ 0 → NDIRECT <= bn < MAXFILE → blk v ip bn = 0 →
  0 <= a < sb_size x → used x v a = false →
  let v' := vset (ind ip) (put32 (v (ind ip)) (4 * (bn - NDIRECT)) a) (allocated x v a) in
  ext v ip v' ip ∧ blk v' ip bn = a.
Proof.
  intros Hd Hi H0 Hbn Hb0 Ha Hu v'.
  destruct (extend_indirect x v ip bn a) as (H1 & H2 & H3 & H4 & H5); try done.
  pose proof (allocated_keeps x v a Hd Ha Hu) as Hk. split; [|done].
  pose proof (iwf_ind _ _ _ Hi H0) as Hdi. destruct (Hk _ Hdi) as [Hvi Hdi1].
  split; [done|done|by destruct ip|done| |].
  - apply (fresh_frame _ _ _ _ a); [done| |by left|].
    + intros b Hb' Ho. unfold v'. rewrite vset_ne; [|intros He; apply Ho; by left].
      split; [by apply Hk|]. apply vset_data; [done|by apply Hk].
    + intros b Hb'. unfold v'. rewrite blk_indirect by done. destruct (b =? bn); auto.
  - intros b Hb' Hne. unfold v'. rewrite blk_indirect by done. destruct (Z.eqb_spec b bn) as [->|]; done.
Qed.
End ext.

Lemma no_held (b : Z) (j : nat) : (∅ : gmap nat Z) !! j ≠ Some b.
Proof. by rewrite lookup_empty. Qed.

Section bmap.
Context {S : Type} `{BufLaws S} {M : Type} `{UserMem M}.
Abbreviation st := (fss S M).
Context (P : string → Prop) (HP : ∀ m, io_panic m → P m).

(** The state after a step that extends the file of entry [i]. *)
Record extended (s : st) (v : dview) (i : nat) (ip : inode) (s' : st) (v' : dview) (ip' : inode) : Prop := {
  ex_rep : frep s' v' ∅;
  ex_ext : ext (sb s) v ip v' ip';
  ex_sb : sb s' = sb s;
  ex_mem : fkm s' = fkm s ∧ fum s' = fum s;
  ex_tab : itable s' = <[i := ip']> (itable s)
}.

Lemma extended_refl s v i ip :
  frep s v ∅ → dwf (sb s) v → iwf (sb s) v ip → itable s !! i = Some ip → extended s v i ip s v ip.
Proof. intros. split; [done|by apply ext_refl|done|done|]. by rewrite list_insert_id. Qed.

Lemma extended_trans s1 v1 i p1 s2 v2 p2 s3 v3 p3 :
  extended s1 v1 i p1 s2 v2 p2 → extended s2 v2 i p2 s3 v3 p3 → extended s1 v1 i p1 s3 v3 p3.
Proof.
  intros [R1 E1 B1 [K1 U1] T1] [R2 E2 B2 [K2 U2] T2]. rewrite B1 in E2.
  split; [done|by eapply ext_trans|congruence|split; congruence|].
  rewrite T2, T1. by rewrite list_insert_insert_eq.
Qed.

(** Allocating a block for the file, and storing its number in [addrs[k]]. *)
Lemma balloc_none s v i ip (s' : st) y :
  frep s v ∅ → dwf (sb s) v → iwf (sb s) v ip → itable s !! i = Some ip →
  s' = add_msg "balloc: out of blocks" (set_lower y s) → brep y v ∅ ∅ →
  extended s v i ip s' v ip.
Proof.
  intros Hs Hd Hi Ht -> Hy. split; [done|by apply ext_refl|done|done|].
  simpl. by rewrite list_insert_id.
Qed.

Lemma alloc_ready_empty y v : dwf y v → alloc_ready y v ∅.
Proof. intros Hd b Hb. apply (dwf_usable y); [done..|]; intros; by rewrite lookup_empty. Qed.

(** The indirect block of the file, allocated if there is none. *)
Lemma get_ind_sat s v i ip :
  frep s v ∅ → itable s !! i = Some ip → i_dev ip = ROOTDEV → dwf (sb s) v → iwf (sb s) v ip →
  fsat P (if aget (i_addrs ip) NDIRECT =? 0 then
            addr ← balloc (i_dev ip);
            _ ← (if addr =? 0 then mret tt
                 else iset i (set_i_addrs (<[Z.to_nat NDIRECT := addr]> (i_addrs ip)) ip));
            mret addr
          else mret (aget (i_addrs ip) NDIRECT)) s
    (λ a s', ∃ v' ip', extended s v i ip s' v' ip' ∧ (a = 0 ∧ full (sb s) v' ∧ ind ip = 0 ∨ a = ind ip' ∧ a ≠ 0)).
Proof using HP.
  intros Hs Ht Hdev Hd Hi. destruct (Z.eqb_spec (aget (i_addrs ip) NDIRECT) 0) as [Hz|Hz].
  2: { apply fsat_ret. exists v, ip. split; [by apply extended_refl|]. by right. }
  rewrite Hdev. eapply fsat_seq; [apply balloc_sat; [done|done|by apply alloc_ready_empty]|].
  intros a s' [(y & Ha & Hu & _ & -> & Hy)|(-> & Hf & y & Hs' & Hy)].
  - destruct (dwf_free _ _ Hd a Ha Hu). destruct (ext_ind (sb s) v ip a) as [He Hin]; try done.
    rewrite (proj2 (Z.eqb_neq _ _)) by lia. apply fsat_bind, fsat_modf, fsat_ret.
    eexists _, _. split; [split; [exact Hy|exact He|done|done|done]|]. right. rewrite Hin. split; [done|lia].
  - simpl. apply fsat_bind, fsat_ret, fsat_ret. exists v, ip. split; [|by left]. by eapply balloc_none.
Qed.

(** The entry of block [12 + k] in the indirect block, allocated if 0. *)
Lemma get_entry_sat s v i ip k :
  frep s v ∅ → itable s !! i = Some ip → dwf (sb s) v → iwf (sb s) v ip →
  ind ip ≠ 0 → 0 <= k < NINDIRECT →
  fsat P (bp ← bread ROOTDEV (ind ip);
          a ← bdata bp;
          let addr := getu32 a (4 * k) in
          addr ← (if addr =? 0 then
                    addr ← balloc ROOTDEV;
                    _ ← (if negb (addr =? 0) then
                           _ ← bstore bp (put32 a (4 * k) addr);
                           log_write bp
                         else mret tt);
                    mret addr
                  else mret addr);
          _ ← brelse bp;
          mret addr) s
    (λ a s', ∃ v' ip', extended s v i ip s' v' ip' ∧ (a = 0 ∧ full (sb s) v' ∧ blk v ip (NDIRECT + k) = 0 ∨ a = blk v' ip' (NDIRECT + k) ∧ a ≠ 0)).
Proof using HP.
  intros Hs Ht Hd Hi Hin Hk. pose proof (iwf_ind _ _ _ Hi Hin) as Hdi.
  fs_read Hs (no_held (ind ip)). intros bp y Hbp Hy. fs_data Hy. cbv zeta.
  assert (blk v ip (NDIRECT + k) = getu32 (v (ind ip)) (4 * k)) as Hblk.
  { unfold blk. rewrite (proj2 (Z.ltb_ge _ _)), (proj2 (Z.eqb_neq _ _)) by (try done; lia).
    by replace (NDIRECT + k - NDIRECT) with k by lia. }
  assert (length (v (ind ip)) = Z.to_nat BSIZE) as Hlen by apply Hd.
  assert (∀ a, length (put32 (v (ind ip)) (4 * k) a) = Z.to_nat BSIZE) as Hput.
  { intros a. change NINDIRECT with 256 in Hk. apply Nat2Z.inj.
    rewrite <-Hlen. apply put32_length; unfold zlen; rewrite ?Hlen; [lia|].
    change (Z.of_nat (Z.to_nat BSIZE)) with 1024. lia. }
  destruct (Z.eqb_spec (getu32 (v (ind ip)) (4 * k)) 0) as [Hz|Hz].
  - apply fsat_bind.
    eapply fsat_seq.
    { apply balloc_sat; [done|exact Hy|]. intros b Hb. cbn [sb set_lower] in *.
      apply (dwf_usable (sb s)); [done..| |].
      - intros j Hj. apply lookup_insert_Some in Hj as [[_ He]|[_ He]]; [|by rewrite lookup_empty in He].
        destruct Hdi as (_ & _ & Hm). apply Hm. rewrite He. by apply meta_block.
      - intros Hub j Hj. apply lookup_insert_Some in Hj as [[_ He]|[_ He]]; [|by rewrite lookup_empty in He].
        destruct Hdi as (_ & Hu & _). congruence. }
    intros a s1 [(z & Ha & Hu & _ & -> & Hz1)|(-> & Hf & z & -> & Hz1)]; cbn [sb set_lower] in *.
    + destruct (dwf_free _ _ Hd a Ha Hu). rewrite (proj2 (Z.eqb_neq _ _)) by lia. simpl.
      apply fsat_bind. eapply fsat_store; [done|by rewrite lookup_insert_eq|exact Hz1|by eapply data_unlogged|by apply Hput|].
      intros w Hw. apply fsat_ret. cbn beta. eapply fsat_seq; [|intros ? s' Hq; apply fsat_ret; exact Hq].
      eapply fsat_brelse; [done|exact Hbp|exact Hw|]. intros u Hu'. cbn beta.
      destruct (ext_indirect (sb s) v ip (NDIRECT + k) a) as [He Hb]; try done.
      { change MAXFILE with 268. change NINDIRECT with 256 in Hk. change NDIRECT with 12. lia. }
      { by rewrite Hblk. }
      replace (NDIRECT + k - NDIRECT) with k in * by lia.
      eexists _, ip. split; [split; [exact Hu'|exact He|done|done|]|].
      * simpl. by rewrite list_insert_id.
      * right. split; [done|lia].
    + simpl. apply fsat_bind, fsat_ret, fsat_ret. eapply fsat_seq; [|intros ? s' Hq; apply fsat_ret; exact Hq].
      eapply fsat_brelse; [done|exact Hbp|exact Hz1|]. intros u Hu'. exists v, ip. split; [|left; by rewrite Hblk].
      split; [exact Hu'|by apply ext_refl|done|done|]. simpl. by rewrite list_insert_id.
  - apply fsat_bind, fsat_ret. eapply fsat_seq; [|intros ? s' Hq; apply fsat_ret; exact Hq].
    eapply fsat_brelse; [done|exact Hbp|exact Hy|]. intros u Hu'. exists v, ip. split; [|by right; rewrite Hblk].
    split; [exact Hu'|by apply ext_refl|done|done|]. simpl. by rewrite list_insert_id.
Qed.

(** [bmap] never loses a byte: it returns the block that holds block [bn] of the
    file, allocating it (and the indirect block) when there is none, or 0 when
    the disk is full; the bytes of the file, the blocks of all other files and
    the consistency of the disk are as before. *)
Lemma bmap_sat s v i ip bn :
  frep s v ∅ → itable s !! i = Some ip → i_dev ip = ROOTDEV → dwf (sb s) v → iwf (sb s) v ip →
  0 <= bn < MAXFILE →
  fsat P (bmap i bn) s (λ a s', ∃ v' ip', extended s v i ip s' v' ip' ∧
    (a = 0 ∧ full (sb s) v' ∧ blk v ip bn = 0 ∨ a = blk v' ip' bn ∧ a ≠ 0)).
Proof using HP.
  intros Hs Ht Hdev Hd Hi Hbn. unfold bmap. apply fsat_bind, (fsat_iat _ _ _ ip); [done|].
  destruct (Z.ltb_spec bn NDIRECT) as [Hlt|Hge].
  - destruct (Z.eqb_spec (aget (i_addrs ip) bn) 0) as [Hz|Hz].
    2: { apply fsat_ret. exists v, ip. split; [by apply extended_refl|]. right.
         unfold blk. by rewrite (proj2 (Z.ltb_lt _ _)). }
    rewrite Hdev. eapply fsat_seq; [apply balloc_sat; [done|done|by apply alloc_ready_empty]|].
    intros a s' [(y & Ha & Hu & _ & -> & Hy)|(-> & Hf & y & Hs' & Hy)].
    + destruct (dwf_free _ _ Hd a Ha Hu).
      destruct (ext_direct (sb s) v ip bn a) as [He Hb]; try done; [lia|].
      rewrite (proj2 (Z.eqb_neq _ _)) by lia. apply fsat_bind, fsat_modf, fsat_ret.
      eexists _, _. split; [split; [exact Hy|exact He|done|done|done]|]. right. rewrite Hb. split; [done|lia].
    + apply fsat_ret. exists v, ip. split; [|left; split_and!; [done|done|]; unfold blk; by rewrite (proj2 (Z.ltb_lt _ _))]. by eapply balloc_none.
  - change MAXFILE with 268 in *. change NDIRECT with 12 in *. rewrite u32_small by lia.
    rewrite (proj2 (Z.ltb_lt _ _)) by (unfold NINDIRECT, BSIZE; mlia).
    eapply fsat_seq; [by eapply get_ind_sat|]. intros a s1 (v1 & ip1 & Hex & Ha).
    destruct (Z.eqb_spec a 0) as [->|Hne].
    { apply fsat_ret. exists v1, ip1. split; [done|]. left.
      destruct Ha as [(_ & ? & Hno)|[_ ?]]; [|done]. split_and!; [done|done|].
      unfold blk. rewrite (proj2 (Z.ltb_ge _ _)) by done. by rewrite Hno. }
    destruct Ha as [[? _]|[-> Hin]]; [done|].
    destruct Hex as [R1 E1 B1 K1 T1]. pose proof E1 as [D1 I1 S1 C1 F1 L1].
    assert (itable s1 !! i = Some ip1) as Ht1.
    { rewrite T1. apply list_lookup_insert_eq. by eapply lookup_lt_Some. }
    rewrite Hdev. eapply fsat_mono.
    { apply (get_entry_sat s1 v1 i ip1 (bn - 12)); [done|done|by rewrite B1|by rewrite B1|done|].
      change NINDIRECT with 256. lia. }
    intros a s2 (v2 & ip2 & Hex2 & Ha2). exists v2, ip2. split.
    + eapply extended_trans; [split; [exact R1|exact E1|done|done|done]|done].
    + destruct Ha2 as [(? & ? & Hb2)|?]; [left|right];
        replace (NDIRECT + (bn - 12)) with bn in * by (change NDIRECT with 12; lia); [|done].
      rewrite B1 in *. split_and!; [done|done|].
      destruct (decide (blk v ip bn = 0)) as [|Hnz]; [done|]. rewrite <-L1; done.
Qed.
End bmap.

(** ** writei *)

(** The bytes [byte 0 .. byte (n - 1)] can be read at [src]. *)
Definition source_ok {M} `{UserMem M} (u src n : Z) (byte : Z → Z) (k : mem) (m : M) : Prop :=
  if u =? 0 then ∀ t, 0 <= t < n → ld8 k (src + t) = byte t
  else um_ok m ∧ ∀ t, 0 <= t < n →
    readable m (u64 (src + t)) ∧ uget m (u64 (src + t)) = Some (byte t).

(** The source ends at [lim]: at a count of [n], or before it at an address of the
    user that is not mapped. *)
Definition source_end {M} `{UserMem M} (u src n lim : Z) (m : M) : Prop :=
  lim = n ∨ lim < n ∧ (u =? 0) = false ∧ uget m (u64 (src + lim)) = None.

(** The fault is at the start of the source or of a block of the file, so that no
    copy stops within a block. *)
Definition clean_end (off n lim : Z) : Prop := lim = n ∨ lim = 0 ∨ (off + lim) mod BSIZE = 0.

Lemma ld_bytes_seq k n : ∀ a (f : Z → Z) t,
  (∀ j, 0 <= j < Z.of_nat n → ld8 k (a + j) = f (t + j)) → ld_bytes k a n = f <$> seqZ t (Z.of_nat n).
Proof.
  induction n as [|n IH]; intros a f t Hf; [done|].
  rewrite seqZ_cons by lia. cbn [ld_bytes fmap list_fmap]. f_equal.
  - specialize (Hf 0). rewrite !Z.add_0_r in Hf. apply Hf. lia.
  - replace (Z.pred (Z.of_nat (S n))) with (Z.of_nat n) by lia. apply IH. intros j Hj.
    specialize (Hf (1 + j)). rewrite !Z.add_assoc in Hf. replace (Z.succ t + j) with (t + 1 + j) by lia.
    apply Hf. lia.
Qed.

Lemma aget_seqZ (f : Z → Z) t n j : 0 <= j < n → aget (f <$> seqZ t n) j = f (t + j).
Proof.
  intros Hj. unfold aget. rewrite list_lookup_fmap, (lookup_seqZ_lt t n (Z.to_nat j)) by lia.
  simpl. f_equal. lia.
Qed.

Lemma source_copyin {M} `{UserMemLaws M} u src n byte k (m : M) t c :
  source_ok u src n byte k m → 0 <= t → 0 <= c → t + c <= n →
  ∃ m', either_copyin u (src + t) c k m = (m', 0, byte <$> seqZ t c) ∧ source_ok u src n byte k m'.
Proof.
  intros Hs Ht Hc Hn. unfold either_copyin, source_ok in *. destruct (u =? 0); simpl.
  - exists m. split; [|done]. do 2 f_equal.
    replace c with (Z.of_nat (Z.to_nat c)) at 2 by lia. apply ld_bytes_seq. intros j Hj.
    rewrite <-Z.add_assoc. apply Hs. lia.
  - destruct Hs as [Hok Hb]. destruct (copyin m (src + t) c) as [[m' r] bs] eqn:He.
    destruct (copyin_spec m (src + t) c m' r bs Hok Hc He) as (Hok' & Hu & Hbs & Hr).
    assert (r = 0) as ->.
    { apply (copyin_readable m (src + t) c m' r bs Hok Hc He). intros j Hj.
      rewrite <-Z.add_assoc. apply Hb. lia. }
    destruct Hr as [[_ Hl]|[? _]]; [|done]. exists m'. split.
    + f_equal. apply aget_ext.
      { rewrite length_fmap, length_seqZ. unfold zlen in Hl. lia. }
      intros j Hj. rewrite aget_seqZ by lia.
      specialize (Hbs j Hj). rewrite <-Z.add_assoc in Hbs.
      destruct (Hb (t + j)) as [_ Hb']; [lia|]. congruence.
    + split; [done|]. intros j Hj. destruct (Hb j Hj) as [H1 H2]. rewrite Hu. split; [|done].
      by apply (copyin_keeps_readable m (src + t) c m' 0 bs).
Qed.

(** A copy that does not stop before the end keeps it there; one that starts
    there stores nothing and fails. *)
Lemma source_end_copyin {M} `{UserMemLaws M} u src n lim k (m : M) a c m' r bs :
  source_end u src n lim m → um_ok m ∨ (u =? 0) = true → 0 <= c → either_copyin u a c k m = (m', r, bs) →
  source_end u src n lim m'.
Proof.
  intros Hs Ho Hc He. unfold either_copyin in He. destruct (u =? 0) eqn:Hu; [injection He as <- _ _; exact Hs|].
  destruct Ho as [Ho|?]; [|done]. destruct (copyin_spec m a c m' r bs Ho Hc He) as (_ & Hg & _).
  unfold source_end in *. by rewrite Hg.
Qed.
Lemma source_fault {M} `{UserMemLaws M} u src n byte k lim (m : M) c :
  source_ok u src lim byte k m → source_end u src n lim m → lim < n → 0 < c →
  ∃ m', either_copyin u (src + lim) c k m = (m', -1, []) ∧ source_ok u src lim byte k m'.
Proof.
  intros Hs [?|(_ & Hu & Hn)] Hl Hc; [lia|]. unfold either_copyin, source_ok in *. rewrite Hu in *.
  destruct Hs as [Hok Hb]. destruct (copyin m (src + lim) c) as [[m' r] bs] eqn:He.
  destruct (copyin_spec m (src + lim) c m' r bs Hok ltac:(lia) He) as (Hok' & Hg & Hbs & Hr).
  assert (zlen bs = 0) as Hz.
  { destruct (decide (zlen bs = 0)); [done|]. specialize (Hbs 0). rewrite Z.add_0_r, Hn in Hbs.
    pose proof (zlen_nonneg bs). by specialize (Hbs ltac:(lia)). }
  destruct bs; [|unfold zlen in Hz; simpl in Hz; lia]. exists m'. split.
  - by destruct Hr as [[_ ?]|[-> _]]; [lia|].
  - split; [done|]. intros j Hj. destruct (Hb j Hj) as [H1 H2]. rewrite Hg. split; [|done].
    by apply (copyin_keeps_readable m (src + lim) c m' r []).
Qed.
Lemma source_um_ok {M} `{UserMem M} u src n byte k (m : M) : source_ok u src n byte k m → um_ok m ∨ (u =? 0) = true.
Proof. unfold source_ok. destruct (u =? 0); [intros; by right|]. intros [? _]. by left. Qed.


Section writei.
Context {S : Type} `{BufLaws S} {M : Type} `{!UserMem M} `{!UserMemLaws M}.
Abbreviation st := (fss S M).
Context (P : string → Prop) (HP : ∀ m, io_panic m → P m).

(** The state after bytes of the file of entry [i] were replaced: byte [o] is
    now [f o]. *)
Record wrote (s : st) (v : dview) (i : nat) (ip : inode) (s' : st) (v' : dview) (ip' : inode)
    (f : Z → Z) : Prop := {
  wr_rep : frep s' v' ∅;
  wr_dwf : dwf (sb s) v';
  wr_iwf : iwf (sb s) v' ip';
  wr_same : ip' = set_i_addrs (i_addrs ip') ip;
  wr_content o : 0 <= o < MAXFILE * BSIZE → content v' ip' o = f o;
  wr_frame : frame (sb s) v ip v' ip';
  wr_blk bn : 0 <= bn < MAXFILE → blk v ip bn ≠ 0 → blk v' ip' bn = blk v ip bn;
  wr_sb : sb s' = sb s;
  wr_kmem : fkm s' = fkm s;
  wr_tab : itable s' = <[i := ip']> (itable s)
}.

Lemma extended_wrote s v i ip s' v' ip' :
  extended s v i ip s' v' ip' → wrote s v i ip s' v' ip' (content v ip).
Proof. intros [R [D I E C F L] B [K U] T]. by split. Qed.

Lemma wrote_trans s1 v1 i p1 s2 v2 p2 s3 v3 p3 f g :
  wrote s1 v1 i p1 s2 v2 p2 f → wrote s2 v2 i p2 s3 v3 p3 g → wrote s1 v1 i p1 s3 v3 p3 g.
Proof.
  intros [R1 D1 I1 E1 C1 F1 L1 B1 K1 T1] [R2 D2 I2 E2 C2 F2 L2 B2 K2 T2].
  rewrite B1 in *. split; try done; try congruence.
  - rewrite E2, E1. done.
  - by eapply frame_trans.
  - intros bn Hbn Hb. rewrite L2; [by apply L1|done|]. by rewrite L1.
  - by rewrite T2, T1, list_insert_insert_eq.
Qed.

Lemma wrote_ext s v i ip s' v' ip' f g :
  (∀ o, 0 <= o < MAXFILE * BSIZE → f o = g o) → wrote s v i ip s' v' ip' f → wrote s v i ip s' v' ip' g.
Proof. intros Hfg [R D I E C F L B K T]. split; try done. intros o Ho. rewrite C, Hfg; done. Qed.

(** Bytes [off .. off + n) replaced by [byte t ..]. *)
Definition stored (f : Z → Z) (off n : Z) (byte : Z → Z) (t : Z) (o : Z) : Z :=
  if (off <=? o) && (o <? off + n) then byte (t + (o - off)) else f o.

(** One block is overwritten from [off] with [c] bytes of the source. *)
Lemma store_block_sat {B} s v i ip off c t byte (kk : FS B) (Q : B → st → Prop) bp y :
  itable s !! i = Some ip → dwf (sb s) v → iwf (sb s) v ip → 0 <= off →
  0 <= off / BSIZE < MAXFILE → blk v ip (off / BSIZE) ≠ 0 →
  0 <= c <= BSIZE - off mod BSIZE → lower s = y → brep y v ∅ {[bp := blk v ip (off / BSIZE)]} →
  (∀ s' v', wrote s v i ip s' v' ip (stored (content v ip) off c byte t) → fum s' = fum s → fsat P kk s' Q) →
  fsat P (_ ← bstore bp (splice (v (blk v ip (off / BSIZE))) (off mod BSIZE) (byte <$> seqZ t c));
          _ ← log_write bp; _ ← brelse bp; kk) s Q.
Proof using HP.
  intros Ht Hd Hi Hoff Hbn Hne Hc <- Hy Hk.
  pose proof (dwf_len _ v Hd (blk v ip (off / BSIZE))) as Hlen.
  assert (zlen (v (blk v ip (off / BSIZE))) = BSIZE) as Hzl by (unfold zlen; rewrite Hlen; done).
  assert (zlen (byte <$> seqZ t c) = c) as Hzc by (unfold zlen; rewrite length_fmap, length_seqZ; lia).
  assert (0 <= off mod BSIZE) as Hm by (apply Z.mod_pos_bound; done).
  assert (length (splice (v (blk v ip (off / BSIZE))) (off mod BSIZE) (byte <$> seqZ t c)) = Z.to_nat BSIZE) as Hl.
  { apply Nat2Z.inj. rewrite <-Hlen. apply splice_length; lia. }
  destruct (write_content (sb s) v ip (off / BSIZE) _ Hd Hi Hbn Hne Hl) as (Hd' & Hi' & Hb' & Hc').
  eapply fsat_commit; [done| |rewrite insert_empty; exact Hy| |done|]; [by rewrite lookup_empty| |].
  { eapply data_unlogged. by apply (iwf_blk _ _ _ Hi). }
  intros z Hz. eapply Hk; [|done].
  split; [exact Hz|done|done|by destruct ip| | |by intros; apply Hb'|done|done|by simpl; rewrite list_insert_id].
  - intros o Ho. rewrite Hc' by done. unfold stored.
    assert (0 <= o mod BSIZE) by (apply Z.mod_pos_bound; done).
    rewrite splice_aget by lia. rewrite Hzc.
    destruct (Z.eqb_spec (o / BSIZE) (off / BSIZE)) as [He|He].
    + assert (o - off = o mod BSIZE - off mod BSIZE) as Hsub by blia.
      destruct (Z.leb_spec (off mod BSIZE) (o mod BSIZE)), (Z.leb_spec off o); simpl; try lia;
        [destruct (Z.ltb_spec (o mod BSIZE) (off mod BSIZE + c)), (Z.ltb_spec o (off + c)); simpl; try lia|].
      * rewrite aget_seqZ by lia. f_equal. lia.
      * unfold content. rewrite He. by rewrite (proj2 (Z.eqb_neq _ _)).
      * unfold content. rewrite He. by rewrite (proj2 (Z.eqb_neq _ _)).
    + destruct (Z.leb_spec off o), (Z.ltb_spec o (off + c)); simpl; try done.
      exfalso. apply He. blia.
  - intros b Hb Ho. assert (blk v ip (off / BSIZE) ≠ b) as Hbb.
    { intros He. apply Ho. right. by exists (off / BSIZE). }
    rewrite vset_ne by done. split_and!; [done| |].
    + apply vset_data; [|done]. by apply (iwf_blk _ _ _ Hi).
    + intros [->|(bn & Hbn' & Hbl)]; [apply Ho; by left|]. apply Ho. right. exists bn. by rewrite <-Hb'.
Qed.

Lemma wrote_start s s' v i ip s2 v2 ip2 f :
  sb s = sb s' → fkm s = fkm s' → itable s = itable s' →
  wrote s v i ip s2 v2 ip2 f → wrote s' v i ip s2 v2 ip2 f.
Proof. intros Hb Hk Ht [R D I E C F L B K T]. rewrite Hb, Hk, Ht in *. by split. Qed.

Lemma wrote_lookup s v i ip s2 v2 ip2 f :
  itable s !! i = Some ip → wrote s v i ip s2 v2 ip2 f → itable s2 !! i = Some ip2.
Proof. intros Hi Hw. rewrite (wr_tab _ _ _ _ _ _ _ _ Hw). apply list_lookup_insert_eq. by eapply lookup_lt_Some. Qed.

(** Progress of the loops: [f] turns are enough for [r] bytes from [off]. *)
Definition enough (f : nat) (off r : Z) : Prop :=
  r <= 0 ∨ r <= BSIZE * (Z.of_nat f - 1) + (BSIZE - off mod BSIZE).

Lemma enough_pos f off r : enough f off r → 0 < r → (0 < f)%nat.
Proof. intros [?|Hr] ?; [lia|]. destruct f; [|lia]. blia. Qed.

Lemma enough_step f off r c : 0 <= off → enough (Datatypes.S f) off r → c = Z.min r (BSIZE - off mod BSIZE) →
  enough f (off + c) (r - c).
Proof.
  intros Hoff [?|Hr] ->; [left; blia|]. destruct (Z.le_gt_cases r (BSIZE - off mod BSIZE)).
  - left. lia.
  - right. rewrite Z.min_r by lia. blia.
Qed.

Lemma enough_start off n : 0 <= n → enough (Z.to_nat (n / BSIZE + 2)) off n.
Proof. intros Hn. right. blia. Qed.

Lemma stored_step f off c n byte t o :
  0 <= c <= n → stored (stored f off c byte t) (off + c) (n - c) byte (t + c) o = stored f off n byte t o.
Proof.
  intros Hc. unfold stored.
  destruct (Z.leb_spec (off + c) o), (Z.ltb_spec o (off + c + (n - c))), (Z.leb_spec off o),
    (Z.ltb_spec o (off + c)), (Z.ltb_spec o (off + n)); simpl; try lia; try done.
  f_equal. lia.
Qed.

Lemma stored_ext f g off n byte t o : f o = g o → stored f off n byte t o = stored g off n byte t o.
Proof. intros He. unfold stored. by destruct (_ && _). Qed.

Lemma stored_none f off byte t o : stored f off 0 byte t o = f o.
Proof. unfold stored. destruct (Z.leb_spec off o), (Z.ltb_spec o (off + 0)); simpl; done || lia. Qed.

Definition write_post (s : st) (v : dview) (i : nat) (ip : inode) (u src n lim : Z) (byte : Z → Z)
    (off tot : Z) (r : Z * Z) (s' : st) : Prop :=
  ∃ v' ip', tot <= r.2 <= lim ∧ r.1 = off + (r.2 - tot) ∧
    wrote s v i ip s' v' ip' (stored (content v ip) off (r.2 - tot) byte tot) ∧
    source_ok u src lim byte (fkm s) (fum s') ∧ source_end u src n lim (fum s') ∧
    (r.2 = lim ∨ full (sb s) v') ∧
    (∀ o, off <= o < r.1 → blk v' ip' (o / BSIZE) ≠ 0).

Lemma writei_loop_sat u src n lim byte i f : ∀ s v ip off tot,
  frep s v ∅ → itable s !! i = Some ip → i_dev ip = ROOTDEV → dwf (sb s) v → iwf (sb s) v ip →
  source_ok u src lim byte (fkm s) (fum s) → source_end u src n lim (fum s) →
  (lim = n ∨ tot = lim ∨ (off + (lim - tot)) mod BSIZE = 0) → 0 <= src → src + n < 18446744073709551616 →
  n < 4294967296 → 0 <= tot <= lim → lim <= n → 0 <= off → off + (n - tot) <= MAXFILE * BSIZE →
  enough f off (n - tot) →
  fsat P (writei_loop f i u (src + tot) off n tot) s (write_post s v i ip u src n lim byte off tot).
Proof using HP UserMemLaws0.
  induction f as [|f IH]; intros s v ip off tot Hs Ht Hdev Hd Hi Hsrc Hend Hal Hs0 Hs1 Hn32 Htot Hln Hoff Hmax Hen;
    cbn [writei_loop]; destruct (Z.ltb_spec tot n) as [Hlt|Hge].
  1: { apply enough_pos in Hen; lia. }
  1,3: apply fsat_ret; exists v, ip; cbn [fst snd];
    (split; [lia|]); (split; [lia|]); (split; [|split; [done|split; [done|split; [left; lia|intros; lia]]]]);
    replace (tot - tot) with 0 by lia; eapply wrote_ext; [intros o _; symmetry; apply stored_none|];
    by apply extended_wrote, extended_refl.
  assert (0 <= off / BSIZE < MAXFILE) as Hbn by (change MAXFILE with 268 in *; blia).
  eapply fsat_seq; [by eapply (bmap_sat P HP)|]. intros a s1 (v1 & ip1 & Hex & Ha).
  pose proof (extended_wrote _ _ _ _ _ _ _ Hex) as Hw1.
  destruct (Z.eqb_spec a 0) as [->|Hne].
  { apply fsat_ret. exists v1, ip1. cbn [fst snd]. split; [lia|]. split; [lia|]. split_and!.
    - replace (tot - tot) with 0 by lia. eapply wrote_ext; [intros o _; symmetry; apply stored_none|done].
    - destruct (ex_mem _ _ _ _ _ _ _ Hex) as [_ ->]. done.
    - destruct (ex_mem _ _ _ _ _ _ _ Hex) as [_ ->]. done.
    - right. destruct Ha as [(_ & ? & _)|[_ ?]]; done.
    - intros; lia. }
  destruct Ha as [[? _]|[-> Hnb]]; [done|].
  pose proof (wrote_lookup _ _ _ _ _ _ _ _ Ht Hw1) as Ht1.
  destruct Hex as [R1 [D1 I1 E1 C1 F1 L1] B1 [K1 U1] T1].
  apply fsat_bind, (fsat_iat _ _ _ ip1); [done|].
  assert (i_dev ip1 = ROOTDEV) as Hdev1 by (rewrite E1; done). rewrite Hdev1.
  fs_read R1 (no_held (blk v1 ip1 (off / BSIZE))). intros bp y Hbp Hy. fs_data Hy.
  assert (0 <= off mod BSIZE < BSIZE) as Hmod by (apply Z.mod_pos_bound; done).
  rewrite (u32_small (n - tot)), (u32_small (BSIZE - off mod BSIZE)) by (unfold BSIZE in *; lia).
  set (c := Z.min (n - tot) (BSIZE - off mod BSIZE)).
  assert (0 < c <= n - tot ∧ c <= BSIZE - off mod BSIZE) as Hc by (unfold c; lia).
  fs_get. fs_get. cbn [fkm fum set_lower]. rewrite K1, U1.
  destruct (decide (tot = lim)) as [->|Hlim].
  { destruct (source_fault u src n byte (fkm s) lim (fum s) c Hsrc Hend) as (um' & He & Hsrc'); [lia..|].
    pose proof (source_end_copyin _ _ _ _ _ _ _ _ _ _ _ Hend (source_um_ok _ _ _ _ _ _ Hsrc) (Z.lt_le_incl _ _ (proj1 (proj1 Hc))) He) as Hend'.
    rewrite He. apply fsat_bind, fsat_modf. cbv beta match. rewrite splice_nil.
    apply fsat_bind. eapply (fsat_store_same P _ v1); [by rewrite lookup_insert_eq|exact Hy|].
    intros y2 Hy2. simpl. rewrite insert_empty in Hy2.
    apply fsat_bind. eapply (fsat_brelse P HP _ v1 ∅); [done|rewrite insert_empty; exact Hy2|]. intros y3 Hy3.
    apply fsat_ret. exists v1, ip1. cbn [fst snd fum set_fmem set_lower]. split; [lia|]. split; [lia|]. split_and!; try done.
    - replace (lim - lim) with 0 by lia. eapply wrote_ext; [intros o _; symmetry; apply stored_none|].
      destruct Hw1 as [R D I E C F L B K T]. by split.
    - by left.
    - intros; lia. }
  assert (c <= lim - tot) as Hcl by (destruct Hal as [->|[?|Hal]]; [lia|done|unfold c; blia]).
  destruct (source_copyin u src lim byte (fkm s) (fum s) tot c Hsrc) as (um' & He & Hsrc'); [lia..|].
  pose proof (source_end_copyin _ _ _ _ _ _ _ _ _ _ _ Hend (source_um_ok _ _ _ _ _ _ Hsrc) (Z.lt_le_incl _ _ (proj1 (proj1 Hc))) He) as Hend'.
  rewrite He. apply fsat_bind, fsat_modf. cbv beta match.
  eapply (store_block_sat (set_fmem (fkm s) um' (set_lower y s1)) v1 i ip1 off c tot byte);
    [exact Ht1|change (dwf (sb s1) v1); by rewrite B1|change (iwf (sb s1) v1 ip1); by rewrite B1
    |done|done|done|lia|reflexivity|rewrite insert_empty in Hy; exact Hy|].
  intros s3 v3 Hw3 Hu3. apply (wrote_start _ s1) in Hw3; [|done|simpl; congruence|done].
  pose proof (wrote_lookup _ _ _ _ _ _ _ _ Ht1 Hw3) as Ht3.
  pose proof (wrote_trans _ _ _ _ _ _ _ _ _ _ _ _ Hw1 Hw3) as Hw13.
  pose proof Hw13 as [R3 D3 I3 E3 C3 F3 L3 B3 K3 T3].
  assert (off + c <= 274432) as Hoc by (change (MAXFILE * BSIZE) with 274432 in Hmax; lia).
  rewrite (u32_small (off + c)), (u32_small (tot + c)), (u64_small (src + tot + c)) by lia.
  rewrite <-Z.add_assoc. eapply fsat_mono.
  { apply (IH s3 v3 ip1 (off + c) (tot + c)); rewrite ?B3; try done; try lia.
    - rewrite K3, Hu3. done.
    - rewrite Hu3. done.
    - destruct Hal as [?|[?|Hal]]; [by left|lia|]. right. right.
      by replace (off + c + (lim - (tot + c))) with (off + (lim - tot)) by lia.
    - replace (n - (tot + c)) with (n - tot - c) by lia. by apply enough_step. }
  intros [off' tot'] s4 (v4 & ip4 & Htot' & Hoff' & Hw4 & Hsrc4 & Hend4 & Hfull & Hmap). cbn [fst snd] in *.
  exists v4, ip4. cbn [fst snd]. split; [lia|]. split; [lia|]. rewrite B3, K3 in *. split_and!; [|done|done|done|].
  2: { intros o Ho. destruct (Z.le_gt_cases (off + c) o); [apply Hmap; lia|].
       replace (o / BSIZE) with (off / BSIZE) by blia.
       rewrite (wr_blk _ _ _ _ _ _ _ _ Hw4) by (try done; by rewrite (wr_blk _ _ _ _ _ _ _ _ Hw3)).
       by rewrite (wr_blk _ _ _ _ _ _ _ _ Hw3). }
  eapply wrote_ext; [|eapply wrote_trans; [exact Hw13|exact Hw4]]. intros o Ho. simpl.
  replace (tot' - (tot + c)) with (tot' - tot - c) by lia.
  rewrite <-(stored_step (content v ip) off c (tot' - tot) byte tot o) by lia.
  apply stored_ext. rewrite C3 by done. by apply stored_ext, C1.
Qed.

(** The size does not matter for the bytes. *)
Lemma iwf_size y v ip z : uint_ok z → iwf y v ip → iwf y v (set_i_size z ip).
Proof.
  intros Hz [Hok Hind Hblk Hinj]. split; [by apply set_i_size_ok|exact Hind|exact Hblk|exact Hinj].
Qed.

(** What [writei] leaves behind when it wrote [tot] bytes. *)
Record written (s : st) (v : dview) (i : nat) (ip : inode) (off tot : Z) (byte : Z → Z) (s' : st)
    (v' : dview) (ip' : inode) : Prop := {
  wn_rep : frep s' v' ∅;
  wn_dwf : dwf (sb s) v';
  wn_iwf : iwf (sb s) v' ip';
  wn_tab : itable s' = <[i := ip']> (itable s);
  wn_same : ip' = set_i_addrs (i_addrs ip') (set_i_size (i_size ip') ip);
  wn_size : i_size ip' = Z.max (i_size ip) (off + tot);
  wn_content o : 0 <= o < MAXFILE * BSIZE →
    content v' ip' o = if (off <=? o) && (o <? off + tot) then byte (o - off) else content v ip o;
  wn_frame : frame (sb s) v ip v' ip';
  wn_mapped o : off <= o < off + tot → blk v' ip' (o / BSIZE) ≠ 0;
  wn_blk bn : 0 <= bn < MAXFILE → blk v ip bn ≠ 0 → blk v' ip' bn = blk v ip bn;
  wn_disk ip0 : disk_inode (sb s) v' (i_inum ip) ip0 = with_fields ip0 ip';
  wn_rest : sb s' = sb s ∧ fkm s' = fkm s
}.

Lemma iupdate_written s v i ip s1 v1 ip1 f :
  itable s !! i = Some ip → i_dev ip = ROOTDEV → 0 <= i_inum ip < sb_ninodes (sb s) →
  wrote s v i ip s1 v1 ip1 f → ∀ z, uint_ok z →
  fsat P (iupdate i) (set_itable (<[i := set_i_size z ip1]> (itable s1)) s1)
    (λ _ s', ∃ v', frep s' v' ∅ ∧ dwf (sb s) v' ∧ iwf (sb s) v' (set_i_size z ip1) ∧
       itable s' = <[i := set_i_size z ip1]> (itable s) ∧
       (∀ o, 0 <= o < MAXFILE * BSIZE → content v' (set_i_size z ip1) o = f o) ∧
       frame (sb s) v ip v' (set_i_size z ip1) ∧
       (∀ ip0, disk_inode (sb s) v' (i_inum ip) ip0 = with_fields ip0 (set_i_size z ip1)) ∧
       (full (sb s) v1 → full (sb s) v') ∧ (∀ bn, blk v' (set_i_size z ip1) bn = blk v1 ip1 bn) ∧ sb s' = sb s ∧ fkm s' = fkm s ∧ fum s' = fum s1).
Proof using HP.
  intros Ht Hdev Hin [R D I E C F L B K T] z Hz.
  assert (iwf (sb s) v1 (set_i_size z ip1)) as I' by (by apply iwf_size).
  assert (i_inum (set_i_size z ip1) = i_inum ip) as Hinum by (rewrite E; done).
  eapply fsat_mono.
  { apply (iupdate_sat P HP _ v1 ∅ i (set_i_size z ip1)); [exact R| | |apply I'| |].
    - simpl. apply list_lookup_insert_eq. rewrite T, length_insert. by eapply lookup_lt_Some.
    - simpl. rewrite E. done.
    - rewrite Hinum. lia.
    - split; [intros j; apply no_held|]. rewrite Hinum. simpl. rewrite B. by apply (dwf_ilog _ _ D). }
  intros _ s' (y & -> & Hy). simpl in Hy. rewrite B in Hy.
  destruct (updated_keeps (sb s) v1 (set_i_size z ip1) D (iwf_ok _ _ _ I')) as [Hd' Hk'];
    [by rewrite Hinum|].
  destruct (keeps_iwf (sb s) _ _ _ Hk' I') as (Hi' & Hb' & Hc').
  eexists. split; [exact Hy|]. split_and!; try done.
  - simpl. by rewrite T, list_insert_insert_eq.
  - intros o Ho. rewrite Hc' by done. apply C. done.
  - intros b Hb Ho. destruct (F b Hb Ho) as (He & Hd1 & Ho1). destruct (Hk' b Hd1) as [He' Hd2].
    split_and!; [congruence|done|]. intros [->|(bn & Hbn & <-)]; [apply Ho1; by left|].
    apply Ho1. right. exists bn. split; [done|]. by rewrite Hb'.
  - intros ip0. rewrite disk_inode_updated; [|apply D|apply I'|rewrite Hinum; lia|lia].
    by rewrite Hinum, Z.eqb_refl.
  - intros Hf b Hb. rewrite updated_used by (rewrite ?Hinum; done). by apply Hf.
Qed.
End writei.

Section writei_theorem.
Context {S : Type} `{BufLaws S} {M : Type} `{!UserMem M} `{!UserMemLaws M}.

Lemma off_overflow off n : 0 <= n < 4294967296 → 0 <= off < 4294967296 →
  (u32 (off + n) <? off) = (4294967296 <=? off + n).
Proof.
  intros. unfold u32.
  destruct (Z.ltb_spec ((off + n) mod 4294967296) off), (Z.leb_spec 4294967296 (off + n)); try done; mlia.
Qed.

Lemma writei_upto (s : fss S M) v i ip u src off n lim byte :
  frep s v ∅ → itable s !! i = Some ip → i_dev ip = ROOTDEV →
  0 <= i_inum ip < sb_ninodes (sb s) → dwf (sb s) v → iwf (sb s) v ip →
  source_ok u src lim byte (fkm s) (fum s) → source_end u src n lim (fum s) → clean_end off n lim →
  0 <= src → src + n < 18446744073709551616 →
  0 <= lim <= n → 0 <= off <= i_size ip → off + n <= MAXFILE * BSIZE →
  fsat io_panic (writei i u src off n) s (λ tot s', ∃ v' ip',
    0 <= tot <= lim ∧ written s v i ip off tot byte s' v' ip' ∧ (tot = lim ∨ full (sb s) v')).
Proof.
  intros Hs Ht Hdev Hin Hd Hi Hsrc Hend Hcl Hs0 Hs1 Hn Hoff Hmax.
  change (MAXFILE * BSIZE) with 274432 in *.
  unfold writei. apply fsat_bind, (fsat_iat _ _ _ ip); [done|].
  rewrite off_overflow, (u32_small (off + n)) by lia. change (MAXFILE * BSIZE) with 274432.
  rewrite (proj2 (Z.ltb_ge (i_size ip) off)), (proj2 (Z.leb_gt _ _)), (proj2 (Z.ltb_ge _ _)) by lia. simpl.
  eapply fsat_seq.
  { pose proof (writei_loop_sat io_panic (λ _ h, h) u src n lim byte i (Z.to_nat (n / BSIZE + 2)) s v ip off 0)
      as Hl. rewrite Z.add_0_r in Hl. apply Hl; try done; try lia.
    - unfold clean_end in Hcl. rewrite Z.sub_0_r. lia.
    - change (MAXFILE * BSIZE) with 274432. lia.
    - rewrite Z.sub_0_r. apply enough_start. lia. }
  intros [off' tot] s1 (v1 & ip1 & Htot & Hoff' & Hw & Hsrc' & _ & Hfull & Hmap). cbn [fst snd] in *.
  rewrite Z.sub_0_r in *. pose proof (wrote_lookup _ _ _ _ _ _ _ _ Ht Hw) as Ht1.
  apply fsat_bind, (fsat_iat _ _ _ ip1); [done|]. apply fsat_bind, fsat_modf.
  assert (i_size ip1 = i_size ip) as Hsz by (rewrite (wr_same _ _ _ _ _ _ _ _ Hw); done).
  pose proof (iwf_ok _ _ _ Hi) as (_ & _ & _ & _ & Hsize & _).
  replace (if i_size ip1 <? off' then set_i_size off' ip1 else ip1)
    with (set_i_size (Z.max (i_size ip) off') ip1).
  2: { rewrite Hsz. destruct (Z.ltb_spec (i_size ip) off'); [by rewrite Z.max_r by lia|].
       rewrite Z.max_l, <-Hsz by lia. by destruct ip1. }
  eapply fsat_seq; [apply (iupdate_written io_panic (λ _ h, h) s v i ip s1 v1 ip1 _ Ht Hdev Hin Hw);
    unfold uint_ok; lia|].
  intros _ s2 (v2 & R2 & D2 & I2 & T2 & C2 & F2 & K2 & U2 & L2 & B2 & M2 & _).
  apply fsat_ret. rewrite i32_small by lia. eexists v2, _. split; [lia|]. split.
  - split; try done; [rewrite (wr_same _ _ _ _ _ _ _ _ Hw); done|simpl; by rewrite Hoff'|..].
    + intros o Ho. rewrite L2. apply Hmap. lia.
    + intros bn Hbn Hb. rewrite L2. by apply (wr_blk _ _ _ _ _ _ _ _ Hw).
  - destruct Hfull as [|Hf]; [by left|right; by apply U2].
Qed.

(** The whole source can be read. *)
Lemma writei_sat (s : fss S M) v i ip u src off n byte :
  frep s v ∅ → itable s !! i = Some ip → i_dev ip = ROOTDEV →
  0 <= i_inum ip < sb_ninodes (sb s) → dwf (sb s) v → iwf (sb s) v ip →
  source_ok u src n byte (fkm s) (fum s) → 0 <= src → src + n < 18446744073709551616 →
  0 <= n → 0 <= off <= i_size ip → off + n <= MAXFILE * BSIZE →
  fsat io_panic (writei i u src off n) s (λ tot s', ∃ v' ip',
    0 <= tot <= n ∧ written s v i ip off tot byte s' v' ip' ∧ (tot = n ∨ full (sb s) v')).
Proof.
  intros Hs Ht Hdev Hin Hd Hi Hsrc Hs0 Hs1 Hn Hoff Hmax.
  apply (writei_upto s v i ip u src off n n byte); try done; by left.
Qed.

(** C18: [writei] refines writing to an array of bytes. It returns -1 and
    changes nothing if [off] is past the end, if [off + n] overflows, or if the
    file would exceed [MAXFILE] blocks. Otherwise it returns the number [tot] of
    bytes written, which is [lim], the bytes of the source that can be read,
    unless no block of the disk is free: bytes [off .. off + tot) of the file
    are the source's, all other bytes are as before, the size is at least
    [off + tot], the inode on disk agrees with the table, the disk is
    consistent, and data blocks of other files are untouched. [lim] is [n]
    when the whole source can be read; a copy that faults ends the write, with
    [lim < n], for a fault at the start of the source or where a block of the
    file begins. (A fault within a block leaves bytes in a cached block that
    were not logged, and the refinement does not hold there.) *)
Theorem writei_correct (s : fss S M) v i ip u src off n lim byte :
  frep s v ∅ → itable s !! i = Some ip → i_dev ip = ROOTDEV →
  0 <= i_inum ip < sb_ninodes (sb s) → dwf (sb s) v → iwf (sb s) v ip →
  source_ok u src lim byte (fkm s) (fum s) → source_end u src n lim (fum s) → clean_end off n lim →
  0 <= src → src + n < 18446744073709551616 →
  0 <= lim <= n → n < 4294967296 → 0 <= off < 4294967296 →
  if (i_size ip <? off) || (4294967296 <=? off + n) || (MAXFILE * BSIZE <? off + n)
  then writei i u src off n s = Ok (-1, s)
  else fsat io_panic (writei i u src off n) s (λ tot s', ∃ v' ip',
         0 <= tot <= lim ∧ written s v i ip off tot byte s' v' ip' ∧ (tot = lim ∨ full (sb s) v')).
Proof.
  intros Hs Ht Hdev Hin Hd Hi Hsrc Hend Hcl Hs0 Hs1 Hlim Hn32 Hoff.
  assert (0 <= n < 4294967296) as Hn by lia.
  destruct ((i_size ip <? off) || (4294967296 <=? off + n)) eqn:Hg; simpl.
  - unfold writei, iat, mbind, fs_bind, getf. simpl. rewrite Ht. simpl. by rewrite off_overflow, Hg.
  - apply orb_false_iff in Hg as [Hg1%Z.ltb_ge Hg2%Z.leb_gt].
    destruct (Z.ltb_spec (MAXFILE * BSIZE) (off + n)) as [Hm|Hm]; [|apply writei_upto; try done; lia].
    unfold writei, iat, mbind, fs_bind, getf. simpl. rewrite Ht. simpl. rewrite off_overflow by done.
    rewrite (proj2 (Z.ltb_ge (i_size ip) off)), (proj2 (Z.leb_gt _ _)) by lia. simpl.
    rewrite u32_small by lia. by rewrite (proj2 (Z.ltb_lt _ _)).
Qed.
End writei_theorem.
