(* ===== verification/ReadSpec.v ===== *)
(** * readi against the abstract file, and reading back what was written *)
From S2P Require Import Prelude Riscv Bio Log LogSpec Buf Proc UserMem Mem Uart Printf Console Fs FsLaws FsAlloc Dinode Itable Content ContentSpec.

(** The memory after [t] bytes were copied out to [dst]: [k0] and [m0] before. *)
Definition sink_at {M} `{UserMem M} (u dst n : Z) (byte : Z → Z) (k0 : mem) (m0 : M) (t : Z)
    (k : mem) (m : M) : Prop :=
  if u =? 0 then m = m0 ∧ ∀ a, ld8 k a = if (dst <=? a) && (a <? dst + t) then u8 (byte (a - dst)) else ld8 k0 a
  else k = k0 ∧ um_ok m ∧ (∀ j, 0 <= j < n → writable m (u64 (dst + j))) ∧
    (∀ j, 0 <= j < t → uget m (u64 (dst + j)) = Some (byte j)) ∧
    (∀ va, (∀ j, 0 <= j < t → va ≠ u64 (dst + j)) → uget m va = uget m0 va).

(** Copying out [n] bytes cannot fail. *)
Definition sink_ok {M} `{UserMem M} (u dst n : Z) (m : M) : Prop :=
  u = 0 ∨ um_ok m ∧ ∀ j, 0 <= j < n → writable m (u64 (dst + j)).

Lemma sink_start {M} `{UserMem M} u dst n byte k (m : M) :
  sink_ok u dst n m → sink_at u dst n byte k m 0 k m.
Proof.
  intros Hs. unfold sink_at. destruct (Z.eqb_spec u 0) as [->|Hu].
  - split; [done|]. intros a. destruct (Z.leb_spec dst a), (Z.ltb_spec a (dst + 0)); simpl; done || lia.
  - destruct Hs as [?|[Hok Hw]]; [done|]. split_and!; try done. lia.
Qed.

Lemma ld8_st_bytes bs : ∀ k a b,
  ld8 (st_bytes k a bs) b = if (a <=? b) && (b <? a + zlen bs) then u8 (aget bs (b - a)) else ld8 k b.
Proof.
  unfold zlen. induction bs as [|c bs IH]; intros k a b; cbn [st_bytes length].
  - destruct (Z.leb_spec a b), (Z.ltb_spec b (a + Z.of_nat 0)); simpl; done || lia.
  - rewrite IH, ld8_st8. destruct (decide (a = b)) as [->|Hne].
    + rewrite (proj2 (Z.leb_gt (b + 1) b)), Z.leb_refl, (proj2 (Z.ltb_lt b (b + Z.of_nat (Datatypes.S (length bs))))), Z.sub_diag by lia. simpl. done.
    + destruct (Z.leb_spec (a + 1) b), (Z.leb_spec a b); simpl; try lia.
      replace (a + 1 + Z.of_nat (length bs)) with (a + Z.of_nat (Datatypes.S (length bs))) by lia.
      destruct (b <? _); [|done]. f_equal. unfold aget.
      replace (Z.to_nat (b - a)) with (Datatypes.S (Z.to_nat (b - (a + 1)))) by lia. done.
Qed.

Lemma sink_copyout {M} `{UserMemLaws M} u dst n byte k0 (m0 : M) t c k m :
  sink_at u dst n byte k0 m0 t k m → 0 <= t → 0 <= c → t + c <= n → n < 4294967296 →
  ∃ k' m', either_copyout u (dst + t) (byte <$> seqZ t c) k m = (k', m', 0) ∧
    sink_at u dst n byte k0 m0 (t + c) k' m'.
Proof.
  intros Hs Ht Hc Hn Hn32. unfold either_copyout, sink_at in *.
  assert (zlen (byte <$> seqZ t c) = c) as Hz by (unfold zlen; rewrite length_fmap, length_seqZ; lia).
  destruct (u =? 0); simpl.
  - destruct Hs as [-> Hk]. eexists _, _. split; [done|]. split; [done|]. intros a.
    rewrite ld8_st_bytes, Hz, Hk.
    destruct (Z.leb_spec (dst + t) a), (Z.ltb_spec a (dst + t + c)), (Z.leb_spec dst a),
      (Z.ltb_spec a (dst + t)), (Z.ltb_spec a (dst + (t + c))); simpl; try lia; try done.
    rewrite aget_seqZ by lia. do 2 f_equal. lia.
  - destruct Hs as (-> & Hok & Hw & Hin & Hout).
    destruct (copyout m (dst + t) (byte <$> seqZ t c)) as [m' r] eqn:He.
    assert (zlen (byte <$> seqZ t c) <= 4294967296) as Hle by (rewrite Hz; lia).
    destruct (copyout_spec m (dst + t) (byte <$> seqZ t c) m' r Hok Hle He)
      as (Hok' & q & Hq & Hi' & Ho' & Hr).
    assert (r = 0) as ->.
    { apply (copyout_writable m (dst + t) (byte <$> seqZ t c) m' r Hok He). intros j Hj.
      rewrite <-Z.add_assoc. apply Hw. lia. }
    destruct Hr as [[_ ->]|[? _]]; [|done]. rewrite Hz in *. eexists _, _. split; [done|].
    split_and!; [done|done| | |].
    + intros j Hj. by apply (copyout_keeps_writable m (dst + t) (byte <$> seqZ t c) m' 0); [| |apply Hw].
    + intros j Hj. destruct (Z.lt_ge_cases j t).
      * rewrite Ho'; [apply Hin; lia|]. intros j' Hj' Heq. rewrite <-Z.add_assoc in Heq.
        apply u64_distinct in Heq; lia.
      * replace (dst + j) with (dst + t + (j - t)) by lia. rewrite Hi' by lia.
        rewrite aget_seqZ by lia. do 2 f_equal. lia.
    + intros va Hva. rewrite Ho', Hout; [done| |].
      * intros j Hj. apply Hva. lia.
      * intros j Hj. rewrite <-Z.add_assoc. apply Hva. lia.
Qed.

(** Part of a block as bytes of the file. *)
Lemma slice_content v ip off c :
  length (v (blk v ip (off / BSIZE))) = Z.to_nat BSIZE → 0 <= off → blk v ip (off / BSIZE) ≠ 0 →
  0 <= c <= BSIZE - off mod BSIZE →
  slice (v (blk v ip (off / BSIZE))) (off mod BSIZE) c = content v ip <$> seqZ off c.
Proof.
  intros Hlen Hoff Hne Hc. assert (0 <= off mod BSIZE < BSIZE) by (apply Z.mod_pos_bound; done).
  assert (zlen (v (blk v ip (off / BSIZE))) = BSIZE) as Hz by (unfold zlen; rewrite Hlen; done).
  pose proof (slice_length (v (blk v ip (off / BSIZE))) (off mod BSIZE) c ltac:(lia) ltac:(lia) ltac:(lia)) as Hl.
  apply aget_ext; [rewrite length_fmap, length_seqZ; unfold zlen in Hl; lia|].
  intros j Hj. rewrite Hl in Hj. rewrite slice_aget, aget_seqZ by lia. unfold content.
  replace ((off + j) / BSIZE) with (off / BSIZE) by blia.
  rewrite (proj2 (Z.eqb_neq _ _)) by done. f_equal. blia.
Qed.

Lemma seqZ_shift (f : Z → Z) off t c : f <$> seqZ (off + t) c = (λ j, f (off + j)) <$> seqZ t c.
Proof.
  destruct (Z.le_gt_cases 0 c); [|by rewrite !seqZ_nil by lia].
  apply aget_ext; [by rewrite !length_fmap, !length_seqZ|].
  unfold zlen. rewrite length_fmap, length_seqZ. intros j Hj.
  rewrite !aget_seqZ by lia. f_equal. lia.
Qed.

Section readi.
Context {S : Type} `{BufLaws S} {M : Type} `{!UserMem M} `{!UserMemLaws M}.
Abbreviation st := (fss S M).
Context (P : string → Prop) (HP : ∀ m, io_panic m → P m).

(** Nothing but the memory and possibly newly allocated blocks changed. *)
Definition read_ext (s : st) (v : dview) (i : nat) (ip : inode) (s' : st) (v' : dview) (ip' : inode) : Prop :=
  extended (set_fmem (fkm s') (fum s') s) v i ip s' v' ip'.

Lemma read_ext_refl s v i ip :
  frep s v ∅ → dwf (sb s) v → iwf (sb s) v ip → itable s !! i = Some ip → read_ext s v i ip s v ip.
Proof. intros. destruct s. by apply extended_refl. Qed.

(** Some byte of [off .. off + n) is in a block that is not allocated. *)
Definition hole (v : dview) (ip : inode) (off n : Z) : Prop :=
  ∃ t, 0 <= t < n ∧ blk v ip ((off + t) / BSIZE) = 0.

Definition read_post (s : st) v i ip u dst off n byte k0 (m0 : M) (r : Z) (s' : st) : Prop :=
  ∃ v' ip', 0 <= r <= n ∧ read_ext s v i ip s' v' ip' ∧
    sink_at u dst n byte k0 m0 r (fkm s') (fum s') ∧ (r = n ∨ full (sb s) v' ∧ hole v ip off n).

Lemma readi_loop_sat u dst n i byte k0 (m0 : M) off0 f : ∀ s v ip tot,
  frep s v ∅ → itable s !! i = Some ip → i_dev ip = ROOTDEV → dwf (sb s) v → iwf (sb s) v ip →
  sink_at u dst n byte k0 m0 tot (fkm s) (fum s) → 0 <= dst → dst + n < 18446744073709551616 →
  n < 4294967296 → 0 <= tot <= n → 0 <= off0 → off0 + n <= MAXFILE * BSIZE →
  enough f (off0 + tot) (n - tot) →
  (∀ t, 0 <= t < n → content v ip (off0 + t) = byte t) →
  fsat P (readi_loop f i u (dst + tot) (off0 + tot) n tot) s (read_post s v i ip u dst off0 n byte k0 m0).
Proof using HP UserMemLaws0.
  induction f as [|f IH]; intros s v ip tot Hs Ht Hdev Hd Hi Hsink Hd0 Hd1 Hn32 Htot Hoff Hmax Hen Hby;
    cbn [readi_loop]; destruct (Z.ltb_spec tot n) as [Hlt|Hge].
  1: { apply enough_pos in Hen; lia. }
  1,3: apply fsat_ret; assert (tot = n) as -> by lia; exists v, ip;
    (split; [lia|]); (split; [|split; [done|by left]]); by apply read_ext_refl.
  set (off := off0 + tot) in *.
  assert (0 <= off / BSIZE < MAXFILE) as Hbn by (change MAXFILE with 268 in *; unfold off; blia).
  eapply fsat_seq; [by eapply (bmap_sat P HP)|]. intros a s1 (v1 & ip1 & Hex & Ha).
  destruct (Z.eqb_spec a 0) as [->|Hne].
  { apply fsat_ret. exists v1, ip1. destruct Hex as [R1 E1 B1 [K1 U1] T1].
    split; [lia|]. split; [by split|]. rewrite K1, U1. split; [done|].
    right. destruct Ha as [(_ & ? & ?)|[_ ?]]; [|done]. split; [done|]. exists tot. split; [lia|done]. }
  destruct Ha as [[? _]|[-> Hnb]]; [done|].
  pose proof (wrote_lookup _ _ _ _ _ _ _ _ Ht (extended_wrote _ _ _ _ _ _ _ Hex)) as Ht1.
  pose proof Hex as [R1 [D1 I1 E1 C1 F1 L1] B1 [K1 U1] T1].
  apply fsat_bind, (fsat_iat _ _ _ ip1); [done|].
  assert (i_dev ip1 = ROOTDEV) as Hdev1 by (rewrite E1; done). rewrite Hdev1.
  fs_read R1 (no_held (blk v1 ip1 (off / BSIZE))). intros bp y Hbp Hy. fs_data Hy.
  assert (0 <= off mod BSIZE < BSIZE) as Hmod by (apply Z.mod_pos_bound; done).
  rewrite (u32_small (n - tot)), (u32_small (BSIZE - off mod BSIZE)) by (unfold BSIZE in *; lia).
  set (c := Z.min (n - tot) (BSIZE - off mod BSIZE)).
  assert (0 < c <= n - tot ∧ c <= BSIZE - off mod BSIZE) as Hc by (unfold c; lia).
  fs_get. fs_get. cbn [fkm fum set_lower]. rewrite K1, U1.
  rewrite slice_content; [|apply D1|lia|done|lia].
  assert (content v1 ip1 <$> seqZ off c = byte <$> seqZ tot c) as ->.
  { unfold off. rewrite seqZ_shift. apply list_fmap_ext. intros k z Hz.
    apply lookup_seqZ in Hz as [-> Hk]. rewrite C1; [apply Hby; lia|].
    change (MAXFILE * BSIZE) with 274432 in *. lia. }
  destruct (sink_copyout u dst n byte k0 m0 tot c _ _ Hsink) as (k' & m' & -> & Hsink'); [lia..|].
  apply fsat_bind, fsat_modf. cbv beta match.
  apply fsat_bind. eapply fsat_brelse; [done|exact Hbp|exact Hy|]. intros z Hz. cbv beta. simpl Z.eqb. cbv match.
  set (s3 := set_lower z (set_fmem k' m' (set_lower y s1))).
  assert (off + c <= 274432) as Hoc by (unfold off; change (MAXFILE * BSIZE) with 274432 in Hmax; lia).
  rewrite (u32_small (off + c)), (u32_small (tot + c)), (u64_small (dst + tot + c)) by lia.
  replace (off + c) with (off0 + (tot + c)) by (unfold off; lia). rewrite <-Z.add_assoc.
  assert (read_ext s v i ip s3 v1 ip1) as Hex3 by (split; [exact Hz|done|done|done|done]).
  eapply fsat_mono.
  { apply (IH s3 v1 ip1 (tot + c)); simpl; rewrite ?B1; try done; try lia.
    - replace (off0 + (tot + c)) with (off + c) by (unfold off; lia).
      replace (n - (tot + c)) with (n - tot - c) by lia. apply enough_step; [lia|done|done].
    - intros t' Ht'. rewrite C1; [by apply Hby|]. change (MAXFILE * BSIZE) with 274432 in *. lia. }
  intros r s4 (v4 & ip4 & Hr & Hex4 & Hs4 & Hf4). exists v4, ip4. split; [done|]. split_and!; [|done|].
  - eapply extended_trans; [|exact Hex4]. destruct Hex3 as [A1 A2 A3 A4 A5]. by split.
  - destruct Hf4 as [|[Hf4 (t' & Ht' & Hh)]]; [by left|right]. simpl in Hf4. rewrite B1 in Hf4.
    split; [done|]. exists t'. split; [done|].
    destruct (decide (blk v ip ((off0 + t') / BSIZE) = 0)) as [|Hnz]; [done|].
    rewrite <-L1; [done| |done]. change MAXFILE with 268 in *. blia.
Qed.
End readi.

Section read_theorems.
Context {S : Type} `{BufLaws S} {M : Type} `{!UserMem M} `{!UserMemLaws M}.

(** What [readi] of [n] bytes leaves behind when it returns [r]: [r] bytes of the
    file from [off] are at [dst], nothing else changed in memory, and the file,
    the table and the other files are as before. *)
Definition read_done (s : fss S M) v i ip u dst off n (r : Z) (s' : fss S M) v' ip' : Prop :=
  0 <= r <= n ∧
  sink_at u dst n (λ t, content v ip (off + t)) (fkm s) (fum s) r (fkm s') (fum s') ∧
  frep s' v' ∅ ∧ ext (sb s) v ip v' ip' ∧ sb s' = sb s ∧ itable s' = <[i := ip']> (itable s) ∧
  (r = n ∨ full (sb s) v' ∧ hole v ip off n).

Lemma readi_loop_done (s : fss S M) v i ip u dst off n :
  frep s v ∅ → itable s !! i = Some ip → i_dev ip = ROOTDEV → dwf (sb s) v → iwf (sb s) v ip →
  sink_ok u dst n (fum s) → 0 <= dst → dst + n < 18446744073709551616 →
  0 <= n < 4294967296 → 0 <= off → off + n <= MAXFILE * BSIZE →
  fsat io_panic (readi_loop (Z.to_nat (n / BSIZE + 2)) i u dst off n 0) s
    (λ r s', ∃ v' ip', read_done s v i ip u dst off n r s' v' ip').
Proof.
  intros Hs Ht Hdev Hd Hi Hk Hd0 Hd1 Hn Hoff Hmax.
  pose proof (readi_loop_sat io_panic (λ _ h, h) u dst n i (λ t, content v ip (off + t)) (fkm s) (fum s) off
    (Z.to_nat (n / BSIZE + 2)) s v ip 0) as Hl. rewrite !Z.add_0_r, Z.sub_0_r in Hl.
  eapply fsat_mono.
  { apply Hl; try done; try lia; first [by apply sink_start|apply enough_start; lia]. }
  intros r s' (v' & ip' & Hr & [R E B K T] & Hsink & Hf). exists v', ip'.
  exact (conj Hr (conj Hsink (conj R (conj E (conj B (conj T Hf)))))).
Qed.

Lemma readi_sat (s : fss S M) v i ip u dst off n :
  frep s v ∅ → itable s !! i = Some ip → i_dev ip = ROOTDEV → dwf (sb s) v → iwf (sb s) v ip →
  i_size ip <= MAXFILE * BSIZE →
  sink_ok u dst (Z.min n (i_size ip - off)) (fum s) → 0 <= dst → dst + n < 18446744073709551616 →
  0 <= n → 0 <= off <= i_size ip → off + n < 4294967296 →
  fsat io_panic (readi i u dst off n) s (λ r s', ∃ v' ip',
    read_done s v i ip u dst off (Z.min n (i_size ip - off)) r s' v' ip').
Proof.
  intros Hs Ht Hdev Hd Hi Hsz Hk Hd0 Hd1 Hn Hoff Hon.
  pose proof (iwf_ok _ _ _ Hi) as (_ & _ & _ & _ & Hsize & _).
  unfold readi. apply fsat_bind, (fsat_iat _ _ _ ip); [done|]. rewrite off_overflow by lia.
  rewrite (proj2 (Z.ltb_ge (i_size ip) off)), (proj2 (Z.leb_gt _ _)) by lia. simpl.
  rewrite (u32_small (off + n)), (u32_small (i_size ip - off)) by lia.
  replace (if i_size ip <? off + n then i_size ip - off else n) with (Z.min n (i_size ip - off)).
  2: { destruct (Z.ltb_spec (i_size ip) (off + n)); lia. }
  eapply fsat_seq; [apply (readi_loop_done s v i ip u dst off); try done; lia|].
  intros r s' (v' & ip' & Hr). apply fsat_ret. pose proof Hr as [Hr1 _].
  change (MAXFILE * BSIZE) with 274432 in *. rewrite i32_small by lia. eauto.
Qed.

(** C19: [readi] refines reading from an array of bytes. It returns 0 and
    changes nothing if [off] is past the end or [off + n] overflows; otherwise it
    copies the bytes of the file from [off] up to [n] bytes or the end of the
    file to [dst] and returns their number, short only if the disk is full and
    the range has a block that was never allocated. The file's bytes, the disk's
    consistency and the blocks of other files are kept. *)
Theorem readi_correct (s : fss S M) v i ip u dst off n :
  frep s v ∅ → itable s !! i = Some ip → i_dev ip = ROOTDEV → dwf (sb s) v → iwf (sb s) v ip →
  i_size ip <= MAXFILE * BSIZE →
  sink_ok u dst (Z.min n (i_size ip - off)) (fum s) → 0 <= dst → dst + n < 18446744073709551616 →
  0 <= n < 4294967296 → 0 <= off < 4294967296 →
  if (i_size ip <? off) || (4294967296 <=? off + n)
  then readi i u dst off n s = Ok (0, s)
  else fsat io_panic (readi i u dst off n) s (λ r s', ∃ v' ip',
         read_done s v i ip u dst off (Z.min n (i_size ip - off)) r s' v' ip').
Proof.
  intros Hs Ht Hdev Hd Hi Hsz Hk Hd0 Hd1 Hn Hoff.
  destruct ((i_size ip <? off) || (4294967296 <=? off + n)) eqn:Hg.
  - unfold readi, iat, mbind, fs_bind, getf. simpl. rewrite Ht. simpl. by rewrite off_overflow, Hg.
  - apply orb_false_iff in Hg as [Hg1%Z.ltb_ge Hg2%Z.leb_gt]. apply readi_sat; try done; lia.
Qed.

End read_theorems.
