(* ===== verification/DirSpec.v ===== *)
(** * Directories

    A directory is a file of 16-byte entries.  [dirlookup] is the search for the
    first entry in use with the name, expressed on the bytes of the abstract
    file. *)
From S2P Require Import Prelude Riscv Bio Log LogSpec Buf Proc UserMem Mem Uart Printf Console Fs FsLaws FsAlloc Dinode Dir Itable IRefs PathSpec Content ContentSpec ReadSpec.

(** Entry [k]: its inode number and its name field. *)
Definition entry_inum (v : dview) (ip : inode) (k : Z) : Z :=
  u8 (content v ip (DIRENT * k)) + 256 * u8 (content v ip (DIRENT * k + 1)).
Definition entry_name (v : dview) (ip : inode) (k : Z) : list Z :=
  (λ j, u8 (content v ip (DIRENT * k + j))) <$> seqZ 2 14.

(** The entry is in use and has the name. *)
Definition entry_is (v : dview) (ip : inode) (name : list Z) (k : Z) : Prop :=
  entry_inum v ip k ≠ 0 ∧ namecmp name (entry_name v ip k) = 0.

Lemma entry_ext v v' ip ip' k :
  (∀ o, 0 <= o < MAXFILE * BSIZE → content v' ip' o = content v ip o) →
  0 <= k → DIRENT * k + 16 <= MAXFILE * BSIZE →
  entry_inum v' ip' k = entry_inum v ip k ∧ entry_name v' ip' k = entry_name v ip k.
Proof.
  intros Hc Hk Hm. change DIRENT with 16 in *. unfold entry_inum, entry_name. change DIRENT with 16.
  split; [by rewrite !Hc by lia|]. apply list_fmap_ext. intros i z Hz.
  apply lookup_seqZ in Hz as [-> Hi]. rewrite Hc by lia. done.
Qed.

Section dirlookup.
Context {S : Type} `{BufLaws S} {M : Type} `{!UserMem M} `{!UserMemLaws M} (de : Z).
Abbreviation st := (fss S M).

(** Panics of a lookup: those below, and a full inode table. *)
Definition lookup_panic (m : string) : Prop := io_panic m ∨ m = "iget: no inodes"%string.

Lemma fsat_weaken {A} (P P' : string → Prop) (m : @FS S M A) s Q :
  (∀ e, P e → P' e) → fsat P m s Q → fsat P' m s Q.
Proof. intros HP. unfold fsat, outcome. destruct (m s); auto. Qed.

(** A directory with consistent blocks, none missing. *)
Record dir_ok (s : st) (v : dview) (dp : nat) (ip : inode) : Prop := {
  do_rep : frep s v ∅;
  do_tab : itable s !! dp = Some ip;
  do_dev : i_dev ip = ROOTDEV;
  do_dwf : dwf (sb s) v;
  do_iwf : iwf (sb s) v ip;
  do_size : i_size ip <= MAXFILE * BSIZE;
  do_mod : i_size ip mod DIRENT = 0;
  do_map o : 0 <= o < i_size ip → blk v ip (o / BSIZE) ≠ 0
}.

(** Reading one entry into the local [struct dirent] at [de]. *)
Lemma read_entry_sat s v dp ip k :
  dir_ok s v dp ip → 0 <= k → DIRENT * k < i_size ip → 0 <= de → de + 16 < 18446744073709551616 →
  fsat io_panic (readi dp 0 de (DIRENT * k) DIRENT) s (λ r s', r = DIRENT ∧ ∃ v' ip',
    dir_ok s' v' dp ip' ∧ ext (sb s) v ip v' ip' ∧ sb s' = sb s ∧ itable s' = <[dp := ip']> (itable s) ∧
    de_inum de (fkm s') = entry_inum v ip k ∧ de_name de (fkm s') = entry_name v ip k).
Proof.
  intros [Hs Ht Hdev Hd Hi Hsz Hmod Hmap] Hk Hks Hde0 Hde1.
  pose proof (iwf_ok _ _ _ Hi) as (_ & _ & _ & _ & Hsize & _).
  change DIRENT with 16 in *. change (MAXFILE * BSIZE) with 274432 in *.
  assert (16 * k + 16 <= i_size ip) as Hk16 by mlia.
  assert (Z.min 16 (i_size ip - 16 * k) = 16) as Hmin by lia.
  eapply fsat_mono.
  { apply (readi_sat s v dp ip 0 de (16 * k) 16); try done; try lia; by left. }
  intros r s' (v' & ip' & Hr & Hsink & R & E & B & T & Hf). rewrite Hmin in *.
  assert (r = 16) as ->.
  { destruct Hf as [?|[_ (t & Ht' & Hh)]]; [done|]. destruct (Hmap (16 * k + t)); [lia|done]. }
  split; [done|]. exists v', ip'. pose proof E as [D2 I2 S2 C2 F2 L2].
  assert (i_size ip' = i_size ip) as Hsz' by (rewrite S2; done).
  unfold sink_at in Hsink. simpl in Hsink. destruct Hsink as [_ Hld].
  assert (∀ j, 0 <= j < 16 → ld8 (fkm s') (de + j) = u8 (content v ip (16 * k + j))) as Hb.
  { intros j Hj. rewrite Hld, (proj2 (Z.leb_le _ _)), (proj2 (Z.ltb_lt _ _)) by lia. simpl.
    do 2 f_equal. lia. }
  split_and!; try done.
  - split; rewrite ?B, ?Hsz'; try done.
    + rewrite T. apply list_lookup_insert_eq. by eapply lookup_lt_Some.
    + rewrite S2. done.
    + intros o Ho. rewrite L2; [by apply Hmap| |by apply Hmap]. change MAXFILE with 268. blia.
  - unfold de_inum, entry_inum. change DIRENT with 16. rewrite <-(Hb 1) by lia.
    rewrite <-(Z.add_0_r de) at 1. rewrite (Hb 0) by lia. by rewrite Z.add_0_r.
  - unfold de_name, entry_name. change DIRENT with 16.
    rewrite (ld_bytes_seq _ DIRSIZ (de + 2) (λ j, ld8 (fkm s') (de + j)) 2).
    + apply list_fmap_ext. intros j z Hz. apply lookup_seqZ in Hz as [-> Hj]. apply Hb.
      change (Z.of_nat DIRSIZ) with 14 in Hj. lia.
    + intros j Hj. f_equal. lia.
Qed.

(** What a lookup from entry [k0] on returns. *)
Definition lookup_post (v : dview) (ip : inode) (name : list Z) (k0 : Z) (o : option (nat * Z)) (s' : st) : Prop :=
  match o with
  | None => ∀ k, k0 <= k → DIRENT * k < i_size ip → ¬ entry_is v ip name k
  | Some (j, off) => ∃ k r, k0 <= k ∧ off = DIRENT * k ∧ off < i_size ip ∧ entry_is v ip name k ∧
      (∀ k', k0 <= k' < k → ¬ entry_is v ip name k') ∧
      ikeys s' !! j = Some (ROOTDEV, entry_inum v ip k, r)
  end.

(** An entry that is not it is skipped. *)
Lemma lookup_post_next v ip v1 ip1 name k o s :
  (∀ o, 0 <= o < MAXFILE * BSIZE → content v1 ip1 o = content v ip o) → i_size ip1 = i_size ip →
  i_size ip <= MAXFILE * BSIZE → i_size ip mod DIRENT = 0 → 0 <= k → ¬ entry_is v ip name k →
  lookup_post v1 ip1 name (k + 1) o s → lookup_post v ip name k o s.
Proof.
  intros Hc Hs1 Hsz Hmod Hk Hno Ho. unfold lookup_post in *.
  assert (∀ k', 0 <= k' → DIRENT * k' < i_size ip →
    entry_inum v1 ip1 k' = entry_inum v ip k' ∧ entry_name v1 ip1 k' = entry_name v ip k') as Hee.
  { intros k' Hk0 Hk1. apply entry_ext; [done|done|]. change DIRENT with 16 in *. mlia. }
  rewrite Hs1 in Ho. destruct o as [[j off]|].
  - destruct Ho as (k' & r & Hk' & -> & Hlt' & He & Hall & Hj).
    destruct (Hee k') as [He1 He2]; [lia|done|].
    exists k', r. unfold entry_is in *. rewrite He1, He2 in *. split_and!; try done; try lia.
    intros k2 Hk2. destruct (decide (k2 = k)) as [->|]; [done|].
    destruct (Hee k2) as [<- <-]; [lia|change DIRENT with 16 in *; lia|]. apply Hall. lia.
  - intros k' Hk' Hlt'. destruct (decide (k' = k)) as [->|]; [done|].
    destruct (Hee k') as [He1 He2]; [lia|done|]. unfold entry_is in *. rewrite <-He1, <-He2.
    apply Ho; [lia|done].
Qed.

Lemma dirlookup_loop_sat name f : ∀ s v dp ip k,
  dir_ok s v dp ip → 0 <= k → 0 <= de → de + 16 < 18446744073709551616 →
  i_size ip <= DIRENT * (k + Z.of_nat f) →
  fsat lookup_panic (dirlookup_loop de f dp name (DIRENT * k)) s (lookup_post v ip name k).
Proof.
  induction f as [|f IH]; intros s v dp ip k Hok Hk Hde0 Hde1 Hf; cbn [dirlookup_loop];
    apply fsat_bind, (fsat_iat _ _ _ ip); try apply Hok;
    (destruct (Z.ltb_spec (DIRENT * k) (i_size ip)) as [Hlt|Hge]; [|apply fsat_ret]).
  1: change DIRENT with 16 in *; lia.
  1,3: intros k' Hk' Hs'; change DIRENT with 16 in *; lia.
  eapply fsat_seq.
  { eapply fsat_weaken; [|by apply read_entry_sat]. by left. }
  intros r s1 (-> & v1 & ip1 & Hok1 & E1 & B1 & T1 & Hin & Hna). rewrite Z.eqb_refl. simpl.
  fs_get. pose proof (do_size _ _ _ _ Hok) as Hsz. pose proof (do_mod _ _ _ _ Hok) as Hmod.
  change (MAXFILE * BSIZE) with 274432 in *.
  assert (u32 (DIRENT * k + DIRENT) = DIRENT * (k + 1)) as Hnext.
  { change DIRENT with 16 in *. rewrite u32_small by lia. lia. }
  assert (i_size ip1 = i_size ip) as Hs1 by (rewrite (ext_same _ _ _ _ _ E1); done).
  assert (¬ entry_is v ip name k →
    fsat lookup_panic (dirlookup_loop de f dp name (DIRENT * (k + 1))) s1 (lookup_post v ip name k)) as Hskip.
  { intros Hno. eapply fsat_mono.
    - apply (IH s1 v1 dp ip1 (k + 1)); try done; change DIRENT with 16 in *; lia.
    - intros o s2. apply lookup_post_next; try done. apply E1. }
  rewrite Hin, Hna, Hnext. destruct (Z.eqb_spec (entry_inum v ip k) 0) as [Hz|Hz].
  { apply Hskip. by intros [? _]. }
  destruct (Z.eqb_spec (namecmp name (entry_name v ip k)) 0) as [Hn|Hn].
  2: { apply Hskip. by intros [_ ?]. }
  apply fsat_bind. rewrite (do_dev _ _ _ _ Hok).
  unfold fsat. pose proof (iget_eq ROOTDEV (entry_inum v ip k) s1) as Hg.
  destruct (iget ROOTDEV (entry_inum v ip k) s1) as [[j s2]|m|]; simpl; [|by right; apply Hg|done].
  destruct Hg as (_ & jp & Hj & Hs2 & Hcase).
  pose proof (lookup_lt_Some _ _ _ Hj) as Hl.
  assert (∃ r, ikeys s2 !! j = Some (ROOTDEV, entry_inum v ip k, r)) as [r Hr].
  { unfold ikeys. rewrite list_lookup_fmap.
    destruct Hcase as [(_ & Hd & Hn' & ->)|(_ & _ & jp' & -> & Hjk & _)];
      rewrite list_lookup_insert_eq by done; simpl; [unfold key; simpl; rewrite Hd, Hn'|rewrite Hjk]; eauto. }
  exists k, r. split_and!; try done; try lia.
Qed.

Lemma dirlookup_sat s v dp ip name :
  dir_ok s v dp ip → 0 <= de → de + 16 < 18446744073709551616 → i_type ip = T_DIR →
  fsat lookup_panic (dirlookup de dp name) s (lookup_post v ip name 0).
Proof.
  intros Hok Hde0 Hde1 Hty. unfold dirlookup. apply fsat_bind, (fsat_iat _ _ _ ip); [apply Hok|].
  rewrite Hty, Z.eqb_refl. simpl.
  apply (dirlookup_loop_sat name _ s v dp ip 0); try done.
  pose proof (iwf_ok _ _ _ (do_iwf _ _ _ _ Hok)) as (_ & _ & _ & _ & Hsize & _).
  change DIRENT with 16. mlia.
Qed.

(** C33: [dirlookup] finds the first entry in use with the name: it returns the
    table entry of that entry's inode and the entry's offset, or 0 when no entry
    in use has the name. *)
Theorem dirlookup_correct s v dp ip name :
  dir_ok s v dp ip → 0 <= de → de + 16 < 18446744073709551616 → i_type ip = T_DIR →
  fsat lookup_panic (dirlookup de dp name) s (lookup_post v ip name 0).
Proof. apply dirlookup_sat. Qed.
End dirlookup.
