(* ===== verification/DirLink.v ===== *)
(** * Adding a directory entry

    [dirlink] against the abstract directory of [DirSpec]: a name that is not
    there goes to the first free entry, or after the last; every other entry
    stays; a lookup then finds it. *)
From S2P Require Import Prelude Riscv Bio Log LogSpec Buf Proc UserMem Mem Uart Printf Console Fs FsLaws FsAlloc Dinode Dir Itable IRefs PathSpec Content ContentSpec ReadSpec DirSpec.

(** *** Names *)
Lemma strncpy_len n : ∀ p, length (strncpy_str n p) = n.
Proof.
  induction n as [|n IH]; intros p; [done|]. cbn [strncpy_str]. case_match; [apply length_replicate|].
  simpl. by rewrite IH.
Qed.

Lemma strncpy_cstr n : ∀ p, take n (cstr (strncpy_str n p)) = take n (cstr p).
Proof.
  induction n as [|n IH]; intros p; [done|]. cbn [strncpy_str].
  destruct (Z.eqb_spec (schar p) 0) as [Hz|Hz]; [by rewrite (cstr_nul p Hz)|].
  rewrite (cstr_tail p Hz). cbn [cstr]. rewrite (proj2 (Z.eqb_neq _ _)) by done. simpl. by rewrite IH.
Qed.

Lemma strncpy_range n : ∀ p, Forall (λ c, 0 <= c < 256) p → Forall (λ c, 0 <= c < 256) (strncpy_str n p).
Proof.
  induction n as [|n IH]; intros p Hp; [constructor|]. cbn [strncpy_str].
  case_match; [apply Forall_replicate; lia|]. destruct p as [|c p]; [done|].
  apply Forall_cons in Hp as [Hc Hp]. simpl. constructor; [done|]. by apply IH.
Qed.

Lemma namecmp_strncpy name : namecmp name (strncpy_str DIRSIZ name) = 0.
Proof. unfold namecmp. apply strncmp_str_eq. by rewrite strncpy_cstr. Qed.

(** The bytes of [struct dirent]. *)
Definition dirent_bytes (inum : Z) (name : list Z) : list Z := le16 inum ++ strncpy_str DIRSIZ name.

(** A directory has no entry of this name. *)
Definition absent (v : dview) (ip : inode) (name : list Z) : Prop :=
  ∀ k, 0 <= k → DIRENT * k < i_size ip → ¬ entry_is v ip name k.

Section dirlink.
Context {S : Type} `{BufLaws S} {M : Type} `{!UserMem M} `{!UserMemLaws M} (de : Z).
Context (Hde0 : 0 <= de) (Hde1 : de + 16 < 18446744073709551616).
Abbreviation st := (fss S M).

(** The directory is the same, with perhaps more blocks. *)
Record dir_same (s : st) (v : dview) (dp : nat) (ip : inode) (s' : st) (v' : dview) (ip' : inode) : Prop := {
  dsm_ok : dir_ok s' v' dp ip';
  dsm_ext : ext (sb s) v ip v' ip';
  dsm_sb : sb s' = sb s;
  dsm_tab : itable s' = <[dp := ip']> (itable s)
}.

Lemma dir_same_refl s v dp ip : dir_ok s v dp ip → dir_same s v dp ip s v ip.
Proof.
  intros Ho. split; [done| |done|]; destruct Ho; [by apply ext_refl|by rewrite list_insert_id].
Qed.

Lemma dir_same_trans s v dp ip s1 v1 ip1 s2 v2 ip2 :
  dir_same s v dp ip s1 v1 ip1 → dir_same s1 v1 dp ip1 s2 v2 ip2 → dir_same s v dp ip s2 v2 ip2.
Proof.
  intros [O1 E1 B1 T1] [O2 E2 B2 T2]. rewrite B1 in E2.
  split; [done|by eapply ext_trans|congruence|]. by rewrite T2, T1, list_insert_insert_eq.
Qed.

Lemma dir_same_size s v dp ip s' v' ip' : dir_same s v dp ip s' v' ip' → i_size ip' = i_size ip.
Proof. intros [_ E _ _]. rewrite (ext_same _ _ _ _ _ E). done. Qed.

(** Entries of the directory, wherever they are read. *)
Lemma dir_same_entry s v dp ip s' v' ip' k : dir_ok s v dp ip → dir_same s v dp ip s' v' ip' →
  0 <= k → DIRENT * k < i_size ip →
  entry_inum v' ip' k = entry_inum v ip k ∧ entry_name v' ip' k = entry_name v ip k.
Proof.
  intros Ho Hs Hk Hlt. pose proof (do_size _ _ _ _ Ho). pose proof (do_mod _ _ _ _ Ho).
  apply entry_ext; [apply (dsm_ext _ _ _ _ _ _ _ Hs)|done|]. change DIRENT with 16 in *.
  change (MAXFILE * BSIZE) with 274432 in *. mlia.
Qed.

Lemma read_entry_same s v dp ip k : dir_ok s v dp ip → 0 <= k → DIRENT * k < i_size ip →
  fsat io_panic (readi dp 0 de (DIRENT * k) DIRENT) s (λ r s', r = DIRENT ∧ ∃ v' ip',
    dir_same s v dp ip s' v' ip' ∧ de_inum de (fkm s') = entry_inum v ip k ∧
    de_name de (fkm s') = entry_name v ip k).
Proof using Hde0 Hde1 UserMemLaws0.
  intros Ho Hk Hlt. eapply fsat_mono; [by apply read_entry_sat|].
  intros r s' (-> & v' & ip' & O' & E & B & T & Hn). split; [done|]. exists v', ip'. split; [by split|done].
Qed.

(** A lookup of a name that is not there. *)
Lemma lookup_absent_loop name f : ∀ s v dp ip k,
  dir_ok s v dp ip → absent v ip name → 0 <= k → i_size ip <= DIRENT * (k + Z.of_nat f) →
  fsat io_panic (dirlookup_loop de f dp name (DIRENT * k)) s
    (λ o s', o = None ∧ ∃ v' ip', dir_same s v dp ip s' v' ip').
Proof using Hde0 Hde1 UserMemLaws0.
  induction f as [|f IH]; intros s v dp ip k Ho Ha Hk Hf; cbn [dirlookup_loop];
    apply fsat_bind, (fsat_iat _ _ _ ip); try apply Ho;
    (destruct (Z.ltb_spec (DIRENT * k) (i_size ip)) as [Hlt|Hge];
     [|apply fsat_ret; split; [done|]; exists v, ip; by apply dir_same_refl]).
  { change DIRENT with 16 in *; lia. }
  eapply fsat_seq; [by apply read_entry_same|]. intros r s1 (-> & v1 & ip1 & Hs & Hin & Hna).
  rewrite Z.eqb_refl. simpl. fs_get. rewrite Hin, Hna.
  pose proof (do_size _ _ _ _ Ho) as Hsz. change (MAXFILE * BSIZE) with 274432 in *.
  assert (u32 (DIRENT * k + DIRENT) = DIRENT * (k + 1)) as ->.
  { change DIRENT with 16 in *. rewrite u32_small by lia. lia. }
  pose proof (dir_same_size _ _ _ _ _ _ _ Hs) as Hs1.
  assert (fsat io_panic (dirlookup_loop de f dp name (DIRENT * (k + 1))) s1
    (λ o s', o = None ∧ ∃ v' ip', dir_same s v dp ip s' v' ip')) as Hnext.
  { eapply fsat_mono; [apply (IH s1 v1 dp ip1 (k + 1)); [apply Hs| |lia|rewrite Hs1; change DIRENT with 16 in *; lia]|].
    - intros k' Hk' Hl [E1 E2]. rewrite Hs1 in Hl. destruct (dir_same_entry _ _ _ _ _ _ _ k' Ho Hs Hk' Hl) as [Ei En].
      rewrite Ei, En in *. by apply (Ha k').
    - intros o s2 (-> & v2 & ip2 & H2). split; [done|]. exists v2, ip2. by eapply dir_same_trans. }
  destruct (Z.eqb_spec (entry_inum v ip k) 0); [done|].
  destruct (Z.eqb_spec (namecmp name (entry_name v ip k)) 0) as [Hz|]; [|done].
  exfalso. apply (Ha k Hk Hlt). by split.
Qed.

Lemma lookup_absent s v dp ip name : dir_ok s v dp ip → absent v ip name → i_type ip = T_DIR →
  fsat io_panic (dirlookup de dp name) s (λ o s', o = None ∧ ∃ v' ip', dir_same s v dp ip s' v' ip').
Proof using Hde0 Hde1 UserMemLaws0.
  intros Ho Ha Hty. unfold dirlookup. apply fsat_bind, (fsat_iat _ _ _ ip); [apply Ho|].
  rewrite Hty, Z.eqb_refl. simpl. apply (lookup_absent_loop name _ s v dp ip 0); [done..|].
  pose proof (iwf_ok _ _ _ (do_iwf _ _ _ _ Ho)) as (_ & _ & _ & _ & Hsize & _).
  change DIRENT with 16. mlia.
Qed.

(** The entry [dirlink] takes: the first that is free, or the end. *)
Definition free_entry (v : dview) (ip : inode) (k0 k : Z) : Prop :=
  k0 <= k ∧ DIRENT * k <= i_size ip ∧ (∀ k', k0 <= k' < k → entry_inum v ip k' ≠ 0) ∧
  (DIRENT * k = i_size ip ∨ entry_inum v ip k = 0).

Lemma dirlink_loop_sat f : ∀ s v dp ip k,
  dir_ok s v dp ip → 0 <= k → DIRENT * k <= i_size ip → i_size ip <= DIRENT * (k + Z.of_nat f) →
  fsat io_panic (dirlink_loop de f dp (DIRENT * k)) s (λ off s', ∃ v' ip' k',
    off = DIRENT * k' ∧ free_entry v ip k k' ∧ dir_same s v dp ip s' v' ip').
Proof using Hde0 Hde1 UserMemLaws0.
  induction f as [|f IH]; intros s v dp ip k Ho Hk Hle Hf; cbn [dirlink_loop];
    pose proof (do_size _ _ _ _ Ho) as Hsz; pose proof (do_mod _ _ _ _ Ho) as Hmod;
    change (MAXFILE * BSIZE) with 274432 in *;
    apply fsat_bind, (fsat_iat _ _ _ ip); try apply Ho; rewrite u32_small by (change DIRENT with 16 in *; lia);
    (destruct (Z.ltb_spec (DIRENT * k) (i_size ip)) as [Hlt|Hge];
     [|apply fsat_ret; exists v, ip, k; split; [done|]; split; [|by apply dir_same_refl];
       split_and!; [lia|lia|intros k' ?; lia|left; lia]]).
  { change DIRENT with 16 in *; lia. }
  eapply fsat_seq; [by apply read_entry_same|]. intros r s1 (-> & v1 & ip1 & Hs & Hin & _).
  rewrite Z.eqb_refl. simpl. fs_get. rewrite Hin. pose proof (dir_same_size _ _ _ _ _ _ _ Hs) as Hs1.
  destruct (Z.eqb_spec (entry_inum v ip k) 0) as [Hz|Hz].
  { apply fsat_ret. exists v1, ip1, k. split; [done|]. split; [|done].
    split_and!; [lia|lia|intros k' ?; lia|by right]. }
  assert (i32 (DIRENT * k + DIRENT) = DIRENT * (k + 1)) as ->.
  { change DIRENT with 16 in *. rewrite i32_small by lia. lia. }
  eapply fsat_mono; [apply (IH s1 v1 dp ip1 (k + 1)); rewrite ?Hs1; [apply Hs|lia|change DIRENT with 16 in *; mlia|lia]|].
  intros off s2 (v2 & ip2 & k2 & -> & (F1 & F2 & F3 & F4) & H2). rewrite Hs1 in *. exists v2, ip2, k2.
  split; [done|]. split; [|by eapply dir_same_trans].
  assert (∀ k', 0 <= k' → DIRENT * k' < i_size ip → entry_inum v1 ip1 k' = entry_inum v ip k') as Hee.
  { intros k' H1' H2'. by destruct (dir_same_entry _ _ _ _ _ _ _ k' Ho Hs H1' H2'). }
  split_and!; [lia|done| |].
  - intros k' Hk'. destruct (decide (k' = k)) as [->|]; [done|].
    rewrite <-Hee by (change DIRENT with 16 in *; lia). apply F3. lia.
  - destruct (decide (DIRENT * k2 = i_size ip)) as [|Hne]; [by left|right]. destruct F4 as [|F4]; [done|].
    rewrite <-Hee; [done|lia|lia].
Qed.

(** *** The entry written *)
Lemma dirent_len inum name : zlen (dirent_bytes inum name) = 16.
Proof using. unfold dirent_bytes. rewrite zlen_app. unfold zlen. rewrite strncpy_len. done. Qed.

Lemma dirent_source inum name k (m : M) :
  Forall (λ c, 0 <= c < 256) name → 0 <= inum < 65536 →
  source_ok 0 de 16 (λ t, aget (dirent_bytes inum name) t)
    (st_bytes (st_bytes k (de + 2) (strncpy_str DIRSIZ name)) de (le16 inum)) m.
Proof using.
  intros Hn Hi. unfold source_ok. change (0 =? 0) with true. cbv iota. intros t Ht. rewrite !ld8_st_bytes.
  pose proof (dirent_len inum name) as Hz. unfold dirent_bytes in *. rewrite zlen_app in Hz.
  change (zlen (le16 inum)) with 2 in *. rewrite aget_app by lia. change (zlen (le16 inum)) with 2.
  assert (∀ bs j, Forall (λ c, 0 <= c < 256) bs → u8 (aget bs j) = aget bs j) as Hu.
  { intros bs j Hb. unfold aget, u8. destruct (bs !! Z.to_nat j) eqn:He; [|done].
    apply (Forall_lookup_1 _ _ _ _ Hb) in He. by apply Z.mod_small. }
  assert (Forall (λ c, 0 <= c < 256) (le16 inum)) as Hl.
  { assert (u16 inum = inum) as E16 by (by apply Z.mod_small). unfold le16. rewrite E16. repeat constructor; mlia. }
  rewrite (proj2 (Z.leb_le de _)) by lia. replace (de + t - de) with t by lia.
  destruct (Z.ltb_spec (de + t) (de + 2)), (Z.ltb_spec t 2); try lia; cbn [andb]; [by apply Hu|].
  rewrite (proj2 (Z.leb_le _ _)), (proj2 (Z.ltb_lt _ _)) by lia. cbn [andb].
  rewrite Hu by (by apply strncpy_range). f_equal. lia.
Qed.

(** Entries of a file whose bytes from [16 k] on are those of a [dirent]. *)
Lemma entry_written v ip v' ip' k inum name :
  (∀ o, 0 <= o < MAXFILE * BSIZE → content v' ip' o =
     if (DIRENT * k <=? o) && (o <? DIRENT * k + 16) then aget (dirent_bytes inum name) (o - DIRENT * k)
     else content v ip o) →
  Forall (λ c, 0 <= c < 256) name → 0 <= inum < 65536 → 0 <= k → DIRENT * k + 16 <= MAXFILE * BSIZE →
  entry_inum v' ip' k = inum ∧ entry_name v' ip' k = strncpy_str DIRSIZ name ∧
  ∀ j, 0 <= j → j ≠ k → DIRENT * j + 16 <= MAXFILE * BSIZE →
    entry_inum v' ip' j = entry_inum v ip j ∧ entry_name v' ip' j = entry_name v ip j.
Proof using.
  intros Hc Hn Hi Hk Hm. change DIRENT with 16 in *. change (MAXFILE * BSIZE) with 274432 in *.
  assert (∀ t, 0 <= t < 16 → content v' ip' (16 * k + t) = aget (dirent_bytes inum name) t) as Hin.
  { intros t Ht. rewrite Hc, (proj2 (Z.leb_le _ _)), (proj2 (Z.ltb_lt _ _)) by lia. simpl. f_equal. lia. }
  assert (∀ bs j, Forall (λ c, 0 <= c < 256) bs → u8 (aget bs j) = aget bs j) as Hu.
  { intros bs j Hb. unfold aget, u8. destruct (bs !! Z.to_nat j) eqn:He; [|done].
    apply (Forall_lookup_1 _ _ _ _ Hb) in He. by apply Z.mod_small. }
  assert (∀ t, 2 <= t < 16 → aget (dirent_bytes inum name) t = aget (strncpy_str DIRSIZ name) (t - 2)) as Ht.
  { intros t Ht. unfold dirent_bytes. rewrite aget_app by lia. change (zlen (le16 inum)) with 2.
    by rewrite (proj2 (Z.ltb_ge _ _)) by lia. }
  split_and!.
  - unfold entry_inum. change DIRENT with 16. rewrite <-(Z.add_0_r (16 * k)) at 1. rewrite !Hin by lia.
    unfold dirent_bytes. rewrite !aget_app by lia.
    assert (u16 inum = inum) as E16 by (by apply Z.mod_small). unfold le16. rewrite E16. unfold aget, u8. simpl. mlia.
  - unfold entry_name. change DIRENT with 16. apply aget_ext.
    + by rewrite length_fmap, length_seqZ, strncpy_len.
    + unfold zlen. rewrite length_fmap, length_seqZ. intros j Hj. rewrite (aget_seqZ _ 2 14 j) by lia.
      rewrite Hin, Ht by lia. rewrite Hu by (by apply strncpy_range). f_equal. lia.
  - intros j Hj Hne Hjm. unfold entry_inum, entry_name. change DIRENT with 16.
    assert (∀ t, 0 <= t < 16 → content v' ip' (16 * j + t) = content v ip (16 * j + t)) as Ho.
    { intros t Htr. rewrite Hc by lia.
      destruct (Z.leb_spec (16 * k) (16 * j + t)), (Z.ltb_spec (16 * j + t) (16 * k + 16)); simpl; try done. lia. }
    split.
    + rewrite <-(Z.add_0_r (16 * j)) at 1. rewrite <-(Z.add_0_r (16 * j)) at 3. by rewrite !Ho by lia.
    + apply list_fmap_ext. intros i z Hz. apply lookup_seqZ in Hz as [-> Hz]. by rewrite Ho by lia.
Qed.

(** What [dirlink] leaves when it put the name at entry [k]. *)
Definition linked (s : st) (v : dview) (dp : nat) (ip : inode) (name : list Z) (inum k : Z)
    (s' : st) (v' : dview) (ip' : inode) : Prop :=
  free_entry v ip 0 k ∧ dir_ok s' v' dp ip' ∧ sb s' = sb s ∧
    itable s' = <[dp := ip']> (itable s) ∧ i_type ip' = T_DIR ∧
    i_size ip' = Z.max (i_size ip) (DIRENT * k + 16) ∧
    entry_inum v' ip' k = inum ∧ entry_name v' ip' k = strncpy_str DIRSIZ name ∧
    ∀ j, 0 <= j → j ≠ k → DIRENT * j < i_size ip →
      entry_inum v' ip' j = entry_inum v ip j ∧ entry_name v' ip' j = entry_name v ip j.

Lemma dirlink_sat s v dp ip name inum :
  dir_ok s v dp ip → absent v ip name → i_type ip = T_DIR → 0 <= i_inum ip < sb_ninodes (sb s) →
  i_size ip + 16 <= MAXFILE * BSIZE → Forall (λ c, 0 <= c < 256) name → 0 <= inum < 65536 →
  fsat io_panic (dirlink de dp name inum) s (λ r s', ∃ v' ip',
    r = 0 ∧ (∃ k, linked s v dp ip name inum k s' v' ip') ∨ r = -1 ∧ frep s' v' ∅ ∧ full (sb s) v').
Proof using Hde0 Hde1 UserMemLaws0.
  intros Ho Ha Hty Hin Hroom Hn Hi. unfold dirlink. change (MAXFILE * BSIZE) with 274432 in *.
  eapply fsat_seq; [by apply lookup_absent|]. intros o s1 (-> & v1 & ip1 & Hs1). cbv beta match.
  pose proof (dsm_ok _ _ _ _ _ _ _ Hs1) as Ho1. pose proof (dir_same_size _ _ _ _ _ _ _ Hs1) as Hz1.
  apply fsat_bind, (fsat_iat _ _ _ ip1); [apply Ho1|].
  pose proof (iwf_ok _ _ _ (do_iwf _ _ _ _ Ho)) as (_ & _ & _ & _ & Hsize & _).
  eapply fsat_seq.
  { apply (dirlink_loop_sat _ s1 v1 dp ip1 0); [done|lia|lia|rewrite Hz1; change DIRENT with 16; mlia]. }
  intros off s2 (v2 & ip2 & k & -> & Hfree & Hs2). pose proof (dsm_ok _ _ _ _ _ _ _ Hs2) as Ho2.
  pose proof (dir_same_trans _ _ _ _ _ _ _ _ _ _ Hs1 Hs2) as Hs. destruct Hs2 as [_ _ B2 _].
  pose proof (dir_same_size _ _ _ _ _ _ _ Hs) as Hz. pose proof Hs as [_ E B T].
  assert (free_entry v ip 0 k) as Hfree0.
  { destruct Hfree as (F1 & F2 & F3 & F4). rewrite Hz1 in *.
    assert (∀ k', 0 <= k' → DIRENT * k' < i_size ip → entry_inum v1 ip1 k' = entry_inum v ip k') as Hee.
    { intros k' H1' H2'. by destruct (dir_same_entry _ _ _ _ _ _ _ k' Ho Hs1 H1' H2'). }
    split_and!; [lia|done| |].
    - intros k' Hk'. rewrite <-Hee by (change DIRENT with 16 in *; lia). by apply F3.
    - destruct (decide (DIRENT * k = i_size ip)) as [|Hne]; [by left|right]. destruct F4; [done|].
      rewrite <-Hee; [done|lia|lia]. }
  pose proof Hfree0 as (F1 & F2 & _ & _). pose proof (do_mod _ _ _ _ Ho) as Hmod.
  change DIRENT with 16 in *. rewrite u32_small by lia.
  fs_get. fs_get. apply fsat_bind, fsat_modf.
  assert (i_inum ip2 = i_inum ip) as Hnum by (rewrite (ext_same _ _ _ _ _ E); done).
  eapply fsat_seq.
  { eapply (writei_sat (set_fmem _ _ s2) v2 dp ip2 0 de (16 * k) 16); cbn [sb itable set_fmem fkm fum];
      [exact (do_rep _ _ _ _ Ho2)|apply Ho2|apply Ho2|rewrite Hnum, B; done|apply Ho2|apply Ho2
      |by apply dirent_source|rewrite ?Hz; change (MAXFILE * BSIZE) with 274432; lia..]. }
  intros tot s3 (v3 & ip3 & Htot & [R3 D3 I3 T3 E3 S3 C3 F3 M3 L3 _ [B3 _]] & Hor). cbn [sb itable set_fmem] in *.
  apply fsat_ret. destruct (Z.eqb_spec tot 16) as [->|Hne]; simpl.
  2: { exists v3, ip3. right. split; [done|]. split; [exact R3|]. destruct Hor as [?|Hf]; [done|]. by rewrite B in Hf. }
  exists v3, ip3. left. split; [done|]. exists k. rewrite Hz in *.
  destruct (entry_written v2 ip2 v3 ip3 k inum name) as (W1 & W2 & W3); [exact C3|done|done|lia|change DIRENT with 16; change (MAXFILE * BSIZE) with 274432; lia|].
  split_and!; try done.
  - split; rewrite ?B3; try done.
    + rewrite T3. apply list_lookup_insert_eq. by eapply lookup_lt_Some, Ho2.
    + rewrite E3. apply Ho2.
    + change (MAXFILE * BSIZE) with 274432. lia.
    + rewrite S3. change DIRENT with 16. mlia.
    + intros o Hor'. destruct (decide (16 * k <= o < 16 * k + 16)) as [Hw|Hw]; [by apply M3|].
      assert (blk v2 ip2 (o / BSIZE) ≠ 0) as Hb by (apply (do_map _ _ _ _ Ho2); lia).
      rewrite L3; [done| |done]. change MAXFILE with 268. blia.
  - by rewrite B3.
  - by rewrite T3, T, list_insert_insert_eq.
  - rewrite E3. simpl. rewrite (ext_same _ _ _ _ _ E). done.
  - intros j Hj Hne Hlt. change DIRENT with 16 in Hlt.
    destruct (W3 j) as [-> ->]; [done|done|change DIRENT with 16; change (MAXFILE * BSIZE) with 274432; mlia|].
    apply (dir_same_entry _ _ _ _ _ _ _ j Ho Hs); [done|change DIRENT with 16; lia].
Qed.

Lemma linked_found (s : st) v dp ip name inum k (s1 : st) v1 ip1 o (s2 : st) :
  dir_ok s v dp ip → absent v ip name → inum ≠ 0 → linked s v dp ip name inum k s1 v1 ip1 →
  lookup_post v1 ip1 name 0 o s2 → ∃ j r, o = Some (j, DIRENT * k) ∧ ikeys s2 !! j = Some (ROOTDEV, inum, r).
Proof using.
  intros Ho Ha Hi (Hf & Ho1 & _ & _ & _ & Hsz & Hk1 & Hk2 & Hoth) Hl.
  destruct Hf as (F1 & F2 & _ & _). pose proof (do_mod _ _ _ _ Ho) as Hmod.
  assert (entry_is v1 ip1 name k) as Hk.
  { split; [by rewrite Hk1|]. rewrite Hk2. apply namecmp_strncpy. }
  unfold lookup_post in Hl. change DIRENT with 16 in *. destruct o as [[j off]|].
  - destruct Hl as (k' & r & Hk' & -> & Hlt & His & _ & Hj).
    assert (k' = k) as ->; [|exists j, r; by rewrite Hk1 in Hj].
    destruct (decide (k' = k)) as [|Hne]; [done|]. exfalso.
    assert (16 * k' < i_size ip) as Hlt' by mlia.
    destruct (Hoth k' Hk' Hne Hlt') as [E1 E2]. apply (Ha k' Hk' Hlt'). unfold entry_is in *. by rewrite E1, E2 in His.
  - exfalso. apply (Hl k); [lia|lia|done].
Qed.

(** C32: [dirlink] of a name that the directory does not have, and a lookup
    after it. [dirlink] returns 0 after it has written name and inode number to
    the first free entry (or a new one after the last), with every other entry
    and the consistency of the disk kept, and then [dirlookup] of the name
    returns an inode table entry for this inode number and the offset of that
    entry; or [dirlink] returns -1, and then no block of the disk is free. *)
Theorem dirlink_dirlookup (s : st) v dp ip name inum :
  dir_ok s v dp ip → absent v ip name → i_type ip = T_DIR → 0 <= i_inum ip < sb_ninodes (sb s) →
  i_size ip + 16 <= MAXFILE * BSIZE → Forall (λ c, 0 <= c < 256) name → 0 < inum < 65536 →
  fsat lookup_panic (r ← dirlink de dp name inum;
                     o ← (if r =? 0 then dirlookup de dp name else mret None); mret (r, o)) s
    (λ '(r, o) s', (∃ k s1 v1 ip1 j n, r = 0 ∧ linked s v dp ip name inum k s1 v1 ip1 ∧
        o = Some (j, DIRENT * k) ∧ ikeys s' !! j = Some (ROOTDEV, inum, n)) ∨
      (r = -1 ∧ ∃ v', frep s' v' ∅ ∧ full (sb s) v')).
Proof using Hde0 Hde1 UserMemLaws0.
  intros Ho Ha Hty Hin Hroom Hn Hi.
  eapply fsat_seq; [eapply fsat_weaken; [|apply (dirlink_sat s v dp ip name inum); try done; lia]; by left|].
  intros r s1 (v1 & ip1 & [[-> [k Hk]]|(-> & R & Hf)]).
  - rewrite Z.eqb_refl. pose proof Hk as (_ & Ho1 & _ & _ & Ht1 & _).
    assert (inum ≠ 0) as Hi0 by lia.
    eapply fsat_seq; [by apply (dirlookup_sat de s1 v1 dp ip1 name)|]. intros o s2 Hl.
    destruct (linked_found _ _ _ _ _ _ _ _ _ _ _ _ Ho Ha Hi0 Hk Hl) as (j & n & -> & Hj).
    apply fsat_ret. left. by exists k, s1, v1, ip1, j, n.
  - apply fsat_bind, fsat_ret, fsat_ret. right. eauto.
Qed.
End dirlink.
