(* ===== verification/FsExample.v ===== *)
(** * A small file system

    A disk of 64 blocks with a root directory of three entries; the theorems on
    file contents, directories and paths hold of it and its calls run. *)
From S2P Require Import Prelude Riscv Bio Log LogSpec Buf Proc UserMem Mem Uart Printf Console Fs FsLaws FsAlloc Dinode Dir Itable IRefs PathSpec Content ContentSpec ReadSpec DirSpec DirLink.
Import FlatDisk Flat.
#[local] Existing Instance no_log.

(** Inodes in block 3, the bitmap in block 4, the root directory in block 5. *)
Definition x0 : superblock := mkSB FSMAGIC 64 59 16 0 2 3 4.
Definition root : inode := mkInode 1 1 0 false false 1 0 0 1 48 (5 :: replicate 12 0).
Definition filea : inode := mkInode 1 2 0 false false 2 0 0 1 0 (replicate 13 0).
Definition entry (inum : Z) (name : list Z) : list Z := le16 inum ++ strncpy_str DIRSIZ name.
Definition disk0 : fdisk := mkFD
  {[ 3 := put_dinode (put_dinode zero_block 64 root) 128 filea;
     4 := splice zero_block 0 [63];
     5 := splice zero_block 0 (entry 1 [46] ++ entry 1 [46; 46] ++ entry 2 [97]) ]} ∅.

(** The root directory in slot 0, locked and valid; the file in slot 1. *)
Definition rootv : inode := set_i_valid true (set_i_lock true (set_i_ref 1 root)).
Definition fileav : inode := set_i_valid true (set_i_lock true (set_i_ref 1 filea)).
Definition empty0 : inode := mkInode 0 0 0 false false 0 0 0 0 0 (replicate 13 0).
Definition kmem0 : mem := {[ 1000 := 7; 1001 := 8; 1002 := 9 ]}.
Definition s0 : fss fdisk flat :=
  mkFss x0 [rootv; fileav; empty0] disk0 kmem0 (mk 0 []) [].

Lemma bblock_4 c : 0 <= c < 64 → BBLOCK c x0 = 4.
Proof. intros. unfold BBLOCK. simpl. rewrite Z.div_small; [done|]. unfold BPB, BSIZE. lia. Qed.
Lemma iblock0 n : 0 <= n < 16 → IBLOCK n x0 = 3.
Proof. intros. unfold IBLOCK. simpl. rewrite Z.div_small; [done|]. change IPB with 16. lia. Qed.

Lemma used0 b : 0 <= b < 6 → used x0 (fd_get disk0) b = true.
Proof.
  intros Hb. assert (b = 0 ∨ b = 1 ∨ b = 2 ∨ b = 3 ∨ b = 4 ∨ b = 5) as Hc by lia.
  destruct Hc as [->|[->|[->|[->|[->| ->]]]]]; by vm_compute.
Qed.

Lemma meta0 b : meta x0 b → b = 3 ∨ b = 4.
Proof.
  intros [(c & Hc & ->)|[(n & Hn & ->)|[=]]]; simpl in *; [rewrite bblock_4 by lia|rewrite iblock0 by lia]; auto.
Qed.

Lemma dwf0 : dwf x0 (fd_get disk0).
Proof.
  split.
  - apply fd_get_len.
  - intros b Hb Hu. simpl in Hb. destruct (decide (b < 6)); [by rewrite used0 in Hu by lia|].
    split; [lia|]. intros Hm%meta0. lia.
  - done.
  - done.
  - intros n c Hn Hc. simpl in *. rewrite iblock0, bblock_4 by lia. lia.
  - simpl. lia.
Qed.

Lemma data5 : data_block x0 (fd_get disk0) 5.
Proof. split_and!; simpl; try lia; [apply used0; lia|]. intros Hm%meta0. lia. Qed.

(** Files with at most the first block. *)
Lemma blk_small v ip bn : i_addrs ip = aget (i_addrs ip) 0 :: replicate 12 0 → 0 <= bn →
  blk v ip bn = if bn =? 0 then aget (i_addrs ip) 0 else 0.
Proof.
  intros Ha Hb. unfold blk, ind. change NDIRECT with 12. rewrite Ha.
  destruct (Z.eqb_spec bn 0) as [->|]; [done|]. destruct (Z.ltb_spec bn 12); [|done].
  assert (∀ y, aget (y :: replicate 12 0) bn = 0) as Hz; [|apply Hz].
  intros y. unfold aget. destruct (Z.to_nat bn) as [|k] eqn:Hk; [lia|].
  change ((y :: replicate 12 0) !! S k) with (replicate 12 0 !! k).
  destruct (replicate 12 0 !! k) as [z|] eqn:Hl; [|done]. by apply lookup_replicate in Hl as [-> _].
Qed.

Lemma iwf_small v ip :
  inode_ok ip → i_addrs ip = aget (i_addrs ip) 0 :: replicate 12 0 →
  (aget (i_addrs ip) 0 ≠ 0 → data_block x0 v (aget (i_addrs ip) 0)) → iwf x0 v ip.
Proof.
  intros Hok Ha Hd. assert (ind ip = 0) as Hi by (unfold ind; by rewrite Ha). split; [done|done| |].
  - intros bn Hbn. rewrite blk_small, Hi by (done || lia). destruct (bn =? 0); [|done]. auto.
  - intros bn bn' Hbn Hbn'. rewrite !blk_small by (done || lia).
    destruct (Z.eqb_spec bn 0), (Z.eqb_spec bn' 0); congruence.
Qed.

Lemma rootv_ok : inode_ok rootv ∧ inode_ok fileav.
Proof.
  unfold inode_ok, short_ok, rootv, fileav. simpl.
  split; split_and!; try lia; try done; repeat constructor; lia.
Qed.
Lemma iwf_root : iwf x0 (fd_get disk0) rootv.
Proof. apply iwf_small; [apply rootv_ok|done|]. intros _. apply data5. Qed.
Lemma iwf_filea : iwf x0 (fd_get disk0) fileav.
Proof. apply iwf_small; [apply rootv_ok|done|]. done. Qed.

Lemma frep0 : frep s0 (fd_get disk0) ∅.
Proof. done. Qed.

(** Writing three bytes of kernel memory to the empty file; and from an address
    that is not mapped, where nothing is written. *)
Lemma writei_correct_witness :
  fsat io_panic (writei 1 0 1000 0 3) s0 (λ tot s', ∃ v' ip',
    0 <= tot <= 3 ∧ written s0 (fd_get disk0) 1 fileav 0 tot (λ t, ld8 kmem0 (1000 + t)) s' v' ip' ∧
    (tot = 3 ∨ full (sb s0) v')) ∧
  fsat io_panic (writei 1 1 64 0 3) s0 (λ tot s', ∃ v' ip',
    0 <= tot <= 0 ∧ written s0 (fd_get disk0) 1 fileav 0 tot (λ _, 0) s' v' ip' ∧
    (tot = 0 ∨ full (sb s0) v')).
Proof.
  assert (0 <= i_inum fileav < sb_ninodes (sb s0)) as Hin by (simpl; lia).
  assert (source_ok 0 1000 3 (λ t, ld8 kmem0 (1000 + t)) (fkm s0) (fum s0)) as Hsrc by done.
  assert (source_end 0 1000 3 3 (fum s0)) as He by by left. assert (clean_end 0 3 3) as Hc by by left.
  assert (source_ok 1 64 0 (λ _, 0) (fkm s0) (fum s0)) as Hsrc' by (split; [done|]; intros; lia).
  assert (source_end 1 64 3 0 (fum s0)) as He' by (right; split_and!; [lia|done|by vm_compute]).
  assert (clean_end 0 3 0) as Hc' by (right; by left).
  assert (0 <= 1000) as H1 by lia. assert (1000 + 3 < 18446744073709551616) as H2 by lia.
  assert (0 <= 64) as H5 by lia. assert (64 + 3 < 18446744073709551616) as H6 by lia.
  assert (0 <= 3 <= 3) as H3 by lia. assert (0 <= 0 < 4294967296) as H4 by lia.
  assert (0 <= 0 <= 3) as H7 by lia. assert (3 < 4294967296) as H8 by lia.
  split.
  - exact (writei_correct s0 (fd_get disk0) 1 fileav 0 1000 0 3 3 _ frep0 eq_refl eq_refl Hin dwf0 iwf_filea
      Hsrc He Hc H1 H2 H3 H8 H4).
  - exact (writei_correct s0 (fd_get disk0) 1 fileav 1 64 0 3 0 _ frep0 eq_refl eq_refl Hin dwf0 iwf_filea
      Hsrc' He' Hc' H5 H6 H7 H8 H4).
Defined.

Lemma readi_correct_witness :
  fsat io_panic (readi 0 0 2000 32 100) s0 (λ r s', ∃ v' ip',
    read_done s0 (fd_get disk0) 0 rootv 0 2000 32 16 r s' v' ip').
Proof.
  assert (i_size rootv <= MAXFILE * BSIZE) as H0 by (by vm_compute).
  assert (sink_ok 0 2000 (Z.min 100 (i_size rootv - 32)) (fum s0)) as Hs by (by left).
  assert (0 <= 2000) as H1 by lia. assert (2000 + 100 < 18446744073709551616) as H2 by lia.
  assert (0 <= 100 < 4294967296) as H3 by lia. assert (0 <= 32 < 4294967296) as H4 by lia.
  exact (readi_correct s0 (fd_get disk0) 0 rootv 0 2000 32 100 frep0 eq_refl eq_refl dwf0 iwf_root
    H0 Hs H1 H2 H3 H4).
Defined.


Lemma dir_ok0 : dir_ok s0 (fd_get disk0) 0 rootv.
Proof.
  split; try done; [apply dwf0|apply iwf_root|].
  intros o Ho. rewrite blk_small; [|done|simpl in Ho; apply Z.div_pos; unfold BSIZE; lia].
  simpl in Ho. rewrite Z.div_small by (unfold BSIZE; lia). done.
Qed.

Lemma dirlookup_correct_witness :
  fsat lookup_panic (dirlookup 3000 0 [97]) s0 (lookup_post (fd_get disk0) rootv [97] 0).
Proof.
  assert (0 <= 3000) as H1 by lia. assert (3000 + 16 < 18446744073709551616) as H2 by lia.
  exact (dirlookup_correct 3000 s0 (fd_get disk0) 0 rootv [97] dir_ok0 H1 H2 eq_refl).
Defined.

(** "b" is not in the root directory; [dirlink] adds it. *)
Lemma absent_b : absent (fd_get disk0) rootv [98].
Proof.
  intros k Hk Hlt [_ Hz]. change (DIRENT * k < 48) in Hlt. change DIRENT with 16 in Hlt.
  assert (k = 0 ∨ k = 1 ∨ k = 2) as Hc by lia.
  destruct Hc as [->|[->| ->]]; vm_compute in Hz; discriminate.
Qed.

Lemma dirlink_dirlookup_witness :
  fsat lookup_panic (r ← dirlink 3000 0 [98] 2;
                     o ← (if r =? 0 then dirlookup 3000 0 [98] else mret None); mret (r, o)) s0
    (λ '(r, o) s', (∃ k s1 v1 ip1 j n, r = 0 ∧ linked s0 (fd_get disk0) 0 rootv [98] 2 k s1 v1 ip1 ∧
        o = Some (j, DIRENT * k) ∧ ikeys s' !! j = Some (ROOTDEV, 2, n)) ∨
      (r = -1 ∧ ∃ v', frep s' v' ∅ ∧ full (sb s0) v')).
Proof.
  assert (0 <= 3000) as H1 by lia. assert (3000 + 16 < 18446744073709551616) as H2 by lia.
  assert (0 <= i_inum rootv < sb_ninodes (sb s0)) as H3 by (simpl; lia).
  assert (i_size rootv + 16 <= MAXFILE * BSIZE) as H4 by (by vm_compute).
  assert (Forall (λ c, 0 <= c < 256) ([98] : list Z)) as H5 by (repeat constructor; lia).
  assert (0 < 2 < 65536) as H6 by lia.
  exact (dirlink_dirlookup 3000 H1 H2 s0 (fd_get disk0) 0 rootv [98] 2 dir_ok0 absent_b eq_refl H3 H4 H5 H6).
Defined.

(** A table with only the current directory. *)
Definition s1 : fss fdisk flat :=
  mkFss x0 [set_i_ref 1 root; empty0; empty0] disk0 kmem0 (mk 0 []) [].
Definition c1 (i : nat) : Z := match i with O => 1 | _ => 0 end.

Lemma krefs1 : krefs c1 (ikeys s1).
Proof.
  split.
  - intros i k. destruct i as [|[|[|i]]]; simpl; intros Hk; simplify_eq; done.
  - intros i j a b. destruct i as [|[|[|i]]], j as [|[|[|j]]]; simpl; intros; simplify_eq/=; done || lia.
Qed.

(** Looking up "/a" finds inode 2 in slot 1. *)
Definition found (r : res (option nat * list Z * fss fdisk flat)) : option (nat * list (Z * Z * Z)) :=
  match r with Ok (Some i, _, s) => Some (i, ikeys s) | _ => None end.

Lemma lookup_a : found (namex 3000 0 [47; 97] false [] s1) = Some (1%nat, [(1, 1, 1); (1, 2, 1); (0, 0, 0)]).
Proof. by vm_compute. Qed.

Lemma found_inv r i ks : found r = Some (i, ks) → ∃ name s, r = Ok (Some i, name, s).
Proof. destruct r as [[[[j|] name] s]| |]; simpl; try done. intros [= -> _]. by exists name, s. Qed.

Lemma namex_balanced_witness :
  ∃ name' s', namex 3000 0 [47; 97] false [] s1 = Ok (Some 1%nat, name', s') ∧
    krefs (handed (Some 1%nat) c1) (ikeys s').
Proof.
  destruct (found_inv _ _ _ lookup_a) as (name' & s' & He).
  exists name', s'. split; [exact He|].
  apply (namex_balanced 3000 s1 s' 0 [47; 97] false [] c1 (Some 1%nat) name'); [apply krefs1| | |exact He].
  - intros i. unfold c1. destruct i; lia.
  - simpl. lia.
Defined.

Lemma iget_correct_witness :
  match iget 1 2 s1 with
  | Ok (i, s') => ikeys s' !! i = Some (1, 2, c1 i + 1) ∧ krefs (cadd i c1) (ikeys s') ∧
      (∀ j, j ≠ i → itable s' !! j = itable s1 !! j) ∧
      (c1 i = 0 → i_valid <$> itable s' !! i = Some false)
  | Panic m => m = "iget: no inodes"%string ∧
      ∀ i k, ikeys s1 !! i = Some k → c1 i ≠ 0 ∧ k.1 ≠ (1, 2)
  | NoFuel => False
  end.
Proof.
  apply (iget_correct s1 1 2 c1); [apply krefs1|]. intros i. unfold c1. destruct i; lia.
Defined.

Lemma fs_ok1 : fs_ok s1.
Proof.
  split; [unfold uint_ok; simpl; lia|]. repeat constructor; unfold short_ok; simpl; try lia.
Qed.
