(* ===== verification/File.v ===== *)
(** * The file table and the life of a pipe

    Models [kernel/file.c] and [pipealloc]/[pipeclose] of [kernel/pipe.c].
    A [struct file] is named by its index in [ftable.file[NFILE]]; a pipe by
    the address of its page.  The state holds the table, the live pipes, the
    page allocator of [Kalloc] and the process table; what [file.c] needs of
    the inode layer is the class [InodeOps] over a state [I] of its own.
    The calls of [piperead], [pipewrite] and a device function, which may
    sleep, are the last thing [fileread]/[filewrite] do: they are returned as
    a value ([fcall]) and run by the models of those functions. *)
From S2P Require Import Prelude Riscv Bio Log Proc UserMem Pipe Mem CString Kalloc.

Definition NFILE : nat := 100.
Definition NDEV : Z := 10.

Inductive ftype := FD_NONE | FD_PIPE | FD_INODE | FD_DEVICE.

#[export] Instance ftype_eq_dec : EqDecision ftype.
Proof. solve_decision. Defined.

Record file := mkFile {
  f_type : ftype;
  f_ref : Z;
  f_readable : Z;
  f_writable : Z;
  f_pipe : Z;
  f_ip : nat;
  f_off : Z;
  f_major : Z
}.

Definition set_ref (r : Z) (f : file) : file :=
  mkFile (f_type f) r (f_readable f) (f_writable f) (f_pipe f) (f_ip f) (f_off f) (f_major f).
Definition set_ftype (t : ftype) (f : file) : file :=
  mkFile t (f_ref f) (f_readable f) (f_writable f) (f_pipe f) (f_ip f) (f_off f) (f_major f).
Definition set_off (o : Z) (f : file) : file :=
  mkFile (f_type f) (f_ref f) (f_readable f) (f_writable f) (f_pipe f) (f_ip f) o (f_major f).
(** The stores of [pipealloc] into one of its two files. *)
Definition set_pipe_end (r w pi : Z) (f : file) : file :=
  mkFile FD_PIPE (f_ref f) r w pi (f_ip f) (f_off f) (f_major f).

(** What [file.c] and [proc.c] call of [log.c] and [fs.c]: a transaction bracket, and the
    operations on the inode with a given index.  [readi] and [writei] are
    called with [user_dst = 1], so they carry the user address. *)
Class InodeOps (I : Type) := {
  op_begin : I → res I;
  op_end : I → res I;
  iput : nat → I → res I;
  idup : nat → I → res I;
  namei : list Z → I → res (option nat * I);
  ilock : nat → I → res I;
  iunlock : nat → I → res I;
  readi : nat → Z → Z → Z → I → res (Z * I);
  writei : nat → Z → Z → Z → I → res (Z * I)
}.

(** The tail calls of [fileread] and [filewrite]. *)
Inductive fcall :=
| FcRet (r : Z)
| FcPipe (pi addr n : Z)
| FcDevice (major addr n : Z).

Section file_ops.
Context {I : Type} `{InodeOps I}.
Context (V kend : Z).

Record fst_ := mkF {
  ftable : list file;
  pipes : gmap Z pipe;
  kheap : kst;
  fptab : list proc;
  devsw : list (bool * bool);   (* which device functions are set *)
  inodes : I
}.

Definition set_ftable (t : list file) (s : fst_) : fst_ :=
  mkF t (pipes s) (kheap s) (fptab s) (devsw s) (inodes s).
Definition set_pipes (p : gmap Z pipe) (s : fst_) : fst_ :=
  mkF (ftable s) p (kheap s) (fptab s) (devsw s) (inodes s).
Definition set_kheap (k : kst) (s : fst_) : fst_ :=
  mkF (ftable s) (pipes s) k (fptab s) (devsw s) (inodes s).
Definition set_fptab (p : list proc) (s : fst_) : fst_ :=
  mkF (ftable s) (pipes s) (kheap s) p (devsw s) (inodes s).
Definition set_inodes (i : I) (s : fst_) : fst_ :=
  mkF (ftable s) (pipes s) (kheap s) (fptab s) (devsw s) i.

(** *** file.c *)

(** The scan of [filealloc]: the first entry with [ref == 0]. *)
Fixpoint free_slot (t : list file) (i : nat) : option nat :=
  match t with
  | [] => None
  | f :: t' => if f_ref f =? 0 then Some i else free_slot t' (S i)
  end.

Definition filealloc (s : fst_) : option nat * fst_ :=
  match free_slot (ftable s) 0 with
  | Some i => (Some i, set_ftable (alter (set_ref 1) i (ftable s)) s)
  | None => (None, s)
  end.

(** A pointer into the table that is out of range does not occur in C. *)
Definition fget (i : nat) (s : fst_) : res file :=
  match ftable s !! i with Some f => Ok f | None => Panic "file index" end.

Definition filedup (i : nat) (s : fst_) : res (nat * fst_) :=
  f ← fget i s;
  if f_ref f <? 1 then Panic "filedup"
  else Ok (i, set_ftable (<[i := set_ref (i32 (f_ref f + 1)) f]> (ftable s)) s).

(** *** pipeclose: the critical section, then the pages *)
Definition kfree_page (pa : Z) (s : fst_) : res fst_ :=
  k ← kfree kend pa (kheap s); Ok (set_kheap k s).

Definition pipeclose (me : option nat) (pa writable : Z) (s : fst_) : res fst_ :=
  match pipes s !! pa with
  | None => Panic "pipe address"
  | Some pi =>
      let '(pi, ps) :=
        if negb (writable =? 0)
        then (set_writeopen 0 pi, wakeup V me (ChNread pa) (fptab s))
        else (set_readopen 0 pi, wakeup V me (ChNwrite pa) (fptab s)) in
      let s := set_fptab ps (set_pipes (<[pa := pi]> (pipes s)) s) in
      if (readopen pi =? 0) && (writeopen pi =? 0) then
        s ← (if 4 <=? V then kfree_page (pdata_page pi) s else Ok s);
        s ← kfree_page pa s;
        Ok (set_pipes (delete pa (pipes s)) s)
      else Ok s
  end.

(** [fileclose] up to the release of [ftable.lock]: the copy [ff] when this was
    the last reference. *)
Definition fileclose_begin (i : nat) (s : fst_) : res (option file * fst_) :=
  f ← fget i s;
  if f_ref f <? 1 then Panic "fileclose"
  else
    let f := set_ref (f_ref f - 1) f in
    if 0 <? f_ref f then Ok (None, set_ftable (<[i := f]> (ftable s)) s)
    else
      let ff := f in
      Ok (Some ff, set_ftable (<[i := set_ftype FD_NONE (set_ref 0 f)]> (ftable s)) s).

(** [fileclose] after the release: close what [ff] stood for. *)
Definition fileclose_end (me : option nat) (ff : file) (s : fst_) : res fst_ :=
  match f_type ff with
  | FD_PIPE => pipeclose me (f_pipe ff) (f_writable ff) s
  | FD_INODE | FD_DEVICE =>
      n ← op_begin (inodes s);
      n ← iput (f_ip ff) n;
      n ← op_end n;
      Ok (set_inodes n s)
  | FD_NONE => Ok s
  end.

Definition fileclose (me : option nat) (i : nat) (s : fst_) : res fst_ :=
  '(o, s) ← fileclose_begin i s;
  match o with None => Ok s | Some ff => fileclose_end me ff s end.

Definition dev_present (sel : bool * bool → bool) (major : Z) (s : fst_) : bool :=
  match devsw s !! Z.to_nat major with Some d => sel d | None => false end.

Definition fileread (i : nat) (addr n : Z) (s : fst_) : res (fcall * fst_) :=
  f ← fget i s;
  if f_readable f =? 0 then Ok (FcRet (-1), s)
  else match f_type f with
  | FD_PIPE => Ok (FcPipe (f_pipe f) addr n, s)
  | FD_DEVICE =>
      if (f_major f <? 0) || (NDEV <=? f_major f) || negb (dev_present fst (f_major f) s)
      then Ok (FcRet (-1), s) else Ok (FcDevice (f_major f) addr n, s)
  | FD_INODE =>
      x ← ilock (f_ip f) (inodes s);
      '(r, x) ← readi (f_ip f) addr (f_off f) n x;
      let t := if 0 <? r then <[i := set_off (u32 (f_off f + r)) f]> (ftable s) else ftable s in
      x ← iunlock (f_ip f) x;
      Ok (FcRet r, set_inodes x (set_ftable t s))
  | FD_NONE => Panic "fileread"
  end.

(** The transaction limit of [filewrite]. *)
Definition fw_max : Z := (MAXOPBLOCKS - 1 - 1 - 2) / 2 * BSIZE.

(** The loop of [filewrite] over one file of type FD_INODE: the offset [off]
    and the count [i]; one turn is one transaction. *)
Fixpoint filewrite_loop (fuel : nat) (ip : nat) (addr n i off : Z) (x : I) : res (Z * Z * I) :=
  if i <? n then
    match fuel with
    | O => NoFuel
    | S fu =>
        let n1 := n - i in
        let n1 := if fw_max <? n1 then fw_max else n1 in
        x ← op_begin x;
        x ← ilock ip x;
        '(r, x) ← writei ip (u64 (addr + i)) off n1 x;
        let off := if 0 <? r then u32 (off + r) else off in
        x ← iunlock ip x;
        x ← op_end x;
        if negb (r =? n1) then Ok (i, off, x)
        else filewrite_loop fu ip addr n (i + r) off x
    end
  else Ok (i, off, x).

Definition filewrite (i : nat) (addr n : Z) (s : fst_) : res (fcall * fst_) :=
  f ← fget i s;
  if f_writable f =? 0 then Ok (FcRet (-1), s)
  else match f_type f with
  | FD_PIPE => Ok (FcPipe (f_pipe f) addr n, s)
  | FD_DEVICE =>
      if (f_major f <? 0) || (NDEV <=? f_major f) || negb (dev_present snd (f_major f) s)
      then Ok (FcRet (-1), s) else Ok (FcDevice (f_major f) addr n, s)
  | FD_INODE =>
      '(k, off, x) ← filewrite_loop (Z.to_nat n) (f_ip f) addr n 0 (f_off f) (inodes s);
      Ok (FcRet (if k =? n then n else -1),
          set_inodes x (set_ftable (<[i := set_off off f]> (ftable s)) s))
  | FD_NONE => Panic "filewrite"
  end.

(** *** pipealloc *)

(** The label [bad:]. *)
Definition pipealloc_bad (me : option nat) (pi : Z) (f0 f1 : option nat) (s : fst_)
    : res (Z * option (nat * nat) * fst_) :=
  s ← (if negb (pi =? 0) then kfree_page pi s else Ok s);
  s ← match f0 with Some i => fileclose me i s | None => Ok s end;
  s ← match f1 with Some i => fileclose me i s | None => Ok s end;
  Ok (-1, None, s).

(** The new pipe at [pa]; its buffer holds what [kalloc] left in the page. *)
Definition new_pipe (pa data : Z) : pipe :=
  mkPipe pa data (replicate (Z.to_nat (PIPE_TOTAL V)) 5) 0 0 1 1.

Definition pipealloc (me : option nat) (s : fst_) : res (Z * option (nat * nat) * fst_) :=
  match filealloc s with
  | (None, s) => pipealloc_bad me 0 None None s
  | (Some f0, s) =>
      match filealloc s with
      | (None, s) => pipealloc_bad me 0 (Some f0) None s
      | (Some f1, s) =>
          let '(pi, k) := kalloc (kheap s) in
          let s := set_kheap k s in
          if pi =? 0 then pipealloc_bad me 0 (Some f0) (Some f1) s
          else
            let finish data s :=
              let s := set_pipes (<[pi := new_pipe pi data]> (pipes s)) s in
              let s := set_ftable (alter (set_pipe_end 1 0 pi) f0 (ftable s)) s in
              let s := set_ftable (alter (set_pipe_end 0 1 pi) f1 (ftable s)) s in
              Ok (0, Some (f0, f1), s) in
            if 4 <=? V then
              let '(data, k) := kalloc (kheap s) in
              let s := set_kheap k s in
              if data =? 0 then
                s ← kfree_page pi s;
                pipealloc_bad me 0 (Some f0) (Some f1) s
              else finish data s
            else finish 0 s
      end
  end.
End file_ops.
Arguments fst_ I : clear implicits.
