(* ===== verification/FileInv.v ===== *)
(** * Who owns a pipe: reference counts, ends and pages

    The invariant that ties the file table, the live pipes and the page
    allocator together, over every interleaving of [pipealloc], [filealloc],
    [filedup], the two halves of [fileclose], pipe traffic and other users of
    the page allocator.  An open end of a pipe is held by exactly one table
    entry or by one [fileclose] on its way to [pipeclose]. *)
From S2P Require Import Prelude Riscv Bio Log Proc UserMem Pipe PipeProg Mem CString Kalloc File.

(** The end of a pipe a file stands for: the pipe and the writable flag. *)
Definition end_of (f : file) : option (Z * Z) :=
  if decide (f_type f = FD_PIPE) then Some (f_pipe f, f_writable f) else None.

Definition tends (t : list file) : list (Z * Z) := omap end_of t.

Lemma tends_same t i f f' : t !! i = Some f → end_of f' = end_of f → tends (<[i := f']> t) = tends t.
Proof.
  revert i. induction t as [|g t IH]; intros [|i] Hi He; simpl in *; simplify_eq; [by rewrite He|].
  destruct (end_of g); by rewrite IH.
Qed.

Lemma tends_remove t i f f' e : t !! i = Some f → end_of f = Some e → end_of f' = None →
  tends t ≡ₚ e :: tends (<[i := f']> t).
Proof.
  revert i. induction t as [|g t IH]; intros [|i] Hi He Hn; simpl in *; simplify_eq.
  - by rewrite He, Hn.
  - destruct (end_of g) as [e'|]; [|by apply IH]. rewrite (IH i) by done. apply Permutation_swap.
Qed.

Lemma tends_add t i f f' e : t !! i = Some f → end_of f = None → end_of f' = Some e →
  tends (<[i := f']> t) ≡ₚ e :: tends t.
Proof.
  revert i. induction t as [|g t IH]; intros [|i] Hi He Hn; simpl in *; simplify_eq.
  - by rewrite He, Hn.
  - destruct (end_of g) as [e'|]; [|by apply IH]. rewrite (IH i) by done. apply Permutation_swap.
Qed.

Lemma tends_lookup t i f e : t !! i = Some f → end_of f = Some e → e ∈ tends t.
Proof. intros Hi He. apply list_elem_of_omap. exists f. split; [by eapply list_elem_of_lookup_2|done]. Qed.

Lemma free_slot_spec t : ∀ k i, free_slot t k = Some i →
  ∃ j f, i = (k + j)%nat ∧ t !! j = Some f ∧ f_ref f = 0.
Proof.
  induction t as [|f t IH]; intros k i; simpl; [done|].
  destruct (Z.eqb_spec (f_ref f) 0) as [H0|H0].
  - intros [= <-]. exists 0%nat, f. split_and!; [lia|done|done].
  - intros Hi. destruct (IH _ _ Hi) as (j & g & -> & Hj & Hg). exists (S j), g.
    split_and!; [lia|done|done].
Qed.

Lemma free_slot_none t : ∀ k, free_slot t k = None ↔ Forall (λ f, f_ref f ≠ 0) t.
Proof.
  induction t as [|f t IH]; intros k; simpl; [done|]. rewrite Forall_cons.
  destruct (Z.eqb_spec (f_ref f) 0); [naive_solver|]. rewrite IH. naive_solver.
Qed.

Section inv.
Context {I : Type} `{InodeOps I}.
Context (V kend : Z).
Implicit Types s : fst_ I.

(** The pages of a pipe: the structure, and the buffer from version 4 on. *)
Definition pipe_pages (x : Z * pipe) : list Z :=
  x.1 :: (if 4 <=? V then [pdata_page x.2] else []).

Definition ppages (ps : gmap Z pipe) : list Z := map_to_list ps ≫= pipe_pages.

Lemma ppages_insert ps pa pi : ps !! pa = None →
  ppages (<[pa := pi]> ps) ≡ₚ pipe_pages (pa, pi) ++ ppages ps.
Proof. intros Hn. unfold ppages. by rewrite map_to_list_insert. Qed.

Lemma ppages_delete ps pa pi : ps !! pa = Some pi →
  ppages ps ≡ₚ pipe_pages (pa, pi) ++ ppages (delete pa ps).
Proof. intros Hs. unfold ppages. by rewrite <-(map_to_list_delete ps pa pi). Qed.

Lemma ppages_update ps pa pi pi' : ps !! pa = Some pi → pdata_page pi' = pdata_page pi →
  ppages (<[pa := pi']> ps) ≡ₚ ppages ps.
Proof.
  intros Hs Hd. rewrite <-insert_delete_eq, ppages_insert by apply lookup_delete_eq.
  rewrite (ppages_delete ps pa pi) by done. unfold pipe_pages. simpl. by rewrite Hd.
Qed.

Lemma ppages_key ps pa pi : ps !! pa = Some pi → pa ∈ ppages ps.
Proof. intros Hs. rewrite (ppages_delete ps pa pi) by done. set_solver. Qed.

(** The pages the allocator manages are each in exactly one place: the free
    list, a live pipe, or another user ([held]). *)
Definition pages_ok (P : list Z) (s : fst_ I) (held : list Z) : Prop :=
  ∃ l, kinv kend (kheap s) l ∧ l ++ ppages (pipes s) ++ held ≡ₚ P.

Definition slot_ok (f : file) : Prop :=
  0 <= f_ref f ∧ (f_ref f = 0 → f_type f = FD_NONE) ∧
  (f_type f = FD_PIPE → (f_writable f = 0 ∧ f_readable f = 1) ∨ (f_writable f = 1 ∧ f_readable f = 0)).

Definition pending_ok (f : file) : Prop :=
  f_type f = FD_PIPE → f_writable f = 0 ∨ f_writable f = 1.

(** The flags of the live pipes say which ends are held. *)
Definition ends_ok (ps : gmap Z pipe) (ends : list (Z * Z)) : Prop :=
  NoDup ends ∧ (∀ pa w, (pa, w) ∈ ends → is_Some (ps !! pa) ∧ (w = 0 ∨ w = 1)) ∧
  (∀ pa pi, ps !! pa = Some pi → paddr pi = pa ∧
     (readopen pi ≠ 0 ↔ (pa, 0) ∈ ends) ∧ (writeopen pi ≠ 0 ↔ (pa, 1) ∈ ends) ∧
     (readopen pi ≠ 0 ∨ writeopen pi ≠ 0)).

(** A configuration: the state, the closes in progress, pages of other users. *)
Definition fcfg : Type := fst_ I * list file * list Z.

Definition finv (P : list Z) (c : fcfg) : Prop :=
  let '(s, pend, held) := c in
  NoDup P ∧ Forall (valid_page kend) P ∧ pages_ok P s held ∧
  Forall slot_ok (ftable s) ∧ Forall pending_ok pend ∧ ends_ok (pipes s) (tends (ftable s) ++ tends pend).

Lemma ends_ok_perm ps e e' : e ≡ₚ e' → ends_ok ps e → ends_ok ps e'.
Proof.
  intros Hp (Hnd & Hl & Hf). split_and!; [by rewrite <-Hp| |].
  - intros pa w. rewrite <-Hp. apply Hl.
  - intros pa pi. rewrite <-!Hp. apply Hf.
Qed.

(** Pipe traffic leaves the flags alone. *)
Lemma ends_ok_update ps e pa pi pi' : ps !! pa = Some pi → same_hdr pi pi' →
  ends_ok ps e → ends_ok (<[pa := pi']> ps) e.
Proof.
  intros Hs (Ha & Hd & Hr & Hw) (Hnd & Hl & Hf). split_and!; [done| |].
  - intros pa' w Hin. rewrite lookup_insert. case_decide; [|by apply Hl].
    subst. split; [done|]. by apply (Hl pa' w).
  - intros pa' pi0. rewrite lookup_insert. case_decide; [|by apply Hf].
    intros [= <-]. subst. rewrite Ha, Hr, Hw. by apply Hf.
Qed.

(** A new pipe with both ends. *)
Lemma ends_ok_new ps e pa pi : ps !! pa = None → paddr pi = pa → readopen pi = 1 → writeopen pi = 1 →
  ends_ok ps e → ends_ok (<[pa := pi]> ps) ((pa, 0) :: (pa, 1) :: e).
Proof.
  intros Hn Ha Hr Hw (Hnd & Hl & Hf).
  assert (∀ w, (pa, w) ∉ e) as Hni by (intros w Hin; destruct (Hl _ _ Hin) as [[? ?] _]; congruence).
  split_and!.
  - apply NoDup_cons. split; [|apply NoDup_cons; split; [apply Hni|done]].
    rewrite not_elem_of_cons. split; [congruence|apply Hni].
  - intros pa' w. rewrite !elem_of_cons, lookup_insert. intros [[= -> ->]|[[= -> ->]|Hin]].
    + rewrite decide_True by done. eauto.
    + rewrite decide_True by done. eauto.
    + case_decide; [|by apply Hl]. subst. by destruct (Hni w).
  - intros pa' pi'. rewrite lookup_insert. case_decide; subst.
    + intros [= <-]. rewrite Hr, Hw. split_and!; [done| | |by left].
      * split; [intros _; left|done].
      * split; [intros _; right; left|done].
    + intros Hs. destruct (Hf _ _ Hs) as (? & Hr' & Hw' & Ho).
      rewrite !elem_of_cons. split_and!; [done| | |done].
      * rewrite Hr'. naive_solver.
      * rewrite Hw'. naive_solver.
Qed.

(** The flag [pipeclose] clears. *)
Definition close_flag (w : Z) (pi : pipe) : pipe :=
  if negb (w =? 0) then set_writeopen 0 pi else set_readopen 0 pi.

Lemma close_flag_iff ps ends pa w pi : ps !! pa = Some pi → ends_ok ps ((pa, w) :: ends) →
  (readopen (close_flag w pi) ≠ 0 ↔ (pa, 0) ∈ ends) ∧
  (writeopen (close_flag w pi) ≠ 0 ↔ (pa, 1) ∈ ends) ∧ paddr (close_flag w pi) = pa ∧
  pdata_page (close_flag w pi) = pdata_page pi.
Proof.
  intros Hs (Hnd & Hl & Hf). apply NoDup_cons in Hnd as [Hni Hnd].
  destruct (Hf _ _ Hs) as (Ha & Hr & Hw & _). rewrite elem_of_cons in Hr, Hw.
  destruct (Hl pa w) as [_ [-> | ->]]; [left|..]; unfold close_flag; simpl; naive_solver.
Qed.

Lemma ends_ok_close ps ends pa w pi : ps !! pa = Some pi → ends_ok ps ((pa, w) :: ends) →
  if (readopen (close_flag w pi) =? 0) && (writeopen (close_flag w pi) =? 0)
  then ends_ok (delete pa ps) ends else ends_ok (<[pa := close_flag w pi]> ps) ends.
Proof.
  intros Hs He. destruct (close_flag_iff _ _ _ _ _ Hs He) as (Hr & Hw & Ha & _).
  destruct He as (Hnd & Hl & Hf). apply NoDup_cons in Hnd as [Hni Hnd].
  assert (∀ pa' pi', pa' ≠ pa → ps !! pa' = Some pi' → paddr pi' = pa' ∧
     (readopen pi' ≠ 0 ↔ (pa', 0) ∈ ends) ∧ (writeopen pi' ≠ 0 ↔ (pa', 1) ∈ ends) ∧
     (readopen pi' ≠ 0 ∨ writeopen pi' ≠ 0)) as Hoth.
  { intros pa' pi' Hne Hs'. destruct (Hf _ _ Hs') as (H1 & H2 & H3 & H4).
    rewrite elem_of_cons in H2, H3. split_and!; [done|naive_solver|naive_solver|done]. }
  destruct (Z.eqb_spec (readopen (close_flag w pi)) 0) as [Hr0|Hr0];
    destruct (Z.eqb_spec (writeopen (close_flag w pi)) 0) as [Hw0|Hw0]; simpl.
  { split_and!; [done| |].
    - intros pa' w' Hin. destruct (decide (pa' = pa)) as [->|Hne].
      { exfalso. destruct (Hl pa w') as [_ [-> | ->]]; [by right|tauto..]. }
      rewrite lookup_delete_ne by done. apply Hl. by right.
    - intros pa' pi'. rewrite lookup_delete_Some. intros [Hne Hs']. by apply Hoth. }
  all: split_and!; [done| |].
  all: try (intros pa' w' Hin; rewrite lookup_insert; destruct (Hl pa' w') as [? ?]; [by right|];
    case_decide; by eauto).
  all: intros pa' pi'; rewrite lookup_insert; case_decide; subst;
    [intros [= <-]; split_and!; try done; tauto|intros Hs'; by apply Hoth].
Qed.

Lemma kfree_page_spec pa s l :
  kinv kend (kheap s) l → valid_page kend pa → pa ∉ l →
  ∃ k', kfree_page kend pa s = Ok (set_kheap k' s) ∧ kinv kend k' (pa :: l).
Proof.
  intros Hi Hv Hn. destruct (kfree_spec kend pa (kheap s) l Hi Hv Hn) as (k' & Heq & Hi' & _).
  exists k'. unfold kfree_page. by rewrite Heq.
Qed.

(** What [pipeclose] leaves alone. *)
Definition same_rest (s s' : fst_ I) : Prop :=
  ftable s' = ftable s ∧ devsw s' = devsw s ∧ inodes s' = inodes s.

Lemma pipeclose_spec P me pa w s ends held : NoDup P → Forall (valid_page kend) P →
  pages_ok P s held → ends_ok (pipes s) ((pa, w) :: ends) →
  ∃ s', pipeclose V kend me pa w s = Ok s' ∧ pages_ok P s' held ∧ ends_ok (pipes s') ends ∧
    same_rest s s' ∧
    (pipes s' !! pa = None ↔ ((pa, 0) ∉ ends) ∧ ((pa, 1) ∉ ends)).
Proof.
  intros HP Hv (l & Hkinv & Hperm) He.
  assert (is_Some (pipes s !! pa)) as [pi Hpi] by (destruct He as (_ & Hl & _); apply (Hl pa w); by left).
  pose proof (ends_ok_close _ _ _ _ _ Hpi He) as Hend.
  destruct (close_flag_iff _ _ _ _ _ Hpi He) as (Hr & Hw & Ha & Hd).
  unfold pipeclose. rewrite Hpi.
  set (ps' := if negb (w =? 0) then wakeup V me (ChNread pa) (fptab s) else wakeup V me (ChNwrite pa) (fptab s)).
  assert ((if negb (w =? 0) then (set_writeopen 0 pi, wakeup V me (ChNread pa) (fptab s))
    else (set_readopen 0 pi, wakeup V me (ChNwrite pa) (fptab s))) = (close_flag w pi, ps')) as ->.
  { subst ps'. unfold close_flag. by destruct (negb _). }
  set (s1 := set_fptab ps' _).
  destruct ((readopen (close_flag w pi) =? 0) && (writeopen (close_flag w pi) =? 0)) eqn:Hb; last first.
  { exists s1. split_and!; [done| |done|done|].
    - exists l. split; [done|]. simpl. by rewrite (ppages_update _ pa pi).
    - simpl. rewrite lookup_insert_eq. split; [done|]. intros [H0 H1].
      rewrite <-Hr in H0. rewrite <-Hw in H1.
      destruct (Z.eqb_spec (readopen (close_flag w pi)) 0), (Z.eqb_spec (writeopen (close_flag w pi)) 0);
        simpl in Hb; done || tauto. }
  rewrite (ppages_delete _ pa pi Hpi) in Hperm. unfold pipe_pages in Hperm. simpl in Hperm.
  pose proof HP as HP'. pose proof Hv as Hv'. rewrite <-Hperm in HP', Hv'.
  assert (pipes s1 = <[pa := close_flag w pi]> (pipes s)) as Hps1 by done.
  apply andb_true_iff in Hb as [Hb0 Hb1]. apply Z.eqb_eq in Hb0, Hb1.
  assert (((pa, 0) ∉ ends) ∧ ((pa, 1) ∉ ends)) as Hgone.
  { rewrite <-Hr, <-Hw. split; lia. }
  rewrite Hd. destruct (4 <=? V).
  - simpl in Hperm, HP', Hv'.
    assert (valid_page kend (pdata_page pi) ∧ valid_page kend pa) as [Hvd Hvp].
    { rewrite Forall_forall in Hv'. split; apply Hv'; set_solver. }
    assert ((pdata_page pi ∉ l) ∧ (pa ∉ pdata_page pi :: l)) as [Hnd Hnp].
    { apply NoDup_app in HP' as (_ & Hx & [Hy _]%NoDup_cons).
      split; [intros Hin; apply (Hx _ Hin); set_solver|].
      apply not_elem_of_cons. split; [set_solver|]. intros Hin. apply (Hx _ Hin). set_solver. }
    destruct (kfree_page_spec (pdata_page pi) s1 l Hkinv Hvd Hnd) as (k1 & -> & Hk1). cbn [mbind res_bind].
    destruct (kfree_page_spec pa (set_kheap k1 s1) _ Hk1 Hvp Hnp) as (k2 & -> & Hk2). cbn [mbind res_bind].
    eexists. split; [done|]. simpl. rewrite delete_insert_eq, lookup_delete_eq.
    split_and!; [|done|done|done]. eexists. split; [exact Hk2|]. simpl.
    rewrite <-Hperm. simpl. rewrite <-!Permutation_middle. apply Permutation_swap || solve_Permutation.
  - simpl in Hperm, HP', Hv'.
    assert (valid_page kend pa) as Hvp by (rewrite Forall_forall in Hv'; apply Hv'; set_solver).
    assert (pa ∉ l) as Hnp.
    { apply NoDup_app in HP' as (_ & Hx & _). intros Hin. apply (Hx _ Hin). set_solver. }
    cbn [mbind res_bind].
    destruct (kfree_page_spec pa s1 l Hkinv Hvp Hnp) as (k2 & -> & Hk2). cbn [mbind res_bind].
    eexists. split; [done|]. simpl. rewrite delete_insert_eq, lookup_delete_eq.
    split_and!; [|done|done|done]. eexists. split; [exact Hk2|]. simpl.
    rewrite <-Hperm. simpl. by rewrite <-!Permutation_middle.
Qed.

(** ** pipealloc *)
Lemma alter_insert {A} (g : A → A) i (t : list A) f : t !! i = Some f → alter g i t = <[i := g f]> t.
Proof.
  revert i. induction t as [|x t IH]; intros [|i] Hi; simpl in *; simplify_eq; [done|].
  unfold alter in *. simpl. f_equal. by apply IH.
Qed.

Definition free_file (t : list file) (i : nat) (f : file) : Prop :=
  t !! i = Some f ∧ f_ref f = 0 ∧ f_type f = FD_NONE.

Lemma filealloc_some s i s' : Forall slot_ok (ftable s) → filealloc s = (Some i, s') →
  ∃ f, free_file (ftable s) i f ∧ s' = set_ftable (<[i := set_ref 1 f]> (ftable s)) s.
Proof.
  intros Hok. unfold filealloc. destruct (free_slot (ftable s) 0) as [j|] eqn:Hj; [|done].
  intros [= <- <-]. destruct (free_slot_spec _ _ _ Hj) as (k & f & -> & Hf & Hr).
  exists f. rewrite Forall_lookup in Hok. destruct (Hok _ _ Hf) as (_ & Ht & _).
  split; [by split_and!; [|done|auto]|]. simpl. by rewrite (alter_insert _ _ _ f).
Qed.

Lemma filealloc_none s s' : filealloc s = (None, s') →
  s' = s ∧ Forall (λ f, f_ref f ≠ 0) (ftable s).
Proof.
  unfold filealloc. destruct (free_slot (ftable s) 0) as [j|] eqn:Hj; [done|].
  intros [= <-]. split; [done|]. by eapply free_slot_none.
Qed.

(** Closing an entry [filealloc] just handed out puts it back as it was. *)
Lemma fileclose_fresh me s i f : ftable s !! i = Some (set_ref 1 f) → f_ref f = 0 →
  f_type f = FD_NONE → fileclose V kend me i s = Ok (set_ftable (<[i := f]> (ftable s)) s).
Proof.
  intros Hi Hr Ht. unfold fileclose, fileclose_begin, fget. rewrite Hi. simpl. unfold fileclose_end. simpl. rewrite Ht.
  do 3 f_equal. destruct f; simpl in *. by subst.
Qed.

Lemma slot_ok_fresh f : slot_ok (set_ref 1 f) ↔ (f_type f = FD_PIPE →
  (f_writable f = 0 ∧ f_readable f = 1) ∨ (f_writable f = 1 ∧ f_readable f = 0)).
Proof. unfold slot_ok. simpl. split; [tauto|]. intros. split_and!; [lia|done|done]. Qed.

(** The state of [pipealloc] between its two calls of [filealloc] and the
    allocation of pages. *)
Definition two_files (s : fst_ I) (k : kst) (f0 f1 : nat) (g0 g1 : file) : fst_ I :=
  set_kheap k (set_ftable (<[f1 := set_ref 1 g1]> (<[f0 := set_ref 1 g0]> (ftable s))) s).

Lemma bad_two_files me s k f0 f1 g0 g1 : f0 ≠ f1 →
  free_file (ftable s) f0 g0 → free_file (ftable s) f1 g1 →
  pipealloc_bad V kend me 0 (Some f0) (Some f1) (two_files s k f0 f1 g0 g1) =
    Ok (-1, None, set_kheap k s).
Proof.
  intros Hne (Hf0 & Hr0 & Ht0) (Hf1 & Hr1 & Ht1). unfold pipealloc_bad. cbn [negb Z.eqb mbind res_bind].
  assert (f0 < length (ftable s))%nat by by eapply lookup_lt_Some.
  assert (f1 < length (ftable s))%nat by by eapply lookup_lt_Some.
  rewrite (fileclose_fresh me _ f0 g0); [|simpl|done|done]; last first.
  { rewrite list_lookup_insert_ne by done. by apply list_lookup_insert_eq. }
  cbn [mbind res_bind].
  rewrite (fileclose_fresh me _ f1 g1); [|simpl|done|done]; last first.
  { rewrite list_lookup_insert_ne by done. apply list_lookup_insert_eq.
    by rewrite length_insert. }
  cbn [mbind res_bind]. do 2 f_equal. unfold two_files, set_kheap, set_ftable. simpl. f_equal.
  rewrite (list_insert_insert_ne _ f0 f1), !list_insert_insert_eq by done.
  by rewrite (list_insert_id _ f0), list_insert_id.
Qed.

(** The slots and ends of the table with the two ends of a new pipe. *)
Lemma two_ends t f0 f1 g0 g1 pi : f0 ≠ f1 → free_file t f0 g0 → free_file t f1 g1 →
  let t' := alter (set_pipe_end 0 1 pi) f1 (alter (set_pipe_end 1 0 pi) f0
              (<[f1 := set_ref 1 g1]> (<[f0 := set_ref 1 g0]> t))) in
  t' = <[f1 := set_pipe_end 0 1 pi (set_ref 1 g1)]> (<[f0 := set_pipe_end 1 0 pi (set_ref 1 g0)]> t) ∧
  (Forall slot_ok t → Forall slot_ok t') ∧ tends t' ≡ₚ (pi, 0) :: (pi, 1) :: tends t.
Proof.
  intros Hne (Hf0 & Hr0 & Ht0) (Hf1 & Hr1 & Ht1) t'.
  assert (f0 < length t)%nat by by eapply lookup_lt_Some.
  assert (f1 < length t)%nat by by eapply lookup_lt_Some.
  assert (t' = <[f1 := set_pipe_end 0 1 pi (set_ref 1 g1)]>
    (<[f0 := set_pipe_end 1 0 pi (set_ref 1 g0)]> t)) as Ht'.
  { subst t'. rewrite (alter_insert _ f0 _ (set_ref 1 g0)); last first.
    { rewrite list_lookup_insert_ne by done. by apply list_lookup_insert_eq. }
    rewrite (alter_insert _ f1 _ (set_ref 1 g1)); last first.
    { rewrite list_lookup_insert_ne by done. apply list_lookup_insert_eq. by rewrite length_insert. }
    by rewrite (list_insert_insert_ne _ f0 f1), !list_insert_insert_eq by done. }
  rewrite Ht'. split_and!; [done| |].
  - intros Hok. apply Forall_insert; [apply Forall_insert; [done|]|]; split_and!; simpl; auto with lia.
  - rewrite (tends_add _ f1 g1 _ (pi, 1)).
    + rewrite (tends_add _ f0 g0 _ (pi, 0)); [apply Permutation_swap|done| |done].
      unfold end_of. by rewrite Ht0.
    + by rewrite list_lookup_insert_ne.
    + unfold end_of. by rewrite Ht1.
    + done.
Qed.

Definition pages_needed : nat := if 4 <=? V then 2%nat else 1%nat.

(** What a successful [pipealloc] does to the state. *)
Definition piped (s s' : fst_ I) (f0 f1 : nat) (pi data : Z) : Prop :=
  f0 ≠ f1 ∧ (∃ g0 g1, free_file (ftable s) f0 g0 ∧ free_file (ftable s) f1 g1 ∧
    ftable s' = <[f1 := set_pipe_end 0 1 pi (set_ref 1 g1)]>
                  (<[f0 := set_pipe_end 1 0 pi (set_ref 1 g0)]> (ftable s))) ∧
  pipes s !! pi = None ∧ pipes s' = <[pi := new_pipe V pi data]> (pipes s).

(** The last part of [pipealloc], once its pages are there. *)
Lemma finish_spec P s pend held f0 f1 g0 g1 k pi data l :
  finv P (s, pend, held) → f0 ≠ f1 →
  free_file (ftable s) f0 g0 → free_file (ftable s) f1 g1 →
  kinv kend k l → l ++ pipe_pages (pi, new_pipe V pi data) ++ ppages (pipes s) ++ held ≡ₚ P →
  let s' := set_ftable (alter (set_pipe_end 0 1 pi) f1 (alter (set_pipe_end 1 0 pi) f0
              (<[f1 := set_ref 1 g1]> (<[f0 := set_ref 1 g0]> (ftable s)))))
              (set_pipes (<[pi := new_pipe V pi data]> (pipes s)) (set_kheap k s)) in
  piped s s' f0 f1 pi data ∧ finv P (s', pend, held).
Proof.
  intros (HP & Hv & _ & Hok & Hpd & He) Hne Hf0 Hf1 Hk Hperm s'.
  destruct (two_ends (ftable s) f0 f1 g0 g1 pi Hne Hf0 Hf1) as (Ht & Hok' & Hends).
  assert (pipes s !! pi = None) as Hnone.
  { destruct (pipes s !! pi) as [p|] eqn:Hp; [|done]. exfalso.
    pose proof HP as HP'. rewrite <-Hperm in HP'.
    apply NoDup_app in HP' as (_ & _ & HP'). apply NoDup_app in HP' as (_ & HP' & _).
    apply (HP' pi); [left|]. apply elem_of_app. left. by eapply ppages_key. }
  split.
  - split_and!; [done| |done|done]. exists g0, g1. by split_and!.
  - split_and!; [done|done| |by apply Hok'|done|].
    + exists l. split; [done|]. simpl. by rewrite ppages_insert, <-(assoc (++)).
    + simpl. eapply ends_ok_perm; [|by apply ends_ok_new].
      by rewrite Hends.
Qed.

(** A failed [pipealloc] gives everything back, and happens only when slots or
    pages run out. *)
Definition not_piped (s s' : fst_ I) : Prop :=
  ∃ k l, s' = set_kheap k s ∧ kinv kend (kheap s) l ∧ kinv kend k l ∧
    ((length l < pages_needed)%nat ∨
     ¬ ∃ f0 f1 g0 g1, f0 ≠ f1 ∧ free_file (ftable s) f0 g0 ∧ free_file (ftable s) f1 g1).

Lemma is_list_inj m l : ∀ l' h, Forall (valid_page kend) l → Forall (valid_page kend) l' →
  is_list m h l → is_list m h l' → l = l'.
Proof.
  induction l as [|p l IH]; intros [|p' l'] h Hv Hv' Hl Hl'; simpl in *; [done|..].
  - destruct Hl' as [-> _]. apply Forall_cons in Hv' as [(_ & _ & ?) _]. lia.
  - destruct Hl as [-> _]. apply Forall_cons in Hv as [(_ & _ & ?) _]. lia.
  - destruct Hl as [-> Hl], Hl' as [<- Hl']. apply Forall_cons in Hv as [_ Hv], Hv' as [_ Hv'].
    f_equal. by eapply IH.
Qed.

Lemma finv_kheap P s pend held k l : kinv kend (kheap s) l → kinv kend k l →
  finv P (s, pend, held) → finv P (set_kheap k s, pend, held).
Proof.
  intros (_ & Hl & _ & Hvl) Hk (HP & Hv & (l' & (_ & Hl' & _ & Hvl') & Hperm) & Hok & Hpd & He).
  split_and!; try done. exists l. split; [done|].
  by rewrite (is_list_inj (km (kheap s)) l l' (freelist (kheap s))).
Qed.

Lemma no_two_free t i f : Forall (λ g, f_ref g ≠ 0) (<[i := set_ref 1 f]> t) →
  ¬ ∃ f0 f1 g0 g1, f0 ≠ f1 ∧ free_file t f0 g0 ∧ free_file t f1 g1.
Proof.
  rewrite Forall_lookup. intros Hall (f0 & f1 & g0 & g1 & Hne & (H0 & R0 & _) & (H1 & R1 & _)).
  destruct (decide (i = f0)) as [->|Hi].
  - apply (Hall f1 g1); [by rewrite list_lookup_insert_ne|done].
  - apply (Hall f0 g0); [by rewrite list_lookup_insert_ne|done].
Qed.

Lemma pipealloc_spec P me s pend held : finv P (s, pend, held) →
  ∃ r o s', pipealloc V kend me s = Ok (r, o, s') ∧ finv P (s', pend, held) ∧
    ((r = 0 ∧ ∃ f0 f1 pi data, o = Some (f0, f1) ∧ piped s s' f0 f1 pi data) ∨
     (r = -1 ∧ o = None ∧ not_piped s s')).
Proof.
  intros Hinv. pose proof Hinv as (HP & Hv & (l & Hk & Hperm) & Hok & Hpd & He).
  unfold pipealloc. destruct (filealloc s) as [[f0|] s1] eqn:Ha0; last first.
  { apply filealloc_none in Ha0 as [-> Hall]. exists (-1), None, s. split_and!; [done|done|].
    right. split_and!; [done|done|]. exists (kheap s), l. split_and!; [by destruct s|done|done|].
    right. intros (f0 & f1 & g0 & g1 & _ & (H0 & R0 & _) & _).
    rewrite Forall_lookup in Hall. by apply (Hall f0 g0). }
  destruct (filealloc_some _ _ _ Hok Ha0) as (g0 & Hf0 & ->).
  assert (Forall slot_ok (<[f0 := set_ref 1 g0]> (ftable s))) as Hok1.
  { apply Forall_insert; [done|]. apply slot_ok_fresh. intros Hp. destruct Hf0 as (_ & _ & Hn). congruence. }
  destruct (filealloc (set_ftable _ s)) as [[f1|] s2] eqn:Ha1; last first.
  { apply filealloc_none in Ha1 as [-> Hall]. exists (-1), None, s. split_and!; [|done|].
    - unfold pipealloc_bad. cbn [negb Z.eqb mbind res_bind]. destruct Hf0 as (Hf0 & Hr0 & Ht0).
      rewrite (fileclose_fresh me _ f0 g0); [|simpl|done|done].
      + cbn [mbind res_bind]. do 2 f_equal. simpl. rewrite list_insert_insert_eq, list_insert_id by done.
        by destruct s.
      + apply list_lookup_insert_eq. by eapply lookup_lt_Some.
    - right. split_and!; [done|done|]. exists (kheap s), l. split_and!; [by destruct s|done|done|].
      right. exact (no_two_free _ _ _ Hall). }
  destruct (filealloc_some (set_ftable _ s) _ _ Hok1 Ha1) as (g1 & (Hf1 & Hr1 & Ht1) & ->). simpl in Hf1.
  assert (f0 < length (ftable s))%nat by (destruct Hf0 as (Hf0 & _); by eapply lookup_lt_Some).
  assert (f0 ≠ f1) as Hne.
  { intros <-. rewrite list_lookup_insert_eq in Hf1 by done. by simplify_eq. }
  rewrite list_lookup_insert_ne in Hf1 by done.
  assert (free_file (ftable s) f1 g1) as Hff1 by done. cbn [kheap set_ftable set_kheap].
  assert (∀ k, kinv kend k l → (length l < pages_needed)%nat →
    ∃ r o s', Ok (-1, None, set_kheap k s) = Ok (r, o, s') ∧ finv P (s', pend, held) ∧
    ((r = 0 ∧ ∃ f0 f1 pi data, o = Some (f0, f1) ∧ piped s s' f0 f1 pi data) ∨
     (r = -1 ∧ o = None ∧ not_piped s s'))) as Hfail.
  { intros k Hk' Hlen. eexists _, _, _. split; [done|]. split; [by eapply finv_kheap|].
    right. split_and!; [done|done|]. exists k, l. by auto. }
  destruct l as [|pi l].
  { rewrite (kalloc_empty kend) by done. change (0 =? 0) with true. cbv iota.
    change (set_kheap _ _) with (two_files s (kheap s) f0 f1 g0 g1).
    rewrite bad_two_files by done. apply Hfail; [done|]. unfold pages_needed. destruct (4 <=? V); cbn; lia. }
  destruct (kalloc_cons kend (kheap s) pi l Hk) as (k1 & -> & Hk1 & _).
  pose proof Hk as (_ & _ & Hnd & Hvl). apply Forall_cons in Hvl as [Hvpi Hvl].
  apply NoDup_cons in Hnd as [Hnpi Hnd].
  destruct (Z.eqb_spec pi 0) as [->|Hpi0]; [by destruct Hvpi as (_ & _ & ?)|].
  cbn [kheap set_ftable set_kheap ftable pipes set_pipes].
  destruct (4 <=? V) eqn:HV; last first.
  { destruct (finish_spec P s pend held f0 f1 g0 g1 k1 pi 0 l) as [Hpd' Hinv']; try done.
    { rewrite <-Hperm. unfold pipe_pages. rewrite HV. simpl. by rewrite <-Permutation_middle. }
    eexists _, _, _. split; [done|]. split; [exact Hinv'|]. left. split; [done|].
    by exists f0, f1, pi, 0. }
  destruct l as [|data l].
  { rewrite (kalloc_empty kend) by done. change (0 =? 0) with true. cbv iota.
    destruct (kfree_page_spec pi (two_files s k1 f0 f1 g0 g1) [] Hk1 Hvpi) as (k2 & Hfree & Hk2).
    { apply not_elem_of_nil. }
    change (set_kheap _ _) with (two_files s k1 f0 f1 g0 g1). rewrite Hfree. cbn [mbind res_bind].
    change (set_kheap k2 _) with (two_files s k2 f0 f1 g0 g1).
    rewrite bad_two_files by done. apply Hfail; [done|]. unfold pages_needed. rewrite HV. simpl. lia. }
  destruct (kalloc_cons kend k1 data l Hk1) as (k2 & -> & Hk2 & _).
  apply Forall_cons in Hvl as [Hvd Hvl].
  destruct (Z.eqb_spec data 0) as [->|Hd0]; [by destruct Hvd as (_ & _ & ?)|].
  destruct (finish_spec P s pend held f0 f1 g0 g1 k2 pi data l) as [Hpd' Hinv']; try done.
  { rewrite <-Hperm. unfold pipe_pages. rewrite HV. simpl. by rewrite <-!Permutation_middle. }
  eexists _, _, _. split; [done|]. split; [exact Hinv'|]. left. split; [done|].
  by exists f0, f1, pi, data.
Qed.

(** ** All interleavings *)
Inductive fstep : fcfg → fcfg → Prop :=
| st_pipealloc me s pend held r o s' :
    pipealloc V kend me s = Ok (r, o, s') → fstep (s, pend, held) (s', pend, held)
| st_filealloc s pend held i s' :          (* sys_open takes an entry ... *)
    filealloc s = (Some i, s') → fstep (s, pend, held) (s', pend, held)
| st_open s pend held i f f' :             (* ... and makes it an inode or a device *)
    ftable s !! i = Some f → 0 < f_ref f → f_type f = FD_NONE → f_ref f' = f_ref f →
    f_type f' = FD_INODE ∨ f_type f' = FD_DEVICE →
    fstep (s, pend, held) (set_ftable (<[i := f']> (ftable s)) s, pend, held)
| st_dup s pend held i f r s' :            (* as many descriptors as int can count *)
    ftable s !! i = Some f → f_ref f < 2147483647 →
    filedup i s = Ok (r, s') → fstep (s, pend, held) (s', pend, held)
| st_close_begin s pend held i o s' :
    fileclose_begin i s = Ok (o, s') → fstep (s, pend, held) (s', option_list o ++ pend, held)
| st_close_end me s pend pend' held ff s' :
    pend ≡ₚ ff :: pend' → fileclose_end V kend me ff s = Ok s' →
    fstep (s, pend, held) (s', pend', held)
| st_traffic s pend held pa pi pi' :       (* pipewrite and piperead *)
    pipes s !! pa = Some pi → same_hdr pi pi' →
    fstep (s, pend, held) (set_pipes (<[pa := pi']> (pipes s)) s, pend, held)
| st_kalloc s pend held pa k :             (* another user of the page allocator *)
    kalloc (kheap s) = (pa, k) → pa ≠ 0 → fstep (s, pend, held) (set_kheap k s, pend, pa :: held)
| st_kfree s pend held held' pa k :
    held ≡ₚ pa :: held' → kfree kend pa (kheap s) = Ok k →
    fstep (s, pend, held) (set_kheap k s, pend, held').

Lemma finv_same_ends P s pend held i f f' : finv P (s, pend, held) →
  ftable s !! i = Some f → end_of f' = end_of f → slot_ok f' →
  finv P (set_ftable (<[i := f']> (ftable s)) s, pend, held).
Proof.
  intros (HP & Hv & Hpg & Hok & Hpd & He) Hi Hend Hs. split_and!; try done.
  - by apply Forall_insert.
  - simpl. by rewrite (tends_same _ i f f').
Qed.

Lemma finv_close_begin P s pend held i o s' : finv P (s, pend, held) →
  fileclose_begin i s = Ok (o, s') → finv P (s', option_list o ++ pend, held).
Proof.
  intros Hinv. pose proof Hinv as (HP & Hv & Hpg & Hok & Hpd & He).
  unfold fileclose_begin, fget. destruct (ftable s !! i) as [f|] eqn:Hi; [|done]. simpl.
  rewrite Forall_lookup in Hok. destruct (Hok _ _ Hi) as (Hr & Hn & Hp).
  destruct (Z.ltb_spec (f_ref f) 1); [done|]. destruct (Z.ltb_spec 0 (f_ref f - 1)); intros [= <- <-].
  { apply (finv_same_ends P s pend held i f); try done. split_and!; simpl; try done; lia. }
  split_and!; [done|done|done| | |]; simpl.
  - apply Forall_insert; [by apply Forall_lookup|]. by split_and!.
  - apply Forall_cons. split; [|done]. intros Ht. simpl in *. specialize (Hp Ht). tauto.
  - eapply ends_ok_perm; [|exact He].
    destruct (end_of f) as [e|] eqn:Hend.
    + assert (end_of (set_ref (f_ref f - 1) f) = Some e) as -> by done.
      rewrite (tends_remove (ftable s) i f (set_ftype FD_NONE (set_ref 0 (set_ref (f_ref f - 1) f))) e)
        by done. simpl. by rewrite Permutation_middle.
    + assert (end_of (set_ref (f_ref f - 1) f) = None) as -> by done.
      by rewrite (tends_same _ i f).
Qed.

Lemma finv_close_end P me s pend pend' held ff : finv P (s, pend, held) → pend ≡ₚ ff :: pend' →
  f_type ff = FD_PIPE → ∃ s', fileclose_end V kend me ff s = Ok s' ∧ finv P (s', pend', held) ∧
    same_rest s s' ∧
    let ends := tends (ftable s) ++ tends pend' in
    (pipes s' !! f_pipe ff = None ↔ ((f_pipe ff, 0) ∉ ends) ∧ ((f_pipe ff, 1) ∉ ends)).
Proof.
  intros (HP & Hv & Hpg & Hok & Hpd & He) Hperm Ht.
  assert (ends_ok (pipes s) ((f_pipe ff, f_writable ff) :: tends (ftable s) ++ tends pend')) as He'.
  { eapply ends_ok_perm; [|exact He]. unfold tends at 2 4. rewrite Hperm. simpl.
    assert (end_of ff = Some (f_pipe ff, f_writable ff)) as -> by (unfold end_of; by rewrite decide_True).
    by rewrite <-Permutation_middle. }
  destruct (pipeclose_spec P me _ _ s _ held HP Hv Hpg He') as (s' & Heq & Hpg' & Hends & Hrest & Hgone).
  pose proof Hrest as (Hft & _). rewrite Hperm in Hpd. apply Forall_cons in Hpd as [_ Hpd].
  exists s'. unfold fileclose_end. rewrite Ht. split; [done|]. split; [|done].
  unfold finv. rewrite Hft. by split_and!.
Qed.

Lemma finv_step P c c' : finv P c → fstep c c' → finv P c'.
Proof.
  intros Hinv Hst. destruct Hst as
    [me s pend held r o s' Hst | s pend held i s' Hst | s pend held i f f' Hi Hr0 Ht0 Hrf Htf
    | s pend held i f r s' Hi Hlt Hst | s pend held i o s' Hst
    | me s pend pend' held ff s' Hpe Hst | s pend held pa pi pi' Hpi Hh
    | s pend held pa k Hst Hne | s pend held held' pa k Hpe Hst].
  - destruct (pipealloc_spec P me s pend held Hinv) as (r' & o' & s1 & Heq & Hinv' & _). congruence.
  - pose proof Hinv as (_ & _ & _ & Hok & _).
    destruct (filealloc_some _ _ _ Hok Hst) as (f & (Hf & Hr & Ht) & ->).
    apply (finv_same_ends P s pend held i f); try done. apply slot_ok_fresh. congruence.
  - apply (finv_same_ends P s pend held i f); try done.
    + unfold end_of. rewrite !decide_False; [done|congruence|destruct Htf; congruence].
    + split_and!; [lia|lia|destruct Htf; congruence].
  - pose proof Hinv as (_ & _ & _ & Hok & _). rewrite Forall_lookup in Hok.
    destruct (Hok _ _ Hi) as (Hr & Hn & Hp).
    unfold filedup, fget in Hst. rewrite Hi in Hst. simpl in Hst.
    destruct (Z.ltb_spec (f_ref f) 1); simplify_eq.
    apply (finv_same_ends P s pend held r f); try done.
    rewrite i32_small by lia. split_and!; simpl; [lia|lia|done].
  - by eapply finv_close_begin.
  - destruct (decide (f_type ff = FD_PIPE)) as [Ht|Ht].
    + destruct (finv_close_end P me s pend pend' held ff Hinv Hpe Ht) as (s1 & Heq & Hinv' & _). congruence.
    + destruct Hinv as (HP & Hv & Hpg & Hok & Hpd & He).
      assert (∃ n, s' = set_inodes n s) as [n ->].
      { unfold fileclose_end in Hst. destruct (f_type ff); try done; res_inv; eauto.
        exists (inodes s'). by destruct s'. }
      rewrite Hpe in Hpd. apply Forall_cons in Hpd as [_ Hpd]. split_and!; try done.
      simpl. eapply ends_ok_perm; [|exact He]. unfold tends at 2 4. rewrite Hpe. simpl.
      assert (end_of ff = None) as -> by (unfold end_of; by rewrite decide_False). done.
  - destruct Hinv as (HP & Hv & (l & Hk & Hperm) & Hok & Hpd & He). split_and!; try done.
    + exists l. split; [done|]. simpl. rewrite (ppages_update _ pa pi); [done|done|apply Hh].
    + by eapply ends_ok_update.
  - destruct Hinv as (HP & Hv & (l & Hk & Hperm) & Hok & Hpd & He). split_and!; try done.
    destruct l as [|p l]; [by rewrite (kalloc_empty kend) in Hst; simplify_eq|].
    destruct (kalloc_cons kend _ p l Hk) as (k1 & Heq & Hk1 & _). rewrite Heq in Hst. simplify_eq.
    exists l. split; [done|]. simpl. rewrite <-Hperm. simpl. by rewrite <-!Permutation_middle.
  - destruct Hinv as (HP & Hv & (l & Hk & Hperm) & Hok & Hpd & He). split_and!; try done.
    rewrite Hpe in Hperm. pose proof HP as HP'. pose proof Hv as Hv'.
    rewrite <-Hperm in HP', Hv'. rewrite <-!Permutation_middle in HP', Hv', Hperm.
    apply NoDup_cons in HP' as [Hn _]. apply Forall_cons in Hv' as [Hvp _].
    destruct (kfree_spec kend pa (kheap s) l Hk Hvp) as (k1 & Heq & Hk1 & _); [set_solver|].
    rewrite Heq in Hst. simplify_eq. by exists (pa :: l).
Qed.
End inv.
