(* ===== verification/FileSpec.v ===== *)
(** * Properties of the file table and of the life of a pipe *)
From S2P Require Import Prelude Riscv Bio Log Proc UserMem Pipe PipeProg Mem CString Kalloc File FileInv.

Lemma tends_inj t : NoDup (tends t) → ∀ i j f g e, t !! i = Some f → t !! j = Some g →
  end_of f = Some e → end_of g = Some e → i = j.
Proof.
  induction t as [|h t IH]; intros Hnd [|i] [|j] f g e Hi Hj Hf Hg; simpl in *; simplify_eq; try done.
  - rewrite Hf in Hnd. apply NoDup_cons in Hnd as [Hn _]. by destruct Hn; eapply tends_lookup.
  - rewrite Hg in Hnd. apply NoDup_cons in Hnd as [Hn _]. by destruct Hn; eapply tends_lookup.
  - f_equal. eapply IH; try done. destruct (end_of h); [|done]. by apply NoDup_cons in Hnd as [_ ?].
Qed.

Section props.
Context {I : Type} `{InodeOps I}.

(** An open pipe file: it points to a live pipe whose flag for this end is set. *)
Definition connected (s : fst_ I) (f : file) : Prop :=
  ∃ pi, pipes s !! f_pipe f = Some pi ∧ (f_writable f = 1 → writeopen pi ≠ 0) ∧
    (f_writable f = 0 → readopen pi ≠ 0).

Lemma finv_connected V kend P s pend held i f : finv V kend P (s, pend, held) →
  ftable s !! i = Some f → f_type f = FD_PIPE → connected s f.
Proof.
  intros (_ & _ & _ & _ & _ & He) Hi Ht.
  assert ((f_pipe f, f_writable f) ∈ tends (ftable s) ++ tends pend) as Hin.
  { apply elem_of_app. left. eapply tends_lookup; [done|]. unfold end_of. by rewrite decide_True. }
  destruct He as (_ & Hl & Hf). destruct (Hl _ _ Hin) as [[pi Hpi] _]. exists pi.
  destruct (Hf _ _ Hpi) as (_ & Hr & Hw & _). split_and!; [done| |].
  - intros Hw1. apply Hw. by rewrite <-Hw1.
  - intros Hw0. apply Hr. by rewrite <-Hw0.
Qed.

(** C5: Over every interleaving of [pipealloc], [filealloc], [filedup], the
    two halves of [fileclose], pipe traffic and other users of memory, no pipe
    file dangles (its pipe is live and its end open), each end belongs to one
    file, and every page is in exactly one of: the free list, a live pipe,
    another user. *)
Theorem pipe_lifetime (V kend : Z) (P : list Z) (c0 : fcfg) (s : fst_ I) (pend : list file)
    (held : list Z) :
  finv V kend P c0 → rtc (fstep V kend) c0 (s, pend, held) →
  (∀ i f, ftable s !! i = Some f → f_type f = FD_PIPE → connected s f) ∧
  (∀ i j f g, ftable s !! i = Some f → ftable s !! j = Some g →
     f_type f = FD_PIPE → f_type g = FD_PIPE → f_pipe f = f_pipe g → f_writable f = f_writable g →
     i = j) ∧
  (∃ l, kinv kend (kheap s) l ∧ l ++ ppages V (pipes s) ++ held ≡ₚ P ∧ NoDup P).
Proof.
  intros H0 Hst. assert (finv V kend P (s, pend, held)) as Hinv.
  { eapply rtc_invariant; [|exact Hst|exact H0]. intros. by eapply finv_step. }
  pose proof Hinv as (HP & _ & (l & Hk & Hperm) & _ & _ & (Hnd & _)).
  split_and!.
  - intros i f Hi Ht. by eapply finv_connected.
  - intros i j f g Hi Hj Hf Hg Hp Hw. apply NoDup_app in Hnd as (Hnd & _).
    eapply (tends_inj _ Hnd i j f g (f_pipe f, f_writable f)); try done;
      unfold end_of; rewrite decide_True by done; congruence.
  - by exists l.
Qed.

(** [pipealloc] either returns 0 with two different free entries turned
    into the read end and the write end of a new, empty, open pipe on fresh
    pages, or returns -1 having given back every entry and page, and the latter
    only when there are no two free entries or too few free pages. *)
Theorem pipealloc_correct (V kend : Z) (P : list Z) (me : option nat) (s : fst_ I)
    (pend : list file) (held : list Z) :
  finv V kend P (s, pend, held) →
  ∃ r o s', pipealloc V kend me s = Ok (r, o, s') ∧ finv V kend P (s', pend, held) ∧
    ((r = 0 ∧ ∃ f0 f1 pi data, o = Some (f0, f1) ∧ piped V s s' f0 f1 pi data ∧
        (∃ a b, ftable s' !! f0 = Some a ∧ ftable s' !! f1 = Some b ∧
           connected s' a ∧ connected s' b)) ∨
     (r = -1 ∧ o = None ∧ not_piped V kend s s')).
Proof.
  intros Hinv. destruct (pipealloc_spec V kend P me s pend held Hinv)
    as (r & o & s' & Heq & Hinv' & Hr). exists r, o, s'. split_and!; [done|done|].
  destruct Hr as [(-> & f0 & f1 & pi & data & -> & Hp)|]; [left|by right].
  split; [done|]. exists f0, f1, pi, data. split_and!; [done|done|].
  pose proof Hp as (Hne & (g0 & g1 & (Hf0 & _) & (Hf1 & _) & Ht) & _).
  assert (f0 < length (ftable s))%nat by by eapply lookup_lt_Some.
  assert (f1 < length (ftable s))%nat by by eapply lookup_lt_Some.
  assert (ftable s' !! f0 = Some (set_pipe_end 1 0 pi (set_ref 1 g0))) as Ha.
  { rewrite Ht, list_lookup_insert_ne by done. by apply list_lookup_insert_eq. }
  assert (ftable s' !! f1 = Some (set_pipe_end 0 1 pi (set_ref 1 g1))) as Hb.
  { rewrite Ht. apply list_lookup_insert_eq. by rewrite length_insert. }
  eexists _, _. split_and!; [done|done|by eapply finv_connected|by eapply finv_connected].
Qed.

(** [fileclose] of the last reference to a pipe end never panics, frees
    the table entry, and frees the pipe exactly when no file and no close in
    progress holds the other end; nothing else in the table changes. *)
Theorem fileclose_pipe_end (V kend : Z) (P : list Z) (me : option nat) (s : fst_ I)
    (pend : list file) (held : list Z) (i : nat) (f : file) :
  finv V kend P (s, pend, held) → ftable s !! i = Some f → f_type f = FD_PIPE → f_ref f = 1 →
  ∃ s', fileclose V kend me i s = Ok s' ∧ finv V kend P (s', pend, held) ∧
    ftable s' = <[i := set_ftype FD_NONE (set_ref 0 f)]> (ftable s) ∧
    let ends := tends (ftable s') ++ tends pend in
    (pipes s' !! f_pipe f = None ↔ ((f_pipe f, 0) ∉ ends) ∧ ((f_pipe f, 1) ∉ ends)).
Proof.
  intros Hinv Hi Ht Hr. set (ff := set_ref 0 f).
  set (s1 := set_ftable (<[i := set_ftype FD_NONE (set_ref 0 ff)]> (ftable s)) s).
  assert (fileclose_begin i s = Ok (Some ff, s1)) as Hb.
  { unfold fileclose_begin, fget. rewrite Hi. simpl. by rewrite Hr. }
  pose proof (finv_close_begin V kend P s pend held i _ _ Hinv Hb) as Hinv1. simpl in Hinv1.
  destruct (finv_close_end V kend P me s1 (ff :: pend) pend held ff Hinv1) as
    (s' & Heq & Hinv' & (Hft & _) & Hgone); [done|done|].
  exists s'. unfold fileclose. rewrite Hb. cbn [mbind res_bind].
  split; [exact Heq|]. split; [exact Hinv'|]. rewrite Hft. split; [done|exact Hgone].
Qed.
End props.

(** *** Witnesses: a system without inodes *)
Module NoInodes.

#[export] Instance no_inodes : InodeOps unit := {
  op_begin x := Ok x; op_end x := Ok x; iput _ x := Ok x; idup _ x := Ok x; namei _ x := Ok (None, x);
  ilock _ x := Ok x; iunlock _ x := Ok x;
  readi _ _ _ _ x := Ok (-1, x); writei _ _ _ _ x := Ok (-1, x)
}.

Definition empty_file : file := mkFile FD_NONE 0 0 0 0 0 0 0.
Definition fs0 : fst_ unit := mkF (replicate NFILE empty_file) ∅ one_page [] [] tt.

Lemma fs0_inv : finv 1 (PHYSTOP - 4096) [PHYSTOP - 4096] (fs0, [], []).
Proof.
  destruct one_page_inv as (l & Hk & _). split_and!.
  - apply NoDup_singleton.
  - apply Forall_singleton. by vm_compute.
  - exists [PHYSTOP - 4096]. split; [|done]. destruct Hk as (Hm & _).
    split; [exact Hm|]. split; [|split].
    + split; [done|]. simpl. by rewrite ld64_st64.
    + apply NoDup_singleton.
    + apply Forall_singleton. by vm_compute.
  - apply (Forall_replicate _ NFILE empty_file). by split_and!.
  - done.
  - assert (tends (ftable fs0) = []) as -> by by vm_compute.
    split_and!; [apply NoDup_nil_2|by intros ?? ?%not_elem_of_nil|done].
Qed.

(** The pipe made in [fs0], before any close. *)
Definition fs1 : fst_ unit :=
  match pipealloc 1 (PHYSTOP - 4096) None fs0 with Ok (_, _, s) => s | _ => fs0 end.

Lemma pipealloc_correct_witness :
  ∃ r o s', pipealloc 1 (PHYSTOP - 4096) None fs0 = Ok (r, o, s') ∧
    finv 1 (PHYSTOP - 4096) [PHYSTOP - 4096] (s', [], []).
Proof.
  destruct (pipealloc_correct 1 (PHYSTOP - 4096) [PHYSTOP - 4096] None fs0 [] [] fs0_inv)
    as (r & o & s' & Heq & Hinv & _). exists r, o, s'. split; [exact Heq|exact Hinv].
Defined.

Lemma fs1_inv : finv 1 (PHYSTOP - 4096) [PHYSTOP - 4096] (fs1, [], []).
Proof.
  destruct (pipealloc_spec 1 (PHYSTOP - 4096) [PHYSTOP - 4096] None fs0 [] [] fs0_inv)
    as (r & o & s' & Heq & Hinv & _). unfold fs1. by rewrite Heq.
Qed.

Lemma fs1_table : ftable fs1 !! 0%nat = Some (mkFile FD_PIPE 1 1 0 (PHYSTOP - 4096) 0 0 0).
Proof. reflexivity. Qed.

Lemma pipe_lifetime_witness : connected fs1 (mkFile FD_PIPE 1 1 0 (PHYSTOP - 4096) 0 0 0).
Proof.
  destruct (pipe_lifetime 1 (PHYSTOP - 4096) [PHYSTOP - 4096] (fs1, [], []) fs1 [] [])
    as (Hc & _); [exact fs1_inv|apply rtc_refl|].
  apply (Hc 0%nat); [exact fs1_table|reflexivity].
Defined.

Lemma fileclose_pipe_end_witness :
  ∃ s', fileclose 1 (PHYSTOP - 4096) None 0 fs1 = Ok s' ∧
    finv 1 (PHYSTOP - 4096) [PHYSTOP - 4096] (s', [], []).
Proof.
  destruct (fileclose_pipe_end 1 (PHYSTOP - 4096) [PHYSTOP - 4096] None fs1 [] [] 0 _ fs1_inv fs1_table)
    as (s' & Heq & Hinv & _); [reflexivity|reflexivity|].
  exists s'. split; [exact Heq|exact Hinv].
Defined.
End NoInodes.
