(* ===== verification/FsCrash.v ===== *)
(** * File writes that survive a crash

    The file system of [Fs] on the log and the cache of [LogDisk]: a write of a
    chunk, the way [filewrite] issues it between [begin_op] and [end_op], is one
    transaction that fits the log and the cache.

    [fits k e c m]: if the log has room for [k] more blocks and the cache for
    those and [e] more buffers, then [m] panics neither with "too big a
    transaction" nor with "bget: no buffers", logs at most [k] blocks, and
    leaves at most [c] more buffers in use that are not logged.  [bmap],
    [iupdate] and a chunk of [writei] fit. *)
From S2P Require Import Prelude File Riscv Bio Log LogSpec LogCrash Buf LogDisk Proc UserMem Mem Uart Printf Console Fs FsLaws LogTx FsAlloc Dinode Itable Content ContentSpec.

(** ** Uses of buffers *)

(** The sum of the reference counts. *)
Definition refsum (x : bst) : Z := foldr (λ b a, refcnt b + a) 0 (bufs x).

Record tidy (x : bst) : Prop := {
  td_len : length (bufs x) = NBUF;
  td_lru i : i ∈ lru x ↔ is_Some (bufs x !! i);
  td_ref i b : bufs x !! i = Some b → 0 <= refcnt b ∧ (bowner b ≠ None → 1 <= refcnt b)
}.

Lemma refsum_alter (f : buf → buf) (l : list buf) : ∀ (i : nat) b, l !! i = Some b →
  foldr (λ b a, refcnt b + a) 0 (alter f i l) =
    foldr (λ b a, refcnt b + a) 0 l - refcnt b + refcnt (f b).
Proof.
  induction l as [|b0 l IH]; intros [|i] b Hb; simplify_eq/=; [lia|].
  specialize (IH _ _ Hb). change (list_alter f i l) with (alter f i l). lia.
Qed.

Lemma refsum_upd f x i b : bufs x !! i = Some b → refsum (upd_buf i f x) = refsum x - refcnt b + refcnt (f b).
Proof. apply refsum_alter. Qed.

Lemma upd_none f x i : bufs x !! i = None → upd_buf i f x = x.
Proof. intros Hi. unfold upd_buf, set_bufs. destruct x as [bs l d w]. simpl in *. f_equal.
  apply list_eq. intros j. rewrite list_lookup_alter. case_decide; [|done]. subst. by rewrite Hi. Qed.

Lemma tidy_upd f x i b : tidy x → bufs x !! i = Some b →
  0 <= refcnt (f b) → (bowner (f b) ≠ None → 1 <= refcnt (f b)) → tidy (upd_buf i f x).
Proof.
  intros [HL HI HR] Hb H0 H1. split; simpl.
  - by rewrite length_alter.
  - intros j. rewrite HI, list_lookup_alter. case_decide; [by subst; rewrite fmap_is_Some|done].
  - intros j c Hc. rewrite list_lookup_alter in Hc. case_decide as Hij; [|by apply HR in Hc].
    subst j. rewrite Hb in Hc. by injection Hc as <-.
Qed.

Lemma foldr_nonneg (l : list buf) : Forall (λ b, 0 <= refcnt b) l → 0 <= foldr (λ b a, refcnt b + a) 0 l.
Proof. induction 1; simpl; lia. Qed.

Lemma ref_le_sum x i b : tidy x → bufs x !! i = Some b → refcnt b <= refsum x.
Proof.
  intros Ht Hb. unfold refsum. assert (Forall (λ b, 0 <= refcnt b) (bufs x)) as Hf.
  { apply Forall_lookup. intros j c Hj. by apply (td_ref _ Ht) in Hj as [? _]. }
  clear Ht. revert i Hb. induction Hf as [|c l Hc Hl IH]; intros [|i] Hi; simplify_eq/=.
  - pose proof (foldr_nonneg _ Hl). lia.
  - specialize (IH _ Hi). lia.
Qed.

(** With fewer uses than buffers one buffer is unused. *)
Lemma unused_exists x : tidy x → refsum x < 30 → scan is_unused x (reverse (lru x)) ≠ None.
Proof.
  intros Ht Hs Hno. pose proof (scan_None _ _ _ Hno) as Hn.
  assert (Forall (λ b, 1 <= refcnt b) (bufs x)) as Hf.
  { apply Forall_lookup. intros i b Hb. destruct (td_ref _ Ht _ _ Hb) as [H0 _].
    specialize (Hn i). rewrite (getb_Some _ _ _ Hb) in Hn. unfold is_unused in Hn.
    assert (i ∈ reverse (lru x)) as Hi by (apply elem_of_reverse, (td_lru _ Ht); eauto). specialize (Hn Hi). lia. }
  pose proof (td_len _ Ht) as Hl. unfold refsum in Hs.
  assert (Z.of_nat (length (bufs x)) <= foldr (λ b a, refcnt b + a) 0 (bufs x)); [|unfold NBUF in Hl; lia].
  clear -Hf. induction Hf as [|b l Hb _ IH]; simpl; lia.
Qed.

Lemma acquire_tidy me i x y : Bio.acquiresleep me i x = Ok y →
  tidy x → (∀ b, bufs x !! i = Some b → 1 <= refcnt b) → tidy y ∧ refsum y = refsum x.
Proof.
  intros Ha Ht H1. unfold Bio.acquiresleep in Ha. destruct (bowner _); [done|]. injection Ha as <-.
  destruct (bufs x !! i) as [b|] eqn:Hb; [|by rewrite upd_none].
  split; [apply (tidy_upd _ _ _ b); simpl; auto; by apply (td_ref _ Ht) in Hb as [? _]|].
  rewrite (refsum_upd _ _ _ b) by done. simpl. lia.
Qed.

Lemma set_data_tidy (f : buf → buf) i x : (∀ b, refcnt (f b) = refcnt b ∧ bowner (f b) = bowner b) →
  tidy x → tidy (upd_buf i f x) ∧ refsum (upd_buf i f x) = refsum x.
Proof.
  intros Hf Ht. destruct (bufs x !! i) as [b|] eqn:Hb; [|by rewrite upd_none].
  destruct (Hf b) as [E1 E2], (td_ref _ Ht _ _ Hb). split.
  - apply (tidy_upd _ _ _ b); [done|done|by rewrite E1|by rewrite E1, E2].
  - rewrite (refsum_upd _ _ _ b), E1 by done. lia.
Qed.

Lemma bread_tidy me dev b x : tidy x → refsum x < 30 →
  match Bio.bread me dev b x with
  | Ok (i, y) => tidy y ∧ refsum y = refsum x + 1
  | Panic m => False
  | NoFuel => True
  end.
Proof.
  intros Ht Hs. unfold Bio.bread.
  assert (match bget me dev b x with
          | Ok (i, y) => tidy y ∧ refsum y = refsum x + 1 | Panic _ => False | NoFuel => True end) as Hg.
  { assert (∀ (f : buf → buf) (i : nat) c, bufs x !! i = Some c → refcnt (f c) = refcnt c + 1 →
      match acquiresleep me i (upd_buf i f x) with
      | Ok y => tidy y ∧ refsum y = refsum x + 1 | Panic _ => False | NoFuel => True end) as Hgo.
    { intros f i c Hi Hc. destruct (td_ref _ Ht _ _ Hi) as [H0 _].
      destruct (acquiresleep me i (upd_buf i f x)) as [y| |] eqn:Ha;
        [|unfold Bio.acquiresleep in Ha; by case_match|done].
      apply acquire_tidy in Ha as [HT ->].
      - split; [done|]. rewrite (refsum_upd _ _ _ c), Hc by done. lia.
      - apply (tidy_upd _ _ _ c); [done|done|lia|lia].
      - intros d. simpl. rewrite list_lookup_alter_eq, Hi. intros [= <-]. lia. }
    unfold bget. destruct (scan (is_block dev b) x (lru x)) as [i|] eqn:Hsc.
    - apply scan_Some in Hsc as [[c Hi]%(td_lru _ Ht) _].
      pose proof (ref_le_sum _ _ _ Ht Hi). destruct (td_ref _ Ht _ _ Hi) as [H0 _].
      specialize (Hgo (λ b, set_refcnt (u32 (refcnt b + 1)) b) i c Hi). simpl in Hgo.
      rewrite u32_small in Hgo by lia. specialize (Hgo eq_refl). by destruct (acquiresleep me i _).
    - destruct (scan is_unused x (reverse (lru x))) as [i|] eqn:Hu; [|by destruct (unused_exists _ Ht Hs)].
      apply scan_Some in Hu as [Hin Hz]. rewrite elem_of_reverse in Hin. apply (td_lru _ Ht) in Hin as [c Hi].
      rewrite (getb_Some _ _ _ Hi) in Hz. unfold is_unused in Hz.
      specialize (Hgo (λ d, mkBuf 0 dev b 1 (Bio.bdata d) (bowner d)) i c Hi). simpl in Hgo.
      specialize (Hgo ltac:(lia)). by destruct (acquiresleep me i _). }
  destruct (bget me dev b x) as [[i y]| |]; [|done..]. destruct Hg as [HT HS]. simpl.
  destruct (valid (getb y i) =? 0); [|by split].
  unfold virtio_disk_rw. rewrite <-HS.
  destruct (set_data_tidy (set_data (dget (disk y) (blockno (getb y i)))) i y) as [HT1 <-]; [by intros|done|].
  by apply set_data_tidy.
Qed.

Lemma brelse_tidy me i x y : Bio.brelse me i x = Ok y → tidy x → refsum x <= 30 → tidy y ∧ refsum y = refsum x - 1.
Proof.
  unfold Bio.brelse. destruct (negb (holdingsleep me i x)) eqn:Hh; [done|]. intros [= <-] Ht Hs.
  apply negb_false_iff, bool_decide_eq_true in Hh.
  destruct (bufs x !! i) as [b|] eqn:Hb; [|unfold getb in Hh; by rewrite Hb in Hh].
  rewrite (getb_Some _ _ _ Hb) in Hh. destruct (td_ref _ Ht _ _ Hb) as [H0 H1].
  pose proof (ref_le_sum _ _ _ Ht Hb). assert (1 <= refcnt b) by (apply H1; by rewrite Hh).
  set (z := upd_buf i _ (releasesleep i x)). unfold releasesleep in z.
  assert (tidy z ∧ refsum z = refsum x - 1) as [HT HS].
  { assert (bufs (upd_buf i (set_owner None) x) !! i = Some (set_owner None b)) as Hb1
      by (simpl; by rewrite list_lookup_alter_eq, Hb).
    assert (u32 (refcnt b - 1) = refcnt b - 1) as Hu by (apply u32_small; lia).
    split.
    - apply (tidy_upd _ _ _ (set_owner None b)); [|done|simpl; lia|done].
      by apply (tidy_upd _ _ _ b); [|done|simpl; lia|].
    - unfold z. rewrite (refsum_upd _ _ _ (set_owner None b)), (refsum_upd _ _ _ b) by done. simpl. lia. }
  case_match; [|done]. split; [|done]. split; cbn [bufs lru]; [apply HT| |apply HT].
  intros j. change (alter _ i (alter _ i (bufs x))) with (bufs z). change (lru x) with (lru z).
  rewrite <-(td_lru _ HT), elem_of_cons, list_elem_of_filter. split.
  - intros [->|[_ ?]]; [|done]. apply (td_lru _ HT). simpl. rewrite !list_lookup_alter_eq, Hb. eauto.
  - intros Hj. destruct (decide (j = i)); auto.
Qed.

Section fits.
Context {M : Type} `{!UserMem M} (V : Z) (p : nat) (me : Z).
#[local] Instance ops : BufOps ldst := ld_ops V p me.
Abbreviation st := (fss ldst M).
Abbreviation FSM := (@FS ldst M).

Definition nlogged (s : st) : Z := lh_n (ld_log (lower s)).
(** Uses of buffers other than the pins of logged blocks. *)
Definition extra (s : st) : Z := refsum (ld_buf (lower s)) - nlogged s.

Definition fits (k e c : Z) {A} (m : FSM A) : Prop :=
  ∀ s, tidy (ld_buf (lower s)) → nlogged s + k <= LOGBLOCKS → extra s + e + nlogged s + k <= 30 →
    match m s with
    | Ok (_, s') => tidy (ld_buf (lower s')) ∧ nlogged s' <= nlogged s + k ∧ extra s' <= extra s + c
    | Panic m => ¬ ld_panic m
    | NoFuel => True
    end.

Lemma fits_mono {A} k e c k' e' c' (m : FSM A) : fits k e c m → k <= k' → e <= e' → c <= c' → fits k' e' c' m.
Proof.
  intros Hm Hk He Hc s Ht H0 Hs. specialize (Hm s Ht ltac:(lia) ltac:(lia)). destruct (m s) as [[a s']| |]; [|done..].
  destruct Hm as (? & ? & ?). split_and!; [done|lia..].
Qed.

Lemma fits_bind {A B} k1 e1 c1 k e c (m : FSM A) (f : A → FSM B) :
  fits k1 e1 c1 m → (∀ a, fits (k - k1) (e - c1) (c - c1) (f a)) → e1 <= e → k1 <= k →
  fits k e c (m ≫= f).
Proof.
  intros Hm Hf He Hk s Ht H0 Hs. unfold mbind, fs_bind. specialize (Hm s Ht ltac:(lia) ltac:(lia)).
  destruct (m s) as [[a s1]| |]; [|done..]. destruct Hm as (Ht1 & Hn1 & He1). simpl.
  specialize (Hf a s1 Ht1 ltac:(lia) ltac:(lia)). destruct (f a s1) as [[b s2]| |]; [|done..].
  destruct Hf as (? & ? & ?). split_and!; [done|lia..].
Qed.

Lemma fits_bind0 {A B} k e c (m : FSM A) (f : A → FSM B) :
  fits 0 0 0 m → (∀ a, fits k e c (f a)) → 0 <= e → 0 <= k → fits k e c (m ≫= f).
Proof. intros Hm Hf He Hk. apply (fits_bind 0 0 0); [done| |done|done]. intros a. by rewrite !Z.sub_0_r. Qed.

(** Steps that leave the log alone and no buffer more or less in use. *)
Definition neutral {A} (m : FSM A) : Prop :=
  ∀ s, match m s with
       | Ok (_, s') => nlogged s' = nlogged s ∧
           (tidy (ld_buf (lower s)) → tidy (ld_buf (lower s')) ∧ refsum (ld_buf (lower s')) = refsum (ld_buf (lower s)))
       | Panic m => ¬ ld_panic m
       | NoFuel => True
       end.

Lemma fits_neutral {A} k e c (m : FSM A) : neutral m → 0 <= k → 0 <= c → fits k e c m.
Proof.
  intros Hm Hk Hc s Ht Hn Hs. specialize (Hm s). destruct (m s) as [[a s']| |]; [|done..].
  destruct Hm as [Hn' Hm]. destruct (Hm Ht) as [Ht' Hr]. unfold extra. split_and!; [done|lia|lia].
Qed.

Lemma neutral_getf {A} (g : st → A) : neutral (getf g).
Proof. intros s. by simpl. Qed.
Lemma neutral_ret {A} (a : A) : neutral (mret a : FSM A).
Proof. intros s. by simpl. Qed.
Lemma neutral_print m : neutral (fprintf m : FSM unit).
Proof. intros s. by simpl. Qed.
Lemma neutral_iset i ip : neutral (iset i ip : FSM unit).
Proof. intros s. by simpl. Qed.
Lemma neutral_fmem k m : neutral (modf (set_fmem k m) : FSM unit).
Proof. intros s. by simpl. Qed.
Lemma neutral_bstore h d : neutral (bstore h d : FSM unit).
Proof. intros s. simpl. split; [done|]. intros Ht. by apply set_data_tidy. Qed.
Lemma neutral_iat i : neutral (iat i : FSM inode).
Proof.
  intros s. unfold iat, mbind, fs_bind, getf. simpl.
  destruct (itable s !! i); simpl; [done|]. by intros [[=]|[=]].
Qed.
Lemma fits_panic {A} k e c m : ¬ ld_panic m → fits k e c (fpanic m : FSM A).
Proof. by intros Hm s Ht Hn Hs. Qed.
Lemma fits_hang {A} k e c : fits k e c (hang : FSM A).
Proof. done. Qed.

Lemma fits_bread dev b : fits 0 1 1 (bread dev b : FSM nat).
Proof.
  intros s Ht Hn Hs. unfold bread, low. simpl. unfold ld_read, extra in *.
  pose proof (bread_tidy me dev b _ Ht ltac:(lia)) as Hb. unfold nlogged in *.
  destruct (Bio.bread me dev b (ld_buf (lower s))) as [[j x]| |]; simpl; [|done..].
  destruct Hb as [Ht' Hr]. simpl. split_and!; [done|lia|lia].
Qed.

Lemma fits_brelse h : fits 0 0 (-1) (brelse h : FSM unit).
Proof.
  intros s Ht Hn Hs. unfold brelse, low_. simpl. unfold ld_rel, extra, nlogged in *.
  destruct (Bio.brelse me h (ld_buf (lower s))) as [x|m|] eqn:Hb; simpl; [| |done].
  - apply brelse_tidy in Hb as [Ht' Hr]; [|done|lia]. simpl. split_and!; [done|lia|lia].
  - unfold Bio.brelse in Hb. case_match; [|done]. injection Hb as <-. by intros [[=]|[=]].
Qed.

Lemma fits_log_write h : fits 1 0 0 (log_write h : FSM unit).
Proof.
  intros s Ht Hn Hs. unfold log_write, low_. simpl. unfold ld_logw, Log.log_write, extra, nlogged in *.
  rewrite (proj2 (Z.leb_gt _ _)) by lia.
  destruct (outstanding (ld_log (lower s)) <? 1); simpl; [by intros [[=]|[=]]|].
  destruct (_ =? lh_n _); simpl; [|split_and!; [done|lia|lia]].
  destruct (bufs (ld_buf (lower s)) !! h) as [b|] eqn:Hb.
  - destruct (td_ref _ Ht _ _ Hb) as [H0 H1]. pose proof (ref_le_sum _ _ _ Ht Hb).
    assert (u32 (refcnt b + 1) = refcnt b + 1) as Hu by (apply u32_small; lia).
    split_and!; [|lia|].
    + apply (tidy_upd _ _ _ b); [done|done|simpl; lia|simpl; lia].
    + unfold bpin. rewrite (refsum_upd _ _ _ b) by done. simpl. lia.
  - unfold bpin. rewrite upd_none by done. split_and!; [done|lia|lia].
Qed.

(** One step of a computation. *)
Ltac neutral_tac :=
  first [apply neutral_getf|apply neutral_ret|apply neutral_print|apply neutral_iset|apply neutral_fmem
        |apply neutral_bstore|apply neutral_iat].
Ltac fits_step :=
  first [ apply fits_panic; by intros [[=]|[=]] | apply fits_hang
        | apply fits_neutral; [neutral_tac|lia|lia]
        | apply (fits_bind 0 0 0); [apply fits_neutral; [neutral_tac|lia|lia]|intros|lia|lia]
        | apply (fits_bind 0 1 1); [apply fits_bread|intros|lia|lia]
        | apply (fits_bind 0 0 (-1)); [apply fits_brelse|intros|lia|lia]
        | apply (fits_bind 1 0 0); [apply fits_log_write|intros|lia|lia]
        | eapply fits_mono; [first [apply fits_brelse|apply fits_log_write]|lia|lia|lia] ].

Lemma fits_bzero dev b : fits 1 1 0 (bzero dev b : FSM unit).
Proof. unfold bzero. repeat fits_step. Qed.

Lemma fits_balloc_loop dev f : ∀ b, fits 2 1 0 (balloc_loop f dev b : FSM Z).
Proof.
  induction f as [|f IH]; intros b; cbn [balloc_loop]; fits_step; case_match; repeat fits_step.
  case_match; repeat fits_step.
  - apply (fits_bind 1 1 0); [apply fits_bzero|intros|lia|lia]. fits_step.
  - eapply fits_mono; [apply IH|lia..].
Qed.

Lemma fits_balloc dev : fits 2 1 0 (balloc dev : FSM Z).
Proof. unfold balloc. fits_step. eapply fits_mono; [apply fits_balloc_loop|lia..]. Qed.

Lemma fits_bmap i bn : fits 5 2 0 (bmap i bn : FSM Z).
Proof.
  unfold bmap. fits_step. case_match; [|case_match; [|fits_step]].
  - case_match; [|fits_step]. apply (fits_bind 2 1 0); [apply fits_balloc|intros x|lia|lia].
    case_match; repeat fits_step.
  - apply (fits_bind 2 1 0); [|intros x|lia|lia].
    { case_match; [|fits_step]. apply (fits_bind 2 1 0); [apply fits_balloc|intros x|lia|lia].
      apply (fits_bind 0 0 0); [|intros; fits_step|lia|lia]. case_match; fits_step. }
    case_match; [fits_step|]. do 2 fits_step. apply (fits_bind 3 1 0); [|intros y|lia|lia].
    + case_match; [|fits_step]. apply (fits_bind 2 1 0); [apply fits_balloc|intros y|lia|lia].
      apply (fits_bind 1 0 0); [|intros; fits_step|lia|lia]. case_match; repeat fits_step.
    + repeat fits_step.
Qed.

Lemma fits_iupdate i : fits 1 1 0 (iupdate i : FSM unit).
Proof. unfold iupdate. repeat fits_step. Qed.

(** The turns of the loop of [writei] that do some work. *)
Definition turns (off r : Z) : Z := if r <=? 0 then 0 else (off mod BSIZE + r + BSIZE - 1) / BSIZE.

Lemma turns_step off r : 0 <= off → 0 < r →
  let c := Z.min r (BSIZE - off mod BSIZE) in 1 + turns (off + c) (r - c) <= turns off r ∧ 1 <= turns off r.
Proof.
  intros Ho Hr c. unfold turns, c. change BSIZE with 1024. repeat zcase; try lia; mlia.
Qed.

Lemma turns_nonneg off r : 0 <= turns off r.
Proof. unfold turns. change BSIZE with 1024. zcase; [lia|]. mlia. Qed.

Lemma fits_writei_loop i u n : 0 <= n < 4294967296 → ∀ f src off tot,
  0 <= off → 0 <= tot → off + (n - tot) < 4294967296 →
  fits (6 * turns off (n - tot)) 2 0 (writei_loop f i u src off n tot : FSM (Z * Z)).
Proof.
  intros Hn. induction f as [|f IH]; intros src off tot Ho Ht Hb; cbn [writei_loop];
    pose proof (turns_nonneg off (n - tot)) as Hnn.
  - case_match; fits_step.
  - destruct (Z.ltb_spec tot n) as [Hlt|]; [|fits_step].
    destruct (turns_step off (n - tot) Ho ltac:(lia)) as [Hs H1].
    apply (fits_bind 5 2 0); [apply fits_bmap|intros addr|lia|lia]. case_match; [fits_step|].
    do 3 fits_step. cbv zeta. do 2 fits_step.
    assert (0 <= off mod BSIZE < BSIZE) as Hm by (apply Z.mod_pos_bound; done). change BSIZE with 1024 in *.
    rewrite (u32_small (n - tot)), (u32_small (1024 - _)) by lia.
    set (c := Z.min (n - tot) (1024 - off mod 1024)) in *.
    destruct (either_copyin _ _ _ _ _) as [[um r] bs]. do 2 fits_step. case_match; [repeat fits_step|].
    do 2 fits_step. rewrite !u32_small by lia.
    eapply fits_mono; [apply IH; lia| |lia|lia]. replace (n - (tot + c)) with (n - tot - c) by lia. lia.
Qed.

(** A chunk of [filewrite] logs at most 25 blocks. *)
Lemma fits_writei i u src off n : 0 <= n <= fw_max → 0 <= off → off + n < 4294967296 →
  fits 25 2 0 (writei i u src off n : FSM Z).
Proof.
  intros Hn Ho Hb. unfold fw_max in Hn. unfold writei. fits_step. case_match; [fits_step|].
  case_match; [fits_step|]. apply (fits_bind 24 2 0); [| |lia|lia].
  - eapply fits_mono; [apply fits_writei_loop; change MAXOPBLOCKS with 10 in *; change BSIZE with 1024 in *; simpl in *; lia| |lia|lia].
    unfold turns. change MAXOPBLOCKS with 10 in *. change BSIZE with 1024 in *. simpl in Hn. zcase; [lia|]. mlia.
  - intros [o t]. do 2 fits_step. apply (fits_bind 1 1 0); [apply fits_iupdate|intros; fits_step|lia|lia].
Qed.

(** What fits ends without a panic of the log and the cache. *)
Lemma fsat_fits {A} k e c (m : FSM A) s Q :
  fits k e c m → tidy (ld_buf (lower s)) → nlogged s + k <= LOGBLOCKS → extra s + e + nlogged s + k <= 30 →
  fsat ld_panic m s Q → fsat (λ _, False) m s (λ a s', Q a s' ∧ nlogged s' <= nlogged s + k).
Proof.
  intros Hf Ht Hn He. specialize (Hf s Ht Hn He). unfold fsat, outcome.
  destruct (m s) as [[a s']| |]; [|done..]. intros HQ. split; [exact HQ|apply Hf].
Qed.
End fits.

(** ** A disk that agrees with a view on every home block *)
Section home.
Context (start0 : Z).
#[local] Instance area : LogArea := log_area start0.
Context (x : superblock) (v : dview) (d : gmap Z block).
Context (Hd : dwf x v) (Hh : home_same start0 d v) (Hl : ∀ b, length (dget d b) = Z.to_nat BSIZE).

Lemma home_used b : 0 <= b < sb_size x → used x (dget d) b = used x v b.
Proof using Hd Hh. intros Hb. unfold used. rewrite Hh; [done|]. by apply (dwf_blog _ _ Hd). Qed.

Lemma home_dwf : dwf x (dget d).
Proof using Hd Hh Hl.
  split; try apply Hd; [done|]. intros b Hb. rewrite home_used by done. by apply (dwf_free _ _ Hd).
Qed.

Lemma home_keeps : keeps_data x v (dget d).
Proof using Hd Hh.
  intros b Hb. split; [apply Hh; exact (data_unlogged x v b Hb)|].
  destruct Hb as (? & ? & ?). unfold data_block. by rewrite home_used by lia.
Qed.

Lemma home_full : full x v → full x (dget d).
Proof using Hd Hh. intros Hf b Hb. rewrite home_used by done. by apply Hf. Qed.

Lemma home_inode n ip0 : 0 <= n < sb_ninodes x → disk_inode x (dget d) n ip0 = disk_inode x v n ip0.
Proof using Hd Hh. intros Hn. unfold disk_inode. rewrite Hh; [done|]. by apply (dwf_ilog _ _ Hd). Qed.
End home.

Section crash.
Context {M : Type} `{!UserMem M} `{!UserMemLaws M} (V : Z) (p : nat) (me start0 : Z).
Abbreviation st := (fss ldst M).
#[local] Existing Instance ops.
#[local] Instance fsops : BufOps ldst := ops V p me.
#[local] Instance farea : LogArea := log_area start0.

(** Between transactions no buffer is in use. *)
Lemma core_tidy s v d h d0 w0 : ldcore me start0 d0 w0 s v d h → tidy (ld_buf s).
Proof.
  intros Hc. pose proof (lr_inv _ _ _ _ _ _ _ _ Hc) as Hi. split.
  - apply Hi.
  - apply (proj2 (bi_lru _ _ Hi)).
  - intros i b Hb. destruct (bi_refcnt _ _ Hi _ _ Hb) as [H0 _]. split; [done|]. intros Ho.
    destruct (decide (refcnt b = 0)) as [Hz|]; [|lia]. by destruct (bi_free _ _ Hi _ _ Hb Hz).
Qed.

Lemma core_unused s v d d0 w0 : ldcore me start0 d0 w0 s v d ∅ → lh_n (ld_log s) = 0 → refsum (ld_buf s) = 0.
Proof.
  intros Hc Hn. pose proof (lr_free _ _ _ _ _ _ _ _ Hc) as Hf. rewrite (pinned_empty _ Hn), size_empty in Hf.
  pose proof (bi_len _ _ (lr_inv _ _ _ _ _ _ _ _ Hc)) as Hl. unfold nfree, refsum, NBUF in *.
  revert Hf Hl. generalize 30%nat. generalize (bufs (ld_buf s)). clear. intros l.
  induction l as [|b l IH]; intros n Hf Hl; simpl in *; [done|].
  pose proof (length_filter (λ b, refcnt b = 0) l). rewrite filter_cons in Hf. case_decide as Hb; simpl in Hf; [|lia].
  rewrite (IH (length l)); lia.
Qed.

(** The file after a write of [tot] bytes at [off], on the disk [d']. *)
Record durable (s : st) (i : nat) (ip : inode) (off tot : Z) (byte : Z → Z) (s' : st)
    (d d' : gmap Z block) (ip' : inode) : Prop := {
  du_dwf : dwf (sb s) (dget d');
  du_iwf : iwf (sb s) (dget d') ip';
  du_tab : sb s' = sb s ∧ itable s' = <[i := ip']> (itable s);
  du_size : i_size ip' = Z.max (i_size ip) (off + tot);
  du_content o : 0 <= o < MAXFILE * BSIZE → content (dget d') ip' o =
    if (off <=? o) && (o <? off + tot) then byte (o - off) else content (dget d) ip o;
  du_inode ip0 : disk_inode (sb s) (dget d') (i_inum ip) ip0 = with_fields ip0 ip'
}.

(** C7: a chunk of [filewrite] on the log and the cache.  From a system at rest
    [begin_op], [writei] of at most [fw_max] bytes and [end_op] return, without
    any panic: the chunk fits the log and the cache.  On the disk then lies a consistent file
    system with the bytes at their place in the file, the inode included;
    nothing else of the file changed, and the count is [n] unless the disk is
    full.  A crash after any number of the block writes, followed by the
    recovery of the next boot, leaves every block outside the log as it was
    before the write, or every one as it is after it. *)
Theorem write_crash_atomic (s : st) d w i ip u src off n byte :
  at_rest start0 me d w (lower s) → itable s !! i = Some ip → i_dev ip = ROOTDEV →
  0 <= i_inum ip < sb_ninodes (sb s) → dwf (sb s) (dget d) → iwf (sb s) (dget d) ip →
  source_ok u src n byte (fkm s) (fum s) → 0 <= src → src + n < 18446744073709551616 →
  0 <= n <= fw_max → 0 <= off <= i_size ip → off + n <= MAXFILE * BSIZE →
  fsat (λ _, False) (_ ← begin_op; tot ← writei i u src off n; _ ← end_op; mret tot) s (λ tot s',
    ∃ ip' ws, let d' := disk (ld_buf (lower s')) in
      0 <= tot <= n ∧ (tot = n ∨ full (sb s) (dget d')) ∧
      durable s i ip off tot byte s' d d' ip' ∧
      at_rest start0 me d' (w ++ ws) (lower s') ∧
      crash_atomic me start0 d ws (dget d) (dget d')).
Proof.
  intros Hid Ht Hdev Hin Hd Hi Hsrc Hs0 Hs1 Hn Hoff Hmax.
  destruct (ld_begin_spec me start0 d w _ Hid) as (x & Ex & Hx & Hx0).
  apply fsat_bind. unfold begin_op, low_, fsat at 1. simpl tx_begin. rewrite Ex. simpl.
  pose (laws := ld_laws me start0 d w V p).
  eapply fsat_seq.
  { assert (nlogged (set_lower x s) = 0) as Hl0 by exact Hx0.
    assert (extra (set_lower x s) = 0) as He0
      by (unfold extra; rewrite Hl0; cbn [lower set_lower]; by rewrite (core_unused _ _ _ _ _ (proj2 Hx) Hx0)).
    apply (fsat_fits 25 2 0); [apply (fits_writei V p me i u src off n); change (MAXFILE * BSIZE) with 274432 in *; lia
      |exact (core_tidy _ _ _ _ _ _ (proj2 Hx))|rewrite Hl0; done|lia|].
    apply (writei_sat (H1 := laws) (set_lower x s) (dget d) i ip u src off n byte); try done; lia. }
  intros tot s1 [(v' & ip' & Htot & Hw & Hfull) Hlg].
  destruct Hw as [R D I T Sm Sz C F Mp _ Dk [B K]]. cbn [sb set_lower itable] in *.
  change (nlogged (set_lower x s)) with (lh_n (ld_log x)) in Hlg. rewrite Hx0 in Hlg.
  pose proof (id_core _ _ _ _ _ Hid) as Hcore.
  destruct (ld_end_spec V p me start0 d w (lower s1) v') as (y & ws & Ey & Hid' & Hh & Hcr);
    [apply Hcore|exact R|unfold nlogged in Hlg; lia|apply Hid|].
  apply fsat_bind. unfold end_op, low_, fsat at 1. simpl tx_end. rewrite Ey. simpl.
  assert (∀ b, length (dget (disk (ld_buf y)) b) = Z.to_nat BSIZE) as Hl by apply (id_core _ _ _ _ _ Hid').
  destruct (keeps_iwf _ _ _ ip' (home_keeps start0 _ _ _ D Hh) I) as (I' & _ & C').
  exists ip', ws. cbn [fst snd lower set_lower]. split_and!; [lia|lia| | |exact Hid'|].
  - destruct Hfull; [by left|right]. by eapply home_full.
  - split; [by eapply home_dwf|exact I'|by split|exact Sz| |].
    + intros o Ho. rewrite C' by done. by apply C.
    + intros ip0. rewrite (home_inode start0 _ v') by done. apply Dk.
  - intros k l0 tab Hl0. destruct (Hcr k l0 tab Hl0) as (s' & E & Hor). exists s'. split; [exact E|].
    destruct Hor as [Ho|Ho]; [by left|right]. intros b Hb. rewrite Ho, Hh by done. done.
Qed.
End crash.

(** ** An example

    A disk of 64 blocks with the log in blocks 2 to 32, an empty file as inode
    2, and three bytes of kernel memory to write. *)
Module CrashWitness.
Import Flat.
#[local] Instance warea : LogArea := log_area 2.
Definition x1 : superblock := mkSB FSMAGIC 64 28 16 31 2 33 34.
Definition file1 : inode := mkInode 1 2 1 true true 2 0 0 1 0 (replicate 13 0).
Definition d1 : gmap Z block :=
  {[ 33 := put_dinode zero_block 128 file1; 34 := splice zero_block 0 [255; 255; 255; 255; 15] ]}.
Definition l1 : logst := mkLog 2 0 0 1 0 (replicate 30 0).
Definition kmem1 : mem := {[ 1000 := 7; 1001 := 8; 1002 := 9 ]}.
Definition s1 : fss ldst flat := mkFss x1 [file1] (mkLD l1 (binit d1) []) kmem1 (mk 0 []) [].

Lemma len1 b : length (dget d1 b) = Z.to_nat BSIZE.
Proof.
  unfold d1, dget. rewrite lookup_insert. case_decide; [by vm_compute|].
  rewrite lookup_singleton. case_decide; by vm_compute.
Qed.

Lemma rest1 : at_rest 2 1 d1 [] (mkLD l1 (binit d1) []).
Proof.
  split; [|done|done|by vm_compute].
  apply core_fresh; try done; [apply binit_inv|apply len1].
Qed.

Lemma block1 c n : 0 <= c < 64 → 0 <= n < 16 → BBLOCK c x1 = 34 ∧ IBLOCK n x1 = 33.
Proof.
  intros. unfold BBLOCK, IBLOCK. change BPB with 8192. change IPB with 16. simpl. rewrite !Z.div_small by lia. done.
Qed.

Lemma used1 b : 0 <= b < 36 → used x1 (dget d1) b = true.
Proof.
  intros Hb. assert (forallb (used x1 (dget d1)) (seqZ 0 36) = true) as Hf by (by vm_compute).
  rewrite forallb_forall in Hf. apply Hf, list_elem_of_In, elem_of_seqZ. lia.
Qed.

Lemma dwf1 : dwf x1 (dget d1).
Proof.
  split; [apply len1|..].
  - intros b Hb Hu. simpl in Hb. destruct (decide (b < 36)); [by rewrite used1 in Hu by lia|]. split; [lia|].
    intros [(c & Hc & ->)|[(j & Hj & ->)|Hl]]; simpl in *.
    + destruct (block1 c 0) as [E _]; lia.
    + destruct (block1 0 j) as [_ E]; lia.
    + assert (log_area 2 b = false) as Hf by (apply log_area_no; unfold LOGBLOCKS, MAXOPBLOCKS; lia).
      change (log_area 2 b = true) in Hl. congruence.
  - intros n Hn. destruct (block1 0 n) as [_ ->]; [lia|done|done].
  - intros c Hc. destruct (block1 c 0) as [-> _]; [done|lia|done].
  - intros n c Hn Hc. destruct (block1 c n) as [-> ->]; done.
  - done.
Qed.

Lemma iwf1 : iwf x1 (dget d1) file1.
Proof.
  assert (∀ bn, 0 <= bn < MAXFILE → blk (dget d1) file1 bn = 0) as Hb.
  { intros bn Hbn. unfold blk, ind. simpl. change NDIRECT with 12.
    assert (∀ k, aget (replicate 13 0) k = 0) as Hz.
    { intros k. unfold aget. destruct (replicate 13 0 !! Z.to_nat k) eqn:He; [|done].
      by apply lookup_replicate in He as [-> _]. }
    rewrite !Hz. by case_match. }
  split; [| |intros bn Hbn Hne; by rewrite Hb in Hne|intros bn ? Hbn _ Hne; by rewrite Hb in Hne].
  - unfold inode_ok, short_ok. simpl. split_and!; try lia; try done; repeat constructor; lia.
  - done.
Qed.

Lemma write_crash_atomic_witness :
  fsat (λ _, False) (_ ← begin_op (H := ops 5 0 1); tot ← writei (H := ops 5 0 1) 0 0 1000 0 3; _ ← end_op (H := ops 5 0 1); mret tot) s1 (λ tot s',
    ∃ ip' ws, let d' := disk (ld_buf (lower s')) in
      0 <= tot <= 3 ∧ (tot = 3 ∨ full x1 (dget d')) ∧
      durable 2 s1 0 file1 0 tot (λ t, ld8 kmem1 (1000 + t)) s' d1 d' ip' ∧
      at_rest 2 1 d' ([] ++ ws) (lower s') ∧ crash_atomic 1 2 d1 ws (dget d1) (dget d')).
Proof.
  assert (0 <= 1000) as H1 by lia. assert (1000 + 3 < 18446744073709551616) as H2 by lia.
  assert (0 <= 3 <= fw_max) as H3 by (split; [lia|by apply (bool_decide_unpack _)]).
  assert (0 <= 0 <= i_size file1) as H4 by (simpl; lia).
  assert (0 + 3 <= MAXFILE * BSIZE) as H5 by (by apply (bool_decide_unpack _)).
  assert (0 <= i_inum file1 < sb_ninodes x1) as H6 by (simpl; lia).
  exact (write_crash_atomic 5 0 1 2 s1 d1 [] 0 file1 0 1000 0 3 (λ t, ld8 kmem1 (1000 + t)) rest1 eq_refl eq_refl H6
    dwf1 iwf1 (λ t _, eq_refl) H1 H2 H3 H4 H5).
Defined.
End CrashWitness.
