(* ===== verification/Sysfile.v ===== *)
(** * The file system calls

    [kernel/sysfile.c] on top of the models of file.c, pipe.c and fs.c, with the
    argument fetching of [kernel/syscall.c] and [filestat] of [kernel/file.c].
    The state is that of the file layer over the file system, and of the calling
    process its descriptors [ofile], its current directory, its argument
    registers and its size.  The part of a call between [begin_op] and [end_op]
    is a computation of the file system; a call that may sleep in a pipe or a
    device returns it as a tail call ([fcall]).  All local [struct dirent]s have
    the address [de], since none is live across a call that uses another. *)
From S2P Require Import Prelude Riscv Bio Log Buf Proc UserMem Pipe Mem CString Kalloc Uart Printf Console Fs Dir File.

Definition NOFILES : nat := 16.           (* NOFILE *)
Definition MAXPATH : Z := 128.
Definition O_RDONLY : Z := 0.
Definition O_WRONLY : Z := 1.
Definition O_RDWR : Z := 2.
Definition O_CREATE : Z := 512.
Definition O_TRUNC : Z := 1024.

(** [copyinstr] as the callers see it: the return code and the bytes stored. *)
Class UserStr (M : Type) := {
  ucopyinstr : M → Z → Z → Z * list Z
}.

(** A little-endian word. *)
Fixpoint le_value (bs : list Z) : Z :=
  match bs with b :: bs' => b + 256 * le_value bs' | [] => 0 end.

(** ** What file.c and proc.c need of the file system *)
Section inode_ops.
Context {S : Type} `{BufOps S} {M : Type} `{UserMem M} (de : Z) (cwd : nat).

Definition run_ {A} (m : @FS S M A) (x : fss S M) : res (fss S M) := '(_, x) ← m x; Ok x.

Definition fs_inode_ops : InodeOps (fss S M) := {|
  op_begin := run_ Fs.begin_op;
  op_end := run_ Fs.end_op;
  File.iput i := run_ (Fs.iput i);
  File.idup i := run_ (Fs.idup i);
  File.namei path := Dir.namei de cwd path;
  File.ilock i := run_ (Fs.ilock (Some i));
  File.iunlock i := run_ (Fs.iunlock (Some i));
  File.readi i addr off n := Fs.readi i 1 addr off n;
  File.writei i addr off n := Fs.writei i 1 addr off n
|}.
End inode_ops.

(** ** The bodies between begin_op and end_op *)
Section bodies.
Context {S : Type} `{BufOps S} {M : Type} `{UserMem M} (de : Z).
Abbreviation FSM := (@FS S M).

Definition add_nlink (i : nat) (d : Z) : FSM unit :=
  ip ← Fs.iat i; Fs.iset i (set_i_nlink (i16 (i_nlink ip + d)) ip).

(** The label [bad:] of [sys_link]. *)
Definition link_bad (i : nat) : FSM Z :=
  _ ← Fs.ilock (Some i);
  _ ← add_nlink i (-1);
  _ ← Fs.iupdate i;
  _ ← Fs.iunlockput i;
  _ ← Fs.end_op;
  mret (-1).

(** [sys_link] after its arguments. *)
Definition sys_link_body (cwd : nat) (old new : list Z) : FSM Z :=
  _ ← Fs.begin_op;
  o ← Dir.namei de cwd old;
  match o with
  | None => _ ← Fs.end_op; mret (-1)
  | Some i =>
      _ ← Fs.ilock (Some i);
      ip ← Fs.iat i;
      if i_type ip =? T_DIR then
        _ ← Fs.iunlockput i; _ ← Fs.end_op; mret (-1)
      else
        _ ← add_nlink i 1;
        _ ← Fs.iupdate i;
        _ ← Fs.iunlock (Some i);
        '(odp, name) ← Dir.nameiparent de cwd new;
        match odp with
        | None => link_bad i
        | Some d =>
            _ ← Fs.ilock (Some d);
            dp ← Fs.iat d;
            ip ← Fs.iat i;
            r ← (if negb (i_dev dp =? i_dev ip) then mret (-1) else dirlink de d name (i_inum ip));
            if r <? 0 then _ ← Fs.iunlockput d; link_bad i
            else
              _ ← Fs.iunlockput d;
              _ ← Fs.iput i;
              _ ← Fs.end_op;
              mret 0
        end
  end.

Fixpoint isdirempty_loop (fuel : nat) (dp : nat) (off : Z) : FSM Z :=
  ip ← Fs.iat dp;
  if u32 off <? i_size ip then
    match fuel with
    | O => hang
    | Datatypes.S f =>
        r ← Fs.readi dp 0 de (u32 off) DIRENT;
        if negb (r =? DIRENT) then fpanic "isdirempty: readi"
        else
          k ← getf fkm;
          if negb (de_inum de k =? 0) then mret 0
          else isdirempty_loop f dp (i32 (off + DIRENT))
    end
  else mret 1.

Definition isdirempty (dp : nat) : FSM Z :=
  ip ← Fs.iat dp; isdirempty_loop (Z.to_nat (i_size ip / DIRENT + 1)) dp (2 * DIRENT).

(** [sys_unlink] after its argument. *)
Definition sys_unlink_body (cwd : nat) (path : list Z) : FSM Z :=
  _ ← Fs.begin_op;
  '(odp, name) ← Dir.nameiparent de cwd path;
  match odp with
  | None => _ ← Fs.end_op; mret (-1)
  | Some d =>
      _ ← Fs.ilock (Some d);
      let bad : FSM Z := _ ← Fs.iunlockput d; _ ← Fs.end_op; mret (-1) in
      if (namecmp name [46] =? 0) || (namecmp name [46; 46] =? 0) then bad
      else
        o ← dirlookup de d name;
        match o with
        | None => bad
        | Some (i, off) =>
            _ ← Fs.ilock (Some i);
            ip ← Fs.iat i;
            if i_nlink ip <? 1 then fpanic "unlink: nlink < 1"
            else
              keep ← (if i_type ip =? T_DIR then e ← isdirempty i; mret (e =? 0) else mret false);
              if (keep : bool) then _ ← Fs.iunlockput i; bad
              else
                k ← getf fkm;
                um ← getf fum;
                _ ← modf (set_fmem (st_bytes k de (replicate (Z.to_nat DIRENT) 0)) um);
                r ← Fs.writei d 0 de off DIRENT;
                if negb (r =? DIRENT) then fpanic "unlink: writei"
                else
                  ip ← Fs.iat i;
                  _ ← (if i_type ip =? T_DIR then _ ← add_nlink d (-1); Fs.iupdate d else mret tt);
                  _ ← Fs.iunlockput d;
                  _ ← add_nlink i (-1);
                  _ ← Fs.iupdate i;
                  _ ← Fs.iunlockput i;
                  _ ← Fs.end_op;
                  mret 0
        end
  end.

(** The label [fail:] of [create]. *)
Definition create_fail (i d : nat) : FSM (option nat) :=
  ip ← Fs.iat i;
  _ ← Fs.iset i (set_i_nlink 0 ip);
  _ ← Fs.iupdate i;
  _ ← Fs.iunlockput i;
  _ ← Fs.iunlockput d;
  mret None.

(** [create]: the inode, locked. *)
Definition create (cwd : nat) (path : list Z) (type major minor : Z) : FSM (option nat) :=
  '(odp, name) ← Dir.nameiparent de cwd path;
  match odp with
  | None => mret None
  | Some d =>
      _ ← Fs.ilock (Some d);
      o ← dirlookup de d name;
      match o with
      | Some (i, _) =>
          _ ← Fs.iunlockput d;
          _ ← Fs.ilock (Some i);
          ip ← Fs.iat i;
          if (type =? T_FILE) && ((i_type ip =? T_FILE) || (i_type ip =? T_DEVICE)) then mret (Some i)
          else _ ← Fs.iunlockput i; mret None
      | None =>
          dp ← Fs.iat d;
          oi ← ialloc (i_dev dp) type;
          match oi with
          | None => _ ← Fs.iunlockput d; mret None
          | Some i =>
              _ ← Fs.ilock (Some i);
              ip ← Fs.iat i;
              _ ← Fs.iset i (mkInode (i_dev ip) (i_inum ip) (i_ref ip) (i_lock ip) (i_valid ip)
                               (i_type ip) major minor 1 (i_size ip) (i_addrs ip));
              _ ← Fs.iupdate i;
              r ← (if type =? T_DIR then
                     r ← dirlink de i [46] (i_inum ip);
                     if r <? 0 then mret r
                     else dp ← Fs.iat d; dirlink de i [46; 46] (i_inum dp)
                   else mret 0);
              if r <? 0 then create_fail i d
              else
                r ← dirlink de d name (i_inum ip);
                if r <? 0 then create_fail i d
                else
                  _ ← (if type =? T_DIR then _ ← add_nlink d 1; Fs.iupdate d else mret tt);
                  _ ← Fs.iunlockput d;
                  mret (Some i)
          end
      end
  end.

(** [sys_mkdir] and [sys_mknod] after their arguments; [path] is the result of
    [argstr]. *)
Definition mk_body (cwd : nat) (path : option (list Z)) (type major minor : Z) : FSM Z :=
  o ← match path with
      | None => mret None
      | Some p => create cwd p type major minor
      end;
  match o with
  | None => _ ← Fs.end_op; mret (-1)
  | Some i => _ ← Fs.iunlockput i; _ ← Fs.end_op; mret 0
  end.

(** [sys_chdir] after its argument: the result and the new current directory. *)
Definition sys_chdir_body (cwd : nat) (path : option (list Z)) : FSM (Z * nat) :=
  o ← match path with None => mret None | Some p => Dir.namei de cwd p end;
  match o with
  | None => _ ← Fs.end_op; mret (-1, cwd)
  | Some i =>
      _ ← Fs.ilock (Some i);
      ip ← Fs.iat i;
      if negb (i_type ip =? T_DIR) then
        _ ← Fs.iunlockput i; _ ← Fs.end_op; mret (-1, cwd)
      else
        _ ← Fs.iunlock (Some i);
        _ ← Fs.iput cwd;
        _ ← Fs.end_op;
        mret (0, i)
  end.

(** [sys_open] up to the inode, locked. *)
Definition open_inode (cwd : nat) (path : list Z) (omode : Z) : FSM (option nat) :=
  o ← (if negb (Z.land omode O_CREATE =? 0) then create cwd path T_FILE 0 0
       else
         o ← Dir.namei de cwd path;
         match o with
         | None => mret None
         | Some i =>
             _ ← Fs.ilock (Some i);
             ip ← Fs.iat i;
             if (i_type ip =? T_DIR) && negb (omode =? O_RDONLY) then _ ← Fs.iunlockput i; mret None
             else mret (Some i)
         end);
  match o with
  | None => mret None
  | Some i =>
      ip ← Fs.iat i;
      if (i_type ip =? T_DEVICE) && ((i_major ip <? 0) || (NDEV <=? i_major ip)) then
        _ ← Fs.iunlockput i; mret None
      else mret (Some i)
  end.
End bodies.

(** ** The calls *)
Section sysfile.
Context {S : Type} `{BufOps S} {M : Type} `{UserMem M} `{UserStr M}.
Context (V kend de : Z) (me : nat).
#[local] Instance the_inodes : InodeOps (fss S M) := fs_inode_ops de 0.

Record sysst := mkSys {
  sfile : fst_ (fss S M);
  ofile : list (option nat);    (* p->ofile *)
  pcwd : nat;                   (* p->cwd *)
  targs : list Z;               (* a0 .. a5 of p->trapframe *)
  psz : Z                       (* p->sz *)
}.

Definition set_sfile (f : fst_ (fss S M)) (s : sysst) : sysst := mkSys f (ofile s) (pcwd s) (targs s) (psz s).
Definition set_ofile (o : list (option nat)) (s : sysst) : sysst := mkSys (sfile s) o (pcwd s) (targs s) (psz s).
Definition set_pcwd (i : nat) (s : sysst) : sysst := mkSys (sfile s) (ofile s) i (targs s) (psz s).

Definition set_fs (x : fss S M) (s : sysst) : sysst := set_sfile (set_inodes x (sfile s)) s.
Definition umem (s : sysst) : M := fum (inodes (sfile s)).
Definition set_umem (m : M) (s : sysst) : sysst :=
  let x := inodes (sfile s) in set_fs (set_fmem (fkm x) m x) s.

Definition SY (A : Type) : Type := sysst → res (A * sysst).
#[global] Instance sy_ret : MRet SY := λ A a s, Ok (a, s).
#[global] Instance sy_bind : MBind SY := λ A B f m s, '(a, s) ← m s; f a s.

(** Run a computation of the file system, of the file layer. *)
Definition infs {A} (m : @FS S M A) : SY A :=
  λ s, '(a, x) ← m (inodes (sfile s)); Ok (a, set_fs x s).
Definition infile {A} (m : fst_ (fss S M) → res (A * fst_ (fss S M))) : SY A :=
  λ s, '(a, f) ← m (sfile s); Ok (a, set_sfile f s).
Definition infile_ (m : fst_ (fss S M) → res (fst_ (fss S M))) : SY unit :=
  λ s, f ← m (sfile s); Ok (tt, set_sfile f s).
Definition gets {A} (g : sysst → A) : SY A := λ s, Ok (g s, s).
Definition mods (g : sysst → sysst) : SY unit := λ s, Ok (tt, g s).

(** *** Arguments *)
Definition argraw (n : nat) : SY Z :=
  λ s, match targs s !! n with Some v => Ok (v, s) | None => Panic "argraw" end.
Definition argint (n : nat) : SY Z := v ← argraw n; mret (i32 v).
Definition argaddr (n : nat) : SY Z := argraw n.

(** The word read, if the call returns 0. *)
Definition fetchaddr (addr : Z) : SY (option Z) :=
  sz ← gets psz;
  if (sz <=? addr) || (sz <? u64 (addr + 8)) then mret None
  else
    um ← gets umem;
    let '(um, r, bs) := copyin um addr 8 in
    _ ← mods (set_umem um);
    if negb (r =? 0) then mret None else mret (Some (le_value bs)).

(** The characters before the first NUL. *)
Fixpoint until_nul (bs : list Z) : list Z :=
  match bs with b :: bs' => if b =? 0 then [] else b :: until_nul bs' | [] => [] end.

(** The string, if the call does not return -1; its length is the result. *)
Definition fetchstr (addr max : Z) : SY (option (list Z)) :=
  um ← gets umem;
  let '(r, bs) := ucopyinstr um addr max in
  if r <? 0 then mret None else mret (Some (until_nul bs)).

Definition argstr (n : nat) (max : Z) : SY (option (list Z)) := addr ← argaddr n; fetchstr addr max.

(** *** Descriptors *)
Definition argfd (n : nat) : SY (option (nat * nat)) :=
  fd ← argint n;
  if (fd <? 0) || (Z.of_nat NOFILES <=? fd) then mret None
  else
    fds ← gets ofile;
    match fds !! Z.to_nat fd with
    | Some (Some f) => mret (Some (Z.to_nat fd, f))
    | _ => mret None
    end.

Fixpoint fdalloc_scan (fds : list (option nat)) (fd : nat) : option nat :=
  match fds with
  | [] => None
  | None :: _ => Some fd
  | Some _ :: fds' => fdalloc_scan fds' (Datatypes.S fd)
  end.

Definition fdalloc (f : nat) : SY Z :=
  fds ← gets ofile;
  match fdalloc_scan fds 0 with
  | Some fd => _ ← mods (set_ofile (<[fd := Some f]> fds)); mret (Z.of_nat fd)
  | None => mret (-1)
  end.

Definition clear_fd (fd : nat) : SY unit := mods (λ s, set_ofile (<[fd := None]> (ofile s)) s).

Definition sys_dup : SY Z :=
  o ← argfd 0;
  match o with
  | None => mret (-1)
  | Some (_, f) =>
      fd ← fdalloc f;
      if fd <? 0 then mret (-1)
      else _ ← infile (filedup f); mret fd
  end.

Definition sys_read : SY fcall :=
  p ← argaddr 1;
  n ← argint 2;
  o ← argfd 0;
  match o with
  | None => mret (FcRet (-1))
  | Some (_, f) => infile (fileread f p n)
  end.

Definition sys_write : SY fcall :=
  p ← argaddr 1;
  n ← argint 2;
  o ← argfd 0;
  match o with
  | None => mret (FcRet (-1))
  | Some (_, f) => infile (filewrite f p n)
  end.

Definition sys_close : SY Z :=
  o ← argfd 0;
  match o with
  | None => mret (-1)
  | Some (fd, f) => _ ← clear_fd fd; _ ← infile_ (fileclose V kend (Some me) f); mret 0
  end.

(** [struct stat]; [pad] are the bytes of its padding, which the code does not
    set. *)
Definition stat_bytes (dev ino type nlink size : Z) (pad : list Z) : list Z :=
  le32 dev ++ le32 ino ++ le16 type ++ le16 nlink ++ pad ++ le32 size ++ le32 (size / 4294967296).

Definition filestat (f : nat) (addr : Z) (pad : list Z) : SY Z :=
  fl ← infile (λ x, f ← fget f x; Ok (f, x));
  match f_type fl with
  | FD_INODE | FD_DEVICE =>
      _ ← infs (Fs.ilock (Some (f_ip fl)));
      '(dev, ino, type, nlink, size) ← infs (fs_stati (f_ip fl));
      _ ← infs (Fs.iunlock (Some (f_ip fl)));
      um ← gets umem;
      let '(um, r) := copyout um addr (stat_bytes dev ino type nlink size pad) in
      _ ← mods (set_umem um);
      mret (if r <? 0 then -1 else 0)
  | _ => mret (-1)
  end.

Definition sys_fstat (pad : list Z) : SY Z :=
  st ← argaddr 1;
  o ← argfd 0;
  match o with
  | None => mret (-1)
  | Some (_, f) => filestat f st pad
  end.

(** *** Links and directories *)
Definition sys_link : SY Z :=
  old ← argstr 0 MAXPATH;
  match old with
  | None => mret (-1)
  | Some old =>
      new ← argstr 1 MAXPATH;
      match new with
      | None => mret (-1)
      | Some new => c ← gets pcwd; infs (sys_link_body de c old new)
      end
  end.

Definition sys_unlink : SY Z :=
  path ← argstr 0 MAXPATH;
  match path with
  | None => mret (-1)
  | Some path => c ← gets pcwd; infs (sys_unlink_body de c path)
  end.

Definition sys_mkdir : SY Z :=
  _ ← infs Fs.begin_op;
  path ← argstr 0 MAXPATH; c ← gets pcwd; infs (mk_body de c path T_DIR 0 0).

Definition sys_mknod : SY Z :=
  _ ← infs Fs.begin_op;
  major ← argint 1;
  minor ← argint 2;
  path ← argstr 0 MAXPATH;
  c ← gets pcwd;
  infs (mk_body de c path T_DEVICE (i16 major) (i16 minor)).

Definition sys_chdir : SY Z :=
  _ ← infs Fs.begin_op;
  path ← argstr 0 MAXPATH;
  c ← gets pcwd;
  '(r, i) ← infs (sys_chdir_body de c path);
  _ ← mods (set_pcwd i);
  mret r.

(** *** open *)
(** The stores into the new file. *)
Definition open_file (i : nat) (ip : inode) (omode : Z) (f : file) : file :=
  mkFile (if i_type ip =? T_DEVICE then FD_DEVICE else FD_INODE) (f_ref f)
    (b2z (Z.land omode O_WRONLY =? 0))
    (b2z (negb (Z.land omode O_WRONLY =? 0) || negb (Z.land omode O_RDWR =? 0)))
    (f_pipe f) i
    (if i_type ip =? T_DEVICE then f_off f else 0)
    (if i_type ip =? T_DEVICE then i_major ip else f_major f).

Definition sys_open : SY Z :=
  omode ← argint 1;
  path ← argstr 0 MAXPATH;
  match path with
  | None => mret (-1)
  | Some path =>
      _ ← infs Fs.begin_op;
      c ← gets pcwd;
      o ← infs (open_inode de c path omode);
      match o with
      | None => _ ← infs Fs.end_op; mret (-1)
      | Some i =>
          let fail (f : option nat) : SY Z :=
            _ ← match f with Some f => infile_ (fileclose V kend (Some me) f) | None => mret tt end;
            _ ← infs (Fs.iunlockput i);
            _ ← infs Fs.end_op;
            mret (-1) in
          fds ← infile (λ x, Ok (filealloc x));
          match fds with
          | None => fail None
          | Some f =>
              fd ← fdalloc f;
              if fd <? 0 then fail (Some f)
              else
                ip ← infs (Fs.iat i);
                _ ← infile_ (λ x, Ok (set_ftable (alter (open_file i ip omode) f (ftable x)) x));
                _ ← (if negb (Z.land omode O_TRUNC =? 0) && (i_type ip =? T_FILE)
                     then infs (itrunc i) else mret tt);
                _ ← infs (Fs.iunlock (Some i));
                _ ← infs Fs.end_op;
                mret fd
          end
      end
  end.

(** *** pipe *)
Definition sys_pipe : SY Z :=
  fdarray ← argaddr 0;
  '(r, o) ← infile (λ x, '(r, o, x) ← pipealloc V kend (Some me) x; Ok ((r, o), x));
  match o with
  | None => mret (-1)
  | Some (rf, wf) =>
      let close_both : SY Z :=
        _ ← infile_ (fileclose V kend (Some me) rf);
        _ ← infile_ (fileclose V kend (Some me) wf);
        mret (-1) in
      fd0 ← fdalloc rf;
      if fd0 <? 0 then close_both
      else
        fd1 ← fdalloc wf;
        if fd1 <? 0 then _ ← clear_fd (Z.to_nat fd0); close_both
        else
          um ← gets umem;
          let '(um, r0) := copyout um fdarray (le32 fd0) in
          _ ← mods (set_umem um);
          r1 ← (if r0 <? 0 then mret (-1)
                else
                  um ← gets umem;
                  let '(um, r1) := copyout um (u64 (fdarray + 4)) (le32 fd1) in
                  _ ← mods (set_umem um);
                  mret r1);
          if r1 <? 0 then
            _ ← clear_fd (Z.to_nat fd0);
            _ ← clear_fd (Z.to_nat fd1);
            close_both
          else mret 0
  end.
End sysfile.
Arguments sysst S M : clear implicits.
