(* ===== verification/SysSpec.v ===== *)
(** * The file system calls keep every count

    First the bodies of [Sysfile]: each returns with exactly the references it
    hands to its caller, on every branch, and keeps the widths of the inodes.

    Then [sinv base fbase s]: each open file has one reference per descriptor of
    the process and [fbase] more held elsewhere; each inode in the table has one
    reference per open file on it, one if it is the current directory, and
    [base] more held elsewhere; free files have no type, offsets and inode
    fields have their widths.  The calls of sysfile.c keep [sinv] on every
    path, so no call leaks or drops a reference to a file or an inode. *)
From S2P Require Import Prelude Riscv Bio Log LogSpec Buf Proc UserMem Pipe Mem CString Kalloc Uart Printf Console Fs FsLaws Dinode Dir Itable IRefs File Sysfile.

Section bodies.
Context {S : Type} `{BufOps S} {M : Type} `{UserMem M}.
Abbreviation st := (fss S M).
Abbreviation FSM := (@FS S M).

#[export] Instance keeps_add_nlink i d : Keeps (add_nlink i d : FSM _) (λ _, True).
Proof.
  intros s0. pose proof (stable_refl s0). unfold add_nlink. fkeep.
  intros Hs. destruct (H3 Hs) as (?&?&?&?&?&?&?). unfold inode_ok. simpl.
  split_and!; try done; try lia. apply i16_range.
Qed.

Context (F G : Prop) (de : Z).
Abbreviation REL := (rel F G).

Lemma rel_iset i ip ip' c (s : st) (Q : unit → st → Prop) :
  REL c s → itable s !! i = Some ip → key ip' = key ip → (inode_ok ip → inode_ok ip') →
  (∀ s', REL c s' → Q tt s') → fpart (Fs.iset i ip') s Q.
Proof.
  intros Hr Hi Hk Hok HQ. apply HQ. destruct Hr as [Hf Hg]. split.
  - intros f. apply iset_fs_ok; [auto|]. apply Hok.
    by eapply (Forall_lookup_1 inode_ok) in Hi; [|apply Hf, f].
  - intros g. rewrite ikeys_iset, Hk. rewrite list_insert_id; [auto|].
    unfold ikeys. by rewrite list_lookup_fmap, Hi.
Qed.

#[export] Instance keeps_isdirempty_loop f dp off : Keeps (isdirempty_loop de f dp off : FSM _) (λ _, True).
Proof.
  revert off. induction f as [|f IH]; intros off s0; pose proof (stable_refl s0);
    cbn [isdirempty_loop]; fkeep.
Qed.
#[export] Instance keeps_isdirempty dp : Keeps (isdirempty de dp : FSM _) (λ _, True).
Proof. intros s0. pose proof (stable_refl s0). unfold isdirempty. fkeep. Qed.

Lemma rel_namei cwd path c (s : st) :
  REL c s → (G → cbnd 2147483645 c ∧ 0 < c cwd) →
  fpart (Dir.namei de cwd path) s (λ o s', REL (handed o c) s').
Proof.
  intros Hr Hb. unfold Dir.namei. apply fpart_bind. eapply fpart_mono; [by apply rel_namex|].
  by intros [o n] s1 Hx.
Qed.

(** Call a function specified with [handed]. *)
Lemma rel_seq {A B} (m : FSM A) (k : A → FSM B) s Q R :
  fpart m s Q → (∀ a s', Q a s' → fpart (k a) s' R) → fpart (m ≫= k) s R.
Proof. intros Hm Hk. apply fpart_bind. by eapply fpart_mono. Qed.

Lemma fpart_and {A} (m : FSM A) s Q R : fpart m s Q → fpart m s R → fpart m s (λ a s', Q a s' ∧ R a s').
Proof. unfold fpart. destruct (m s) as [[]| |]; auto. Qed.

Lemma fpart_any {A B} (m : FSM A) (k : A → FSM B) s Q :
  (∀ a s', fpart (k a) s' Q) → fpart (m ≫= k) s Q.
Proof. intros Hk. apply fpart_bind. unfold fpart at 1. destruct (m s) as [[]| |]; auto. Qed.

(** The offset returned by [dirlookup] is a [uint]. *)
Lemma dirlookup_off dp name (s : st) :
  fpart (dirlookup de dp name) s (λ o _, match o with Some (_, off) => uint_ok off | None => True end).
Proof.
  assert (∀ f off (s : st), uint_ok off → fpart (dirlookup_loop de f dp name off) s
    (λ o _, match o with Some (_, off) => uint_ok off | None => True end)) as Hl.
  { induction f as [|f IH]; intros off s' Ho; cbn [dirlookup_loop]; apply fpart_any; intros ip s1;
      (destruct (off <? i_size ip); [|done]); [done|].
    apply fpart_any. intros r s2. destruct (negb (r =? DIRENT)); [done|].
    apply fpart_any. intros k s3. destruct (de_inum de k =? 0); [apply IH, u32_range|].
    destruct (namecmp name (de_name de k) =? 0); [|apply IH, u32_range].
    by apply fpart_any. }
  unfold dirlookup. apply fpart_any. intros ip s1. destruct (negb _); [done|]. apply Hl, uint_ok_0.
Qed.

Lemma set_i_nlink_0 ip : inode_ok ip → inode_ok (set_i_nlink 0 ip).
Proof. intros (?&?&?&?&?&?&?). unfold inode_ok, short_ok in *. simpl. split_and!; try done; lia. Qed.
Lemma set_ids_ok ip a b : inode_ok ip → short_ok a → short_ok b →
  inode_ok (mkInode (i_dev ip) (i_inum ip) (i_ref ip) (i_lock ip) (i_valid ip) (i_type ip) a b 1
              (i_size ip) (i_addrs ip)).
Proof. intros (?&?&?&?&?&?&?) ??. unfold inode_ok, short_ok in *. simpl. split_and!; try done; lia. Qed.

(** Giving back the reference to [i] from the counts [c0]. *)
Lemma rel_unlockput i c0 c (s : st) (Q : unit → st → Prop) :
  REL c0 s → (∀ k, c0 k = cadd i c k) → (G → cbnd 2147483646 c) → (∀ s', REL c s' → Q tt s') →
  fpart (Fs.iunlockput i) s Q.
Proof. intros Hr He Hb HQ. eapply rel_iunlockput; [by eapply rel_ext|done|done]. Qed.
Lemma rel_put i c0 c (s : st) (Q : unit → st → Prop) :
  REL c0 s → (∀ k, c0 k = cadd i c k) → (G → cbnd 2147483646 c) → (∀ s', REL c s' → Q tt s') →
  fpart (Fs.iput i) s Q.
Proof. intros Hr He Hb HQ. eapply rel_iput; [by eapply rel_ext|done|done]. Qed.

(** Counts that leave room for the few references of one call. *)
Definition room (c : nat → Z) : Prop := ∀ i, 0 <= c i <= 2147483000.
End bodies.

(** [room] after at most two more references; equal counts. *)
Ltac rroom :=
  match goal with
  | Hb : ?G → room _, Hc : ?G → 0 < _ |- ?G → _ ∧ 0 < _ =>
      let g := fresh in let k := fresh in
      intros g; split;
      [intros k; specialize (Hb g k)|specialize (Hc g)]; unfold cadd; repeat case_decide; lia
  | Hb : ?G → room _ |- ?G → cbnd _ _ =>
      let g := fresh in let k := fresh in
      intros g k; specialize (Hb g k); unfold cadd; repeat case_decide; lia
  end.
Ltac rcount := let k := fresh in intros k; unfold cadd; lia.

(** Release [i], leaving the counts [c]. *)
Ltac rdrop c := first [eapply (rel_unlockput _ _ _ _ c)|eapply (rel_put _ _ _ _ c)]; [eassumption|try done; rcount|rroom|intros ? ?].

(** A call of [dirlink], which keeps the counts. *)
Ltac rdirlink :=
  eapply fpart_mono; [eapply rel_dirlink; [eassumption|rroom]|];
  let r := fresh in let s := fresh in let Hx := fresh in
  intros r s Hx; cbv beta in Hx; repeat rstep.

Section calls.
Context {S : Type} `{BufOps S} {M : Type} `{UserMem M}.
Abbreviation st := (fss S M).
Abbreviation FSM := (@FS S M).
Context (F G : Prop) (de : Z).
Abbreviation REL := (rel F G).

Lemma rel_link cwd old new c (s : st) :
  REL c s → (G → room c) → (G → 0 < c cwd) →
  fpart (sys_link_body de cwd old new) s (λ _ s', REL c s').
Proof.
  intros Hr Hb Hc. unfold sys_link_body. repeat rstep.
  eapply fpart_mono; [apply rel_namei; [done|rroom]|].
  intros [i|] s1 H1'; simpl in H1'; repeat rstep; [rdrop c; by repeat rstep| |done].
  assert (∀ s0 : st, REL (cadd i c) s0 → fpart (link_bad i) s0 (λ _ s', REL c s')) as Hbad.
  { intros s0 Hs0. unfold link_bad. repeat rstep. rdrop c. by repeat rstep. }
  eapply fpart_mono; [apply (rel_namex F G de cwd new true [] (cadd i c)); [done|rroom]|].
  intros [[d|] name] s3 H3'; simpl in H3'; [|by apply Hbad].
  repeat rstep; try (rdrop (cadd i c); first [by apply Hbad|rstep; rdrop c; by repeat rstep]).
  eapply fpart_mono; [eapply rel_dirlink; [eassumption|rroom]|]. intros r s4 H4'. cbv beta in H4'.
  repeat rstep; rdrop (cadd i c); first [by apply Hbad|rstep; rdrop c; by repeat rstep].
Qed.

Lemma rel_unlink cwd path c (s : st) :
  REL c s → (G → room c) → (G → 0 < c cwd) →
  fpart (sys_unlink_body de cwd path) s (λ _ s', REL c s').
Proof.
  intros Hr Hb Hc. unfold sys_unlink_body. repeat rstep.
  eapply fpart_mono; [apply (rel_namex F G de cwd path true [] c); [done|rroom]|].
  intros [[d|] name] s1 H1'; simpl in H1'; repeat rstep; try done.
  { rdrop c. by repeat rstep. }
  eapply fpart_mono; [apply fpart_and; [apply dirlookup_off|eapply rel_dirlookup; [eassumption|rroom]]|].
  intros [[i off]|] s2 [Hoff H2']; simpl in H2'; [|repeat rstep; rdrop c; by repeat rstep].
  pose proof (keeps_writei d 0 de off DIRENT Hoff : Keeps (Fs.writei d 0 de off DIRENT : FSM _) _).
  repeat rstep; first [rdrop (cadd d c)|rdrop (cadd i c)]; repeat rstep; rdrop c; by repeat rstep.
Qed.

(** [create] hands out one reference, to the inode it returns. *)
Lemma rel_create cwd path type major minor c (s : st) :
  REL c s → (G → room c) → (G → 0 < c cwd) → short_ok major → short_ok minor →
  fpart (create de cwd path type major minor) s (λ o s', REL (handed o c) s').
Proof.
  intros Hr Hb Hc Hma Hmi. unfold create. apply fpart_bind.
  eapply fpart_mono; [apply (rel_namex F G de cwd path true [] c); [done|rroom]|].
  intros [[d|] name] s1 H1'; simpl in H1'; repeat rstep; try done.
  eapply fpart_mono; [eapply rel_dirlookup; [eassumption|rroom]|].
  intros [[i off]|] s2 H2'; simpl in H2'; repeat rstep.
  { rdrop (cadd i c). repeat rstep; [done|]. rdrop c. by repeat rstep. }
  eapply fpart_mono; [eapply rel_ialloc; [eassumption|rroom]|].
  intros [i|] s3 H3'; simpl in H3'; repeat rstep; [|rdrop c; by repeat rstep].
  assert (∀ s0 : st, REL (cadd i (cadd d c)) s0 →
    fpart (create_fail i d) s0 (λ o s', REL (handed o c) s')) as Hfail.
  { intros s0 Hs0. unfold create_fail. repeat rstep. eapply rel_iset; [eassumption|eassumption|done|by apply set_i_nlink_0|].
    intros s4 H4'. repeat rstep. rdrop (cadd d c). repeat rstep. rdrop c. by repeat rstep. }
  eapply rel_iset; [eassumption|eassumption|done|intros Hok; by apply set_ids_ok|].
  intros s4 H4'. apply fpart_bind. repeat rstep.
  all: repeat first [by apply Hfail|rdirlink; try discriminate; try (by apply Hfail)
                    |rdrop (cadd i c); by repeat rstep].
Qed.

Lemma rel_mk cwd path type major minor c (s : st) :
  REL c s → (G → room c) → (G → 0 < c cwd) → short_ok major → short_ok minor →
  fpart (mk_body de cwd path type major minor) s (λ _ s', REL c s').
Proof.
  intros Hr Hb Hc Hma Hmi. unfold mk_body. apply fpart_bind. repeat rstep.
  - eapply fpart_mono; [eapply rel_create; eassumption|]. intros [i|] s2 H2'; simpl in H2'; repeat rstep; [|done].
    rdrop c. by repeat rstep.
  - done.
Qed.

(** [sys_chdir] trades the reference to the old directory for the new one. *)
Lemma rel_chdir cwd path c (s : st) :
  REL (cadd cwd c) s → (G → room c) →
  fpart (sys_chdir_body de cwd path) s (λ r s', REL (cadd r.2 c) s').
Proof.
  intros Hr Hb. unfold sys_chdir_body. apply fpart_bind. repeat rstep; [|done].
  eapply fpart_mono.
  { eapply rel_namei; [eassumption|]. intros g. pose proof (Hb g) as Hc.
    split; [intros k|]; [specialize (Hc k)|specialize (Hc cwd)]; unfold cadd; repeat case_decide; done || lia. }
  intros [i|] s2 H2'; simpl in H2'; repeat rstep; [| |done].
  - rdrop (cadd cwd c). by repeat rstep.
  - rdrop (cadd i c). by repeat rstep.
Qed.

Lemma rel_open_inode cwd path omode c (s : st) :
  REL c s → (G → room c) → (G → 0 < c cwd) →
  fpart (open_inode de cwd path omode) s (λ o s', REL (handed o c) s').
Proof.
  intros Hr Hb Hc. unfold open_inode. apply fpart_bind.
  assert (∀ o (s' : st), REL (handed o c) s' → fpart
    match o with
    | None => mret None
    | Some i =>
        ip ← Fs.iat i;
        if (i_type ip =? T_DEVICE) && ((i_major ip <? 0) || (NDEV <=? i_major ip)) then
          _ ← Fs.iunlockput i; mret None
        else mret (Some i)
    end s' (λ o s', REL (handed o c) s')) as Hk.
  { intros [i|] s' Hs'; simpl in Hs'; repeat rstep; try done. rdrop c. by repeat rstep. }
  repeat rstep.
  - eapply fpart_mono; [eapply rel_create; try eassumption; unfold short_ok; lia|]. intros o s1. apply Hk.
  - eapply fpart_mono; [eapply rel_namei; [eassumption|rroom]|].
    intros [i|] s1 H1'; simpl in H1'; repeat rstep; try done; try (by apply (Hk None)); try (by apply (Hk (Some i))).
    all: rdrop c; by repeat rstep.
Qed.
End calls.

(** Descriptors of file [i]; open files on inode [i]. *)
Definition is_fd (i : nat) (o : option nat) : bool := bool_decide (o = Some i).
Definition on_inode (i : nat) (f : file) : bool :=
  (0 <? f_ref f) && bool_decide (f_type f = FD_INODE ∨ f_type f = FD_DEVICE) && bool_decide (f_ip f = i).

(** The references to inode [i]. *)
Definition iuses (base : nat → Z) (cwd : nat) (t : list file) (i : nat) : Z :=
  base i + b2z (bool_decide (cwd = i)) + countb (on_inode i) t.

Definition file_ok (fbase : nat → Z) (fds : list (option nat)) (i : nat) (f : file) : Prop :=
  f_ref f = fbase i + countb (is_fd i) fds ∧ (f_ref f = 0 → f_type f = FD_NONE) ∧ uint_ok (f_off f).

Section sysspec.
Context {S : Type} `{BufOps S} {M : Type} `{UserMem M} `{UserStr M}.
Context (V kend de : Z) (me : nat).
#[local] Instance sys_inodes : InodeOps (fss S M) := the_inodes de.
Abbreviation st := (sysst S M).
Abbreviation SYM := (@SY S M).

Record sinv (base fbase : nat → Z) (s : st) : Prop := {
  si_fds : length (ofile s) = NOFILES;
  si_tab : length (ftable (sfile s)) = NFILE;
  si_file i f : ftable (sfile s) !! i = Some f → file_ok fbase (ofile s) i f;
  si_range i : (NFILE <= i)%nat → countb (is_fd i) (ofile s) = 0;
  si_fs : fs_ok (inodes (sfile s));
  si_refs : krefs (iuses base (pcwd s) (ftable (sfile s))) (ikeys (inodes (sfile s)))
}.

Definition loans (n : Z) (b : nat → Z) : Prop := ∀ i, 0 <= b i <= n.

(** Partial correctness of a call. *)
Definition spart {A} (m : SYM A) (s : st) (Q : A → st → Prop) : Prop :=
  match m s with Ok (a, s') => Q a s' | _ => True end.

Lemma spart_bind {A B} (m : SYM A) (k : A → SYM B) s Q :
  spart m s (λ a s', spart (k a) s' Q) → spart (m ≫= k) s Q.
Proof. unfold spart, mbind, sy_bind. by destruct (m s) as [[]| |]. Qed.
Lemma spart_ret {A} (a : A) s (Q : A → st → Prop) : Q a s → spart (mret a) s Q.
Proof. done. Qed.
Lemma spart_mono {A} (m : SYM A) s (Q R : A → st → Prop) :
  spart m s Q → (∀ a s', Q a s' → R a s') → spart m s R.
Proof. unfold spart. destruct (m s) as [[]| |]; auto. Qed.
Lemma spart_gets {A} (g : st → A) s (Q : A → st → Prop) : Q (g s) s → spart (gets g) s Q.
Proof. done. Qed.
Lemma spart_mods (g : st → st) s (Q : unit → st → Prop) : Q tt (g s) → spart (mods g) s Q.
Proof. done. Qed.

Lemma iuses_handed o base cwd t i : iuses (handed o base) cwd t i = handed o (iuses base cwd t) i.
Proof. destruct o; simpl; [|done]. unfold iuses, cadd. lia. Qed.

Lemma iuses_room base cwd t : loans 2147480000 base → length t = NFILE → room (iuses base cwd t).
Proof.
  intros Hb Ht i. specialize (Hb i). unfold iuses. pose proof (countb_range (on_inode i) t) as Hc.
  pose proof (b2z_range (bool_decide (cwd = i))). unfold zlen in Hc. rewrite Ht in Hc.
  change (Z.of_nat NFILE) with 100 in Hc. lia.
Qed.

Lemma iuses_cwd base cwd t : (∀ i, 0 <= base i) → 0 < iuses base cwd t cwd.
Proof.
  intros Hb. specialize (Hb cwd). unfold iuses. rewrite bool_decide_eq_true_2 by done. simpl.
  pose proof (countb_range (on_inode cwd) t). lia.
Qed.

(** The file system part of a state. *)
Lemma sinv_rel base fbase s : sinv base fbase s →
  rel True True (iuses base (pcwd s) (ftable (sfile s))) (inodes (sfile s)).
Proof. intros [H1' H2' H3' H4' H5' H6']. by split. Qed.

Lemma sinv_set_fs base base' fbase s x :
  sinv base fbase s → rel True True (iuses base' (pcwd s) (ftable (sfile s))) x → sinv base' fbase (set_fs x s).
Proof. intros [H1' H2' H3' H4' H5' H6'] [Hf Hg]. split; try done; simpl; [by apply Hf|by apply Hg]. Qed.

(** A computation of the file system that hands out references. *)
Lemma sys_infs {A} (m : @FS S M A) (o : A → option nat) base fbase s (Q : A → st → Prop) :
  sinv base fbase s →
  fpart m (inodes (sfile s)) (λ a x, rel True True (handed (o a) (iuses base (pcwd s) (ftable (sfile s)))) x) →
  (∀ a x, sinv (handed (o a) base) fbase (set_fs x s) → Q a (set_fs x s)) → spart (infs m) s Q.
Proof.
  intros Hs Hm HQ. unfold spart, infs, fpart in *.
  destruct (m (inodes (sfile s))) as [[a x]| |]; simpl; [|done|done]. apply HQ.
  eapply sinv_set_fs; [done|]. eapply rel_ext; [|exact Hm]. intros i. symmetry. apply iuses_handed.
Qed.

Lemma sys_keeps {A} (m : @FS S M A) R base fbase s (Q : A → st → Prop) :
  Keeps m R → sinv base fbase s → (∀ a x, sinv base fbase (set_fs x s) → Q a (set_fs x s)) →
  spart (infs m) s Q.
Proof.
  intros Hm Hs HQ. eapply (sys_infs m (λ _, None)); [done| |exact HQ].
  eapply rel_call; [done|by eapply sinv_rel|]. by intros.
Qed.

(** Giving back an inode reference that was lent out. *)
Lemma sys_put {A} (m : @FS S M A) i base fbase s (Q : A → st → Prop) :
  (∀ c (x : fss S M), rel True True (cadd i c) x → (True → cbnd 2147483646 c) →
     fpart m x (λ _ x', rel True True c x')) →
  sinv (cadd i base) fbase s → loans 2147480000 base →
  (∀ a x, sinv base fbase (set_fs x s) → Q a (set_fs x s)) → spart (infs m) s Q.
Proof.
  intros Hm Hs Hb HQ. unfold spart, infs.
  assert (fpart m (inodes (sfile s)) (λ _ x', rel True True (iuses base (pcwd s) (ftable (sfile s))) x')) as Hp.
  { apply Hm.
    - eapply rel_ext; [|by eapply sinv_rel]. intros k. apply (iuses_handed (Some i)).
    - intros _. pose proof (iuses_room base (pcwd s) (ftable (sfile s)) Hb (si_tab _ _ _ Hs)) as Hr.
      intros k. specialize (Hr k). lia. }
  unfold fpart in Hp. destruct (m (inodes (sfile s))) as [[a x]| |]; simpl; [|done|done]. apply HQ.
  by eapply sinv_set_fs.
Qed.

(** *** Descriptors *)
Definition cdrop (i : nat) (c : nat → Z) : nat → Z := λ j, c j - (if decide (i = j) then 1 else 0).

Lemma sinv_fext base fbase fbase' s : (∀ i, fbase i = fbase' i) → sinv base fbase s → sinv base fbase' s.
Proof.
  intros He [H1' H2' H3' H4' H5' H6']. split; try done. intros i f Hf.
  destruct (H3' i f Hf) as (? & ? & ?). split; [|done]. by rewrite <-He.
Qed.

Lemma is_fd_iff i o : b2z (is_fd i o) = if decide (o = Some i) then 1 else 0.
Proof. unfold is_fd. case_bool_decide; by case_decide. Qed.

Lemma sinv_set_fd base fbase s fd o o' fbase' :
  sinv base fbase s → ofile s !! fd = Some o →
  (∀ i, fbase' i = fbase i + b2z (is_fd i o) - b2z (is_fd i o')) →
  (∀ i, o' = Some i → (i < NFILE)%nat) →
  sinv base fbase' (set_ofile (<[fd := o']> (ofile s)) s).
Proof.
  intros [H1' H2' H3' H4' H5' H6'] Ho Hb Hi. split; try done; simpl.
  - by rewrite length_insert.
  - intros i f Hf. destruct (H3' i f Hf) as (Hr & ? & ?). split; [|done].
    rewrite (countb_insert _ _ _ _ _ Ho), Hb. lia.
  - intros i Hge. rewrite (countb_insert _ _ _ _ _ Ho), H4' by done.
    assert (o' ≠ Some i) as Hn by (intros ->; specialize (Hi i eq_refl); lia).
    assert (o ≠ Some i) as Hn'.
    { intros ->. specialize (H4' i Hge). pose proof (countb_insert (is_fd i) (ofile s) fd (Some i) None Ho) as Hc.
      pose proof (countb_range (is_fd i) (<[fd := None]> (ofile s))).
      rewrite !is_fd_iff, decide_True, decide_False in Hc by done. lia. }
    rewrite !is_fd_iff, !decide_False by done. lia.
Qed.

Lemma fdalloc_scan_spec fds : ∀ k fd, fdalloc_scan fds k = Some fd →
  (k <= fd)%nat ∧ fds !! (fd - k)%nat = Some None ∧
  ∀ j, (j < fd - k)%nat → ∃ f, fds !! j = Some (Some f).
Proof.
  induction fds as [|[f|] fds IH]; intros k fd; simpl; [done| |].
  - intros Hs. destruct (IH _ _ Hs) as (Hle & Hl & Hall).
    replace (fd - k)%nat with (Datatypes.S (fd - Datatypes.S k)) by lia.
    split_and!; [lia|done|]. intros [|j] Hj; [by exists f|]. apply Hall. lia.
  - intros [= <-]. rewrite Nat.sub_diag. split_and!; [lia|done|]. intros; lia.
Qed.

Lemma sys_fdalloc f base fbase s (Q : Z → st → Prop) :
  sinv base fbase s → (f < NFILE)%nat →
  (∀ fd : nat, ofile s !! fd = Some None →
    sinv base (cdrop f fbase) (set_ofile (<[fd := Some f]> (ofile s)) s) →
    Q (Z.of_nat fd) (set_ofile (<[fd := Some f]> (ofile s)) s)) →
  Q (-1) s → spart (fdalloc f) s Q.
Proof.
  intros Hs Hf HQ Hn. unfold fdalloc. apply spart_bind, spart_gets.
  destruct (fdalloc_scan (ofile s) 0) as [fd|] eqn:Hscan; [|done].
  apply fdalloc_scan_spec in Hscan as (_ & Hl & _). rewrite Nat.sub_0_r in Hl.
  apply spart_bind, spart_mods, spart_ret. apply HQ; [done|].
  eapply sinv_set_fd; [done|exact Hl| |by intros i [= <-]].
  intros i. rewrite !is_fd_iff, decide_False by done. unfold cdrop.
  destruct (decide (f = i)) as [->|]; [rewrite decide_True by done; lia|].
  rewrite decide_False by congruence. lia.
Qed.

Lemma sys_clear_fd fd f base fbase s (Q : unit → st → Prop) :
  sinv base fbase s → ofile s !! fd = Some (Some f) →
  (sinv base (cadd f fbase) (set_ofile (<[fd := None]> (ofile s)) s) →
     Q tt (set_ofile (<[fd := None]> (ofile s)) s)) →
  spart (clear_fd fd) s Q.
Proof.
  intros Hs Ho HQ. apply spart_mods, HQ. eapply sinv_set_fd; [done|exact Ho| |done].
  intros i. rewrite !is_fd_iff, (decide_False (P := None = Some i)) by done. unfold cadd.
  destruct (decide (f = i)) as [->|]; [rewrite decide_True by done; lia|].
  rewrite decide_False by congruence. lia.
Qed.

Lemma sys_argraw n s (Q : Z → st → Prop) : (∀ v, Q v s) → spart (argraw n) s Q.
Proof. intros HQ. unfold spart, argraw. destruct (targs s !! n); simpl; auto. Qed.
Lemma sys_argint n s (Q : Z → st → Prop) : (∀ v, Q (i32 v) s) → spart (argint n) s Q.
Proof. intros HQ. unfold argint. apply spart_bind, sys_argraw. intros v. apply spart_ret, HQ. Qed.

Lemma sys_argfd n s (Q : option (nat * nat) → st → Prop) :
  (∀ fd f, ofile s !! fd = Some (Some f) → Q (Some (fd, f)) s) → Q None s → spart (argfd n) s Q.
Proof.
  intros HQ Hn. unfold argfd. apply spart_bind, sys_argint. intros v.
  destruct (_ || _); [done|]. apply spart_bind, spart_gets.
  destruct (ofile s !! Z.to_nat (i32 v)) as [[f|]|] eqn:Ho; apply spart_ret; auto.
Qed.

Lemma sys_argstr n max s (Q : option (list Z) → st → Prop) : (∀ o, Q o s) → spart (argstr n max) s Q.
Proof.
  intros HQ. unfold argstr, argaddr, fetchstr. apply spart_bind, sys_argraw. intros a.
  apply spart_bind, spart_gets. destruct (ucopyinstr _ _ _) as [r bs]. destruct (r <? 0); apply spart_ret, HQ.
Qed.

(** A descriptor names a file with a reference. *)
Lemma sinv_fd base fbase s fd f :
  sinv base fbase s → ofile s !! fd = Some (Some f) → (f < NFILE)%nat ∧ 1 <= countb (is_fd f) (ofile s).
Proof.
  intros Hs Ho. assert (1 <= countb (is_fd f) (ofile s)) as Hc.
  { pose proof (countb_insert (is_fd f) (ofile s) fd (Some f) None Ho) as Hc.
    pose proof (countb_range (is_fd f) (<[fd := None]> (ofile s))).
    rewrite !is_fd_iff, decide_True, decide_False in Hc by done. lia. }
  split; [|done]. destruct (decide (f < NFILE)%nat) as [|Hge]; [done|].
  rewrite (si_range _ _ _ Hs) in Hc by lia. lia.
Qed.

(** *** Files *)
Lemma sinv_set_file base fbase base' fbase' s k f g y :
  sinv base fbase s → ftable (sfile s) !! k = Some f →
  ftable y = <[k := g]> (ftable (sfile s)) → inodes y = inodes (sfile s) →
  file_ok fbase' (ofile s) k g → (∀ i, i ≠ k → fbase' i = fbase i) →
  (∀ i, base' i = base i + b2z (on_inode i f) - b2z (on_inode i g)) →
  sinv base' fbase' (set_sfile y s).
Proof.
  intros [H1' H2' H3' H4' H5' H6'] Hk Ht Hy Hg Hfb Hb. split; simpl; rewrite ?Ht, ?Hy; try done.
  - by rewrite length_insert.
  - intros i f' Hf'. apply list_lookup_insert_Some in Hf' as [(<- & <- & _)|[Hne Hf']]; [done|].
    unfold file_ok. rewrite Hfb by done. by apply H3'.
  - eapply krefs_ext; [|exact H6']. intros i. unfold iuses.
    rewrite (countb_insert _ _ _ _ _ Hk), Hb. lia.
Qed.

(** Other parts of the file layer may change freely. *)
Lemma sinv_same base fbase s y :
  sinv base fbase s → ftable y = ftable (sfile s) → inodes y = inodes (sfile s) → sinv base fbase (set_sfile y s).
Proof. intros [H1' H2' H3' H4' H5' H6'] Ht Hy. split; simpl; rewrite ?Ht, ?Hy; done. Qed.

Definition same_tab (x y : fst_ (fss S M)) : Prop := ftable y = ftable x ∧ inodes y = inodes x.

Lemma kfree_page_same pa x y : kfree_page kend pa x = Ok y → same_tab x y.
Proof. unfold kfree_page. intros Hk. res_inv. done. Qed.

Lemma pipeclose_same o pa w x y : pipeclose V kend o pa w x = Ok y → same_tab x y.
Proof.
  unfold pipeclose. destruct (pipes x !! pa) as [pi|]; [|done]. intros Hc.
  destruct (if negb (w =? 0) then _ else _) as [pi' ps]. destruct (_ && _); [|by simplify_eq].
  res_inv. destruct (4 <=? V); res_inv.
  - apply kfree_page_same in H2 as [H21 H22], H3 as [H31 H32]. split; simpl in *; congruence.
  - apply kfree_page_same in H3 as [H31 H32]. split; simpl in *; congruence.
Qed.

Lemma on_inode_closed i f : on_inode i (set_ftype FD_NONE (set_ref 0 f)) = false.
Proof. done. Qed.

Lemma on_inode_ref i f r : 0 < r → 0 < f_ref f → on_inode i (set_ref r f) = on_inode i f.
Proof. intros. unfold on_inode. simpl. by rewrite !(proj2 (Z.ltb_lt _ _)) by done. Qed.

Lemma on_inode_type i f : f_type f = FD_NONE ∨ f_type f = FD_PIPE → on_inode i f = false.
Proof.
  intros Ht. unfold on_inode. rewrite bool_decide_eq_false_2; [by rewrite andb_false_r|].
  destruct Ht as [-> | ->]; naive_solver.
Qed.

Lemma on_inode_live i f : 0 < f_ref f → f_type f = FD_INODE ∨ f_type f = FD_DEVICE →
  b2z (on_inode i f) = if decide (f_ip f = i) then 1 else 0.
Proof.
  intros Hr Ht. unfold on_inode. rewrite (proj2 (Z.ltb_lt _ _)), bool_decide_eq_true_2 by done. simpl.
  case_bool_decide; by case_decide.
Qed.

(** The transaction in which [fileclose] drops its inode. *)
Lemma close_inode_rel i c (x : fss S M) :
  rel True True (cadd i c) x → (True → cbnd 2147483646 c) →
  fpart (_ ← Fs.begin_op; _ ← Fs.iput i; Fs.end_op) x (λ _ x', rel True True c x').
Proof.
  intros Hr Hb. repeat rstep. eapply rel_iput; [eassumption|done|]. intros x' Hx'. repeat rstep. done.
Qed.

Lemma close_inode_case g base base1 fbase s y (Q : unit → st → Prop) :
  0 < f_ref g → f_type g = FD_INODE ∨ f_type g = FD_DEVICE →
  (∀ i, base1 i = base i + b2z (on_inode i g)) → sinv base1 fbase (set_sfile y s) → loans 2147480000 base →
  (∀ y, sinv base fbase (set_sfile y s) → Q tt (set_sfile y s)) →
  match (n ← op_begin (inodes y); n ← File.iput (f_ip g) n; n ← op_end n; Ok (set_inodes n y)) ≫=
        (λ f0, Ok (tt, set_sfile f0 s)) with
  | Ok (a, s') => Q a s'
  | _ => True
  end.
Proof.
  intros Hr Ht Hb1 Hs Hb HQ.
  assert (spart (infs (_ ← Fs.begin_op; _ ← Fs.iput (f_ip g); Fs.end_op)) (set_sfile y s)
    (λ _ s', ∃ y', s' = set_sfile y' s ∧ sinv base fbase s' ∧ y' = set_inodes (inodes y') y)) as Hp.
  { eapply (sys_put _ (f_ip g) base fbase).
    - intros c x. apply close_inode_rel.
    - destruct Hs as [A1 A2 A3 A4 A5 A6]. split; try done. eapply krefs_ext; [|exact A6].
      intros i. unfold iuses. rewrite Hb1, on_inode_live by done. unfold cadd. lia.
    - done.
    - intros _ x Hx. by exists (set_inodes x y). }
  unfold spart, infs in Hp. simpl in Hp. unfold mbind, fs_bind in Hp.
  cbn [op_begin op_end File.iput sys_inodes the_inodes fs_inode_ops]. unfold run_.
  destruct (Fs.begin_op (inodes y)) as [[[] x1]| |]; simpl in *; [|done|done].
  destruct (Fs.iput (f_ip g) x1) as [[[] x2]| |]; simpl in *; [|done|done].
  destruct (Fs.end_op x2) as [[[] x3]| |]; simpl in *; [|done|done].
  destruct Hp as (y' & He & Hs' & _). unfold set_fs in He. simpl in He.
  assert (sinv base fbase (set_sfile (set_inodes x3 y) s)) as Hs3; [|by apply HQ].
  change (set_sfile (set_inodes x3 y) s) with (set_sfile (set_inodes x3 (sfile (set_sfile y s))) (set_sfile y s)).
  done.
Qed.

(** [fileclose] of a file whose reference is the caller's. *)
Lemma sys_fileclose f base fbase s (Q : unit → st → Prop) :
  sinv base (cadd f fbase) s → loans 2147480000 base → loans 2147480000 fbase →
  (∀ y, sinv base fbase (set_sfile y s) → Q tt (set_sfile y s)) →
  spart (infile_ (fileclose V kend (Some me) f)) s Q.
Proof.
  intros Hs Hb Hfb HQ. unfold spart, infile_, fileclose, fileclose_begin, fget.
  destruct (ftable (sfile s) !! f) as [g|] eqn:Hg; simpl; [|done].
  destruct (Z.ltb_spec (f_ref g) 1); [done|].
  destruct (si_file _ _ _ Hs f g Hg) as (Hr & Hz & Ho). unfold cadd in Hr. rewrite decide_True in Hr by done.
  assert (∀ i, i ≠ f → fbase i = cadd f fbase i) as Hother.
  { intros i Hi. unfold cadd. rewrite decide_False by done. lia. }
  destruct (Z.ltb_spec 0 (f_ref g - 1)); simpl.
  - apply HQ. eapply (sinv_set_file base (cadd f fbase) base fbase); [done|done|done|done| |done|].
    + split_and!; simpl; [lia|lia|done].
    + intros i. rewrite on_inode_ref by lia. lia.
  - set (y := set_ftable _ _).
    set (base1 := λ i, base i + b2z (on_inode i g)).
    assert (sinv base1 fbase (set_sfile y s)) as H1'.
    { eapply (sinv_set_file base (cadd f fbase) base1 fbase); [done|done|done|done| |done|].
      - split_and!; simpl; [lia|done|done].
      - intros i. rewrite on_inode_closed. simpl. unfold base1. lia. }
    assert (∀ y', same_tab y y' → (∀ i, on_inode i g = false) → sinv base fbase (set_sfile y' s)) as Hsame.
    { intros y' [Ht Hi'] Hno. assert (sinv base fbase (set_sfile y s)) as Hsy.
      { destruct H1' as [A1 A2 A3 A4 A5 A6]. split; try done. eapply krefs_ext; [|exact A6].
        intros i. unfold iuses, base1. rewrite Hno. simpl. lia. }
      by apply (sinv_same _ _ _ y' Hsy). }
    unfold fileclose_end. simpl. destruct (f_type g) eqn:Hty.
    + simpl. apply HQ, Hsame; [done|]. intros i. apply on_inode_type. auto.
    + destruct (pipeclose V kend _ _ _ _) as [y'| |] eqn:Hp; simpl; [|done|done].
      apply HQ, Hsame; [by eapply pipeclose_same|]. intros i. apply on_inode_type. auto.
    + apply (close_inode_case g base base1 fbase s y); auto; lia.
    + apply (close_inode_case g base base1 fbase s y); auto; lia.
Qed.
End sysspec.
