(* ===== verification/SysFiles.v ===== *)
(** * The file layer under the invariant of the calls

    What [filealloc], [filedup], [fileclose], [pipealloc], [fileread],
    [filewrite] and the stores of [sys_open] do to [sinv]. *)
From S2P Require Import Prelude Riscv Bio Log LogSpec Buf Proc UserMem Pipe Mem CString Kalloc Uart Printf Console Fs FsLaws Dinode Dir Itable IRefs File FileInv Sysfile SysSpec.

Lemma loans_nonneg n b i : loans n b → 0 <= b i.
Proof. intros Hb. apply Hb. Qed.
Lemma loans_cadd n m i b : n + 1 <= m → loans n b → loans m (cadd i b).
Proof. intros Hm Hb j. specialize (Hb j). unfold cadd. case_decide; lia. Qed.
Lemma loans_mono n m b : n <= m → loans n b → loans m b.
Proof. intros Hm Hb j. specialize (Hb j). lia. Qed.

Lemma cdrop_cadd i c j : cdrop i (cadd i c) j = c j.
Proof. unfold cdrop, cadd. lia. Qed.
Lemma cadd_cdrop i c j : cadd i (cdrop i c) j = c j.
Proof. unfold cdrop, cadd. lia. Qed.

Section sysfiles.
Context {S : Type} `{BufOps S} {M : Type} `{UserMem M} `{UserStr M}.
Context (V kend de : Z) (me : nat).
#[local] Instance file_inodes : InodeOps (fss S M) := the_inodes de.
Abbreviation st := (sysst S M).
Abbreviation ff := (fst_ (fss S M)).
Abbreviation SYM := (@SY S M).
Abbreviation FINV := (λ base fbase (x : ff) (s : st), sinv base fbase (set_sfile x s)).

(** A referenced entry of the table that is not on an inode. *)
Definition fresh_at (x : ff) (f : nat) : Prop :=
  (f < NFILE)%nat ∧ ∃ g, ftable x !! f = Some g ∧ 1 <= f_ref g ∧ (f_type g = FD_NONE ∨ f_type g = FD_PIPE).

Lemma finv_len base fbase x s f g : FINV base fbase x s → ftable x !! f = Some g → (f < NFILE)%nat.
Proof. intros Hs Hf. rewrite <-(si_tab _ _ _ Hs). by eapply lookup_lt_Some. Qed.

(** Change of the counts held elsewhere. *)
Lemma sinv_ext base base' fbase fbase' (s : st) :
  (∀ i, base i = base' i) → (∀ i, fbase i = fbase' i) → sinv base fbase s → sinv base' fbase' s.
Proof.
  intros Hb Hf Hs. eapply sinv_fext; [exact Hf|]. destruct Hs as [A1 A2 A3 A4 A5 A6]. split; try done.
  eapply krefs_ext; [|exact A6]. intros i. unfold iuses. by rewrite Hb.
Qed.

Lemma filealloc_step base fbase x s f y :
  FINV base fbase x s → filealloc x = (Some f, y) → FINV base (cadd f fbase) y s ∧ fresh_at y f.
Proof.
  intros Hs. unfold filealloc. destruct (free_slot (ftable x) 0) as [j|] eqn:Hj; [|done]. intros [= <- <-].
  destruct (free_slot_spec _ _ _ Hj) as (k & g & -> & Hg & Hr). rewrite Nat.add_0_l in *.
  destruct (si_file _ _ _ Hs k g Hg) as (Hc & Hty & Ho). specialize (Hty Hr).
  assert (k < NFILE)%nat as Hk by exact (finv_len _ _ _ _ _ _ Hs Hg). rewrite (alter_insert _ _ _ g) by done. split.
  - eapply (sinv_set_file base fbase base (cadd k fbase) (set_sfile x s)); [exact Hs|exact Hg|done|done| | |].
    + unfold file_ok, cadd. rewrite decide_True by done. simpl in *. split_and!; [lia|done|done].
    + intros i Hi. unfold cadd. rewrite decide_False by done. lia.
    + intros i. rewrite !on_inode_type by auto. lia.
  - split; [done|]. eexists. simpl. rewrite list_lookup_insert_eq; [split_and!; simpl; [done|done|by left]|]. by rewrite (si_tab _ _ _ Hs : length (ftable x) = _).
Qed.

Lemma filealloc_keeps (x : ff) f y k : filealloc x = (Some f, y) → fresh_at x k → fresh_at y k.
Proof.
  unfold filealloc. destruct (free_slot (ftable x) 0) as [j|] eqn:Hj; [|done]. intros [= <- <-] [Hk (g & Hg & Hr & Ht)].
  split; [done|]. simpl. destruct (decide (j = k)) as [->|Hne].
  - exists (set_ref 1 g). split_and!; simpl; [|lia|done]. by rewrite (alter_insert _ _ _ g), list_lookup_insert_eq by first [done|eapply lookup_lt_Some; eassumption].
  - exists g. split_and!; [|done|done]. by rewrite list_lookup_alter_ne.
Qed.

Lemma filealloc_fail (x y : ff) : filealloc x = (None, y) → y = x.
Proof. intros Hf. by apply filealloc_none in Hf as [-> _]. Qed.

Lemma fileclose_step base fbase x s f y :
  FINV base (cadd f fbase) x s → loans 2147480000 base → loans 2147480000 fbase →
  fileclose V kend (Some me) f x = Ok y → FINV base fbase y s.
Proof.
  intros Hs Hb Hf Hc.
  pose proof (sys_fileclose V kend de me f base fbase (set_sfile x s)
    (λ _ s', sinv base fbase s') Hs Hb Hf (λ _ Hy, Hy)) as Hp.
  unfold spart, infile_ in Hp. simpl in Hp. unfold file_inodes in Hc.
  change (sys_inodes de) with (the_inodes (S := S) (M := M) de) in Hp. by rewrite Hc in Hp.
Qed.

Lemma sys_filedup f base fbase s (Q : nat → st → Prop) :
  sinv base (cdrop f fbase) s → loans 2147480000 fbase →
  (∀ y, sinv base fbase (set_sfile y s) → Q f (set_sfile y s)) → spart (infile (filedup f)) s Q.
Proof.
  intros Hs Hf HQ. unfold spart, infile, filedup, fget.
  destruct (ftable (sfile s) !! f) as [g|] eqn:Hg; simpl; [|done].
  destruct (Z.ltb_spec (f_ref g) 1); [done|]. simpl. apply HQ.
  destruct (si_file _ _ _ Hs f g Hg) as (Hr & Hty & Ho). unfold cdrop in Hr. rewrite decide_True in Hr by done.
  pose proof (countb_range (is_fd f) (ofile s)) as Hc. unfold zlen in Hc. rewrite (si_fds _ _ _ Hs) in Hc.
  change (Z.of_nat NOFILES) with 16 in Hc. specialize (Hf f).
  eapply (sinv_set_file base (cdrop f fbase) base fbase); [exact Hs|exact Hg|done|done| | |].
  - unfold file_ok. simpl. rewrite i32_small by lia. split_and!; [lia|lia|done].
  - intros i Hi. unfold cdrop. rewrite decide_False by done. lia.
  - intros i. rewrite i32_small, on_inode_ref by lia. lia.
Qed.

Lemma finv_same base fbase x y s : same_tab x y → FINV base fbase x s → FINV base fbase y s.
Proof. intros [Ht Hi] Hs. by apply (sinv_same _ _ _ y Hs). Qed.

(** The stores of [pipealloc] into a file. *)
Lemma pipe_end_step base fbase x s f r w pi :
  FINV base fbase x s → fresh_at x f →
  FINV base fbase (set_ftable (alter (set_pipe_end r w pi) f (ftable x)) x) s ∧
  ∀ k, fresh_at x k → fresh_at (set_ftable (alter (set_pipe_end r w pi) f (ftable x)) x) k.
Proof.
  intros Hs [Hf (g & Hg & Hr & Ht)]. rewrite (alter_insert _ _ _ g) by done. split.
  - destruct (si_file _ _ _ Hs f g Hg) as (Hc & _ & Ho).
    eapply (sinv_set_file base fbase base fbase (set_sfile x s)); [exact Hs|exact Hg|done|done| |done|].
    + unfold file_ok. simpl. split_and!; [done|lia|done].
    + intros i. rewrite !on_inode_type by auto. lia.
  - intros k [Hk (g' & Hg' & Hr' & Ht')]. split; [done|]. simpl. destruct (decide (f = k)) as [->|Hne].
    + eexists. rewrite list_lookup_insert_eq by by eapply lookup_lt_Some. split_and!; [done|by simplify_eq/=|by right].
    + exists g'. by rewrite list_lookup_insert_ne.
Qed.

Lemma pipealloc_bad_step base fbase x s pi f0 f1 r o y :
  FINV base (handed f1 (handed f0 fbase)) x s → loans 2147480000 base → loans 2147479999 fbase →
  pipealloc_bad V kend (Some me) pi f0 f1 x = Ok (r, o, y) → o = None ∧ FINV base fbase y s.
Proof.
  intros Hs Hb Hf. unfold pipealloc_bad. intros Hp. res_inv. split; [done|].
  assert (FINV base (handed f0 (handed f1 fbase)) x0 s) as Hs0.
  { eapply sinv_ext; [done| |eapply finv_same; [|exact Hs]].
    - intros i. destruct f0, f1; simpl; try done. apply cadd_comm.
    - destruct (negb (pi =? 0)); [by eapply kfree_page_same|by simplify_eq]. }
  assert (FINV base (handed f1 fbase) x1 s) as Hs1.
  { destruct f0; simpl in *; [|by simplify_eq]. eapply fileclose_step; [exact Hs0|done| |done].
    destruct f1; simpl; [by eapply loans_cadd; [|done]|by eapply loans_mono; [|done]]. }
  destruct f1; simpl in *; [|by simplify_eq].
  eapply fileclose_step; [exact Hs1|done| |done]. by eapply loans_mono; [|done].
Qed.

(** The counts after [pipealloc]. *)
Definition two_more (o : option (nat * nat)) (c : nat → Z) : nat → Z :=
  match o with Some (rf, wf) => cadd rf (cadd wf c) | None => c end.

Lemma pipealloc_step base fbase x s r o y :
  FINV base fbase x s → loans 2147480000 base → loans 2147479999 fbase →
  pipealloc V kend (Some me) x = Ok (r, o, y) →
  FINV base (two_more o fbase) y s ∧
  ∀ rf wf, o = Some (rf, wf) → (rf < NFILE)%nat ∧ (wf < NFILE)%nat.
Proof.
  intros Hs Hb Hf. unfold pipealloc.
  destruct (filealloc x) as [[f0|] x1] eqn:H1'; [|apply filealloc_fail in H1' as ->; intros Hp;
    by apply (pipealloc_bad_step base fbase x s) in Hp as [-> ?]].
  destruct (filealloc_step _ _ _ _ _ _ Hs H1') as [Hs1 Hf0].
  destruct (filealloc x1) as [[f1|] x2] eqn:H2'; [|apply filealloc_fail in H2' as ->; intros Hp;
    by apply (pipealloc_bad_step base fbase x1 s) in Hp as [-> ?]].
  destruct (filealloc_step _ _ _ _ _ _ Hs1 H2') as [Hs2 Hf1].
  apply (filealloc_keeps _ _ _ f0 H2') in Hf0.
  assert (∀ k, same_tab x2 (set_kheap k x2)) as Hk by done.
  destruct (kalloc (kheap x2)) as [pi k].
  assert (∀ x' data, same_tab x2 x' → Ok (0, Some (f0, f1),
    (λ s, set_ftable (alter (set_pipe_end 0 1 pi) f1 (ftable s)) s)
      ((λ s, set_ftable (alter (set_pipe_end 1 0 pi) f0 (ftable s)) s)
         (set_pipes (<[pi := new_pipe V pi data]> (pipes x')) x'))) = Ok (r, o, y) →
    FINV base (two_more o fbase) y s ∧ ∀ rf wf, o = Some (rf, wf) → (rf < NFILE)%nat ∧ (wf < NFILE)%nat) as Hfin.
  { intros x' data Hx' [= <- <- <-]. split; [|intros rf wf [= <- <-]; split; [apply Hf0|apply Hf1]].
    set (x3 := set_pipes _ x').
    assert (same_tab x2 x3) as Hx3 by done.
    assert (FINV base (two_more (Some (f0, f1)) fbase) x3 s) as Hs3.
    { eapply finv_same; [exact Hx3|]. eapply sinv_ext; [done| |exact Hs2]. apply cadd_comm. }
    destruct (pipe_end_step _ _ _ _ f0 1 0 pi Hs3) as [Hs4 Hk4].
    { destruct Hf0 as [? Hf0]. split; [done|]. by rewrite (proj1 Hx3). }
    assert (fresh_at x3 f1) as Hf1'.
    { destruct Hf1 as [? Hf1]. split; [done|]. by rewrite (proj1 Hx3). }
    by destruct (pipe_end_step _ _ _ _ f1 0 1 pi Hs4 (Hk4 _ Hf1')) as [Hs5 _]. }
  assert (∀ p x', same_tab x2 x' → pipealloc_bad V kend (Some me) p (Some f0) (Some f1) x' = Ok (r, o, y) →
    FINV base (two_more o fbase) y s ∧ ∀ rf wf, o = Some (rf, wf) → (rf < NFILE)%nat ∧ (wf < NFILE)%nat) as Hbad.
  { intros p x' Hx' Hp. apply (pipealloc_bad_step base fbase x' s) in Hp as [-> ?]; [done| |done|done].
    eapply finv_same; [exact Hx'|exact Hs2]. }
  destruct (pi =? 0); [by apply Hbad|]. destruct (4 <=? V); [|by apply (Hfin (set_kheap k x2) 0)].
  cbn [kheap set_kheap]. destruct (kalloc k) as [data k']. destruct (data =? 0);
    [|by apply (Hfin (set_kheap k' (set_kheap k x2)) data)].
  intros Hp. res_inv. eapply Hbad; [|eassumption].
  match goal with Hk' : kfree_page _ _ _ = Ok _ |- _ => by apply (kfree_page_same _ _ _ _ Hk') end.
Qed.

(** The stores of [sys_open]: the file takes over the reference to the inode. *)
Lemma open_store_step base fbase x s f i ip omode g :
  FINV (cadd i base) fbase x s → ftable x !! f = Some g → 1 <= f_ref g →
  f_type g = FD_NONE ∨ f_type g = FD_PIPE →
  FINV base fbase (set_ftable (alter (open_file i ip omode) f (ftable x)) x) s.
Proof.
  intros Hs Hg Hr Ht. rewrite (alter_insert _ _ _ g) by done.
  destruct (si_file _ _ _ Hs f g Hg) as (Hc & _ & Ho).
  eapply (sinv_set_file (cadd i base) fbase base fbase (set_sfile x s)); [exact Hs|exact Hg|done|done| |done|].
  - unfold file_ok. simpl. split_and!; [done|lia|]. destruct (i_type ip =? T_DEVICE); [done|apply uint_ok_0].
  - intros k. rewrite on_inode_type by auto. rewrite on_inode_live; simpl.
    + unfold cadd. lia.
    + lia.
    + destruct (i_type ip =? T_DEVICE); auto.
Qed.

(** *** read and write *)
Lemma keeps_stable {A} (m : @FS S M A) R x a x' : Keeps m R → m x = Ok (a, x') → stable x x'.
Proof. intros Hk Hm. pose proof (Hk x) as Hp. unfold fpart in Hp. rewrite Hm in Hp. apply Hp. Qed.

Lemma keeps_run {A} (m : @FS S M A) R x x' : Keeps m R → run_ m x = Ok x' → stable x x'.
Proof. intros Hk Hm. apply res_bind_ok in Hm as ([a y] & Hm & [= <-]). by eapply keeps_stable. Qed.

Lemma keeps_begin : Keeps (Fs.begin_op : @FS S M _) (λ _, True).
Proof. unfold Fs.begin_op. typeclasses eauto. Qed.
Lemma keeps_end : Keeps (Fs.end_op : @FS S M _) (λ _, True).
Proof. unfold Fs.end_op. typeclasses eauto. Qed.

Lemma finv_stable base fbase x s t i :
  FINV base fbase x s → FINV base fbase (set_ftable t x) s → stable (inodes x) i →
  FINV base fbase (set_inodes i (set_ftable t x)) s.
Proof.
  intros _ Hs Hi. exact (sinv_set_fs base base fbase _ i Hs (rel_stable True True _ _ _ Hi (sinv_rel _ _ _ Hs))).
Qed.

Lemma fpart_iat i c (x : fss S M) :
  rel True True c x → fpart (Fs.iat i) x (λ _ x', rel True True c x').
Proof.
  intros Hr. unfold fpart, Fs.iat, mbind, fs_bind, getf. simpl. by destruct (itable x !! i).
Qed.

Lemma set_off_step base fbase x s f g off :
  FINV base fbase x s → ftable x !! f = Some g → uint_ok off →
  FINV base fbase (set_ftable (<[f := set_off off g]> (ftable x)) x) s.
Proof.
  intros Hs Hg Hoff. destruct (si_file _ _ _ Hs f g Hg) as (Hc & Ht & _).
  eapply (sinv_set_file base fbase base fbase (set_sfile x s)); [exact Hs|exact Hg|done|done| |done|].
  - by split_and!.
  - intros k. change (on_inode k (set_off off g)) with (on_inode k g). lia.
Qed.

Lemma fileread_step base fbase x s f a n c y :
  FINV base fbase x s → fileread f a n x = Ok (c, y) → FINV base fbase y s.
Proof.
  intros Hs. unfold fileread, fget. destruct (ftable x !! f) as [g|] eqn:Hg; simpl; [|done].
  destruct (f_readable g =? 0); [by intros [= <- <-]|].
  destruct (f_type g); [done|by intros [= <- <-]| |by destruct (_ || _); intros [= <- <-]].
  intros Hr. apply res_bind_ok in Hr as (x1 & H1' & Hr). apply res_bind_ok in Hr as ([r x2] & H2' & Hr).
  apply res_bind_ok in Hr as (x3 & H3' & Hr). injection Hr as <- <-.
  assert (stable (inodes x) x3) as Hst.
  { eapply stable_trans; [exact (keeps_run _ _ _ _ (keeps_ilock (Some (f_ip g))) H1')|].
    eapply stable_trans; [exact (keeps_stable _ _ _ _ _ (keeps_readi (f_ip g) 1 a (f_off g) n) H2')|].
    exact (keeps_run _ _ _ _ (keeps_iunlock (Some (f_ip g))) H3'). }
  apply finv_stable; [exact Hs| |done]. destruct (0 <? _); [|by destruct x].
  apply set_off_step; [exact Hs|done|apply u32_range].
Qed.

Lemma filewrite_loop_stable ip a n : ∀ fu i off (x y : fss S M) k off', uint_ok off →
  filewrite_loop fu ip a n i off x = Ok (k, off', y) → stable x y ∧ uint_ok off'.
Proof.
  induction fu as [|fu IH]; intros i off x y k off' Hoff; cbn [filewrite_loop];
    (destruct (i <? n); [|by intros [= <- <- <-]]); [done|].
  intros Hw. apply res_bind_ok in Hw as (x1 & H1' & Hw). apply res_bind_ok in Hw as (x2 & H2' & Hw).
  apply res_bind_ok in Hw as ([r x3] & H3' & Hw). apply res_bind_ok in Hw as (x4 & H4' & Hw).
  apply res_bind_ok in Hw as (x5 & H5' & Hw).
  set (off1 := if 0 <? r then u32 (off + r) else off) in *.
  assert (uint_ok off1) as Ho by (unfold off1; destruct (0 <? r); [apply u32_range|done]).
  assert (stable x x5) as Hst.
  { eapply stable_trans; [exact (keeps_run _ _ _ _ keeps_begin H1')|].
    eapply stable_trans; [exact (keeps_run _ _ _ _ (keeps_ilock (Some ip)) H2')|].
    eapply stable_trans; [exact (keeps_stable _ _ _ _ _ (keeps_writei ip 1 _ off _ Hoff) H3')|].
    eapply stable_trans; [exact (keeps_run _ _ _ _ (keeps_iunlock (Some ip)) H4')|].
    exact (keeps_run _ _ _ _ keeps_end H5'). }
  destruct (negb (r =? _)) in Hw; [by injection Hw as <- <- <-|].
  destruct (IH _ _ _ _ _ _ Ho Hw). split; [by eapply stable_trans|done].
Qed.

Lemma filewrite_step base fbase x s f a n c y :
  FINV base fbase x s → filewrite f a n x = Ok (c, y) → FINV base fbase y s.
Proof.
  intros Hs. unfold filewrite, fget. destruct (ftable x !! f) as [g|] eqn:Hg; simpl; [|done].
  destruct (f_writable g =? 0); [by intros [= <- <-]|].
  destruct (f_type g); [done|by intros [= <- <-]| |by destruct (_ || _); intros [= <- <-]].
  intros Hr. apply res_bind_ok in Hr as ([[k off] x1] & Hl & Hr). injection Hr as <- <-.
  apply filewrite_loop_stable in Hl as [Hst Ho]; [|by apply (si_file _ _ _ Hs f g Hg)].
  apply finv_stable; [exact Hs| |done]. by apply set_off_step.
Qed.
End sysfiles.
