(* ===== verification/SysCalls.v ===== *)
(** * The file system calls as a whole

    Each call of [Sysfile] keeps [sinv] on every path, so any sequence of calls
    keeps the reference counts of files and inodes equal to the references that
    exist. *)
From S2P Require Import Prelude Riscv Bio Log LogSpec Buf Proc UserMem Pipe Mem CString Kalloc Uart Printf Console Fs FsLaws Dinode Dir Itable IRefs File FileInv Sysfile SysSpec SysFiles.

Section calls.
Context {S : Type} `{BufOps S} {M : Type} `{UserMem M} `{UserStr M}.
Context (V kend de : Z) (me : nat).
#[local] Instance call_inodes : InodeOps (fss S M) := the_inodes de.
Abbreviation st := (sysst S M).
Abbreviation ff := (fst_ (fss S M)).
Abbreviation SYM := (@SY S M).

Lemma sys_infile {A} (m : ff → res (A * ff)) s (Q : A → st → Prop) :
  (∀ a y, m (sfile s) = Ok (a, y) → Q a (set_sfile y s)) → spart (infile m) s Q.
Proof.
  intros HQ. unfold spart, infile. destruct (m (sfile s)) as [[a y]| |]; simpl; [by apply HQ|done|done].
Qed.

Lemma sys_infile_ (m : ff → res ff) s (Q : unit → st → Prop) :
  (∀ y, m (sfile s) = Ok y → Q tt (set_sfile y s)) → spart (infile_ m) s Q.
Proof.
  intros HQ. unfold spart, infile_. destruct (m (sfile s)) as [y| |]; simpl; [by apply HQ|done|done].
Qed.

Lemma sinv_self base fbase (s : st) : sinv base fbase s → sinv base fbase (set_sfile (sfile s) s).
Proof. by destruct s. Qed.

Lemma sinv_umem base fbase (s : st) m : sinv base fbase s → sinv base fbase (set_umem m s).
Proof. intros Hs. eapply sinv_set_fs; [exact Hs|exact (sinv_rel _ _ _ Hs)]. Qed.

Definition keeps_call {A} (m : SYM A) : Prop := ∀ base fbase s,
  loans 1000000 base → loans 1000000 fbase → sinv base fbase s → spart m s (λ _ s', sinv base fbase s').

Lemma call_dup : keeps_call sys_dup.
Proof.
  intros base fbase s Hb Hf Hs. unfold sys_dup. apply spart_bind, sys_argfd; [|done].
  intros fd f Ho. destruct (sinv_fd _ _ _ _ _ Hs Ho) as [Hlt _].
  apply spart_bind, (sys_fdalloc f base fbase); [done|done| |done].
  intros k _ Hs1. destruct (Z.ltb_spec (Z.of_nat k) 0); [lia|].
  apply spart_bind, (sys_filedup f base fbase); [done|by eapply loans_mono; [|done]|]. by intros y Hy.
Qed.

Lemma call_read : keeps_call (sys_read de).
Proof.
  intros base fbase s Hb Hf Hs. unfold sys_read, argaddr.
  apply spart_bind, sys_argraw. intros p. apply spart_bind, sys_argint. intros n.
  apply spart_bind, sys_argfd; [|done]. intros fd f _. apply sys_infile. intros c y.
  by apply fileread_step, sinv_self.
Qed.

Lemma call_write : keeps_call (sys_write de).
Proof.
  intros base fbase s Hb Hf Hs. unfold sys_write, argaddr.
  apply spart_bind, sys_argraw. intros p. apply spart_bind, sys_argint. intros n.
  apply spart_bind, sys_argfd; [|done]. intros fd f _. apply sys_infile. intros c y.
  by apply filewrite_step, sinv_self.
Qed.

Lemma call_close : keeps_call (sys_close V kend de me).
Proof.
  intros base fbase s Hb Hf Hs. unfold sys_close. apply spart_bind, sys_argfd; [|done].
  intros fd f Ho. apply spart_bind, (sys_clear_fd fd f base fbase); [done|done|]. intros Hs1.
  apply spart_bind, (sys_fileclose V kend de me f base fbase); [done|by eapply loans_mono; [|done]..|].
  by intros y Hy.
Qed.

Lemma call_fstat pad : keeps_call (sys_fstat pad).
Proof.
  intros base fbase s Hb Hf Hs. unfold sys_fstat, argaddr. apply spart_bind, sys_argraw. intros p.
  apply spart_bind, sys_argfd; [|done]. intros fd f _. unfold filestat, fget.
  apply spart_bind, sys_infile. intros g y Hg. res_inv.
  destruct (ftable (sfile s) !! f) as [g'|]; simplify_eq. apply sinv_self in Hs.
  destruct (f_type g); try done;
    (apply spart_bind; eapply sys_keeps; [typeclasses eauto|exact Hs|]; intros _ x1 Hs1;
     apply spart_bind; eapply sys_keeps; [typeclasses eauto|exact Hs1|]; intros [[[[dev ino] ty] nl] sz] x2 Hs2;
     apply spart_bind; eapply sys_keeps; [typeclasses eauto|exact Hs2|]; intros _ x3 Hs3;
     apply spart_bind, spart_gets; destruct (copyout _ _ _) as [um r];
     by apply spart_bind, spart_mods, sinv_umem).
Qed.

(** *** The calls with a path *)
Lemma sinv_room base fbase (s : st) : sinv base fbase s → loans 1000000 base →
  (True → room (iuses base (pcwd s) (ftable (sfile s)))) ∧ (True → 0 < iuses base (pcwd s) (ftable (sfile s)) (pcwd s)).
Proof.
  intros Hs Hb. split; intros _.
  - apply iuses_room; [by eapply loans_mono; [|done]|by apply (si_tab _ _ _ Hs)].
  - apply iuses_cwd. intros i. apply Hb.
Qed.

Lemma sys_body {A} (m : @FS S M A) base fbase s (Q : A → st → Prop) :
  sinv base fbase s → loans 1000000 base →
  (∀ c x, rel True True c x → (True → room c) → (True → 0 < c (pcwd s)) →
     fpart m x (λ _ x', rel True True c x')) →
  (∀ a x, sinv base fbase (set_fs x s) → Q a (set_fs x s)) → spart (infs m) s Q.
Proof.
  intros Hs Hb Hm HQ. destruct (sinv_room _ _ _ Hs Hb) as [Hr Hc].
  eapply (sys_infs m (λ _, None)); [exact Hs| |exact HQ]. apply Hm; [by eapply sinv_rel|done|done].
Qed.

Lemma call_link : keeps_call (sys_link de).
Proof.
  intros base fbase s Hb Hf Hs. unfold sys_link. apply spart_bind, sys_argstr. intros [old|]; [|done].
  apply spart_bind, sys_argstr. intros [new|]; [|done]. apply spart_bind, spart_gets.
  eapply sys_body; [exact Hs|done| |by intros]. intros c x. apply rel_link.
Qed.

Lemma call_unlink : keeps_call (sys_unlink de).
Proof.
  intros base fbase s Hb Hf Hs. unfold sys_unlink. apply spart_bind, sys_argstr. intros [path|]; [|done].
  apply spart_bind, spart_gets. eapply sys_body; [exact Hs|done| |by intros]. intros c x. apply rel_unlink.
Qed.

Lemma call_mkdir : keeps_call (sys_mkdir de).
Proof.
  intros base fbase s0 Hb Hf Hs0. unfold sys_mkdir.
  apply spart_bind. eapply sys_keeps; [apply keeps_begin|exact Hs0|]. intros _ x0 Hs.
  set (s := set_fs x0 s0) in *. clearbody s. clear Hs0. apply spart_bind, sys_argstr. intros path.
  apply spart_bind, spart_gets. eapply sys_body; [exact Hs|done| |by intros].
  intros c x ???. apply rel_mk; unfold short_ok; try done; lia.
Qed.

Lemma call_mknod : keeps_call (sys_mknod de).
Proof.
  intros base fbase s0 Hb Hf Hs0. unfold sys_mknod.
  apply spart_bind. eapply sys_keeps; [apply keeps_begin|exact Hs0|]. intros _ x0 Hs.
  set (s := set_fs x0 s0) in *. clearbody s. clear Hs0. apply spart_bind, sys_argint. intros major.
  apply spart_bind, sys_argint. intros minor. apply spart_bind, sys_argstr. intros path.
  apply spart_bind, spart_gets. eapply sys_body; [exact Hs|done| |by intros].
  intros c x ???. apply rel_mk; try done; apply i16_range.
Qed.

Lemma call_chdir : keeps_call (sys_chdir de).
Proof.
  intros base fbase s0 Hb Hf Hs0. unfold sys_chdir.
  apply spart_bind. eapply sys_keeps; [apply keeps_begin|exact Hs0|]. intros _ x0 Hs.
  set (s := set_fs x0 s0) in *. clearbody s. clear Hs0. apply spart_bind, sys_argstr. intros path.
  apply spart_bind, spart_gets. apply spart_bind.
  set (c := λ i, base i + countb (on_inode i) (ftable (sfile s))).
  assert (∀ d i, iuses base d (ftable (sfile s)) i = cadd d c i) as Hu.
  { intros d i. unfold iuses, cadd, c. case_bool_decide as Hd; case_decide; simpl; lia || done. }
  assert (fpart (sys_chdir_body de (pcwd s) path) (inodes (sfile s))
    (λ r x, rel True True (cadd r.2 c) x)) as Hp.
  { apply rel_chdir; [eapply rel_ext; [apply Hu|by eapply sinv_rel]|].
    intros _ i. destruct (sinv_room _ _ _ Hs Hb) as [Hr _]. specialize (Hr I i). specialize (Hb i).
    rewrite Hu in Hr. pose proof (countb_range (on_inode i) (ftable (sfile s))).
    unfold cadd, c in *. case_decide; lia. }
  unfold spart, infs, fpart in *. destruct (sys_chdir_body _ _ _ _) as [[[r i] x]| |]; simpl in *; [|done|done].
  destruct Hp as [Hok Hk]. destruct Hs as [A1 A2 A3 A4 A5 A6]. split; try done; simpl; [by apply Hok|].
  eapply krefs_ext; [|by apply Hk]. intros k. simpl. by rewrite Hu.
Qed.

(** *** open *)
Lemma open_done i base fbase s (r : Z) :
  sinv (cadd i base) fbase s → loans 1000000 base →
  spart (_ ← infs (Fs.iunlockput i : @FS S M _); _ ← infs Fs.end_op; mret r : SYM Z) s
    (λ _ s', sinv base fbase s').
Proof.
  intros Hs Hb. apply spart_bind. eapply (sys_put _ i base fbase); [|exact Hs|by eapply loans_mono; [|done]|].
  - intros c x Hr Hc. eapply rel_iunlockput; [exact Hr|done|by intros].
  - intros _ x Hx. apply spart_bind. eapply sys_keeps; [apply keeps_end|exact Hx|]. by intros.
Qed.

Lemma call_open : keeps_call (sys_open V kend de me).
Proof.
  intros base fbase s Hb Hf Hs. unfold sys_open. apply spart_bind, sys_argint. intros omode.
  apply spart_bind, sys_argstr. intros [path|]; [|done].
  apply spart_bind. eapply sys_keeps; [apply keeps_begin|exact Hs|]. intros _ x1 Hs1.
  apply spart_bind, spart_gets. destruct (sinv_room _ _ _ Hs1 Hb) as [Hr Hc].
  apply spart_bind. eapply (sys_infs _ (λ o, o)); [exact Hs1| |].
  { eapply rel_open_inode; [by eapply sinv_rel|done|done]. }
  intros [i|] x2 Hs2; simpl in Hs2; cycle 1.
  { apply spart_bind. eapply sys_keeps; [apply keeps_end|exact Hs2|]. by intros. }
  set (s2 := set_fs x2 _) in *. clearbody s2. apply spart_bind, sys_infile. intros [f|] y Hy; injection Hy as Hy; cycle 1.
  { apply filealloc_fail in Hy as ->. apply spart_bind, spart_ret. apply open_done; [by apply sinv_self|done]. }
  apply sinv_self in Hs2. destruct (filealloc_step _ _ _ _ _ _ Hs2 Hy) as [Hs3 [Hlt (g & Hg & Hrg & Htg)]].
  apply spart_bind, (sys_fdalloc f (cadd i base) (cadd f fbase)); [exact Hs3|done| |].
  - intros fd _ Hs4. destruct (Z.ltb_spec (Z.of_nat fd) 0); [lia|].
    apply (sinv_ext _ (cadd i base) _ fbase) in Hs4; [|done|apply cdrop_cadd].
    apply spart_bind. eapply (sys_infs _ (λ _, None)); [exact Hs4| |].
    { apply fpart_iat. by eapply sinv_rel. }
    intros ip x5 Hs5. apply spart_bind, sys_infile_. intros y6 [= <-].
    pose proof (open_store_step base fbase (set_inodes x5 y) (set_ofile (<[fd := Some f]> (ofile s2)) s2)
      f i ip (i32 omode) g Hs5 Hg Hrg Htg) as Hs6. clear Hs5.
    apply spart_bind. destruct (negb _ && _).
    + eapply sys_keeps; [apply keeps_itrunc|exact Hs6|]. intros _ x7 Hs7.
      apply spart_bind. eapply sys_keeps; [apply keeps_iunlock|exact Hs7|]. intros _ x8 Hs8.
      apply spart_bind. eapply sys_keeps; [apply keeps_end|exact Hs8|]. by intros.
    + apply spart_ret. apply spart_bind. eapply sys_keeps; [apply keeps_iunlock|exact Hs6|]. intros _ x8 Hs8.
      apply spart_bind. eapply sys_keeps; [apply keeps_end|exact Hs8|]. by intros.
  - apply spart_bind, (sys_fileclose V kend de me f (cadd i base) fbase); [exact Hs3|by eapply loans_cadd; [|done]|by eapply loans_mono; [|done]|].
    intros y7 Hs7. by apply open_done.
Qed.

(** *** pipe *)
Lemma close_two rf wf base fbase s : sinv base (cadd rf (cadd wf fbase)) s →
  loans 1000000 base → loans 1000000 fbase →
  spart (_ ← infile_ (fileclose V kend (Some me) rf); _ ← infile_ (fileclose V kend (Some me) wf); mret (-1) : SYM Z)
    s (λ _ s', sinv base fbase s').
Proof.
  intros Hs Hb Hf. apply spart_bind, (sys_fileclose V kend de me rf base (cadd wf fbase));
    [exact Hs|by eapply loans_mono; [|done]|by eapply loans_cadd; [|done]|]. intros y1 Hs1.
  apply spart_bind, (sys_fileclose V kend de me wf base fbase); [exact Hs1|by eapply loans_mono; [|done]..|].
  by intros y2 Hs2.
Qed.

(** After [clear_fd] of both descriptors. *)
Lemma clear_two fd0 fd1 rf wf base fbase s (Q : st → Prop) :
  sinv base fbase s → ofile s !! fd0 = Some (Some rf) → ofile s !! fd1 = Some (Some wf) → fd0 ≠ fd1 →
  (∀ s', sinv base (cadd rf (cadd wf fbase)) s' → Q s') →
  spart (clear_fd fd0) s (λ _ s', spart (clear_fd fd1) s' (λ _ s', Q s')).
Proof.
  intros Hs H0' H1' Hne HQ. eapply sys_clear_fd; [exact Hs|exact H0'|]. intros Hs1.
  eapply sys_clear_fd; [exact Hs1|simpl; by rewrite list_lookup_insert_ne|]. intros Hs2. apply HQ.
  eapply sinv_ext; [done| |exact Hs2]. intros i. apply cadd_comm.
Qed.

Lemma call_pipe : keeps_call (sys_pipe V kend de me).
Proof.
  intros base fbase s Hb Hf Hs. unfold sys_pipe, argaddr. apply spart_bind, sys_argraw. intros a.
  apply spart_bind, sys_infile. intros [r o] y Hy. apply res_bind_ok in Hy as ([[r' o'] y'] & Hp & [= -> -> ->]).
  apply sinv_self in Hs. apply (pipealloc_step V kend de me base fbase _ s) in Hp as [Hs1 Hlt];
    [|exact Hs|by eapply loans_mono; [|done]..].
  destruct o as [[rf wf]|]; [|done]. destruct (Hlt rf wf eq_refl) as [Hrf Hwf]. clear Hlt Hs.
  set (s1 := set_sfile y s) in *. clearbody s1. unfold two_more in Hs1.
  apply spart_bind, (sys_fdalloc rf base (cadd rf (cadd wf fbase))); [exact Hs1|done| |by apply close_two].
  intros fd0 Hfree0 Hs2. destruct (Z.ltb_spec (Z.of_nat fd0) 0); [lia|].
  apply (sinv_ext _ base _ (cadd wf fbase)) in Hs2; [|done|intros; apply cdrop_cadd].
  assert (ofile (set_ofile (<[fd0 := Some rf]> (ofile s1)) s1) !! fd0 = Some (Some rf)) as Hl0.
  { simpl. apply list_lookup_insert_eq. by eapply lookup_lt_Some. }
  clear Hfree0. set (s2 := set_ofile _ s1) in *. clearbody s2.
  apply spart_bind, (sys_fdalloc wf base (cadd wf fbase)); [exact Hs2|done| |].
  - intros fd1 Hfree Hs3. destruct (Z.ltb_spec (Z.of_nat fd1) 0); [lia|].
    assert (fd0 ≠ fd1) as Hne by congruence.
    apply (sinv_ext _ base _ fbase) in Hs3; [|done|intros; apply cdrop_cadd].
    apply spart_bind, spart_gets. destruct (copyout _ _ _) as [um r0]. apply spart_bind, spart_mods.
    rewrite !Nat2Z.id. clear Hs2.
    assert (∀ m, sinv base fbase (set_umem m (set_ofile (<[fd1 := Some wf]> (ofile s2)) s2))) as Hs4.
    { intros m. by apply sinv_umem. }
    assert (∀ (r1 : Z) s3, sinv base fbase s3 → ofile s3 = <[fd1 := Some wf]> (ofile s2) →
      spart (if r1 <? 0 then _ ← clear_fd fd0; _ ← clear_fd fd1;
               _ ← infile_ (fileclose V kend (Some me) rf); _ ← infile_ (fileclose V kend (Some me) wf); mret (-1)
             else mret 0 : SYM Z) s3 (λ _ s', sinv base fbase s')) as Hend.
    { intros r1 s3 Hs5 Ho. destruct (r1 <? 0); [|done]. apply spart_bind. eapply spart_mono.
      - eapply clear_two; [exact Hs5|by rewrite Ho, list_lookup_insert_ne| |done|].
        + rewrite Ho. apply list_lookup_insert_eq. by eapply lookup_lt_Some.
        + intros s6 Hs6. by apply (close_two rf wf base fbase s6).
      - intros [] s6 Hs6. by apply spart_bind. }
    apply spart_bind. destruct (r0 <? 0); [by apply Hend|].
    apply spart_bind, spart_gets. destruct (copyout _ _ _) as [um1 r1]. apply spart_bind, spart_mods, spart_ret.
    apply Hend; [|done]. by apply sinv_umem.
  - apply spart_bind. rewrite Nat2Z.id. eapply sys_clear_fd; [exact Hs2|exact Hl0|]. intros Hs3. by apply close_two.
Qed.

(** A completed call, or something that leaves the tables alone: user code
    (memory, argument registers, [p->sz]) and the rest of the file layer (pipe
    and device transfers, the page allocator, other processes). *)
Inductive sys_call : st → st → Prop :=
| sc_dup s r s' : sys_dup s = Ok (r, s') → sys_call s s'
| sc_read s c s' : sys_read de s = Ok (c, s') → sys_call s s'
| sc_write s c s' : sys_write de s = Ok (c, s') → sys_call s s'
| sc_close s r s' : sys_close V kend de me s = Ok (r, s') → sys_call s s'
| sc_fstat pad s r s' : sys_fstat pad s = Ok (r, s') → sys_call s s'
| sc_link s r s' : sys_link de s = Ok (r, s') → sys_call s s'
| sc_unlink s r s' : sys_unlink de s = Ok (r, s') → sys_call s s'
| sc_mkdir s r s' : sys_mkdir de s = Ok (r, s') → sys_call s s'
| sc_mknod s r s' : sys_mknod de s = Ok (r, s') → sys_call s s'
| sc_chdir s r s' : sys_chdir de s = Ok (r, s') → sys_call s s'
| sc_open s r s' : sys_open V kend de me s = Ok (r, s') → sys_call s s'
| sc_pipe s r s' : sys_pipe V kend de me s = Ok (r, s') → sys_call s s'
| sc_user s m a z : sys_call s (set_umem m (mkSys (sfile s) (ofile s) (pcwd s) a z))
| sc_rest s y : same_tab (sfile s) y → sys_call s (set_sfile y s).

Lemma keeps_call_ok {A} (m : SYM A) base fbase s a s' :
  keeps_call m → loans 1000000 base → loans 1000000 fbase → sinv base fbase s → m s = Ok (a, s') →
  sinv base fbase s'.
Proof. intros Hm Hb Hf Hs He. specialize (Hm _ _ _ Hb Hf Hs). unfold spart in Hm. by rewrite He in Hm. Qed.

Lemma sys_call_sinv base fbase s s' :
  loans 1000000 base → loans 1000000 fbase → sinv base fbase s → sys_call s s' → sinv base fbase s'.
Proof.
  intros Hb Hf Hs Hc. destruct Hc; try (eapply keeps_call_ok; [|done..|eassumption];
    solve [eauto using call_dup, call_read, call_write, call_close, call_fstat, call_link, call_unlink,
           call_mkdir, call_mknod, call_chdir, call_open, call_pipe]).
  - apply sinv_umem. by destruct Hs.
  - apply (finv_same base fbase (sfile s)); [done|by apply sinv_self].
Qed.

(** C23: any sequence of file system calls (dup, read, write, close, fstat,
    link, unlink, mkdir, mknod, chdir, open, pipe), each on any of its paths,
    errors included, keeps the reference count of every open file equal to the
    number of descriptors on it plus the references held elsewhere, and the
    count of every inode in the table equal to the open files on it, plus one
    for the current directory, plus the references held elsewhere: no call
    leaks or drops a reference. *)
Theorem sys_refs_preserved base fbase s s' :
  loans 1000000 base → loans 1000000 fbase → sinv base fbase s → rtc sys_call s s' → sinv base fbase s'.
Proof. intros Hb Hf Hs Hc. induction Hc as [|s s1 s' Hc _ IH]; [done|]. eauto using sys_call_sinv. Qed.

(** *** Descriptors, exactly *)
Lemma fdalloc_scan_none fds : ∀ k, fdalloc_scan fds k = None ↔ None ∉ fds.
Proof.
  induction fds as [|[f|] fds IH]; intros k; simpl; [by split; [intros _ ?%not_elem_of_nil|]| |].
  - rewrite IH. set_solver.
  - split; [done|]. set_solver.
Qed.

(** The file of a descriptor given by a user. *)
Definition fd_file (s : st) (v : Z) : option nat :=
  if (0 <=? v) && (v <? Z.of_nat NOFILES) then ofile s !! Z.to_nat v ≫= id else None.

Lemma argfd_eq n (s : st) v : targs s !! n = Some v →
  argfd n s = Ok ((λ f, (Z.to_nat (i32 v), f)) <$> fd_file s (i32 v), s).
Proof.
  intros Hv. unfold argfd, argint, argraw, fd_file, mbind, sy_bind, gets. rewrite Hv. simpl.
  destruct (Z.ltb_spec (i32 v) 0), (Z.leb_spec 0 (i32 v)); try lia; simpl; [done|].
  destruct (Z.leb_spec (Z.of_nat NOFILES) (i32 v)), (Z.ltb_spec (i32 v) (Z.of_nat NOFILES)); try lia; simpl; [done|].
  by destruct (ofile s !! Z.to_nat (i32 v)) as [[]|].
Qed.

Definition lowest_free (fds : list (option nat)) (k : nat) : Prop :=
  fds !! k = Some None ∧ ∀ j, (j < k)%nat → ∃ f, fds !! j = Some (Some f).

(** [dup] always returns: it fails with -1 and changes nothing when its
    argument is not an open descriptor or every descriptor is in use;
    otherwise the result is the lowest free descriptor, which now names the
    same file, whose reference count is one higher, and nothing else changes. *)
Theorem sys_dup_correct base fbase (s : st) v :
  sinv base fbase s → loans 1000000 fbase → targs s !! 0%nat = Some v →
  match fd_file s (i32 v) with
  | None => sys_dup s = Ok (-1, s)
  | Some f =>
      ((None ∉ ofile s) ∧ sys_dup s = Ok (-1, s)) ∨
      ∃ k g, lowest_free (ofile s) k ∧ ftable (sfile s) !! f = Some g ∧
        sys_dup s = Ok (Z.of_nat k,
          set_sfile (set_ftable (<[f := set_ref (f_ref g + 1) g]> (ftable (sfile s))) (sfile s))
            (set_ofile (<[k := Some f]> (ofile s)) s))
  end.
Proof.
  intros Hs Hf Hv.
  assert (sys_dup s = match fd_file s (i32 v) with
    | None => Ok (-1, s)
    | Some f => (fd ← fdalloc f; if fd <? 0 then mret (-1) else _ ← infile (filedup f); mret fd : SYM Z) s
    end) as ->.
  { unfold sys_dup, mbind at 1, sy_bind. rewrite (argfd_eq _ _ _ Hv). simpl. by destruct (fd_file s (i32 v)). }
  destruct (fd_file s (i32 v)) as [f|] eqn:Hfd; simpl; [|done].
  assert (∃ fd, ofile s !! fd = Some (Some f)) as [fd Ho].
  { unfold fd_file in Hfd. destruct (_ && _); [|done]. exists (Z.to_nat (i32 v)).
    by destruct (ofile s !! Z.to_nat (i32 v)) as [[]|]; simplify_eq/=. }
  destruct (sinv_fd _ _ _ _ _ Hs Ho) as [Hlt Hcnt].
  unfold fdalloc, mbind, sy_bind, gets. simpl. destruct (fdalloc_scan (ofile s) 0) as [k|] eqn:Hk; simpl.
  - right. apply fdalloc_scan_spec in Hk as (_ & Hk & Hlow). rewrite Nat.sub_0_r in *.
    destruct (lookup_lt_is_Some_2 (ftable (sfile s)) f) as [g Hg]; [by rewrite (si_tab _ _ _ Hs)|].
    exists k, g. split; [done|]. split; [done|]. destruct (Z.ltb_spec (Z.of_nat k) 0); [lia|].
    destruct (si_file _ _ _ Hs f g Hg) as (Hr & _ & _). specialize (Hf f).
    pose proof (countb_range (is_fd f) (ofile s)) as Hc. unfold zlen in Hc. rewrite (si_fds _ _ _ Hs) in Hc.
    change (Z.of_nat NOFILES) with 16 in Hc. unfold infile, filedup, fget. simpl. rewrite Hg. simpl.
    destruct (Z.ltb_spec (f_ref g) 1); [lia|]. simpl. by rewrite i32_small by lia.
  - left. split; [by eapply fdalloc_scan_none|]. done.
Qed.
End calls.
