(* ===== verification/Balance.v ===== *)
(** * Locks and transactions of the file system calls

    [lks L d s]: the sleep locks of the inode table are held as [L] says, and
    [d] transactions are open.  [Balanced m]: when [m] returns, it leaves both
    as it found them; [ilock], [iunlock], [begin_op] and [end_op] change one of
    them.  The number of open transactions is read off the lower layers through
    [TxDepth]; the log of log.c has it ([outstanding]), and a layer without a
    count gets one ([counted]). *)
From S2P Require Import Prelude Riscv Bio Log LogSpec LogCrash Buf LogDisk Proc UserMem Mem Uart Printf Console Fs FsLaws Dinode Dir Itable Pipe CString Kalloc File Sysfile.

(** ** Open transactions *)
Class TxDepth (S : Type) `{BufOps S} := {
  depth : S → Z;
  depth_read dev b s i s' : bf_read dev b s = Ok (i, s') → depth s' = depth s;
  depth_store i d s : depth (bf_store i d s) = depth s;
  depth_log i s s' : bf_log i s = Ok s' → depth s' = depth s;
  depth_rel i s s' : bf_rel i s = Ok s' → depth s' = depth s;
  depth_begin s s' : tx_begin s = Ok s' → depth s' = depth s + 1;
  depth_end s s' : tx_end s = Ok s' → depth s' = depth s - 1
}.

(** Any lower layer with a count of [begin_op] less [end_op] beside it. *)
Definition counted (S : Type) : Type := (S * Z)%type.
Section counted.
Context {S : Type} `{BufOps S}.
#[export] Instance counted_ops : BufOps (counted S) := {
  bf_read dev b s := '(i, x) ← bf_read dev b s.1; Ok (i, (x, s.2));
  bf_data i s := bf_data i s.1;
  bf_store i d s := (bf_store i d s.1, s.2);
  bf_log i s := x ← bf_log i s.1; Ok (x, s.2);
  bf_rel i s := x ← bf_rel i s.1; Ok (x, s.2);
  tx_begin s := x ← tx_begin s.1; Ok (x, s.2 + 1);
  tx_end s := x ← tx_end s.1; Ok (x, s.2 - 1);
  log_init dev b s := x ← log_init dev b s.1; Ok (x, s.2)
}.
#[export] Program Instance counted_depth : TxDepth (counted S) := { depth s := s.2 }.
Solve Obligations with simpl; intros; res_inv; done.
End counted.

(** The log's own count. *)
Section log_depth.
Context (V : Z) (p : nat) (me : Z).
#[local] Instance the_log : BufOps ldst := ld_ops V p me.

Lemma commit_out l s l' s' : commit me l s = Ok (l', s') → outstanding l' = outstanding l.
Proof. unfold commit. destruct (0 <? lh_n l); intros Hc; res_inv; done. Qed.

Program Definition log_depth : TxDepth ldst := {| depth s := outstanding (ld_log s) |}.
Next Obligation. simpl. unfold ld_read. intros. res_inv. done. Qed.
Next Obligation. done. Qed.
Next Obligation.
  simpl. unfold ld_logw. intros i s s' He. apply res_bind_ok in He as ([l x] & He & [= <-]). simpl.
  apply log_write_n in He as (Ho & _). exact Ho.
Qed.
Next Obligation. simpl. unfold ld_rel. intros. res_inv. done. Qed.
Next Obligation.
  intros s s' He. change (ld_begin s = Ok s') in He. unfold ld_begin in He.
  destruct (Log.begin_op (ld_log s)) as [l|] eqn:Hb; [|done]. injection He as <-. cbn [ld_log].
  revert Hb. unfold Log.begin_op. by repeat case_match; intros [= <-].
Qed.
Next Obligation.
  intros s s' He. change (ld_end V p me s = Ok s') in He. unfold ld_end, Log.end_op, end_op_begin in He.
  destruct (negb _); [done|]. destruct (_ =? 0); cbn [mbind res_bind] in He; res_inv; [|done].
  match goal with E : commit _ _ _ = _ |- _ => apply commit_out in E; exact E end.
Qed.
End log_depth.

Section balance.
Context {S : Type} `{TxDepth S} {M : Type} `{UserMem M}.
Abbreviation st := (fss S M).
Abbreviation FSM := (@FS S M).

Definition lks (L : list bool) (d : Z) (s : st) : Prop := i_lock <$> itable s = L ∧ depth (lower s) = d.

Class Balanced {A} (m : FSM A) : Prop := balanced L d s : lks L d s → fpart m s (λ _ s', lks L d s').

Lemma lk_call {A} (m : FSM A) L d s (Q : A → st → Prop) :
  Balanced m → lks L d s → (∀ a s', lks L d s' → Q a s') → fpart m s Q.
Proof. intros Hm Hs HQ. eapply fpart_mono; [by apply Hm|]. auto. Qed.

Lemma lk_iat L d s i (Q : inode → st → Prop) :
  lks L d s → (∀ ip, L !! i = Some (i_lock ip) → Q ip s) → fpart (iat i) s Q.
Proof.
  intros [<- _] HQ. unfold fpart, iat, mbind, fs_bind, getf. simpl.
  destruct (itable s !! i) as [ip|] eqn:Hi; simpl; [|done]. apply HQ. by rewrite list_lookup_fmap, Hi.
Qed.

Lemma lk_iset_to L d s i ip (Q : unit → st → Prop) :
  lks L d s → (∀ s', lks (<[i := i_lock ip]> L) d s' → Q tt s') → fpart (iset i ip) s Q.
Proof. intros [<- <-] HQ. apply HQ. split; [|done]. simpl. by rewrite list_fmap_insert. Qed.

Lemma lk_iset L d s i ip (Q : unit → st → Prop) :
  lks L d s → L !! i = Some (i_lock ip) → (∀ s', lks L d s' → Q tt s') → fpart (iset i ip) s Q.
Proof. intros Hs Hi HQ. eapply lk_iset_to; [done|]. by rewrite list_insert_id. Qed.

#[export] Instance bal_bread dev b : Balanced (bread dev b : FSM _).
Proof.
  intros L d s [H1' H2']. unfold fpart, bread, low. destruct (bf_read _ _ _) as [[i x]| |] eqn:E; simpl; try done.
  split; [done|]. simpl. by rewrite (depth_read _ _ _ _ _ E).
Qed.
#[export] Instance bal_log h : Balanced (log_write h : FSM _).
Proof.
  intros L d s [H1' H2']. unfold fpart, log_write, low_. destruct (bf_log _ _) as [x| |] eqn:E; simpl; try done.
  split; [done|]. simpl. by rewrite (depth_log _ _ _ E).
Qed.
#[export] Instance bal_rel h : Balanced (brelse h : FSM _).
Proof.
  intros L d s [H1' H2']. unfold fpart, brelse, low_. destruct (bf_rel _ _) as [x| |] eqn:E; simpl; try done.
  split; [done|]. simpl. by rewrite (depth_rel _ _ _ E).
Qed.
#[export] Instance bal_bdata h : Balanced (bdata h : FSM _).
Proof. intros L d s Hs. done. Qed.
#[export] Instance bal_bstore h x : Balanced (bstore h x : FSM _).
Proof. intros L d s [H1' H2']. split; [done|]. simpl. by rewrite depth_store. Qed.
#[export] Instance bal_fprintf m : Balanced (fprintf m : FSM _).
Proof. intros L d s Hs. done. Qed.
#[export] Instance bal_fmem k m : Balanced (modf (set_fmem k m) : FSM _).
Proof. intros L d s Hs. done. Qed.
#[export] Instance bal_getf {A} (g : st → A) : Balanced (getf g).
Proof. intros L d s Hs. done. Qed.
#[export] Instance bal_hang {A} : Balanced (hang : FSM A).
Proof. intros L d s Hs. done. Qed.
#[export] Instance bal_panic {A} m : Balanced (fpanic m : FSM A).
Proof. intros L d s Hs. done. Qed.

Lemma lk_begin L d s (Q : unit → st → Prop) :
  lks L d s → (∀ s', lks L (d + 1) s' → Q tt s') → fpart Fs.begin_op s Q.
Proof.
  intros [H1' H2'] HQ. unfold fpart, Fs.begin_op, low_. destruct (tx_begin _) as [x| |] eqn:E; simpl; try done.
  apply HQ. split; [done|]. simpl. by rewrite (depth_begin _ _ E), H2'.
Qed.
Lemma lk_end L d s (Q : unit → st → Prop) :
  lks L d s → (∀ s', lks L (d - 1) s' → Q tt s') → fpart Fs.end_op s Q.
Proof.
  intros [H1' H2'] HQ. unfold fpart, Fs.end_op, low_. destruct (tx_end _) as [x| |] eqn:E; simpl; try done.
  apply HQ. split; [done|]. simpl. by rewrite (depth_end _ _ E), H2'.
Qed.
End balance.

(** One step of a computation under [lks]; the locks read by [iat] are left in
    the context. *)
Ltac lstep :=
  cbv zeta;
  match goal with
  | |- fpart (_ ≫= _) _ _ => apply fpart_bind
  | |- fpart (mret _) _ _ => apply fpart_ret
  | |- fpart (fpanic _) _ _ => exact I
  | |- fpart hang _ _ => exact I
  | Hs : lks _ _ ?s |- fpart (iat _) ?s _ => eapply lk_iat; [exact Hs|]; intros ? ?
  | Hs : lks _ _ ?s |- fpart (iset _ _) ?s _ =>
      eapply lk_iset; [exact Hs|solve [assumption|simpl; congruence|case_match; simpl; congruence]|clear dependent s; intros ? ?]
  | |- fpart (if ?b then _ else _) _ _ => destruct b eqn:?
  | |- fpart (match ?x with _ => _ end) _ _ => destruct x eqn:?
  | Hs : lks _ _ ?s |- fpart Fs.begin_op ?s _ => eapply lk_begin; [exact Hs|]; clear dependent s; intros ? ?
  | Hs : lks _ _ ?s |- fpart Fs.end_op ?s _ => eapply lk_end; [exact Hs|]; clear dependent s; intros ? ?
  | Hs : lks _ _ ?s |- fpart _ ?s _ =>
      eapply lk_call; [typeclasses eauto|exact Hs|]; clear dependent s; intros ? ? ?
  end.
Ltac bal := repeat lstep; try assumption.

Section balance_fs.
Context {S : Type} `{TxDepth S} {M : Type} `{UserMem M}.
Abbreviation st := (fss S M).
Abbreviation FSM := (@FS S M).

#[export] Instance bal_bzero dev b : Balanced (bzero dev b : FSM _).
Proof. intros L d s Hs. unfold bzero. bal. Qed.
#[export] Instance bal_balloc_loop f dev b : Balanced (balloc_loop f dev b : FSM _).
Proof. revert b. induction f as [|f IH]; intros b L d s Hs; cbn [balloc_loop]; bal. Qed.
#[export] Instance bal_balloc dev : Balanced (balloc dev : FSM _).
Proof. intros L d s Hs. unfold balloc. bal. Qed.
#[export] Instance bal_bfree dev b : Balanced (bfree dev b : FSM _).
Proof. intros L d s Hs. unfold bfree. bal. Qed.
#[export] Instance bal_iupdate i : Balanced (iupdate i : FSM _).
Proof. intros L d s Hs. unfold iupdate. bal. Qed.
#[export] Instance bal_bmap i bn : Balanced (bmap i bn : FSM _).
Proof. intros L d s Hs. unfold bmap. bal. Qed.
#[export] Instance bal_itrunc_direct n i k : Balanced (itrunc_direct n i k : FSM _).
Proof. revert k. induction n as [|n IH]; intros k L d s Hs; simpl; bal. Qed.
#[export] Instance bal_itrunc_indirect n dev bp j : Balanced (itrunc_indirect n dev bp j : FSM _).
Proof. revert j. induction n as [|n IH]; intros j L d s Hs; simpl; bal. Qed.
#[export] Instance bal_itrunc i : Balanced (itrunc i : FSM _).
Proof. intros L d s Hs. unfold itrunc. bal. Qed.
#[export] Instance bal_iget dev inum : Balanced (iget dev inum : FSM _).
Proof. intros L d s Hs. unfold iget. bal. Qed.
#[export] Instance bal_idup i : Balanced (Fs.idup i : FSM _).
Proof. intros L d s Hs. unfold Fs.idup. bal. Qed.
#[export] Instance bal_stati i : Balanced (fs_stati i : FSM _).
Proof. intros L d s Hs. unfold fs_stati. bal. Qed.
#[export] Instance bal_readi_loop f i u dst off n tot : Balanced (readi_loop f i u dst off n tot : FSM _).
Proof. revert dst off tot. induction f as [|f IH]; intros dst off tot L d s Hs; cbn [readi_loop]; bal. Qed.
#[export] Instance bal_readi i u dst off n : Balanced (Fs.readi i u dst off n : FSM _).
Proof. intros L d s Hs. unfold Fs.readi. bal. Qed.
#[export] Instance bal_writei_loop f i u src off n tot : Balanced (writei_loop f i u src off n tot : FSM _).
Proof. revert src off tot. induction f as [|f IH]; intros src off tot L d s Hs; cbn [writei_loop]; bal. Qed.
#[export] Instance bal_writei i u src off n : Balanced (Fs.writei i u src off n : FSM _).
Proof. intros L d s Hs. unfold Fs.writei. bal. Qed.
#[export] Instance bal_ialloc_loop f dev t n : Balanced (ialloc_loop f dev t n : FSM _).
Proof. revert n. induction f as [|f IH]; intros n L d s Hs; cbn [ialloc_loop]; bal. Qed.
#[export] Instance bal_ialloc dev t : Balanced (ialloc dev t : FSM _).
Proof. intros L d s Hs. unfold ialloc. bal. Qed.

(** [iput] takes the lock to free the inode and gives it back. *)
Lemma lk_locked {L : list bool} {i b} : L !! i = Some b → ∀ c, (<[i := c]> L) !! i = Some c.
Proof. intros Hi c. apply list_lookup_insert_eq. by eapply lookup_lt_Some. Qed.
#[export] Instance bal_iput i : Balanced (Fs.iput i : FSM _).
Proof.
  intros L d s Hs. unfold Fs.iput. lstep. lstep. lstep.
  eapply (fpart_mono _ _ (λ _ s', lks L d s')); [|intros ? s1 H1'; bal].
  match goal with |- context [if ?b then _ else _] => destruct b end; [|bal].
  destruct (i_lock _) eqn:El; [exact I|]. apply fpart_bind. eapply lk_iset_to; [exact Hs|].
  match goal with H : L !! i = _ |- _ => pose proof (lk_locked H true) as Ht end.
  clear dependent s. intros s Hs. repeat lstep.
  eapply lk_iset_to; [eassumption|]. intros t Hst. simpl in Hst.
  by rewrite list_insert_insert_eq, list_insert_id in Hst by congruence.
Qed.

Lemma lk_ilock L d s i (Q : unit → st → Prop) :
  lks L d s → (∀ s', L !! i = Some false → lks (<[i := true]> L) d s' → Q tt s') →
  fpart (Fs.ilock (Some i)) s Q.
Proof.
  intros Hs HQ. unfold Fs.ilock. lstep. lstep. lstep; [exact I|]. destruct (i_lock _) eqn:El; [exact I|].
  match goal with H : L !! i = _ |- _ => pose proof (lk_locked H true) as Ht end.
  cbv zeta. apply fpart_bind. eapply lk_iset_to; [exact Hs|]. clear dependent s. intros s Hs. simpl in Hs.
  bal; auto.
Qed.

Lemma lk_iunlock L d s i (Q : unit → st → Prop) :
  lks L d s → (∀ s', L !! i = Some true → lks (<[i := false]> L) d s' → Q tt s') →
  fpart (Fs.iunlock (Some i)) s Q.
Proof.
  intros Hs HQ. unfold Fs.iunlock. lstep. lstep. lstep; [exact I|]. eapply lk_iset_to; [exact Hs|].
  intros s' Hs'. apply HQ; [|done].
  match goal with H : _ || _ = false |- _ => apply orb_false_iff in H as [H%negb_false_iff _] end. congruence.
Qed.

Lemma lk_iunlockput L d s i (Q : unit → st → Prop) :
  lks L d s → (∀ s', L !! i = Some true → lks (<[i := false]> L) d s' → Q tt s') →
  fpart (Fs.iunlockput i) s Q.
Proof.
  intros Hs HQ. unfold Fs.iunlockput. apply fpart_bind. eapply lk_iunlock; [exact Hs|]. intros s' Hi Hs'.
  eapply lk_call; [apply _|exact Hs'|]. intros [] s2 H2'. auto.
Qed.
End balance_fs.

(** Locking a list entry and unlocking it. *)
Lemma lk_back (L : list bool) i : L !! i = Some false → <[i := false]> (<[i := true]> L) = L.
Proof. intros Hi. by rewrite list_insert_insert_eq, list_insert_id. Qed.
Lemma lk_back2 (L : list bool) i j :
  L !! i = Some false → (<[i := true]> L) !! j = Some false →
  <[i := false]> (<[j := true]> (<[i := true]> L)) = <[j := true]> L ∧ L !! j = Some false.
Proof.
  intros Hi Hj. assert (i ≠ j) as Hne.
  { intros <-. by rewrite (lk_locked Hi) in Hj. }
  rewrite list_lookup_insert_ne in Hj by done. split; [|done].
  by rewrite (list_insert_insert_ne (<[i := true]> L) i j), lk_back by done.
Qed.

(** The steps that lock and unlock; the list is brought back when possible. *)
Ltac lnorm :=
  repeat match goal with
  | Hi : ?L !! ?i = Some false, Hs : lks (<[?i := false]> (<[?i := true]> ?L)) _ _ |- _ =>
      rewrite (lk_back L i Hi) in Hs
  | Hi : ?L !! ?i = Some false, Hj : (<[?i := true]> ?L) !! ?j = Some false,
      Hs : lks (<[?i := false]> (<[?j := true]> (<[?i := true]> ?L))) _ _ |- _ =>
      rewrite (proj1 (lk_back2 L i j Hi Hj)) in Hs; pose proof (proj2 (lk_back2 L i j Hi Hj))
  | Hs : lks _ (?d + 1 - 1) _ |- _ => replace (d + 1 - 1) with d in Hs by lia
  end.
Ltac kstep :=
  cbv zeta;
  match goal with
  | Hs : lks _ _ ?s |- fpart (Fs.ilock (Some _)) ?s _ =>
      eapply lk_ilock; [exact Hs|]; clear dependent s; intros ? ? ?
  | Hs : lks _ _ ?s |- fpart (Fs.iunlock (Some _)) ?s _ =>
      eapply lk_iunlock; [exact Hs|]; clear dependent s; intros ? ? ?; lnorm
  | Hs : lks _ _ ?s |- fpart (Fs.iunlockput _) ?s _ =>
      eapply lk_iunlockput; [exact Hs|]; clear dependent s; intros ? ? ?; lnorm
  | |- _ => lstep; lnorm
  end.
Ltac kbal := repeat kstep; try assumption.

Section balance_dir.
Context {S : Type} `{TxDepth S} {M : Type} `{UserMem M} (de : Z).
Abbreviation st := (fss S M).
Abbreviation FSM := (@FS S M).

#[export] Instance bal_dirlookup_loop f dp name off : Balanced (dirlookup_loop de f dp name off : FSM _).
Proof. revert off. induction f as [|f IH]; intros off L d s Hs; cbn [dirlookup_loop]; bal. Qed.
#[export] Instance bal_dirlookup dp name : Balanced (dirlookup de dp name : FSM _).
Proof. intros L d s Hs. unfold dirlookup. bal. Qed.
#[export] Instance bal_dirlink_loop f dp off : Balanced (dirlink_loop de f dp off : FSM _).
Proof. revert off. induction f as [|f IH]; intros off L d s Hs; cbn [dirlink_loop]; bal. Qed.
#[export] Instance bal_dirlink dp name inum : Balanced (dirlink de dp name inum : FSM _).
Proof. intros L d s Hs. unfold dirlink. bal. Qed.
#[export] Instance bal_namex_loop f ip path par name : Balanced (namex_loop de f ip path par name : FSM _).
Proof.
  revert ip path name. induction f as [|f IH]; intros ip path name L d s Hs; cbn [namex_loop]; kbal.
Qed.
#[export] Instance bal_namex cwd path par name : Balanced (namex de cwd path par name : FSM _).
Proof. intros L d s Hs. unfold namex. kbal. Qed.
#[export] Instance bal_namei cwd path : Balanced (Dir.namei de cwd path : FSM _).
Proof. intros L d s Hs. unfold Dir.namei. kbal. Qed.
#[export] Instance bal_nameiparent cwd path : Balanced (Dir.nameiparent de cwd path : FSM _).
Proof. intros L d s Hs. unfold Dir.nameiparent. kbal. Qed.
#[export] Instance bal_isdirempty_loop f dp off : Balanced (isdirempty_loop de f dp off : FSM _).
Proof. revert off. induction f as [|f IH]; intros off L d s Hs; cbn [isdirempty_loop]; bal. Qed.
#[export] Instance bal_isdirempty dp : Balanced (isdirempty de dp : FSM _).
Proof. intros L d s Hs. unfold isdirempty. bal. Qed.
#[export] Instance bal_add_nlink i k : Balanced (add_nlink i k : FSM _).
Proof. intros L d s Hs. unfold add_nlink. bal. Qed.
End balance_dir.

(** ** The bodies of the calls *)
Section balance_bodies.
Context {S : Type} `{TxDepth S} {M : Type} `{UserMem M} (de : Z).
Abbreviation st := (fss S M).
Abbreviation FSM := (@FS S M).

(** A computation that closes the transaction it is called in. *)
Class Closes {A} (m : FSM A) : Prop :=
  closes L d s : lks L (d + 1) s → fpart m s (λ _ s', lks L d s').

(** A computation that returns an inode locked. *)
Definition got (L : list bool) (d : Z) (o : option nat) (s : st) : Prop :=
  match o with None => lks L d s | Some i => L !! i = Some false ∧ lks (<[i := true]> L) d s end.
Class Locks (m : FSM (option nat)) : Prop :=
  locks L d s : lks L d s → fpart m s (got L d).

#[export] Instance cl_link_bad i : Closes (link_bad i : FSM _).
Proof. intros L d s Hs. unfold link_bad. kbal. Qed.

#[export] Instance bal_link cwd old new : Balanced (sys_link_body de cwd old new : FSM _).
Proof.
  intros L d s Hs. unfold sys_link_body. kbal.
  all: eapply fpart_mono; [apply cl_link_bad; eassumption|done].
Qed.

#[export] Instance bal_unlink cwd path : Balanced (sys_unlink_body de cwd path : FSM _).
Proof. intros L d s Hs. unfold sys_unlink_body. kbal. Qed.

(** [create] returns with its inode locked. *)
Lemma lk_create_fail L d s i k :
  L !! k = Some false → (<[k := true]> L) !! i = Some false →
  lks (<[i := true]> (<[k := true]> L)) d s → fpart (create_fail i k : FSM _) s (got L d).
Proof.
  intros Hk Hi Hs. assert (<[i := true]> (<[k := true]> L) !! i = Some true) by by apply (lk_locked Hi).
  unfold create_fail. kbal.
Qed.
#[export] Instance locks_create cwd path ty ma mi : Locks (create de cwd path ty ma mi : FSM _).
Proof.
  intros L d s Hs. unfold create. kbal; try done.
  all: try (eapply lk_create_fail; eassumption).
  all: try (unfold got; split; eassumption).
Qed.
#[export] Instance cl_mk cwd path ty ma mi : Closes (mk_body de cwd path ty ma mi : FSM _).
Proof.
  intros L d s Hs. unfold mk_body. apply fpart_bind. eapply (fpart_mono _ _ (got L (d + 1))).
  - destruct path; [by apply locks_create|done].
  - intros [i|] s1 H1'; [destruct H1' as [Hi H1']|]; simpl in H1'; kbal.
Qed.
#[export] Instance cl_chdir cwd path : Closes (sys_chdir_body de cwd path : FSM _).
Proof. intros L d s Hs. unfold sys_chdir_body. kbal. Qed.
#[export] Instance locks_open cwd path mode : Locks (open_inode de cwd path mode : FSM _).
Proof.
  intros L d s Hs. unfold open_inode. apply fpart_bind. eapply (fpart_mono _ _ (got L d)).
  - destruct (negb _); [by apply locks_create|]. kbal; done.
  - intros [i|] s1 H1'; [destruct H1' as [Hi H1']|]; simpl in H1'; kbal; done.
Qed.
End balance_bodies.
