(* ===== verification/SysLocks.v ===== *)
(** * No call keeps a lock or a transaction

    The system calls of [Sysfile] against [lks] of [Balance]: on every path on
    which a call returns, errors included, each inode lock it took is free again
    and each transaction it opened is closed. *)
From S2P Require Import Prelude Riscv Bio Log LogSpec Buf Proc UserMem Pipe Mem CString Kalloc Uart Printf Console Fs FsLaws Dinode Dir Itable IRefs File FileInv Sysfile SysSpec SysFiles SysCalls Balance.

Section syslocks.
Context {S : Type} `{TxDepth S} {M : Type} `{UserMem M} `{UserStr M}.
Context (V kend de : Z) (me : nat).
#[local] Instance lk_inodes : InodeOps (fss S M) := the_inodes de.
Abbreviation st := (sysst S M).
Abbreviation ff := (fst_ (fss S M)).
Abbreviation SYM := (@SY S M).

Definition slks (L : list bool) (d : Z) (s : st) : Prop := lks L d (inodes (sfile s)).
Class Released {A} (m : SYM A) : Prop := released L d s : slks L d s → spart m s (λ _ s', slks L d s').

Lemma released_call {A} (m : SYM A) L d s (Q : A → st → Prop) :
  Released m → slks L d s → (∀ a s', slks L d s' → Q a s') → spart m s Q.
Proof. intros Hm Hs HQ. eapply spart_mono; [by apply Hm|]. auto. Qed.

(** A computation of the file system, of the file layer. *)
Lemma lk_infs {A} (m : @FS S M A) s (Q : A → st → Prop) :
  fpart m (inodes (sfile s)) (λ a x, Q a (set_fs x s)) → spart (infs m) s Q.
Proof. unfold fpart, spart, infs. by destruct (m _) as [[]| |]. Qed.

#[export] Instance rd_infs {A} (m : @FS S M A) : Balanced m → Released (infs m).
Proof. intros Hm L d s Hs. apply lk_infs. by apply Hm. Qed.
#[export] Instance rd_ret {A} (a : A) : Released (mret a).
Proof. intros L d s Hs. done. Qed.
#[export] Instance rd_bind {A B} (m : SYM A) (f : A → SYM B) : Released m → (∀ a, Released (f a)) → Released (m ≫= f).
Proof. intros Hm Hf L d s Hs. apply spart_bind. eapply released_call; [done|exact Hs|]. intros. by apply Hf. Qed.
#[export] Instance rd_gets {A} (g : st → A) : Released (gets g).
Proof. intros L d s Hs. done. Qed.
#[export] Instance rd_umem m : Released (mods (set_umem m)).
Proof. intros L d s Hs. done. Qed.
#[export] Instance rd_clear fd : Released (clear_fd fd).
Proof. intros L d s Hs. done. Qed.
#[export] Instance rd_fds o : Released (mods (set_ofile o)).
Proof. intros L d s Hs. done. Qed.
#[export] Instance rd_cwd i : Released (mods (set_pcwd i)).
Proof. intros L d s Hs. done. Qed.
#[export] Instance rd_argraw n : Released (argraw n).
Proof. intros L d s Hs. by apply sys_argraw. Qed.
#[export] Instance rd_argint n : Released (argint n).
Proof. intros L d s Hs. by apply sys_argint. Qed.
#[export] Instance rd_argaddr n : Released (argaddr n).
Proof. intros L d s Hs. by apply sys_argraw. Qed.
#[export] Instance rd_argstr n max : Released (argstr n max).
Proof. intros L d s Hs. by apply sys_argstr. Qed.
#[export] Instance rd_argfd n : Released (argfd n).
Proof. intros L d s Hs. by apply sys_argfd. Qed.
#[export] Instance rd_if {A} (b : bool) (m n : SYM A) : Released m → Released n → Released (if b then m else n).
Proof. by destruct b. Qed.

Lemma rd_infile {A} (m : ff → res (A * ff)) :
  (∀ L d x a y, lks L d (inodes x) → m x = Ok (a, y) → lks L d (inodes y)) → Released (infile m).
Proof. intros Hm L d s Hs. apply sys_infile. intros a y Hy. eapply (Hm L d); [exact Hs|exact Hy]. Qed.
Lemma rd_infile_ (m : ff → res ff) :
  (∀ L d x y, lks L d (inodes x) → m x = Ok y → lks L d (inodes y)) → Released (infile_ m).
Proof. intros Hm L d s Hs. apply sys_infile_. intros y Hy. eapply (Hm L d); [exact Hs|exact Hy]. Qed.

(** A step of file.c into the file system. *)
Lemma lift_ok {A} (m : @FS S M A) x y (Q : fss S M → Prop) :
  run_ m x = Ok y → fpart m x (λ _ y, Q y) → Q y.
Proof. unfold run_, fpart. intros Hm. by destruct (m x) as [[a z]| |]; simpl in *; simplify_eq. Qed.

Lemma run_begin L d x y : lks L d x → op_begin x = Ok y → lks L (d + 1) y.
Proof. intros Hx Hr. pattern y; eapply (lift_ok Fs.begin_op); [exact Hr|]. eapply lk_begin; [exact Hx|auto]. Qed.
Lemma run_end L d x y : lks L (d + 1) x → op_end x = Ok y → lks L d y.
Proof.
  intros Hx Hr. pattern y; eapply (lift_ok Fs.end_op); [exact Hr|]. eapply lk_end; [exact Hx|].
  intros s. by rewrite Z.add_simpl_r.
Qed.
Lemma run_iput L d i x y : lks L d x → File.iput i x = Ok y → lks L d y.
Proof. intros Hx Hr. pattern y; eapply (lift_ok (Fs.iput i)); [exact Hr|]. by apply bal_iput. Qed.
Lemma run_ilock L d i x y : lks L d x → File.ilock i x = Ok y → L !! i = Some false ∧ lks (<[i := true]> L) d y.
Proof. intros Hx Hr. pattern y; eapply (lift_ok (Fs.ilock (Some i))); [exact Hr|]. eapply lk_ilock; [exact Hx|auto]. Qed.
Lemma run_iunlock L d i x y :
  L !! i = Some false → lks (<[i := true]> L) d x → File.iunlock i x = Ok y → lks L d y.
Proof.
  intros Hi Hx Hr. pattern y; eapply (lift_ok (Fs.iunlock (Some i))); [exact Hr|]. eapply lk_iunlock; [exact Hx|].
  intros s _. by rewrite lk_back.
Qed.
Lemma run_rw {A} (m : @FS S M A) L d x a y : Balanced m → lks L d x → m x = Ok (a, y) → lks L d y.
Proof. intros Hm Hx Hr. exact (fpart_ok _ _ _ _ _ (Hm _ _ _ Hx) Hr). Qed.

(** ** The file table *)
Lemma lk_close_end L d o g x y : lks L d (inodes x) → fileclose_end V kend o g x = Ok y → lks L d (inodes y).
Proof.
  intros Hx. unfold fileclose_end. destruct (f_type g).
  - by intros [= <-].
  - intros Hc. by apply pipeclose_same in Hc as [_ ->].
  - intros Hc. res_inv. simpl. eauto using run_begin, run_iput, run_end.
  - intros Hc. res_inv. simpl. eauto using run_begin, run_iput, run_end.
Qed.
Lemma lk_fileclose L d o f x y : lks L d (inodes x) → fileclose V kend o f x = Ok y → lks L d (inodes y).
Proof.
  intros Hx Hc. unfold fileclose, fileclose_begin in Hc. apply res_bind_ok in Hc as ([o' x1] & Hb & Hc).
  apply res_bind_ok in Hb as (g & _ & Hb). destruct (f_ref g <? 1); [done|].
  destruct (0 <? f_ref _); simplify_eq; [done|]. by eapply lk_close_end; [|exact Hc].
Qed.
#[export] Instance rd_fileclose o f : Released (infile_ (fileclose V kend o f)).
Proof. apply rd_infile_. intros L d x y. apply lk_fileclose. Qed.
#[export] Instance rd_filedup f : Released (infile (filedup f)).
Proof.
  apply rd_infile. intros L d x a y Hx. unfold filedup. intros Hc. res_inv.
  destruct (_ <? 1); [done|]. by simplify_eq.
Qed.
#[export] Instance rd_filealloc : Released (infile (λ x, Ok (filealloc x))).
Proof.
  apply rd_infile. intros L d x a y Hx [= Hc]. unfold filealloc in Hc.
  destruct (free_slot _ _); by simplify_eq.
Qed.
#[export] Instance rd_fileread f a n : Released (infile (fileread f a n)).
Proof.
  apply rd_infile. intros L d x r y Hx Hc. unfold fileread in Hc. apply res_bind_ok in Hc as (g & _ & Hc).
  destruct (f_readable g =? 0); [by simplify_eq|].
  destruct (f_type g); [done|by simplify_eq| |by destruct (_ || _); simplify_eq].
  apply res_bind_ok in Hc as (x1 & H1' & Hc). apply res_bind_ok in Hc as ([v x2] & H2' & Hc).
  apply res_bind_ok in Hc as (x3 & H3' & [= <- <-]). simpl.
  destruct (run_ilock _ _ _ _ _ Hx H1') as [Hi Hx1]. eapply run_iunlock; [exact Hi| |exact H3'].
  by eapply (run_rw (Fs.readi (f_ip g) 1 a (f_off g) n)); [apply _|exact Hx1|].
Qed.

Lemma lk_write_loop fu ip a n : ∀ i off L d x r y, lks L d x →
  filewrite_loop fu ip a n i off x = Ok (r, y) → lks L d y.
Proof.
  induction fu as [|fu IH]; intros i off L d x r y Hx; cbn [filewrite_loop];
    destruct (i <? n); try done; try by intros [= <- <-].
  cbv zeta. intros Hc. apply res_bind_ok in Hc as (x1 & H1' & Hc). apply res_bind_ok in Hc as (x2 & H2' & Hc).
  apply res_bind_ok in Hc as ([v x3] & H3' & Hc). apply res_bind_ok in Hc as (x4 & H4' & Hc).
  apply res_bind_ok in Hc as (x5 & H5' & Hc).
  destruct (run_ilock _ _ _ _ _ (run_begin _ _ _ _ Hx H1') H2') as [Hi Hx2].
  assert (lks L d x5) as Hx5.
  { eapply run_end; [|exact H5']. eapply run_iunlock; [exact Hi| |exact H4'].
    eapply (run_rw (Fs.writei ip 1 _ _ _)); [apply _|exact Hx2|exact H3']. }
  destruct (negb _); [by simplify_eq|]. by eapply IH; [exact Hx5|].
Qed.
#[export] Instance rd_filewrite f a n : Released (infile (filewrite f a n)).
Proof.
  apply rd_infile. intros L d x r y Hx Hc. unfold filewrite in Hc. apply res_bind_ok in Hc as (g & _ & Hc).
  destruct (f_writable g =? 0); [by simplify_eq|].
  destruct (f_type g); [done|by simplify_eq| |by destruct (_ || _); simplify_eq].
  apply res_bind_ok in Hc as ([[k off] x1] & H1' & [= <- <-]). simpl. by eapply lk_write_loop.
Qed.

Lemma lk_pipealloc_bad L d o pi f0 f1 x a y :
  lks L d (inodes x) → pipealloc_bad V kend o pi f0 f1 x = Ok (a, y) → lks L d (inodes y).
Proof.
  intros Hx Hc. unfold pipealloc_bad in Hc. apply res_bind_ok in Hc as (x1 & H1' & Hc).
  apply res_bind_ok in Hc as (x2 & H2' & Hc). apply res_bind_ok in Hc as (x3 & H3' & [= _ <-]).
  assert (lks L d (inodes x1)) as Hx1.
  { destruct (negb _); [by apply kfree_page_same in H1' as [_ ->]|by simplify_eq]. }
  assert (lks L d (inodes x2)) as Hx2.
  { destruct f0; [by eapply lk_fileclose|by simplify_eq]. }
  destruct f1; [by eapply lk_fileclose|by simplify_eq].
Qed.
#[export] Instance rd_pipealloc o :
  Released (infile (λ x, '(r, o, x) ← pipealloc V kend o x; Ok ((r, o), x))).
Proof.
  apply rd_infile. intros L d w0 a y Hx Hc. apply res_bind_ok in Hc as ([[r o'] x1] & Hc & [= _ <-]).
  assert (∀ (z z' : ff) f, filealloc z = (f, z') → inodes z' = inodes z) as Hal.
  { intros z z' f. unfold filealloc. destruct (free_slot _ _); by intros [= _ <-]. }
  unfold pipealloc in Hc.
  destruct (filealloc w0) as [[f0|] z] eqn:E0; apply Hal in E0; rewrite <-E0 in Hx;
    [|by eapply lk_pipealloc_bad].
  destruct (filealloc z) as [[f1|] w] eqn:E1; apply Hal in E1; rewrite <-E1 in Hx;
    [|by eapply lk_pipealloc_bad].
  destruct (kalloc (kheap w)) as [pi k]. destruct (pi =? 0); [by eapply (lk_pipealloc_bad _ _ _ _ _ _ (set_kheap k w))|].
  destruct (4 <=? V); [|by simplify_eq].
  destruct (kalloc _) as [pd k2]. destruct (pd =? 0); [|by simplify_eq].
  apply res_bind_ok in Hc as (w2 & Hf & Hc). apply kfree_page_same in Hf as [_ Hf].
  eapply lk_pipealloc_bad; [|exact Hc]. by rewrite Hf.
Qed.

#[export] Instance rd_fdalloc f : Released (fdalloc f).
Proof. unfold fdalloc. apply rd_bind; [apply _|]. intros fds. destruct (fdalloc_scan fds 0); apply _. Qed.

(** ** The calls *)
Ltac rd := repeat (cbv zeta; match goal with
  | |- Released (_ ≫= _) => apply rd_bind; [|intros ?]
  | |- Released (if _ then _ else _) => apply rd_if
  | |- Released (match ?x with _ => _ end) => destruct x
  | |- Released _ => apply _
  end).

#[export] Instance bal_ilock_unlock {A} i (m : @FS S M A) : Balanced m →
  Balanced (_ ← Fs.ilock (Some i); x ← m; _ ← Fs.iunlock (Some i); mret x).
Proof. intros Hm L d s Hs. kbal. Qed.

Lemma rd_dup : Released sys_dup.
Proof. unfold sys_dup. rd. Qed.
Lemma rd_read : Released (sys_read de).
Proof. unfold sys_read. rd. Qed.
Lemma rd_write : Released (sys_write de).
Proof. unfold sys_write. rd. Qed.
Lemma rd_close : Released (sys_close V kend de me).
Proof. unfold sys_close. rd. Qed.
Lemma rd_link : Released (sys_link de).
Proof. unfold sys_link. rd. Qed.
Lemma rd_unlink : Released (sys_unlink de).
Proof. unfold sys_unlink. rd. Qed.
Lemma rd_pipe : Released (sys_pipe V kend de me).
Proof. unfold sys_pipe. rd. Qed.

(** A call that opens its transaction first. *)
Lemma rd_begin {A} (f : unit → SYM A) L d s (Q : A → st → Prop) :
  slks L d s → (∀ s', slks L (d + 1) s' → spart (f tt) s' Q) → spart (infs Fs.begin_op ≫= f) s Q.
Proof. intros Hs HQ. apply spart_bind, lk_infs. eapply lk_begin; [exact Hs|]. intros x Hx. by apply HQ. Qed.
Lemma rd_seq {A B} (m : SYM A) (f : A → SYM B) L d s (Q : B → st → Prop) :
  Released m → slks L d s → (∀ a s', slks L d s' → spart (f a) s' Q) → spart (m ≫= f) s Q.
Proof. intros Hm Hs HQ. apply spart_bind. eapply released_call; [done|exact Hs|]. auto. Qed.
Lemma rd_end {A} (m : @FS S M A) L d s (Q : A → st → Prop) :
  Closes m → slks L (d + 1) s → (∀ a s', slks L d s' → Q a s') → spart (infs m) s Q.
Proof. intros Hm Hs HQ. apply lk_infs. eapply fpart_mono; [by apply Hm|]. intros a x Hx. by apply HQ. Qed.
#[export] Instance cl_end : Closes (Fs.end_op : @FS S M _).
Proof. intros L d s Hs. kbal. Qed.

Lemma rd_mkdir : Released (sys_mkdir de).
Proof.
  intros L d s Hs. unfold sys_mkdir. eapply rd_begin; [exact Hs|]. intros s1 H1'.
  eapply rd_seq; [apply _|exact H1'|]. intros p s2 H2'. eapply rd_seq; [apply _|exact H2'|]. intros c s3 H3'.
  eapply rd_end; [apply _|exact H3'|]. auto.
Qed.
Lemma rd_mknod : Released (sys_mknod de).
Proof.
  intros L d s Hs. unfold sys_mknod. eapply rd_begin; [exact Hs|]. intros s1 H1'.
  eapply rd_seq; [apply _|exact H1'|]. intros ma s2 H2'. eapply rd_seq; [apply _|exact H2'|]. intros mi s3 H3'.
  eapply rd_seq; [apply _|exact H3'|]. intros p s4 H4'. eapply rd_seq; [apply _|exact H4'|]. intros c s5 H5'.
  eapply rd_end; [apply _|exact H5'|]. auto.
Qed.
Lemma rd_chdir : Released (sys_chdir de).
Proof.
  intros L d s Hs. unfold sys_chdir. eapply rd_begin; [exact Hs|]. intros s1 H1'.
  eapply rd_seq; [apply _|exact H1'|]. intros p s2 H2'. eapply rd_seq; [apply _|exact H2'|]. intros c s3 H3'.
  apply spart_bind. eapply rd_end; [apply _|exact H3'|]. intros [r i] s4 H4'.
  eapply rd_seq; [apply _|exact H4'|]. auto.
Qed.

#[export] Instance rd_fget f : Released (infile (λ x, f ← fget f x; Ok (f, x))).
Proof. apply rd_infile. intros L d x a y Hx Hc. by apply res_bind_ok in Hc as (g & _ & [= _ <-]). Qed.
Lemma rd_fstat pad : Released (sys_fstat pad).
Proof.
  assert (∀ f a, Released (filestat f a pad)) as Hf; [|unfold sys_fstat; rd; apply Hf].
  intros f a L d s Hs. unfold filestat. eapply rd_seq; [apply _|exact Hs|]. intros g s1 H1'.
  assert (Released (_ ← infs (Fs.ilock (Some (f_ip g)) : @FS S M _); '(dev, ino, ty, nl, sz) ← infs (fs_stati (f_ip g));
    _ ← infs (Fs.iunlock (Some (f_ip g))); um ← gets umem;
    let '(um, r) := copyout um a (stat_bytes dev ino ty nl sz pad) in
    _ ← mods (set_umem um); mret (if r <? 0 then -1 else 0))) as Hm; [|by destruct (f_type g); try apply Hm].
  clear. intros L d s Hs. apply spart_bind, lk_infs. eapply lk_ilock; [exact Hs|]. intros x Hi Hx.
  eapply (rd_seq _ _ (<[f_ip g := true]> L) d); [apply _|exact Hx|]. intros [[[[dev ino] ty] nl] sz] s2 H2'.
  apply spart_bind, lk_infs. eapply lk_iunlock; [exact H2'|]. intros y _ Hy. rewrite lk_back in Hy by done.
  set (s3 := set_fs y s2) in *. assert (slks L d s3) as H3' by exact Hy. clearbody s3.
  revert H3'. generalize L d s3. change (Released (um ← gets umem;
    let '(um, r) := copyout um a (stat_bytes dev ino ty nl sz pad) in
    _ ← mods (set_umem um); mret (if r <? 0 then -1 else 0) : SYM Z)). rd.
Qed.

(** The end of [sys_open], whichever way: the inode is unlocked, the transaction
    closed. *)
Lemma open_put L d i s (r : Z) : L !! i = Some false → slks (<[i := true]> L) (d + 1) s →
  spart (_ ← infs (Fs.iunlockput i : @FS S M _); _ ← infs Fs.end_op; mret r : SYM Z) s (λ _ s', slks L d s').
Proof.
  intros Hi Hs. apply spart_bind, lk_infs. eapply lk_iunlockput; [exact Hs|]. intros x _ Hx.
  rewrite lk_back in Hx by done. apply spart_bind. eapply rd_end; [apply _|exact Hx|]. auto.
Qed.

Lemma rd_open : Released (sys_open V kend de me).
Proof.
  intros L d s Hs. unfold sys_open. eapply rd_seq; [apply _|exact Hs|]. intros mode s1 H1'.
  eapply rd_seq; [apply _|exact H1'|]. intros [path|] s2 H2'; [|done].
  eapply rd_begin; [exact H2'|]. intros s3 H3'. eapply rd_seq; [apply _|exact H3'|]. intros c s4 H4'.
  apply spart_bind, lk_infs. eapply fpart_mono; [by apply locks_open|]. intros [i|] x Hx; simpl in Hx; cycle 1.
  { apply spart_bind. eapply rd_end; [apply _|exact Hx|]. auto. }
  destruct Hx as [Hi Hx]. set (s5 := set_fs x s4). assert (slks (<[i := true]> L) (d + 1) s5) as H5' by exact Hx.
  clearbody s5. eapply rd_seq; [apply _|exact H5'|]. intros [f|] s6 H6'; cycle 1.
  { apply spart_bind, spart_ret. by apply open_put. }
  eapply rd_seq; [apply _|exact H6'|]. intros fd s7 H7'. destruct (fd <? 0).
  { eapply rd_seq; [apply _|exact H7'|]. intros _ s8 H8'. by apply open_put. }
  assert (Released (infs (Fs.iat i : @FS S M _))) as Hat.
  { apply rd_infs. intros L' d' y Hy. kbal. }
  eapply rd_seq; [exact Hat|exact H7'|]. intros ip s8 H8'. eapply rd_seq; [apply rd_infile_|exact H8'|].
  { intros L' d' y z Hy [= <-]. exact Hy. }
  intros _ s9 H9'. eapply rd_seq; [destruct (_ && _); apply _|exact H9'|]. intros _ s10 H10'.
  apply spart_bind, lk_infs. eapply lk_iunlock; [exact H10'|]. intros y _ Hy. rewrite lk_back in Hy by done.
  apply spart_bind. eapply rd_end; [apply _|exact Hy|]. auto.
Qed.

Lemma sys_call_lks L d s s' : sys_call V kend de me s s' → slks L d s → slks L d s'.
Proof.
  intros Hc Hs. assert (∀ A (m : SYM A) s a s', Released m → m s = Ok (a, s') → slks L d s → slks L d s') as Hr.
  { clear. intros A m s a s' Hm He Hs. specialize (Hm _ _ _ Hs). unfold spart in Hm. by rewrite He in Hm. }
  destruct Hc; try (eapply Hr; [|eassumption|exact Hs]; solve [eauto using rd_dup, rd_read, rd_write,
    rd_close, rd_fstat, rd_link, rd_unlink, rd_mkdir, rd_mknod, rd_chdir, rd_open, rd_pipe]).
  - exact Hs.
  - match goal with Hst : same_tab _ _ |- _ => destruct Hst as [_ Hi] end. unfold slks in *. simpl. by rewrite Hi.
Qed.

(** C31: no file system call keeps an inode lock or a transaction: after any
    sequence of completed calls (dup, read, write, close, fstat, link, unlink,
    mkdir, mknod, chdir, open, pipe), each on any of its paths, errors included,
    the sleep lock of every inode of the table is held or free as before, and
    as many transactions are open as before. *)
Theorem sys_locks_released L d s s' : slks L d s → rtc (sys_call V kend de me) s s' → slks L d s'.
Proof. intros Hs Hc. induction Hc as [|s s1 s' Hc _ IH]; [done|]. eauto using sys_call_lks. Qed.
End syslocks.
