(* ===== verification/SysExample.v ===== *)
(** * The file system calls on a small system

    A process in the root directory of the file system of [FsExample], its user
    memory holding a path, opens, duplicates and closes a file. *)
From S2P Require Import Prelude Riscv Bio Log LogSpec Buf Proc UserMem Pipe Mem CString Kalloc Uart Printf Console Fs FsLaws Dinode Dir Itable IRefs FsExample File FileInv Sysfile SysSpec SysFiles SysCalls Balance SysLocks.
Import FlatDisk Flat.

(** [copyinstr] on the flat memory. *)
Fixpoint fstr (m : flat) (a : Z) (n : nat) : Z * list Z :=
  match n with
  | O => (-1, [])
  | S n' =>
      match fbytes m !! u64 a with
      | None => (-1, [])
      | Some b => if b =? 0 then (0, [0]) else let '(r, bs) := fstr m (a + 1) n' in (r, b :: bs)
      end
  end.
#[export] Instance flat_str : UserStr flat := {| ucopyinstr m a n := fstr m a (Z.to_nat n) |}.

(** The string "/a" at address 64. *)
Definition umem0 : flat := mkFlat {[ 64 := 47; 65 := 97; 66 := 0 ]} (λ _, true).
Definition rootu : inode := set_i_lock false rootv.
Definition fs0 : fss (counted fdisk) flat := mkFss x0 [rootu; empty0; empty0] (disk0, 0) ∅ umem0 [].
Definition closed_file : file := mkFile FD_NONE 0 0 0 0 0 0 0.
Definition u0 (args : list Z) : sysst (counted fdisk) flat :=
  mkSys (mkF (replicate NFILE closed_file) ∅ (mkK ∅ 0) [] [] fs0) (replicate NOFILES None) 0 args 4096.
Definition none : nat → Z := λ _, 0.

Lemma none_loans n : 0 <= n → loans n none.
Proof. intros Hn i. unfold none. lia. Qed.

Lemma u0_inv args : sinv none none (u0 args).
Proof.
  split; [done|done| |..].
  - intros i f Hf. apply lookup_replicate in Hf as [-> Hi]. split_and!; [|done|apply uint_ok_0].
    unfold none. clear. simpl. unfold is_fd. done.
  - intros i _. done.
  - split; [done|]. simpl. destruct rootv_ok as [Hr _].
    assert (inode_ok empty0) as He.
    { unfold inode_ok, short_ok. simpl. split_and!; try lia; try done. by repeat constructor. }
    by repeat constructor.
  - split.
    + intros [|[|[|i]]] k Hk; simpl in Hk; simplify_eq; by vm_compute.
    + intros [|[|[|i]]] [|[|[|j]]] a b Ha Hb'; simpl in *; simplify_eq; simpl; done || lia.
Qed.

(** The state after a call that returns [r]. *)
Definition after {A} (m : res (A * sysst (counted fdisk) flat)) (d : sysst (counted fdisk) flat) : sysst (counted fdisk) flat :=
  match m with Ok (_, s) => s | _ => d end.
Definition result {A} (m : res (A * sysst (counted fdisk) flat)) : option A :=
  match m with Ok (a, _) => Some a | _ => None end.

Lemma after_ok {A} (m : res (A * sysst (counted fdisk) flat)) d a : result m = Some a → m = Ok (a, after m d).
Proof. destruct m as [[]| |]; simpl; congruence. Qed.

(** [open("/a", O_RDWR)], then [dup(0)], then [close(0)]. *)
Definition op : res (Z * sysst (counted fdisk) flat) := sys_open 3 (PHYSTOP - 4096) 1000 0 (u0 [64; 2; 0; 0; 0; 0]).
Definition user (args : list Z) (s : sysst (counted fdisk) flat) : sysst (counted fdisk) flat :=
  set_umem umem0 (mkSys (sfile s) (ofile s) (pcwd s) args 4096).
Definition u1 : sysst (counted fdisk) flat := user [0; 0; 0; 0; 0; 0] (after op (u0 [])).
Definition du : res (Z * sysst (counted fdisk) flat) := sys_dup u1.
Definition u2 : sysst (counted fdisk) flat := user [0; 0; 0; 0; 0; 0] (after du (u0 [])).
Definition cl : res (Z * sysst (counted fdisk) flat) := sys_close 3 (PHYSTOP - 4096) 1000 0 u2.

Lemma run_results : result op = Some 0 ∧ result du = Some 1 ∧ result cl = Some 0.
Proof. split_and!; by vm_compute. Qed.

Lemma run_steps : rtc (sys_call 3 (PHYSTOP - 4096) 1000 0) (u0 [64; 2; 0; 0; 0; 0]) (after cl (u0 [])).
Proof.
  destruct run_results as (H1 & H2 & H3).
  eapply rtc_l; [eapply sc_open; exact (after_ok op (u0 []) _ H1)|].
  eapply rtc_l; [apply sc_user|]. eapply rtc_l; [eapply sc_dup; exact (after_ok du (u0 []) _ H2)|].
  eapply rtc_l; [apply sc_user|]. eapply rtc_l; [eapply sc_close; exact (after_ok cl (u0 []) _ H3)|]. done.
Qed.

(** One file with one reference and one inode reference are left. *)
Lemma sys_refs_preserved_witness :
  sinv none none (after cl (u0 [])) ∧
  f_ref <$> ftable (sfile (after cl (u0 []))) !! 0%nat = Some 1 ∧
  take 2 (ofile (after cl (u0 []))) = [None; Some 0%nat] ∧
  i_ref <$> itable (inodes (sfile (after cl (u0 [])))) = [1; 1; 0].
Proof.
  assert (0 <= 1000000) as H1 by lia.
  split; [|split_and!; by vm_compute].
  exact (sys_refs_preserved 3 (PHYSTOP - 4096) 1000 0 none none _ _ (none_loans _ H1) (none_loans _ H1)
    (u0_inv _) run_steps).
Defined.

(** All inode locks free and no transaction open, before and after. *)
Lemma sys_locks_released_witness :
  slks [false; false; false] 0 (u0 [64; 2; 0; 0; 0; 0]) ∧ slks [false; false; false] 0 (after cl (u0 [])).
Proof.
  assert (slks [false; false; false] 0 (u0 [64; 2; 0; 0; 0; 0])) as H0 by done.
  split; [exact H0|]. exact (sys_locks_released 3 (PHYSTOP - 4096) 1000 0 _ _ _ _ H0 run_steps).
Defined.

Lemma sys_dup_correct_witness : sys_dup u1 = Ok (1, after du (u0 [])) ∧
  ∃ k g, lowest_free (ofile u1) k ∧ ftable (sfile u1) !! 0%nat = Some g ∧
    sys_dup u1 = Ok (Z.of_nat k,
      set_sfile (set_ftable (<[0%nat := set_ref (f_ref g + 1) g]> (ftable (sfile u1))) (sfile u1))
        (set_ofile (<[k := Some 0%nat]> (ofile u1)) u1)).
Proof.
  split; [exact (after_ok du (u0 []) _ (proj1 (proj2 run_results)))|].
  assert (sinv none none u1) as Hs.
  { unfold u1. eapply (sys_call_sinv 3 (PHYSTOP - 4096) 1000 0); [apply (none_loans 1000000); lia..| |apply sc_user].
    eapply (sys_call_sinv 3 (PHYSTOP - 4096) 1000 0); [apply (none_loans 1000000); lia..|apply (u0_inv [64; 2; 0; 0; 0; 0])|].
    eapply sc_open. exact (after_ok op (u0 []) _ (proj1 run_results)). }
  assert (0 <= 1000000) as Hn by lia.
  assert (targs u1 !! 0%nat = Some 0) as Ha by (by vm_compute).
  assert (fd_file u1 (i32 0) = Some 0%nat) as He by (by vm_compute).
  pose proof (sys_dup_correct none none u1 0 Hs (none_loans _ Hn) Ha) as Hd.
  rewrite He in Hd. destruct Hd as [[_ Hd]|Hd]; [|exact Hd].
  exfalso. assert (result (sys_dup u1) = Some 1) as Hr by exact (proj1 (proj2 run_results)).
  rewrite Hd in Hr. discriminate Hr.
Defined.
