(* ===== verification/Sleeplock.v ===== *)
(** * Sleep locks

    Models [kernel/sleeplock.c].  The body of each function runs under the
    spinlock [lk->lk], so it is one atomic update, split where [sleep] gives
    that spinlock away.  [slstep] is the system: any number of processes
    calling [acquiresleep] and [releasesleep] on one lock, with a scheduler
    that runs a process only when it is not SLEEPING and with kills that make
    sleepers runnable at any time. *)
From stdpp Require Import functions.
From S2P Require Import Prelude Riscv Proc.

Record sleeplock := mkSL { locked : Z; sl_pid : Z }.

(** The pid of [myproc()]. *)
Definition mypid (me : nat) (ps : list proc) : Z :=
  match ps !! me with Some p => pid p | None => 0 end.

Definition initsleeplock : sleeplock := mkSL 0 0.

(** [acquiresleep]: the loop head, the sleep, and after the return. *)
Inductive apc := ALoop | AAsleep | AHeld.

Definition acquiresleep (a : Z) (me : nat) (pc : apc) (st : sleeplock * list proc)
    : apc * (sleeplock * list proc) :=
  let '(lk, ps) := st in
  match pc with
  | ALoop =>
      if negb (locked lk =? 0) then (AAsleep, (lk, sleep_begin me (ChSleeplock a) ps))
      else (AHeld, (mkSL 1 (mypid me ps), ps))
  | AAsleep => (ALoop, (lk, sleep_end me ps))
  | AHeld => (AHeld, st)
  end.

Definition releasesleep (V a : Z) (me : nat) (st : sleeplock * list proc) : sleeplock * list proc :=
  let '(lk, ps) := st in (mkSL 0 0, wakeup V (Some me) (ChSleeplock a) ps).

Definition holdingsleep (me : nat) (st : sleeplock * list proc) : bool :=
  let '(lk, ps) := st in negb (locked lk =? 0) && (sl_pid lk =? mypid me ps).

(** ** The system: [None] is a process outside the lock's functions *)
Definition slcfg : Type := sleeplock * list proc * (nat → option apc).

(** What others do to the process table: anything that keeps the pids and puts
    nobody to sleep on this lock. *)
Definition env_ok (a : Z) (ps ps' : list proc) : Prop :=
  ∀ i p', ps' !! i = Some p' → ∃ p, ps !! i = Some p ∧ pid p' = pid p ∧
    (state p' = SLEEPING → chan p' = ChSleeplock a → state p = SLEEPING ∧ chan p = ChSleeplock a).

Inductive slstep (V a : Z) : slcfg → slcfg → Prop :=
| sl_enter lk ps pcs i p : pcs i = None → ps !! i = Some p → state p = RUNNING →
    slstep V a (lk, ps, pcs) (lk, ps, <[i := Some ALoop]> pcs)
| sl_acquire lk ps pcs i p pc pc' lk' ps' : pcs i = Some pc → ps !! i = Some p →
    state p = RUNNING →                        (* the scheduler runs it *)
    acquiresleep a i pc (lk, ps) = (pc', (lk', ps')) →
    slstep V a (lk, ps, pcs) (lk', ps', <[i := Some pc']> pcs)
| sl_release lk ps pcs i p lk' ps' : pcs i = Some AHeld → ps !! i = Some p → state p = RUNNING →
    releasesleep V a i (lk, ps) = (lk', ps') →
    slstep V a (lk, ps, pcs) (lk', ps', <[i := None]> pcs)
| sl_env lk ps pcs ps' : length ps' = length ps → env_ok a ps ps' →
    slstep V a (lk, ps, pcs) (lk, ps', pcs).

(** The invariant: a holder exactly when the lock is taken, with its pid in it;
    sleepers on the channel only while it is taken. *)
Definition slinv (a : Z) (c : slcfg) : Prop :=
  let '(lk, ps, pcs) := c in
  (∀ i, pcs i = Some AHeld → locked lk ≠ 0 ∧ is_Some (ps !! i) ∧ sl_pid lk = mypid i ps) ∧
  (∀ i j, pcs i = Some AHeld → pcs j = Some AHeld → i = j) ∧
  (locked lk ≠ 0 → ∃ i, pcs i = Some AHeld) ∧
  (∀ i p, ps !! i = Some p → state p = SLEEPING → chan p = ChSleeplock a → locked lk ≠ 0).

Lemma mypid_env a ps ps' i : length ps' = length ps → env_ok a ps ps' → is_Some (ps !! i) →
  is_Some (ps' !! i) ∧ mypid i ps' = mypid i ps.
Proof.
  intros Hl He [p Hp]. assert (i < length ps')%nat by (rewrite Hl; by eapply lookup_lt_Some).
  destruct (lookup_lt_is_Some_2 ps' i) as [p' Hp']; [done|]. split; [by eexists|].
  unfold mypid. destruct (He _ _ Hp') as (p0 & H0 & Hpid & _). by rewrite Hp', H0.
Qed.

Lemma alter_env a i g ps : (∀ p, pid (g p) = pid p) →
  (∀ p, state (g p) = SLEEPING → chan (g p) = ChSleeplock a → state p = SLEEPING ∧ chan p = ChSleeplock a) →
  env_ok a ps (alter g i ps).
Proof.
  intros Hg Hs j p' Hj. rewrite list_lookup_alter in Hj. case_decide; [|by eauto 10].
  apply fmap_Some in Hj as (p & Hp & ->). exists p. split; [congruence|]. split; [apply Hg|apply Hs].
Qed.

Lemma slinv_env a lk ps pcs ps' : length ps' = length ps → env_ok a ps ps' →
  slinv a (lk, ps, pcs) → slinv a (lk, ps', pcs).
Proof.
  intros Hl He (Hh & Hu & Hx & Hs). split_and!; try done.
  - intros i Hi. destruct (Hh i Hi) as (Hlk & Hsome & Hpid).
    destruct (mypid_env a ps ps' i) as [? ->]; done.
  - intros i p' Hp' Hst Hch. destruct (He _ _ Hp') as (p & Hp & _ & Hsl).
    destruct (Hsl Hst Hch). by eapply Hs.
Qed.

(** The invariant looks at the program counters only for the holder. *)
Lemma slinv_pcs a lk ps pcs pcs' : (∀ j, pcs' j = Some AHeld ↔ pcs j = Some AHeld) →
  slinv a (lk, ps, pcs) → slinv a (lk, ps, pcs').
Proof.
  intros Hpc (Hh & Hu & Hx & Hs). split_and!; [| | |done].
  - intros i. rewrite Hpc. apply Hh.
  - intros i j. rewrite !Hpc. apply Hu.
  - intros Hl. destruct (Hx Hl) as [i Hi]. exists i. by rewrite Hpc.
Qed.

Lemma pcs_other (pcs : nat → option apc) i x : pcs i ≠ Some AHeld → x ≠ Some AHeld →
  ∀ j, <[i := x]> pcs j = Some AHeld ↔ pcs j = Some AHeld.
Proof.
  intros Hi Hx j. destruct (decide (i = j)) as [->|]; [rewrite fn_lookup_insert; tauto|].
  by rewrite fn_lookup_insert_ne.
Qed.

Lemma slinv_taken a lk ps pcs i p : locked lk = 0 → ps !! i = Some p →
  slinv a (lk, ps, pcs) → slinv a (mkSL 1 (mypid i ps), ps, <[i := Some AHeld]> pcs).
Proof.
  intros H0 Hp (Hh & _ & _ & _).
  assert (∀ j, <[i := Some AHeld]> pcs j = Some AHeld → j = i) as Honly.
  { intros j. destruct (decide (i = j)) as [->|]; [done|]. rewrite fn_lookup_insert_ne by done.
    intros Hj. destruct (Hh j Hj) as [? _]. done. }
  split_and!; simpl.
  - intros j ->%Honly. split_and!; [done|by eexists|done].
  - intros j k Hj Hk. rewrite (Honly j), (Honly k); done.
  - intros _. exists i. by rewrite fn_lookup_insert.
  - done.
Qed.

Lemma slinv_sleep a lk ps pcs i : locked lk ≠ 0 →
  slinv a (lk, ps, pcs) → slinv a (lk, sleep_begin i (ChSleeplock a) ps, pcs).
Proof.
  intros H1 (Hh & Hu & Hx & Hs). split_and!; try done.
  intros j Hj. destruct (Hh j Hj) as (? & [p Hp] & ->). unfold mypid, sleep_begin.
  rewrite list_lookup_alter. case_decide; subst; rewrite Hp; simpl; (split_and!; [done|by eexists|done]).
Qed.

Lemma slinv_release V a lk ps pcs i p : pcs i = Some AHeld → ps !! i = Some p → state p = RUNNING →
  slinv a (lk, ps, pcs) →
  slinv a (mkSL 0 0, wakeup V (Some i) (ChSleeplock a) ps, <[i := None]> pcs).
Proof.
  intros Hi Hp Hrun (Hh & Hu & Hx & Hs).
  assert (∀ j, <[i := None]> pcs j ≠ Some AHeld) as Hnone.
  { intros j. destruct (decide (i = j)) as [->|]; [by rewrite fn_lookup_insert|].
    rewrite fn_lookup_insert_ne by done. intros Hj. by destruct (Hu i j). }
  split_and!; simpl; [by intros j ?%Hnone|by intros j k ?%Hnone|done|].
  intros j q Hq Hsl Hch. exfalso.
  destruct (wakeup_sleepers _ _ _ _ _ _ _ Hq (conj Hsl Hch)) as [(q0 & Hq0 & Hsl0 & _) Hme].
  specialize (Hme eq_refl). simplify_eq. congruence.
Qed.

Lemma slinv_step V a c c' : slinv a c → slstep V a c c' → slinv a c'.
Proof.
  intros Hinv Hst. destruct Hst as [lk ps pcs i p Hi Hp Hrun | lk ps pcs i p pc pc' lk' ps' Hi Hp Hrun Ha
    | lk ps pcs i p lk' ps' Hi Hp Hrun Hr | lk ps pcs ps' Hl He]; last by eapply slinv_env.
  - eapply slinv_pcs, Hinv. apply pcs_other; congruence.
  - destruct pc; simpl in Ha.
    + destruct (Z.eqb_spec (locked lk) 0); simplify_eq/=; [by eapply slinv_taken|].
      apply slinv_sleep; [done|]. eapply slinv_pcs, Hinv. apply pcs_other; congruence.
    + simplify_eq. eapply slinv_env; [apply length_alter| |].
      { by apply alter_env. }
      eapply slinv_pcs, Hinv. apply pcs_other; congruence.
    + simplify_eq. eapply slinv_pcs, Hinv. intros j.
      destruct (decide (i = j)) as [->|]; [by rewrite fn_lookup_insert|by rewrite fn_lookup_insert_ne].
  - simpl in Hr. simplify_eq. by eapply slinv_release.
Qed.

(** ** Property *)

(** A sleep lock has at most one holder in every interleaving, [locked] is
    set exactly while there is one, [holdingsleep] is true of the holder and of
    nobody else, and a process sleeps for the lock only while it is taken: no
    wakeup is lost. *)
Theorem sleeplock_mutex (V a : Z) (ps0 : list proc) (lk : sleeplock) (ps : list proc)
    (pcs : nat → option apc) (i j : nat) :
  (∀ k p, ps0 !! k = Some p → chan p ≠ ChSleeplock a) →
  rtc (slstep V a) (initsleeplock, ps0, λ _, None) (lk, ps, pcs) →
  (pcs i = Some AHeld → pcs j = Some AHeld → i = j) ∧
  (locked lk ≠ 0 ↔ ∃ k, pcs k = Some AHeld) ∧
  (pcs i = Some AHeld → holdingsleep i (lk, ps) = true ∧
     (mypid j ps ≠ mypid i ps → holdingsleep j (lk, ps) = false)) ∧
  (∀ p, ps !! i = Some p → state p = SLEEPING → chan p = ChSleeplock a → locked lk ≠ 0).
Proof.
  intros H0 Hst. assert (slinv a (lk, ps, pcs)) as (Hh & Hu & Hx & Hs).
  { eapply rtc_invariant; [intros; by eapply slinv_step|exact Hst|].
    split_and!; try done. intros k p Hp _ Hc. by destruct (H0 _ _ Hp). }
  split_and!; [by apply Hu| | |by apply Hs].
  - split; [done|]. intros [k Hk]. by destruct (Hh k Hk).
  - intros Hi. destruct (Hh i Hi) as (Hlk & _ & Hpid). unfold holdingsleep. rewrite Hpid.
    destruct (Z.eqb_spec (locked lk) 0); [done|]. simpl. rewrite Z.eqb_refl.
    split; [done|]. intros Hne. apply Z.eqb_neq. congruence.
Qed.

(** *** Witness: one process takes the lock *)
Definition slproc : proc :=
  mkProc RUNNING ChNull 0 0 7 None 0 0 0 0 [] [] None [] 0.

Lemma sleeplock_mutex_witness :
  ∃ lk pcs, rtc (slstep 6 64) (initsleeplock, [slproc], λ _, None) (lk, [slproc], pcs) ∧
    holdingsleep 0 (lk, [slproc]) = true.
Proof.
  set (pcs1 := <[0%nat := Some ALoop]> (λ _, None) : nat → option apc).
  set (pcs2 := <[0%nat := Some AHeld]> pcs1).
  assert (rtc (slstep 6 64) (initsleeplock, [slproc], λ _, None) (mkSL 1 7, [slproc], pcs2)) as Hst.
  { eapply rtc_l; [eapply (sl_enter _ _ _ _ _ 0); reflexivity|].
    eapply rtc_l; [eapply (sl_acquire _ _ _ _ _ 0 _ ALoop); reflexivity|]. apply rtc_refl. }
  exists (mkSL 1 7), pcs2. split; [exact Hst|].
  destruct (sleeplock_mutex 6 64 [slproc] (mkSL 1 7) [slproc] pcs2 0 0) as (_ & _ & Hh & _);
    [|exact Hst|].
  { intros [|[|k]] p Hp; [|discriminate Hp..]. injection Hp as <-. discriminate. }
  apply Hh. reflexivity.
Defined.
