(* ===== verification/ProcLife.v ===== *)
(** * The life of a process: allocproc, fork, exit, wait, growth

    Models the part of [kernel/proc.c] that builds and takes down processes,
    over the page tables of [Vm], the page allocator of [Kalloc] and the file
    table of [File].  The state is that of [File] (its process table is
    [fptab]) with [nextpid]; [initproc] is an index.  [forkret] and
    [trampoline] are link-time addresses, [xaddr i] is the address of
    [proc[i].xstate].  Each function is the sequence of its critical sections;
    [kwait] is split at its sleep. *)
From S2P Require Import Prelude Riscv Mem CString Kalloc Vm Bio Log Proc UserMem Pipe File.

Definition NOFILE : nat := 16.

(** [sizeof(struct trapframe)] and the offset of its field [a0]. *)
Definition TF_SIZE : Z := 288.
Definition TF_A0 : Z := 112.

(** *** Page tables of processes *)
Section pagetables.
Context (kend trampoline : Z).

(** [proc_pagetable] of a process with the given trapframe page. *)
Definition proc_pagetable (tf : Z) (k : kst) : res (Z * kst) :=
  let '(pt, k) := uvmcreate k in
  if pt =? 0 then Ok (0, k)
  else
    '(r, k) ← mappages pt TRAMPOLINE PGSIZE trampoline (Z.lor PTE_R PTE_X) k;
    if r <? 0 then k ← uvmfree kend pt 0 k; Ok (0, k)
    else
      '(r, k) ← mappages pt TRAPFRAME PGSIZE tf (Z.lor PTE_R PTE_W) k;
      if r <? 0 then
        k ← uvmunmap kend pt TRAMPOLINE 1 false k;
        k ← uvmfree kend pt 0 k;
        Ok (0, k)
      else Ok (pt, k).

Definition proc_freepagetable (pt sz : Z) (k : kst) : res kst :=
  k ← uvmunmap kend pt TRAMPOLINE 1 false k;
  k ← uvmunmap kend pt TRAPFRAME 1 false k;
  uvmfree kend pt sz k.
End pagetables.

(** The result of [safestrcpy(np->name, p->name, 16)] on the two arrays: at
    most [n] characters are copied; the store of the final NUL comes after the
    NUL that ended the copy, if one did. *)
Definition put_nul (dst : list Z) : list Z := match dst with [] => [] | _ :: d => 0 :: d end.

Fixpoint name_copy (dst src : list Z) (n : nat) : list Z :=
  match n, dst, src with
  | O, _, _ => put_nul dst
  | S n', _ :: d, c :: s => if c =? 0 then 0 :: put_nul d else c :: name_copy d s n'
  | _, _, _ => dst
  end.

(** The little-endian bytes of an [int]. *)
Definition int_bytes (x : Z) : list Z :=
  let y := u32 x in [y mod 256; y / 256 mod 256; y / 65536 mod 256; y / 16777216 mod 256].

Section life.
Context {I : Type} `{InodeOps I}.
Context (V kend trampoline forkret : Z) (xaddr : nat → Z).

Record pls := mkPL { pfs : fst_ I; nextpid : Z; initproc : nat }.

Definition ptable (s : pls) : list proc := fptab (pfs s).
Definition pheap (s : pls) : kst := kheap (pfs s).
Definition set_ptable (t : list proc) (s : pls) : pls :=
  mkPL (set_fptab t (pfs s)) (nextpid s) (initproc s).
Definition set_pheap (k : kst) (s : pls) : pls :=
  mkPL (set_kheap k (pfs s)) (nextpid s) (initproc s).
Definition set_pfs (f : fst_ I) (s : pls) : pls := mkPL f (nextpid s) (initproc s).
Definition set_nextpid (n : Z) (s : pls) : pls := mkPL (pfs s) n (initproc s).
Definition upd (i : nat) (g : proc → proc) (s : pls) : pls := set_ptable (alter g i (ptable s)) s.

(** A table index out of range does not occur in C. *)
Definition pget (i : nat) (s : pls) : res proc :=
  match ptable s !! i with Some p => Ok p | None => Panic "proc index" end.

(** *** freeproc *)
Definition clear_proc (p : proc) : proc :=
  mkProc UNUSED ChNull 0 0 0 None (kstack p) 0 0 0 (context p) (ofile p) (cwd p)
    (<[0%nat := 0]> (name p)) PRIORITY_BASE.

Definition freeproc (i : nat) (s : pls) : res pls :=
  p ← pget i s;
  k ← (if negb (trapframe p =? 0) then kfree kend (trapframe p) (pheap s) else Ok (pheap s));
  let s := set_pheap k s in
  k ← (if negb (pagetable p =? 0) then proc_freepagetable kend (pagetable p) (sz p) (pheap s)
       else Ok (pheap s));
  Ok (upd i clear_proc (set_pheap k s)).

(** *** allocproc *)
Fixpoint find_unused (ps : list proc) (i : nat) : option nat :=
  match ps with
  | [] => None
  | p :: ps' => if bool_decide (state p = UNUSED) then Some i else find_unused ps' (S i)
  end.

Definition allocproc (s : pls) : res (option nat * pls) :=
  match find_unused (ptable s) 0 with
  | None => Ok (None, s)
  | Some i =>
      let '(newpid, np) := allocpid (nextpid s) in
      let s := upd i (λ p, set_priority PRIORITY_BASE (set_state USED (set_pid newpid p)))
                 (set_nextpid np s) in
      let '(tf, k) := kalloc (pheap s) in
      let s := upd i (set_trapframe tf) (set_pheap k s) in
      if tf =? 0 then s ← freeproc i s; Ok (None, s)
      else
        '(pt, k) ← proc_pagetable kend trampoline tf (pheap s);
        let s := upd i (set_pagetable pt) (set_pheap k s) in
        if pt =? 0 then s ← freeproc i s; Ok (None, s)
        else
          let s := upd i (λ p, set_context ([forkret; u64 (kstack p + PGSIZE)] ++ replicate 12 0) p) s in
          Ok (Some i, s)
  end.

(** [userinit]: the first process. *)
Definition userinit (s : pls) : res pls :=
  '(o, s) ← allocproc s;
  match o with
  | None => Panic "null proc"
  | Some i =>
      let s := mkPL (pfs s) (nextpid s) i in
      '(ip, n) ← namei [47] (inodes (pfs s));
      let s := set_pfs (set_inodes n (pfs s)) s in
      Ok (upd i (λ p, set_state RUNNABLE (set_cwd ip p)) s)
  end.

(** *** growproc *)
Definition growproc (me : nat) (n : Z) (s : pls) : res (Z * pls) :=
  p ← pget me s;
  if 0 <? n then
    if TRAPFRAME <? u64 (sz p + n) then Ok (-1, s)
    else
      '(sz', k) ← uvmalloc kend (pagetable p) (sz p) (u64 (sz p + n)) PTE_W (pheap s);
      let s := set_pheap k s in
      if sz' =? 0 then Ok (-1, s) else Ok (0, upd me (set_sz sz') s)
  else if n <? 0 then
    '(sz', k) ← uvmdealloc kend (pagetable p) (sz p) (u64 (sz p + n)) (pheap s);
    Ok (0, upd me (set_sz sz') (set_pheap k s))
  else Ok (0, upd me (set_sz (sz p)) s).

(** *** kfork *)

(** The loop over the descriptors. *)
Fixpoint dup_files (np fd : nat) (fs : list (option nat)) (s : pls) : res pls :=
  match fs with
  | [] => Ok s
  | None :: fs' => dup_files np (S fd) fs' s
  | Some f :: fs' =>
      '(f', t) ← filedup f (pfs s);
      let s := set_pfs t s in
      dup_files np (S fd) fs' (upd np (λ q, set_ofile (<[fd := Some f']> (ofile q)) q) s)
  end.

Definition kfork (me : nat) (s : pls) : res (Z * pls) :=
  '(o, s) ← allocproc s;
  match o with
  | None => Ok (-1, s)
  | Some np =>
      p ← pget me s;
      q ← pget np s;
      '(r, k) ← uvmcopy kend (pagetable p) (pagetable q) (sz p) (pheap s);
      let s := set_pheap k s in
      if r <? 0 then s ← freeproc np s; Ok (-1, s)
      else
        let s := upd np (set_sz (sz p)) s in
        let s := set_pheap (kmemmove (trapframe q) (trapframe p) TF_SIZE (pheap s)) s in
        let s := set_pheap (store (trapframe q + TF_A0) 0 (pheap s)) s in
        s ← dup_files np 0 (ofile p) s;
        match cwd p with
        | None => Panic "null cwd"
        | Some ip =>
            n ← idup ip (inodes (pfs s));
            let s := set_pfs (set_inodes n (pfs s)) s in
            let s := upd np (λ q, set_name (name_copy (name q) (name p) 15) (set_cwd (Some ip) q)) s in
            let s := upd np (set_parent (Some me)) s in
            Ok (pid q, upd np (set_state RUNNABLE) s)
        end
  end.

(** *** kexit *)
Fixpoint close_files (me fd : nat) (fs : list (option nat)) (s : pls) : res pls :=
  match fs with
  | [] => Ok s
  | None :: fs' => close_files me (S fd) fs' s
  | Some f :: fs' =>
      t ← fileclose V kend (Some me) f (pfs s);
      let s := set_pfs t s in
      close_files me (S fd) fs' (upd me (λ p, set_ofile (<[fd := None]> (ofile p)) p) s)
  end.

(** The channel a parent sleeps on; a null parent is address 0. *)
Definition parent_chan (o : option nat) : channel :=
  match o with Some i => ChProc i | None => ChNull end.

(** The end of [kexit], under [wait_lock]: hand over the children, wake the
    parent, become a zombie. *)
Definition exit_table (me init : nat) (status : Z) (ps : list proc) : list proc :=
  let ps := reparent V (Some me) init me ps in
  let par := match ps !! me with Some p => parent p | None => None end in
  let ps := wakeup V (Some me) (parent_chan par) ps in
  alter (λ p, set_state ZOMBIE (set_xstate status p)) me ps.

Definition kexit (me : nat) (status : Z) (s : pls) : res pls :=
  if decide (me = initproc s) then Panic "init exiting"
  else
    p ← pget me s;
    s ← close_files me 0 (ofile p) s;
    n ← op_begin (inodes (pfs s));
    n ← match cwd p with Some ip => iput ip n | None => Panic "null cwd" end;
    n ← op_end n;
    let s := set_pfs (set_inodes n (pfs s)) s in
    let s := upd me (set_cwd None) s in
    Ok (set_ptable (exit_table me (initproc s) status (ptable s)) s).

(** *** kwait *)

(** The scan for children of [me] from index [k] on: the first zombie, and
    whether there was a child. *)
Fixpoint wait_scan (me : nat) (ps : list proc) (k : nat) (havekids : bool) : option nat * bool :=
  match ps with
  | [] => (None, havekids)
  | pp :: ps' =>
      if decide (parent pp = Some me) then
        if decide (state pp = ZOMBIE) then (Some k, true) else wait_scan me ps' (S k) true
      else wait_scan me ps' (S k) havekids
  end.

Inductive kwpc := KWLoop | KWAsleep | KWRet (r : Z).

Definition kwait (me : nat) (addr : Z) (pc : kwpc) (s : pls) : res (kwpc * pls) :=
  match pc with
  | KWLoop =>
      match wait_scan me (ptable s) 0 false with
      | (Some i, _) =>
          p ← pget me s;
          pp ← pget i s;
          '(r, s) ←
            (if negb (addr =? 0) then
               let m := foldl (λ m x, st8 m (xaddr i + x.1) x.2) (km (pheap s))
                          (zip [0; 1; 2; 3] (int_bytes (xstate pp))) in
               '(r, k) ← Vm.copyout kend (sz p) (pagetable p) (pagetable p) addr (xaddr i) 4
                           (set_km m (pheap s));
               Ok (r, set_pheap k s)
             else Ok (0, s));
          if r <? 0 then Ok (KWRet (-1), s)
          else s ← freeproc i s; Ok (KWRet (pid pp), s)
      | (None, havekids) =>
          if negb havekids || negb (killed me (ptable s) =? 0) then Ok (KWRet (-1), s)
          else Ok (KWAsleep, set_ptable (sleep_begin me (ChProc me) (ptable s)) s)
      end
  | KWAsleep => Ok (KWLoop, set_ptable (sleep_end me (ptable s)) s)
  | KWRet r => Ok (KWRet r, s)
  end.
End life.
Arguments pls I : clear implicits.
