(* ===== verification/ProcWait.v ===== *)
(** * exit and wait: no lost wakeup; what allocproc inherits

    The protocol between [kexit] and [kwait]: under every interleaving a
    process asleep in [kwait] has no zombie child.  Then the fields of the
    process [allocproc] returns, and a consequence for [kkill]. *)
From S2P Require Import Prelude Riscv Mem CString Kalloc Vm Bio Log Proc UserMem Pipe File FileSpec ProcLife.

(** ** The scan of kwait *)
Lemma wait_scan_spec me ps : ∀ k b,
  match wait_scan me ps k b with
  | (Some i, _) => ∃ j p, i = (k + j)%nat ∧ ps !! j = Some p ∧ parent p = Some me ∧ state p = ZOMBIE
  | (None, b') => (∀ j p, ps !! j = Some p → parent p = Some me → state p ≠ ZOMBIE) ∧
      (b' = true ↔ b = true ∨ ∃ j p, ps !! j = Some p ∧ parent p = Some me)
  end.
Proof.
  induction ps as [|p ps IH]; intros k b; simpl.
  { split; [done|]. split; [by left|]. by intros [?|(j & p & ? & _)]. }
  case_decide as Hp; [case_decide as Hz|].
  - exists 0%nat, p. split_and!; [lia|done..].
  - specialize (IH (S k) true). destruct (wait_scan me ps (S k) true) as [[i|] b'].
    + destruct IH as (j & q & -> & Hj & Hq). exists (S j), q. split; [lia|done].
    + destruct IH as [Hn Hb]. split.
      * intros [|j] q Hq; simpl in Hq; [by simplify_eq|by eapply Hn].
      * rewrite Hb. split; [|by left]. intros _. right. by exists 0%nat, p.
  - specialize (IH (S k) b). destruct (wait_scan me ps (S k) b) as [[i|] b'].
    + destruct IH as (j & q & -> & Hj & Hq). exists (S j), q. split; [lia|done].
    + destruct IH as [Hn Hb]. split.
      * intros [|j] q Hq; simpl in Hq; [by simplify_eq|by eapply Hn].
      * rewrite Hb. split; (intros [?|(j & q & Hq & Hpar)]; [by left|]).
        { right. by exists (S j), q. }
        destruct j as [|j]; simpl in Hq; [by simplify_eq|]. right. by exists j, q.
Qed.

(** ** Who waits *)

(** Process [i] sleeps in [kwait]. *)
Definition waits (ps : list proc) (i : nat) : Prop :=
  ∃ p, ps !! i = Some p ∧ sleeping_on (ChProc i) p.

Definition zombie_child (ps : list proc) (i k : nat) : Prop :=
  ∃ q, ps !! k = Some q ∧ parent q = Some i ∧ state q = ZOMBIE.

Definition wait_ok (ps : list proc) : Prop := ∀ i k, waits ps i → ¬ zombie_child ps i k.

Section wait.
Context (V : Z) (me init : nat).

(** From [ps] to [ps'], as [reparent] goes: nobody falls asleep or becomes a
    zombie, and a child passed to [init] finds [init] awake. *)
Definition handed (ps ps' : list proc) : Prop :=
  (∀ i, waits ps' i → waits ps i) ∧
  (∀ k q', ps' !! k = Some q' → ∃ q, ps !! k = Some q ∧
     (state q' = ZOMBIE ↔ state q = ZOMBIE) ∧
     (parent q' = parent q ∨
      parent q' = Some init ∧ parent q = Some me ∧ (init ≠ me → ¬ waits ps' init))).

Lemma handed_refl ps : handed ps ps.
Proof. split; [done|]. intros k q Hq. exists q. auto. Qed.

Lemma handed_trans a b c : handed a b → handed b c → handed a c.
Proof.
  intros [Ws Hs] [Ws' Hs']. split; [auto|]. intros k q'' Hq''.
  destruct (Hs' _ _ Hq'') as (q' & Hq' & Hz' & Hp'). destruct (Hs _ _ Hq') as (q & Hq & Hz & Hp).
  exists q. split; [done|]. split; [by rewrite Hz'|].
  destruct Hp' as [Hp'|(Hp1 & Hp2 & Hw)].
  - rewrite Hp'. destruct Hp as [Hp|(Hp3 & Hp4 & Hw)]; [by left|right].
    split_and!; [done|done|]. intros Hne Hc. by apply Hw, Ws'.
  - destruct Hp as [Hp|(Hp3 & Hp4 & Hw0)]; right; split_and!; try done; congruence.
Qed.

Lemma reparent1_handed ps k : handed ps (reparent1 V (Some me) init me ps k).
Proof.
  unfold reparent1. destruct (ps !! k) as [pp|] eqn:Hk; [|apply handed_refl].
  case_decide as Hpar; [|apply handed_refl].
  set (ps1 := alter (set_parent (Some init)) k ps).
  assert (∀ i q1, ps1 !! i = Some q1 → ∃ q, ps !! i = Some q ∧ state q1 = state q ∧ chan q1 = chan q ∧
    (parent q1 = parent q ∨ parent q1 = Some init ∧ parent q = Some me)) as Hps1.
  { intros i q1. unfold ps1. rewrite list_lookup_alter. case_decide as Hik; [|by eauto 10].
    subst. rewrite Hk. simpl. intros [= <-]. exists pp. simpl. auto 10. }
  split.
  - intros i (p' & Hp' & Hsl). destruct (wakeup_sleepers _ _ _ _ _ _ _ Hp' Hsl) as [(p1 & Hp1 & Hsl1) _].
    destruct (Hps1 _ _ Hp1) as (p & Hp & Hst & Hch & _). exists p. split; [done|].
    destruct Hsl1. split; congruence.
  - intros j q' Hq'. destruct (wakeup_keeps _ _ _ _ _ _ Hq') as (q1 & Hq1 & _ & Hpq & Hz).
    destruct (Hps1 _ _ Hq1) as (q & Hq & Hst & _ & Hpp). exists q. split; [done|].
    rewrite Hz, Hst. split; [done|]. rewrite Hpq. destruct Hpp as [Hpp|[Hpp1 Hpp2]]; [by left|right].
    split_and!; try done. intros Hne (p' & Hp' & Hsl).
    destruct (wakeup_sleepers _ _ _ _ _ _ _ Hp' Hsl) as [_ Hme]. specialize (Hme eq_refl). congruence.
Qed.

Lemma reparent_handed ps : handed ps (reparent V (Some me) init me ps).
Proof.
  unfold reparent. generalize (seq 0 (length ps)). intros l. revert ps.
  induction l as [|k l IH]; intros ps; simpl; [apply handed_refl|].
  eapply handed_trans; [apply reparent1_handed|apply IH].
Qed.

(** [kexit] keeps the invariant: the parent and [init] are awake before the
    zombie and the orphans become theirs. *)
Lemma exit_wait_ok status ps : me ≠ init → wait_ok ps → wait_ok (exit_table V me init status ps).
Proof.
  intros Hne Hok i k (p & Hp & Hsl) (q & Hq & Hpar & Hz). unfold exit_table in *.
  set (ps1 := reparent V (Some me) init me ps) in *.
  set (par := match ps1 !! me with Some p => parent p | None => None end) in *.
  set (ps2 := wakeup V (Some me) (parent_chan par) ps1) in *.
  destruct (reparent_handed ps) as [Hw Hh]. fold ps1 in Hw, Hh.
  rewrite list_lookup_alter in Hp. case_decide as Him.
  { apply fmap_Some in Hp as (p0 & _ & ->). by destruct Hsl. }
  assert (waits ps1 i) as Hwi.
  { destruct (wakeup_sleepers _ _ _ _ _ _ _ Hp Hsl) as [(p1 & Hp1 & Hsl1) _]. by exists p1. }
  rewrite list_lookup_alter in Hq. case_decide as Hkm.
  - subst k. apply fmap_Some in Hq as (q2 & Hq2 & ->). simpl in Hpar.
    destruct (wakeup_keeps _ _ _ _ _ _ Hq2) as (q1 & Hq1 & _ & Hpq & _).
    assert (par = Some i) as Hpari by (unfold par; rewrite Hq1; congruence).
    destruct (wakeup_sleepers _ _ _ _ _ _ _ Hp Hsl) as [_ Hme].
    rewrite Hpari in Hme. simpl in Hme. specialize (Hme eq_refl). congruence.
  - destruct (wakeup_keeps _ _ _ _ _ _ Hq) as (q1 & Hq1 & _ & Hpq & Hz1).
    destruct (Hh _ _ Hq1) as (q0 & Hq0 & Hz0 & [Hp0|(Hp1 & Hp2 & Hnw)]).
    + apply (Hok i k); [by apply Hw|]. exists q0. split_and!; [done|congruence|tauto].
    + assert (i = init) as -> by congruence. by apply Hnw.
Qed.
End wait.

(** ** The system *)

(** Everything else that happens to the table: no new zombie, and nobody new
    asleep in [kwait]; a zombie keeps its parent. *)
Definition quiet (ps ps' : list proc) : Prop :=
  (∀ i, waits ps' i → waits ps i) ∧ (∀ i k, zombie_child ps' i k → zombie_child ps i k).

Inductive wstep (V : Z) : list proc → list proc → Prop :=
| w_wait ps me p : ps !! me = Some p → state p = RUNNING →     (* kwait goes to sleep *)
    wait_scan me ps 0 false = (None, true) → wstep V ps (sleep_begin me (ChProc me) ps)
| w_exit ps me init status : me ≠ init → wstep V ps (exit_table V me init status ps)
| w_other ps ps' : quiet ps ps' → wstep V ps ps'.

Lemma wait_ok_step V ps ps' : wait_ok ps → wstep V ps ps' → wait_ok ps'.
Proof.
  intros Hok Hst. destruct Hst as [ps me p Hp Hrun Hscan | ps me init status Hne | ps ps' [Hw Hz]].
  - pose proof (wait_scan_spec me ps 0 false) as Hs. rewrite Hscan in Hs. destruct Hs as [Hn _].
    assert (∀ i k, zombie_child (sleep_begin me (ChProc me) ps) i k → zombie_child ps i k) as Hz.
    { intros i k (q & Hq & Hpar & Hzq). rewrite sleep_begin_lookup in Hq. case_decide.
      - apply fmap_Some in Hq as (q0 & _ & ->). done.
      - by exists q. }
    intros i k (p' & Hp' & Hsl) Hzc%Hz. rewrite sleep_begin_lookup in Hp'. case_decide as Hmi.
    + subst i. destruct Hzc as (q & Hq & Hpar & Hzq). by apply (Hn k q).
    + apply (Hok i k); [by exists p'|done].
  - by apply exit_wait_ok.
  - intros i k Hwi Hzc. apply (Hok i k); auto.
Qed.

(** C15: a process asleep in [kwait] has no zombie child, in every interleaving
    of [kwait], [kexit] (which hands its children to init) and steps that make
    no zombies: the wakeup of [kexit] is never lost. *)
Theorem wait_no_lost_wakeup (V : Z) (ps0 ps : list proc) (i k : nat) (p q : proc) :
  wait_ok ps0 → rtc (wstep V) ps0 ps →
  ps !! i = Some p → state p = SLEEPING → chan p = ChProc i →
  ps !! k = Some q → parent q = Some i → state q ≠ ZOMBIE.
Proof.
  intros H0 Hst Hp Hsl Hch Hq Hpar Hz.
  assert (wait_ok ps) as Hok by (eapply rtc_invariant; [intros; by eapply wait_ok_step|exact Hst|exact H0]).
  apply (Hok i k); [by exists p|by exists q].
Qed.

(** *** Witness: a parent sleeps, its child exits, the parent is awake *)
Definition wproc (st : procstate) (par : option nat) : proc :=
  mkProc st ChNull 0 0 1 par 0 0 0 0 [] [] None [] 0.
Definition wt0 : list proc := [wproc RUNNING None; wproc RUNNING (Some 2%nat); wproc RUNNING None].

Lemma wait_no_lost_wakeup_witness :
  ∃ ps, rtc (wstep 6) wt0 ps ∧ (∀ p, ps !! 2%nat = Some p → state p = SLEEPING →
    chan p = ChProc 2 → False) ∧ state <$> (ps !! 1%nat) = Some ZOMBIE.
Proof.
  exists (exit_table 6 1 0 5 (sleep_begin 2 (ChProc 2) wt0)).
  assert (rtc (wstep 6) wt0 (exit_table 6 1 0 5 (sleep_begin 2 (ChProc 2) wt0))) as Hst.
  { eapply rtc_l; [eapply (w_wait 6 wt0 2); reflexivity|].
    eapply rtc_l; [apply (w_exit 6 _ 1 0 5); lia|apply rtc_refl]. }
  split; [exact Hst|]. split; [|reflexivity].
  intros p Hp Hsl Hch.
  eapply (wait_no_lost_wakeup 6 wt0 _ 2 1 p); [|exact Hst|exact Hp|exact Hsl|exact Hch|reflexivity..].
  intros i k (p' & Hp' & [Hs _]). exfalso.
  destruct i as [|[|[|i]]]; simpl in Hp'; try discriminate Hp'; injection Hp' as <-; discriminate Hs.
Defined.

(** ** allocproc *)
Lemma find_unused_spec ps : ∀ k i, find_unused ps k = Some i →
  ∃ j p, i = (k + j)%nat ∧ ps !! j = Some p ∧ state p = UNUSED ∧
    (∀ j' p', (j' < j)%nat → ps !! j' = Some p' → state p' ≠ UNUSED).
Proof.
  induction ps as [|p ps IH]; intros k i; simpl; [done|]. case_bool_decide as Hs.
  - intros [= <-]. exists 0%nat, p. split_and!; [lia|done|done|lia].
  - intros Hi. destruct (IH _ _ Hi) as (j & q & -> & Hq & Hu & Hfst). exists (S j), q.
    split_and!; [lia|done|done|]. intros [|j'] p' Hlt Hp'; simpl in *; [by simplify_eq|].
    apply (Hfst j'); [lia|done].
Qed.

Section alloc.
Context {I : Type} `{InodeOps I}.
Context (kend trampoline forkret : Z).
Implicit Types s : pls I.

Lemma upd_lookup i g s j : ptable (upd i g s) !! j =
  (if decide (i = j) then g <$> ptable s !! j else ptable s !! j).
Proof. unfold upd, ptable. simpl. rewrite list_lookup_alter. by case_decide; subst. Qed.

Lemma ptable_set_pheap k s : ptable (set_pheap k s) = ptable s.
Proof. done. Qed.

Lemma ptable_set_nextpid n s : ptable (set_nextpid n s) = ptable s.
Proof. done. Qed.

(** [g] keeps the fields [allocproc] does not initialise. *)
Definition keeps (g : proc → proc) : Prop :=
  ∀ p, killed_flag (g p) = killed_flag p ∧ ofile (g p) = ofile p ∧ parent (g p) = parent p ∧
    xstate (g p) = xstate p ∧ chan (g p) = chan p.

Lemma allocproc_spec s i s' : allocproc kend trampoline forkret s = Ok (Some i, s') →
  find_unused (ptable s) 0 = Some i ∧ nextpid s' = i32 (nextpid s + 1) ∧
  (∃ g, keeps g ∧ ∀ j, ptable s' !! j = (if decide (i = j) then g <$> ptable s !! j else ptable s !! j)) ∧
  (∀ p', ptable s' !! i = Some p' → state p' = USED ∧ pid p' = nextpid s ∧ priority p' = PRIORITY_BASE).
Proof.
  unfold allocproc. destruct (find_unused (ptable s) 0) as [k|] eqn:Hk; [|done].
  unfold allocpid. cbv match zeta.
  set (s1 := upd k _ (set_nextpid _ s)). destruct (kalloc (pheap s1)) as [tf k1].
  destruct (tf =? 0); [intros (? & ? & ?)%res_bind_ok; simplify_eq|].
  intros Ha. apply res_bind_ok in Ha as ([pt k2] & _ & Ha).
  destruct (pt =? 0); [apply res_bind_ok in Ha as (? & ? & ?); simplify_eq|]. simplify_eq.
  split_and!; [done|done| |].
  - eexists (λ p, _ (_ (_ (_ p)))). split; last first.
    + intros j. subst s1. rewrite !upd_lookup, !ptable_set_pheap, !upd_lookup, ptable_set_pheap,
        upd_lookup, ptable_set_nextpid. case_decide; [|done].
      rewrite <-!option_fmap_compose. reflexivity.
    + intros p. by split_and!.
  - intros p'. subst s1. rewrite !upd_lookup, !ptable_set_pheap, !upd_lookup, ptable_set_pheap,
      upd_lookup, ptable_set_nextpid, !decide_True by done.
    destruct (ptable s !! i); simpl; [|done]. intros [= <-]. done.
Qed.
End alloc.

(** A table in which exactly the unused entries have pid 0. *)
Definition pids_ok (ps : list proc) : Prop :=
  ∀ i p, ps !! i = Some p → (pid p = 0 ↔ state p = UNUSED).

(** [kkill(0)] does not fail while an entry is unused: it marks the first
    unused entry as killed, and the next process [allocproc] makes is born
    killed, since [allocproc] does not reset the flag. *)
Theorem kill_zero_marks_next {I : Type} `{InodeOps I} (kend trampoline forkret : Z) (s s' : pls I)
    (i : nat) :
  pids_ok (ptable s) → find_unused (ptable s) 0 ≠ None →
  allocproc kend trampoline forkret (set_ptable (kkill 0 (ptable s)).2 s) = Ok (Some i, s') →
  (kkill 0 (ptable s)).1 = 0 ∧
  ∃ p', ptable s' !! i = Some p' ∧ state p' = USED ∧ pid p' = nextpid s ∧ killed_flag p' = 1.
Proof.
  intros Hok Hu Ha. destruct (kkill_spec 0 (ptable s)) as [[Hk HF]|(l & p & r & Hps & Hp & HF & Hk)].
  { destruct (find_unused (ptable s) 0) as [j|] eqn:Hj; [|done].
    destruct (find_unused_spec _ _ _ Hj) as (j' & q & -> & Hq & Hst & _).
    rewrite Forall_lookup in HF. destruct (HF _ _ Hq). by apply (Hok _ _ Hq). }
  rewrite Hk in Ha |- *. split; [done|].
  destruct (allocproc_spec _ _ _ _ _ _ Ha) as (Hf & _ & (g & Hg & Hl) & Hi). simpl in Hf.
  unfold ptable in Hf. simpl in Hf.
  destruct (find_unused_spec _ _ _ Hf) as (j & q & -> & Hq & Hst & Hfst). simpl in *.
  assert (state p = UNUSED) as Hpu.
  { apply (Hok (length l)); [|done]. rewrite Hps. by apply list_lookup_middle. }
  assert (kill_entry p = set_killed_flag 1 p) as Hke.
  { unfold kill_entry. rewrite bool_decide_eq_false_2; [done|]. simpl. congruence. }
  assert (j = length l) as ->.
  { destruct (Nat.lt_trichotomy j (length l)) as [Hlt|[Heq|Hgt]]; [|done|].
    - exfalso. rewrite lookup_app_l in Hq by done. rewrite Forall_lookup in HF.
      destruct (HF _ _ Hq). apply (Hok j q); [|done]. rewrite Hps. by rewrite lookup_app_l.
    - exfalso. eapply (Hfst (length l)); [done|by apply list_lookup_middle|]. by rewrite Hke. }
  rewrite list_lookup_middle in Hq by done. injection Hq as <-.
  specialize (Hl (length l)). rewrite decide_True in Hl by done.
  assert (ptable (set_ptable (l ++ kill_entry p :: r) s) !! length l = Some (kill_entry p)) as Hlk.
  { unfold ptable. simpl. by apply list_lookup_middle. }
  rewrite Hlk in Hl. simpl in Hl. exists (g (kill_entry p)).
  destruct (Hi _ Hl) as (? & ? & _). destruct (Hg (kill_entry p)) as (Hkf & _).
  split_and!; try done. rewrite Hkf, Hke. done.
Qed.

(** *** Witness: four free pages, one running process, one unused entry *)
Import NoInodes.

Definition k4 : kst :=
  let p i := PHYSTOP - 4096 * i in
  mkK (st64 (st64 (st64 ∅ (p 1) (p 2)) (p 2) (p 3)) (p 3) (p 4)) (p 1).
Definition unused0 : proc :=
  mkProc UNUSED ChNull 0 0 0 None (KSTACK 1) 0 0 0 [] (replicate NOFILE None) None (replicate 16 0) 0.
Definition s4 : pls unit := mkPL (mkF [] ∅ k4 [wproc RUNNING None; unused0] [] tt) 2 0.

Definition alloc4 : res (option nat * pls unit) :=
  allocproc (PHYSTOP - 16384) KERNBASE KERNBASE (set_ptable (kkill 0 (ptable s4)).2 s4).

Lemma kill_zero_marks_next_witness :
  ∃ s' p', alloc4 = Ok (Some 1%nat, s') ∧ ptable s' !! 1%nat = Some p' ∧ killed_flag p' = 1.
Proof.
  assert (match alloc4 with Ok (Some 1%nat, _) => true | _ => false end = true) as Hc
    by (vm_compute; reflexivity).
  destruct alloc4 as [[[[|[|i]]|] s']| |] eqn:Ha; try discriminate Hc.
  destruct (kill_zero_marks_next (PHYSTOP - 16384) KERNBASE KERNBASE s4 s' 1) as (_ & p' & Hp & _ & _ & Hk).
  - intros [|[|i]] p Hp; [..|discriminate Hp]; injection Hp as <-; simpl; (split; intros Hx; first [discriminate Hx|reflexivity]).
  - discriminate.
  - exact Ha.
  - exists s', p'. split; [reflexivity|]. split; [exact Hp|exact Hk].
Defined.
