(* ===== verification/Switch.v ===== *)
(** * The context switch: sched, scheduler and the hand-over of p->lock

    [mycpu], [myproc] and [sched] of [proc.c], and the protocol of the callers
    around the context switch: a process acquires its own lock, changes its
    state and calls [sched]; the scheduler of that CPU releases the lock, and
    acquires it again before it resumes the process, perhaps on another CPU,
    which then releases it.  Between two actions of a CPU the others may run.
    [acquire] and [release] are one action each: [Spinlock] shows that their
    critical sections exclude each other. *)
From S2P Require Import Prelude Spinlock Proc.

(** Where a kernel thread is: never run; outside; its lock held and its state
    changed, before [sched]; switched out; switched in, before [intena] is
    restored; before the release of its lock. *)
Inductive tpc := TNew | TKern | TSched | TOut | TIn | TRel.

(** [t_held] counts the other locks it holds; [t_on] and [t_was] are history:
    the CPU it is on, and whether interrupts were enabled when it last held no
    lock before it gave up the CPU. *)
Record thr := mkThr {
  t_pc : tpc; t_state : procstate; t_lk : spinlock;
  t_intena : Z;              (* the local variable of [sched] *)
  t_held : Z; t_on : option nat; t_was : bool
}.

(** The scheduler of a CPU: in its loop; process [i] runs; back from process
    [i]; before the release of the lock of [i]. *)
Inductive cpc := CIdle | CRun (i : nat) | CBack (i : nat) | CRel (i : nat).
Record kcpu := mkKc { k_cpu : cpu; k_proc : option nat; k_pc : cpc }.

Record ksys := mkKs { kcpus : nat → kcpu; kthrs : nat → thr }.

Definition fupd {A} (i : nat) (y : A) (f : nat → A) : nat → A := λ j, if decide (i = j) then y else f j.
Definition set_k (j : nat) (k : kcpu) (x : ksys) : ksys := mkKs (fupd j k (kcpus x)) (kthrs x).
Definition set_t (i : nat) (t : thr) (x : ksys) : ksys := mkKs (kcpus x) (fupd i t (kthrs x)).

Definition set_k_cpu (c : cpu) (k : kcpu) : kcpu := mkKc c (k_proc k) (k_pc k).
Definition set_k_pc (p : cpc) (k : kcpu) : kcpu := mkKc (k_cpu k) (k_proc k) p.
Definition set_t_lk (l : spinlock) (t : thr) : thr :=
  mkThr (t_pc t) (t_state t) l (t_intena t) (t_held t) (t_on t) (t_was t).
Definition set_t_pc (p : tpc) (t : thr) : thr :=
  mkThr p (t_state t) (t_lk t) (t_intena t) (t_held t) (t_on t) (t_was t).
Definition set_t_state (s : procstate) (t : thr) : thr :=
  mkThr (t_pc t) s (t_lk t) (t_intena t) (t_held t) (t_on t) (t_was t).
Definition set_t_held (n : Z) (t : thr) : thr :=
  mkThr (t_pc t) (t_state t) (t_lk t) (t_intena t) n (t_on t) (t_was t).

(** [None]: the lock is taken and the CPU spins. *)
Definition acquire (j : nat) (c : cpu) (lk : spinlock) : res (option (cpu * spinlock)) :=
  let c := push_off c in
  if holding lk j then Panic "acquire"
  else let '(old, lk) := test_and_set lk in
       if negb (old =? 0) then Ok None else Ok (Some (c, mkLk (locked lk) (Some j))).

Definition release (j : nat) (c : cpu) (lk : spinlock) : res (cpu * spinlock) :=
  if negb (holding lk j) then Panic "release"
  else c ← pop_off c; Ok (c, mkLk 0 None).

Definition mycpu (j : nat) (x : ksys) : kcpu := kcpus x j.

(** The process of the CPU, and the CPU after [push_off] and [pop_off]. *)
Definition myproc (j : nat) (x : ksys) : res (option nat * ksys) :=
  let c := push_off (k_cpu (mycpu j x)) in
  let p := k_proc (mycpu j x) in
  c ← pop_off c;
  Ok (p, set_k j (set_k_cpu c (mycpu j x)) x).

(** [sched] up to [swtch]: the value kept in [intena]. *)
Definition sched (j : nat) (c : cpu) (t : thr) : res Z :=
  if negb (holding (t_lk t) j) then Panic "sched p->lock"
  else if negb (noff c =? 1) then Panic "sched locks"
  else if decide (t_state t = RUNNING) then Panic "sched RUNNING"
  else if negb (intr_get c =? 0) then Panic "sched interruptible"
  else Ok (intena c).

Inductive action :=
| APick (i : nat)       (* scheduler: acquire the lock of [i], run it if RUNNABLE *)
| ABack                 (* scheduler: c->proc = 0 after the switch back *)
| ARel                  (* scheduler: release the lock *)
| AIntr (b : bool)      (* the thread enables or disables interrupts *)
| APush | APop          (* the thread acquires or releases another lock *)
| AYield                (* yield: acquire, RUNNABLE *)
| ASleep (s : procstate) (* sleep and kexit: acquire, release the other lock, state [s] *)
| ASched                (* sched *)
| AIn                   (* after [swtch] in sched: restore intena *)
| ATRel                 (* release(&p->lock) of yield, sleep, forkret *)
| AWake (k : nat)       (* wakeup of [k]: acquire, SLEEPING to RUNNABLE, release *)
| AFork (k : nat)       (* allocproc and kfork: an UNUSED process becomes RUNNABLE *)
| AFree (k : nat).      (* kwait: a ZOMBIE is freed *)

Definition wake1 (t : thr) : thr := if decide (t_state t = SLEEPING) then set_t_state RUNNABLE t else t.
Definition fork1 (t : thr) : thr :=
  if decide (t_state t = UNUSED) then set_t_pc TNew (set_t_state RUNNABLE t) else t.
Definition free1 (t : thr) : thr := if decide (t_state t = ZOMBIE) then set_t_state UNUSED t else t.

(** Another process's state changed under its lock. *)
Definition with_lock (j k : nat) (f : thr → thr) (x : ksys) : res (option ksys) :=
  r ← acquire j (k_cpu (mycpu j x)) (t_lk (kthrs x k));
  match r with
  | None => Ok None
  | Some (c, lk) =>
      let t := f (kthrs x k) in
      '(c, lk) ← release j c lk;
      Ok (Some (set_t k (set_t_lk lk t) (set_k j (set_k_cpu c (mycpu j x)) x)))
  end.

(** What the thread of CPU [j] may do between its calls. *)
Definition kern_act (j i : nat) (a : action) (x : ksys) : res (option ksys) :=
  let k := mycpu j x in let t := kthrs x i in let c := k_cpu k in
  match a with
  | AIntr b => if t_held t =? 0
      then Ok (Some (set_k j (set_k_cpu (if b then intr_on c else intr_off c) k) x)) else Ok None
  | APush => Ok (Some (set_t i (set_t_held (t_held t + 1) t) (set_k j (set_k_cpu (push_off c) k) x)))
  | APop => if 0 <? t_held t then
        c ← pop_off c;
        Ok (Some (set_t i (set_t_held (t_held t - 1) t) (set_k j (set_k_cpu c k) x)))
      else Ok None
  | AYield => if t_held t =? 0 then
        '(p, x) ← myproc j x;
        match p with
        | None => Panic "myproc"
        | Some i =>
            let t := kthrs x i in
            r ← acquire j (k_cpu (mycpu j x)) (t_lk t);
            match r with
            | None => Ok None
            | Some (c', lk) =>
                Ok (Some (set_t i (mkThr TSched RUNNABLE lk (t_intena t) 0 (t_on t) (sie c))
                            (set_k j (set_k_cpu c' (mycpu j x)) x)))
            end
        end
      else Ok None
  | ASleep s => if (t_held t =? 1) && (bool_decide (s = SLEEPING) || bool_decide (s = ZOMBIE)) then
        '(p, x) ← myproc j x;
        match p with
        | None => Panic "myproc"
        | Some i =>
            let t := kthrs x i in
            r ← acquire j (k_cpu (mycpu j x)) (t_lk t);
            match r with
            | None => Ok None
            | Some (c', lk) =>
                c' ← pop_off c';
                Ok (Some (set_t i (mkThr TSched s lk (t_intena t) 0 (t_on t) (negb (intena c =? 0)))
                            (set_k j (set_k_cpu c' (mycpu j x)) x)))
            end
        end
      else Ok None
  | AWake k => if decide (k = i) then Ok None
      else with_lock j k wake1 x
  | AFork k => if decide (k = i) then Ok None
      else with_lock j k fork1 x
  | AFree k => if decide (k = i) then Ok None
      else with_lock j k free1 x
  | _ => Ok None
  end.

Definition act (j : nat) (a : action) (x : ksys) : res (option ksys) :=
  let k := mycpu j x in
  match k_pc k with
  | CIdle =>
      match a with
      | APick i =>
          let t := kthrs x i in
          r ← acquire j (intr_off (intr_on (k_cpu k))) (t_lk t);
          match r with
          | None => Ok None
          | Some (c, lk) =>
              if decide (t_state t = RUNNABLE) then
                let pc := match t_pc t with TNew => TRel | _ => TIn end in
                let was := match t_pc t with TNew => false | _ => t_was t end in
                Ok (Some (set_t i (mkThr pc RUNNING lk (t_intena t) (t_held t) (Some j) was)
                            (set_k j (mkKc c (Some i) (CRun i)) x)))
              else Ok (Some (set_t i (set_t_lk lk t) (set_k j (mkKc c (k_proc k) (CRel i)) x)))
          end
      | AWake k => with_lock j k wake1 x
      | AFork k => with_lock j k fork1 x
      | _ => Ok None
      end
  | CRun i =>
      let t := kthrs x i in
      match t_pc t, a with
      | TKern, a => kern_act j i a x
      | TSched, ASched =>
          z ← sched j (k_cpu k) t;
          Ok (Some (set_t i (mkThr TOut (t_state t) (t_lk t) z 0 None (t_was t))
                      (set_k j (set_k_pc (CBack i) k) x)))
      | TIn, AIn =>
          let c := k_cpu k in
          Ok (Some (set_t i (set_t_pc TRel t) (set_k j (set_k_cpu (mkCpu (noff c) (t_intena t) (sie c)) k) x)))
      | TRel, ATRel =>
          '(c, lk) ← release j (k_cpu k) (t_lk t);
          Ok (Some (set_t i (set_t_pc TKern (set_t_lk lk t)) (set_k j (set_k_cpu c k) x)))
      | _, _ => Ok None
      end
  | CBack i => match a with ABack => Ok (Some (set_k j (mkKc (k_cpu k) None (CRel i)) x)) | _ => Ok None end
  | CRel i =>
      match a with
      | ARel =>
          '(c, lk) ← release j (k_cpu k) (t_lk (kthrs x i));
          Ok (Some (set_t i (set_t_lk lk (kthrs x i)) (set_k j (mkKc c (k_proc k) CIdle) x)))
      | _ => Ok None
      end
  end.

Definition kstep (x y : ksys) : Prop := ∃ j a, act j a x = Ok (Some y).

(** Before the first process: every CPU in its scheduler, every slot unused. *)
Definition kboot : ksys :=
  mkKs (λ _, mkKc (mkCpu 0 0 false) None CIdle) (λ _, mkThr TNew UNUSED initlock 0 0 None false).

(** ** The invariant *)
Definition lkpc (p : tpc) : bool := match p with TSched | TIn | TRel => true | _ => false end.
Definition onpc (p : tpc) : bool := match p with TNew | TOut => false | _ => true end.
Definition on_cpu (k : kcpu) (i : nat) : bool :=
  match k_pc k with CIdle => false | CRun n | CBack n | CRel n => bool_decide (n = i) end.
(** The CPU [k] is where process [i] has its lock held. *)
Definition owns_lk (k : kcpu) (i : nat) (t : thr) : bool :=
  match k_pc k with CRun n => bool_decide (n = i) && lkpc (t_pc t) | _ => on_cpu k i end.

Definition cpu_at (j : nat) (k : kcpu) (T : nat → thr) : Prop :=
  let c := k_cpu k in
  match k_pc k with
  | CIdle => k_proc k = None ∧ noff c = 0
  | CRun i => k_proc k = Some i ∧ t_on (T i) = Some j ∧ onpc (t_pc (T i)) = true ∧
      if lkpc (t_pc (T i)) then t_lk (T i) = mkLk 1 (Some j) ∧ noff c = 1 ∧ sie c = false ∧
        (t_pc (T i) ≠ TIn → negb (intena c =? 0) = t_was (T i))
      else noff c = t_held (T i) ∧ (0 < noff c → sie c = false)
  | CBack i => k_proc k = Some i ∧ t_lk (T i) = mkLk 1 (Some j) ∧ noff c = 1 ∧ sie c = false ∧ t_pc (T i) = TOut
  | CRel i => k_proc k = None ∧ t_lk (T i) = mkLk 1 (Some j) ∧ noff c = 1 ∧ sie c = false
  end.

Definition thr_at (t : thr) : Prop :=
  (t_state t = RUNNING ↔ t_pc t = TKern ∨ t_pc t = TIn ∨ t_pc t = TRel) ∧
  (t_state t = UNUSED → onpc (t_pc t) = false) ∧
  (onpc (t_pc t) = false ↔ t_on t = None) ∧ 0 <= t_held t ∧ (t_pc t ≠ TKern → t_held t = 0) ∧
  (t_pc t = TOut ∨ t_pc t = TIn → negb (t_intena t =? 0) = t_was t).

Record kinv (x : ksys) : Prop := {
  ki_cpu j : cpu_at j (kcpus x j) (kthrs x);
  ki_lk i : t_lk (kthrs x i) = mkLk 0 None ∨
    ∃ j, t_lk (kthrs x i) = mkLk 1 (Some j) ∧ owns_lk (kcpus x j) i (kthrs x i) = true;
  ki_on i j : t_on (kthrs x i) = Some j → k_pc (kcpus x j) = CRun i;
  ki_thr i : thr_at (kthrs x i)
}.

Lemma fupd_eq {A} i (y : A) f : fupd i y f i = y.
Proof. unfold fupd. by rewrite decide_True. Qed.
Lemma fupd_ne {A} i j (y : A) f : i ≠ j → fupd i y f j = f j.
Proof. intros. unfold fupd. by rewrite decide_False. Qed.

(** [cpu_at] depends on the process of the CPU only. *)
Lemma cpu_at_ext j k T T' : (∀ i, on_cpu k i = true → T' i = T i) → cpu_at j k T → cpu_at j k T'.
Proof.
  unfold cpu_at, on_cpu. intros He. destruct (k_pc k); [done|..]; rewrite He by (by apply bool_decide_eq_true); done.
Qed.

(** CPU [j] and process [i] change together. *)
Lemma kinv_upd x j i k' t' :
  kinv x → (∀ n, on_cpu (kcpus x j) n = true → n = i) → (∀ n, on_cpu k' n = true → n = i) →
  cpu_at j k' (fupd i t' (kthrs x)) → thr_at t' →
  (t_lk (kthrs x i) = mkLk 0 None ∨ t_lk (kthrs x i) = mkLk 1 (Some j)) →
  (t_lk t' = mkLk 0 None ∨ t_lk t' = mkLk 1 (Some j) ∧ owns_lk k' i t' = true) →
  (t_on (kthrs x i) = None ∨ t_on (kthrs x i) = Some j) →
  (t_on t' = None ∨ t_on t' = Some j ∧ k_pc k' = CRun i) →
  kinv (set_t i t' (set_k j k' x)).
Proof.
  intros [Hc Hl Ho Ht] Hr Hr' Hc' Ht' Hl0 Hl' Ho0 Ho'. split; simpl.
  - intros n. destruct (decide (j = n)) as [<-|Hn]; [by rewrite fupd_eq|]. rewrite fupd_ne by done.
    eapply cpu_at_ext; [|apply Hc]. intros m Hm. apply fupd_ne. intros <-. specialize (Hc n).
    unfold cpu_at, on_cpu in *. destruct (k_pc (kcpus x n)); [done|..]; apply bool_decide_eq_true in Hm as ->;
      destruct Hc as (H1 & H2 & H3); destruct Ho0, Hl0; congruence.
  - intros n. destruct (decide (i = n)) as [<-|Hn].
    + rewrite fupd_eq. destruct Hl' as [?|[? ?]]; [by left|]. right. exists j. by rewrite fupd_eq.
    + rewrite fupd_ne by done. destruct (Hl n) as [?|(m & Hm & Hw)]; [by left|]. right. exists m. split; [done|].
      destruct (decide (j = m)) as [<-|]; [|by rewrite fupd_ne].
      assert (on_cpu (kcpus x j) n = true) as Hon.
      { unfold owns_lk, on_cpu in *. destruct (k_pc (kcpus x j)); try done. by apply andb_true_iff in Hw as [? _]. }
      by destruct Hn; rewrite (Hr n Hon).
  - intros n m. destruct (decide (i = n)) as [<-|Hn].
    + rewrite fupd_eq. intros He. destruct Ho' as [|[Hm Hk]]; [congruence|].
      assert (m = j) as -> by congruence. by rewrite fupd_eq.
    + rewrite fupd_ne by done. intros He. pose proof (Ho n m He) as Hk.
      destruct (decide (j = m)) as [<-|]; [|by rewrite fupd_ne].
      destruct Hn. symmetry. apply Hr. unfold on_cpu. rewrite Hk. by apply bool_decide_eq_true.
  - intros n. destruct (decide (i = n)) as [<-|]; [by rewrite fupd_eq|by rewrite fupd_ne].
Qed.

(** *** One CPU or one process changes *)
Lemma kinv_cpu x j c :
  kinv x → noff c = noff (k_cpu (kcpus x j)) → sie c = sie (k_cpu (kcpus x j)) →
  (0 < noff c → intena c = intena (k_cpu (kcpus x j))) →
  kinv (set_k j (set_k_cpu c (kcpus x j)) x).
Proof.
  intros [Hc Hl Ho Ht] Hn Hs Hi. split; simpl; [| |intros i m; destruct (decide (j = m)) as [<-|];
    [rewrite fupd_eq; apply Ho|rewrite fupd_ne by done; apply Ho]|done].
  - intros m. destruct (decide (j = m)) as [<-|]; [|by rewrite fupd_ne]. rewrite fupd_eq.
    specialize (Hc j). unfold cpu_at in *. simpl. destruct (k_pc (kcpus x j)); rewrite ?Hn, ?Hs; try done.
    destruct (lkpc _); [|done]. destruct Hc as (? & ? & ? & ? & H1 & ? & ?).
    rewrite Hi by lia. done.
  - intros i. destruct (Hl i) as [?|(m & Hm & Hw)]; [by left|]. right. exists m. split; [done|].
    destruct (decide (j = m)) as [<-|]; [by rewrite fupd_eq|by rewrite fupd_ne].
Qed.

Lemma kinv_thr x i t' :
  kinv x → t_lk (kthrs x i) = mkLk 0 None → t_lk t' = mkLk 0 None → thr_at t' →
  t_on t' = t_on (kthrs x i) → t_held t' = t_held (kthrs x i) →
  (t_pc t' = t_pc (kthrs x i) ∨ t_on (kthrs x i) = None) → kinv (set_t i t' x).
Proof.
  intros [Hc Hl Ho Ht] H0 H1 Ht' Hon Hh Hpc. split; simpl.
  - intros m. specialize (Hc m). unfold cpu_at in *.
    destruct (k_pc (kcpus x m)) as [|n|n|n]; [done|..]; (destruct (decide (i = n)) as [<-|]; [|by rewrite fupd_ne]);
      rewrite fupd_eq; [|destruct Hc as (? & ? & ?); congruence..].
    destruct Hc as (C1 & C2 & C3 & C4). destruct Hpc as [Hpc|]; [|congruence].
    rewrite Hpc, Hon, Hh. split_and!; try done.
    destruct (lkpc _); [|done]. destruct C4; congruence.
  - intros n. destruct (decide (i = n)) as [<-|]; [rewrite fupd_eq; by left|rewrite fupd_ne by done; apply Hl].
  - intros n m. destruct (decide (i = n)) as [<-|]; [rewrite fupd_eq, Hon; apply Ho|rewrite fupd_ne by done; apply Ho].
  - intros n. destruct (decide (i = n)) as [<-|]; [by rewrite fupd_eq|by rewrite fupd_ne].
Qed.

(** *** Locks *)
Lemma acquire_free j c : acquire j c (mkLk 0 None) = Ok (Some (push_off c, mkLk 1 (Some j))).
Proof. done. Qed.
Lemma acquire_taken j m c : m ≠ j → acquire j c (mkLk 1 (Some m)) = Ok None.
Proof. intros. unfold acquire, holding. simpl. rewrite bool_decide_false by congruence. done. Qed.
Lemma release_held j c : release j c (mkLk 1 (Some j)) = (c ← pop_off c; Ok (c, mkLk 0 None)).
Proof. unfold release, holding. simpl. by rewrite bool_decide_true. Qed.

Lemma push_facts c : noff (push_off c) = noff c + 1 ∧ sie (push_off c) = false ∧
  intena (push_off c) = if noff c =? 0 then intr_get c else intena c.
Proof. unfold push_off. simpl. by destruct (noff c =? 0). Qed.

(** The last [pop_off] restores the interrupts, an inner one does not. *)
Lemma pop_facts c : 1 <= noff c → sie c = false →
  ∃ c', pop_off c = Ok c' ∧ noff c' = noff c - 1 ∧ intena c' = intena c ∧
    sie c' = if noff c =? 1 then negb (intena c =? 0) else false.
Proof.
  intros Hn Hs. unfold pop_off, intr_get. rewrite Hs. simpl. rewrite (proj2 (Z.ltb_ge _ _)) by lia.
  eexists. split; [done|]. destruct (Z.eqb_spec (noff c) 1) as [He|He].
  - rewrite He. simpl. by destruct (intena c =? 0).
  - rewrite (proj2 (Z.eqb_neq (noff c - 1) 0)) by lia. simpl. done.
Qed.

Definition good (r : res (option ksys)) : Prop :=
  match r with Ok (Some y) => kinv y | Ok None => True | _ => False end.

Lemma cpu_at_ok j k T : cpu_at j k T → (∀ i, thr_at (T i)) → cpu_ok (k_cpu k).
Proof.
  intros Hc Ht. unfold cpu_at, cpu_ok in *. destruct (k_pc k) as [|i|i|i].
  - destruct Hc as (_ & ->). split; [lia|]. intros. lia.
  - destruct Hc as (_ & _ & _ & Hc). destruct (lkpc _).
    + destruct Hc as (_ & -> & -> & _). split; [lia|done].
    + destruct Hc as [-> Hs]. destruct (Ht i) as (_ & _ & _ & ? & _). split; [done|exact Hs].
  - destruct Hc as (_ & _ & -> & -> & _). split; [lia|done].
  - destruct Hc as (_ & _ & -> & ->). split; [lia|done].
Qed.

(** A process whose lock is free is running outside [sched], or on no CPU. *)
Lemma free_lock x i : kinv x → t_lk (kthrs x i) = mkLk 0 None →
  t_pc (kthrs x i) = TKern ∧ t_state (kthrs x i) = RUNNING ∨ t_on (kthrs x i) = None ∧ onpc (t_pc (kthrs x i)) = false.
Proof.
  intros [Hc Hl Ho Ht] H0. destruct (Ht i) as (Hr & _ & Hon & _).
  destruct (t_on (kthrs x i)) as [j|] eqn:He; [|right; split; [done|by apply Hon]].
  left. specialize (Hc j). unfold cpu_at in Hc. rewrite (Ho i j He) in Hc. destruct Hc as (_ & _ & Hp & Hc).
  destruct (lkpc (t_pc (kthrs x i))) eqn:Hlk; [destruct Hc; congruence|].
  destruct (t_pc (kthrs x i)) eqn:Hpc; try done. split; [done|]. apply Hr. by left.
Qed.

Lemma with_lock_good j k f x :
  kinv x → (k_pc (kcpus x j) = CIdle ∨ ∃ i, k_pc (kcpus x j) = CRun i ∧ t_pc (kthrs x i) = TKern) →
  (∀ t, t_lk (f t) = t_lk t ∧ t_on (f t) = t_on t ∧ t_held (f t) = t_held t) →
  (thr_at (kthrs x k) → t_pc (kthrs x k) = TKern ∧ t_state (kthrs x k) = RUNNING ∨
     t_on (kthrs x k) = None ∧ onpc (t_pc (kthrs x k)) = false →
     thr_at (f (kthrs x k)) ∧ (t_pc (f (kthrs x k)) = t_pc (kthrs x k) ∨ t_on (kthrs x k) = None)) →
  good (with_lock j k f x).
Proof.
  intros Hi Hj Hf Ht. pose proof Hi as [Hc Hl Ho Hth]. unfold with_lock, mycpu.
  destruct (Hl k) as [H0|(m & Hm & Hw)].
  - rewrite H0, acquire_free. simpl.
    destruct (pop_push (k_cpu (kcpus x j))) as (c' & Hp & Hn & Hs & Hin); [by apply (cpu_at_ok j _ (kthrs x))|].
    rewrite release_held, Hp. simpl. destruct (Ht (Hth k) (free_lock x k Hi H0)) as [T1 T2].
    destruct (Hf (kthrs x k)) as (F1 & F2 & F3).
    apply (kinv_thr (set_k j (set_k_cpu c' (kcpus x j)) x)); simpl; try done.
    apply kinv_cpu; try done. intros Hn0. apply Hin. lia.
  - rewrite Hm, acquire_taken; [done|]. intros ->. unfold owns_lk, on_cpu in Hw.
    destruct Hj as [Hj|(i & Hj & Hpc)]; rewrite Hj in Hw; [done|].
    apply andb_true_iff in Hw as [He Hw]. apply bool_decide_eq_true in He as ->. by rewrite Hpc in Hw.
Qed.

Lemma wake_good j k x : kinv x →
  (k_pc (kcpus x j) = CIdle ∨ ∃ i, k_pc (kcpus x j) = CRun i ∧ t_pc (kthrs x i) = TKern) →
  good (with_lock j k wake1 x) ∧ good (with_lock j k fork1 x) ∧ good (with_lock j k free1 x).
Proof.
  intros Hi Hj. split_and!; apply with_lock_good; try done; unfold wake1, fork1, free1.
  1, 3, 5: intros t; by case_decide.
  all: case_decide as He; [|by split; [|left]]; intros (T1 & T2 & T3 & T4 & T5 & T6) [[Hp Hr]|[Hn Hp]]; [congruence|].
  all: split; [|auto]; destruct (kthrs x k); simpl in *; subst; unfold thr_at; simpl;
    split_and!; try done; try (destruct t_pc0; naive_solver).
Qed.

(** *** What a running thread does *)
Section thread.
Context (x : ksys) (j i : nat) (Hi : kinv x) (Hpc : k_pc (kcpus x j) = CRun i) (Ht : t_pc (kthrs x i) = TKern).

Lemma thread_facts : k_proc (kcpus x j) = Some i ∧ t_on (kthrs x i) = Some j ∧
  noff (k_cpu (kcpus x j)) = t_held (kthrs x i) ∧ 0 <= t_held (kthrs x i) ∧
  (0 < t_held (kthrs x i) → sie (k_cpu (kcpus x j)) = false) ∧ t_state (kthrs x i) = RUNNING.
Proof using Hi Hpc Ht.
  pose proof (ki_cpu _ Hi j) as Hc. unfold cpu_at in Hc. rewrite Hpc, Ht in Hc. simpl in Hc.
  destruct Hc as (H1 & H2 & _ & H3 & H4). destruct (ki_thr _ Hi i) as (T1 & _ & _ & T4 & _).
  split_and!; try done. { by rewrite <-H3. } apply T1. by left.
Qed.

(** Its own lock is free, or another CPU holds it for a moment. *)
Lemma own_lock : t_lk (kthrs x i) = mkLk 0 None ∨ ∃ m, m ≠ j ∧ t_lk (kthrs x i) = mkLk 1 (Some m).
Proof using Hi Hpc Ht.
  destruct (ki_lk _ Hi i) as [?|(m & Hm & Hw)]; [by left|]. right. exists m. split; [|done].
  intros ->. unfold owns_lk in Hw. rewrite Hpc, Ht in Hw. by apply andb_true_iff in Hw as [_ ?].
Qed.

(** [t_held] and the interrupts change together with the CPU. *)
Lemma thread_upd c n :
  noff c = n → 0 <= n → (0 < n → sie c = false) →
  kinv (set_t i (set_t_held n (kthrs x i)) (set_k j (set_k_cpu c (kcpus x j)) x)).
Proof using Hi Hpc Ht.
  intros Hn H0 Hs. destruct thread_facts as (F1 & F2 & F3 & F4 & F5 & F6). pose proof Hi as [Hc Hl Ho Hth].
  split; simpl.
  - intros m. destruct (decide (j = m)) as [<-|Hne].
    + rewrite fupd_eq. unfold cpu_at. simpl. rewrite Hpc, fupd_eq. simpl. rewrite Ht. simpl. by rewrite <-Hn in *.
    + rewrite fupd_ne by done. specialize (Hc m). unfold cpu_at in *.
      destruct (k_pc (kcpus x m)) as [|a|a|a]; [done|..]; (destruct (decide (i = a)) as [<-|]; [|by rewrite fupd_ne]);
        rewrite fupd_eq; simpl; [destruct Hc as (_ & ? & _); congruence|done|done].
  - intros a. destruct (Hl a) as [He|(m & Hm & Hw)].
    + left. destruct (decide (i = a)) as [<-|]; [by rewrite fupd_eq|by rewrite fupd_ne].
    + right. exists m. assert (owns_lk (fupd j (set_k_cpu c (kcpus x j)) (kcpus x) m) a (kthrs x a) = true).
      { destruct (decide (j = m)) as [<-|]; [by rewrite fupd_eq|by rewrite fupd_ne]. }
      destruct (decide (i = a)) as [<-|]; [by rewrite fupd_eq|by rewrite fupd_ne].
  - intros a m He. assert (t_on (kthrs x a) = Some m) as He'
      by (revert He; destruct (decide (i = a)) as [<-|]; [by rewrite fupd_eq|by rewrite fupd_ne]).
    pose proof (Ho a m He'). destruct (decide (j = m)) as [<-|]; [by rewrite fupd_eq|by rewrite fupd_ne].
  - intros a. destruct (decide (i = a)) as [<-|]; [rewrite fupd_eq|by rewrite fupd_ne].
    destruct (Hth i) as (T1 & T2 & T3 & T4 & T5 & T6). unfold thr_at. simpl. split_and!; try done; tauto.
Qed.

(** [myproc] gives the process and leaves the CPU as it was. *)
Lemma myproc_ok : ∃ c', myproc j x = Ok (Some i, set_k j (set_k_cpu c' (kcpus x j)) x) ∧
  noff c' = noff (k_cpu (kcpus x j)) ∧ sie c' = sie (k_cpu (kcpus x j)) ∧
  (0 < noff (k_cpu (kcpus x j)) → intena c' = intena (k_cpu (kcpus x j))) ∧
  kinv (set_k j (set_k_cpu c' (kcpus x j)) x).
Proof using Hi Hpc Ht.
  destruct (pop_push (k_cpu (kcpus x j))) as (c' & Hp & Hn & Hs & Hin).
  { apply (cpu_at_ok j _ (kthrs x)); apply Hi. }
  destruct thread_facts as (F1 & _). exists c'. unfold myproc, mycpu. rewrite Hp. simpl. rewrite F1.
  split_and!; try done. apply kinv_cpu; try done. intros H0. apply Hin. lia.
Qed.

(** The lock of the process is taken and its state changes. *)
Lemma cede c s was : noff c = 1 → sie c = false → negb (intena c =? 0) = was →
  s ≠ RUNNING → s ≠ UNUSED → t_lk (kthrs x i) = mkLk 0 None →
  kinv (set_t i (mkThr TSched s (mkLk 1 (Some j)) (t_intena (kthrs x i)) 0 (t_on (kthrs x i)) was)
          (set_k j (set_k_cpu c (kcpus x j)) x)).
Proof using Hi Hpc Ht.
  intros Hn Hs Hw Hr Hu H0. destruct thread_facts as (F1 & F2 & _).
  apply kinv_upd; simpl; try done.
  - intros n. unfold on_cpu. rewrite Hpc. intros Hb%bool_decide_eq_true. done.
  - intros n. unfold on_cpu. simpl. rewrite Hpc. intros Hb%bool_decide_eq_true. done.
  - unfold cpu_at. simpl. rewrite Hpc, fupd_eq. simpl. split_and!; done.
  - unfold thr_at. simpl. rewrite F2. split_and!; try done; naive_solver.
  - by left.
  - right. split; [done|]. unfold owns_lk. simpl. rewrite Hpc. simpl. by rewrite bool_decide_true.
  - rewrite F2. by right.
  - right. done.
Qed.
End thread.

Lemma kinv_ext x y : (∀ j, kcpus y j = kcpus x j) → (∀ i, kthrs y i = kthrs x i) → kinv x → kinv y.
Proof.
  intros H1 H2 [Hc Hl Ho Ht]. split.
  - intros j. rewrite H1. eapply cpu_at_ext; [|apply Hc]. intros; apply H2.
  - intros i. rewrite H2. destruct (Hl i) as [?|(j & ? & ?)]; [by left|]. right. exists j. by rewrite H1.
  - intros i j. rewrite H1, H2. apply Ho.
  - intros i. by rewrite H2.
Qed.

Lemma kern_good x j i a : kinv x → k_pc (kcpus x j) = CRun i → t_pc (kthrs x i) = TKern → good (kern_act j i a x).
Proof.
  intros Hi Hpc Ht. destruct (thread_facts x j i Hi Hpc Ht) as (F1 & F2 & F3 & F4 & F5 & F6).
  assert (k_pc (kcpus x j) = CIdle ∨ ∃ i, k_pc (kcpus x j) = CRun i ∧ t_pc (kthrs x i) = TKern) as Hj by eauto.
  destruct (myproc_ok x j i Hi Hpc Ht) as (c1 & Hmy & M1 & M2 & M3 & M4).
  set (x1 := set_k j (set_k_cpu c1 (kcpus x j)) x) in *.
  assert (kcpus x1 j = set_k_cpu c1 (kcpus x j)) as Hx1 by (unfold x1; simpl; by rewrite fupd_eq).
  assert (k_pc (kcpus x1 j) = CRun i) as Hpc1 by (by rewrite Hx1).
  assert (kthrs x1 i = kthrs x i) as Ht1 by done. clearbody x1.
  assert (t_pc (kthrs x1 i) = TKern) as Ht2 by (by rewrite Ht1).
  unfold kern_act, mycpu. destruct a as [| | |b| | | |s| | | |k|k|k]; try done.
  - destruct (Z.eqb_spec (t_held (kthrs x i)) 0) as [H0|]; [|done].
    set (c := if b then _ else _). apply (kinv_ext (set_t i (set_t_held (t_held (kthrs x i)) (kthrs x i)) (set_k j (set_k_cpu c (kcpus x j)) x))); [done| |].
    + intros n. simpl. unfold fupd at 1. case_decide as He; [|done]. subst. by destruct (kthrs x n).
    + apply (thread_upd x j i Hi Hpc Ht); [by destruct b|done|lia].
  - destruct (push_facts (k_cpu (kcpus x j))) as (P1 & P2 & _).
    apply (thread_upd x j i Hi Hpc Ht); [lia|lia|done].
  - destruct (Z.ltb_spec 0 (t_held (kthrs x i))); [|done].
    destruct (pop_facts (k_cpu (kcpus x j))) as (c' & Hp & P1 & P2 & P3); [lia|by apply F5|].
    rewrite Hp. simpl. apply (thread_upd x j i Hi Hpc Ht); [lia|lia|]. intros Hn. rewrite P3.
    by rewrite (proj2 (Z.eqb_neq _ _)) by lia.
  - destruct (Z.eqb_spec (t_held (kthrs x i)) 0) as [H0|]; [|done]. rewrite Hmy. simpl. rewrite Hx1, Ht1. simpl.
    destruct (own_lock x j i Hi Hpc Ht) as [Hl|(m & Hm & Hl)]; rewrite Hl; [rewrite acquire_free|by rewrite acquire_taken].
    simpl. destruct (push_facts c1) as (P1 & P2 & P3).
    pose proof (cede x1 j i M4 Hpc1 Ht2 (push_off c1) RUNNABLE (sie (k_cpu (kcpus x j)))) as G.
    rewrite Hx1, Ht1 in G. apply G; try done; [lia|]. rewrite P3, (proj2 (Z.eqb_eq (noff c1) 0)) by lia.
    unfold intr_get. rewrite M2. by destruct (sie _).
  - destruct (Z.eqb_spec (t_held (kthrs x i)) 1) as [H0|]; [|done]. simpl.
    destruct (_ || _) eqn:Hs; [|done]. rewrite Hmy. simpl. rewrite Hx1, Ht1. simpl.
    destruct (own_lock x j i Hi Hpc Ht) as [Hl|(m & Hm & Hl)]; rewrite Hl; [rewrite acquire_free|by rewrite acquire_taken].
    simpl. destruct (push_facts c1) as (P1 & P2 & P3).
    destruct (pop_facts (push_off c1)) as (c' & Hp & Q1 & Q2 & Q3); [lia|done|]. rewrite Hp. simpl.
    pose proof (cede x1 j i M4 Hpc1 Ht2 c' s (negb (intena (k_cpu (kcpus x j)) =? 0))) as G.
    rewrite Hx1, Ht1 in G. apply orb_true_iff in Hs. rewrite !bool_decide_eq_true in Hs.
    apply G; try done; [lia| | |by destruct Hs; subst|by destruct Hs; subst].
    + rewrite Q3. by rewrite (proj2 (Z.eqb_neq (noff (push_off c1)) 1)) by lia.
    + rewrite Q2, P3, (proj2 (Z.eqb_neq (noff c1) 0)), M3 by lia. done.
  - case_decide; [done|]. by apply wake_good.
  - case_decide; [done|]. by apply wake_good.
  - case_decide; [done|]. by apply wake_good.
Qed.

(** *** The switch *)
Lemma one_proc k i : k_pc k = CRun i ∨ k_pc k = CBack i ∨ k_pc k = CRel i → ∀ n, on_cpu k n = true → n = i.
Proof. unfold on_cpu. intros [H|[H|H]] n; rewrite H; by intros ?%bool_decide_eq_true. Qed.

(** A scheduler takes or releases the lock of [i], which may run elsewhere. *)
Lemma kinv_lock x j i k' l :
  kinv x → (k_pc (kcpus x j) = CIdle ∨ k_pc (kcpus x j) = CRel i) → (k_pc k' = CIdle ∨ k_pc k' = CRel i) →
  cpu_at j k' (fupd i (set_t_lk l (kthrs x i)) (kthrs x)) →
  (t_lk (kthrs x i) = mkLk 0 None ∨ t_lk (kthrs x i) = mkLk 1 (Some j)) →
  (l = mkLk 0 None ∨ l = mkLk 1 (Some j) ∧ owns_lk k' i (set_t_lk l (kthrs x i)) = true) →
  lkpc (t_pc (kthrs x i)) = false →
  kinv (set_t i (set_t_lk l (kthrs x i)) (set_k j k' x)).
Proof.
  intros [Hc Hl Ho Ht] Hr Hr' Hc' Hl0 Hl' Hlk. split; simpl.
  - intros n. destruct (decide (j = n)) as [<-|Hn]; [by rewrite fupd_eq|]. rewrite fupd_ne by done.
    specialize (Hc n). unfold cpu_at in *.
    destruct (k_pc (kcpus x n)) as [|a|a|a]; [done|..]; (destruct (decide (i = a)) as [<-|]; [|by rewrite fupd_ne]);
      rewrite fupd_eq; simpl; [by rewrite Hlk in *|..]; destruct Hc as (_ & ? & _); destruct Hl0; congruence.
  - intros n. destruct (decide (i = n)) as [<-|Hn].
    + rewrite fupd_eq. destruct Hl' as [->|[-> ?]]; [by left|]. right. exists j. by rewrite fupd_eq.
    + rewrite fupd_ne by done. destruct (Hl n) as [?|(m & Hm & Hw)]; [by left|]. right. exists m. split; [done|].
      destruct (decide (j = m)) as [<-|]; [|by rewrite fupd_ne].
      unfold owns_lk, on_cpu in Hw. destruct Hr as [Hr|Hr]; rewrite Hr in Hw; [done|].
      by apply bool_decide_eq_true in Hw.
  - intros n m He. assert (t_on (kthrs x n) = Some m) as He'
      by (revert He; destruct (decide (i = n)) as [<-|]; [by rewrite fupd_eq|by rewrite fupd_ne]).
    pose proof (Ho n m He') as Hk. rewrite fupd_ne; [done|]. intros <-. destruct Hr; congruence.
  - intros n. destruct (decide (i = n)) as [<-|]; [rewrite fupd_eq; apply Ht|by rewrite fupd_ne].
Qed.

Lemma pick_good x j i : kinv x → k_pc (kcpus x j) = CIdle → good (act j (APick i) x).
Proof.
  intros Hi Hpc. pose proof (ki_cpu _ Hi j) as Hc. unfold cpu_at in Hc. rewrite Hpc in Hc. destruct Hc as (C1 & C2).
  unfold act, mycpu. rewrite Hpc. destruct (ki_lk _ Hi i) as [Hl|(m & Hl & Hw)]; rewrite Hl.
  2: { rewrite acquire_taken; [done|]. intros ->. unfold owns_lk, on_cpu in Hw. by rewrite Hpc in Hw. }
  rewrite acquire_free. set (c := push_off _).
  assert (noff c = 1 ∧ sie c = false ∧ intena c = 0) as (N1 & N2 & N3).
  { unfold c, push_off, intr_get. simpl. rewrite C2. done. }
  clearbody c.
  destruct (ki_thr _ Hi i) as (T1 & T2 & T3 & T4 & T5 & T6).
  pose proof (free_lock x i Hi Hl) as Hf. case_decide as Hr.
  - destruct Hf as [[_ ?]|[Hon Hp]]; [congruence|]. apply kinv_upd; simpl; try done.
    + intros n. unfold on_cpu. by rewrite Hpc.
    + apply one_proc. by left.
    + unfold cpu_at. simpl. rewrite fupd_eq. simpl. split_and!; [done|done|by destruct (t_pc _)|].
      destruct (t_pc (kthrs x i)); simpl; try done; split_and!; try done; intros; by rewrite ?N3.
    + unfold thr_at. simpl. destruct (t_pc (kthrs x i)); try done; simpl in *; split_and!; try done; naive_solver.
    + by left.
    + right. split; [done|]. unfold owns_lk. simpl. rewrite bool_decide_true by done. by destruct (t_pc _).
    + by left.
    + by right.
  - apply kinv_lock; simpl; try done; [by left|by right| |by left| |].
    + unfold cpu_at. simpl. rewrite fupd_eq. simpl. done.
    + right. split; [done|]. unfold owns_lk, on_cpu. simpl. by rewrite bool_decide_true.
    + destruct Hf as [[-> _]|[_ Hp]]; [done|]. by destruct (t_pc _).
Qed.

Lemma rel_good x j i : kinv x → k_pc (kcpus x j) = CRel i → good (act j ARel x).
Proof.
  intros Hi Hpc. pose proof (ki_cpu _ Hi j) as Hc. unfold cpu_at in Hc. rewrite Hpc in Hc. destruct Hc as (C1 & C2 & C3 & C4).
  unfold act, mycpu. rewrite Hpc, C2, release_held.
  destruct (pop_facts (k_cpu (kcpus x j))) as (c' & Hp & P1 & P2 & P3); [lia|done|]. rewrite Hp. simpl.
  assert (lkpc (t_pc (kthrs x i)) = false) as Hlk.
  { destruct (lkpc _) eqn:He; [|done]. destruct (ki_thr _ Hi i) as (_ & _ & T3 & _).
    destruct (t_on (kthrs x i)) as [m|] eqn:Hon; [|destruct T3 as [_ T3]; specialize (T3 eq_refl); by destruct (t_pc _)].
    pose proof (ki_on _ Hi i m Hon) as Hm. pose proof (ki_cpu _ Hi m) as Hcm. unfold cpu_at in Hcm.
    rewrite Hm, He in Hcm. destruct Hcm as (_ & _ & _ & L & _). congruence. }
  apply kinv_lock; simpl; try done; [by right|by left| |by right|by left].
  unfold cpu_at. simpl. split; [done|lia].
Qed.

Lemma sched_good x j i a : kinv x → k_pc (kcpus x j) = CRun i → good (act j a x).
Proof.
  intros Hi Hpc. pose proof (ki_cpu _ Hi j) as Hc. unfold cpu_at in Hc. rewrite Hpc in Hc.
  destruct Hc as (C1 & C2 & C3 & C4). destruct (ki_thr _ Hi i) as (T1 & T2 & T3 & T4 & T5 & T6).
  unfold act, mycpu. rewrite Hpc. destruct (t_pc (kthrs x i)) eqn:Ht; try done; simpl in C4.
  - by apply kern_good.
  - destruct C4 as (L & N & S & I). destruct a; try done. unfold sched, holding, intr_get. rewrite L, N, S. simpl.
    rewrite bool_decide_true by done. simpl. rewrite decide_False by naive_solver. simpl.
    apply kinv_upd; simpl; try done.
    + apply one_proc. by left.
    + apply one_proc. by right; left.
    + unfold cpu_at. simpl. rewrite fupd_eq. simpl. done.
    + unfold thr_at. simpl. split_and!; try done; try naive_solver.
    + by right.
    + right. split; [done|]. unfold owns_lk, on_cpu. simpl. by rewrite bool_decide_true.
    + by right.
    + by left.
  - destruct C4 as (L & N & S & I). destruct a; try done.
    apply kinv_upd; simpl; try done.
    + apply one_proc. by left.
    + apply one_proc. by left.
    + unfold cpu_at. simpl. rewrite Hpc, fupd_eq. simpl. split_and!; try done. intros _. by apply T6; right.
    + unfold thr_at. simpl. split_and!; try done; try naive_solver.
    + by right.
    + right. split; [done|]. unfold owns_lk. simpl. rewrite Hpc. simpl. by rewrite bool_decide_true.
    + by right.
    + by right.
  - destruct C4 as (L & N & S & I). destruct a; try done. rewrite L, release_held.
    destruct (pop_facts (k_cpu (kcpus x j))) as (c' & Hp & P1 & P2 & P3); [lia|done|]. rewrite Hp. simpl.
    apply kinv_upd; simpl; try done.
    + apply one_proc. by left.
    + apply one_proc. by left.
    + unfold cpu_at. simpl. rewrite Hpc, fupd_eq. simpl. split_and!; try done; lia || (rewrite T5 by done; lia).
    + unfold thr_at. simpl. split_and!; try done; try naive_solver.
    + by right.
    + by left.
    + by right.
    + by right.
Qed.

Lemma back_good x j i : kinv x → k_pc (kcpus x j) = CBack i → good (act j ABack x).
Proof.
  intros Hi Hpc. pose proof (ki_cpu _ Hi j) as Hc. unfold cpu_at in Hc. rewrite Hpc in Hc.
  destruct Hc as (C1 & C2 & C3 & C4 & C5). unfold act, mycpu. rewrite Hpc. simpl.
  destruct (ki_thr _ Hi i) as (_ & _ & T3 & _). rewrite C5 in T3.
  apply (kinv_ext (set_t i (kthrs x i) (set_k j (mkKc (k_cpu (kcpus x j)) None (CRel i)) x))).
  { done. } { intros n. simpl. unfold fupd. case_decide; by subst. }
  apply kinv_upd; simpl; try done.
  - apply one_proc. by right; left.
  - apply one_proc. by right; right.
  - unfold cpu_at. simpl. by rewrite fupd_eq.
  - apply Hi.
  - by right.
  - right. split; [done|]. unfold owns_lk, on_cpu. simpl. by rewrite bool_decide_true.
  - left. by apply T3.
  - left. by apply T3.
Qed.

Lemma act_good x j a : kinv x → good (act j a x).
Proof.
  intros Hi. destruct (k_pc (kcpus x j)) as [|i|i|i] eqn:Hpc.
  - assert (∀ k, good (with_lock j k wake1 x) ∧ good (with_lock j k fork1 x) ∧ good (with_lock j k free1 x)) as Hw
      by (intros k; apply wake_good; [done|by left]).
    destruct a as [i| | | | | | | | | | |k|k|k]; [by apply pick_good|..]; unfold act, mycpu; rewrite Hpc; try done; apply Hw.
  - by eapply sched_good.
  - destruct a; try (unfold act, mycpu; rewrite Hpc; done). by eapply back_good.
  - destruct a; try (unfold act, mycpu; rewrite Hpc; done). by eapply rel_good.
Qed.

Lemma kboot_inv : kinv kboot.
Proof.
  split; simpl; try done; [by left|]. intros _. unfold thr_at. simpl. split_and!; try done; naive_solver.
Qed.

Lemma reach_inv x : rtc kstep kboot x → kinv x.
Proof.
  intros Hr. eapply rtc_invariant; [|exact Hr|exact kboot_inv].
  intros a b Ha (j & ac & He). pose proof (act_good a j ac Ha) as Hg. by rewrite He in Hg.
Qed.

(** C12: in every state that the CPUs reach, whatever they do next: no check of
    [acquire], [release], [pop_off] or [sched] fails and [myproc] finds the process;
    a process runs on at most one CPU, and only if it is RUNNING or just leaving;
    and a process whose lock is free and that is not RUNNING, the ones [kwait] frees
    and the scheduler resumes, is on no CPU. *)
Theorem switch_safe x :
  rtc kstep kboot x →
  (∀ j a m, act j a x ≠ Panic m) ∧
  (∀ j j' i, k_pc (kcpus x j) = CRun i → k_pc (kcpus x j') = CRun i → j = j') ∧
  (∀ j i, k_pc (kcpus x j) = CRun i → k_proc (kcpus x j) = Some i ∧
     (t_state (kthrs x i) = RUNNING ∨ t_pc (kthrs x i) = TSched)) ∧
  (∀ i, t_lk (kthrs x i) = initlock → t_state (kthrs x i) ≠ RUNNING → ∀ j, k_pc (kcpus x j) ≠ CRun i).
Proof.
  intros Hr. pose proof (reach_inv x Hr) as Hi.
  assert (∀ j i, k_pc (kcpus x j) = CRun i → k_proc (kcpus x j) = Some i ∧ t_on (kthrs x i) = Some j ∧
    onpc (t_pc (kthrs x i)) = true) as Hrun.
  { intros j i Hpc. pose proof (ki_cpu _ Hi j) as Hc. unfold cpu_at in Hc. rewrite Hpc in Hc. tauto. }
  split_and!.
  - intros j a m He. pose proof (act_good x j a Hi) as Hg. by rewrite He in Hg.
  - intros j j' i Hj Hj'. destruct (Hrun j i Hj) as (_ & H1 & _). destruct (Hrun j' i Hj') as (_ & H2 & _). congruence.
  - intros j i Hj. destruct (Hrun j i Hj) as (H1 & _ & H3). split; [done|].
    destruct (ki_thr _ Hi i) as (T1 & _). destruct (t_pc (kthrs x i)); try done; [left; apply T1; auto|by right|left; apply T1; auto..].
  - intros i Hl Hs j Hj. destruct (Hrun j i Hj) as (_ & H1 & _).
    destruct (free_lock x i Hi Hl) as [[_ ?]|[? _]]; congruence.
Qed.

(** A process that gave up its CPU continues, perhaps on another one, with the
    interrupts as they were when it last held no lock, although the CPUs and the
    schedulers in between had their own [intena]. *)
Theorem switch_intena x j i y :
  rtc kstep kboot x → k_pc (kcpus x j) = CRun i → t_pc (kthrs x i) = TRel → act j ATRel x = Ok (Some y) →
  t_pc (kthrs y i) = TKern ∧ noff (k_cpu (kcpus y j)) = 0 ∧ sie (k_cpu (kcpus y j)) = t_was (kthrs x i).
Proof.
  intros Hr Hpc Ht Hact. pose proof (reach_inv x Hr) as Hi.
  pose proof (ki_cpu _ Hi j) as Hc. unfold cpu_at in Hc. rewrite Hpc, Ht in Hc. simpl in Hc.
  destruct Hc as (C1 & C2 & C3 & L & N & S & I).
  unfold act, mycpu in Hact. rewrite Hpc, Ht, L, release_held in Hact.
  destruct (pop_facts (k_cpu (kcpus x j))) as (c' & Hp & P1 & P2 & P3); [lia|done|]. rewrite Hp in Hact. simpl in Hact.
  injection Hact as <-. simpl. rewrite !fupd_eq. simpl. split_and!; [done|lia|].
  rewrite P3, (proj2 (Z.eqb_eq _ _)) by done. by apply I.
Qed.

(** [sched] panics exactly when its caller broke its rules. *)
Lemma sched_panics j c t :
  (∃ z, sched j c t = Ok z) ↔ holding (t_lk t) j = true ∧ noff c = 1 ∧ t_state t ≠ RUNNING ∧ sie c = false.
Proof.
  unfold sched, intr_get. destruct (holding _ _); simpl; [|naive_solver].
  destruct (Z.eqb_spec (noff c) 1); simpl; [|naive_solver]. case_decide; simpl; [naive_solver|].
  destruct (sie c); simpl; naive_solver.
Qed.

(** *** A run: a process is created, runs on CPU 0, yields with interrupts on, and
    continues on CPU 1. *)
Definition act_run (x : ksys) (s : nat * action) : ksys :=
  match act s.1 s.2 x with Ok (Some y) => y | _ => x end.
Definition run_acts (l : list (nat * action)) : ksys := foldl act_run kboot l.
Definition moved : list (nat * action) :=
  [(0, AFork 5); (0, APick 5); (0, ATRel); (0, AIntr true); (0, AYield); (0, ASched);
   (0, ABack); (0, ARel); (1, APick 5); (1, AIn)]%nat.

Lemma run_acts_reach l : ∀ x, rtc kstep x (foldl act_run x l).
Proof.
  induction l as [|[j a] l IH]; intros x; [done|]. simpl. unfold act_run at 2. simpl.
  destruct (act j a x) as [[y|]| |] eqn:He; try apply IH. eapply rtc_l; [|apply IH]. by exists j, a.
Qed.

Definition moves (r : res (option ksys)) : bool := match r with Ok (Some _) => true | _ => false end.
Lemma act_run_ok j a x : moves (act j a x) = true → act j a x = Ok (Some (act_run x (j, a))).
Proof. unfold act_run. simpl. by destruct (act j a x) as [[y|]| |]. Qed.

Lemma moved_moves : moves (act 1 ATRel (run_acts moved)) = true.
Proof. by vm_compute. Qed.
Lemma moved_at : k_pc (kcpus (run_acts moved) 1) = CRun 5 ∧ t_pc (kthrs (run_acts moved) 5) = TRel ∧
  t_was (kthrs (run_acts moved) 5) = true.
Proof. split_and!; by vm_compute. Qed.

Lemma switch_safe_witness :
  k_pc (kcpus (run_acts moved) 1) = CRun 5 ∧ k_proc (kcpus (run_acts moved) 1) = Some 5%nat ∧
  (∀ a m, act 1 a (run_acts moved) ≠ Panic m).
Proof.
  destruct (switch_safe (run_acts moved) (run_acts_reach moved kboot)) as (H1 & _ & H3 & _).
  destruct moved_at as (Hm & _). split; [exact Hm|]. split; [exact (proj1 (H3 1%nat 5%nat Hm))|intros; apply H1].
Defined.

Lemma switch_intena_witness :
  act 1 ATRel (run_acts moved) = Ok (Some (act_run (run_acts moved) (1%nat, ATRel))) ∧
  sie (k_cpu (kcpus (act_run (run_acts moved) (1%nat, ATRel)) 1)) = true.
Proof.
  destruct moved_at as (H1 & H2 & H3). pose proof (act_run_ok _ _ _ moved_moves) as He. split; [exact He|].
  destruct (switch_intena (run_acts moved) 1 5 _ (run_acts_reach moved kboot) H1 H2 He) as (_ & _ & ->). exact H3.
Defined.
