(* ===== verification/Csr.v ===== *)
(** * riscv.h: control and status registers, and start.c

    A hart's control and status registers are a function from their names; the
    accessors of [riscv.h] read and write one of them.  [sstatus] and [mstatus]
    are separate names: the code never reads through one what it wrote through
    the other.  [start] is the machine-mode entry that [entry.S] jumps to, and
    [mret], [sret] and [take_trap] are the instructions and the hardware event
    that change the privilege mode. *)
From S2P Require Import Prelude Riscv.

Inductive csr :=
| SSTATUS | SIP | SIE | SEPC | SCAUSE | STVAL | STVEC | SSCRATCH | SATP | STIMECMP | SCOUNTEREN | TIME
| MHARTID | MSTATUS | MEPC | MEDELEG | MIDELEG | MIE | MENVCFG | MCOUNTEREN | PMPCFG0 | PMPADDR0.
#[export] Instance csr_eq_dec : EqDecision csr.
Proof. solve_decision. Defined.

Abbreviation csrs := (csr → Z).
Definition csrw (r : csr) (x : Z) (c : csrs) : csrs := λ r', if decide (r = r') then x else c r'.

Lemma csrw_eq r x c : csrw r x c r = x.
Proof. unfold csrw. by rewrite decide_True. Qed.
Lemma csrw_ne r r' x c : r ≠ r' → csrw r x c r' = c r'.
Proof. intros. unfold csrw. by rewrite decide_False. Qed.

Create HintDb csr.

(** ** Accessors *)
Definition r_mhartid (c : csrs) : Z := c MHARTID.
Definition r_mstatus (c : csrs) : Z := c MSTATUS.
Definition w_mstatus (x : Z) : csrs → csrs := csrw MSTATUS x.
Definition w_mepc (x : Z) : csrs → csrs := csrw MEPC x.
Definition r_sstatus (c : csrs) : Z := c SSTATUS.
Definition w_sstatus (x : Z) : csrs → csrs := csrw SSTATUS x.
Definition r_sie (c : csrs) : Z := c SIE.
Definition w_sie (x : Z) : csrs → csrs := csrw SIE x.
Definition r_mie (c : csrs) : Z := c MIE.
Definition w_mie (x : Z) : csrs → csrs := csrw MIE x.
Definition w_sepc (x : Z) : csrs → csrs := csrw SEPC x.
Definition r_sepc (c : csrs) : Z := c SEPC.
Definition w_medeleg (x : Z) : csrs → csrs := csrw MEDELEG x.
Definition w_mideleg (x : Z) : csrs → csrs := csrw MIDELEG x.
Definition w_stvec (x : Z) : csrs → csrs := csrw STVEC x.
Definition w_stimecmp (x : Z) : csrs → csrs := csrw STIMECMP x.
Definition r_menvcfg (c : csrs) : Z := c MENVCFG.
Definition w_menvcfg (x : Z) : csrs → csrs := csrw MENVCFG x.
Definition w_pmpcfg0 (x : Z) : csrs → csrs := csrw PMPCFG0 x.
Definition w_pmpaddr0 (x : Z) : csrs → csrs := csrw PMPADDR0 x.
Definition w_satp (x : Z) : csrs → csrs := csrw SATP x.
Definition r_satp (c : csrs) : Z := c SATP.
Definition r_scause (c : csrs) : Z := c SCAUSE.
Definition r_stval (c : csrs) : Z := c STVAL.
Definition w_mcounteren (x : Z) : csrs → csrs := csrw MCOUNTEREN x.
Definition r_mcounteren (c : csrs) : Z := c MCOUNTEREN.
Definition w_scounteren (x : Z) : csrs → csrs := csrw SCOUNTEREN x.
Definition r_time (c : csrs) : Z := c TIME.

#[export] Hint Unfold r_mhartid r_mstatus w_mstatus w_mepc r_sstatus w_sstatus r_sie w_sie r_mie w_mie w_sepc r_sepc w_medeleg w_mideleg w_stvec w_stimecmp r_menvcfg w_menvcfg w_pmpcfg0 w_pmpaddr0 w_satp r_satp r_scause r_stval w_mcounteren r_mcounteren w_scounteren r_time : csr.

Definition MSTATUS_MPP_MASK : Z := Z.shiftl 3 11.
Definition MSTATUS_MPP_S : Z := Z.shiftl 1 11.
Definition SSTATUS_SPP : Z := Z.shiftl 1 8.
Definition SSTATUS_SPIE : Z := Z.shiftl 1 5.
Definition SSTATUS_SIE : Z := Z.shiftl 1 1.
Definition SIE_SEIE : Z := Z.shiftl 1 9.
Definition SIE_STIE : Z := Z.shiftl 1 5.
Definition MIE_STIE : Z := Z.shiftl 1 5.
Definition SATP_SV39 : Z := Z.shiftl 8 60.
Definition MAKE_SATP (pagetable : Z) : Z := Z.lor SATP_SV39 (Z.shiftr pagetable 12).

Definition intr_on (c : csrs) : csrs := w_sstatus (Z.lor (r_sstatus c) SSTATUS_SIE) c.
Definition intr_off (c : csrs) : csrs := w_sstatus (Z.land (r_sstatus c) (Z.lnot SSTATUS_SIE)) c.
Definition intr_get (c : csrs) : Z := if Z.land (r_sstatus c) SSTATUS_SIE =? 0 then 0 else 1.

(** Reads of the registers after writes. *)
Ltac csr_simpl := autounfold with csr; cbv zeta; repeat (rewrite csrw_eq || rewrite csrw_ne by discriminate).

(** ** Privilege modes *)
Inductive mode := UMode | SMode | MMode.
#[export] Instance mode_eq_dec : EqDecision mode.
Proof. solve_decision. Defined.

(** [sret]: to the mode in [SPP] at [sepc]; [SIE] gets [SPIE]. *)
Definition set_bit (x : Z) (i : Z) (b : bool) : Z := if b then Z.setbit x i else Z.clearbit x i.
Definition sret (c : csrs) : mode * Z * csrs :=
  let x := c SSTATUS in
  (if Z.testbit x 8 then SMode else UMode, c SEPC,
   csrw SSTATUS (set_bit (set_bit (set_bit x 1 (Z.testbit x 5)) 5 true) 8 false) c).

(** A trap from mode [md] at [pc] with the given cause, delegated to
    supervisor mode. *)
Definition take_trap (md : mode) (pc cause tval : Z) (c : csrs) : Z * csrs :=
  let x := c SSTATUS in
  (c STVEC,
   csrw SSTATUS (set_bit (set_bit (set_bit x 5 (Z.testbit x 1)) 1 false) 8 (bool_decide (md ≠ UMode)))
     (csrw STVAL tval (csrw SCAUSE cause (csrw SEPC pc c)))).

(** [mret]: to the mode in [MPP] at [mepc]. *)
Definition mret_mode (c : csrs) : mode :=
  let mpp := Z.land (Z.shiftr (c MSTATUS) 11) 3 in
  if mpp =? 3 then MMode else if mpp =? 1 then SMode else UMode.

(** ** start.c *)
Definition timerinit (c : csrs) : csrs :=
  let c := w_mie (Z.lor (r_mie c) MIE_STIE) c in
  let c := w_menvcfg (Z.lor (r_menvcfg c) (Z.shiftl 1 63)) c in
  let c := w_mcounteren (Z.lor (r_mcounteren c) 3) c in
  w_stimecmp (u64 (r_time c + 1000000)) c.

(** The mode and the address after the final [mret], the registers, and [tp];
    [main] is the address of the function. *)
Definition start (main : Z) (c : csrs) : mode * Z * csrs * Z :=
  let x := r_mstatus c in
  let x := Z.land x (Z.lnot MSTATUS_MPP_MASK) in
  let x := Z.lor x MSTATUS_MPP_S in
  let c := w_mstatus x c in
  let c := w_mepc main c in
  let c := w_satp 0 c in
  let c := w_medeleg 65535 c in
  let c := w_mideleg 65535 c in
  let c := w_sie (Z.lor (Z.lor (r_sie c) SIE_SEIE) SIE_STIE) c in
  let c := w_pmpaddr0 18014398509481983 c in
  let c := w_pmpcfg0 15 c in
  let c := timerinit c in
  let tp := u64 (i32 (r_mhartid c)) in
  (mret_mode c, c MEPC, c, tp).

(** ** Bits *)
Lemma set_bit_eq x i b : 0 <= i → Z.testbit (set_bit x i b) i = b.
Proof. intros. destruct b; simpl; [by apply Z.setbit_eq|by apply Z.clearbit_eq]. Qed.
Lemma set_bit_ne x i j b : 0 <= i → 0 <= j → i ≠ j → Z.testbit (set_bit x i b) j = Z.testbit x j.
Proof. intros. destruct b; simpl; [by apply Z.setbit_neq|by apply Z.clearbit_neq]. Qed.

(** A test of one bit with a mask. *)
Lemma land_bit x i : 0 <= i → (Z.land x (Z.shiftl 1 i) =? 0) = negb (Z.testbit x i).
Proof.
  intros Hi. assert (Z.testbit (Z.land x (Z.shiftl 1 i)) i = Z.testbit x i) as Hb.
  { rewrite Z.land_spec, Z.shiftl_spec, Z.sub_diag by lia. simpl. apply andb_true_r. }
  destruct (Z.eqb_spec (Z.land x (Z.shiftl 1 i)) 0) as [He|Hn].
  - rewrite He, Z.bits_0 in Hb. by rewrite <-Hb.
  - destruct (Z.testbit x i) eqn:Hx; [done|]. destruct Hn. apply Z.bits_inj'. intros j Hj.
    rewrite Z.land_spec, Z.shiftl_spec, Z.bits_0 by lia.
    destruct (decide (i = j)) as [<-|]; [by rewrite Hx|].
    change 1 with (2 ^ 0). rewrite Z.pow2_bits_false by lia. apply andb_false_r.
Qed.

Lemma intr_get_bit c : intr_get c = if Z.testbit (c SSTATUS) 1 then 1 else 0.
Proof. unfold intr_get, r_sstatus, SSTATUS_SIE. rewrite land_bit by lia. by destruct (Z.testbit _ _). Qed.

Lemma lor_bit x i j : 0 <= i → 0 <= j → Z.testbit (Z.lor x (Z.shiftl 1 i)) j = (Z.testbit x j || bool_decide (i = j)).
Proof.
  intros Hi Hj. rewrite Z.lor_spec, Z.shiftl_spec by lia. f_equal.
  case_bool_decide as He; [subst; by rewrite Z.sub_diag|]. change 1 with (2 ^ 0). apply Z.pow2_bits_false. lia.
Qed.
Lemma land_lnot_bit x i j : 0 <= i → 0 <= j →
  Z.testbit (Z.land x (Z.lnot (Z.shiftl 1 i))) j = (Z.testbit x j && negb (bool_decide (i = j))).
Proof.
  intros Hi Hj. rewrite Z.land_spec, Z.lnot_spec, Z.shiftl_spec by lia. do 2 f_equal.
  case_bool_decide as He; [subst; by rewrite Z.sub_diag|]. change 1 with (2 ^ 0). apply Z.pow2_bits_false. lia.
Qed.

Lemma mpp_after x : Z.land (Z.shiftr (Z.lor (Z.land x (Z.lnot MSTATUS_MPP_MASK)) MSTATUS_MPP_S) 11) 3 = 1.
Proof.
  apply Z.bits_inj'. intros j Hj. rewrite Z.land_spec, Z.shiftr_spec, Z.lor_spec, Z.land_spec, Z.lnot_spec by lia.
  unfold MSTATUS_MPP_MASK, MSTATUS_MPP_S. rewrite !Z.shiftl_spec by lia.
  replace (j + 11 - 11) with j by lia.
  destruct (decide (j = 0)) as [->|]; [simpl; by rewrite andb_false_r|].
  destruct (decide (j = 1)) as [->|]; [simpl; by rewrite andb_false_r|].
  change (Z.testbit 3 j) with (Z.testbit (Z.ones 2) j). rewrite Z.ones_spec_high by lia. rewrite andb_false_r. symmetry.
  change 1 with (2 ^ 0). apply Z.pow2_bits_false. lia.
Qed.

(** Whatever the machine registers held, [start] leaves machine mode for
    supervisor mode at [main], with translation off, all interrupts and
    exceptions delegated, external and timer interrupts enabled, the next timer
    interrupt a million cycles away and the hart number in [tp]. *)
Theorem start_correct (main : Z) (c : csrs) :
  0 <= c MHARTID < 2147483648 →
  let '(md, pc, c', tp) := start main c in
  md = SMode ∧ pc = main ∧ tp = c MHARTID ∧ c' SATP = 0 ∧
  c' MEDELEG = 65535 ∧ c' MIDELEG = 65535 ∧
  Z.testbit (c' SIE) 9 = true ∧ Z.testbit (c' SIE) 5 = true ∧ Z.testbit (c' MIE) 5 = true ∧
  Z.testbit (c' MENVCFG) 63 = true ∧ c' STIMECMP = u64 (c TIME + 1000000).
Proof.
  intros Hh. unfold start, timerinit, mret_mode, SIE_SEIE, SIE_STIE, MIE_STIE. csr_simpl.
  rewrite mpp_after, i32_small, u64_small, !lor_bit by lia.
  split_and!; try done; by rewrite ?orb_true_r.
Qed.
