(* ===== verification/Boot.v ===== *)
(** * main.c: the order in which the harts start

    Every hart runs [main]; hart 0 initialises the kernel and sets [started], the
    others spin on it.  The harts interleave call by call.  Each call is an event;
    the ones that set up the hart itself ([kvminithart], [trapinithart],
    [plicinithart]) and [kvminit] have their effect here, the page table that
    [kvmmake] builds is a parameter ([Vm] models it). *)
From S2P Require Import Prelude Csr.

Inductive init_call :=
| Consoleinit | Printfinit | Kinit | Kvminit | Kvminithart | Procinit | Trapinit | Trapinithart
| Plicinit | Plicinithart | Binit | Iinit | Fileinit | Virtio_disk_init | Userinit.

#[export] Instance init_call_eq_dec : EqDecision init_call.
Proof. solve_decision. Defined.

Inductive bop :=
| BCall (c : init_call)
| BPrintf                (* printf *)
| BSync                  (* __sync_synchronize() *)
| BSetStarted            (* started = 1 *)
| BWait.                 (* while(started == 0) *)

Definition boot_main (hart : nat) : list bop :=
  if (hart =? 0)%nat then
    [BCall Consoleinit; BCall Printfinit; BPrintf; BPrintf; BPrintf; BCall Kinit; BCall Kvminit;
     BCall Kvminithart; BCall Procinit; BCall Trapinit; BCall Trapinithart; BCall Plicinit;
     BCall Plicinithart; BCall Binit; BCall Iinit; BCall Fileinit; BCall Virtio_disk_init;
     BCall Userinit; BSync; BSetStarted]
  else
    [BWait; BSync; BPrintf; BCall Kvminithart; BCall Trapinithart; BCall Plicinithart].

Definition kvminithart (kernel_pagetable : Z) (c : csrs) : csrs := w_satp (MAKE_SATP kernel_pagetable) c.

Section boot.
Context (root kernelvec : Z).    (* kvmmake() and the address of kernelvec *)

(** A hart: how far it is in [main], its registers, its PLIC enables. *)
Record hart := mkHart { b_pc : nat; b_csr : csrs; b_plic : bool }.
Record bst := mkB {
  b_started : Z;
  b_kpt : Z;                        (* kernel_pagetable *)
  b_trace : list (nat * init_call); (* the calls made *)
  b_harts : list hart
}.

Definition hart_call (kpt : Z) (c : init_call) (x : hart) : hart :=
  match c with
  | Kvminithart => mkHart (b_pc x) (kvminithart kpt (b_csr x)) (b_plic x)
  | Trapinithart => mkHart (b_pc x) (w_scounteren 1 (w_stvec kernelvec (b_csr x))) (b_plic x)
  | Plicinithart => mkHart (b_pc x) (b_csr x) true
  | _ => x
  end.
Definition kvminit (c : init_call) (kpt : Z) : Z := match c with Kvminit => root | _ => kpt end.

Definition bnext (x : hart) : hart := mkHart (S (b_pc x)) (b_csr x) (b_plic x).

(** The next operation of hart [h]. *)
Definition boot_op (h : nat) (o : bop) (x : hart) (s : bst) : bst :=
  match o with
  | BCall c => mkB (b_started s) (kvminit c (b_kpt s)) (b_trace s ++ [(h, c)])
                 (<[h := bnext (hart_call (b_kpt s) c x)]> (b_harts s))
  | BPrintf | BSync => mkB (b_started s) (b_kpt s) (b_trace s) (<[h := bnext x]> (b_harts s))
  | BSetStarted => mkB 1 (b_kpt s) (b_trace s) (<[h := bnext x]> (b_harts s))
  | BWait => if b_started s =? 0 then s
             else mkB (b_started s) (b_kpt s) (b_trace s) (<[h := bnext x]> (b_harts s))
  end.

Inductive boot_step : bst → bst → Prop :=
| boot_hart s h x o : b_harts s !! h = Some x → boot_main h !! b_pc x = Some o →
    boot_step s (boot_op h o x s).

(** [start] has brought every hart to [main]. *)
Definition boot_init (cs : list csrs) : bst := mkB 0 0 [] ((λ c, mkHart 0 c false) <$> cs).

(** In the scheduler. *)
Definition hart_done (h : nat) (x : hart) : Prop := b_pc x = length (boot_main h).

(** The registers and the calls after the first [n] operations. *)
Definition op_call (o : bop) : option init_call := match o with BCall c => Some c | _ => None end.
Definition calls_upto (h n : nat) : list init_call := omap op_call (take n (boot_main h)).

Definition set_up (h : nat) (x : hart) : Prop :=
  let l := calls_upto h (b_pc x) in
  (Kvminithart ∈ l → r_satp (b_csr x) = MAKE_SATP root) ∧
  (Trapinithart ∈ l → b_csr x STVEC = kernelvec ∧ b_csr x SCOUNTEREN = 1) ∧ (Plicinithart ∈ l → b_plic x = true).

Record boot_inv (s : bst) : Prop := {
  bi_hart h x : b_harts s !! h = Some x → (b_pc x <= length (boot_main h))%nat ∧ set_up h x;
  bi_zero x : b_harts s !! 0%nat = Some x →
    (b_started s = 0 ↔ (b_pc x < 20)%nat) ∧ (Kvminit ∈ calls_upto 0 (b_pc x) → b_kpt s = root) ∧
    omap (λ e, if decide (e.1 = 0%nat) then Some e.2 else None) (b_trace s) = calls_upto 0 (b_pc x);
  bi_wait h x : b_harts s !! h = Some x → h ≠ 0%nat → (0 < b_pc x)%nat → b_started s ≠ 0;
  bi_some : is_Some (b_harts s !! 0%nat)
}.

Lemma calls_S h n o : boot_main h !! n = Some o → calls_upto h (S n) = calls_upto h n ++ option_list (op_call o).
Proof.
  intros Ho. unfold calls_upto. rewrite (take_S_r _ _ _ Ho), omap_app. simpl. by destruct (op_call o).
Qed.

(** [kernel_pagetable] is set before any hart loads it. *)
Lemma kpt_ready s h x : boot_inv s → b_harts s !! h = Some x → boot_main h !! b_pc x = Some (BCall Kvminithart) →
  b_kpt s = root.
Proof.
  intros [Hh Hz Hw [x0 H0]] Hx Ho. destruct (Hz x0 H0) as (Hs & Hk & _). apply Hk.
  destruct (decide (h = 0%nat)) as [->|Hne].
  - rewrite H0 in Hx. injection Hx as ->. destruct (b_pc x) as [|[|[|[|[|[|[|[|n]]]]]]]]; try discriminate Ho.
    + unfold calls_upto. simpl. set_solver.
    + exfalso. revert Ho. do 12 (destruct n as [|n]; [done|]). done.
  - assert (0 < b_pc x)%nat as Hp.
    { destruct (b_pc x); [|lia]. unfold boot_main in Ho. destruct h; done. }
    assert (b_pc x0 = 20%nat) as ->.
    { destruct (Hh 0%nat x0 H0) as [Hle _]. simpl in Hle. pose proof (Hw h x Hx Hne Hp).
      destruct (decide (b_pc x0 < 20)%nat); [tauto|lia]. }
    unfold calls_upto. simpl. set_solver.
Qed.

Lemma ops_zero n o : boot_main 0 !! n = Some o → (o = BSetStarted ↔ n = 19%nat) ∧ o ≠ BWait.
Proof. do 20 (destruct n as [|n]; [intros [= <-]; by split|]). done. Qed.

Lemma ops_other h n o : h ≠ 0%nat → boot_main h !! n = Some o →
  o ≠ BSetStarted ∧ o ≠ BCall Kvminit ∧ (o = BWait ↔ n = 0%nat).
Proof.
  intros Hh. destruct h as [|h]; [done|]. do 6 (destruct n as [|n]; [intros [= <-]; by split_and!|]). done.
Qed.

Lemma set_up_call h x c kpt :
  set_up h x → boot_main h !! b_pc x = Some (BCall c) → (c = Kvminithart → kpt = root) →
  set_up h (bnext (hart_call kpt c x)).
Proof.
  intros (H1 & H2 & H3) Ho Hk. assert (b_pc (bnext (hart_call kpt c x)) = S (b_pc x)) as Hp by (by destruct c).
  unfold set_up. rewrite Hp, (calls_S _ _ _ Ho). simpl. split_and!.
  - intros [Hin|Hin%list_elem_of_singleton]%elem_of_app.
    + destruct c; simpl; try by apply H1. unfold kvminithart. by rewrite Hk.
    + subst c. simpl. unfold kvminithart. by rewrite Hk.
  - intros [Hin|Hin%list_elem_of_singleton]%elem_of_app; [destruct c; simpl; try (by apply H2); by split|].
    subst c. by split.
  - intros [Hin|Hin%list_elem_of_singleton]%elem_of_app; [destruct c; simpl; try (by apply H3); done|by subst c].
Qed.

(** Registers are untouched by the other operations. *)
Lemma set_up_next h x o : set_up h x → boot_main h !! b_pc x = Some o → op_call o = None → set_up h (bnext x).
Proof.
  intros Hs Ho Hc. unfold set_up. simpl. rewrite (calls_S _ _ _ Ho), Hc. simpl. by rewrite app_nil_r.
Qed.

(** Hart [h] moves on: [started], [kernel_pagetable] and the trace become these. *)
Lemma boot_inv_upd s h x x' o st' kpt' tr' :
  boot_inv s → b_harts s !! h = Some x → boot_main h !! b_pc x = Some o → b_pc x' = S (b_pc x) → set_up h x' →
  (h = 0%nat → (st' = 0 ↔ (S (b_pc x) < 20)%nat) ∧ (Kvminit ∈ calls_upto 0 (S (b_pc x)) → kpt' = root) ∧
     omap (λ e, if decide (e.1 = 0%nat) then Some e.2 else None) tr' = calls_upto 0 (S (b_pc x))) →
  (h ≠ 0%nat → st' = b_started s ∧ st' ≠ 0 ∧ kpt' = b_kpt s ∧
     omap (λ e, if decide (e.1 = 0%nat) then Some e.2 else None) tr' =
     omap (λ e, if decide (e.1 = 0%nat) then Some e.2 else None) (b_trace s)) →
  (b_started s ≠ 0 → st' ≠ 0) →
  boot_inv (mkB st' kpt' tr' (<[h := x']> (b_harts s))).
Proof.
  intros [Hh Hz Hw [x0 H0]] Hx Ho Hp Hset Hzero Hother Hmono. pose proof (lookup_lt_Some _ _ _ Hx) as Hl. split; simpl.
  - intros h' y [(-> & -> & _)|[_ Hy]]%list_lookup_insert_Some; [|by apply Hh]. split; [|done].
    apply lookup_lt_Some in Ho. lia.
  - intros y [(He & -> & _)|[Hne Hy]]%list_lookup_insert_Some; [rewrite Hp; by apply Hzero|].
    destruct (Hother ltac:(lia)) as (-> & _ & -> & ->). by apply Hz.
  - intros h' y [(-> & -> & _)|[Hne Hy]]%list_lookup_insert_Some; intros Hn Hy0; [by apply Hother|].
    apply Hmono. by apply (Hw h' y).
  - destruct (decide (h = 0%nat)) as [->|]; [rewrite list_lookup_insert_eq by done; by eexists|].
    rewrite list_lookup_insert_ne by done. by eexists.
Qed.

Lemma boot_inv_step s s' : boot_inv s → boot_step s s' → boot_inv s'.
Proof.
  intros Hi Hstep. destruct Hstep as [s0 h x o Hx Ho] in Hi |- *. pose proof Hi as [Hh Hz Hw _].
  destruct (Hh h x Hx) as [_ Hset]. pose proof (calls_S h (b_pc x) o Ho) as Hcs.
  assert (h ≠ 0%nat → o ≠ BWait → b_started s0 ≠ 0) as Hst.
  { intros Hne Hb. destruct (ops_other h _ _ Hne Ho) as (_ & _ & H0). apply (Hw h x Hx Hne).
    destruct (b_pc x); [tauto|lia]. }
  assert (h = 0%nat → o ≠ BSetStarted → b_started s0 = 0 ↔ (S (b_pc x) < 20)%nat) as Hlt.
  { intros -> Hb. destruct (Hz x Hx) as (H1 & _). destruct (ops_zero _ _ Ho) as [H2 _].
    assert (b_pc x ≠ 19%nat) by tauto. rewrite H1. lia. }
  assert (∀ (x' : hart) st', op_call o = None → b_pc x' = S (b_pc x) → set_up h x' →
    (h = 0%nat → st' = 0 ↔ (S (b_pc x) < 20)%nat) → (h ≠ 0%nat → st' = b_started s0 ∧ st' ≠ 0) →
    (b_started s0 ≠ 0 → st' ≠ 0) →
    boot_inv (mkB st' (b_kpt s0) (b_trace s0) (<[h := x']> (b_harts s0)))) as Hquiet.
  { intros x' st' Hnc Hp Hs H1 H2 H3. rewrite Hnc, app_nil_r in Hcs.
    apply (boot_inv_upd _ _ x _ o); try done.
    - intros ->. rewrite Hcs. destruct (Hz x Hx) as (_ & ? & ?). auto.
    - intros Hne. destruct (H2 Hne). done. }
  destruct o as [c| | | |]; simpl.
  - apply (boot_inv_upd _ _ x _ (BCall c)); try done.
    + by destruct c.
    + apply set_up_call; [done|done|]. intros ->. by apply (kpt_ready s0 h x).
    + intros ->. destruct (Hz x Hx) as (_ & Hk & Ht). rewrite Hcs. split; [by apply Hlt|]. split.
      * intros [Hin|Hin%list_elem_of_singleton]%elem_of_app; [|by subst c]. rewrite Hk by done. by destruct c.
      * rewrite omap_app, Ht. by simpl.
    + intros Hne. destruct (ops_other h _ _ Hne Ho) as (_ & Hk & _). split_and!; [done|by apply Hst|by destruct c|].
      rewrite omap_app. simpl. rewrite decide_False by done. by rewrite app_nil_r.
  - apply Hquiet; try done; [by eapply set_up_next|auto|]. intros; split; [done|by apply Hst].
  - apply Hquiet; try done; [by eapply set_up_next|auto|]. intros; split; [done|by apply Hst].
  - apply Hquiet; try done; [by eapply set_up_next| |].
    + intros ->. destruct (ops_zero _ _ Ho) as [H19 _]. specialize (proj1 H19 eq_refl) as ->. split; [done|lia].
    + intros Hne. by destruct (ops_other h _ _ Hne Ho).
  - destruct (Z.eqb_spec (b_started s0) 0) as [|Hn]; [done|].
    apply Hquiet; try done; [by eapply set_up_next|].
    intros ->. by destruct (ops_zero _ _ Ho).
Qed.

(** *** Progress *)
Fixpoint left_from (h : nat) (l : list hart) : nat :=
  match l with [] => 0 | x :: l' => (length (boot_main h) - b_pc x) + left_from (S h) l' end.
Definition left_all (s : bst) : nat := left_from 0 (b_harts s).

Lemma left_insert l : ∀ k h x x', l !! h = Some x → (b_pc x < length (boot_main (k + h)))%nat → b_pc x' = S (b_pc x) →
  (left_from k (<[h := x']> l) < left_from k l)%nat.
Proof.
  induction l as [|y l IH]; intros k [|h] x x' Hx Hl Hp; simplify_eq/=.
  - rewrite Nat.add_0_r in Hl. lia.
  - pose proof (IH (S k) h x x' Hx) as Hi. replace (S k + h)%nat with (k + S h)%nat in Hi by lia. specialize (Hi Hl Hp). lia.
Qed.

Lemma boot_progress s : boot_inv s → (∀ h x, b_harts s !! h = Some x → hart_done h x) ∨
  ∃ s', boot_step s s' ∧ (left_all s' < left_all s)%nat.
Proof.
  intros Hi. pose proof Hi as [Hh Hz Hw [x0 H0]].
  assert (∀ h x, b_harts s !! h = Some x → b_pc x ≠ length (boot_main h) →
    (h = 0%nat ∨ b_started s ≠ 0) → ∃ s', boot_step s s' ∧ (left_all s' < left_all s)%nat) as Hgo.
  { intros h x Hx Hne Hor. destruct (Hh h x Hx) as [Hle _].
    destruct (lookup_lt_is_Some_2 (boot_main h) (b_pc x)) as [o Ho]; [lia|].
    exists (boot_op h o x s). split; [by constructor|]. unfold left_all.
    assert (∃ x', b_harts (boot_op h o x s) = <[h := x']> (b_harts s) ∧ b_pc x' = S (b_pc x)) as (x' & -> & Hx').
    { destruct o as [c| | | |]; simpl; eauto; [by destruct c; eauto|].
      destruct (Z.eqb_spec (b_started s) 0); [|simpl; eauto]. destruct Hor as [->|?]; [|done].
      by destruct (ops_zero _ _ Ho). }
    eapply left_insert; [done|simpl; lia|done]. }
  destruct (decide (b_pc x0 = length (boot_main 0))) as [He|]; [|right; by eapply (Hgo 0%nat); eauto].
  destruct (Hz x0 H0) as (Hs & _). rewrite He in Hs. simpl in Hs.
  destruct (list_find (λ e, b_pc e.2 ≠ length (boot_main e.1)) (imap (λ h x, (h, x)) (b_harts s))) as [[k [h x]]|] eqn:Hf.
  - right. apply list_find_Some in Hf as (Hk & Hne & _). apply list_lookup_imap_Some in Hk as (y & Hy & [= -> ->]).
    eapply Hgo; [exact Hy|done|]. right. lia.
  - left. intros h x Hx. apply list_find_None in Hf.
    assert (imap (λ h x, (h, x)) (b_harts s) !! h = Some (h, x)) as Hk by (by rewrite list_lookup_imap, Hx).
    rewrite Forall_forall in Hf. specialize (Hf _ (list_elem_of_lookup_2 _ _ _ Hk)). simpl in Hf. unfold hart_done. lia.
Qed.

Lemma boot_reach s : boot_inv s → ∃ s', rtc boot_step s s' ∧ ∀ h x, b_harts s' !! h = Some x → hart_done h x.
Proof.
  remember (left_all s) as n eqn:Hn. revert s Hn. induction (lt_wf n) as [n _ IH]. intros s -> Hi.
  destruct (boot_progress s Hi) as [Hd|(s1 & Hs & Hl)]; [by exists s|].
  destruct (IH (left_all s1) Hl s1 eq_refl) as (s2 & Hr & Hd); [by eapply boot_inv_step|].
  exists s2. split; [by eapply rtc_l|done].
Qed.

Lemma boot_init_inv cs : cs ≠ [] → boot_inv (boot_init cs).
Proof.
  intros Hne. assert (∀ h x, (λ c, mkHart 0 c false) <$> cs !! h = Some x → b_pc x = 0%nat) as H0
    by (intros h x Hx; destruct (cs !! h); [by injection Hx as <-|done]).
  split; simpl.
  - intros h x Hx. rewrite list_lookup_fmap in Hx. rewrite (H0 h x Hx). split; [lia|].
    unfold set_up. rewrite (H0 h x Hx). unfold calls_upto. simpl. set_solver.
  - intros x Hx. rewrite list_lookup_fmap in Hx. rewrite (H0 _ x Hx). split; [split; [lia|done]|]. split; [|done].
    unfold calls_upto. simpl. set_solver.
  - intros h x Hx _ Hp. rewrite list_lookup_fmap in Hx. rewrite (H0 h x Hx) in Hp. lia.
  - destruct cs; [done|by eexists].
Qed.

(** C29: whatever the interleaving of the harts: hart 0 makes its calls in the order of
    [main]; another hart passes the wait only after all of them; a hart that has
    reached the scheduler runs on the page table of [kvmmake] with its trap vector,
    counters and PLIC enables set; and the boot can always be completed. *)
Theorem boot_order cs s :
  cs ≠ [] → rtc boot_step (boot_init cs) s →
  (∃ n, omap (λ e, if decide (e.1 = 0%nat) then Some e.2 else None) (b_trace s) = calls_upto 0 n) ∧
  (∀ h x, b_harts s !! h = Some x → h ≠ 0%nat → (0 < b_pc x)%nat →
     omap (λ e, if decide (e.1 = 0%nat) then Some e.2 else None) (b_trace s) = omap op_call (boot_main 0)) ∧
  (∀ h x, b_harts s !! h = Some x → hart_done h x →
     r_satp (b_csr x) = MAKE_SATP root ∧ b_csr x STVEC = kernelvec ∧ b_csr x SCOUNTEREN = 1 ∧ b_plic x = true) ∧
  (∃ s', rtc boot_step s s' ∧ ∀ h x, b_harts s' !! h = Some x → hart_done h x).
Proof.
  intros Hne Hr. assert (boot_inv s) as Hi.
  { eapply rtc_invariant; [|exact Hr|by apply boot_init_inv]. intros a b Ha Hab. by eapply boot_inv_step. }
  pose proof Hi as [Hh Hz Hw [x0 H0]]. destruct (Hz x0 H0) as (Hs & Hk & Ht).
  split_and!; [by eauto| | |by apply boot_reach].
  - intros h x Hx Hn Hp. pose proof (Hw h x Hx Hn Hp) as Hst. destruct (Hh 0%nat x0 H0) as [Hle _]. simpl in Hle.
    rewrite Ht. assert (b_pc x0 = 20%nat) as -> by lia. done.
  - intros h x Hx Hd. destruct (Hh h x Hx) as [_ (S1 & S2 & S3)]. rewrite Hd in *.
    assert (∀ c, c ∈ [Kvminithart; Trapinithart; Plicinithart] → c ∈ calls_upto h (length (boot_main h))) as Hin.
    { intros c Hc. unfold calls_upto. rewrite take_ge by done. unfold boot_main. destruct (h =? 0)%nat; simpl; set_solver. }
    rewrite S3 by (apply Hin; set_solver). destruct S2 as [-> ->]; [apply Hin; set_solver|].
    rewrite S1 by (apply Hin; set_solver). done.
Qed.
End boot.

(** Two harts, the second one started after hart 0 is done. *)
Lemma boot_order_witness : ∃ s x,
  rtc (boot_step 4096 8192) (boot_init [λ _, 0; λ _, 0]) s ∧ b_harts s !! 1%nat = Some x ∧
  r_satp (b_csr x) = MAKE_SATP 4096 ∧ b_csr x STVEC = 8192.
Proof.
  destruct (boot_order 4096 8192 [λ _, 0; λ _, 0] (boot_init [λ _, 0; λ _, 0]) ltac:(done) (rtc_refl _ _))
    as (_ & _ & _ & s & Hr & Hd).
  assert (length (b_harts s) = 2%nat) as Hl.
  { clear Hd. assert (∀ a b, rtc (boot_step 4096 8192) a b → length (b_harts b) = length (b_harts a)) as H.
    { intros a b. induction 1 as [|a b c Hab _ IH]; [done|]. rewrite IH. destruct Hab as [s' h x o _ _].
      destruct o; simpl; try by rewrite length_insert. case_match; simpl; by rewrite ?length_insert. }
    by rewrite (H _ _ Hr). }
  destruct (lookup_lt_is_Some_2 (b_harts s) 1) as [x Hx]; [lia|]. exists s, x. split; [exact Hr|]. split; [exact Hx|].
  destruct (boot_order 4096 8192 [λ _, 0; λ _, 0] s ltac:(done) Hr) as (_ & _ & H3 & _).
  destruct (H3 1%nat x Hx (Hd 1%nat x Hx)) as (H4 & H5 & _). by split.
Defined.
