(* ===== verification/Asm.v ===== *)
(** * The assembly of the kernel

    [trampoline.S], [kernelvec.S], [swtch.S] and [entry.S] as lists of
    instructions over registers, control and status registers and memory.  The
    addresses of loads and stores are translated by [xlate], the hardware's page
    table walk under the current [satp].  Straight-line instructions do not
    track the program counter; [IJalr] has the address that follows it. *)
From S2P Require Import Prelude Riscv Mem Csr.

(** Register numbers. *)
Module Reg.
Definition ra : Z := 1.
Definition sp : Z := 2.
Definition gp : Z := 3.
Definition tp : Z := 4.
Definition t0 : Z := 5.
Definition t1 : Z := 6.
Definition t2 : Z := 7.
Definition s0 : Z := 8.
Definition s1 : Z := 9.
Definition a0 : Z := 10.
Definition a1 : Z := 11.
Definition a2 : Z := 12.
Definition a3 : Z := 13.
Definition a4 : Z := 14.
Definition a5 : Z := 15.
Definition a6 : Z := 16.
Definition a7 : Z := 17.
Definition s2 : Z := 18.
Definition s3 : Z := 19.
Definition s4 : Z := 20.
Definition s5 : Z := 21.
Definition s6 : Z := 22.
Definition s7 : Z := 23.
Definition s8 : Z := 24.
Definition s9 : Z := 25.
Definition s10 : Z := 26.
Definition s11 : Z := 27.
Definition t3 : Z := 28.
Definition t4 : Z := 29.
Definition t5 : Z := 30.
Definition t6 : Z := 31.
End Reg.

Record machine := mkMach { rg : Z → Z; cs : csrs; mm : mem; pc : Z; md : mode }.

Definition rset (r x : Z) (f : Z → Z) : Z → Z := λ r', if decide (r = r') then x else f r'.
Definition set_rg (f : Z → Z) (m : machine) : machine := mkMach f (cs m) (mm m) (pc m) (md m).
Definition set_cs (c : csrs) (m : machine) : machine := mkMach (rg m) c (mm m) (pc m) (md m).
Definition set_mm (k : mem) (m : machine) : machine := mkMach (rg m) (cs m) k (pc m) (md m).
Definition set_pc (p : Z) (m : machine) : machine := mkMach (rg m) (cs m) (mm m) p (md m).

Inductive instr :=
| ISd (rs off rb : Z)
| ILd (rd off rb : Z)
| ILi (rd imm : Z)
| IAddi (rd rs imm : Z)
| IAdd (rd rs rt : Z)
| IMul (rd rs rt : Z)
| ICsrw (c : csr) (rs : Z)
| ICsrr (rd : Z) (c : csr)
| IFence
| IJalr (rs next : Z)
| IJ (target : Z)
| IRet
| ISret.

Section asm.
Context (xlate : Z → Z → Z).

Definition addr (m : machine) (off rb : Z) : Z := xlate (cs m SATP) (u64 (rg m rb + off)).

Definition exec (i : instr) (m : machine) : machine :=
  let R := rg m in
  match i with
  | ISd rs off rb => set_mm (st64 (mm m) (addr m off rb) (R rs)) m
  | ILd rd off rb => set_rg (rset rd (ld64 (mm m) (addr m off rb)) R) m
  | ILi rd imm => set_rg (rset rd imm R) m
  | IAddi rd rs imm => set_rg (rset rd (u64 (R rs + imm)) R) m
  | IAdd rd rs rt => set_rg (rset rd (u64 (R rs + R rt)) R) m
  | IMul rd rs rt => set_rg (rset rd (u64 (R rs * R rt)) R) m
  | ICsrw c rs => set_cs (csrw c (R rs) (cs m)) m
  | ICsrr rd c => set_rg (rset rd (cs m c) R) m
  | IFence => m
  | IJalr rs next => set_pc (R rs) (set_rg (rset Reg.ra next R) m)
  | IJ target => set_pc target m
  | IRet => set_pc (R Reg.ra) m
  | ISret => let '(md', p, c) := sret (cs m) in mkMach R c (mm m) p md'
  end.

Fixpoint run (l : list instr) (m : machine) : machine :=
  match l with [] => m | i :: l' => run l' (exec i m) end.

Lemma run_app l k m : run (l ++ k) m = run k (run l m).
Proof. revert m. induction l as [|i l IH]; intros m; [done|]. apply IH. Qed.

(** One instruction at a time. *)
Lemma run_cons i l m : run (i :: l) m = run l (exec i m).
Proof. done. Qed.
Lemma run_nil m : run [] m = m.
Proof. done. Qed.
Lemma exec_sd rs off rb R C K p d : exec (ISd rs off rb) (mkMach R C K p d) =
  mkMach R C (st64 K (xlate (C SATP) (u64 (R rb + off))) (R rs)) p d.
Proof. done. Qed.
Lemma exec_ld rd off rb R C K p d : exec (ILd rd off rb) (mkMach R C K p d) =
  mkMach (rset rd (ld64 K (xlate (C SATP) (u64 (R rb + off)))) R) C K p d.
Proof. done. Qed.
Lemma exec_csrw c rs R C K p d : exec (ICsrw c rs) (mkMach R C K p d) = mkMach R (csrw c (R rs) C) K p d.
Proof. done. Qed.
Lemma exec_csrr rd c R C K p d : exec (ICsrr rd c) (mkMach R C K p d) = mkMach (rset rd (C c) R) C K p d.
Proof. done. Qed.
Lemma exec_jalr rs n R C K p d : exec (IJalr rs n) (mkMach R C K p d) = mkMach (rset Reg.ra n R) C K (R rs) d.
Proof. done. Qed.
Lemma exec_fence m : exec IFence m = m.
Proof. done. Qed.
Lemma exec_addi rd rs imm R C K p d : exec (IAddi rd rs imm) (mkMach R C K p d) =
  mkMach (rset rd (u64 (R rs + imm)) R) C K p d.
Proof. done. Qed.
Lemma exec_li rd imm R C K p d : exec (ILi rd imm) (mkMach R C K p d) = mkMach (rset rd imm R) C K p d.
Proof. done. Qed.
Lemma exec_ret R C K p d : exec IRet (mkMach R C K p d) = mkMach R C K (R Reg.ra) d.
Proof. done. Qed.
Lemma exec_sret R C K p d : exec ISret (mkMach R C K p d) =
  mkMach R (sret C).2 K (sret C).1.2 (sret C).1.1.
Proof. done. Qed.

(** A trap taken by the hardware. *)
Definition trap (cause tval : Z) (m : machine) : machine :=
  let '(p, c) := take_trap (md m) (pc m) cause tval (cs m) in
  mkMach (rg m) c (mm m) p SMode.

(** Stores and loads of registers at offsets from a base register. *)
Definition saves (rb : Z) (l : list (Z * Z)) : list instr := (λ p, ISd p.1 p.2 rb) <$> l.
Definition loads (rb : Z) (l : list (Z * Z)) : list instr := (λ p, ILd p.1 p.2 rb) <$> l.

(** ** trampoline.S *)
Import Reg.

(** The registers of the trap frame but [a0], and their offsets. *)
Definition tf_regs : list (Z * Z) :=
  [(ra, 40); (sp, 48); (gp, 56); (tp, 64); (t0, 72); (t1, 80); (t2, 88); (s0, 96); (s1, 104);
   (a1, 120); (a2, 128); (a3, 136); (a4, 144); (a5, 152); (a6, 160); (a7, 168);
   (s2, 176); (s3, 184); (s4, 192); (s5, 200); (s6, 208); (s7, 216); (s8, 224); (s9, 232);
   (s10, 240); (s11, 248); (t3, 256); (t4, 264); (t5, 272); (t6, 280)].

(** [userret] is the address of the code that follows. *)
Definition uservec (userret : Z) : list instr :=
  [ICsrw SSCRATCH a0; ILi a0 TRAPFRAME] ++ saves a0 tf_regs ++
  [ICsrr t0 SSCRATCH; ISd t0 112 a0; ILd sp 8 a0; ILd tp 32 a0; ILd t0 16 a0; ILd t1 0 a0;
   IFence; ICsrw SATP t1; IFence; IJalr t0 userret].

Definition userret_code : list instr :=
  [IFence; ICsrw SATP a0; IFence; ILi a0 TRAPFRAME] ++ loads a0 tf_regs ++ [ILd a0 112 a0; ISret].

(** ** kernelvec.S, around the call of [kerneltrap] *)
Definition kv_regs : list (Z * Z) :=
  [(ra, 0); (gp, 16); (tp, 24); (t0, 32); (t1, 40); (t2, 48); (a0, 72); (a1, 80); (a2, 88); (a3, 96);
   (a4, 104); (a5, 112); (a6, 120); (a7, 128); (t3, 216); (t4, 224); (t5, 232); (t6, 240)].
Definition kv_restored : list (Z * Z) :=
  [(ra, 0); (gp, 16); (t0, 32); (t1, 40); (t2, 48); (a0, 72); (a1, 80); (a2, 88); (a3, 96);
   (a4, 104); (a5, 112); (a6, 120); (a7, 128); (t3, 216); (t4, 224); (t5, 232); (t6, 240)].

Definition kernelvec (kerneltrap : machine → machine) (m : machine) : machine :=
  let m := run ([IAddi sp sp (-256)] ++ saves sp kv_regs) m in
  let m := kerneltrap m in
  run (loads sp kv_restored ++ [IAddi sp sp 256; ISret]) m.

(** ** swtch.S *)
Definition ctx_regs : list (Z * Z) :=
  [(ra, 0); (sp, 8); (s0, 16); (s1, 24); (s2, 32); (s3, 40); (s4, 48); (s5, 56); (s6, 64); (s7, 72);
   (s8, 80); (s9, 88); (s10, 96); (s11, 104)].
Definition swtch : list instr := saves a0 ctx_regs ++ loads a1 ctx_regs ++ [IRet].

(** ** entry.S *)
Definition entry (stack0 start : Z) : list instr :=
  [ILi sp stack0; ILi a0 4096; ICsrr a1 MHARTID; IAddi a1 a1 1; IMul a0 a0 a1; IAdd sp sp a0; IJ start].

(** ** Saving and restoring *)
Lemma rset_eq r x f : rset r x f r = x.
Proof. unfold rset. by rewrite decide_True. Qed.
Lemma rset_ne r r' x f : r ≠ r' → rset r x f r' = f r'.
Proof. intros. unfold rset. by rewrite decide_False. Qed.

(** Word offsets of a frame of [n] bytes, each used once. *)
Definition frame (n : Z) (l : list (Z * Z)) : Prop :=
  NoDup l.*2 ∧ Forall (λ p, p.2 mod 8 = 0 ∧ 0 <= p.2 ∧ p.2 + 8 <= n) l.

(** The frame of [n] bytes at the virtual address [va] is at [pa]. *)
Definition mapped (satp va pa n : Z) : Prop := ∀ o, 0 <= o < n → xlate satp (u64 (va + o)) = pa + o.

Lemma saves_spec rb n pa : ∀ l m, frame n l → mapped (cs m SATP) (rg m rb) pa n →
  ∃ k, run (saves rb l) m = set_mm k m ∧
    (∀ r o, (r, o) ∈ l → ld64 k (pa + o) = u64 (rg m r)) ∧
    (∀ o, o mod 8 = 0 → o ∉ l.*2 → ld64 k (pa + o) = ld64 (mm m) (pa + o)) ∧
    (∀ a, a < pa ∨ pa + n <= a → ld8 k a = ld8 (mm m) a).
Proof.
  induction l as [|[r o] l IH]; intros m [Hnd Hf] Hmap.
  - exists (mm m). split_and!; try done; [by destruct m|set_solver].
  - apply NoDup_cons in Hnd as [Hno Hnd]. apply Forall_cons in Hf as [(Hm & Ho1 & Ho2) Hf]. simpl in *.
    unfold addr. rewrite Hmap by lia.
    destruct (IH (set_mm (st64 (mm m) (pa + o) (rg m r)) m)) as (k & Hr & Hin & Hout & Hfar); [done|done|].
    exists k. split_and!.
    + rewrite Hr. done.
    + intros r' o' [[= -> ->]|Hi]%elem_of_cons; [|by apply Hin].
      rewrite Hout by done. simpl. apply ld64_st64.
    + intros o' Hm' Hn. rewrite Hout by set_solver. simpl. apply ld64_st64_ne.
      assert (o ≠ o') by set_solver. mlia.
    + intros a Ha. rewrite Hfar by done. simpl. apply ld8_st64_ne. lia.
Qed.

Lemma loads_spec rb n pa : ∀ l m, NoDup l.*1 → rb ∉ l.*1 → Forall (λ p, 0 <= p.2 < n) l →
  mapped (cs m SATP) (rg m rb) pa n →
  ∃ f, run (loads rb l) m = set_rg f m ∧
    (∀ r o, (r, o) ∈ l → f r = ld64 (mm m) (pa + o)) ∧ (∀ r, r ∉ l.*1 → f r = rg m r).
Proof.
  induction l as [|[r o] l IH]; intros m Hnd Hrb Hf Hmap.
  - exists (rg m). split_and!; try done; [by destruct m|set_solver].
  - apply NoDup_cons in Hnd as [Hno Hnd]. apply Forall_cons in Hf as [Ho Hf]. simpl in *.
    unfold addr. rewrite Hmap by lia.
    destruct (IH (set_rg (rset r (ld64 (mm m) (pa + o)) (rg m)) m)) as (f & Hr & Hin & Hout);
      [done|set_solver|done|simpl; by rewrite rset_ne by set_solver|].
    exists f. split_and!.
    + rewrite Hr. done.
    + intros r' o' [[= -> ->]|Hi]%elem_of_cons; [|by apply Hin].
      rewrite Hout by done. simpl. apply rset_eq.
    + intros r' Hn. rewrite Hout by set_solver. simpl. apply rset_ne. set_solver.
Qed.
End asm.

(** Run the next instruction; registers after writes. *)
Ltac asm_step := rewrite run_cons; first
  [rewrite exec_fence|rewrite exec_sd|rewrite exec_ld|rewrite exec_csrw|rewrite exec_csrr|rewrite exec_jalr
  |rewrite exec_addi|rewrite exec_li|rewrite exec_ret|rewrite exec_sret].
Ltac regs := repeat first
  [rewrite rset_eq|rewrite rset_ne by discriminate|rewrite csrw_eq|rewrite csrw_ne by discriminate].
