(* ===== verification/AsmSpec.v ===== *)
(** * What the assembly saves and restores

    The trampoline brings a process back to user mode with the registers it
    trapped with; [kernelvec] hides an interrupt from the kernel code it
    interrupts; [swtch] resumes a thread where it called [swtch]; [entry] gives
    each hart a stack of its own. *)
From S2P Require Import Prelude Riscv Mem Csr Asm.
Import Reg.

Section asmspec.
Context (xlate : Z → Z → Z).
Abbreviation RUN := (run xlate).

Definition word (x : Z) : Prop := 0 <= x < 18446744073709551616.
Definition regs_ok (m : machine) : Prop := ∀ r, word (rg m r).

Lemma in_slots (l : list (Z * Z)) r : r ∈ l.*1 → ∃ o, (r, o) ∈ l.
Proof. intros ((r', o) & -> & Hi)%list_elem_of_fmap. by exists o. Qed.
Lemma slot_off (l : list (Z * Z)) r o : (r, o) ∈ l → o ∈ l.*2.
Proof. intros Hi. apply list_elem_of_fmap. by exists (r, o). Qed.

Lemma frame_dec n l : forallb (λ p, (p.2 mod 8 =? 0) && (0 <=? p.2) && (p.2 + 8 <=? n)) l = true →
  NoDup l.*2 → frame n l.
Proof.
  intros Hf Hn. split; [done|]. apply Forall_forall. intros p Hp.
  pose proof (proj1 (forallb_forall _ _) Hf p (proj1 (list_elem_of_In _ _) Hp)) as Hb. cbv beta in Hb.
  apply andb_prop in Hb as [[H1 H2]%andb_prop H3]. lia.
Qed.

Lemma tf_frame : frame 288 tf_regs.
Proof. apply frame_dec; [done|]. by apply (bool_decide_unpack _). Qed.
Lemma kv_frame : frame 256 kv_regs.
Proof. apply frame_dec; [done|]. by apply (bool_decide_unpack _). Qed.
Lemma ctx_frame : frame 112 ctx_regs.
Proof. apply frame_dec; [done|]. by apply (bool_decide_unpack _). Qed.

Lemma below n l : frame n l → Forall (λ p : Z * Z, 0 <= p.2 < n) l.
Proof. intros [_ Hf]. eapply Forall_impl; [exact Hf|]. intros p. simpl. lia. Qed.

(** ** trampoline.S *)

(** The part of [uservec] after the registers are saved. *)
Lemma uservec_tail userret tf R C K p d :
  mapped xlate (C SATP) (R a0) tf 288 →
  let K' := st64 K (tf + 112) (C SSCRATCH) in
  ∃ f, RUN [ICsrr t0 SSCRATCH; ISd t0 112 a0; ILd sp 8 a0; ILd tp 32 a0; ILd t0 16 a0; ILd t1 0 a0;
            IFence; ICsrw SATP t1; IFence; IJalr t0 userret] (mkMach R C K p d) =
    mkMach f (csrw SATP (ld64 K (tf + 0)) C) K' (ld64 K (tf + 16)) d ∧
    f sp = ld64 K (tf + 8) ∧ f tp = ld64 K (tf + 32) ∧ f ra = userret.
Proof.
  intros Hmap K'. do 10 (asm_step; regs). rewrite run_nil.
  rewrite (Hmap 112), (Hmap 8), (Hmap 32), (Hmap 16), (Hmap 0) by lia.
  rewrite !(ld64_st64_ne _ (tf + 112)) by lia. eexists. split; [done|]. by regs.
Qed.

(** The state in which [uservec] enters [usertrap]. *)
Lemma uservec_spec userret tf m :
  regs_ok m → mapped xlate (cs m SATP) TRAPFRAME tf 288 →
  ∃ R K, RUN (uservec userret) m =
      mkMach R (csrw SATP (ld64 (mm m) (tf + 0)) (csrw SSCRATCH (rg m a0) (cs m))) K (ld64 (mm m) (tf + 16)) (md m) ∧
    (∀ r o, (r, o) ∈ (a0, 112) :: tf_regs → ld64 K (tf + o) = rg m r) ∧
    (∀ o, 0 <= o < 40 → o mod 8 = 0 → ld64 K (tf + o) = ld64 (mm m) (tf + o)) ∧
    (∀ a, a < tf ∨ tf + 288 <= a → ld8 K a = ld8 (mm m) a) ∧
    R sp = ld64 (mm m) (tf + 8) ∧ R tp = ld64 (mm m) (tf + 32) ∧ R ra = userret.
Proof.
  intros Hok Hmap. unfold uservec. rewrite !run_app.
  set (m0 := RUN [ICsrw SSCRATCH a0; ILi a0 TRAPFRAME] m).
  assert (mapped xlate (cs m0 SATP) (rg m0 a0) tf 288) as Hm0.
  { unfold m0. simpl. by rewrite rset_eq, csrw_ne by done. }
  destruct (saves_spec xlate a0 288 tf tf_regs m0 tf_frame Hm0) as (k & -> & Hin & Hout & Hfar).
  assert (∀ o, 0 <= o < 40 → o mod 8 = 0 → ld64 k (tf + o) = ld64 (mm m) (tf + o)) as Hold.
  { intros o Ho Hm. rewrite Hout; [done|done|].
    assert (o = 0 ∨ o = 8 ∨ o = 16 ∨ o = 24 ∨ o = 32) as Hc by mlia.
    destruct Hc as [->|[->|[->|[->| ->]]]]; by apply (bool_decide_unpack _). }
  destruct (uservec_tail userret tf (rg m0) (cs m0) k (pc m0) (md m0) Hm0) as (f & Hrun & Hsp & Htp & Hra).
  unfold set_mm. rewrite Hrun. rewrite !Hold in * by done.
  assert (cs m0 = csrw SSCRATCH (rg m a0) (cs m)) as Hcs by done. rewrite Hcs, csrw_eq.
  eexists _, _. split; [done|]. split_and!; try done.
  - intros r o [[= -> ->]|Hi]%elem_of_cons; [rewrite ld64_st64; apply u64_small, Hok|].
    assert (r ≠ a0) as Hr.
    { intros ->. apply (list_elem_of_fmap_2 fst) in Hi. revert Hi. by apply (bool_decide_unpack _). }
    assert (o ≠ 112 ∧ o mod 8 = 0) as [Ho Hm].
    { split; [intros ->; apply slot_off in Hi; revert Hi; by apply (bool_decide_unpack _)|].
      destruct tf_frame as [_ Hf]. eapply Forall_forall in Hf; [|exact Hi]. by destruct Hf as (?&?&?). }
    rewrite ld64_st64_ne by mlia. rewrite (Hin r o Hi). unfold m0. simpl. rewrite rset_ne by done.
    apply u64_small, Hok.
  - intros o Ho Hm. rewrite ld64_st64_ne by mlia. by apply Hold.
  - intros a Ha. rewrite ld8_st64_ne by lia. by rewrite Hfar.
Qed.

Lemma userret_spec tf m :
  mapped xlate (rg m a0) TRAPFRAME tf 288 → Z.testbit (cs m SSTATUS) 8 = false →
  let m1 := RUN userret_code m in
  (∀ r o, (r, o) ∈ (a0, 112) :: tf_regs → rg m1 r = ld64 (mm m) (tf + o)) ∧
  md m1 = UMode ∧ pc m1 = cs m SEPC ∧ mm m1 = mm m ∧ cs m1 SATP = rg m a0 ∧
  Z.testbit (cs m1 SSTATUS) 1 = Z.testbit (cs m SSTATUS) 5.
Proof.
  intros Hmap Hspp. unfold userret_code. rewrite !run_app.
  set (m0 := RUN [IFence; ICsrw SATP a0; IFence; ILi a0 TRAPFRAME] m).
  assert (mapped xlate (cs m0 SATP) (rg m0 a0) tf 288) as Hm0.
  { unfold m0. simpl. by rewrite rset_eq, csrw_eq. }
  destruct (loads_spec xlate a0 288 tf tf_regs m0) as (f & -> & Hin & Hout);
    [by apply (bool_decide_unpack _)|by apply (bool_decide_unpack _)|by apply below, tf_frame|done|].
  assert (cs m0 = csrw SATP (rg m a0) (cs m)) as Hcs by done. unfold set_rg.
  do 2 asm_step. rewrite run_nil. cbn [rg cs mm pc md]. rewrite (Hout a0) by by apply (bool_decide_unpack _).
  assert (xlate (cs m0 SATP) (u64 (rg m0 a0 + 112)) = tf + 112) as -> by (apply Hm0; lia).
  rewrite Hcs. unfold sret. cbn [fst snd]. regs. 
  rewrite Hspp.
  split_and!; try done.
  - intros r o [[= -> ->]|Hi]%elem_of_cons; [by rewrite rset_eq|].
    rewrite rset_ne; [by apply Hin|]. intros <-. apply (list_elem_of_fmap_2 fst) in Hi. revert Hi.
    by apply (bool_decide_unpack _).
  - by rewrite !set_bit_ne, set_bit_eq by lia.
Qed.

Lemma reg_slot r : 1 <= r <= 31 → ∃ o, (r, o) ∈ (a0, 112) :: tf_regs.
Proof.
  intros Hr. apply in_slots. assert (r ∈ seqZ 1 31) as Hi by (apply elem_of_seqZ; lia). revert r Hr Hi.
  cut (Forall (λ r, r ∈ ((a0, 112) :: tf_regs).*1) (seqZ 1 31)); [intros Hf r _ Hi; exact (proj1 (Forall_forall _ _) Hf r Hi)|].
  by apply (bool_decide_unpack _).
Qed.

(** The trampoline is transparent: a process that traps in user mode with
    translation [usatp] and comes back through [userret] with its trap frame
    as [uservec] left it has all 31 registers as before, except [a0], which is
    what the kernel put in the frame; it is in user mode again at [sepc], under
    the page table the kernel returned.  In between, [uservec] enters the
    kernel with the stack pointer, hart number, page table and handler that the
    frame holds, in supervisor mode with interrupts off. *)
Theorem trampoline_roundtrip userret cause tval tf (m m2 : machine) :
  regs_ok m → md m = UMode → mapped xlate (cs m SATP) TRAPFRAME tf 288 →
  let m1 := RUN (uservec userret) (trap cause tval m) in
  mapped xlate (rg m2 a0) TRAPFRAME tf 288 → Z.testbit (cs m2 SSTATUS) 8 = false →
  (∀ r o, (r, o) ∈ tf_regs → ld64 (mm m2) (tf + o) = ld64 (mm m1) (tf + o)) →
  let m3 := RUN userret_code m2 in
  (md m1 = SMode ∧ pc m1 = ld64 (mm m) (tf + 16) ∧ rg m1 sp = ld64 (mm m) (tf + 8) ∧
   rg m1 tp = ld64 (mm m) (tf + 32) ∧ cs m1 SATP = ld64 (mm m) (tf + 0) ∧
   cs m1 SEPC = pc m ∧ cs m1 SCAUSE = cause ∧ Z.testbit (cs m1 SSTATUS) 1 = false ∧
   Z.testbit (cs m1 SSTATUS) 8 = false) ∧
  (∀ r, 1 <= r <= 31 → r ≠ a0 → rg m3 r = rg m r) ∧ rg m3 a0 = ld64 (mm m2) (tf + 112) ∧
  md m3 = UMode ∧ pc m3 = cs m2 SEPC ∧ cs m3 SATP = rg m2 a0 ∧ mm m3 = mm m2.
Proof.
  intros Hok Hmd Hmap m1 Hmap2 Hspp Htf m3.
  assert (regs_ok (trap cause tval m)) as Hok' by exact Hok.
  assert (mapped xlate (cs (trap cause tval m) SATP) TRAPFRAME tf 288) as Hmap'.
  { unfold trap, take_trap. simpl. by rewrite !csrw_ne by done. }
  destruct (uservec_spec userret tf _ Hok' Hmap') as (R & K & Hrun & Hin & _ & _ & Hsp & Htp & _).
  fold m1 in Hrun. rewrite Hrun in *. clear Hrun m1.
  destruct (userret_spec tf m2 Hmap2 Hspp) as (Hr & H1 & H2 & H3 & H4 & _). fold m3 in Hr, H1, H2, H3, H4.
  split; [|split_and!; try done; [|apply Hr; by left]].
  - clear m3 Hr H1 H2 H3 H4. cbn [rg cs mm pc md]. rewrite Hsp, Htp.
    unfold trap, take_trap. cbn [rg cs mm pc md]. rewrite Hmd.
    regs. rewrite (set_bit_ne _ 8 1), !set_bit_eq by lia. by split_and!.
  - intros r Hr1 Hne. destruct (reg_slot r Hr1) as [o Ho]. rewrite (Hr r o Ho).
    apply elem_of_cons in Ho as Hc. destruct Hc as [[= -> ->]|Hc]; [done|].
    rewrite (Htf r o Hc). exact (Hin r o Ho).
Qed.

(** *** kernelvec *)

(** What a C function preserves: the stack pointer, the callee-saved registers,
    the frame of its caller, and here the page table. *)
Definition preserves (pa n : Z) (f : machine → machine) (m : machine) : Prop :=
  let m' := f m in
  rg m' sp = rg m sp ∧ (∀ r, r ∈ [s0; s1; s2; s3; s4; s5; s6; s7; s8; s9; s10; s11] → rg m' r = rg m r) ∧
  (∀ o, 0 <= o < n → o mod 8 = 0 → ld64 (mm m') (pa + o) = ld64 (mm m) (pa + o)) ∧ cs m' SATP = cs m SATP.

(** An interrupt of kernel code is invisible to it: when [kerneltrap] has
    preserved what a C function preserves, [kernelvec] returns to the
    interrupted instruction with every register as it was, except [tp], which
    may name another hart after a [yield]; interrupts are as they were. *)
Theorem kernelvec_transparent kerneltrap cause tval pa (m : machine) :
  regs_ok m → md m = SMode →
  mapped xlate (cs m SATP) (u64 (rg m sp - 256)) pa 256 →
  let m0 := trap cause tval m in
  let m1 := RUN ([IAddi sp sp (-256)] ++ saves sp kv_regs) m0 in
  preserves pa 256 kerneltrap m1 →
  cs (kerneltrap m1) SEPC = cs m1 SEPC → cs (kerneltrap m1) SSTATUS = cs m1 SSTATUS →
  let m2 := kernelvec xlate kerneltrap m0 in
  (∀ r, 1 <= r <= 31 → r ≠ tp → rg m2 r = rg m r) ∧ pc m2 = pc m ∧ md m2 = SMode ∧
  Z.testbit (cs m2 SSTATUS) 1 = Z.testbit (cs m SSTATUS) 1.
Proof.
  intros Hok Hmd Hmap m0 m1 (Hsp & Hcs & Hfr & Hsat) Hepc Hst m2.
  assert (cs m0 SATP = cs m SATP) as Hs0.
  { unfold m0, trap, take_trap. simpl. by rewrite !csrw_ne by done. }
  assert (rg m0 = rg m) as Hr0 by done.
  unfold m2, kernelvec. fold m1. revert Hsp Hcs Hfr Hsat Hepc Hst.
  generalize (kerneltrap m1). clear kerneltrap m2. intros m2 Hsp Hcs Hfr Hsat Hepc Hst.
  unfold m1 in *. rewrite run_app in *. set (mA := RUN [IAddi sp sp (-256)] m0) in *.
  assert (rg mA sp = u64 (rg m sp - 256)) as HA by (unfold mA; simpl; by rewrite rset_eq).
  assert (mapped xlate (cs mA SATP) (rg mA sp) pa 256) as HmA by (rewrite HA; change (cs mA) with (cs m0); by rewrite Hs0).
  destruct (saves_spec xlate sp 256 pa kv_regs mA kv_frame HmA) as (k & Hrun & Hin & _ & _).
  rewrite Hrun in *. clear Hrun. unfold set_mm in *. cbn [rg cs mm] in *.
  destruct (loads_spec xlate sp 256 pa kv_restored m2) as (f & -> & Hl & Ho);
    [by apply (bool_decide_unpack _)|by apply (bool_decide_unpack _)|..].
  { apply Forall_forall. intros p Hp. cut (forallb (λ p : Z * Z, (0 <=? p.2) && (p.2 <? 256)) kv_restored = true); [|done].
    intros Hf. pose proof (proj1 (forallb_forall _ _) Hf p (proj1 (list_elem_of_In _ _) Hp)) as Hb. cbv beta in Hb. lia. }
  { by rewrite Hsat, Hsp. }
  unfold set_rg. do 2 asm_step. rewrite run_nil. cbn [rg cs mm pc md].
  assert (f sp = u64 (rg m sp - 256)) as Hfsp.
  { rewrite (Ho sp), Hsp by by apply (bool_decide_unpack _). done. }
  assert (word (rg m sp)) as Hw by apply Hok. unfold word in Hw.
  assert (cs mA = cs m0) as HcA by done. unfold sret. cbn [fst snd]. rewrite Hst, Hepc, HcA.
  unfold m0, trap, take_trap. cbn [rg cs mm pc md]. regs. rewrite Hmd.
  rewrite !set_bit_eq, !(set_bit_ne _ 8), !(set_bit_ne _ 5), !set_bit_eq, !(set_bit_ne _ 1), !set_bit_eq by lia.
  split_and!; try done.
  intros r Hr Htp. destruct (decide (r = sp)) as [->|Hnsp].
  { rewrite rset_eq, Hfsp, u64_add_l, u64_small; lia. }
  rewrite rset_ne by done.
  assert (r ∈ kv_restored.*1 ∨ r ∈ [s0; s1; s2; s3; s4; s5; s6; s7; s8; s9; s10; s11] ∧ r ∉ kv_restored.*1) as Hc.
  { revert r Hr Htp Hnsp. cut (Forall (λ r, r ≠ tp → r ≠ sp →
      r ∈ kv_restored.*1 ∨ r ∈ [s0; s1; s2; s3; s4; s5; s6; s7; s8; s9; s10; s11] ∧ r ∉ kv_restored.*1) (seqZ 1 31)).
    - intros Hf r Hr. apply (proj1 (Forall_forall _ _) Hf). apply elem_of_seqZ. lia.
    - by apply (bool_decide_unpack _). }
  destruct Hc as [[o Hi]%in_slots|[Hi Hn]].
  - assert ((r, o) ∈ kv_regs ∧ o mod 8 = 0 ∧ 0 <= o < 256) as (Hi' & Hm & Hb).
    { clear - Hi. revert r o Hi. cut (Forall (λ p : Z * Z, p ∈ kv_regs ∧ p.2 mod 8 = 0 ∧ 0 <= p.2 < 256) kv_restored).
      - intros Hf r o Hi. exact (proj1 (Forall_forall _ _) Hf (r, o) Hi).
      - by apply (bool_decide_unpack _). }
    rewrite (Hl r o Hi), Hfr, (Hin r o Hi') by done. unfold mA. simpl. rewrite rset_ne by done.
    apply u64_small, Hok.
  - rewrite (Ho r Hn), (Hcs r Hi). unfold mA. simpl. by rewrite rset_ne.
Qed.

(** *** swtch *)
Lemma swtch_spec pa pb m :
  mapped xlate (cs m SATP) (rg m a0) pa 112 → mapped xlate (cs m SATP) (rg m a1) pb 112 →
  pa + 112 <= pb ∨ pb + 112 <= pa →
  ∃ R K, RUN swtch m = mkMach R (cs m) K (R ra) (md m) ∧
    (∀ r o, (r, o) ∈ ctx_regs → R r = ld64 (mm m) (pb + o)) ∧
    (∀ r, r ∉ ctx_regs.*1 → R r = rg m r) ∧
    (∀ r o, (r, o) ∈ ctx_regs → ld64 K (pa + o) = u64 (rg m r)) ∧
    (∀ a, a < pa ∨ pa + 112 <= a → ld8 K a = ld8 (mm m) a).
Proof.
  intros Ha Hb Hd. unfold swtch. rewrite !run_app.
  destruct (saves_spec xlate a0 112 pa ctx_regs m ctx_frame Ha) as (k & -> & Hin & _ & Hfar).
  destruct (loads_spec xlate a1 112 pb ctx_regs (set_mm k m)) as (f & -> & Hl & Ho);
    [by apply (bool_decide_unpack _)|by apply (bool_decide_unpack _)|by apply below, ctx_frame|done|].
  unfold set_rg. asm_step. rewrite run_nil. cbn [rg cs mm pc md set_mm]. eexists _, _.
  split; [done|]. split_and!; try done. intros r o Hi. rewrite (Hl r o Hi). simpl. apply ld64_ext.
  intros a Hab. apply Hfar. destruct ctx_frame as [_ Hf].
  pose proof (proj1 (Forall_forall _ _) Hf _ Hi) as (_ & Ho1 & Ho2). simpl in *. lia.
Qed.

(** C39: a thread that leaves the processor through [swtch] into the context at
    [pa] resumes, when another [swtch] loads that context, after its own call
    with its stack pointer and callee-saved registers, whatever ran in
    between. That second [swtch] leaves the thread it suspends resumable in the
    same way (its registers are in the context at [pc']) and touches nothing
    else: no other register, no CSR, not the mode, no byte outside that
    context. *)
Theorem swtch_resumes pa pb pc' (m m2 : machine) :
  regs_ok m →
  mapped xlate (cs m SATP) (rg m a0) pa 112 → mapped xlate (cs m SATP) (rg m a1) pb 112 →
  (pa + 112 <= pb ∨ pb + 112 <= pa) →
  mapped xlate (cs m2 SATP) (rg m2 a0) pc' 112 → mapped xlate (cs m2 SATP) (rg m2 a1) pa 112 →
  (pc' + 112 <= pa ∨ pa + 112 <= pc') →
  (∀ o, 0 <= o < 112 → o mod 8 = 0 → ld64 (mm m2) (pa + o) = ld64 (mm (RUN swtch m)) (pa + o)) →
  let m3 := RUN swtch m2 in
  pc m3 = rg m ra ∧
  (∀ r, r ∈ [ra; sp; s0; s1; s2; s3; s4; s5; s6; s7; s8; s9; s10; s11] → rg m3 r = rg m r) ∧
  (∀ r, r ∉ [ra; sp; s0; s1; s2; s3; s4; s5; s6; s7; s8; s9; s10; s11] → rg m3 r = rg m2 r) ∧
  cs m3 = cs m2 ∧ md m3 = md m2 ∧
  (∀ r o, (r, o) ∈ ctx_regs → ld64 (mm m3) (pc' + o) = u64 (rg m2 r)) ∧
  (∀ a, a < pc' ∨ pc' + 112 <= a → ld8 (mm m3) a = ld8 (mm m2) a).
Proof.
  intros Hok H1 H2 H3 H4 H5 H6 Hmem m3.
  destruct (swtch_spec pa pb m H1 H2 H3) as (R & K & Hr1 & _ & _ & Hsave & _). rewrite Hr1 in Hmem. clear Hr1.
  destruct (swtch_spec pc' pa m2 H4 H5 H6) as (R' & K' & Hr2 & Hload & Hoth & Hsv & Hfar). unfold m3. rewrite Hr2.
  clear Hr2 m3. cbn [rg pc mm cs md] in *.
  assert (∀ r, r ∈ ctx_regs.*1 → R' r = rg m r) as Hall.
  { intros r [o Hi]%in_slots. destruct ctx_frame as [_ Hf].
    pose proof (proj1 (Forall_forall _ _) Hf _ Hi) as (Hm & Ho1 & Ho2). simpl in *.
    rewrite (Hload r o Hi), Hmem, (Hsave r o Hi) by (done || lia). apply u64_small, Hok. }
  split; [apply Hall; by apply (bool_decide_unpack _)|]. by split_and!.
Qed.

(** *** entry *)

(** Each hart starts C code on its own 4096 bytes of [stack0]. *)
Theorem entry_stacks stack0 start (m : machine) :
  0 <= stack0 → stack0 + 4096 * 8 < 18446744073709551616 → 0 <= cs m MHARTID < 8 →
  let m1 := RUN (entry stack0 start) m in
  pc m1 = start ∧ rg m1 sp = stack0 + 4096 * (cs m MHARTID + 1) ∧
  stack0 + 4096 * cs m MHARTID < rg m1 sp <= stack0 + 4096 * 8.
Proof.
  intros Hs Hb Hh. destruct m as [R C K p d]. cbn [cs] in *. unfold entry.
  do 4 (asm_step; regs). simpl. unfold rset. simpl.
  rewrite (u64_small (C MHARTID + 1)), (u64_small (4096 * _)), u64_small by lia. split_and!; [done|lia..].
Qed.
End asmspec.
