(* ===== verification/Trap.v ===== *)
(** * trap.c and the dispatch of syscall.c

    The state is that of one hart and what its kernel thread sees: the control
    and status registers, [tp], the kernel's memory and page allocator, the
    process table, [ticks], and a part [X] with the devices and the rest of the
    kernel.  [TrapOps] is what trap.c and syscall.c need of the other
    components: the interrupt handlers of the drivers, [printf], the system
    calls, [kexit], and [t_switch], what happens between the moment [sched]
    leaves this thread and the moment it resumes.  A function that may end in
    [kexit] returns an option, [None] when it does not return.  The [PIPE_TRACE]
    output, off unless the build defines it, is left out. *)
From S2P Require Import Prelude Riscv Mem Kalloc Vm Proc Uart Printf Csr.

Definition UART0_IRQ : Z := 10.
Definition VIRTIO0_IRQ : Z := 1.
Definition PLIC_SENABLE (hart : Z) : Z := PLIC + 8320 + hart * 256.         (* 0x2080, 0x100 *)
Definition PLIC_SPRIORITY (hart : Z) : Z := PLIC + 2101248 + hart * 8192.   (* 0x201000, 0x2000 *)
Definition PLIC_SCLAIM (hart : Z) : Z := PLIC + 2101252 + hart * 8192.      (* 0x201004 *)

(** [struct trapframe]: offsets. *)
Definition TF_KSATP : Z := 0.
Definition TF_KSP : Z := 8.
Definition TF_KTRAP : Z := 16.
Definition TF_EPC : Z := 24.
Definition TF_HARTID : Z := 32.
Definition TF_A (n : Z) : Z := 112 + 8 * n.        (* a0 .. a7 *)

(** The table of system calls, indexed by the numbers of syscall.h. *)
Inductive sysname :=
| Sys_fork | Sys_exit | Sys_wait | Sys_pipe | Sys_read | Sys_kill | Sys_exec | Sys_fstat | Sys_chdir | Sys_dup
| Sys_getpid | Sys_sbrk | Sys_pause | Sys_uptime | Sys_open | Sys_write | Sys_mknod | Sys_unlink | Sys_link
| Sys_mkdir | Sys_close.
Definition syscalls : list (option sysname) := None :: (Some <$>
  [Sys_fork; Sys_exit; Sys_wait; Sys_pipe; Sys_read; Sys_kill; Sys_exec; Sys_fstat; Sys_chdir; Sys_dup;
   Sys_getpid; Sys_sbrk; Sys_pause; Sys_uptime; Sys_open; Sys_write; Sys_mknod; Sys_unlink; Sys_link;
   Sys_mkdir; Sys_close]).

(** [num > 0 && num < NELEM(syscalls) && syscalls[num]]. *)
Definition sys_of (num : Z) : option sysname :=
  if (0 <? num) && (num <? Z.of_nat (length syscalls)) then mjoin (syscalls !! Z.to_nat num) else None.

Record tst (X : Type) := mkT {
  tc : csrs;
  ttp : Z;
  tk : kst;
  tps : list proc;
  tticks : Z;
  tx : X
}.
Arguments mkT {X}. Arguments tc {X}. Arguments ttp {X}. Arguments tk {X}. Arguments tps {X}.
Arguments tticks {X}. Arguments tx {X}.

(** The current process is named by [me]. *)
Class TrapOps (X : Type) := {
  t_rd : Z → X → Z * X;                       (* a load from a PLIC register *)
  t_wr : Z → Z → X → X;
  t_uartintr : option nat → tst X → res (tst X);
  t_diskintr : option nat → tst X → res (tst X);
  t_printf : string → list arg → X → res X;
  t_switch : nat → tst X → tst X;
  t_kexit : nat → Z → tst X → res (tst X);
  t_call : sysname → nat → tst X → res (option Z * tst X);
  t_fsinit : nat → tst X → res (tst X);
  t_kexec : nat → list Z → list (list Z) → tst X → res (Z * tst X)
}.

Section trap.
Context {X : Type} `{TrapOps X}.
Context (V kend : Z) (kernelvec uservec_va usertrap_va userret_va : Z).

Definition TR (A : Type) : Type := tst X → res (A * tst X).
#[global] Instance tr_ret : MRet TR := λ A a s, Ok (a, s).
#[global] Instance tr_bind : MBind TR := λ A B f m s, '(a, s) ← m s; f a s.

Definition tpanic {A} (m : string) : TR A := λ _, Panic m.
Definition tget {A} (g : tst X → A) : TR A := λ s, Ok (g s, s).
Definition csr_rd (g : csrs → Z) : TR Z := tget (λ s, g (tc s)).
Definition set_tc (c : csrs) (s : tst X) : tst X := mkT c (ttp s) (tk s) (tps s) (tticks s) (tx s).
Definition set_tk (k : kst) (s : tst X) : tst X := mkT (tc s) (ttp s) k (tps s) (tticks s) (tx s).
Definition set_tps (ps : list proc) (s : tst X) : tst X := mkT (tc s) (ttp s) (tk s) ps (tticks s) (tx s).
Definition set_tx (x : X) (s : tst X) : tst X := mkT (tc s) (ttp s) (tk s) (tps s) (tticks s) x.
Definition tmod (g : tst X → tst X) : TR unit := λ s, Ok (tt, g s).
Definition csr_wr (g : csrs → csrs) : TR unit := tmod (λ s, set_tc (g (tc s)) s).
Definition tcall (m : tst X → res (tst X)) : TR unit := λ s, s ← m s; Ok (tt, s).
Definition tprintf (fmt : string) (args : list arg) : TR unit := tcall (λ s, x ← t_printf fmt args (tx s); Ok (set_tx x s)).
Definition tproc (me : nat) : TR proc :=
  λ s, match tps s !! me with Some p => Ok (p, s) | None => Panic "proc index" end.

(** [cpuid]. *)
Definition cpuid : TR Z := tget (λ s, i32 (ttp s)).

(** ** plic.c *)
Definition plic_rd (a : Z) : TR Z := λ s, let '(v, x) := t_rd a (tx s) in Ok (v, set_tx x s).
Definition plic_wr (a v : Z) : TR unit := tmod (λ s, set_tx (t_wr a v (tx s)) s).

Definition plicinit : TR unit :=
  _ ← plic_wr (PLIC + UART0_IRQ * 4) 1;
  plic_wr (PLIC + VIRTIO0_IRQ * 4) 1.
Definition plicinithart : TR unit :=
  hart ← cpuid;
  _ ← plic_wr (PLIC_SENABLE hart) (Z.lor (Z.shiftl 1 UART0_IRQ) (Z.shiftl 1 VIRTIO0_IRQ));
  plic_wr (PLIC_SPRIORITY hart) 0.
Definition plic_claim : TR Z :=
  hart ← cpuid;
  irq ← plic_rd (PLIC_SCLAIM hart);
  mret (i32 irq).
Definition plic_complete (irq : Z) : TR unit :=
  hart ← cpuid;
  plic_wr (PLIC_SCLAIM hart) (u32 irq).

(** ** trap.c *)
Definition trapinithart : TR unit :=
  _ ← csr_wr (w_stvec kernelvec);
  csr_wr (w_scounteren 1).

Definition clockintr (me : option nat) : TR unit :=
  id ← cpuid;
  _ ← (if id =? 0 then
         tmod (λ s, mkT (tc s) (ttp s) (tk s) (wakeup V me ChTicks (tps s)) (u32 (tticks s + 1)) (tx s))
       else mret tt);
  t ← csr_rd r_time;
  csr_wr (w_stimecmp (u64 (t + 1000000))).

Definition devintr (me : option nat) : TR Z :=
  scause ← csr_rd r_scause;
  if scause =? 9223372036854775817 then        (* 0x8000000000000009 *)
    irq ← plic_claim;
    _ ← (if irq =? UART0_IRQ then tcall (t_uartintr me)
         else if irq =? VIRTIO0_IRQ then tcall (t_diskintr me)
         else if negb (irq =? 0) then tprintf ("unexpected interrupt irq=%d" ++ nl)%string [ANum irq]
         else mret tt);
    _ ← (if negb (irq =? 0) then plic_complete irq else mret tt);
    mret 1
  else if scause =? 9223372036854775813 then   (* 0x8000000000000005 *)
    _ ← clockintr me; mret 2
  else mret 0.

(** [yield] of proc.c. *)
Definition yield (me : nat) : TR unit :=
  _ ← tmod (λ s, set_tps (yield_begin V me (tps s)) s);
  tmod (t_switch me).

Definition kerneltrap (me : option nat) : TR unit :=
  sepc ← csr_rd r_sepc;
  sstatus ← csr_rd r_sstatus;
  scause ← csr_rd r_scause;
  if Z.land sstatus SSTATUS_SPP =? 0 then tpanic "kerneltrap: not from supervisor mode"
  else
    ie ← csr_rd intr_get;
    if negb (ie =? 0) then tpanic "kerneltrap: interrupts enabled"
    else
      which_dev ← devintr me;
      if which_dev =? 0 then
        epc ← csr_rd r_sepc;
        stval ← csr_rd r_stval;
        _ ← tprintf ("scause=0x%lx sepc=0x%lx stval=0x%lx" ++ nl)%string [ANum scause; ANum epc; ANum stval];
        tpanic "kerneltrap"
      else
        _ ← match me with
            | Some i => if which_dev =? 2 then yield i else mret tt
            | None => mret tt
            end;
        _ ← csr_wr (w_sepc sepc);
        csr_wr (w_sstatus sstatus).

Definition tf_load (me : nat) (off : Z) : TR Z :=
  p ← tproc me; tget (λ s, load (trapframe p + off) (tk s)).
Definition tf_store (me : nat) (off v : Z) : TR unit :=
  p ← tproc me; tmod (λ s, set_tk (store (trapframe p + off) v (tk s)) s).

(** ** syscall.c: [syscall] *)
Definition syscall (me : nat) : TR (option unit) :=
  a7 ← tf_load me (TF_A 7);
  let num := i32 a7 in
  match sys_of num with
  | Some f =>
      r ← t_call f me;
      match r with
      | Some v => _ ← tf_store me (TF_A 0) v; mret (Some tt)
      | None => mret None
      end
  | None =>
      p ← tproc me;
      _ ← tprintf ("%d %s: unknown sys call %d" ++ nl)%string [ANum (pid p); AStr (Some (name p)); ANum num];
      _ ← tf_store me (TF_A 0) (u64 (-1));
      mret (Some tt)
  end.

(** ** The way back to user space *)
Definition prepare_return (me : nat) : TR unit :=
  _ ← csr_wr intr_off;
  _ ← csr_wr (w_stvec uservec_va);
  satp ← csr_rd r_satp;
  _ ← tf_store me TF_KSATP satp;
  p ← tproc me;
  _ ← tf_store me TF_KSP (u64 (kstack p + PGSIZE));
  _ ← tf_store me TF_KTRAP usertrap_va;
  hart ← tget ttp;
  _ ← tf_store me TF_HARTID hart;
  x ← csr_rd r_sstatus;
  let x := Z.land x (Z.lnot SSTATUS_SPP) in
  let x := Z.lor x SSTATUS_SPIE in
  _ ← csr_wr (w_sstatus x);
  epc ← tf_load me TF_EPC;
  csr_wr (w_sepc epc).

Definition is_killed (me : nat) : TR bool := tget (λ s, negb (killed me (tps s) =? 0)).

(** The end of [usertrap]: [None] if the process exits, else [satp]. *)
Definition usertrap_end (me : nat) (which_dev : Z) : TR (option Z) :=
  k ← is_killed me;
  if (k : bool) then _ ← tcall (t_kexit me (-1)); mret None
  else
    _ ← (if which_dev =? 2 then yield me else mret tt);
    _ ← prepare_return me;
    p ← tproc me;
    mret (Some (MAKE_SATP (pagetable p))).

Definition usertrap (me : nat) : TR (option Z) :=
  x ← csr_rd r_sstatus;
  if negb (Z.land x SSTATUS_SPP =? 0) then tpanic "usertrap: not from user mode"
  else
    _ ← csr_wr (w_stvec kernelvec);
    epc ← csr_rd r_sepc;
    _ ← tf_store me TF_EPC epc;
    scause ← csr_rd r_scause;
    if scause =? 8 then
      k ← is_killed me;
      if (k : bool) then _ ← tcall (t_kexit me (-1)); mret None
      else
        epc ← tf_load me TF_EPC;
        _ ← tf_store me TF_EPC (u64 (epc + 4));
        _ ← csr_wr intr_on;
        o ← syscall me;
        match o with None => mret None | Some _ => usertrap_end me 0 end
    else
      which_dev ← devintr (Some me);
      if negb (which_dev =? 0) then usertrap_end me which_dev
      else
        scause ← csr_rd r_scause;
        stval ← csr_rd r_stval;
        p ← tproc me;
        mem ← (if (scause =? 15) || (scause =? 13) then
                 (λ s, '(r, k) ← vmfault kend (sz p) (pagetable p) (pagetable p) stval (tk s); Ok (r, set_tk k s))
               else mret 0);
        if negb (mem =? 0) then usertrap_end me which_dev
        else
          _ ← tprintf ("usertrap(): unexpected scause 0x%lx pid=%d" ++ nl)%string [ANum scause; ANum (pid p)];
          sepc ← csr_rd r_sepc;
          _ ← tprintf ("            sepc=0x%lx stval=0x%lx" ++ nl)%string [ANum sepc; ANum stval];
          _ ← tmod (λ s, set_tps (setkilled me (tps s)) s);
          usertrap_end me which_dev.

(** [forkret] of proc.c; [first] is its static variable. The result is the
    [satp] that [userret] gets. *)
Definition forkret (me : nat) (first : bool) : TR (Z * bool) :=
  _ ← (if first then
         _ ← tcall (t_fsinit me);
         r ← t_kexec me (cstr "/init") [cstr "/init"];
         _ ← tf_store me (TF_A 0) (u64 r);
         a0 ← tf_load me (TF_A 0);
         if a0 =? u64 (-1) then tpanic "exec" else mret tt
       else mret tt);
  _ ← prepare_return me;
  p ← tproc me;
  mret (MAKE_SATP (pagetable p), false).
End trap.
