(* ===== verification/TrapSpec.v ===== *)
(** * Traps and system calls, from user mode back to user mode

    What [kerneltrap], [syscall] and [usertrap] do on every branch, and the
    composition with the trampoline of [Asm]. *)
From S2P Require Import Prelude Riscv Mem Kalloc Vm Proc Uart Printf Csr Asm AsmSpec Trap.

Section trapspec.
Context {X : Type} `{TrapOps X}.
Context (V kend : Z) (kernelvec uservec_va usertrap_va userret_va : Z).
Abbreviation st := (tst X).
Abbreviation TRM := (@TR X).

Lemma tr_bind_ok {A B} (m : TRM A) (f : A → TRM B) s b s' :
  (m ≫= f) s = Ok (b, s') ↔ ∃ a s1, m s = Ok (a, s1) ∧ f a s1 = Ok (b, s').
Proof.
  unfold mbind, tr_bind. rewrite res_bind_ok. split.
  - intros ([a s1] & Hm & Hf). eauto.
  - intros (a & s1 & Hm & Hf). exists (a, s1). eauto.
Qed.
Lemma tr_bind_eq {A B} (m : TRM A) (f : A → TRM B) s a s1 : m s = Ok (a, s1) → (m ≫= f) s = f a s1.
Proof. intros Hm. unfold mbind, tr_bind. by rewrite Hm. Qed.
Lemma tget_ok {A} (g : st → A) s a s' : tget g s = Ok (a, s') ↔ a = g s ∧ s' = s.
Proof. unfold tget. naive_solver. Qed.
Lemma tmod_ok (g : st → st) s a s' : tmod g s = Ok (a, s') ↔ s' = g s.
Proof. unfold tmod. destruct a. naive_solver. Qed.
Lemma tr_ret_ok {A} (a b : A) s s' : (mret a : TRM A) s = Ok (b, s') ↔ b = a ∧ s' = s.
Proof. unfold mret, tr_ret. naive_solver. Qed.
Lemma tproc_ok me (s : st) p s' : tproc me s = Ok (p, s') ↔ tps s !! me = Some p ∧ s' = s.
Proof. unfold tproc. destruct (tps s !! me); naive_solver. Qed.
End trapspec.

(** Split a run into its steps. *)
Ltac tr_inv :=
  repeat match goal with
  | H : (_ ≫= _) _ = Ok (_, _) |- _ => apply tr_bind_ok in H as (? & ? & ? & ?)
  | H : csr_rd _ _ = Ok (_, _) |- _ => apply tget_ok in H as [-> ->]
  | H : csr_wr _ _ = Ok (_, _) |- _ => apply tmod_ok in H as ->
  | H : tget _ _ = Ok (_, _) |- _ => apply tget_ok in H as [-> ->]
  | H : tmod _ _ = Ok (_, _) |- _ => apply tmod_ok in H as ->
  | H : mret _ _ = Ok (_, _) |- _ => apply tr_ret_ok in H as [? ->]
  | H : tproc _ _ = Ok (_, _) |- _ => apply tproc_ok in H as [? ->]
  | H : tpanic _ _ = Ok _ |- _ => discriminate H
  end.

(** Fields and registers of an updated state. *)
Ltac tcbn := cbn [tc ttp tk tps tticks tx set_tc set_tk set_tps set_tx] in *.
Ltac tsimp := tcbn; autounfold with csr; regs.

Section kernel.
Context {X : Type} `{TrapOps X}.
Context (V kend : Z) (kernelvec uservec_va usertrap_va userret_va : Z).
Abbreviation st := (tst X).

(** ** Interrupts of the kernel *)

(** An interrupt of kernel code. [kerneltrap] only returns from an external or
    a timer interrupt taken in supervisor mode with interrupts off; it runs the
    device handler, gives up the processor after a timer interrupt of a process
    (and only then), and whatever happened meanwhile the return address and the
    status it hands back to [kernelvec] are those of the interrupted code. *)
Theorem kerneltrap_correct me (s s' : st) u :
  kerneltrap V me s = Ok (u, s') →
  Z.testbit (tc s SSTATUS) 8 = true ∧ Z.testbit (tc s SSTATUS) 1 = false ∧
  ∃ r s1, devintr V me s = Ok (r, s1) ∧
    (r = 1 ∧ tc s SCAUSE = 9223372036854775817 ∨ r = 2 ∧ tc s SCAUSE = 9223372036854775813) ∧
    let s2 := match me with
              | Some i => if r =? 2 then t_switch i (set_tps (yield_begin V i (tps s1)) s1) else s1
              | None => s1
              end in
    s' = set_tc (w_sstatus (tc s SSTATUS) (w_sepc (tc s SEPC) (tc s2))) s2.
Proof.
  intros Hk. unfold kerneltrap in Hk. tr_inv.
  unfold r_sstatus, SSTATUS_SPP in *. rewrite land_bit in * by lia.
  destruct (Z.testbit (tc s SSTATUS) 8) eqn:Hspp; simpl in *; [|done]. tr_inv.
  rewrite intr_get_bit in *. destruct (Z.testbit (tc s SSTATUS) 1) eqn:Hsie; simpl in *; [done|]. tr_inv.
  split_and!; [done..|]. exists x, x0. split; [done|].
  assert (x = 1 ∧ tc s SCAUSE = 9223372036854775817 ∨ x = 2 ∧ tc s SCAUSE = 9223372036854775813 ∨ x = 0) as Hd.
  { unfold devintr in *. tr_inv. unfold r_scause in *.
    destruct (Z.eqb_spec (tc s SCAUSE) 9223372036854775817); [tr_inv; by left|].
    destruct (Z.eqb_spec (tc s SCAUSE) 9223372036854775813); [tr_inv; by right; left|]. tr_inv. by right; right. }
  destruct (Z.eqb_spec x 0) as [->|Hx]; tr_inv. split; [naive_solver|].
  destruct me as [i|]; [destruct (x =? 2)|]; unfold yield in *; tr_inv; by simplify_eq/=.
Qed.

Lemma kerneltrap_restores me (s s' : st) u :
  kerneltrap V me s = Ok (u, s') → tc s' SEPC = tc s SEPC ∧ tc s' SSTATUS = tc s SSTATUS.
Proof.
  intros Hk. unfold kerneltrap in Hk. tr_inv. destruct (Z.land _ _ =? 0); [done|]. tr_inv.
  destruct (negb _); [done|]. tr_inv. destruct (_ =? 0); tr_inv. by tsimp.
Qed.

(** ** System calls *)

(** Word [off] of the trap frame of [me]. *)
Definition tf_word (s : st) (me : nat) (off : Z) : Z :=
  match tps s !! me with Some p => load (trapframe p + off) (tk s) | None => 0 end.

(** The saved registers and program counter of the process. *)
Definition frame_kept (me : nat) (s1 s2 : st) : Prop :=
  (∃ p1 p2, tps s1 !! me = Some p1 ∧ tps s2 !! me = Some p2 ∧ trapframe p2 = trapframe p1) ∧
  tf_word s2 me TF_EPC = tf_word s1 me TF_EPC ∧
  ∀ r o, (r, o) ∈ tf_regs → tf_word s2 me o = tf_word s1 me o.

Lemma tf_off r o : (r, o) ∈ tf_regs → (40 <= o < 288 ∧ o mod 8 = 0 ∧ o ≠ 112).
Proof.
  cut (Forall (λ p : Z * Z, 40 <= p.2 < 288 ∧ p.2 mod 8 = 0 ∧ p.2 ≠ 112) tf_regs).
  - intros Hf Hi. exact (proj1 (Forall_forall _ _) Hf (r, o) Hi).
  - by apply (bool_decide_unpack _).
Qed.

Lemma tf_load_ok me off (s : st) v s' : tf_load me off s = Ok (v, s') ↔
  is_Some (tps s !! me) ∧ v = tf_word s me off ∧ s' = s.
Proof.
  unfold tf_load, tf_word. rewrite tr_bind_ok. setoid_rewrite tproc_ok. setoid_rewrite tget_ok. split.
  - intros (p & s1 & [Hp ->] & -> & ->). by rewrite Hp.
  - intros ([p Hp] & -> & ->). exists p, s. by rewrite Hp.
Qed.

Lemma tf_store_ok me off v (s : st) u s' : tf_store me off v s = Ok (u, s') ↔
  ∃ p, tps s !! me = Some p ∧ s' = set_tk (store (trapframe p + off) v (tk s)) s.
Proof.
  unfold tf_store. rewrite tr_bind_ok. setoid_rewrite tproc_ok. setoid_rewrite tmod_ok. naive_solver.
Qed.

Lemma load_store_eq a v k : load a (store a v k) = u64 v.
Proof. apply ld64_st64. Qed.
Lemma load_store_ne a b v k : b + 8 <= a ∨ a + 8 <= b → load b (store a v k) = load b k.
Proof. apply ld64_st64_ne. Qed.

(** The status that [prepare_return] writes. *)
Lemma return_status c i : 0 <= i →
  Z.testbit (Z.lor (Z.land (intr_off c SSTATUS) (Z.lnot SSTATUS_SPP)) SSTATUS_SPIE) i =
  (Z.testbit (c SSTATUS) i && negb (bool_decide (1 = i)) && negb (bool_decide (8 = i)) || bool_decide (5 = i)).
Proof.
  intros Hi. unfold SSTATUS_SPIE, SSTATUS_SPP, intr_off, SSTATUS_SIE. autounfold with csr. rewrite csrw_eq.
  by rewrite lor_bit, !land_lnot_bit by lia.
Qed.

(** [prepare_return]: only the kernel's words of the trap frame and the
    registers for [sret] change. *)
Lemma prepare_return_spec me p (s s' : st) u :
  tps s !! me = Some p → prepare_return uservec_va usertrap_va me s = Ok (u, s') →
  tps s' = tps s ∧ ttp s' = ttp s ∧ tx s' = tx s ∧ tticks s' = tticks s ∧
  (∀ o, 40 <= o → tf_word s' me o = tf_word s me o) ∧ tf_word s' me TF_EPC = tf_word s me TF_EPC ∧
  tf_word s' me TF_KSATP = u64 (tc s SATP) ∧ tf_word s' me TF_KSP = u64 (kstack p + PGSIZE) ∧
  tf_word s' me TF_KTRAP = u64 usertrap_va ∧ tf_word s' me TF_HARTID = u64 (ttp s) ∧
  tc s' SATP = tc s SATP ∧ tc s' STVEC = uservec_va ∧ tc s' SEPC = tf_word s me TF_EPC ∧
  Z.testbit (tc s' SSTATUS) 8 = false ∧ Z.testbit (tc s' SSTATUS) 5 = true ∧ Z.testbit (tc s' SSTATUS) 1 = false.
Proof.
  intros Hp Hr. unfold prepare_return in Hr. tr_inv.
  repeat match goal with
  | H : tf_store _ _ _ _ = Ok _ |- _ => apply tf_store_ok in H as (? & ? & ->)
  | H : tf_load _ _ _ = Ok _ |- _ => apply tf_load_ok in H as (? & -> & ->)
  end.
  tcbn. simplify_eq. unfold tf_word. tcbn. rewrite Hp.
  unfold TF_EPC, TF_KSATP, TF_KSP, TF_KTRAP, TF_HARTID.
  split_and!; try reflexivity; try (intros o Ho);
    rewrite ?load_store_eq, ?load_store_ne by lia; rewrite ?load_store_eq, ?load_store_ne by lia;
    try reflexivity; try apply u64_small, u64_range; tsimp; try reflexivity; unfold r_sstatus;
    rewrite return_status by lia; by rewrite ?andb_false_r, ?orb_true_r.
Qed.

Lemma usertrap_end_spec me d (s s' : st) satp :
  d ≠ 2 → usertrap_end V uservec_va usertrap_va me d s = Ok (Some satp, s') →
  killed me (tps s) = 0 ∧ ∃ p u, tps s !! me = Some p ∧ prepare_return uservec_va usertrap_va me s = Ok (u, s') ∧
    tps s' = tps s ∧ satp = MAKE_SATP (pagetable p).
Proof.
  intros Hd He. unfold usertrap_end, is_killed in He. tr_inv.
  destruct (Z.eqb_spec (killed me (tps s)) 0) as [Hk|]; simpl in *; [|by tr_inv].
  tr_inv. rewrite (proj2 (Z.eqb_neq d 2) Hd) in *. tr_inv.
  match goal with Hp : prepare_return _ _ _ _ = Ok _ |- _ => pose proof Hp as Hpr end.
  assert (∃ p, tps s !! me = Some p) as [p Hp].
  { unfold prepare_return in Hpr. tr_inv. match goal with H : tf_store _ TF_KSATP _ _ = Ok _ |- _ => apply tf_store_ok in H as (p & Hp & _) end. by exists p. }
  destruct (prepare_return_spec _ _ _ _ _ Hp Hpr) as (Ht & _). rewrite Ht in *. simplify_eq.
  split; [done|]. eexists _, _. by split_and!.
Qed.

(** The handler that register a7 selects, if any. *)
Definition handler (s : st) (me : nat) : option sysname := sys_of (i32 (tf_word s me (TF_A 7))).

(** What [syscall] does: the handler that a7 names and its result in the a0
    slot, or, for a number that is not in the table (0, negative, too large),
    a message and -1 there and nothing else. *)
Theorem syscall_correct me (s s' : st) o p :
  tps s !! me = Some p → syscall me s = Ok (o, s') →
  match handler s me with
  | Some f => ∃ r s1, t_call f me s = Ok (r, s1) ∧
      match r with
      | Some v => o = Some tt ∧ ∃ p', tps s1 !! me = Some p' ∧
          s' = set_tk (store (trapframe p' + TF_A 0) v (tk s1)) s1
      | None => o = None ∧ s' = s1
      end
  | None => o = Some tt ∧ ∃ x, s' = set_tx x (set_tk (store (trapframe p + TF_A 0) (u64 (-1)) (tk s)) s)
  end.
Proof.
  intros Hp Hs. unfold syscall in Hs. tr_inv.
  match goal with H : tf_load _ _ _ = Ok _ |- _ => apply tf_load_ok in H as (_ & -> & ->) end.
  unfold handler. cbv zeta.
  destruct (sys_of _) as [f|]; tr_inv.
  - match goal with H : t_call _ _ _ = Ok (?r, ?s1) |- _ => exists r, s1; split; [done|]; destruct r end; tr_inv; [|done].
    match goal with H : tf_store _ _ _ _ = Ok _ |- _ => apply tf_store_ok in H as (p' & Hp' & ->) end. eauto.
  - match goal with H : tprintf _ _ _ = Ok _ |- _ => unfold tprintf, tcall in H end. res_inv.
    match goal with H : tf_store _ _ _ _ = Ok _ |- _ => apply tf_store_ok in H as (p' & Hp' & ->) end.
    tcbn. simplify_eq. split; [done|]. by eexists.
Qed.

(** The state in which the handler of a system call runs. *)
Definition at_syscall (p : proc) (s : st) : st :=
  set_tc (intr_on (w_stvec kernelvec (tc s)))
    (set_tk (store (trapframe p + TF_EPC) (u64 (u64 (tc s SEPC) + 4))
              (store (trapframe p + TF_EPC) (tc s SEPC) (tk s))) s).

(** A system call. When [usertrap] comes back from an [ecall], the process was
    not killed; exactly the handler that a7 selects has run, from the trapped
    state with interrupts on; its result is in the a0 slot; every other saved
    register is as it was trapped; [sret] will go to the instruction after the
    [ecall], in user mode with interrupts on again, traps will enter [uservec],
    and the frame holds this kernel's page table, stack, handler and hart for
    the next trap. *)
Theorem usertrap_syscall me f (s s' : st) satp :
  tc s SCAUSE = 8 → handler s me = Some f →
  (∀ s1 r s2, t_call f me s1 = Ok (r, s2) → frame_kept me s1 s2) →
  usertrap V kend kernelvec uservec_va usertrap_va me s = Ok (Some satp, s') →
  killed me (tps s) = 0 ∧
  ∃ p v s2 p', tps s !! me = Some p ∧ t_call f me (at_syscall p s) = Ok (Some v, s2) ∧ killed me (tps s2) = 0 ∧
    tps s' = tps s2 ∧ tx s' = tx s2 ∧ tps s' !! me = Some p' ∧ satp = MAKE_SATP (pagetable p') ∧
    tf_word s' me (TF_A 0) = u64 v ∧
    (∀ r o, (r, o) ∈ tf_regs → tf_word s' me o = tf_word s me o) ∧
    tc s' SEPC = u64 (u64 (tc s SEPC) + 4) ∧ tc s' STVEC = uservec_va ∧
    Z.testbit (tc s' SSTATUS) 8 = false ∧ Z.testbit (tc s' SSTATUS) 5 = true ∧ Z.testbit (tc s' SSTATUS) 1 = false ∧
    tf_word s' me TF_KSATP = u64 (tc s' SATP) ∧ tf_word s' me TF_KSP = u64 (kstack p' + PGSIZE) ∧
    tf_word s' me TF_KTRAP = u64 usertrap_va ∧ tf_word s' me TF_HARTID = u64 (ttp s').
Proof.
  intros Hc Hh Hkeep Hu. unfold usertrap in Hu. tr_inv.
  destruct (negb (Z.land _ _ =? 0)); [done|]. tr_inv.
  match goal with H : tf_store _ TF_EPC _ _ = Ok _ |- _ => apply tf_store_ok in H as (p & Hp & ->) end.
  tcbn. unfold r_scause, w_stvec in *. tr_inv.
  match goal with H : context [csrw STVEC kernelvec (tc s) SCAUSE =? 8] |- _ =>
    rewrite csrw_ne, Hc in H by done; change (8 =? 8) with true in H; cbv iota in H end.
  unfold is_killed in *. tr_inv. tcbn.
  destruct (Z.eqb_spec (killed me (tps s)) 0) as [Hk|]; cbn [negb] in *; [|by tr_inv].
  split; [done|]. tr_inv.
  repeat match goal with
  | H : tf_load _ _ _ = Ok _ |- _ => apply tf_load_ok in H as (_ & -> & ->)
  | H : tf_store _ TF_EPC _ _ = Ok _ |- _ => apply tf_store_ok in H as (p1 & Hp1 & ->)
  end.
  tcbn. simplify_eq.
  match goal with H : syscall me ?s1 = Ok _ |- _ => assert (s1 = at_syscall p s) as Hs1 end.
  { unfold at_syscall, w_stvec, tf_word, r_sepc. tcbn. rewrite Hp, load_store_eq, csrw_ne by done. done. }
  rewrite Hs1 in *. clear Hs1.
  assert (∀ o, 40 <= o → tf_word (at_syscall p s) me o = tf_word s me o) as Hw.
  { intros o Ho. unfold tf_word, at_syscall. tcbn. rewrite Hp. unfold TF_EPC. by rewrite !load_store_ne by lia. }
  match goal with H : syscall me _ = Ok _ |- _ => apply (syscall_correct _ _ _ _ p) in H; [|done];
    unfold handler in H, Hh; rewrite Hw, Hh in H by done; destruct H as (r & s2 & Hcall & Hr) end.
  destruct r as [v|]; [|destruct Hr as [-> ->]; by tr_inv]. destruct Hr as (-> & p' & Hp' & ->).
  match goal with H : usertrap_end _ _ _ _ _ _ = Ok _ |- _ => apply usertrap_end_spec in H; [|done];
    destruct H as (Hk2 & p2 & u & Hp2 & Hret & Ht & ->) end.
  tcbn. assert (p2 = p') as -> by congruence. apply (prepare_return_spec _ p') in Hret; [|done]. tcbn.
  destruct Hret as (R1 & R2 & R3 & R4 & R5 & R6 & R7 & R8 & R9 & R10 & R11 & R12 & R13 & R14 & R15 & R16).
  destruct (Hkeep _ _ _ Hcall) as ((q1 & q2 & Hq1 & Hq2 & Hqt) & Hepc & Hregs). tcbn.
  exists p, v, s2, p'. split_and!; try done; try (by rewrite ?R1, ?R2, ?R3, ?R11); try congruence.
  - rewrite (R5 (TF_A 0)) by done. unfold tf_word. tcbn. rewrite Hp'. apply load_store_eq.
  - intros r o Hi. destruct (tf_off r o Hi) as (Ho & Hm & Hne). rewrite R5 by lia.
    transitivity (tf_word s2 me o).
    + unfold tf_word. tcbn. rewrite Hp'. change (TF_A 0) with 112. apply load_store_ne. mlia.
    + rewrite (Hregs r o Hi). apply Hw. lia.
  - rewrite R13. transitivity (tf_word s2 me TF_EPC).
    + unfold tf_word. tcbn. rewrite Hp'. apply load_store_ne. change (TF_A 0) with 112. unfold TF_EPC. lia.
    + rewrite Hepc. unfold tf_word, at_syscall. tcbn. rewrite Hp, load_store_eq. apply u64_small, u64_range.
Qed.

(** ** Exceptions *)
Lemma usertrap_end_killed me d (s : st) r s' :
  killed me (tps s) ≠ 0 → usertrap_end V uservec_va usertrap_va me d s = Ok (r, s') →
  r = None ∧ t_kexit me (-1) s = Ok s'.
Proof.
  intros Hk He. unfold usertrap_end, is_killed in He. tr_inv. rewrite (proj2 (Z.eqb_neq _ _) Hk) in *.
  cbn [negb] in *. unfold tcall in *. tr_inv. res_inv. done.
Qed.

(** C40: an exception of user code that is no system call. The process goes on, at
    the instruction that faulted, only if the exception was a load or store page
    fault on a page of its memory that [vmfault] could now map and it was not
    killed; otherwise [usertrap] never returns to it: the process is marked
    killed and exits with status -1. *)
Theorem usertrap_exception me p (s s' : st) r :
  tps s !! me = Some p → tc s SCAUSE ≠ 8 →
  tc s SCAUSE ≠ 9223372036854775817 → tc s SCAUSE ≠ 9223372036854775813 →
  usertrap V kend kernelvec uservec_va usertrap_va me s = Ok (r, s') →
  let k := store (trapframe p + TF_EPC) (tc s SEPC) (tk s) in
  (∃ pa k', (tc s SCAUSE = 13 ∨ tc s SCAUSE = 15) ∧ killed me (tps s) = 0 ∧ pa ≠ 0 ∧
     vmfault kend (sz p) (pagetable p) (pagetable p) (tc s STVAL) k = Ok (pa, k') ∧
     r = Some (MAKE_SATP (pagetable p)) ∧ tps s' = tps s ∧
     tc s' SEPC = load (trapframe p + TF_EPC) k' ∧ Z.testbit (tc s' SSTATUS) 8 = false) ∨
  (r = None ∧ ∃ s1, killed me (tps s1) ≠ 0 ∧ t_kexit me (-1) s1 = Ok s').
Proof.
  intros Hp H8 Hext Htim Hu k. unfold usertrap in Hu. tr_inv.
  destruct (negb (Z.land _ _ =? 0)); [done|]. tr_inv.
  match goal with H : tf_store _ TF_EPC _ _ = Ok _ |- _ => apply tf_store_ok in H as (q & Hq & ->) end.
  tcbn. unfold r_scause, w_stvec in *. assert (q = p) as -> by congruence. clear Hq.
  match goal with H : context [csrw STVEC kernelvec (tc s) SCAUSE =? 8] |- _ =>
    rewrite csrw_ne, (proj2 (Z.eqb_neq _ _) H8) in H by done end.
  tr_inv. match goal with H : devintr _ _ _ = Ok _ |- _ => unfold devintr in H end. tr_inv.
  unfold r_scause in *. tcbn.
  match goal with H : context [csrw STVEC kernelvec (tc s) SCAUSE =? 9223372036854775817] |- _ =>
    rewrite csrw_ne, (proj2 (Z.eqb_neq _ _) Hext), (proj2 (Z.eqb_neq _ _) Htim) in H by done end.
  tr_inv. subst. change (negb (0 =? 0)) with false in *. cbv iota in *. tr_inv. tcbn.
  match goal with H : tps s !! me = Some ?q |- _ => assert (q = p) as -> by congruence end.
  match goal with H : (if (_ || _) then _ else _) _ = Ok (?pa, ?sx) |- _ => rename pa into v; rename sx into s1; rename H into Hv end.
  assert (tps s1 = tps s ∧ (v ≠ 0 → (tc s SCAUSE = 13 ∨ tc s SCAUSE = 15) ∧ ∃ k', s1 = set_tk k' (set_tc (w_stvec kernelvec (tc s)) s) ∧
    vmfault kend (sz p) (pagetable p) (pagetable p) (tc s STVAL) (store (trapframe p + TF_EPC) (tc s SEPC) (tk s)) = Ok (v, k')))
    as [Ht Hpf].
  { unfold r_stval, r_sepc in Hv. rewrite !csrw_ne in Hv by done.
    destruct (Z.eqb_spec (tc s SCAUSE) 15) as [He|], (Z.eqb_spec (tc s SCAUSE) 13) as [He'|]; cbn [orb] in Hv; tr_inv;
      try (subst; by split); tcbn; apply res_bind_ok in Hv as ([pa k'] & Hf & Hv); simplify_eq; tcbn;
      (split; [done|]; intros _; split; [auto|]; by exists k'). }
  destruct (Z.eqb_spec v 0) as [->|Hv0]; cbn [negb] in *.
  - right. tr_inv. unfold tprintf, tcall in *. res_inv. tcbn.
    match goal with H : usertrap_end _ _ _ _ _ ?s2 = Ok _ |- _ => rename H into He; set (s3 := s2) in He end.
    assert (killed me (tps s3) ≠ 0) as Hk.
    { unfold s3, killed, setkilled. tcbn. rewrite Ht, list_lookup_alter, Hp. by case_decide. }
    apply usertrap_end_killed in He as [-> He]; [|done]. eauto.
  - destruct (Hpf Hv0) as (Hc & k' & -> & Hf). tcbn.
    destruct r as [satp|]; [left|right; split; [done|]].
    + match goal with H : usertrap_end _ _ _ _ _ _ = Ok _ |- _ => apply usertrap_end_spec in H; [|done];
        destruct H as (Hk & p2 & u & Hp2 & Hret & Ht2 & ->) end.
      tcbn. assert (p2 = p) as -> by congruence. apply (prepare_return_spec _ p) in Hret; [|done]. tcbn.
      destruct Hret as (R1 & R2 & R3 & R4 & R5 & R6 & R7 & R8 & R9 & R10 & R11 & R12 & R13 & R14 & R15 & R16).
      exists v, k'. split_and!; try done. rewrite R13. unfold tf_word. tcbn. by rewrite Hp.
    + match goal with H : usertrap_end _ _ _ _ _ ?s2 = Ok _ |- _ => rename H into He; exists s2 end.
      destruct (decide (killed me (tps s) = 0)) as [Hz|Hn].
      * exfalso. unfold usertrap_end, is_killed in He. tr_inv. tcbn. rewrite Hz in *. cbn in *. by tr_inv.
      * by apply usertrap_end_killed in He as [_ He].
Qed.
End kernel.
