(* ===== verification/TrapAsm.v ===== *)
(** * A system call, end to end

    The hardware trap, [uservec], [usertrap], [userret] and [sret] composed: the
    C state that [usertrap] starts from is the machine that [uservec] leaves,
    and [userret] runs on the machine that [usertrap] leaves.  Likewise an
    interrupt of kernel code, through [kernelvec] and [kerneltrap]. *)
From S2P Require Import Prelude Riscv Mem Kalloc Vm Proc Uart Printf Csr Asm AsmSpec Trap TrapSpec.
Import Reg.

Section compose.
Context {X : Type} `{TrapOps X} (xlate : Z → Z → Z).
Context (V kend : Z) (kernelvec_va uservec_va usertrap_va userret_va : Z).

(** The C view of a machine, and back. *)
Record sees (m : machine) (s : tst X) : Prop := {
  se_cs : tc s = cs m;
  se_tp : ttp s = rg m tp;
  se_mem : km (tk s) = mm m
}.

(** C14: a system call as the process sees it. It executes [ecall] with a number in
    a7 whose handler keeps the saved registers; when it runs again, it is in
    user mode at the next instruction with interrupts on, a0 holds the
    handler's result, and every other register is untouched. The handler ran
    exactly once, for a process that was not killed. *)
Theorem syscall_end_to_end me f (m m2 : machine) (s s' : tst X) satp p :
  regs_ok m → md m = UMode → 0 <= pc m < 18446744073709551616 - 4 →
  mapped xlate (cs m SATP) TRAPFRAME (trapframe p) 288 →
  sys_of (i32 (rg m a7)) = Some f →
  (∀ s1 r s2, t_call f me s1 = Ok (r, s2) → frame_kept me s1 s2) →
  sees (run xlate (uservec userret_va) (trap 8 0 m)) s → tps s !! me = Some p →
  usertrap V kend kernelvec_va uservec_va usertrap_va me s = Ok (Some satp, s') →
  sees m2 s' → rg m2 a0 = satp → mapped xlate satp TRAPFRAME (trapframe p) 288 →
  let m3 := run xlate userret_code m2 in
  killed me (tps s) = 0 ∧ md m3 = UMode ∧ pc m3 = pc m + 4 ∧ Z.testbit (cs m3 SSTATUS) 1 = true ∧
  (∀ r, 1 <= r <= 31 → r ≠ a0 → rg m3 r = rg m r) ∧
  ∃ v s2, t_call f me (at_syscall kernelvec_va p s) = Ok (Some v, s2) ∧ rg m3 a0 = u64 v.
Proof.
  intros Hok Hmd Hpc Hmap Hf Hkeep [Sc St Sm] Hp Hu [Sc2 St2 Sm2] Ha0 Hmap2 m3.
  assert (regs_ok (trap 8 0 m)) as Hok' by exact Hok.
  assert (mapped xlate (cs (trap 8 0 m) SATP) TRAPFRAME (trapframe p) 288) as Hmap'.
  { unfold trap, take_trap. cbn [cs]. by regs. }
  destruct (uservec_spec xlate userret_va _ _ Hok' Hmap') as (R & K & Hrun & Hin & _).
  rewrite Hrun in Sc, St, Sm. clear Hrun. cbn [cs rg mm] in *.
  assert (∀ o, tf_word s me o = ld64 K (trapframe p + o)) as Hw.
  { intros o. unfold tf_word, load. by rewrite Hp, Sm. }
  assert (tc s SCAUSE = 8 ∧ tc s SEPC = pc m) as [Hcause Hepc].
  { rewrite Sc. unfold trap, take_trap. cbn [cs]. by regs. }
  assert (handler s me = Some f) as Hh.
  { unfold handler. rewrite Hw. change (TF_A 7) with 168. rewrite (Hin a7 168); [done|].
    by apply (bool_decide_unpack _). }
  destruct (usertrap_syscall _ _ _ _ _ _ _ _ _ _ Hcause Hh Hkeep Hu) as (Hk & q & v & s2 & p' & Hq & Hcall & _ & Ht & _ &
    Hp' & -> & Hv & Hregs & Hsepc & _ & Hspp & Hspie & _).
  assert (q = p) as -> by congruence.
  assert (∃ p2, tps s2 !! me = Some p2 ∧ trapframe p2 = trapframe p) as (p2 & Hp2 & Htf).
  { destruct (Hkeep _ _ _ Hcall) as ((q1 & q2 & Hq1 & Hq2 & He) & _). cbn in Hq1. exists q2. split; [done|].
    assert (q1 = p) as -> by congruence. done. }
  assert (p' = p2) as -> by congruence.
  assert (∀ o, tf_word s' me o = ld64 (mm m2) (trapframe p + o)) as Hw2.
  { intros o. unfold tf_word, load. by rewrite Hp', Sm2, Htf. }
  rewrite <-Ha0 in Hmap2. rewrite Sc2 in Hspp, Hsepc, Hspie.
  destruct (userret_spec xlate _ m2 Hmap2 Hspp) as (Hr & H1 & H2 & H3 & H4 & H5). fold m3 in Hr, H1, H2, H3, H4, H5.
  split; [done|]. split; [done|]. split.
  { rewrite H2, Hsepc, Hepc, !u64_small by (rewrite ?u64_small by lia; lia). done. }
  split; [by rewrite H5|]. split.
  - intros r Hr1 Hne. destruct (reg_slot r Hr1) as [o Ho]. rewrite (Hr r o Ho), <-Hw2.
    apply elem_of_cons in Ho as Hc. destruct Hc as [[= -> ->]|Hc]; [done|].
    rewrite (Hregs r o Hc), Hw. exact (Hin r o Ho).
  - exists v, s2. split; [done|]. rewrite (Hr a0 112) by (by left). rewrite <-Hw2. exact Hv.
Qed.

(** C27: an interrupt of kernel code, end to end: whatever devices were served and
    whichever processes ran meanwhile, when [kernelvec] returns the interrupted
    code goes on at its instruction with all its registers, except that [tp]
    names the hart it now runs on, in supervisor mode with interrupts enabled or
    not as before. *)
Theorem kernel_interrupt_end_to_end me cause tval pa (kt : machine → machine) (m : machine) (s s' : tst X) u :
  regs_ok m → md m = SMode → mapped xlate (cs m SATP) (u64 (rg m sp - 256)) pa 256 →
  let m1 := run xlate ([IAddi sp sp (-256)] ++ saves sp kv_regs) (trap cause tval m) in
  sees m1 s → kerneltrap V me s = Ok (u, s') → sees (kt m1) s' → preserves pa 256 kt m1 →
  let m2 := kernelvec xlate kt (trap cause tval m) in
  (∀ r, 1 <= r <= 31 → r ≠ tp → rg m2 r = rg m r) ∧ pc m2 = pc m ∧ md m2 = SMode ∧
  Z.testbit (cs m2 SSTATUS) 1 = Z.testbit (cs m SSTATUS) 1.
Proof.
  intros Hok Hmd Hmap m1 [Sc _ _] Hk [Sc2 _ _] Hpres.
  assert (tc s' SEPC = tc s SEPC ∧ tc s' SSTATUS = tc s SSTATUS) as [He Hs].
  { destruct (kerneltrap_restores V me s s' u Hk) as (? & ?). done. }
  apply (kernelvec_transparent xlate kt cause tval pa m Hok Hmd Hmap Hpres); [|].
  - fold m1. by rewrite <-Sc2, He, Sc.
  - fold m1. by rewrite <-Sc2, Hs, Sc.
Qed.
End compose.
