(* ===== verification/TrapExample.v ===== *)
(** * Traps on a small machine

    A process calls [getpid]; a timer interrupt stops kernel code; a wild store
    ends a process.  The other components are small: no device has work to do
    and the other system calls return 0. *)
From S2P Require Import Prelude Riscv Mem Kalloc Vm Proc Uart Printf Csr Asm AsmSpec Trap TrapSpec TrapAsm.
Import Reg.

Definition pexit (me : nat) (status : Z) (s : tst unit) : res (tst unit) :=
  Ok (set_tps (alter (λ p, set_state ZOMBIE (set_xstate status p)) me (tps s)) s).
Definition pcall (f : sysname) (me : nat) (s : tst unit) : res (option Z * tst unit) :=
  match f with
  | Sys_getpid => p ← from_option Ok (Panic "proc index") (tps s !! me); Ok (Some (pid p), s)
  | Sys_exit => s ← pexit me 0 s; Ok (None, s)
  | _ => Ok (Some 0, s)
  end.
#[export] Instance small_ops : TrapOps unit := {|
  t_rd a x := (0, x); t_wr a v x := x;
  t_uartintr me s := Ok s; t_diskintr me s := Ok s;
  t_printf f a x := Ok x; t_switch me s := set_tps (alter (set_state RUNNING) me (tps s)) s;
  t_kexit := pexit; t_call := pcall; t_fsinit me s := Ok s; t_kexec me p a s := Ok (0, s)
|}.

Definition tfa : Z := 2147487744.                  (* the trap frame's page *)
Definition stack_va : Z := 274877894656.           (* a page of kernel stack *)
Definition proca : proc :=
  mkProc RUNNING ChNull 0 0 42 None 274877894656 8192 2147495936 tfa [] [] None [] 0.
Definition user_satp : Z := MAKE_SATP (pagetable proca).
Definition kern_satp : Z := MAKE_SATP 2147500032.
(** The two pages that are not mapped one to one. *)
Definition xl (satp va : Z) : Z :=
  if (satp =? user_satp) && (TRAPFRAME <=? va) && (va <? TRAPFRAME + 4096) then tfa + (va - TRAPFRAME)
  else if (satp =? kern_satp) && (stack_va <=? va) && (va <? stack_va + 4096) then 2147504128 + (va - stack_va)
  else va.

Lemma xl_user : mapped xl user_satp TRAPFRAME tfa 288.
Proof.
  intros o Ho. unfold xl. change TRAPFRAME with 274877898752. rewrite u64_small by lia. rewrite Z.eqb_refl.
  cbn [andb]. repeat zcase; cbn [andb]; lia.
Qed.
Lemma xl_stack : mapped xl kern_satp (u64 (stack_va + 2048 - 256)) 2147505920 256.
Proof.
  intros o Ho. change (u64 (stack_va + 2048 - 256)) with (stack_va + 1792). unfold stack_va. rewrite u64_small by lia.
  unfold xl. change (kern_satp =? user_satp) with false. rewrite Z.eqb_refl. unfold stack_va. cbn [andb].
  repeat zcase; cbn [andb]; lia.
Qed.

(** *** getpid *)
Definition csr0 : csrs := λ c, match c with SATP => user_satp | STVEC => 274877902848 | SSTATUS => 2 | _ => 0 end.
Definition mem0 : mem := st64 (st64 (st64 (st64 ∅ tfa kern_satp) (tfa + 8) 274877898752) (tfa + 16) 2147483904) (tfa + 32) 0.
Definition reg0 : Z → Z := λ r, if r =? a7 then 11 else if (0 <=? r) && (r <? 32) then 1000 + r else 0.
Definition mach0 : machine := mkMach reg0 csr0 mem0 4096 UMode.
Definition entered : machine := run xl (uservec 274877903104) (trap 8 0 mach0).
(** The machine at [userret]. *)
Definition back_of (s : tst unit) : machine :=
  mkMach (λ r, if r =? a0 then user_satp else 0) (tc s) (km (tk s)) 0 SMode.
Lemma sees_back s : ttp s = 0 → sees (back_of s) s.
Proof. intros Hs. by split. Qed.
Definition view_of (m : machine) (ps : list proc) : tst unit := mkT (cs m) (rg m tp) (mkK (mm m) 0) ps 0 tt.
Lemma sees_view m ps : sees m (view_of m ps).
Proof. by split. Qed.

Definition cst0 : tst unit := view_of entered [proca].
Definition ut (s : tst unit) : res (option Z * tst unit) :=
  usertrap 7 2281701376 2147484160 274877902848 2147483904 0 s.
Definition okv {A B} (r : res (A * B)) (d : A * B) : A * B := match r with Ok x => x | _ => d end.
Definition after_ut (s : tst unit) : tst unit := (okv (ut s) (None, s)).2.
Definition ret_ut (s : tst unit) : option (option Z) := match ut s with Ok (r, _) => Some r | _ => None end.

Lemma ut_ok s r : ret_ut s = Some r →
  usertrap 7 2281701376 2147484160 274877902848 2147483904 0 s = Ok (r, after_ut s).
Proof. change (usertrap 7 2281701376 2147484160 274877902848 2147483904 0 s) with (ut s). unfold ret_ut, after_ut. destruct (ut s) as [[]| |]; simpl; congruence. Qed.

Lemma getpid_keeps s1 r s2 : t_call Sys_getpid 0 s1 = Ok (r, s2) → frame_kept 0 s1 s2.
Proof.
  simpl. destruct (tps s1 !! 0%nat) as [p|] eqn:Hp; simpl; [|done]. intros [= <- <-].
  split; [exists p, p; by split_and!|done].
Qed.

Lemma reg0_ok : regs_ok mach0.
Proof. intros r. unfold word. simpl. unfold reg0. repeat case_match; simpl; lia. Qed.

Lemma syscall_end_to_end_witness :
  let m3 := run xl userret_code (back_of (after_ut cst0)) in
  md m3 = UMode ∧ pc m3 = 4100 ∧ rg m3 a0 = 42 ∧ rg m3 s1 = 1009 ∧ rg m3 a7 = 11.
Proof.
  assert (ret_ut cst0 = Some (Some user_satp)) as Hu by (by vm_compute).
  assert (rg (back_of (after_ut cst0)) a0 = user_satp) as Ha by exact (eq_refl user_satp).
  assert (tps cst0 !! 0%nat = Some proca) as Hp by exact (eq_refl (Some proca)).
  assert (ttp (after_ut cst0) = 0) as Ht by (by vm_compute).
  assert (0 <= pc mach0 < 18446744073709551616 - 4) as Hpc by (simpl; lia).
  pose proof (syscall_end_to_end xl 7 2281701376 2147484160 274877902848 2147483904 274877903104 0 Sys_getpid mach0 (back_of (after_ut cst0))
    cst0 (after_ut cst0) user_satp proca reg0_ok eq_refl Hpc xl_user eq_refl getpid_keeps (sees_view entered [proca]) Hp (ut_ok _ _ Hu) (sees_back _ Ht) Ha xl_user)
    as (_ & H1 & H2 & _ & H3 & _).
  cbv zeta in *. split; [exact H1|]. split; [exact H2|]. split; [by vm_compute|].
  split; [apply (H3 s1); [split; discriminate|discriminate]|apply (H3 a7); [split; discriminate|discriminate]].
Defined.

(** *** A timer interrupt of kernel code *)
Definition csrk : csrs := λ c, match c with SATP => kern_satp | STVEC => 2147484160 | SSTATUS => 2 | TIME => 5 | _ => 0 end.
Definition regk : Z → Z := λ r, if r =? sp then stack_va + 2048 else if r =? tp then 0 else if (0 <=? r) && (r <? 32) then 2000 + r else 0.
Definition machk : machine := mkMach regk csrk mem0 2147484416 SMode.
Definition timer : Z := 9223372036854775813.
Definition kentered : machine := run xl ([IAddi sp sp (-256)] ++ saves sp kv_regs) (trap timer 0 machk).
Definition kst0 : tst unit := view_of kentered [proca].
Definition kt (s : tst unit) : res (unit * tst unit) := kerneltrap 7 (Some 0%nat) s.
Definition after_kt (s : tst unit) : tst unit := (okv (kt s) (tt, s)).2.
Definition done_kt (s : tst unit) : bool := match kt s with Ok _ => true | _ => false end.

Lemma kt_ok s : done_kt s = true → kerneltrap 7 (Some 0%nat) s = Ok (tt, after_kt s).
Proof.
  change (kerneltrap 7 (Some 0%nat) s) with (kt s). unfold done_kt, after_kt.
  destruct (kt s) as [[[] s']| |]; simpl; congruence.
Qed.

(** [kerneltrap] as a machine function: it leaves the C state [s'] and clobbers
    a register it may clobber. *)
Definition kt_machine (s' : tst unit) (m : machine) : machine :=
  mkMach (rset tp (ttp s') (rset t3 5 (rg m))) (tc s') (km (tk s')) 0 SMode.
Lemma sees_kt s' m : sees (kt_machine s' m) s'.
Proof. by split. Qed.
Lemma kt_preserves s' m : km (tk s') = mm m → tc s' SATP = cs m SATP → preserves 2147505920 256 (kt_machine s') m.
Proof.
  intros Hm Hs. split; [done|]. split; [|split; [|done]].
  - intros r Hr. unfold kt_machine. cbn [rg]. unfold rset. 
    repeat case_decide; subst; try done; exfalso; revert Hr; by apply (bool_decide_unpack _).
  - intros o _ _. unfold kt_machine. cbn [mm]. by rewrite Hm.
Qed.

Lemma regk_ok : regs_ok machk.
Proof. intros r. unfold word. simpl. unfold regk. repeat case_match; simpl; unfold stack_va; lia. Qed.

Lemma kt_mem : km (tk (after_kt kst0)) = mm kentered.
Proof. vm_cast_no_check (eq_refl (mm kentered)). Qed.

Lemma kernel_interrupt_end_to_end_witness :
  let m2 := kernelvec xl (kt_machine (after_kt kst0)) (trap timer 0 machk) in
  rg m2 t3 = 2028 ∧ rg m2 sp = stack_va + 2048 ∧ pc m2 = 2147484416 ∧ Z.testbit (cs m2 SSTATUS) 1 = true ∧
  tticks (after_kt kst0) = 1.
Proof.
  assert (done_kt kst0 = true) as Hd by (by vm_compute).
  pose proof kt_mem as Hm.
  assert (tc (after_kt kst0) SATP = cs kentered SATP) as Hs by (by vm_compute).
  pose proof (kernel_interrupt_end_to_end xl 7 (Some 0%nat) timer 0 2147505920 (kt_machine (after_kt kst0)) machk kst0
    (after_kt kst0) tt regk_ok eq_refl xl_stack (sees_view kentered [proca]) (kt_ok _ Hd) (sees_kt _ _)
    (kt_preserves _ _ Hm Hs)) as (H1 & H2 & _ & H4).
  cbv zeta in *. split; [apply (H1 t3); [split; discriminate|discriminate]|].
  split; [apply (H1 sp); [split; discriminate|discriminate]|]. split; [exact H2|]. split; [exact H4|by vm_compute].
Defined.

(** *** A store to an address that is not the process's *)
Definition wild : tst unit := mkT (csrw SCAUSE 15 (csrw STVAL 1048576 csr0)) 0 (mkK mem0 0) [proca] 0 tt.
Definition okwild : tst unit := set_tc (csrw SSTATUS 0 (tc wild)) wild.

Lemma usertrap_exception_witness :
  ret_ut okwild = Some None ∧
  ∃ s1 : tst unit, killed 0 (tps s1) ≠ 0 ∧ t_kexit 0 (-1) s1 = Ok (after_ut okwild).
Proof.
  assert (ret_ut okwild = Some None) as Hr by (by vm_compute). split; [exact Hr|].
  assert (tc okwild SCAUSE ≠ 8) as H1 by (by vm_compute).
  assert (tc okwild SCAUSE ≠ 9223372036854775817) as H2 by (by vm_compute).
  assert (tc okwild SCAUSE ≠ 9223372036854775813) as H3 by (by vm_compute).
  assert (tps okwild !! 0%nat = Some proca) as Hp by exact (eq_refl (Some proca)).
  pose proof (usertrap_exception 7 2281701376 2147484160 274877902848 2147483904 0 proca okwild (after_ut okwild) None Hp
    H1 H2 H3 (ut_ok _ _ Hr)) as [(pa & k' & _ & _ & _ & _ & He & _)|[_ Hs]]; [discriminate He|exact Hs].
Defined.

(** *** The dispatch *)
Definition sc (s : tst unit) : res (option unit * tst unit) := syscall 0 s.
Definition after_sc (s : tst unit) : tst unit := (okv (sc s) (None, s)).2.
Definition ret_sc (s : tst unit) : option (option unit) := match sc s with Ok (r, _) => Some r | _ => None end.
Lemma sc_ok s r : ret_sc s = Some r → syscall 0 s = Ok (r, after_sc s).
Proof.
  change (syscall 0 s) with (sc s). unfold ret_sc, after_sc. destruct (sc s) as [[]| |]; simpl; congruence.
Qed.

Lemma syscall_correct_witness :
  syscall 0 cst0 = Ok (Some tt, after_sc cst0) ∧
  ∃ r s1, t_call Sys_getpid 0 cst0 = Ok (r, s1) ∧
    match r with
    | Some v => Some tt = Some tt ∧ ∃ p', tps s1 !! 0%nat = Some p' ∧
        after_sc cst0 = set_tk (store (trapframe p' + TF_A 0) v (tk s1)) s1
    | None => Some tt = None ∧ after_sc cst0 = s1
    end.
Proof.
  assert (tps cst0 !! 0%nat = Some proca) as Hp by exact (eq_refl (Some proca)).
  assert (handler cst0 0 = Some Sys_getpid) as Hh by (by vm_compute).
  assert (ret_sc cst0 = Some (Some tt)) as Hr by (by vm_compute).
  split; [exact (sc_ok _ _ Hr)|].
  pose proof (syscall_correct 0 cst0 (after_sc cst0) (Some tt) proca Hp (sc_ok _ _ Hr)) as Hc.
  rewrite Hh in Hc. exact Hc.
Defined.

(** *** A context switch *)
Definition ident (satp va : Z) : Z := va.
Lemma ident_mapped satp a n : 0 <= a → a + n < 18446744073709551616 → mapped ident satp a a n.
Proof. intros Ha Hn o Ho. unfold ident. apply u64_small. lia. Qed.

Definition thread1 : machine :=
  mkMach (λ r, if r =? a0 then 4096 else if r =? a1 then 8192 else if (0 <=? r) && (r <? 32) then 500 + r else 0) csrk ∅ 0 SMode.
Definition thread2 (k : mem) : machine :=
  mkMach (λ r, if r =? a0 then 8192 else if r =? a1 then 4096 else 9) csrk k 0 SMode.
Lemma thread2_mem k o : ld64 (mm (thread2 k)) o = ld64 k o.
Proof. done. Qed.

Lemma swtch_resumes_witness :
  let m3 := run ident swtch (thread2 (mm (run ident swtch thread1))) in pc m3 = 501 ∧ rg m3 s1 = 509 ∧ rg m3 sp = 502 ∧ rg m3 t0 = 9.
Proof.
  assert (regs_ok thread1) as Hok by (intros r; unfold word; simpl; repeat case_match; simpl; lia).
  assert (mapped ident (csrk SATP) 4096 4096 112) as H1 by (apply ident_mapped; lia).
  assert (mapped ident (csrk SATP) 8192 8192 112) as H2 by (apply ident_mapped; lia).
  assert (4096 + 112 <= 8192 ∨ 8192 + 112 <= 4096) as H3 by lia.
  assert (8192 + 112 <= 4096 ∨ 4096 + 112 <= 8192) as H4 by lia.
  pose proof (swtch_resumes ident 4096 8192 8192 thread1 (thread2 (mm (run ident swtch thread1)))
    Hok H1 H2 H3 H2 H1 H4 (λ o _ _, thread2_mem _ _)) as (Hp & Hr & Ho & _).
  cbv zeta in *. split; [exact Hp|]. split; [apply (Hr s1); by apply (bool_decide_unpack _)|].
  split; [apply (Hr sp); by apply (bool_decide_unpack _)|]. rewrite (Ho t0) by (by apply (bool_decide_unpack _)). reflexivity.
Defined.

Lemma start_correct_witness :
  let '(md, pc, _, tp) := start 2147484672 csr0 in md = SMode ∧ pc = 2147484672 ∧ tp = 0.
Proof.
  assert (0 <= csr0 MHARTID < 2147483648) as Hh by (simpl; lia).
  pose proof (start_correct 2147484672 csr0 Hh) as Hs. destruct (start 2147484672 csr0) as [[[md pc] c'] tp].
  destruct Hs as (H1 & H2 & H3 & _). by split_and!.
Defined.
