(* ===== verification/Exec.v ===== *)
(** * exec

    [kernel/exec.c] and [sys_exec] of [kernel/sysfile.c], over the file system
    of [Fs] and the page tables of [Vm], which share the kernel's memory: the
    state is that of the file system with the head of the page allocator's free
    list.  The local structs and arrays have addresses ([elfa], [pha], [usa],
    [patha], [uarga]).  What exec changes of the process is an [image]. *)
From S2P Require Import Prelude Riscv Mem CString Kalloc Vm Bio Log Buf Proc UserMem Pipe Uart Printf Console Fs Dir File ProcLife Sysfile.

Definition MAXARG : Z := 32.
Definition USERSTACK : Z := 1.
Definition ELF_MAGIC : Z := 1179403647.     (* 0x464C457F *)
Definition ELF_PROG_LOAD : Z := 1.
Definition ELFHDR : Z := 64.                (* sizeof(struct elfhdr) *)
Definition PROGHDR : Z := 56.               (* sizeof(struct proghdr) *)

Record image := mkImg {
  im_pagetable : Z;
  im_sz : Z;
  im_epc : Z;                   (* trapframe->epc, sp, a1 *)
  im_sp : Z;
  im_a1 : Z;
  im_name : list Z
}.

Definition flags2perm (flags : Z) : Z :=
  let perm := if negb (Z.land flags 1 =? 0) then PTE_X else 0 in
  if negb (Z.land flags 2 =? 0) then Z.lor perm PTE_W else perm.

(** The part of [path] after its last slash. *)
Fixpoint last_elem (s last : list Z) : list Z :=
  match s with [] => last | c :: s' => last_elem s' (if c =? 47 then s' else last) end.

Section exec.
Context {S : Type} `{BufOps S} {M : Type} `{UserMem M}.
Context (kend trampoline de : Z) (elfa pha usa patha uarga : Z).

Record exst := mkEx { xfs : fss S M; xfree : Z }.

Definition EX (A : Type) : Type := exst → res (A * exst).
#[global] Instance ex_ret : MRet EX := λ A a s, Ok (a, s).
#[global] Instance ex_bind : MBind EX := λ A B f m s, '(a, s) ← m s; f a s.

Definition expanic {A} (m : string) : EX A := λ _, Panic m.
Definition exhang {A} : EX A := λ _, NoFuel.
(** Run a computation of the file system, of the page tables. *)
Definition xf {A} (m : @FS S M A) : EX A := λ s, '(a, x) ← m (xfs s); Ok (a, mkEx x (xfree s)).
Definition set_kst (k : kst) (s : exst) : exst :=
  mkEx (set_fmem (km k) (fum (xfs s)) (xfs s)) (freelist k).
Definition xv {A} (f : kst → res (A * kst)) : EX A :=
  λ s, '(a, k) ← f (mkK (fkm (xfs s)) (xfree s)); Ok (a, set_kst k s).
Definition xv_ (f : kst → res kst) : EX unit := xv (λ k, k ← f k; Ok (tt, k)).
Definition xmem : EX mem := λ s, Ok (fkm (xfs s), s).

(** ** loadseg *)
Fixpoint loadseg_loop (fuel : nat) (pagetable va : Z) (ip : nat) (offset sz i : Z) : EX Z :=
  if i <? sz then
    match fuel with
    | O => exhang
    | Datatypes.S f =>
        pa ← xv (walkaddr pagetable (u64 (va + i)));
        if pa =? 0 then expanic "loadseg: address should exist"
        else
          let n := if u32 (sz - i) <? PGSIZE then u32 (sz - i) else PGSIZE in
          r ← xf (Fs.readi ip 0 pa (u32 (offset + i)) n);
          if negb (u32 r =? n) then mret (-1)
          else loadseg_loop f pagetable va ip offset sz (u32 (i + PGSIZE))
    end
  else mret 0.

Definition loadseg (pagetable va : Z) (ip : nat) (offset sz : Z) : EX Z :=
  loadseg_loop (Z.to_nat (sz / PGSIZE + 1)) pagetable va ip offset sz 0.

(** ** kexec *)

(** The loop over the program headers; [n] turns are left. The flag is false
    for [goto bad]; the size of the image so far. *)
Fixpoint load_loop (n : nat) (pagetable : Z) (ip : nat) (off sz : Z) : EX (bool * Z) :=
  match n with
  | O => mret (true, sz)
  | Datatypes.S n' =>
      r ← xf (Fs.readi ip 0 pha (u32 off) PROGHDR);
      if negb (r =? PROGHDR) then mret (false, sz)
      else
        m ← xmem;
        if negb (ldn m pha 4 =? ELF_PROG_LOAD) then load_loop n' pagetable ip (i32 (off + PROGHDR)) sz
        else
          let flags := ldn m (pha + 4) 4 in
          let phoff := ld64 m (pha + 8) in
          let vaddr := ld64 m (pha + 16) in
          let filesz := ld64 m (pha + 32) in
          let memsz := ld64 m (pha + 40) in
          if memsz <? filesz then mret (false, sz)
          else if u64 (vaddr + memsz) <? vaddr then mret (false, sz)
          else if negb (vaddr mod PGSIZE =? 0) then mret (false, sz)
          else
            sz1 ← xv (uvmalloc kend pagetable sz (u64 (vaddr + memsz)) (flags2perm flags));
            if sz1 =? 0 then mret (false, sz)
            else
              r ← loadseg pagetable vaddr ip (u32 phoff) (u32 filesz);
              if r <? 0 then mret (false, sz1)
              else load_loop n' pagetable ip (i32 (off + PROGHDR)) sz1
  end.

(** The loop over the argument strings, [argv] being what is left of the array:
    the count and the stack pointer, unless [goto bad]. *)
Fixpoint push_args (argv : list Z) (im : image) (pagetable stackbase argc sp : Z) : EX (option (Z * Z)) :=
  match argv with
  | [] => expanic "argv index"
  | a :: argv' =>
      if a =? 0 then mret (Some (argc, sp))
      else if MAXARG <=? argc then mret None
      else
        m ← xmem;
        len ← (λ s, n ← strlen m a (Z.to_nat PGSIZE); Ok (n, s)) : EX Z;
        let sp := u64 (sp - (len + 1)) in
        let sp := sp - sp mod 16 in
        if sp <? stackbase then mret None
        else
          r ← xv (Vm.copyout kend (im_sz im) (im_pagetable im) pagetable sp a (len + 1));
          if r <? 0 then mret None
          else
            _ ← xv_ (λ k, Ok (Vm.set_km (st64 (km k) (usa + 8 * argc) sp) k));
            push_args argv' im pagetable stackbase (argc + 1) sp
  end.

(** The label [bad:] before and after the inode is released. *)
Definition exec_bad (pagetable sz : Z) (ip : option nat) : EX Z :=
  _ ← (if negb (pagetable =? 0) then xv_ (proc_freepagetable kend pagetable sz) else mret tt);
  _ ← match ip with Some i => _ ← xf (Fs.iunlockput i); xf Fs.end_op | None => mret tt end;
  mret (-1).

(** From the end of the transaction on: the stack, the arguments, the commit. *)
Definition exec_stack (path argv : list Z) (entry pagetable sz : Z) (im : image) : EX (Z * image) :=
  let sz := PGROUNDUP sz in
  let bad sz := (r ← exec_bad pagetable sz None; mret (r, im)) : EX (Z * image) in
  sz1 ← xv (uvmalloc kend pagetable sz (u64 (sz + (USERSTACK + 1) * PGSIZE)) PTE_W);
  if sz1 =? 0 then bad sz
  else
    let sz := sz1 in
    _ ← xv_ (uvmclear pagetable (u64 (sz - (USERSTACK + 1) * PGSIZE)));
    let stackbase := u64 (sz - USERSTACK * PGSIZE) in
    o ← push_args argv im pagetable stackbase 0 sz;
    match o with
    | None => bad sz
    | Some (argc, sp) =>
        _ ← xv_ (λ k, Ok (Vm.set_km (st64 (km k) (usa + 8 * argc) 0) k));
        let sp := u64 (sp - (argc + 1) * 8) in
        let sp := sp - sp mod 16 in
        if sp <? stackbase then bad sz
        else
          r ← xv (Vm.copyout kend (im_sz im) (im_pagetable im) pagetable sp usa ((argc + 1) * 8));
          if r <? 0 then bad sz
          else
            let name := name_copy (im_name im) (last_elem path path) 15 in
            _ ← xv_ (proc_freepagetable kend (im_pagetable im) (im_sz im));
            mret (argc, mkImg pagetable sz entry sp sp name)
    end.

(** [tf] is the address of the trap frame, [cwd] the current directory. *)
Definition kexec (tf : Z) (cwd : nat) (path argv : list Z) (im : image) : EX (Z * image) :=
  _ ← xf Fs.begin_op;
  o ← xf (Dir.namei de cwd path);
  match o with
  | None => _ ← xf Fs.end_op; mret (-1, im)
  | Some i =>
      let bad pagetable sz := (r ← exec_bad pagetable sz (Some i); mret (r, im)) : EX (Z * image) in
      _ ← xf (Fs.ilock (Some i));
      r ← xf (Fs.readi i 0 elfa 0 ELFHDR);
      if negb (r =? ELFHDR) then bad 0 0
      else
        m ← xmem;
        let entry := ld64 m (elfa + 24) in
        let phoff := ld64 m (elfa + 32) in
        let phnum := ldn m (elfa + 56) 2 in
        if negb (ldn m elfa 4 =? ELF_MAGIC) then bad 0 0
        else
          pagetable ← xv (proc_pagetable kend trampoline tf);
          if pagetable =? 0 then bad 0 0
          else
            '(ok, sz) ← load_loop (Z.to_nat phnum) pagetable i (i32 phoff) 0;
            if negb ok then bad pagetable sz
            else
              _ ← xf (Fs.iunlockput i);
              _ ← xf Fs.end_op;
              exec_stack path argv entry pagetable sz im
  end.
(** ** sys_exec *)

(** The C string at [a]; [n] bounds its length. *)
Fixpoint cstr_at (m : mem) (a : Z) (n : nat) : list Z :=
  match n with
  | O => []
  | Datatypes.S n' => if ld8 m a =? 0 then [] else ld8 m a :: cstr_at m (a + 1) n'
  end.

(** [fetchaddr] and [fetchstr] of syscall.c into a buffer of the kernel. *)
Definition fetchaddr_to (addr dst : Z) (im : image) : EX Z :=
  if (im_sz im <=? addr) || (im_sz im <? u64 (addr + 8)) then mret (-1)
  else
    r ← xv (Vm.copyin kend (im_sz im) (im_pagetable im) (im_pagetable im) dst addr 8);
    mret (if negb (r =? 0) then -1 else 0).

Definition fetchstr_to (addr dst max : Z) (im : image) : EX Z :=
  r ← xv (Vm.copyinstr (im_pagetable im) dst addr max);
  if r <? 0 then mret (-1)
  else m ← xmem; (λ s, n ← strlen m dst (Z.to_nat max); Ok (n, s)) : EX Z.

(** The loop of [sys_exec] from index [i] on, [n] turns: the flag is false for
    [goto bad]; the pages of the arguments, in order. *)
Fixpoint fetch_args (n : nat) (i uargv : Z) (im : image) : EX (bool * list Z) :=
  match n with
  | O => exhang
  | Datatypes.S n' =>
      if MAXARG <=? i then mret (false, [])
      else
        r ← fetchaddr_to (u64 (uargv + 8 * i)) uarga im;
        if r <? 0 then mret (false, [])
        else
          m ← xmem;
          let uarg := ld64 m uarga in
          if uarg =? 0 then mret (true, [])
          else
            pg ← xv (λ k, Ok (kalloc k));
            if pg =? 0 then mret (false, [])
            else
              r ← fetchstr_to uarg pg PGSIZE im;
              if r <? 0 then mret (false, [pg])
              else '(ok, pgs) ← fetch_args n' (i + 1) uargv im; mret (ok, pg :: pgs)
  end.

Fixpoint free_args (pgs : list Z) : EX unit :=
  match pgs with [] => mret tt | pg :: pgs' => _ ← xv_ (kfree kend pg); free_args pgs' end.

(** [a0] and [a1] are the arguments of the system call. *)
Definition sys_exec (tf : Z) (cwd : nat) (a0 a1 : Z) (im : image) : EX (Z * image) :=
  let uargv := a1 in
  r ← fetchstr_to a0 patha MAXPATH im;
  if r <? 0 then mret (-1, im)
  else
    '(ok, argv) ← fetch_args (Z.to_nat MAXARG + 1) 0 uargv im;
    if negb ok then _ ← free_args argv; mret (-1, im)
    else
      m ← xmem;
      '(ret, im) ← kexec tf cwd (cstr_at m patha (Z.to_nat MAXPATH)) (argv ++ [0]) im;
      _ ← free_args argv;
      mret (ret, im).
End exec.
Arguments exst S M : clear implicits.
