(* ===== verification/ExecSpec.v ===== *)
(** * exec: references, bounds, and the image it commits

    [epart] is partial correctness of a computation of [Exec].  [EKeeps m]:
    [m] leaves every inode reference count, every inode lock and the number of
    open transactions as they were; the page-table code keeps them because it
    does not touch the file system. *)
From S2P Require Import Prelude Riscv Mem CString Kalloc Vm Bio Log Buf Proc UserMem Pipe Uart Printf Console Fs FsLaws Dinode Dir Itable IRefs File Sysfile SysSpec Balance ProcLife Exec.

Section execspec.
Context {S : Type} `{TxDepth S} {M : Type} `{UserMem M}.
Context (kend trampoline de elfa pha usa patha uarga : Z).
Abbreviation st := (exst S M).
Abbreviation EXM := (@EX S M).

Definition epart {A} (m : EXM A) (s : st) (Q : A → st → Prop) : Prop :=
  match m s with Ok (a, s') => Q a s' | _ => True end.

Lemma epart_bind {A B} (m : EXM A) (f : A → EXM B) s Q :
  epart m s (λ a s', epart (f a) s' Q) → epart (m ≫= f) s Q.
Proof. unfold epart, mbind, ex_bind. by destruct (m s) as [[]| |]. Qed.
Lemma epart_ret {A} (a : A) s (Q : A → st → Prop) : Q a s → epart (mret a) s Q.
Proof. done. Qed.
Lemma epart_mono {A} (m : EXM A) s (Q R : A → st → Prop) :
  epart m s Q → (∀ a s', Q a s' → R a s') → epart m s R.
Proof. unfold epart. destruct (m s) as [[]| |]; auto. Qed.
Lemma epart_ok {A} (m : EXM A) s (Q : A → st → Prop) a s' : epart m s Q → m s = Ok (a, s') → Q a s'.
Proof. unfold epart. intros Hm He. by rewrite He in Hm. Qed.
Lemma epart_any {A} (m : EXM A) s (Q : A → st → Prop) : (∀ a s', Q a s') → epart m s Q.
Proof. unfold epart. destruct (m s) as [[]| |]; auto. Qed.
Lemma epart_xmem s (Q : mem → st → Prop) : Q (fkm (xfs s)) s → epart xmem s Q.
Proof. done. Qed.
Lemma epart_xf {A} (m : @FS S M A) s (Q : A → st → Prop) :
  fpart m (xfs s) (λ a x, Q a (mkEx x (xfree s))) → epart (xf m) s Q.
Proof. unfold epart, xf, fpart. by destruct (m (xfs s)) as [[]| |]. Qed.
Lemma epart_xv {A} (f : kst → res (A * kst)) s (Q : A → st → Prop) :
  (∀ a k, f (mkK (fkm (xfs s)) (xfree s)) = Ok (a, k) → Q a (set_kst k s)) → epart (xv f) s Q.
Proof. unfold epart, xv. destruct (f _) as [[]| |]; simpl; auto. Qed.
Lemma epart_lift {A} (r : res A) s (Q : A → st → Prop) :
  (∀ n, r = Ok n → Q n s) → epart (λ s, n ← r; Ok (n, s)) s Q.
Proof. unfold epart. destruct r; simpl; auto. Qed.

(** ** Inode references, locks and transactions *)
Abbreviation REL := (rel True True).
Definition erel (c : nat → Z) (L : list bool) (d : Z) (s : st) : Prop := REL c (xfs s) ∧ lks L d (xfs s).

Class EKeeps {A} (m : EXM A) : Prop := ekeeps c L d s : erel c L d s → epart m s (λ _ s', erel c L d s').

#[export] Instance ek_ret {A} (a : A) : EKeeps (mret a).
Proof. intros c L d s Hs. done. Qed.
#[export] Instance ek_panic {A} m : EKeeps (expanic m : EXM A).
Proof. intros c L d s Hs. done. Qed.
#[export] Instance ek_hang {A} : EKeeps (exhang : EXM A).
Proof. intros c L d s Hs. done. Qed.
#[export] Instance ek_mem : EKeeps xmem.
Proof. intros c L d s Hs. done. Qed.
#[export] Instance ek_lift {A} (r : st → res A) : EKeeps (λ s, n ← r s; Ok (n, s)).
Proof. intros c L d s Hs. unfold epart. destruct (r s); done. Qed.
#[export] Instance ek_bind {A B} (m : EXM A) (f : A → EXM B) : EKeeps m → (∀ a, EKeeps (f a)) → EKeeps (m ≫= f).
Proof.
  intros Hm Hf c L d s Hs. apply epart_bind. eapply epart_mono; [by apply Hm|]. intros a s' Hs'. by apply Hf.
Qed.

(** A computation of the file system, with what it does to the references and to
    the locks. *)
Lemma epart_fs {A} (m : @FS S M A) s (P R : A → fss S M → Prop) (Q : A → st → Prop) :
  fpart m (xfs s) P → fpart m (xfs s) R →
  (∀ a x, P a x → R a x → Q a (mkEx x (xfree s))) → epart (xf m) s Q.
Proof.
  intros Hp Hr HQ. apply epart_xf. eapply fpart_mono; [exact (fpart_and _ _ _ _ Hp Hr)|].
  intros a x [Ha Hb]. by apply HQ.
Qed.

#[export] Instance ek_xf {A} (m : @FS S M A) R : Keeps m R → Balanced m → EKeeps (xf m).
Proof.
  intros Hm Hb c L d s [Hs Hl]. eapply (epart_fs m s (λ _ x, REL c x) (λ _ x, lks L d x)); [|by apply Hb|done].
  eapply rel_call; [done|exact Hs|]. by intros.
Qed.
#[export] Instance ek_xv {A} (f : kst → res (A * kst)) : EKeeps (xv f).
Proof. intros c L d s Hs. by apply epart_xv. Qed.
#[export] Instance ek_xv_ (f : kst → res kst) : EKeeps (xv_ f).
Proof. apply ek_xv. Qed.
#[export] Instance ek_if {A} (b : bool) (m n : EXM A) : EKeeps m → EKeeps n → EKeeps (if b then m else n).
Proof. by destruct b. Qed.

(** The transaction bracket. *)
Lemma ek_begin {B} (f : unit → EXM B) c L d s (Q : B → st → Prop) :
  erel c L d s → (∀ s', erel c L (d + 1) s' → epart (f tt) s' Q) → epart (xf Fs.begin_op ≫= f) s Q.
Proof.
  intros [Hs Hl] Hf. apply epart_bind.
  apply (epart_fs Fs.begin_op s (λ _ x, REL c x) (λ _ x, lks L (d + 1) x)).
  - eapply (rel_call True True _ (λ _, True)); [unfold Fs.begin_op; apply _|exact Hs|]. by intros.
  - eapply lk_begin; [exact Hl|auto].
  - intros [] x Hx Hy. by apply Hf.
Qed.
Lemma ek_end1 c L d s (Q : unit → st → Prop) :
  erel c L (d + 1) s → (∀ s', erel c L d s' → Q tt s') → epart (xf Fs.end_op) s Q.
Proof.
  intros [Hs Hl] Hf. apply (epart_fs Fs.end_op s (λ _ x, REL c x) (λ _ x, lks L d x)).
  - eapply (rel_call True True _ (λ _, True)); [unfold Fs.end_op; apply _|exact Hs|]. by intros.
  - eapply lk_end; [exact Hl|]. intros x. by rewrite Z.add_simpl_r.
  - intros [] x Hx Hy. by apply Hf.
Qed.
Lemma ek_end {B} (f : unit → EXM B) c L d s (Q : B → st → Prop) :
  erel c L (d + 1) s → (∀ s', erel c L d s' → epart (f tt) s' Q) → epart (xf Fs.end_op ≫= f) s Q.
Proof. intros Hs Hf. apply epart_bind. by eapply ek_end1. Qed.

Ltac ek := repeat (cbv zeta beta; match goal with
  | |- EKeeps (_ ≫= _) => apply ek_bind; [|intros ?]
  | |- EKeeps (if _ then _ else _) => apply ek_if
  | |- EKeeps (match ?x with _ => _ end) => destruct x
  | |- EKeeps _ => apply _
  end).

#[export] Instance ek_loadseg_loop f pt va ip off sz i : EKeeps (loadseg_loop f pt va ip off sz i).
Proof. revert i. induction f as [|f IH]; intros i; cbn [loadseg_loop]; ek; apply IH. Qed.
#[export] Instance ek_loadseg pt va ip off sz : EKeeps (loadseg pt va ip off sz).
Proof. apply ek_loadseg_loop. Qed.
#[export] Instance ek_load_loop n pt ip off sz : EKeeps (load_loop kend pha n pt ip off sz).
Proof. revert off sz. induction n as [|n IH]; intros off sz; cbn [load_loop]; ek; apply IH. Qed.
#[export] Instance ek_push_args argv im pt base argc sp : EKeeps (push_args kend usa argv im pt base argc sp).
Proof. revert argc sp. induction argv as [|a argv IH]; intros argc sp; cbn [push_args]; ek; apply IH. Qed.
#[export] Instance ek_bad_none pt sz : EKeeps (exec_bad kend pt sz None).
Proof. unfold exec_bad. ek. Qed.
#[export] Instance ek_exec_stack path argv entry pt sz im : EKeeps (exec_stack kend usa path argv entry pt sz im).
Proof. unfold exec_stack. ek. Qed.
#[export] Instance ek_fetchaddr_to a d im : EKeeps (fetchaddr_to kend a d im).
Proof. unfold fetchaddr_to. ek. Qed.
#[export] Instance ek_fetchstr_to a d n im : EKeeps (fetchstr_to a d n im).
Proof. unfold fetchstr_to. ek. Qed.
#[export] Instance ek_fetch_args n i u im : EKeeps (fetch_args kend uarga n i u im).
Proof. revert i. induction n as [|n IH]; intros i; cbn [fetch_args]; ek; apply IH. Qed.
#[export] Instance ek_free_args l : EKeeps (free_args kend l).
Proof. induction l as [|p l IH]; cbn [free_args]; ek. Qed.

(** A call that keeps everything, then the rest. *)
Lemma ek_seq {A B} (m : EXM A) (f : A → EXM B) c L d s (Q : B → st → Prop) :
  EKeeps m → erel c L d s → (∀ a s', erel c L d s' → epart (f a) s' Q) → epart (m ≫= f) s Q.
Proof. intros Hm Hs Hf. apply epart_bind. eapply epart_mono; [by apply Hm|]. auto. Qed.

(** Locking the inode. *)
Lemma ek_ilock {B} i (f : unit → EXM B) c L d s (Q : B → st → Prop) :
  erel c L d s → (∀ s', L !! i = Some false → erel c (<[i := true]> L) d s' → epart (f tt) s' Q) →
  epart (xf (Fs.ilock (Some i)) ≫= f) s Q.
Proof.
  intros [Hs Hl] Hf. apply epart_bind.
  apply (epart_fs (Fs.ilock (Some i)) s (λ _ x, REL c x) (λ _ x, L !! i = Some false ∧ lks (<[i := true]> L) d x)).
  - eapply (rel_call True True _ (λ _, True)); [apply _|exact Hs|]. by intros.
  - eapply lk_ilock; [exact Hl|auto].
  - intros [] x Hx [Hi Hy]. by apply Hf.
Qed.

(** Releasing the inode: the reference [i] that was held goes. *)
Lemma ek_put {B} i (f : unit → EXM B) c L d s (Q : B → st → Prop) :
  L !! i = Some false → erel (cadd i c) (<[i := true]> L) d s → room c →
  (∀ s', erel c L d s' → epart (f tt) s' Q) → epart (xf (Fs.iunlockput i) ≫= f) s Q.
Proof.
  intros Hi [Hs Hl] Hc Hf. apply epart_bind.
  apply (epart_fs (Fs.iunlockput i) s (λ _ x, REL c x) (λ _ x, lks L d x)).
  - eapply rel_iunlockput; [exact Hs| |by intros]. intros _ k. specialize (Hc k). lia.
  - eapply lk_iunlockput; [exact Hl|]. intros x _. by rewrite lk_back.
  - intros [] x Hx Hy. by apply Hf.
Qed.

Lemma ek_bad_some {B} pt sz i (f : Z → EXM B) c L d s (Q : B → st → Prop) :
  L !! i = Some false → erel (cadd i c) (<[i := true]> L) (d + 1) s → room c →
  (∀ s', erel c L d s' → epart (f (-1)) s' Q) → epart (exec_bad kend pt sz (Some i) ≫= f) s Q.
Proof.
  intros Hi Hs Hc Hf. apply epart_bind. unfold exec_bad.
  eapply ek_seq; [destruct (negb _); apply _|exact Hs|]. intros _ s1 H1'.
  apply epart_bind. eapply ek_put; [exact Hi|exact H1'|done|]. intros s2 H2'.
  eapply ek_end1; [exact H2'|]. intros s3 H3'. apply epart_ret. by apply Hf.
Qed.

Lemma kexec_refs tf cwd path argv im c L d s :
  erel c L d s → room c → 0 < c cwd →
  epart (kexec kend trampoline de elfa pha usa tf cwd path argv im) s (λ _ s', erel c L d s').
Proof.
  intros Hs Hc Hw. unfold kexec. eapply ek_begin; [exact Hs|]. intros s1 [H1' L1].
  apply epart_bind.
  apply (epart_fs (Dir.namei de cwd path) s1 (λ o x, REL (handed o c) x) (λ _ x, lks L (d + 1) x));
    [|by apply bal_namei|].
  { apply (rel_namei True True de cwd path c); [exact H1'|].
    intros _. split; [intros k; specialize (Hc k); lia|done]. }
  intros [i|] x Hx Lx; simpl in Hx; cycle 1.
  { eapply (ek_end _ c L d); [by split|]. intros s2 H2'. exact H2'. }
  cbv zeta. assert (erel (cadd i c) L (d + 1) (mkEx x (xfree s1))) as H2' by by split. revert H2'.
  generalize (mkEx x (xfree s1)). intros s2 H2'. eapply ek_ilock; [exact H2'|]. intros s3 Hi H3'.
  assert (∀ pt sz s, erel (cadd i c) (<[i := true]> L) (d + 1) s →
    epart (r ← exec_bad kend pt sz (Some i); mret (r, im)) s (λ _ s', erel c L d s')) as Hbad.
  { intros pt sz s4 H4'. by eapply ek_bad_some. }
  eapply ek_seq; [apply _|exact H3'|]. intros r s4 H4'.
  destruct (negb (r =? ELFHDR)); [by apply Hbad|].
  eapply ek_seq; [apply _|exact H4'|]. intros m s5 H5'.
  destruct (negb (_ =? ELF_MAGIC)); [by apply Hbad|].
  eapply ek_seq; [apply _|exact H5'|]. intros pt s6 H6'.
  destruct (pt =? 0); [by apply Hbad|].
  eapply ek_seq; [apply _|exact H6'|]. intros [ok sz] s7 H7'.
  destruct (negb ok); [by apply Hbad|].
  eapply ek_put; [exact Hi|exact H7'|done|]. intros s8 H8'.
  eapply ek_end; [exact H8'|]. intros s9 H9'. by apply ek_exec_stack.
Qed.

(** ** Bounds *)
Lemma PGROUNDUP_bounds x : 0 <= x <= MAXVA + PGSIZE →
  x <= PGROUNDUP x < x + PGSIZE ∧ PGROUNDUP x mod PGSIZE = 0.
Proof.
  change (MAXVA + PGSIZE) with 274877911040. intros Hx. rewrite PGROUNDUP_eq by lia.
  change PGSIZE with 4096. split; mlia.
Qed.

Lemma walk_bound pt va alloc k r : walk pt va alloc k = Ok r → va < MAXVA.
Proof. unfold walk. destruct (Z.leb_spec MAXVA va); [done|]. lia. Qed.

Lemma mappages_bound pt va size pa perm k r :
  0 < size / PGSIZE → mappages pt va size pa perm k = Ok r → va < MAXVA.
Proof.
  intros Hs. unfold mappages. repeat case_match; try done.
  destruct (Z.to_nat (size / PGSIZE)) as [|n] eqn:Hn; [lia|]. cbn [mappages_loop].
  intros Hm. apply res_bind_ok in Hm as ([] & Hw & _). by eapply walk_bound.
Qed.

(** What [uvmalloc] maps lies below [MAXVA]. *)
Lemma uvmalloc_loop_bound f pt oldsz newsz xperm : ∀ a k r k', 0 <= a →
  uvmalloc_loop kend f pt oldsz a newsz xperm k = Ok (r, k') →
  r = 0 ∨ (r = newsz ∧ newsz <= Z.max a (MAXVA + PGSIZE)).
Proof.
  induction f as [|f IH]; intros a k r k' Ha; cbn [uvmalloc_loop];
    destruct (Z.ltb_spec a newsz); try done; try (intros [= <- <-]; right; lia).
  destruct (kalloc k) as [pg k1]. destruct (pg =? 0).
  - intros Hr. res_inv. by left.
  - intros Hr. apply res_bind_ok in Hr as ([r1 k2] & Hm & Hr).
    apply mappages_bound in Hm; [|done]. destruct (negb (r1 =? 0)); [res_inv; by left|].
    change MAXVA with 274877906944 in *. change PGSIZE with 4096 in *.
    rewrite u64_small in Hr by lia.
    apply IH in Hr as [?|[-> Hr]]; [by left| |lia]. right. split; [done|]. lia.
Qed.

Definition szok (sz : Z) : Prop := 0 <= sz <= MAXVA + PGSIZE.

Lemma uvmalloc_bound pt oldsz newsz xperm k r k' :
  szok oldsz → 0 <= newsz → uvmalloc kend pt oldsz newsz xperm k = Ok (r, k') →
  r = 0 ∨ (szok r ∧ r = Z.max oldsz newsz).
Proof.
  unfold szok. intros Ho Hn. unfold uvmalloc. destruct (Z.ltb_spec newsz oldsz).
  - intros [= <- <-]. right. lia.
  - pose proof (PGROUNDUP_bounds oldsz Ho) as [Hb _]. intros Hr.
    apply uvmalloc_loop_bound in Hr as [?|[-> Hr]]; [by left| |lia]. right.
    split; [|lia]. split; [lia|]. 
    assert (PGROUNDUP oldsz <= MAXVA + PGSIZE) as Hp; [|lia].
    rewrite PGROUNDUP_eq; change (MAXVA + PGSIZE) with 274877911040 in *; [mlia|lia].
Qed.

Lemma copyout_bound psz ppt pt va src len k r k' :
  0 < len → Vm.copyout kend psz ppt pt va src len k = Ok (r, k') → r < 0 ∨ PGROUNDDOWN va < MAXVA.
Proof.
  intros Hl. unfold Vm.copyout. destruct (Z.to_nat (len / PGSIZE + 2)) as [|f]; cbn [copyout_loop];
    destruct (Z.ltb_spec 0 len); try lia; [done|].
  destruct (Z.leb_spec MAXVA (PGROUNDDOWN va)); [|by right]. intros [= <- <-]. by left.
Qed.

Lemma strlen_loop_bound m a f : ∀ n r, 0 <= n → strlen_loop m a n f = Ok r → 0 <= r < n + Z.of_nat f.
Proof.
  induction f as [|f IH]; intros n r Hn; simpl; [done|]. destruct (_ =? 0); [intros [= <-]; lia|].
  intros Hr. apply IH in Hr; lia.
Qed.

Lemma load_loop_sz n : ∀ pt ip off sz s, szok sz →
  epart (load_loop kend pha n pt ip off sz) s (λ r _, szok r.2).
Proof.
  induction n as [|n IH]; intros pt ip off sz s Hsz; cbn [load_loop]; [done|].
  apply epart_bind, epart_any. intros r s1. destruct (negb _); [done|].
  apply epart_bind, epart_any. intros m s2. destruct (negb _); [by apply IH|]. cbv zeta.
  repeat (case_match; [done|]). apply epart_bind, epart_xv. intros sz1 k Hk.
  apply uvmalloc_bound in Hk; [|done|apply u64_range].
  destruct (Z.eqb_spec sz1 0); [done|]. destruct Hk as [?|[Hk _]]; [done|].
  apply epart_bind, epart_any. intros r' s3. destruct (r' <? 0); [done|]. by apply IH.
Qed.

(** The stack pointer stays aligned and in the stack page; the count is the
    index of the null pointer that ends [argv]. *)
Definition first_null (argv : list Z) (n : nat) : Prop :=
  argv !! n = Some 0 ∧ ∀ j, (j < n)%nat → argv !! j ≠ Some 0.

Lemma push_args_bound argv im pt base top : ∀ argc sp s,
  PGSIZE <= base → 0 <= argc <= MAXARG → base <= sp <= top → top < 18446744073709551616 → sp mod 16 = 0 →
  epart (push_args kend usa argv im pt base argc sp) s (λ o _, match o with
    | Some (argc', sp') => ∃ n, first_null argv n ∧ argc' = argc + Z.of_nat n ∧ argc' <= MAXARG ∧
        base <= sp' <= top ∧ sp' mod 16 = 0
    | None => True end).
Proof.
  induction argv as [|a argv IH]; intros argc sp s Hb Hc Hs Ht Hm; cbn [push_args]; [done|].
  destruct (Z.eqb_spec a 0) as [->|Ha].
  - apply epart_ret. exists 0%nat. split_and!; try done; try lia. split; [done|]. lia.
  - destruct (Z.leb_spec MAXARG argc); [done|]. apply epart_bind, epart_xmem.
    apply epart_bind, epart_lift. intros len Hl. apply strlen_loop_bound in Hl; [|done].
    change PGSIZE with 4096 in *. change (Z.of_nat (Z.to_nat 4096)) with 4096 in Hl.
    rewrite u64_small by lia. cbv zeta. destruct (Z.ltb_spec (sp - (len + 1) - (sp - (len + 1)) mod 16) base); [done|].
    apply epart_bind, epart_any. intros r s1. destruct (r <? 0); [done|].
    apply epart_bind, epart_xv. intros _ k _.
    eapply epart_mono; [apply IH; try done; mlia|].
    intros [[argc' sp']|] s2; [|done]. intros (n & [Hn Hlt] & -> & ? & ? & ?).
    exists (Datatypes.S n). split_and!; try done; try lia. split; [done|].
    intros [|j] Hj; simpl; [congruence|]. apply Hlt. lia.
Qed.

(** The image [exec] commits for a program with this entry point and [argv] of
    [n] strings. *)
Record committed (path : list Z) (im : image) (n : nat) (entry : Z) (im' : image) : Prop := {
  cm_argc : Z.of_nat n <= MAXARG;
  cm_size : im_sz im' mod PGSIZE = 0 ∧ 2 * PGSIZE <= im_sz im' <= MAXVA;
  cm_align : im_sp im' mod 16 = 0;
  cm_stack : im_sz im' - USERSTACK * PGSIZE <= im_sp im' ∧ im_sp im' + 8 * (Z.of_nat n + 1) <= im_sz im';
  cm_a1 : im_a1 im' = im_sp im';
  cm_epc : im_epc im' = entry;
  cm_name : im_name im' = name_copy (im_name im) (last_elem path path) 15
}.

(** [m] is the memory after [exec], called in [s], has read the header of the
    file that [path] names, which begins with the magic number. *)
Definition header_read (cwd : nat) (path : list Z) (s : st) (m : mem) : Prop :=
  ∃ i x1 x2 x3 x4, Fs.begin_op (xfs s) = Ok (tt, x1) ∧ Dir.namei de cwd path x1 = Ok (Some i, x2) ∧
    Fs.ilock (Some i) x2 = Ok (tt, x3) ∧ Fs.readi i 0 elfa 0 ELFHDR x3 = Ok (ELFHDR, x4) ∧
    m = fkm x4 ∧ ldn m elfa 4 = ELF_MAGIC.

Definition outcome (path argv : list Z) (im : image) (entry : Z) (r : Z * image) : Prop :=
  r = (-1, im) ∨ ∃ n, first_null argv n ∧ r.1 = Z.of_nat n ∧ committed path im n entry r.2.

Lemma epart_eq {A} (m : EXM A) s (Q : A → st → Prop) :
  (∀ a s', m s = Ok (a, s') → Q a s') → epart m s Q.
Proof. unfold epart. destruct (m s) as [[]| |]; auto. Qed.
Lemma epart_xf_eq {A} (m : @FS S M A) s (Q : A → st → Prop) :
  (∀ a x, m (xfs s) = Ok (a, x) → Q a (mkEx x (xfree s))) → epart (xf m) s Q.
Proof. unfold epart, xf. destruct (m (xfs s)) as [[]| |]; simpl; auto. Qed.

Lemma exec_bad_fst pt sz o s : epart (exec_bad kend pt sz o) s (λ r _, r = -1).
Proof. unfold exec_bad. apply epart_bind, epart_any. intros _ s1. by apply epart_bind, epart_any. Qed.

Lemma exec_bad_outcome path argv im entry pt sz o s :
  epart (r ← exec_bad kend pt sz o; mret (r, im)) s (λ r _, outcome path argv im entry r).
Proof.
  apply epart_bind. eapply epart_mono; [apply exec_bad_fst|]. intros r s' ->. by left.
Qed.

Lemma exec_stack_outcome path argv entry pt sz im s : szok sz →
  epart (exec_stack kend usa path argv entry pt sz im) s (λ r _, outcome path argv im entry r).
Proof.
  intros Hsz. unfold exec_stack. cbv zeta. pose proof (PGROUNDUP_bounds sz Hsz) as [Hup Hmod].
  assert (szok (PGROUNDUP sz)) as Hok.
  { unfold szok in *. rewrite PGROUNDUP_eq in *; change (MAXVA + PGSIZE) with 274877911040 in *; [mlia|lia..]. }
  apply epart_bind, epart_xv. intros sz1 k Hk. destruct (Z.eqb_spec sz1 0) as [|Hz]; [apply exec_bad_outcome|].
  unfold szok in *. change USERSTACK with 1 in *. change (MAXVA + PGSIZE) with 274877911040 in *.
  change PGSIZE with 4096 in *. rewrite u64_small in Hk by lia.
  apply uvmalloc_bound in Hk; [|done|lia]. destruct Hk as [?|[Hs1 ->]]; [done|]. unfold szok in Hs1.
  change (MAXVA + PGSIZE) with 274877911040 in Hs1. rewrite Z.max_r in * by lia.
  apply epart_bind, epart_any. intros _ s1.
  rewrite (u64_small (PGROUNDUP sz + (1 + 1) * 4096 - 1 * 4096)) by lia.
  apply epart_bind. eapply epart_mono; [eapply (push_args_bound _ _ _ _ (PGROUNDUP sz + (1 + 1) * 4096)); try done; try lia; try mlia|].
  { change PGSIZE with 4096; lia. }
  intros [[argc sp]|] s2; [|by intros _; apply exec_bad_outcome].
  intros (n & Hn & -> & Hc & Hsp & Ha). change MAXARG with 32 in Hc.
  apply epart_bind, epart_xv. intros _ k2 _. rewrite u64_small by lia.
  destruct (Z.ltb_spec (sp - (0 + Z.of_nat n + 1) * 8 - (sp - (0 + Z.of_nat n + 1) * 8) mod 16)
              (PGROUNDUP sz + (1 + 1) * 4096 - 1 * 4096)); [apply exec_bad_outcome|].
  apply epart_bind, epart_xv. intros r k3 Hr. destruct (Z.ltb_spec r 0); [apply exec_bad_outcome|].
  apply copyout_bound in Hr; [|lia]. destruct Hr as [?|Hr]; [lia|].
  apply epart_bind, epart_xv. intros _ k4 _. apply epart_ret. right. exists n.
  rewrite PGROUNDDOWN_eq in Hr. change MAXVA with 274877906944 in *.
  split; [done|]. split; [simpl; lia|]. split; simpl; try done; change MAXARG with 32; change USERSTACK with 1;
    change PGSIZE with 4096; change MAXVA with 274877906944; try mlia.
Qed.

Lemma kexec_outcome tf cwd path argv im s :
  epart (kexec kend trampoline de elfa pha usa tf cwd path argv im) s (λ r _, r = (-1, im) ∨
    ∃ m, header_read cwd path s m ∧ outcome path argv im (ld64 m (elfa + 24)) r).
Proof.
  unfold kexec. apply epart_bind, epart_xf_eq. intros [] x1 E1. apply epart_bind, epart_xf_eq.
  intros [i|] x2 E2; [|apply epart_bind, epart_any; intros; by left]. cbv zeta.
  assert (∀ pt sz s', epart (r ← exec_bad kend pt sz (Some i); mret (r, im)) s' (λ r _, r = (-1, im) ∨
    ∃ m, header_read cwd path s m ∧ outcome path argv im (ld64 m (elfa + 24)) r)) as Hbad.
  { intros pt sz s'. apply epart_bind. eapply epart_mono; [apply exec_bad_fst|]. intros r s'' ->. by left. }
  apply epart_bind, epart_xf_eq. intros [] x3 E3. apply epart_bind, epart_xf_eq. intros r x4 E4.
  destruct (Z.eqb_spec r ELFHDR) as [->|]; cbn [negb]; [|apply Hbad]. apply epart_bind, epart_xmem.
  cbn [xfs xfree] in *. destruct (Z.eqb_spec (ldn (fkm x4) elfa 4) ELF_MAGIC) as [Em|]; cbn [negb]; [|apply Hbad].
  assert (header_read cwd path s (fkm x4)) as Hh by (exists i, x1, x2, x3, x4; by split_and!).
  apply epart_bind, epart_any. intros pt s6.
  destruct (pt =? 0); [apply Hbad|]. apply epart_bind.
  eapply epart_mono; [apply load_loop_sz; by split|]. intros [ok sz] s7 Hsz.
  destruct (negb ok); [apply Hbad|]. apply epart_bind, epart_any. intros _ s8.
  apply epart_bind, epart_any. intros _ s9. eapply epart_mono; [by apply exec_stack_outcome|].
  intros r s10 Ho. right. eauto.
Qed.

Lemma fetch_args_bound n : ∀ i u im s, 0 <= i <= MAXARG →
  epart (fetch_args kend uarga n i u im) s (λ r _, r.1 = true →
    i + Z.of_nat (length r.2) < MAXARG ∧ Forall (λ pg, pg ≠ 0) r.2).
Proof.
  induction n as [|n IH]; intros i u im s Hi; cbn [fetch_args]; [done|].
  destruct (Z.leb_spec MAXARG i); [done|]. apply epart_bind, epart_any. intros r s1.
  destruct (r <? 0); [done|]. apply epart_bind, epart_xmem. cbv zeta.
  destruct (_ =? 0); [apply epart_ret; simpl; split; [lia|by constructor]|].
  apply epart_bind, epart_any. intros pg s2. destruct (Z.eqb_spec pg 0); [done|].
  apply epart_bind, epart_any. intros r' s3. destruct (r' <? 0); [done|].
  apply epart_bind. eapply epart_mono; [apply IH; lia|]. intros [ok pgs] s4 Hp. apply epart_ret.
  simpl in *. intros Hok. destruct (Hp Hok). split; [lia|by constructor].
Qed.

Lemma first_null_app argv n : Forall (λ pg, pg ≠ 0) argv → first_null (argv ++ [0]) n → n = length argv.
Proof.
  intros Hf [Hn Hlt]. destruct (lt_eq_lt_dec n (length argv)) as [[Hl|]|Hg]; [|done|].
  - rewrite lookup_app_l in Hn by done. eapply (Forall_lookup_1 _ _ _ _ Hf) in Hn. done.
  - destruct (Hlt (length argv)); [done|]. by rewrite lookup_app_r, Nat.sub_diag by done.
Qed.

(** C26: when [exec] returns, it either failed with -1 and left the image of the
    process (page table, size, entry point, stack pointer, arguments, name) as
    it was; or it returns the number of argument strings fetched from the array
    at [a1], at most 31, so [ustack] is never indexed past its end, and the new
    image is for the path at [a0]: the entry point of the ELF header of that
    file, a page-aligned size of at most [MAXVA], a 16-byte aligned stack
    pointer in the top page, with the array of [argc + 1] pointers between it
    and the end of the stack and [a1] pointing to it, and the last element of
    the path as its name. *)
Theorem sys_exec_outcome (s s' : st) tf cwd a0 a1 im r im' :
  sys_exec kend trampoline de elfa pha usa patha uarga tf cwd a0 a1 im s = Ok ((r, im'), s') →
  (r = -1 ∧ im' = im) ∨
  ∃ l s1 argv s2 m,
    fetchstr_to a0 patha MAXPATH im s = Ok (l, s1) ∧ 0 <= l ∧
    fetch_args kend uarga (Z.to_nat MAXARG + 1) 0 a1 im s1 = Ok ((true, argv), s2) ∧
    let path := cstr_at (fkm (xfs s2)) patha (Z.to_nat MAXPATH) in
    header_read cwd path s2 m ∧
    r = zlen argv ∧ r < MAXARG ∧ committed path im (length argv) (ld64 m (elfa + 24)) im'.
Proof.
  apply (epart_ok _ s (λ r _, (r.1 = -1 ∧ r.2 = im) ∨ ∃ l s1 argv s2 m, _ = _ ∧ 0 <= l ∧ _ = _ ∧
    let path := cstr_at (fkm (xfs s2)) patha (Z.to_nat MAXPATH) in header_read cwd path s2 m ∧
    r.1 = zlen argv ∧ r.1 < MAXARG ∧ committed path im (length argv) (ld64 m (elfa + 24)) r.2)).
  unfold sys_exec. cbv zeta.
  apply epart_bind, epart_eq. intros l s1 E1. destruct (Z.ltb_spec l 0); [by left|].
  apply epart_bind, epart_eq. intros [ok argv] s2 E2. destruct ok; cbn [negb]; [|apply epart_bind, epart_any; by left].
  assert (Z.of_nat (length argv) < MAXARG ∧ Forall (λ pg, pg ≠ 0) argv) as [Hlen Hf].
  { assert (0 <= 0 <= MAXARG) as H0' by (change MAXARG with 32; lia).
    by destruct (epart_ok _ _ _ _ _ (fetch_args_bound _ 0 a1 im s1 H0') E2 eq_refl). }
  apply epart_bind, epart_xmem. apply epart_bind.
  eapply epart_mono; [apply kexec_outcome|]. intros [r1 im1] s3 Ho. apply epart_bind, epart_any.
  intros _ s4. destruct Ho as [[= -> ->]|(m & Hh & Ho)]; [by left|].
  destruct Ho as [[= -> ->]|(n & Hn & Hr & Hc)]; [by left|]. right. simpl in Hr, Hc.
  apply first_null_app in Hn as ->; [|done]. exists l, s1, argv, s2, m. subst r1. by split_and!.
Qed.

(** C28: [exec] gives back what it takes of the file system: whether it
    succeeds or fails at any step (no such file, a bad ELF header or segment, no
    memory, arguments that do not fit), when it returns the inode table counts
    the same references as before, the sleep lock of every inode is held or free
    as before, and as many transactions are open as before. *)
Theorem sys_exec_refs (s s' : st) tf cwd a0 a1 im r c L d :
  fs_ok (xfs s) → krefs c (ikeys (xfs s)) → lks L d (xfs s) → room c → 0 < c cwd →
  sys_exec kend trampoline de elfa pha usa patha uarga tf cwd a0 a1 im s = Ok (r, s') →
  fs_ok (xfs s') ∧ krefs c (ikeys (xfs s')) ∧ lks L d (xfs s').
Proof.
  intros Hok Hk Hl Hc Hw He. cut (erel c L d s'); [intros [[Hf Hg] Hl']; auto|]. revert He.
  apply (epart_ok _ s (λ _ s', erel c L d s')). assert (erel c L d s) as Hs by done. unfold sys_exec.
  eapply ek_seq; [apply _|exact Hs|]. intros l s1 H1'. destruct (l <? 0); [done|].
  eapply ek_seq; [apply _|exact H1'|]. intros [ok argv] s2 H2'.
  destruct (negb ok); [by apply (ek_bind _ _ (ek_free_args _) (λ _, ek_ret _))|].
  apply epart_bind, epart_xmem. apply epart_bind.
  eapply epart_mono; [by apply kexec_refs|]. intros [r1 im1] s3 H3'.
  by apply (ek_bind _ _ (ek_free_args _) (λ _, ek_ret _)).
Qed.
End execspec.
