(* ===== verification/ExecExample.v ===== *)
(** * exec on a small system

    The file system of [FsExample] with an executable at "/a": an ELF header and
    one segment of eight bytes.  A process with one page of memory calls
    [exec("/a", {"/a"})]. *)
From S2P Require Import Prelude Riscv Mem CString Kalloc Vm Bio Log Buf Proc UserMem Pipe Uart Printf Console Fs FsLaws Dinode Dir Itable IRefs FsExample File FileInv Sysfile SysSpec SysFiles SysCalls Balance SysExample ProcLife Exec ExecSpec.
Import FlatDisk Flat.

(** Little-endian fields of the two headers. *)
Fixpoint le (n : nat) (x : Z) : list Z :=
  match n with O => [] | S n' => x mod 256 :: le n' (x / 256) end.
Definition elf_header (entry : Z) : list Z :=
  le 4 ELF_MAGIC ++ replicate 20 0 ++ le 8 entry ++ le 8 64 ++ replicate 16 0 ++ le 2 1 ++ replicate 6 0.
Definition prog_header : list Z :=
  le 4 ELF_PROG_LOAD ++ le 4 5 ++ le 8 120 ++ le 8 0 ++ le 8 0 ++ le 8 8 ++ le 8 8 ++ le 8 0.
Definition prog : list Z := elf_header 4 ++ prog_header ++ [1; 2; 3; 4; 5; 6; 7; 8].
Definition filex : inode := mkInode 1 2 0 false false 2 0 0 1 128 (6 :: replicate 12 0).
Definition diskx : fdisk := mkFD
  {[ 3 := put_dinode (put_dinode zero_block 64 root) 128 filex;
     4 := splice zero_block 0 [127];
     5 := splice zero_block 0 (entry 1 [46] ++ entry 1 [46; 46] ++ entry 2 [97]);
     6 := splice zero_block 0 prog ]} ∅.

(** Sixteen free pages; a process with one page, holding the path at 16 and the
    array of arguments at 64. *)
Definition kendx : Z := PHYSTOP - 16 * PGSIZE.
Definition tfx : Z := 2147000320.
Definition trampx : Z := 2147483648.
Fixpoint store_bytes (m : mem) (a : Z) (bs : list Z) : mem :=
  match bs with [] => m | b :: bs' => store_bytes (st8 m a b) (a + 1) bs' end.

Definition boot : res (Z * kst) :=
  k ← freerange kendx kendx PHYSTOP (mkK ∅ 0) 32;
  '(pt, k) ← proc_pagetable kendx trampx tfx k;
  '(sz, k) ← uvmalloc kendx pt 0 PGSIZE PTE_W k;
  '(pa, k) ← walkaddr pt 0 k;
  Ok (pt, mkK (store_bytes (store_bytes (km k) (pa + 16) [47; 97; 0]) (pa + 64) (le 8 16 ++ le 8 0)) (freelist k)).
Definition value {A} (m : res A) (d : A) : A := match m with Ok a => a | _ => d end.
Definition bootk : kst := snd (value boot (0, mkK ∅ 0)).
Definition bootpt : Z := fst (value boot (0, mkK ∅ 0)).

Definition namex0 : list Z := replicate 16 0.
Definition imx : image := mkImg bootpt PGSIZE 0 0 0 namex0.
Definition ex0 : exst (counted fdisk) flat :=
  mkEx (mkFss x0 [rootu; empty0; empty0] (diskx, 0) (km bootk) umem0 []) (freelist bootk).

Definition run_exec (a0 a1 : Z) : res ((Z * image) * exst (counted fdisk) flat) :=
  sys_exec kendx trampx 9000 10000 11000 12000 13000 14000 tfx 0 a0 a1 imx ex0.

Definition done_exec (a0 a1 : Z) : exst (counted fdisk) flat := snd (value (run_exec a0 a1) ((0, imx), ex0)).
Definition ret_exec (a0 a1 : Z) : option (Z * image) := value (r ← run_exec a0 a1; Ok (Some (fst r))) None.

Lemma run_exec_ok a0 a1 r : ret_exec a0 a1 = Some r → 
  sys_exec kendx trampx 9000 10000 11000 12000 13000 14000 tfx 0 a0 a1 imx ex0 = Ok (r, done_exec a0 a1).
Proof.
  unfold ret_exec, done_exec. change (sys_exec kendx trampx 9000 10000 11000 12000 13000 14000 tfx 0 a0 a1 imx ex0) with (run_exec a0 a1).
  destruct (run_exec a0 a1) as [[]| |]; simpl; congruence.
Qed.

(** The image of the new program: one page of text, the guard page and the
    stack. *)
Definition imy : image := mkImg 2281668608 (3 * PGSIZE) 4 12256 12256 (97 :: replicate 15 0).

Lemma exec_runs : ret_exec 16 64 = Some (1, imy).
Proof. by vm_compute. Qed.

(** The empty path, at 40, names the current directory, which is no ELF file. *)
Lemma exec_fails : ret_exec 40 64 = Some (-1, imx).
Proof. by vm_compute. Qed.

Lemma sys_exec_outcome_witness :
  run_exec 16 64 = Ok ((1, imy), done_exec 16 64) ∧
  run_exec 40 64 = Ok ((-1, imx), done_exec 40 64) ∧
  ∃ path m, committed path imx 1 (ld64 m (10000 + 24)) imy.
Proof.
  split; [exact (run_exec_ok _ _ _ exec_runs)|]. split; [exact (run_exec_ok _ _ _ exec_fails)|].
  pose proof (sys_exec_outcome kendx trampx 9000 10000 11000 12000 13000 14000 ex0 (done_exec 16 64) tfx 0
    16 64 imx 1 imy (run_exec_ok _ _ _ exec_runs))
    as [[He _]|(l & s1 & argv & s2 & m & _ & _ & _ & _ & Hn & _ & Hc)]; [discriminate He|].
  assert (length argv = 1%nat) as Hl by (unfold zlen in Hn; lia). rewrite Hl in Hc. eexists _, m. exact Hc.
Defined.

(** The references before the call: the current directory. *)
Definition root_once : nat → Z := λ i, if decide (i = 0%nat) then 1 else 0.

Lemma ex0_inv : fs_ok (xfs ex0) ∧ krefs root_once (ikeys (xfs ex0)).
Proof.
  split.
  - split; [done|]. simpl. destruct rootv_ok as [Hr _].
    assert (inode_ok empty0) as He.
    { unfold inode_ok, short_ok. simpl. split_and!; try lia; try done. by repeat constructor. }
    by repeat constructor.
  - split.
    + intros [|[|[|i]]] k Hk; simpl in Hk; simplify_eq; by vm_compute.
    + intros [|[|[|i]]] [|[|[|j]]] a b Ha Hb'; simpl in *; simplify_eq; simpl; done || lia.
Qed.

(** On both paths the locks are free and no transaction is open. *)
Lemma sys_exec_refs_witness :
  run_exec 16 64 = Ok ((1, imy), done_exec 16 64) ∧ lks [false; false; false] 0 (xfs ex0) ∧
  fs_ok (xfs (done_exec 16 64)) ∧ krefs root_once (ikeys (xfs (done_exec 16 64))) ∧
  lks [false; false; false] 0 (xfs (done_exec 16 64)).
Proof.
  split; [exact (run_exec_ok _ _ _ exec_runs)|].
  assert (room root_once) as Hr by (intros i; unfold root_once; case_decide; lia).
  assert (0 < root_once 0) as H0 by (vm_compute; done).
  assert (lks [false; false; false] 0 (xfs ex0)) as Hl by (split; by vm_compute).
  split; [exact Hl|].
  exact (sys_exec_refs kendx trampx 9000 10000 11000 12000 13000 14000 ex0 (done_exec 16 64) tfx 0 16 64 imx _
    root_once _ _ (proj1 ex0_inv) (proj2 ex0_inv) Hl Hr H0 (run_exec_ok _ _ _ exec_runs)).
Defined.
