(* ===== verification/Sysproc.v ===== *)
(** * sysproc.c: the system calls on processes

    Over the process life cycle of [ProcLife] and [ticks].  Arguments come from
    the a0 to a5 words of the caller's trap frame; results are the 64-bit value
    that [syscall] stores there.  A call that may sleep is a step function:
    [sys_wait] runs [kwait], and [sys_pause] has the program counter [ppc]. *)
From S2P Require Import Prelude Riscv Mem CString Kalloc Vm VmInv VmMap Uvm Proc UserMem Pipe File FileSpec ProcLife ProcWait Uart Printf Csr Asm AsmSpec Trap ExecSpec.

Definition SBRK_LAZY : Z := 2.

(** Where [sys_pause] is: before the loop, at its test, asleep in [sleep];
    [n] and [ticks0] are its locals. *)
Inductive ppc := PStart | PLoop (n ticks0 : Z) | PAsleep (n ticks0 : Z) | PRet (r : Z).

Section sysproc.
Context {I : Type} `{InodeOps I}.
Context (V kend trampoline forkret : Z) (xaddr : nat → Z).

Record sps := mkSP { spl : pls I; sticks : Z }.
Definition set_spl (l : pls I) (s : sps) : sps := mkSP l (sticks s).

(** Argument [n] of the system call of process [me]. *)
Definition arg_word (me n : nat) (s : sps) : res Z :=
  p ← pget me (spl s);
  if (n <? 6)%nat then Ok (load (trapframe p + TF_A (Z.of_nat n)) (pheap (spl s))) else Panic "argraw".
Definition arg_int (me n : nat) (s : sps) : res Z := v ← arg_word me n s; Ok (i32 v).

Definition sys_getpid (me : nat) (s : sps) : res (Z * sps) := p ← pget me (spl s); Ok (u64 (pid p), s).

Definition sys_fork (me : nat) (s : sps) : res (Z * sps) :=
  '(r, l) ← kfork kend trampoline forkret me (spl s); Ok (u64 r, set_spl l s).

(** It does not return. *)
Definition sys_exit (me : nat) (s : sps) : res sps :=
  n ← arg_int me 0 s; l ← kexit V kend me n (spl s); Ok (set_spl l s).

Definition sys_wait (me : nat) (pc : kwpc) (s : sps) : res (kwpc * sps) :=
  addr ← arg_word me 0 s; '(pc, l) ← kwait kend xaddr me addr pc (spl s); Ok (pc, set_spl l s).

Definition sys_kill (me : nat) (s : sps) : res (Z * sps) :=
  pid ← arg_int me 0 s;
  let '(r, ps) := kkill pid (ptable (spl s)) in
  Ok (u64 r, set_spl (set_ptable ps (spl s)) s).

Definition sys_uptime (s : sps) : Z * sps := (u32 (sticks s), s).


Definition sys_pause (me : nat) (pc : ppc) (s : sps) : res (ppc * sps) :=
  match pc with
  | PStart =>
      n ← arg_int me 0 s;
      let n := if n <? 0 then 0 else n in
      Ok (PLoop n (sticks s), s)
  | PLoop n ticks0 =>
      if u32 (sticks s - ticks0) <? u32 n then
        if negb (killed me (ptable (spl s)) =? 0) then Ok (PRet (u64 (-1)), s)
        else Ok (PAsleep n ticks0, set_spl (set_ptable (sleep_begin me ChTicks (ptable (spl s))) (spl s)) s)
      else Ok (PRet 0, s)
  | PAsleep n ticks0 => Ok (PLoop n ticks0, set_spl (set_ptable (sleep_end me (ptable (spl s))) (spl s)) s)
  | PRet r => Ok (PRet r, s)
  end.
End sysproc.
Arguments sps I : clear implicits.

Section sysproc_spec.
Context {I : Type} `{InodeOps I}.
Context (V kend : Z).
Implicit Types s : sps I.

Lemma pget_ok i (l : pls I) p : pget i l = Ok p ↔ ptable l !! i = Some p.
Proof. unfold pget. destruct (ptable l !! i); naive_solver. Qed.

Lemma ptable_set t (l : pls I) : ptable (set_ptable t l) = t.
Proof. done. Qed.
Lemma upd_self i g (l : pls I) p : ptable l !! i = Some p → ptable (upd i g l) !! i = Some (g p).
Proof. intros Hp. by rewrite upd_lookup, decide_True, Hp by done. Qed.



Lemma arg_int_range me k s n : arg_int me k s = Ok n → -2147483648 <= n < 2147483648.
Proof. unfold arg_int. intros Ha. apply res_bind_ok in Ha as (v & _ & [= <-]). unfold i32, u32. zcase; mlia. Qed.


(** *** pause *)

(** A clock interrupt on hart 0, then the process, if it was woken: the
    scheduler makes it RUNNING and it goes on to its next sleep or its return. *)
Definition clock_tick (s : sps I) : sps I :=
  mkSP (set_ptable (wakeup V None ChTicks (ptable (spl s))) (spl s)) (u32 (sticks s + 1)).
Definition pause_round (me : nat) (x : ppc * sps I) : res (ppc * sps I) :=
  let s := clock_tick x.2 in
  p ← pget me (spl s);
  if bool_decide (state p = RUNNABLE) then
    '(pc, s) ← sys_pause me x.1 (set_spl (upd me (set_state RUNNING) (spl s)) s);
    sys_pause me pc s
  else Ok (x.1, s).
Fixpoint pause_rounds (k : nat) (me : nat) (x : ppc * sps I) : res (ppc * sps I) :=
  match k with O => Ok x | S k' => x ← pause_round me x; pause_rounds k' me x end.

(** Asleep on [ticks]. *)
Definition paused (me : nat) (n t0 k : Z) (x : ppc * sps I) : Prop :=
  x.1 = PAsleep n t0 ∧ sticks x.2 = u32 (t0 + k) ∧
  ∃ p, ptable (spl x.2) !! me = Some p ∧ sleeping_on ChTicks p ∧ killed_flag p = 0.

Lemma pause_wake me n t0 s : sys_pause me (PAsleep n t0) s =
  Ok (PLoop n t0, set_spl (set_ptable (sleep_end me (ptable (spl s))) (spl s)) s).
Proof. done. Qed.
Lemma pause_loop me n t0 s : sys_pause me (PLoop n t0) s =
  if u32 (sticks s - t0) <? u32 n then
    if negb (killed me (ptable (spl s)) =? 0) then Ok (PRet (u64 (-1)), s)
    else Ok (PAsleep n t0, set_spl (set_ptable (sleep_begin me ChTicks (ptable (spl s))) (spl s)) s)
  else Ok (PRet 0, s).
Proof. done. Qed.

Lemma pause_round_step me n t0 k x :
  0 <= k < n → n < 2147483648 → 0 <= t0 → paused me n t0 k x →
  ∃ x', pause_round me x = Ok x' ∧ (if k + 1 <? n then paused me n t0 (k + 1) x' else x'.1 = PRet 0).
Proof.
  destruct x as [pc s]. intros Hk Hn Ht (Hpc & Htk & p & Hp & Hsl & Hkf). simpl in *. subst pc.
  unfold pause_round. cbn [fst snd]. set (s1 := clock_tick s). cbv zeta.
  assert (ptable (spl s1) !! me = Some (wakeup1 V ChTicks p)) as Hp1.
  { unfold s1, clock_tick, ptable. simpl. rewrite wakeup_lookup, decide_False by done.
    unfold ptable in Hp. by rewrite Hp. }
  rewrite (proj2 (pget_ok me (spl s1) _) Hp1). cbn [mbind res_bind].
  assert (state (wakeup1 V ChTicks p) = RUNNABLE) as Hr.
  { rewrite wakeup1_woken by done. by zcase. }
  rewrite bool_decide_eq_true_2 by done. rewrite pause_wake. cbn [mbind res_bind]. rewrite pause_loop.
  set (q := set_chan ChNull (set_state RUNNING (wakeup1 V ChTicks p))).
  set (s2 := set_spl _ _).
  assert (ptable (spl s2) !! me = Some q) as Hq.
  { unfold s2, set_spl. cbn [spl]. rewrite ptable_set, sleep_end_lookup, decide_True by done.
    rewrite (upd_self _ _ _ _ Hp1). done. }
  assert (killed me (ptable (spl s2)) = 0) as Hkl.
  { unfold killed. rewrite Hq. unfold q. simpl. by rewrite wakeup1_killed. }
  assert (sticks s2 = u32 (u32 (t0 + k) + 1)) as -> by (by rewrite <-Htk).
  assert (u32 (u32 (u32 (t0 + k) + 1) - t0) = k + 1) as Hd.
  { rewrite u32_add_l, u32_sub_l. replace (t0 + k + 1 - t0) with (k + 1) by lia. apply u32_small. lia. }
  rewrite Hd, (u32_small n) by lia. destruct (Z.ltb_spec (k + 1) n); [|by eexists].
  rewrite Hkl. cbn [negb Z.eqb]. eexists. split; [done|]. split; [done|]. cbn [fst snd spl sticks set_spl].
  split.
  - change (sticks s2) with (u32 (sticks s + 1)). rewrite Htk, u32_add_l. f_equal. lia.
  - eexists. split; [by rewrite ptable_set, sleep_begin_lookup, decide_True, Hq by done|]. split; [done|]. unfold q. simpl. by rewrite wakeup1_killed.
Qed.

(** C38: [pause(n)] of a process that is not killed ends. It goes to sleep
    unless [n] is not positive, is asleep after each of the first [n - 1] clock
    ticks, and returns 0 after the [n]-th, also when the 32-bit tick counter
    wraps meanwhile. *)
Theorem sys_pause_exact me s p v :
  ptable (spl s) !! me = Some p → state p = RUNNING → killed_flag p = 0 → 0 <= sticks s < 4294967296 →
  arg_int me 0 s = Ok v →
  ∃ x, (y ← sys_pause me PStart s; sys_pause me y.1 y.2) = Ok x ∧
    if 0 <? v then
      (∀ k, (k < Z.to_nat v)%nat → ∃ x', pause_rounds k me x = Ok x' ∧ paused me v (sticks s) (Z.of_nat k) x') ∧
      ∃ s', pause_rounds (Z.to_nat v) me x = Ok (PRet 0, s')
    else x.1 = PRet 0.
Proof.
  intros Hp Hst Hkf Htk Hv. pose proof (arg_int_range _ _ _ _ Hv) as Hr. simpl. rewrite Hv. simpl.
  rewrite Z.sub_diag. change (u32 0) with 0.
  assert (killed me (ptable (spl s)) = 0) as Hk0 by (unfold killed; by rewrite Hp).
  destruct (Z.ltb_spec v 0); [rewrite (proj2 (Z.ltb_ge 0 v)) by lia; by eexists|].
  rewrite (u32_small v) by lia. destruct (Z.ltb_spec 0 v); [|by eexists]. rewrite Hk0. simpl.
  eexists. split; [done|]. set (x := (_, _)).
  assert (paused me v (sticks s) 0 x) as Hx00.
  { split; [done|]. simpl. rewrite Z.add_0_r, u32_small by lia. split; [done|].
    eexists. split; [by rewrite ptable_set, sleep_begin_lookup, decide_True, Hp by done|].
    done. }
  assert (∀ k j x0, paused me v (sticks s) (Z.of_nat j) x0 → (j + k < Z.to_nat v)%nat →
    ∃ x', pause_rounds k me x0 = Ok x' ∧ paused me v (sticks s) (Z.of_nat (j + k)) x') as Hrun.
  { induction k as [|k IH]; intros j x0 Hx0 Hj; simpl.
    - exists x0. by rewrite Nat.add_0_r.
    - destruct (pause_round_step me v (sticks s) (Z.of_nat j) x0 ltac:(lia) ltac:(lia) ltac:(lia) Hx0) as (x1 & -> & Hx1).
      rewrite (proj2 (Z.ltb_lt _ _)) in Hx1 by lia. simpl.
      replace (j + S k)%nat with (S j + k)%nat by lia. apply IH; [|lia]. replace (Z.of_nat (S j)) with (Z.of_nat j + 1) by lia. done. }
  split; [intros k Hk; by apply (Hrun k 0%nat)|].
  assert (∀ k x0, pause_rounds (S k) me x0 = (x ← pause_rounds k me x0; pause_round me x)) as Hsnoc.
  { induction k as [|k IH]; intros x0; [simpl; by destruct (pause_round me x0)|].
    change (pause_rounds (S (S k)) me x0) with (x ← pause_round me x0; pause_rounds (S k) me x).
    change (pause_rounds (S k) me x0) with (x ← pause_round me x0; pause_rounds k me x).
    destruct (pause_round me x0); simpl; [apply IH|done|done]. }
  destruct (Z.to_nat v) as [|k] eqn:Hvk; [lia|]. rewrite Hsnoc.
  destruct (Hrun k 0%nat x Hx00 ltac:(lia)) as (x1 & -> & Hx1). simpl in *.
  destruct (pause_round_step me v (sticks s) (Z.of_nat k) x1 ltac:(lia) ltac:(lia) ltac:(lia) Hx1) as ([pc s'] & -> & Hx2).
  rewrite (proj2 (Z.ltb_ge _ _)) in Hx2 by lia. simpl in Hx2. subst. by eexists.
Qed.
End sysproc_spec.

(** *** Witnesses *)
Import NoInodes.

(** A process of two lazily allocated pages with an empty page table, whose
    arguments are [a] and [b], and two free pages. *)
Definition procs0 : proc :=
  mkProc RUNNING ChNull 0 0 3 None (KSTACK 0) 8192 (B - 4096) 65536 [] (replicate NOFILE None) None (replicate 16 0) 0.
Definition heap0 (a b : Z) : kst :=
  mkK (st64 (st64 (km two_free) (65536 + 112) a) (65536 + 120) b) (freelist two_free).
Definition sp0 (a b t : Z) : sps unit := mkSP (mkPL (mkF [] ∅ (heap0 a b) [procs0] [] tt) 2 0) t.




(** [pause(3)] started two ticks before the counter wraps. *)
Lemma sys_pause_exact_witness :
  ∃ x s', (y ← sys_pause 0 PStart (sp0 3 0 4294967294); sys_pause 0 y.1 y.2) = Ok x ∧
    pause_rounds 7 3 0 x = Ok (PRet 0, s').
Proof.
  assert (ptable (spl (sp0 3 0 4294967294)) !! 0%nat = Some procs0) as Hp by done.
  assert (0 <= sticks (sp0 3 0 4294967294) < 4294967296) as Ht by (simpl; lia).
  destruct (sys_pause_exact 7 0 (sp0 3 0 4294967294) procs0 3 Hp eq_refl eq_refl Ht eq_refl) as (x & Hx & Hr).
  destruct Hr as [_ [s' Hs']]. exists x, s'. split; [exact Hx|exact Hs'].
Defined.
