(* ===== verification/Mkfs.v ===== *)
(** * mkfs: the builder of the file system image

    [mkfs/mkfs.c], a program of the build host: the image file as its list of
    sectors, the counters [freeinode] and [freeblock], and one function per
    function of the program.  The host is little endian and its file operations
    are those of POSIX on an image file without errors; [die] and a failed
    [assert] end the program and are panics here.  What it prints is left out. *)
From S2P Require Import Prelude Riscv Bio Log Buf Proc UserMem Mem Uart Printf Console Fs.

Definition FSSIZE : Z := 2000.
Definition NINODES : Z := 200.

Definition nbitmap : Z := FSSIZE / BPB + 1.
Definition ninodeblocks : Z := NINODES / IPB + 1.
Definition nlog : Z := LOGBLOCKS + 1.

(** The bytes of [y] in memory are [a]; the host reads them back as an integer. *)
Definition xshort (x : Z) : Z := getu16 [u8 x; u8 (Z.shiftr x 8)] 0.
Definition xint (x : Z) : Z := getu32 [u8 x; u8 (Z.shiftr x 8); u8 (Z.shiftr x 16); u8 (Z.shiftr x 24)] 0.

Record mkst := mkMk {
  m_img : list block;       (* the image file *)
  m_sb : superblock;
  m_fi : Z;                 (* freeinode *)
  m_fb : Z                  (* freeblock *)
}.
Definition set_m_img (i : list block) (s : mkst) : mkst := mkMk i (m_sb s) (m_fi s) (m_fb s).
Definition set_m_fi (n : Z) (s : mkst) : mkst := mkMk (m_img s) (m_sb s) n (m_fb s).
Definition set_m_fb (n : Z) (s : mkst) : mkst := mkMk (m_img s) (m_sb s) (m_fi s) n.

Definition MK (A : Type) : Type := mkst → res (A * mkst).
#[export] Instance mk_ret : MRet MK := λ A a s, Ok (a, s).
#[export] Instance mk_bind : MBind MK := λ A B f m s, '(a, s) ← m s; f a s.
Definition mget {A} (g : mkst → A) : MK A := λ s, Ok (g s, s).
Definition mmod (g : mkst → mkst) : MK unit := λ s, Ok (tt, g s).
Definition die {A} (msg : string) : MK A := λ _, Panic msg.
Definition massert (b : bool) : MK unit := λ s, if b then Ok (tt, s) else Panic "assert".

(** A write at block [k] of a file; beyond its end the gap reads as zeros. *)
Definition put_sector (k : nat) (d : block) (f : list block) : list block :=
  if decide (k < length f)%nat then <[k := d]> f
  else f ++ replicate (k - length f) zero_block ++ [d].

Definition sector (sec : Z) : nat := Z.to_nat (u32 (sec * BSIZE) / BSIZE).

Definition wsect (sec : Z) (buf : block) : MK unit :=
  mmod (λ s, set_m_img (put_sector (sector sec) buf (m_img s)) s).

Definition rsect (sec : Z) : MK block := λ s,
  match m_img s !! sector sec with Some d => Ok (d, s) | None => Panic "read" end.

(** A [struct dinode] is kept as an [inode] that carries its number. *)
Definition blank (inum : Z) : inode := mkInode 0 inum 0 false false 0 0 0 0 0 (replicate 13 0).

Definition winode (inum : Z) (ip : inode) : MK unit :=
  x ← mget m_sb;
  buf ← rsect (IBLOCK inum x);
  wsect (IBLOCK inum x) (put_dinode buf (inum mod IPB * DINODE) ip).

Definition rinode (inum : Z) : MK inode :=
  x ← mget m_sb;
  buf ← rsect (IBLOCK inum x);
  mret (get_dinode buf (inum mod IPB * DINODE) (blank inum)).

Definition ialloc (type : Z) : MK Z :=
  inum ← mget m_fi;
  _ ← mmod (set_m_fi (u32 (inum + 1)));
  _ ← winode inum (set_i_size (xint 0) (set_i_nlink (i16 (xshort 1)) (set_i_type (i16 (xshort type)) (blank inum))));
  mret inum.

(** The bits 0 to [used] - 1 of a zero block set, the first one last. *)
Fixpoint mark_used (used : nat) : block :=
  match used with
  | O => zero_block
  | Datatypes.S n => let buf := mark_used n in
      splice buf (Z.of_nat n / 8) [u8 (Z.lor (aget buf (Z.of_nat n / 8)) (Z.shiftl 1 (Z.of_nat n mod 8)))]
  end.

Definition balloc (used : Z) : MK unit :=
  _ ← massert (used <? BPB);
  x ← mget m_sb;
  wsect (sb_bmapstart x) (mark_used (Z.to_nat used)).

(** [xint(freeblock++)] *)
Definition new_block : MK Z :=
  b ← mget m_fb;
  _ ← mmod (set_m_fb (u32 (b + 1)));
  mret (xint b).

(** [din.addrs[k]] is allocated if it is 0. *)
Definition need_addr (din : inode) (k : Z) : MK inode :=
  if xint (aget (i_addrs din) k) =? 0
  then b ← new_block; mret (set_i_addrs (<[Z.to_nat k := b]> (i_addrs din)) din)
  else mret din.

(** The block [fbn] of the file, allocated if it is missing. *)
Definition file_block (din : inode) (fbn : Z) : MK (inode * Z) :=
  if fbn <? NDIRECT then
    din ← need_addr din fbn;
    mret (din, xint (aget (i_addrs din) fbn))
  else
    din ← need_addr din NDIRECT;
    let x := xint (aget (i_addrs din) NDIRECT) in
    indirect ← rsect x;
    let k := 4 * (fbn - NDIRECT) in
    indirect ← (if getu32 indirect k =? 0 then
        b ← new_block;
        let indirect := put32 indirect k b in
        _ ← wsect x indirect; mret indirect
      else mret indirect);
    mret (din, xint (getu32 indirect k)).

Fixpoint iappend_loop (fuel : nat) (p : list Z) (din : inode) (off n : Z) : MK (inode * Z) :=
  if 0 <? n then
    match fuel with
    | O => λ _, NoFuel
    | Datatypes.S f =>
        let fbn := off / BSIZE in
        _ ← massert (fbn <? MAXFILE);
        '(din, x) ← file_block din fbn;
        let n1 := Z.min n (u32 ((fbn + 1) * BSIZE - off)) in
        buf ← rsect x;
        _ ← wsect x (splice buf (u32 (off - fbn * BSIZE)) (take (Z.to_nat n1) p));
        iappend_loop f (drop (Z.to_nat n1) p) din (u32 (off + n1)) (n - n1)
    end
  else mret (din, off).

Definition iappend (inum : Z) (p : list Z) : MK unit :=
  din ← rinode inum;
  '(din, off) ← iappend_loop (length p) p din (xint (i_size din)) (zlen p);
  winode inum (set_i_size (xint off) din).

(** A [struct dirent] with the bytes of [name] cut or padded to [DIRSIZ]. *)
Definition mkdirent (inum : Z) (name : list Z) : list Z :=
  le16 (xshort inum) ++ take DIRSIZ (name ++ replicate DIRSIZ 0).

(** [for(i = 0; i < FSSIZE; i++) wsect(i, zeroes)] *)
Fixpoint zero_image (n : nat) : MK unit :=
  match n with
  | O => mret tt
  | Datatypes.S n' => _ ← zero_image n'; wsect (Z.of_nat n') zero_block
  end.

Definition put_sb (x : superblock) (d : block) : block :=
  splice d 0 (flat_map le32 [sb_magic x; sb_size x; sb_nblocks x; sb_ninodes x;
                             sb_nlog x; sb_logstart x; sb_inodestart x; sb_bmapstart x]).

(** What the host answers: whether the image opens, and for a path the results
    of the successive [read]s if it opens. *)
Record host := mkHost { h_img : bool; h_open : list Z → option (list (list Z)) }.

(** [while((cc = read(fd, buf, sizeof(buf))) > 0) iappend(inum, buf, cc)] *)
Fixpoint copy_file (inum : Z) (reads : list (list Z)) : MK unit :=
  match reads with
  | [] => mret tt
  | buf :: reads' => if 0 <? zlen buf then _ ← iappend inum buf; copy_file inum reads' else mret tt
  end.

(** The name in the image: no directory "user/", no leading '_'. *)
Definition no_user (arg : list Z) : list Z :=
  if decide (take 5 arg = [117; 115; 101; 114; 47]) then drop 5 arg else arg.
Definition no_underscore (name : list Z) : list Z :=
  match name with c :: name' => if c =? 95 then name' else name | [] => [] end.

Definition add_file (h : host) (rootino : Z) (arg : list Z) : MK unit :=
  let shortname := no_user arg in
  _ ← massert (bool_decide (47 ∉ shortname));
  match h_open h arg with
  | None => die "open"
  | Some reads =>
      let shortname := no_underscore shortname in
      _ ← massert (zlen shortname <=? Z.of_nat DIRSIZ);
      inum ← ialloc T_FILE;
      _ ← iappend rootino (mkdirent inum shortname);
      copy_file inum reads
  end.

Fixpoint add_files (h : host) (rootino : Z) (args : list (list Z)) : MK unit :=
  match args with
  | [] => mret tt
  | arg :: args' => _ ← add_file h rootino arg; add_files h rootino args'
  end.

Definition nmeta : Z := 2 + nlog + ninodeblocks + nbitmap.

Definition mk_sb : superblock :=
  mkSB FSMAGIC (xint FSSIZE) (xint (FSSIZE - nmeta)) (xint NINODES) (xint nlog) (xint 2)
    (xint (2 + nlog)) (xint (2 + nlog + ninodeblocks)).

(** [argv[1]] is the image, the rest are the files. *)
Definition main (h : host) (argv : list (list Z)) : MK unit :=
  match argv with
  | [] | [_] => die "Usage: mkfs fs.img files..."
  | _ :: _ :: args =>
      if negb (h_img h) then die "open" else
      _ ← mmod (λ s, mkMk [] mk_sb (m_fi s) nmeta);
      _ ← zero_image (Z.to_nat FSSIZE);
      x ← mget m_sb;
      _ ← wsect 1 (put_sb x zero_block);
      rootino ← ialloc T_DIR;
      _ ← massert (rootino =? ROOTINO);
      _ ← iappend rootino (mkdirent rootino [46]);
      _ ← iappend rootino (mkdirent rootino [46; 46]);
      _ ← add_files h rootino args;
      din ← rinode rootino;
      let off := xint (i_size din) in
      let off := u32 ((off / BSIZE + 1) * BSIZE) in
      _ ← winode rootino (set_i_size (xint off) din);
      b ← mget m_fb;
      balloc b
  end.

(** The globals of the program when it starts. *)
Definition boot : mkst := mkMk [] (mkSB 0 0 0 0 0 0 0 0) 1 0.
