(* ===== verification/MkfsSpec.v ===== *)
(** * mkfs: the image is a consistent file system

    The state of mkfs is related to a list of files, the type and the bytes of
    each inode: [ialloc] appends an empty file, [iappend] appends bytes to one.
    The relation goes through the image as it will be once the bitmap is
    written, so that the lemmas on file contents of the kernel apply. *)
From S2P Require Import Prelude Riscv Bio Log LogSpec Buf Proc UserMem Mem Uart Printf Console Fs FsLaws FsAlloc Dinode Dir Itable IRefs PathSpec Content ContentSpec ReadSpec DirSpec Mkfs.

Lemma mk_sb_eq : mk_sb = mkSB FSMAGIC 2000 1953 200 31 2 33 46.
Proof. by vm_compute. Qed.

Lemma iblock_mk n : IBLOCK n mk_sb = n / 16 + 33.
Proof. unfold IBLOCK. rewrite mk_sb_eq. done. Qed.
Lemma bblock_mk b : 0 <= b < 8192 → BBLOCK b mk_sb = 46.
Proof. intros. unfold BBLOCK. rewrite mk_sb_eq. change BPB with 8192. simpl. mlia. Qed.

(** The log of the image, where the super block says it is. *)
#[export] Instance mk_log : LogArea := log_area (sb_logstart mk_sb).

Lemma unlogged_mk b : 33 <= b < 2147483648 → in_log b = false.
Proof.
  intros Hb. apply log_area_no. rewrite mk_sb_eq. simpl. unfold LOGBLOCKS, MAXOPBLOCKS. lia.
Qed.

Lemma xint_u32 x : xint x = u32 x.
Proof.
  unfold xint, getu32, get32, aget. simpl. rewrite u32_i32.
  unfold u32, u8. rewrite !Z.shiftr_div_pow2 by lia.
  change (2 ^ 8) with 256. change (2 ^ 16) with 65536. change (2 ^ 24) with 16777216. mlia.
Qed.

Lemma xshort_u16 x : xshort x = u16 x.
Proof.
  unfold xshort, getu16, aget. simpl. unfold u16, u8. rewrite Z.shiftr_div_pow2 by lia.
  change (2 ^ 8) with 256. mlia.
Qed.

Lemma xint_small x : 0 <= x < 4294967296 → xint x = x.
Proof. intros. by rewrite xint_u32, u32_small. Qed.

(** *** The bitmap that [balloc] writes *)
Lemma mark_used_range n : Forall (λ y, 0 <= y < 256) (mark_used n).
Proof.
  induction n as [|n IH].
  - apply Forall_forall. intros y Hy. unfold mark_used, zero_block in Hy.
    apply elem_of_replicate in Hy as [-> _]. lia.
  - cbn [mark_used]. unfold splice. repeat apply Forall_app_2; [by apply Forall_take| |by apply Forall_drop].
    constructor; [|constructor]. apply Z.mod_pos_bound. lia.
Qed.

Lemma mark_used_S n : mark_used (S n) = mark_bit (mark_used n) (Z.of_nat n).
Proof.
  cbn [mark_used]. unfold mark_bit. do 2 f_equal. unfold u8.
  assert (0 <= aget (mark_used n) (Z.of_nat n / 8) < 256) as Hb.
  { unfold aget. destruct (mark_used n !! Z.to_nat (Z.of_nat n / 8)) eqn:He; simpl; [|lia].
    by apply (Forall_lookup_1 _ _ _ _ (mark_used_range n) He). }
  assert (0 <= Z.shiftl 1 (Z.of_nat n mod 8) < 256) as Hs.
  { rewrite Z.shiftl_1_l. split; [lia|]. change 256 with (2 ^ 8).
    apply Z.pow_lt_mono_r; [lia|lia|]. apply Z.mod_pos_bound. lia. }
  change 256 with (2 ^ 8). rewrite <-Z.land_ones, Z.land_lor_distr_l, !Z.land_ones by lia.
  by rewrite !Z.mod_small by (change (2 ^ 8) with 256; lia).
Qed.

Lemma mark_used_spec n : Z.of_nat n <= 8192 →
  length (mark_used n) = Z.to_nat BSIZE ∧
  ∀ j, 0 <= j → bit_set (mark_used n) j = (j <? Z.of_nat n).
Proof.
  induction n as [|n IH]; intros Hn.
  - split; [apply zero_block_len|]. intros j Hj. rewrite bit_set_testbit. unfold mark_used.
    rewrite aget_zero, Z.testbit_0_l. symmetry. apply Z.ltb_ge. lia.
  - destruct IH as [Hl Hb]; [lia|].
    assert (0 <= Z.of_nat n < 8 * zlen (mark_used n)) by (unfold zlen; rewrite Hl; change (Z.of_nat (Z.to_nat BSIZE)) with 1024; lia).
    rewrite mark_used_S. split; [by rewrite mark_bit_len|].
    intros j Hj. rewrite mark_bit_spec, Hb by done.
    destruct (Z.eqb_spec (Z.of_nat n) j), (Z.ltb_spec j (Z.of_nat n)), (Z.ltb_spec j (Z.of_nat (S n))); simpl; lia || done.
Qed.

(** *** Total correctness of the program's steps *)
Definition mok {A} (m : MK A) (s : mkst) (Q : A → mkst → Prop) : Prop :=
  match m s with Ok (a, s') => Q a s' | _ => False end.

Lemma mok_ret {A} (a : A) s (Q : A → mkst → Prop) : Q a s → mok (mret a) s Q.
Proof. done. Qed.
Lemma mok_bind {A B} (m : MK A) (f : A → MK B) s (R : A → mkst → Prop) (Q : B → mkst → Prop) :
  mok m s R → (∀ a s', R a s' → mok (f a) s' Q) → mok (m ≫= f) s Q.
Proof.
  unfold mok, mbind, mk_bind. intros Hm Hf. destruct (m s) as [[a s']| |]; simpl; [|done|done].
  by apply Hf.
Qed.
Lemma mok_mono {A} (m : MK A) s (R Q : A → mkst → Prop) : mok m s R → (∀ a s', R a s' → Q a s') → mok m s Q.
Proof. unfold mok. destruct (m s) as [[a s']| |]; auto. Qed.
Lemma mok_inv {A} (m : MK A) s Q : mok m s Q → ∃ a s', m s = Ok (a, s') ∧ Q a s'.
Proof. unfold mok. destruct (m s) as [[a s']| |]; [eauto|done|done]. Qed.
Lemma mok_get {A B} (g : mkst → A) (f : A → MK B) s Q : mok (f (g s)) s Q → mok (mget g ≫= f) s Q.
Proof. done. Qed.
Lemma mok_mod {B} (g : mkst → mkst) (f : unit → MK B) s Q : mok (f tt) (g s) Q → mok (mmod g ≫= f) s Q.
Proof. done. Qed.
Lemma mok_assert {B} b (f : unit → MK B) s Q : b = true → mok (f tt) s Q → mok (massert b ≫= f) s Q.
Proof. by intros ->. Qed.

(** *** The image and its view *)
Definition view (s : mkst) : dview := λ b, default zero_block (m_img s !! Z.to_nat b).

(** [w] are the blocks, with the bitmap as [balloc] will write it. *)
Record rep (s : mkst) (w : dview) (fb fi : Z) : Prop := {
  rp_len : length (m_img s) = 2000%nat;
  rp_blk b : length (view s b) = Z.to_nat BSIZE;
  rp_sb : m_sb s = mk_sb;
  rp_fi : m_fi s = fi;
  rp_fb : m_fb s = fb;
  rp_view b : 0 <= b → b ≠ 46 → w b = view s b;
  rp_map : w 46 = mark_used (Z.to_nat fb);
  rp_neg b : b < 0 → w b = zero_block;
  rp_zero b : fb <= b → w b = zero_block;
  rp_range : 47 <= fb <= 2000 ∧ 1 <= fi <= 200
}.

Lemma block_nat : Z.to_nat BSIZE = 1024%nat.
Proof. done. Qed.

Lemma sector_small b : 0 <= b < 2000 → sector b = Z.to_nat b.
Proof.
  intros. unfold sector. change BSIZE with 1024. rewrite u32_small by lia. f_equal. mlia.
Qed.

Lemma rep_eq s w fb fi fb' fi' : rep s w fb fi → fb = fb' → fi = fi' → rep s w fb' fi'.
Proof. by intros ? -> ->. Qed.

Section step.
Context (s : mkst) (w : dview) (fb fi : Z) (R : rep s w fb fi).

Lemma rep_len b : length (w b) = Z.to_nat BSIZE.
Proof using R.
  destruct (decide (b < 0)); [rewrite (rp_neg _ _ _ _ R) by done; by rewrite zero_block_len|].
  destruct (decide (b = 46)) as [->|].
  - rewrite (rp_map _ _ _ _ R). apply mark_used_spec. destruct (rp_range _ _ _ _ R). lia.
  - rewrite (rp_view _ _ _ _ R) by lia. apply R.
Qed.

Lemma rep_used b : 0 <= b < 2000 → used mk_sb w b = (b <? fb).
Proof using R.
  intros Hb. destruct (rp_range _ _ _ _ R). unfold used. rewrite bblock_mk, (rp_map _ _ _ _ R) by lia.
  change BPB with 8192. rewrite Z.mod_small by lia.
  destruct (mark_used_spec (Z.to_nat fb)) as [_ ->]; [lia| |lia]. by rewrite Z2Nat.id by lia.
Qed.

Lemma meta_mk b : 0 <= b < 2147483648 → meta mk_sb b → b < 47.
Proof using.
  intros Hb [(c & Hc & ->)|[(n & Hn & ->)|Hl]]; [rewrite mk_sb_eq in *; simpl in *..|].
  - rewrite <-mk_sb_eq, bblock_mk by lia. lia.
  - rewrite <-mk_sb_eq, iblock_mk. mlia.
  - destruct (decide (b < 47)) as [|Hge]; [done|]. by rewrite unlogged_mk in Hl by lia.
Qed.

Lemma rep_dwf : dwf mk_sb w.
Proof using R.
  destruct (rp_range _ _ _ _ R). split.
  - apply rep_len.
  - intros b Hb Hu. rewrite mk_sb_eq in Hb. simpl in Hb.
    rewrite rep_used in Hu by lia. apply Z.ltb_ge in Hu. split; [lia|]. intros Hm%meta_mk; lia.
  - intros n Hn. rewrite mk_sb_eq in Hn. simpl in Hn. apply unlogged_mk. rewrite iblock_mk. mlia.
  - intros c Hc. rewrite mk_sb_eq in Hc. simpl in Hc. apply unlogged_mk. rewrite bblock_mk by lia. lia.
  - intros n c Hn Hc. rewrite mk_sb_eq in *. simpl in *. rewrite <-mk_sb_eq, iblock_mk, bblock_mk by lia. mlia.
  - by rewrite mk_sb_eq.
Qed.

Lemma rep_data b : 47 <= b < fb → data_block mk_sb w b.
Proof using R.
  destruct (rp_range _ _ _ _ R). intros Hb. split_and!.
  - lia.
  - rewrite mk_sb_eq. simpl. lia.
  - rewrite rep_used by lia. apply Z.ltb_lt. lia.
  - intros Hm%meta_mk; lia.
Qed.

Lemma data_lt b : data_block mk_sb w b → b < fb.
Proof using R.
  intros (Hb & Hu & _). rewrite mk_sb_eq in Hb. simpl in Hb. rewrite rep_used in Hu by lia. by apply Z.ltb_lt.
Qed.

Lemma rsect_ok b : 0 <= b < 2000 → b ≠ 46 → mok (rsect b) s (λ d s', d = w b ∧ s' = s).
Proof using R.
  intros Hb Hne. unfold mok, rsect. rewrite sector_small by done.
  rewrite (rp_view _ _ _ _ R) by lia. unfold view.
  destruct (lookup_lt_is_Some_2 (m_img s) (Z.to_nat b)) as [d Hd]; [rewrite (rp_len _ _ _ _ R); lia|].
  by rewrite Hd.
Qed.

Lemma put_view k d c : 0 <= k < 2000 → 0 <= c →
  view (set_m_img (put_sector (Z.to_nat k) d (m_img s)) s) c = vset k d (view s) c.
Proof using R.
  intros Hk Hc. unfold view, put_sector. rewrite decide_True by (rewrite (rp_len _ _ _ _ R); lia).
  simpl. unfold vset. case_decide as He.
  - subst. rewrite list_lookup_insert_eq by (rewrite (rp_len _ _ _ _ R); lia). done.
  - rewrite list_lookup_insert_ne by lia. done.
Qed.

Lemma wsect_ok b d : 0 < b < fb → b ≠ 46 → length d = Z.to_nat BSIZE →
  mok (wsect b d) s (λ _ s', rep s' (vset b d w) fb fi).
Proof using R.
  intros Hb Hne Hd. destruct (rp_range _ _ _ _ R) as [Hf1 Hf2].
  unfold mok, wsect, mmod. rewrite sector_small by lia.
  split; simpl; try apply R.
  - unfold put_sector. rewrite decide_True by (rewrite (rp_len _ _ _ _ R); lia).
    rewrite length_insert. apply R.
  - intros c. destruct (decide (0 <= c)).
    + rewrite put_view by lia. unfold vset. case_decide; [done|apply R].
    + unfold view. simpl. replace (Z.to_nat c) with (Z.to_nat 0) by lia.
      pose proof (put_view b d 0) as Hv. unfold view in Hv. simpl in Hv. rewrite Hv by lia.
      rewrite vset_ne by lia. apply (rp_blk _ _ _ _ R 0).
  - intros c Hc Hn. rewrite put_view by lia. unfold vset. case_decide; [done|].
    by apply R.
  - rewrite vset_ne by done. apply R.
  - intros c Hc. rewrite vset_ne by lia. by apply (rp_neg _ _ _ _ R).
  - intros c Hc. rewrite vset_ne by lia. by apply (rp_zero _ _ _ _ R).
Qed.

Lemma new_block_ok : fb < 2000 → mok new_block s (λ b s', b = fb ∧ rep s' (allocated mk_sb w fb) (fb + 1) fi).
Proof using R.
  intros Hlt. destruct (rp_range _ _ _ _ R) as [Hf1 Hf2].
  unfold mok, new_block, mbind, mk_bind, mget, mmod. simpl. rewrite (rp_fb _ _ _ _ R).
  rewrite xint_small, u32_small by lia. split; [done|].
  unfold allocated. rewrite bblock_mk by lia. change BPB with 8192. rewrite Z.mod_small by lia.
  split; simpl; try apply R; try done.
  - intros b Hb Hne. unfold view. simpl. unfold vset. repeat case_decide; try done.
    + subst b. transitivity (w fb); [symmetry; apply (rp_zero _ _ _ _ R); lia|apply (rp_view _ _ _ _ R); lia].
    + by rewrite (rp_view _ _ _ _ R).
  - rewrite vset_ne, vset_eq by lia. rewrite (rp_map _ _ _ _ R).
    replace (Z.to_nat (fb + 1)) with (S (Z.to_nat fb)) by lia.
    rewrite mark_used_S. by rewrite Z2Nat.id by lia.
  - intros b Hb. rewrite !vset_ne by lia. by apply (rp_neg _ _ _ _ R).
  - intros b Hb. rewrite !vset_ne by lia. apply (rp_zero _ _ _ _ R). lia.
  - lia.
Qed.
End step.

(** *** One file *)
(** The bytes [bs] in [nb] blocks, and the indirect block if [i]. *)
Record filed (w : dview) (ip : inode) (bs : list Z) (nb : Z) (i : bool) : Prop := {
  fd_iwf : iwf mk_sb w ip;
  fd_content o : 0 <= o < MAXFILE * BSIZE → content w ip o = aget bs o;
  fd_blk bn : 0 <= bn < MAXFILE → blk w ip bn ≠ 0 ↔ bn < nb;
  fd_ind : ind ip ≠ 0 ↔ i = true;
  fd_own b : owns w ip b → b = 0 ∨ 47 <= b
}.

(** The metadata before the bitmap is untouched. *)
Definition low_same (w w' : dview) : Prop := ∀ b, b < 46 → w' b = w b.

Lemma low_refl w : low_same w w.
Proof. by intros b. Qed.
Lemma low_trans w1 w2 w3 : low_same w1 w2 → low_same w2 w3 → low_same w1 w3.
Proof. intros H1 H2 b Hb. by rewrite H2, H1. Qed.
Lemma low_vset w b d : 46 <= b → low_same w (vset b d w).
Proof. intros Hb c Hc. apply vset_ne. lia. Qed.

Section extend.
Context (s : mkst) (w : dview) (fb fi : Z) (R : rep s w fb fi) (Hfb : fb < 2000).

Lemma fb_free : used mk_sb w fb = false.
Proof using R Hfb. destruct (rp_range _ _ _ _ R). rewrite (rep_used _ _ _ _ R) by lia. apply Z.ltb_irrefl. Qed.

Lemma fb_size : 0 <= fb < sb_size mk_sb.
Proof using R Hfb. destruct (rp_range _ _ _ _ R). rewrite mk_sb_eq. simpl. lia. Qed.

Lemma low_allocated : low_same w (allocated mk_sb w fb).
Proof using R Hfb.
  destruct (rp_range _ _ _ _ R). unfold allocated. rewrite bblock_mk by lia.
  eapply low_trans; apply low_vset; lia.
Qed.

(** A file extended by [fb], as block [nb] or as indirect block. *)
Lemma filed_extend ip bs nb nb' i i' w' ip' :
  filed w ip bs nb i → ext mk_sb w ip w' ip' →
  (∀ bn, 0 <= bn < MAXFILE → blk w' ip' bn = blk w ip bn ∨ bn = nb ∧ nb' = nb + 1 ∧ blk w' ip' bn = fb) →
  (nb' = nb ∨ nb' = nb + 1 ∧ blk w' ip' nb = fb) →
  (i' = i ∧ ind ip' = ind ip ∨ i' = true ∧ ind ip' = fb) →
  filed w' ip' bs nb' i'.
Proof using R Hfb.
  intros [F1 F2 F3 F4 F5] E Hb Hn Hi. destruct (rp_range _ _ _ _ R). split.
  - apply E.
  - intros o Ho. rewrite (ext_content _ _ _ _ _ E) by done. auto.
  - intros bn Hbn. destruct (Hb bn Hbn) as [He|(-> & -> & ->)]; [|lia].
    rewrite He, F3 by done. destruct Hn as [->|[-> Hn]]; [done|].
    split; [lia|]. intros Hlt. destruct (decide (bn = nb)) as [->|]; [|lia].
    apply F3; [done|]. rewrite <-He, Hn. lia.
  - destruct Hi as [[-> ->]|[-> ->]]; [done|]. split; [done|lia].
  - intros b [->|(bn & Hbn & <-)].
    + destruct Hi as [[_ ->]|[_ ->]]; [apply F5; by left|lia].
    + destruct (Hb bn Hbn) as [->|(_ & _ & ->)]; [|lia]. apply F5. right. eauto.
Qed.

Lemma filed_direct ip bs nb i :
  filed w ip bs nb i → 0 <= nb < NDIRECT →
  let w' := allocated mk_sb w fb in
  let ip' := set_i_addrs (<[Z.to_nat nb := fb]> (i_addrs ip)) ip in
  ext mk_sb w ip w' ip' ∧ filed w' ip' bs (nb + 1) i ∧ blk w' ip' nb = fb.
Proof using R Hfb.
  intros F Hnb w' ip'. pose proof F as [F1 _ F3 _ _].
  pose proof (rep_dwf _ _ _ _ R) as Hd. pose proof fb_free as Hu. pose proof fb_size as Hs.
  assert (0 <= nb < MAXFILE) as Hm by (change MAXFILE with 268; change NDIRECT with 12 in *; lia).
  assert (blk w ip nb = 0) as H0 by (destruct (decide (blk w ip nb = 0)) as [|Hn]; [done|apply F3 in Hn; lia]).
  destruct (ext_direct mk_sb w ip nb fb) as [E B]; try done.
  { rewrite <-H0. unfold blk. by rewrite (proj2 (Z.ltb_lt _ _)) by lia. }
  split; [exact E|]. split; [|exact B].
  eapply filed_extend; [exact F|exact E| |by right|].
  - intros bn Hbn. unfold w', ip'. rewrite (blk_direct mk_sb) by (done || lia).
    destruct (Z.eqb_spec bn nb); auto.
  - left. split; [done|]. apply ind_direct; [|done]. by apply F1.
Qed.

Lemma filed_ind ip bs nb :
  filed w ip bs nb false →
  let w' := allocated mk_sb w fb in
  let ip' := set_i_addrs (<[Z.to_nat NDIRECT := fb]> (i_addrs ip)) ip in
  ext mk_sb w ip w' ip' ∧ filed w' ip' bs nb true ∧ ind ip' = fb.
Proof using R Hfb.
  intros F w' ip'. pose proof F as [F1 _ _ F4 _].
  pose proof (rep_dwf _ _ _ _ R) as Hd. pose proof fb_free as Hu. pose proof fb_size as Hs.
  assert (ind ip = 0) as H0 by (destruct (decide (ind ip = 0)) as [|Hn]; [done|by apply F4 in Hn]).
  destruct (ext_ind mk_sb w ip fb) as [E B]; try done.
  destruct (extend_ind mk_sb w ip fb) as (_ & _ & Hb & _); try done.
  split; [exact E|]. split; [|exact B].
  eapply filed_extend; [exact F|exact E| |by left|].
  - intros bn Hbn. left. apply Hb. lia.
  - right. split; [done|exact B].
Qed.

Lemma filed_indirect ip bs nb :
  filed w ip bs nb true → NDIRECT <= nb < MAXFILE →
  let w' := vset (ind ip) (put32 (w (ind ip)) (4 * (nb - NDIRECT)) fb) (allocated mk_sb w fb) in
  ext mk_sb w ip w' ip ∧ filed w' ip bs (nb + 1) true ∧ blk w' ip nb = fb.
Proof using R Hfb.
  intros F Hnb w'. pose proof F as [F1 _ F3 F4 _].
  pose proof (rep_dwf _ _ _ _ R) as Hd. pose proof fb_free as Hu. pose proof fb_size as Hs.
  assert (ind ip ≠ 0) as H0 by by apply F4.
  assert (0 <= nb < MAXFILE) as Hm by (change NDIRECT with 12 in *; lia).
  assert (blk w ip nb = 0) as Hz by (destruct (decide (blk w ip nb = 0)) as [|Hn]; [done|apply F3 in Hn; lia]).
  destruct (ext_indirect mk_sb w ip nb fb) as [E B]; try done.
  split; [exact E|]. split; [|exact B].
  eapply filed_extend; [exact F|exact E| |by right|by left].
  intros bn Hbn. unfold w'. rewrite (blk_indirect mk_sb) by (done || lia).
  destruct (Z.eqb_spec bn nb); auto.
Qed.
End extend.

(** *** The block for the next byte *)
Definition nb0 (n : Z) : Z := (n + 1023) / 1024.
Definition nblk (n : Z) : Z := nb0 n + b2z (12288 <? n).
Definition data_ok (w : dview) (ip : inode) (bs : list Z) : Prop :=
  filed w ip bs (nb0 (zlen bs)) (12288 <? zlen bs).

Lemma addr_range ip k : inode_ok ip → 0 <= aget (i_addrs ip) k < 4294967296.
Proof.
  intros (_ & _ & _ & _ & _ & _ & Ha). unfold aget.
  destruct (i_addrs ip !! Z.to_nat k) eqn:He; simpl; [|lia]. by apply (Forall_lookup_1 _ _ _ _ Ha He).
Qed.

Lemma need_addr_have ip k s (Q : inode → mkst → Prop) :
  inode_ok ip → aget (i_addrs ip) k ≠ 0 → Q ip s → mok (need_addr ip k) s Q.
Proof.
  intros Hok Hne HQ. unfold need_addr. pose proof (addr_range ip k Hok).
  rewrite xint_small by done. by rewrite (proj2 (Z.eqb_neq _ _)).
Qed.

Lemma need_addr_new ip k s w fb fi : rep s w fb fi → fb < 2000 → aget (i_addrs ip) k = 0 →
  mok (need_addr ip k) s (λ ip' s', ip' = set_i_addrs (<[Z.to_nat k := fb]> (i_addrs ip)) ip ∧
    rep s' (allocated mk_sb w fb) (fb + 1) fi).
Proof.
  intros R Hfb H0. unfold need_addr. rewrite H0. change (xint 0 =? 0) with true.
  eapply mok_bind; [by eapply new_block_ok|]. intros b s' [-> R']. by apply mok_ret.
Qed.

(** Where block [nb] is found. *)
Lemma blk_at w ip bn : iwf mk_sb w ip → 0 <= bn < NDIRECT → blk w ip bn = xint (aget (i_addrs ip) bn).
Proof.
  intros Hi Hb. rewrite xint_small by apply addr_range, Hi. unfold blk. by rewrite (proj2 (Z.ltb_lt _ _)) by lia.
Qed.
Lemma blk_at_ind w ip bn : ind ip ≠ 0 → NDIRECT <= bn →
  blk w ip bn = xint (getu32 (w (ind ip)) (4 * (bn - NDIRECT))).
Proof.
  intros H0 Hb. rewrite xint_small by apply getu32_range. unfold blk.
  rewrite (proj2 (Z.ltb_ge _ _)) by lia. by rewrite (proj2 (Z.eqb_neq _ _)).
Qed.

Definition block_post (w : dview) (ip : inode) (bs : list Z) (nb : Z) (i : bool) (fb fi : Z)
    (r : inode * Z) (s' : mkst) : Prop :=
  ∃ w', rep s' w' fb fi ∧ ext mk_sb w ip w' r.1 ∧ filed w' r.1 bs (nb + 1) i ∧
    r.2 = blk w' r.1 nb ∧ low_same w w'.

Section file_block.
Context (s : mkst) (w : dview) (fb fi : Z) (R : rep s w fb fi).

Lemma filed_zero ip bs nb i bn : filed w ip bs nb i → 0 <= bn < MAXFILE → nb <= bn → blk w ip bn = 0.
Proof using.
  intros F Hb Hle. destruct (decide (blk w ip bn = 0)) as [|Hn]; [done|].
  apply (fd_blk _ _ _ _ _ F) in Hn; lia.
Qed.

(** A direct block, missing and present. *)
Lemma direct_new ip bs nb i : filed w ip bs nb i → 0 <= nb < NDIRECT → fb < 2000 →
  mok (file_block ip nb) s (block_post w ip bs nb i (fb + 1) fi).
Proof using R.
  intros F Hnb Hfb. unfold file_block. rewrite (proj2 (Z.ltb_lt _ _)) by lia.
  destruct (filed_direct _ _ _ _ R Hfb ip bs nb i F Hnb) as (E & F' & B).
  eapply mok_bind.
  { apply (need_addr_new _ _ _ w fb fi); [done|done|].
    pose proof (filed_zero ip bs nb i nb F) as H0. rewrite blk_at in H0; [|apply F|done].
    rewrite xint_small in H0 by apply addr_range, F. apply H0; [|lia].
    change MAXFILE with 268. change NDIRECT with 12 in *. lia. }
  intros ip' s' [-> R']. apply mok_ret. exists (allocated mk_sb w fb). split_and!; try done.
  - symmetry. apply blk_at; [exact (fd_iwf _ _ _ _ _ F')|done].
  - exact (low_allocated _ _ _ _ R Hfb).
Qed.

Lemma direct_have ip bs nb i : filed w ip bs (nb + 1) i → 0 <= nb < NDIRECT →
  mok (file_block ip nb) s (block_post w ip bs nb i fb fi).
Proof using R.
  intros F Hnb. unfold file_block. rewrite (proj2 (Z.ltb_lt _ _)) by lia.
  assert (0 <= nb < MAXFILE) by (change MAXFILE with 268; change NDIRECT with 12 in *; lia).
  eapply mok_bind.
  { apply (need_addr_have _ _ _ (λ ip' s', ip' = ip ∧ s' = s)); [apply F| |done].
    rewrite <-(xint_small (aget (i_addrs ip) nb)) by apply addr_range, F.
    rewrite <-(blk_at w) by (done || exact (fd_iwf _ _ _ _ _ F)).
    apply (fd_blk _ _ _ _ _ F); [done|lia]. }
  intros ip' s' [-> ->]. apply mok_ret. exists w. split_and!; try done.
  - apply ext_refl; [by eapply rep_dwf|apply F].
  - symmetry. apply blk_at; [exact (fd_iwf _ _ _ _ _ F)|done].
Qed.

(** The entry of an indirect block that is there. *)
Lemma indirect_entry ip bs nb nb1 fb1 :
  filed w ip bs nb1 true → NDIRECT <= nb < MAXFILE →
  (nb1 = nb ∧ fb < 2000 ∧ fb1 = fb + 1 ∨ nb1 = nb + 1 ∧ fb1 = fb) →
  mok (file_block ip nb) s (block_post w ip bs nb true fb1 fi).
Proof using R.
  intros F Hnb Hc. unfold file_block. rewrite (proj2 (Z.ltb_ge _ _)) by lia.
  assert (0 <= nb < MAXFILE) as Hm by (change NDIRECT with 12 in *; lia).
  assert (ind ip ≠ 0) as H0 by by apply (fd_ind _ _ _ _ _ F).
  assert (47 <= ind ip) as Hi by (destruct (fd_own _ _ _ _ _ F (ind ip)); [by left|done|done]).
  pose proof (iwf_ind _ _ _ (fd_iwf _ _ _ _ _ F) H0) as Hdi. pose proof (data_lt _ _ _ _ R _ Hdi) as Hil.
  destruct (rp_range _ _ _ _ R) as [Hr _].
  eapply mok_bind.
  { apply (need_addr_have _ _ _ (λ ip' s', ip' = ip ∧ s' = s)); [apply F|exact H0|done]. }
  intros ip' s' [-> ->]. change (aget (i_addrs ip) NDIRECT) with (ind ip).
  rewrite (xint_small (ind ip)) by apply addr_range, F.
  eapply mok_bind; [eapply rsect_ok; [exact R|lia|lia]|]. intros d s' [-> ->].
  assert (getu32 (w (ind ip)) (4 * (nb - NDIRECT)) = blk w ip nb) as Hg.
  { rewrite blk_at_ind by (done || lia). by rewrite xint_small by apply getu32_range. }
  rewrite Hg. destruct Hc as [(-> & Hfb & ->)|[-> ->]].
  - rewrite (filed_zero ip bs nb true nb F) by (done || lia). simpl (0 =? 0). cbv iota.
    destruct (filed_indirect _ _ _ _ R Hfb ip bs nb F Hnb) as (E & F' & B).
    eapply mok_bind.
    { eapply mok_bind; [by eapply new_block_ok|]. intros b s' [-> R'].
      eapply mok_bind; [apply (wsect_ok _ _ _ _ R' (ind ip)); [lia|lia|]|].
      { pose proof (rep_len _ _ _ _ R (ind ip)) as Hl. change (Z.to_nat BSIZE) with 1024%nat in *.
        pose proof (put32_length (w (ind ip)) (4 * (nb - NDIRECT)) fb) as Hp. unfold zlen in Hp.
        rewrite Hl in Hp. change MAXFILE with 268 in *. change NDIRECT with 12 in *.
        change (Z.of_nat 1024) with 1024 in Hp. lia. }
      intros [] s2 R2. apply (mok_ret _ _ (λ d s', d = put32 (w (ind ip)) (4 * (nb - NDIRECT)) fb ∧
        rep s' (vset (ind ip) (put32 (w (ind ip)) (4 * (nb - NDIRECT)) fb) (allocated mk_sb w fb)) (fb + 1) fi)).
      done. }
    intros d s' [-> R']. apply mok_ret.
    exists (vset (ind ip) (put32 (w (ind ip)) (4 * (nb - NDIRECT)) fb) (allocated mk_sb w fb)).
    split_and!; try done; simpl.
    + rewrite blk_at_ind by (done || lia). by rewrite vset_eq.
    + eapply low_trans; [exact (low_allocated _ _ _ _ R Hfb)|]. apply low_vset. lia.
  - assert (blk w ip nb ≠ 0) as Hn by (apply (fd_blk _ _ _ _ _ F); [done|lia]).
    rewrite (proj2 (Z.eqb_neq _ _)) by done. apply mok_ret.
    exists w. split_and!; try done; simpl.
    + apply ext_refl; [by eapply rep_dwf|apply F].
    + by rewrite blk_at_ind by (done || lia).
Qed.
End file_block.

Lemma file_block_after ip nb s ip' s' Q :
  NDIRECT <= nb → need_addr ip NDIRECT s = Ok (ip', s') → need_addr ip' NDIRECT s' = Ok (ip', s') →
  mok (file_block ip' nb) s' Q → mok (file_block ip nb) s Q.
Proof.
  intros Hnb H1 H2. unfold mok, file_block. rewrite !(proj2 (Z.ltb_ge _ _)) by lia.
  unfold mbind, mk_bind. rewrite H1, H2. done.
Qed.

Lemma block_post_trans w ip bs nb i fb fi r s' w1 ip1 :
  ext mk_sb w ip w1 ip1 → low_same w w1 →
  block_post w1 ip1 bs nb i fb fi r s' → block_post w ip bs nb i fb fi r s'.
Proof.
  intros E L (w' & R & E' & F & H & L'). exists w'. split_and!; [done| |done|done|].
  - by eapply ext_trans.
  - by eapply low_trans.
Qed.

Lemma indirect_new s w fb fi ip bs nb :
  rep s w fb fi → filed w ip bs nb false → NDIRECT <= nb < MAXFILE → fb + 1 < 2000 →
  mok (file_block ip nb) s (block_post w ip bs nb true (fb + 2) fi).
Proof.
  intros R F Hnb Hfb. destruct (filed_ind _ _ _ _ R ltac:(lia) ip bs nb F) as (E & F' & B).
  pose proof (need_addr_new ip NDIRECT s w fb fi R ltac:(lia)) as Hn. unfold mok in Hn.
  destruct (need_addr ip NDIRECT s) as [[ip' s']| |] eqn:Hs; [|exfalso; apply Hn..].
  2, 3: pose proof (fd_ind _ _ _ _ _ F) as Hi; change (aget (i_addrs ip) NDIRECT) with (ind ip);
    destruct (decide (ind ip = 0)) as [|Hne]; [done|by apply Hi in Hne].
  destruct Hn as [-> R1].
  { pose proof (fd_ind _ _ _ _ _ F) as Hi. change (aget (i_addrs ip) NDIRECT) with (ind ip).
    destruct (decide (ind ip = 0)) as [|Hne]; [done|by apply Hi in Hne]. }
  eapply file_block_after; [lia|exact Hs| |].
  - pose proof (need_addr_have (set_i_addrs (<[Z.to_nat NDIRECT := fb]> (i_addrs ip)) ip) NDIRECT s'
      (λ a b, a = set_i_addrs (<[Z.to_nat NDIRECT := fb]> (i_addrs ip)) ip ∧ b = s')) as Hh.
    unfold mok in Hh. destruct (need_addr _ NDIRECT s') as [[a b]| |]; [destruct Hh as [-> ->]; [| |done|done]|exfalso; apply Hh..];
      try done; try (exact (iwf_ok _ _ _ (fd_iwf _ _ _ _ _ F'))); by apply (fd_ind _ _ _ _ _ F').
  - eapply mok_mono; [eapply (indirect_entry _ _ _ _ R1 _ bs nb nb (fb + 2) F' Hnb)|].
    + left. lia.
    + intros r s2. apply block_post_trans; [exact E|]. exact (low_allocated _ _ _ _ R ltac:(lia)).
Qed.

Lemma nb0_step n : 0 <= n → nb0 (n + 1) = n / 1024 + 1 ∧ (nb0 n = n / 1024 ∨ nb0 n = n / 1024 + 1).
Proof. unfold nb0. intros. split; mlia. Qed.

(** The block for the byte after [bs], allocated when a block boundary is met. *)
Lemma file_block_ok s w fb fi ip bs :
  rep s w fb fi → data_ok w ip bs → zlen bs < MAXFILE * BSIZE →
  fb + nblk (zlen bs + 1) - nblk (zlen bs) <= 2000 →
  mok (file_block ip (zlen bs / BSIZE)) s
    (block_post w ip bs (zlen bs / BSIZE) (12288 <? zlen bs + 1)
       (fb + nblk (zlen bs + 1) - nblk (zlen bs)) fi).
Proof.
  intros R F Hl. unfold data_ok, nblk in *. pose proof (zlen_nonneg bs) as H0.
  destruct (nb0_step (zlen bs) H0) as [-> Hc]. set (L := zlen bs) in *.
  change BSIZE with 1024 in *. change MAXFILE with 268 in *.
  assert (0 <= L / 1024 < 268) as Hb by mlia. intros Hfb.
  destruct (Z.ltb_spec L 12288) as [Hd|Hd].
  - rewrite (proj2 (Z.ltb_ge 12288 L)), (proj2 (Z.ltb_ge 12288 (L + 1))) in * by lia. simpl b2z in *.
    assert (0 <= L / 1024 < NDIRECT) by (change NDIRECT with 12; mlia).
    destruct Hc as [Hc|Hc]; rewrite Hc in *.
    + replace (fb + (L / 1024 + 1 + 0) - (L / 1024 + 0)) with (fb + 1) by lia. apply (direct_new s w fb fi); [done..|lia].
    + replace (fb + (L / 1024 + 1 + 0) - (L / 1024 + 1 + 0)) with fb by lia. by apply (direct_have s w fb fi).
  - rewrite (proj2 (Z.ltb_lt 12288 (L + 1))) in * by lia. simpl (b2z true) in *.
    assert (NDIRECT <= L / 1024 < MAXFILE) by (change NDIRECT with 12; change MAXFILE with 268; mlia).
    destruct (Z.ltb_spec 12288 L); simpl b2z in *; destruct Hc as [Hc|Hc]; rewrite Hc in *.
    + eapply (indirect_entry s w fb fi R); [exact F|done|]. left. lia.
    + eapply (indirect_entry s w fb fi R); [exact F|done|]. right. lia.
    + replace (fb + (L / 1024 + 1 + 1) - (L / 1024 + 0)) with (fb + 2) by lia. apply (indirect_new s w fb fi); [done..|lia].
    + exfalso. unfold nb0 in Hc. mlia.
Qed.

(** *** Storing a chunk, and the loop *)
Lemma aget_ge l j : zlen l <= j → aget l j = 0.
Proof. intros. unfold aget. rewrite lookup_ge_None_2; [done|unfold zlen in *; lia]. Qed.

Lemma nblk_mono a b : 0 <= a <= b → nblk a <= nblk b.
Proof.
  intros. unfold nblk, nb0. destruct (Z.ltb_spec 12288 a), (Z.ltb_spec 12288 b); simpl b2z; mlia.
Qed.

Lemma nblk_chunk a c : 0 <= a → 1 <= c → a mod 1024 + c <= 1024 →
  nblk (a + c) = nblk (a + 1) ∧ nb0 (a + c) = a / 1024 + 1 ∧ (12288 <? a + c) = (12288 <? a + 1).
Proof.
  intros. assert (nb0 (a + c) = a / 1024 + 1) as H3 by (unfold nb0; mlia).
  assert (nb0 (a + 1) = a / 1024 + 1) as H4 by (unfold nb0; mlia).
  assert ((12288 <? a + c) = (12288 <? a + 1)) as H5.
  { destruct (Z.ltb_spec 12288 (a + c)), (Z.ltb_spec 12288 (a + 1)); try done; exfalso; mlia. }
  unfold nblk. by rewrite H3, H4, H5.
Qed.

Lemma splice_content (d bs c : list Z) o :
  zlen d = 1024 → 1 <= zlen c → zlen bs mod 1024 + zlen c <= 1024 → 0 <= o →
  o / 1024 = zlen bs / 1024 → aget d (o mod 1024) = aget bs o →
  aget (splice d (zlen bs mod 1024) c) (o mod 1024) = aget (bs ++ c) o.
Proof.
  intros Hd Hc Hm Ho He Ha. pose proof (zlen_nonneg bs).
  rewrite splice_aget, aget_app by mlia.
  destruct (Z.ltb_spec o (zlen bs)).
  - rewrite (proj2 (Z.leb_gt _ _)) by mlia. done.
  - rewrite (proj2 (Z.leb_le _ _)) by mlia. simpl.
    destruct (Z.ltb_spec (o mod 1024) (zlen bs mod 1024 + zlen c)).
    + f_equal. mlia.
    + rewrite Ha, !aget_ge by mlia. done.
Qed.

Lemma store_ok s w fb fi ip bs c :
  rep s w fb fi → filed w ip bs (zlen bs / 1024 + 1) (12288 <? zlen bs + 1) →
  1 <= zlen c → zlen bs mod 1024 + zlen c <= 1024 → zlen bs < MAXFILE * BSIZE →
  let x := blk w ip (zlen bs / 1024) in
  let w' := vset x (splice (w x) (zlen bs mod 1024) c) w in
  47 <= x < fb ∧ length (splice (w x) (zlen bs mod 1024) c) = Z.to_nat BSIZE ∧
  data_ok w' ip (bs ++ c) ∧ frame mk_sb w ip w' ip ∧ low_same w w'.
Proof.
  intros R F Hc Hm Hl x w'. pose proof (zlen_nonneg bs) as H0.
  assert (0 <= zlen bs / 1024 < MAXFILE) as Hb
    by (change BSIZE with 1024 in *; change MAXFILE with 268 in *; mlia).
  assert (x ≠ 0) as Hx by (apply (fd_blk _ _ _ _ _ F); [done|lia]).
  destruct (iwf_blk _ _ _ (fd_iwf _ _ _ _ _ F) _ Hb Hx) as [Hdx Hxi]. fold x in Hdx.
  assert (47 <= x) as Hx47.
  { destruct (fd_own _ _ _ _ _ F x) as [|]; [right; by exists (zlen bs / 1024)|done|done]. }
  pose proof (data_lt _ _ _ _ R _ Hdx) as Hxf.
  assert (zlen (w x) = 1024) as Hwl by (unfold zlen; by rewrite (rep_len _ _ _ _ R)).
  assert (length (splice (w x) (zlen bs mod 1024) c) = Z.to_nat BSIZE) as Hsl.
  { apply Nat2Z.inj. change (zlen (splice (w x) (zlen bs mod 1024) c) = 1024).
    rewrite splice_length; mlia. }
  destruct (write_content mk_sb w ip (zlen bs / 1024) (splice (w x) (zlen bs mod 1024) c))
    as (_ & I' & B' & C'); [by eapply rep_dwf|apply F|done|done|done|]. fold x w' in I', B', C'.
  destruct (nblk_chunk (zlen bs) (zlen c) H0 Hc Hm) as (_ & N2 & N3).
  split; [done|]. split; [done|]. split; [|split; [|apply low_vset; lia]].
  - unfold data_ok. rewrite zlen_app, N2, N3. split; [done| | |apply F|].
    + intros o Ho. rewrite C' by done. change BSIZE with 1024 in *.
      pose proof (fd_content _ _ _ _ _ F o Ho) as Hco.
      destruct (Z.eqb_spec (o / 1024) (zlen bs / 1024)) as [He|He].
      * apply splice_content; [done..|lia|done|]. rewrite <-Hco. unfold content.
        change BSIZE with 1024. rewrite He. fold x. by rewrite (proj2 (Z.eqb_neq _ _)).
      * rewrite Hco, aget_app by lia. destruct (Z.ltb_spec o (zlen bs)); [done|].
        rewrite !aget_ge by mlia. done.
    + intros bn Hbn. rewrite B'. by apply F.
    + intros b [->|(bn & Hbn & <-)]; [apply F; by left|]. rewrite B'. apply F. right. eauto.
  - intros b Hdb Ho. unfold w'. rewrite vset_ne.
    + split; [done|]. split; [by apply vset_data|]. intros [->|(bn & Hbn & <-)]; apply Ho; [by left|].
      fold w'. rewrite B'. right. eauto.
    + intros <-. apply Ho. right. exists (zlen bs / 1024). done.
Qed.

Definition append_post (w : dview) (ip : inode) (bs p : list Z) (fb fi : Z) (r : inode * Z) (s' : mkst) : Prop :=
  r.2 = zlen bs + zlen p ∧ r.1 = set_i_addrs (i_addrs r.1) ip ∧
  ∃ w', rep s' w' (fb + nblk (zlen bs + zlen p) - nblk (zlen bs)) fi ∧
    data_ok w' r.1 (bs ++ p) ∧ frame mk_sb w ip w' r.1 ∧ low_same w w'.

Lemma append_nil s w fb fi ip bs p :
  rep s w fb fi → data_ok w ip bs → zlen p <= 0 → append_post w ip bs p fb fi (ip, zlen bs) s.
Proof.
  intros R F ->%zlen_nil_inv. unfold append_post. change (zlen (@nil Z)) with 0.
  rewrite Z.add_0_r, Z.add_simpl_r, app_nil_r. split_and!; [done|by destruct ip|].
  exists w. split_and!; [done|done|by intros b|apply low_refl].
Qed.

Lemma iappend_loop_ok fuel : ∀ s w fb fi ip bs p,
  rep s w fb fi → data_ok w ip bs → (length p <= fuel)%nat → zlen bs + zlen p <= MAXFILE * BSIZE →
  fb + nblk (zlen bs + zlen p) - nblk (zlen bs) <= 2000 →
  mok (iappend_loop fuel p ip (zlen bs) (zlen p)) s (append_post w ip bs p fb fi).
Proof.
  induction fuel as [|fuel IH]; intros s w fb fi ip bs p R F Hf Hmax Hfb; cbn [iappend_loop].
  all: destruct (Z.ltb_spec 0 (zlen p)) as [Hp|Hp]; [|apply mok_ret].
  2, 4: by apply append_nil.
  { unfold zlen in Hp. lia. }
  pose proof (zlen_nonneg bs) as H0.
  assert (zlen bs < MAXFILE * BSIZE) as Hlt by lia.
  pose proof (nblk_mono (zlen bs + 1) (zlen bs + zlen p) ltac:(lia)) as Hmono.
  apply mok_assert.
  { apply Z.ltb_lt. change BSIZE with 1024 in *. change MAXFILE with 268 in *. mlia. }
  eapply mok_bind; [apply (file_block_ok s w fb fi); [done..|lia]|].
  intros [ip1 x] s1 (w1 & R1 & E1 & F1 & Hx & L1). simpl in *. change BSIZE with 1024 in *.
  set (n1 := Z.min (zlen p) (u32 ((zlen bs / 1024 + 1) * 1024 - zlen bs))).
  change MAXFILE with 268 in *.
  assert (n1 = Z.min (zlen p) (1024 - zlen bs mod 1024)) as Hn1.
  { unfold n1. rewrite u32_small by mlia. f_equal. mlia. }
  assert (1 <= n1 <= zlen p) as Hn1r by mlia.
  set (c := take (Z.to_nat n1) p). assert (zlen c = n1) as Hcl by (unfold c, zlen in *; rewrite length_take; lia).
  destruct (store_ok s1 w1 _ _ ip1 bs c R1 F1) as (X1 & X2 & X3 & X4 & X5); [lia|mlia|done|].
  rewrite <-Hx in *. rewrite (u32_small (zlen bs - _)) by mlia.
  replace (zlen bs - zlen bs / 1024 * 1024) with (zlen bs mod 1024) by mlia.
  eapply mok_bind; [eapply rsect_ok; [exact R1|lia|]; lia|]. intros d s' [-> ->].
  eapply mok_bind; [eapply wsect_ok; [exact R1|lia|lia|done]|]. intros [] s2 R2.
  rewrite u32_small by lia.
  assert (zlen (bs ++ c) = zlen bs + n1) as Hbc by (rewrite zlen_app; lia).
  assert (zlen (drop (Z.to_nat n1) p) = zlen p - n1) as Hdr by (unfold zlen in *; rewrite length_drop; lia).
  destruct (nblk_chunk (zlen bs) n1) as (N1 & _ & _); [lia|lia|mlia|].
  rewrite <-Hbc, <-Hdr. eapply mok_mono.
  { eapply IH; [exact R2|exact X3|unfold zlen in *; lia| |]; rewrite Hbc, Hdr.
    - change MAXFILE with 268. change BSIZE with 1024. lia.
    - replace (zlen bs + n1 + (zlen p - n1)) with (zlen bs + zlen p) by lia. lia. }
  intros r s3 (H1 & H2 & w3 & R3 & F3 & Fr3 & L3).
  rewrite Hbc, Hdr in *. replace (zlen bs + n1 + (zlen p - n1)) with (zlen bs + zlen p) in * by lia.
  split; [done|]. split.
  { rewrite H2, (ext_same _ _ _ _ _ E1). done. }
  exists w3. replace (bs ++ p) with ((bs ++ c) ++ drop (Z.to_nat n1) p) by (rewrite <-app_assoc; unfold c; by rewrite take_drop).
  split_and!; [|done| |].
  - eapply rep_eq; [exact R3|lia|done].
  - eapply frame_trans; [exact (ext_frame _ _ _ _ _ E1)|]. by eapply frame_trans.
  - eapply low_trans; [done|]. by eapply low_trans.
Qed.

(** *** All files of the image *)
Definition apart (w : dview) (ip jp : inode) : Prop :=
  ∀ b, data_block mk_sb w b → owns w ip b → ¬ owns w jp b.

Record family (w : dview) (I : list inode) (L : list (list Z)) : Prop := {
  fam_len : length I = length L;
  fam_data i ip bs : I !! i = Some ip → L !! i = Some bs → data_ok w ip bs;
  fam_apart i j ip jp : i ≠ j → I !! i = Some ip → I !! j = Some jp → apart w ip jp
}.

(** A file whose blocks keep their content. *)
Lemma data_same w w' jp bs :
  data_ok w jp bs → (∀ b, data_block mk_sb w b → owns w jp b → w' b = w b ∧ data_block mk_sb w' b) →
  data_ok w' jp bs ∧ (∀ b, owns w' jp b ↔ owns w jp b).
Proof.
  intros [F1 F2 F3 F4 F5] Hk. pose proof F1 as [Hok Hind Hblk Hinj].
  assert (∀ bn, blk w' jp bn = blk w jp bn) as Hb.
  { intros bn. apply blk_ext. intros Hi. apply Hk; [auto|by left]. }
  assert (∀ b, owns w' jp b ↔ owns w jp b) as Ho.
  { intros b. unfold owns. by setoid_rewrite Hb. }
  split; [|done]. split; [split| | | |].
  - done.
  - intros Hi. apply Hk; [auto|by left].
  - intros bn Hbn. rewrite Hb. intros Hn. destruct (Hblk bn Hbn Hn). split; [|done]. apply Hk; [done|]. right. eauto.
  - intros bn bn'. rewrite !Hb. apply Hinj.
  - intros o Hor. rewrite <-F2 by done. unfold content. rewrite Hb.
    destruct (Z.eqb_spec (blk w jp (o / BSIZE)) 0) as [|Hn]; [done|].
    assert (0 <= o / BSIZE < MAXFILE) as Hr by (unfold MAXFILE, NDIRECT, NINDIRECT, BSIZE in *; mlia).
    f_equal. apply Hk; [by apply Hblk|]. right. eauto.
  - intros bn. rewrite Hb. apply F3.
  - done.
  - intros b. rewrite Ho. apply F5.
Qed.

Lemma owned_data w jp bs b : data_ok w jp bs → owns w jp b → b ≠ 0 → data_block mk_sb w b.
Proof.
  intros [F1 _ _ _ _] [->|(bn & Hbn & <-)] H0; [by apply (iwf_ind _ _ _ F1)|by apply (iwf_blk _ _ _ F1)].
Qed.

Lemma family_step w I L i ip w' ip' bs' :
  family w I L → I !! i = Some ip → frame mk_sb w ip w' ip' → data_ok w' ip' bs' →
  family w' (<[i := ip']> I) (<[i := bs']> L).
Proof.
  intros [Hl Hd Ha] Hi Hf Hd'.
  assert (∀ j jp, i ≠ j → I !! j = Some jp → ∃ bs, L !! j = Some bs ∧ data_ok w jp bs ∧ data_ok w' jp bs ∧
    (∀ b, owns w' jp b ↔ owns w jp b)) as Hother.
  { intros j jp Hne Hj. destruct (lookup_lt_is_Some_2 L j) as [bs Hbs]; [rewrite <-Hl; by eapply lookup_lt_Some|].
    pose proof (Hd j jp bs Hj Hbs) as Hjd. exists bs. split; [done|]. split; [done|].
    apply data_same; [done|]. intros b Hdb Ho. destruct (Hf b Hdb) as (? & ? & _); [|done].
    exact (Ha j i jp ip ltac:(done) Hj Hi b Hdb Ho). }
  assert (∀ j jp, i ≠ j → I !! j = Some jp → ∀ b, data_block mk_sb w' b → owns w' jp b → ¬ owns w' ip' b) as Hap.
  { intros j jp Hne Hj b Hdb Ho. destruct (Hother j jp Hne Hj) as (bs & _ & H1 & H2 & H3).
    apply H3 in Ho. assert (data_block mk_sb w b) as Hdw by (eapply owned_data; [exact H1|done|destruct Hdb; lia]).
    apply (Hf b Hdw). exact (Ha j i jp ip ltac:(done) Hj Hi b Hdw Ho). }
  pose proof (lookup_lt_Some _ _ _ Hi). split.
  - by rewrite !length_insert.
  - intros j jp bs Hj Hb. destruct (decide (i = j)) as [<-|Hne].
    + rewrite list_lookup_insert_eq in Hj by lia. rewrite list_lookup_insert_eq in Hb by lia. by simplify_eq.
    + rewrite list_lookup_insert_ne in Hj by done. rewrite list_lookup_insert_ne in Hb by done. destruct (Hother j jp Hne Hj) as (bs1 & Hb1 & _ & H2 & _).
      by simplify_eq.
  - intros j k jp kp Hjk Hj Hk b Hdb Ho Ho'. destruct (decide (i = j)) as [<-|Hij], (decide (i = k)) as [<-|Hik].
    + done.
    + rewrite list_lookup_insert_eq in Hj by lia. rewrite list_lookup_insert_ne in Hk by done. simplify_eq.
      exact (Hap k kp Hik Hk b Hdb Ho' Ho).
    + rewrite list_lookup_insert_eq in Hk by lia. rewrite list_lookup_insert_ne in Hj by done. simplify_eq.
      exact (Hap j jp Hij Hj b Hdb Ho Ho').
    + rewrite list_lookup_insert_ne in Hj by done. rewrite list_lookup_insert_ne in Hk by done.
      destruct (Hother j jp Hij Hj) as (bs & _ & H1 & _ & H3). destruct (Hother k kp Hik Hk) as (_ & _ & _ & _ & H4).
      apply H3 in Ho. apply H4 in Ho'.
      assert (data_block mk_sb w b) as Hdw by (eapply owned_data; [exact H1|done|destruct Hdb; lia]).
      exact (Ha j k jp kp Hjk Hj Hk b Hdw Ho Ho').
Qed.

Lemma family_keeps w w' I L : keeps_data mk_sb w w' → family w I L → family w' I L.
Proof.
  intros Hk [Hl Hd Ha].
  assert (∀ j jp, I !! j = Some jp → ∃ bs, L !! j = Some bs ∧ data_ok w jp bs ∧ data_ok w' jp bs ∧
    (∀ b, owns w' jp b ↔ owns w jp b)) as Hother.
  { intros j jp Hj. destruct (lookup_lt_is_Some_2 L j) as [bs Hbs]; [rewrite <-Hl; by eapply lookup_lt_Some|].
    pose proof (Hd j jp bs Hj Hbs) as Hjd. exists bs. split; [done|]. split; [done|].
    apply data_same; [done|]. intros b Hdb _. by apply Hk. }
  split; [done| |].
  - intros j jp bs Hj Hb. destruct (Hother j jp Hj) as (bs1 & Hb1 & _ & H2 & _). by simplify_eq.
  - intros j k jp kp Hjk Hj Hkk b Hdb Ho Ho'.
    destruct (Hother j jp Hj) as (bs & _ & H1 & _ & H3). destruct (Hother k kp Hkk) as (_ & _ & _ & _ & H4).
    apply H3 in Ho. apply H4 in Ho'.
    assert (data_block mk_sb w b) as Hdw by (eapply owned_data; [exact H1|done|destruct Hdb; lia]).
    exact (Ha j k jp kp Hjk Hj Hkk b Hdw Ho Ho').
Qed.

(** An empty file. *)
Lemma empty_data w ip : inode_ok ip → i_addrs ip = replicate 13 0 → data_ok w ip [] ∧ ∀ b, owns w ip b → b = 0.
Proof.
  intros Hok Ha.
  assert (ind ip = 0) as Hi by (unfold ind; by rewrite Ha).
  assert (∀ bn, blk w ip bn = 0) as Hb.
  { intros bn. unfold blk. rewrite Hi. destruct (bn <? NDIRECT); [|done].
    rewrite Ha. unfold aget. destruct (replicate 13 0 !! Z.to_nat bn) eqn:He; [|done].
    by apply lookup_replicate in He as [-> _]. }
  assert (∀ b, owns w ip b → b = 0) as Ho by (by intros b [->|(bn & _ & <-)]).
  split; [|done]. split; [split| | | |].
  - done.
  - by rewrite Hi.
  - intros bn _. by rewrite Hb.
  - intros bn bn' _ _. by rewrite Hb.
  - intros o Hor. unfold content. rewrite Hb. symmetry. apply aget_ge. change (zlen (@nil Z)) with 0. lia.
  - intros bn Hbn. rewrite Hb. change (nb0 (zlen (@nil Z))) with 0. lia.
  - by rewrite Hi.
  - intros b Hob. left. auto.
Qed.

(** *** Inodes on disk *)
(** Inode [n] on disk is [ip], of type [t] and size [z]. *)
Definition meta_ok (w : dview) (n : Z) (ip : inode) (t z : Z) : Prop :=
  disk_inode mk_sb w n (blank n) = ip ∧ i_type ip = t ∧ i_major ip = 0 ∧ i_minor ip = 0 ∧
  i_nlink ip = 1 ∧ i_size ip = z.

Lemma meta_inum w n ip t z : meta_ok w n ip t z → i_inum ip = n.
Proof. intros [<- _]. done. Qed.

Lemma meta_low w w' n ip t z : 0 <= n < 200 → low_same w w' → meta_ok w n ip t z → meta_ok w' n ip t z.
Proof.
  intros Hn Hl [H1 H2]. split; [|done]. rewrite <-H1. unfold disk_inode.
  rewrite Hl; [done|]. rewrite iblock_mk. mlia.
Qed.

Lemma with_blank n ip : i_inum ip = n → i_dev ip = 0 → i_ref ip = 0 → i_lock ip = false → i_valid ip = false →
  with_fields (blank n) ip = ip.
Proof. intros <- ? ? ? ?. destruct ip; simpl in *; by subst. Qed.

Lemma winode_ok s w fb fi n ip :
  rep s w fb fi → 0 <= n < 200 → i_inum ip = n → inode_ok ip →
  mok (winode n ip) s (λ _ s', rep s' (updated mk_sb w ip) fb fi) ∧
  dwf mk_sb (updated mk_sb w ip) ∧ keeps_data mk_sb w (updated mk_sb w ip).
Proof.
  intros R Hn Hin Hok. destruct (rp_range _ _ _ _ R) as [Hr _]. split.
  - unfold winode. apply mok_get. rewrite (rp_sb _ _ _ _ R), iblock_mk.
    eapply mok_bind; [eapply rsect_ok; [exact R|mlia|mlia]|]. intros d s' [-> ->].
    unfold updated. rewrite Hin, iblock_mk. eapply wsect_ok; [exact R|mlia|mlia|].
    destruct (dinode_off n) as [Ho1 Ho2]; [lia|].
    pose proof (rep_len _ _ _ _ R (n / 16 + 33)) as Hl.
    destruct (put_dinode_spec (w (n / 16 + 33)) (n mod IPB * DINODE) ip Hok Ho1) as (Hz & _).
    { unfold zlen. rewrite Hl. done. }
    unfold zlen in Hz. lia.
  - apply updated_keeps; [by eapply rep_dwf|done|]. rewrite mk_sb_eq. simpl. lia.
Qed.

Lemma rinode_ok s w fb fi n ip t z :
  rep s w fb fi → 0 <= n < 200 → meta_ok w n ip t z → mok (rinode n) s (λ ip' s', ip' = ip ∧ s' = s).
Proof.
  intros R Hn [Hd _]. unfold rinode. apply mok_get. rewrite (rp_sb _ _ _ _ R).
  eapply mok_bind; [eapply rsect_ok; [exact R|rewrite iblock_mk; mlia|rewrite iblock_mk; mlia]|].
  intros d s' [-> ->]. by apply mok_ret.
Qed.

Lemma meta_updated w ip n jp t z :
  (∀ b, length (w b) = Z.to_nat BSIZE) → inode_ok ip → 0 <= i_inum ip → 0 <= n → n ≠ i_inum ip →
  meta_ok w n jp t z → meta_ok (updated mk_sb w ip) n jp t z.
Proof.
  intros Hl Hok Hi Hn Hne [H1 H2]. split; [|done]. rewrite disk_inode_updated by done.
  by rewrite (proj2 (Z.eqb_neq _ _)).
Qed.

Lemma meta_new w ip t z :
  (∀ b, length (w b) = Z.to_nat BSIZE) → inode_ok ip → 0 <= i_inum ip → with_fields (blank (i_inum ip)) ip = ip →
  i_type ip = t → i_major ip = 0 → i_minor ip = 0 → i_nlink ip = 1 → i_size ip = z →
  meta_ok (updated mk_sb w ip) (i_inum ip) ip t z.
Proof.
  intros Hl Hok Hi Hw. intros. split; [|done]. rewrite disk_inode_updated by done. by rewrite Z.eqb_refl.
Qed.

(** *** The invariant *)
(** The type and the bytes of the files 1, 2, ... *)
Abbreviation mfiles := (list (Z * list Z)).
Fixpoint fblocks (L : mfiles) : Z :=
  match L with [] => 0 | (_, bs) :: L' => nblk (zlen bs) + fblocks L' end.

Lemma fblocks_insert L i t bs bs' :
  L !! i = Some (t, bs) → fblocks (<[i := (t, bs')]> L) = fblocks L - nblk (zlen bs) + nblk (zlen bs').
Proof.
  revert i. induction L as [|[t0 b0] L IH]; intros [|i] Hi; simplify_eq/=; [lia|]. rewrite IH by done. lia.
Qed.
Lemma fblocks_app L K : fblocks (L ++ K) = fblocks L + fblocks K.
Proof. induction L as [|[t0 b0] L IH]; simpl; lia. Qed.

Record minv (s : mkst) (L : mfiles) (w : dview) (I : list inode) : Prop := {
  mi_rep : rep s w (47 + fblocks L) (1 + zlen L);
  mi_sb : get_sb (w 1) = mk_sb;
  mi_fam : family w I L.*2;
  mi_meta i ip t bs : I !! i = Some ip → L !! i = Some (t, bs) → meta_ok w (Z.of_nat i + 1) ip t (zlen bs)
}.
Definition mkfs_inv (s : mkst) (L : mfiles) : Prop := ∃ w I, minv s L w I.

Lemma minv_len s L w I : minv s L w I → length I = length L.
Proof. intros M. rewrite (fam_len _ _ _ (mi_fam _ _ _ _ M)). apply length_fmap. Qed.

Lemma minv_range s L w I : minv s L w I → zlen L <= 199.
Proof. intros M. destruct (rp_range _ _ _ _ (mi_rep _ _ _ _ M)). lia. Qed.

Lemma data_size w ip bs z : uint_ok z → data_ok w ip bs → data_ok w (set_i_size z ip) bs.
Proof.
  intros Hz [F1 F2 F3 F4 F5]. split; [by apply iwf_size|exact F2|exact F3|exact F4|exact F5].
Qed.

Lemma updated_sb w ip : 0 <= i_inum ip → updated mk_sb w ip 1 = w 1.
Proof. intros. unfold updated. rewrite vset_ne; [done|]. rewrite iblock_mk. mlia. Qed.

Lemma iappend_ok s L i t bs p :
  mkfs_inv s L → L !! i = Some (t, bs) → zlen bs + zlen p <= MAXFILE * BSIZE →
  47 + fblocks (<[i := (t, bs ++ p)]> L) <= 2000 →
  mok (iappend (Z.of_nat i + 1) p) s (λ _ s', mkfs_inv s' (<[i := (t, bs ++ p)]> L)).
Proof.
  intros (w & I & Mi) Hi Hmax Hfb. pose proof Mi as [R Hsb Hfam Hmeta].
  pose proof (minv_range _ _ _ _ Mi) as Hr. pose proof (minv_len _ _ _ _ Mi) as Hlen.
  pose proof (lookup_lt_Some _ _ _ Hi) as Hil.
  destruct (lookup_lt_is_Some_2 I i) as [ip Hip]; [lia|].
  assert (L.*2 !! i = Some bs) as Hbs by (rewrite list_lookup_fmap, Hi; done).
  pose proof (Hmeta i ip t bs Hip Hi) as Hm. pose proof (fam_data _ _ _ Hfam i ip bs Hip Hbs) as Hd.
  rewrite (fblocks_insert L i t bs) in Hfb by done. rewrite zlen_app in Hfb.
  assert (0 <= Z.of_nat i + 1 < 200) as Hn by (unfold zlen in Hr; lia).
  pose proof (zlen_nonneg bs) as Hz0. pose proof (zlen_nonneg p) as Hz1.
  change MAXFILE with 268 in Hmax. change BSIZE with 1024 in Hmax.
  unfold iappend. eapply mok_bind; [by eapply rinode_ok|]. intros ip' s' [-> ->].
  pose proof Hm as (Hm1 & Hm2 & Hm3 & Hm4 & Hm5 & Hm6). rewrite Hm6, xint_small by lia.
  eapply mok_bind.
  { apply (iappend_loop_ok _ s w (47 + fblocks L) (1 + zlen L)); [exact R|exact Hd|lia|done|lia]. }
  intros [ip1 off] s1 (Hoff & Hs1 & w1 & R1 & D1 & Fr & Lo). simpl in *. subst off.
  rewrite xint_small by lia. set (ip2 := set_i_size (zlen bs + zlen p) ip1).
  assert (data_ok w1 ip2 (bs ++ p)) as D2 by (apply data_size; [unfold uint_ok; lia|done]).
  pose proof (iwf_ok _ _ _ (fd_iwf _ _ _ _ _ D2)) as Hok2.
  assert (i_inum ip2 = Z.of_nat i + 1) as Hin by (unfold ip2; simpl; rewrite Hs1; simpl; by eapply meta_inum).
  destruct (winode_ok s1 w1 _ _ (Z.of_nat i + 1) ip2 R1 Hn Hin Hok2) as (W & _ & Hk).
  eapply mok_mono; [exact W|]. intros u s2 R2. simpl in R2. clear u.
  assert (with_fields (blank (Z.of_nat i + 1)) ip2 = ip2) as Hw2.
  { apply with_blank; [done|..]; unfold ip2; simpl; rewrite Hs1; simpl; by rewrite <-Hm1. }
  assert (i_type ip2 = t ∧ i_major ip2 = 0 ∧ i_minor ip2 = 0 ∧ i_nlink ip2 = 1) as Hf2
    by (unfold ip2; simpl; rewrite Hs1; simpl; done).
  exists (updated mk_sb w1 ip2), (<[i := ip2]> I). split.
  - eapply rep_eq; [exact R2| |].
    + rewrite (fblocks_insert L i t bs), zlen_app by done. lia.
    + unfold zlen. by rewrite length_insert.
  - rewrite updated_sb by lia. by rewrite (Lo 1) by lia.
  - rewrite list_fmap_insert. simpl. eapply family_keeps; [exact Hk|].
    eapply family_step; [exact Hfam|done|exact Fr|done].
  - intros j jp t' bs' Hj Hb. destruct (decide (i = j)) as [<-|Hne].
    + rewrite list_lookup_insert_eq in Hj by lia. rewrite list_lookup_insert_eq in Hb by lia.
      injection Hb as <- <-. injection Hj as <-. rewrite <-Hin, zlen_app.
      destruct Hf2 as (T1 & T2 & T3 & T4).
      apply meta_new; [intros b; eapply rep_len; exact R1|done|lia|by rewrite Hin|done..].
    + rewrite list_lookup_insert_ne in Hj by done. rewrite list_lookup_insert_ne in Hb by done.
      apply meta_updated; [intros b; eapply rep_len; exact R1|done|lia|lia|lia|].
      apply (meta_low w); [|done|by apply (Hmeta j)].
      apply lookup_lt_Some in Hb. unfold zlen in Hr. lia.
Qed.

Lemma family_snoc w I L ip :
  family w I L → data_ok w ip [] → (∀ b, owns w ip b → b = 0) → family w (I ++ [ip]) (L ++ [[]]).
Proof.
  intros [Hl Hd Ha] Hip Ho. split.
  - rewrite !length_app. simpl. lia.
  - intros i jp bs Hi Hb. destruct (decide (i < length I)%nat).
    + rewrite lookup_app_l in Hi by lia. rewrite lookup_app_l in Hb by lia. by apply (Hd i).
    + rewrite lookup_app_r in Hi by lia. rewrite lookup_app_r in Hb by lia. rewrite Hl in Hi.
      apply list_lookup_singleton_Some in Hi as [_ <-]. by apply list_lookup_singleton_Some in Hb as [_ <-].
  - assert (∀ i jp, (I ++ [ip]) !! i = Some jp → I !! i = Some jp ∨ jp = ip ∧ i = length I) as Hc.
    { intros i jp [?|[Hge Hi]]%lookup_app_Some; [by left|]. apply list_lookup_singleton_Some in Hi as [? <-].
      right. split; [done|]. lia. }
    intros i j jp kp Hij Hi Hj b Hdb H1 H2.
    destruct (Hc i jp Hi) as [Hi'|[-> ->]], (Hc j kp Hj) as [Hj'|[-> ->]].
    + by apply (Ha i j jp kp Hij Hi' Hj' b).
    + apply Ho in H2. destruct Hdb. lia.
    + apply Ho in H1. destruct Hdb. lia.
    + done.
Qed.

Lemma rep_set_fi s w fb fi : rep s w fb fi → fi < 200 → rep (set_m_fi (fi + 1) s) w fb (fi + 1).
Proof. intros [? ? ? ? ? ? ? ? ? [? ?]] Hf. split; try done. lia. Qed.

Lemma ialloc_ok s L t :
  mkfs_inv s L → zlen L < 199 → 0 <= t < 32768 →
  mok (ialloc t) s (λ n s', n = zlen L + 1 ∧ mkfs_inv s' (L ++ [(t, [])])).
Proof.
  intros (w & I & Mi) Hlt Ht. pose proof Mi as [R Hsb Hfam Hmeta].
  pose proof (minv_len _ _ _ _ Mi) as Hlen. pose proof (zlen_nonneg L) as H0.
  unfold ialloc. apply mok_get. rewrite (rp_fi _ _ _ _ R). apply mok_mod. rewrite u32_small by lia.
  apply (rep_set_fi _ _ _ _) in R; [|lia].
  change (i16 (xshort 1)) with 1. change (xint 0) with 0. rewrite xshort_u16, i16_u16 by (unfold short_ok; lia).
  set (n := 1 + zlen L) in *. set (ip := set_i_size 0 (set_i_nlink 1 (set_i_type t (blank n)))).
  assert (inode_ok ip) as Hok.
  { unfold inode_ok, short_ok. simpl. split_and!; try lia; try done. repeat constructor; lia. }
  destruct (winode_ok _ w _ _ n ip R) as (W & _ & Hk); [lia|done|done|].
  eapply mok_bind; [exact W|]. intros u s2 R2. simpl in R2. clear u. apply mok_ret. split; [lia|].
  exists (updated mk_sb w ip), (I ++ [ip]). destruct (empty_data (updated mk_sb w ip) ip Hok eq_refl) as [De Do].
  split.
  - eapply rep_eq; [exact R2| |].
    + rewrite fblocks_app. cbn [fblocks]. change (nblk (zlen (@nil Z))) with 0. lia.
    + rewrite zlen_app. change (zlen [(t, [] : list Z)]) with 1. lia.
  - rewrite updated_sb by (simpl; lia). done.
  - rewrite fmap_app. apply family_snoc; [|done|done]. by eapply family_keeps.
  - intros j jp t' bs Hj Hb. destruct (decide (j < length I)%nat) as [Hjl|].
    + rewrite lookup_app_l in Hj by lia. rewrite lookup_app_l in Hb by lia.
      apply meta_updated; [intros b; eapply rep_len; exact R|done|simpl; lia|lia| |by apply Hmeta].
      simpl. unfold n, zlen. lia.
    + assert (j = length I) as ->.
      { apply lookup_lt_Some in Hj. rewrite length_app in Hj. simpl in Hj. lia. }
      rewrite lookup_app_r, Nat.sub_diag in Hj by lia. rewrite lookup_app_r, Hlen, Nat.sub_diag in Hb by lia.
      injection Hj as <-. injection Hb as <- <-.
      replace (Z.of_nat (length I) + 1) with (i_inum ip) by (simpl; unfold n, zlen; lia).
      apply meta_new; [intros b; eapply rep_len; exact R|done|simpl; lia|done..].
Qed.

(** *** One file of the command line *)
Definition arg_name (a : list Z) : list Z := no_underscore (no_user a).
Fixpoint read_all (reads : list (list Z)) : list Z :=
  match reads with
  | [] => []
  | b :: r => if 0 <? zlen b then b ++ read_all r else []
  end.
Definition arg_bytes (h : host) (a : list Z) : list Z :=
  match h_open h a with Some r => read_all r | None => [] end.
(** A name without '/' that fits, of a file that opens and is not too large. *)
Definition arg_ok (h : host) (a : list Z) : Prop :=
  47 ∉ no_user a ∧ is_Some (h_open h a) ∧ zlen (arg_name a) <= Z.of_nat DIRSIZ ∧
  zlen (arg_bytes h a) <= MAXFILE * BSIZE.

Lemma fblocks_grow L i t bs p q :
  L !! i = Some (t, bs) → 47 + fblocks (<[i := (t, bs ++ p ++ q)]> L) <= 2000 →
  47 + fblocks (<[i := (t, bs ++ p)]> L) <= 2000.
Proof.
  intros Hi. rewrite !(fblocks_insert L i t bs) by done. rewrite !zlen_app.
  pose proof (zlen_nonneg bs). pose proof (zlen_nonneg p). pose proof (zlen_nonneg q).
  pose proof (nblk_mono (zlen bs + zlen p) (zlen bs + (zlen p + zlen q)) ltac:(lia)). lia.
Qed.

Lemma copy_file_ok reads : ∀ s L i t bs,
  mkfs_inv s L → L !! i = Some (t, bs) → zlen bs + zlen (read_all reads) <= MAXFILE * BSIZE →
  47 + fblocks (<[i := (t, bs ++ read_all reads)]> L) <= 2000 →
  mok (copy_file (Z.of_nat i + 1) reads) s (λ _ s', mkfs_inv s' (<[i := (t, bs ++ read_all reads)]> L)).
Proof.
  induction reads as [|b reads IH]; intros s L i t bs Hs Hi Hl Hf; cbn [copy_file read_all] in *.
  { apply mok_ret. by rewrite app_nil_r, list_insert_id. }
  destruct (Z.ltb_spec 0 (zlen b)); [|apply mok_ret; by rewrite app_nil_r, list_insert_id].
  rewrite zlen_app in Hl. pose proof (zlen_nonneg (read_all reads)).
  eapply mok_bind.
  { eapply iappend_ok; [done|exact Hi|lia|]. by eapply fblocks_grow. }
  intros [] s' Hs'. simpl in Hs'. pose proof (lookup_lt_Some _ _ _ Hi).
  eapply mok_mono.
  - eapply (IH s' _ i t (bs ++ b)); [exact Hs'|by rewrite list_lookup_insert_eq by lia|rewrite zlen_app; lia|].
    by rewrite list_insert_insert_eq, <-app_assoc.
  - intros [] s2. by rewrite list_insert_insert_eq, <-app_assoc.
Qed.

Lemma mkdirent_len n name : zlen (mkdirent n name) = 16.
Proof.
  unfold mkdirent. rewrite zlen_app. change (zlen (le16 (xshort n))) with 2.
  unfold zlen. rewrite length_take, length_app, length_replicate. unfold DIRSIZ. lia.
Qed.

(** The directory entries of [args], the first with inode number [n]. *)
Fixpoint entries (n : Z) (args : list (list Z)) : list Z :=
  match args with [] => [] | a :: r => mkdirent n (arg_name a) ++ entries (n + 1) r end.
Definition arg_file (h : host) (a : list Z) : Z * list Z := (T_FILE, arg_bytes h a).

Lemma entries_len args : ∀ n, zlen (entries n args) = 16 * zlen args.
Proof.
  induction args as [|a r IH]; intros n; [done|]. cbn [entries]. rewrite zlen_app, mkdirent_len, IH.
  unfold zlen. simpl. lia.
Qed.

Lemma fblocks_nonneg L : 0 <= fblocks L.
Proof.
  induction L as [|[t bs] L IH]; simpl; [lia|]. pose proof (nblk_mono 0 (zlen bs)) as Hm.
  change (nblk 0) with 0 in Hm. pose proof (zlen_nonneg bs). lia.
Qed.

Lemma add_file_ok h s t root fs a :
  mkfs_inv s ((t, root) :: fs) → zlen fs < 198 → zlen root + 16 <= MAXFILE * BSIZE → arg_ok h a →
  47 + fblocks ((t, root ++ mkdirent (zlen fs + 2) (arg_name a)) :: fs ++ [arg_file h a]) <= 2000 →
  mok (add_file h 1 a) s (λ _ s',
    mkfs_inv s' ((t, root ++ mkdirent (zlen fs + 2) (arg_name a)) :: fs ++ [arg_file h a])).
Proof.
  intros Hs Hl Hroot (H47 & [reads Hop] & Hname & Hbytes) Hf. unfold add_file.
  unfold arg_file, arg_bytes, arg_name in *. rewrite Hop in *.
  set (name := no_underscore (no_user a)) in *.
  apply mok_assert; [by apply bool_decide_eq_true_2|]. apply mok_assert; [by apply Z.leb_le|].
  assert (zlen ((t, root) :: fs) = zlen fs + 1) as Hzl by (unfold zlen; simpl; lia).
  eapply mok_bind; [eapply ialloc_ok; [exact Hs|lia|unfold T_FILE; lia]|].
  intros n s1 [-> H1]. rewrite Hzl. replace (zlen fs + 1 + 1) with (zlen fs + 2) by lia.
  cbn [fblocks] in Hf. rewrite fblocks_app in Hf. cbn [fblocks] in Hf. pose proof (zlen_nonneg (read_all reads)).
  pose proof (nblk_mono 0 (zlen (read_all reads)) ltac:(lia)) as Hm. change (nblk 0) with 0 in Hm.
  eapply mok_bind.
  { eapply (iappend_ok s1 _ 0); [exact H1|done|by rewrite mkdirent_len|].
    cbn [app insert list_insert]. cbn [fblocks]. rewrite fblocks_app. cbn [fblocks].
    change (nblk (zlen (@nil Z))) with 0. lia. }
  intros [] s2 H2. simpl in H2.
  pose proof (copy_file_ok reads s2 _ (S (length fs)) T_FILE [] H2) as Hc.
  replace (Z.of_nat (S (length fs)) + 1) with (zlen fs + 2) in Hc by (unfold zlen; lia).
  assert (∀ x, (fs ++ [x]) !! length fs = Some x) as Hlast.
  { intros x. by rewrite lookup_app_r, Nat.sub_diag by lia. }
  assert (∀ x y : Z * list Z, <[length fs := y]> (fs ++ [x]) = fs ++ [y]) as Hins.
  { intros x y. rewrite insert_app_r_alt, Nat.sub_diag by lia. done. }
  simpl in Hc. rewrite Hins in Hc. apply Hc; [apply Hlast|done|].
  cbn [fblocks]. rewrite fblocks_app. cbn [fblocks]. lia.
Qed.

Lemma add_files_ok h args : ∀ s t root fs,
  mkfs_inv s ((t, root) :: fs) → zlen fs + zlen args < 199 → Forall (arg_ok h) args →
  zlen root + 16 * zlen args <= MAXFILE * BSIZE →
  47 + fblocks ((t, root ++ entries (zlen fs + 2) args) :: fs ++ (arg_file h <$> args)) <= 2000 →
  mok (add_files h 1 args) s (λ _ s',
    mkfs_inv s' ((t, root ++ entries (zlen fs + 2) args) :: fs ++ (arg_file h <$> args))).
Proof.
  induction args as [|a args IH]; intros s t root fs Hs Hl Hok Hr Hf; cbn [add_files entries fmap list_fmap] in *.
  { apply mok_ret. by rewrite !app_nil_r. }
  apply Forall_cons_1 in Hok as [Ha Hok]. pose proof (zlen_nonneg args).
  assert (zlen (a :: args) = zlen args + 1) as Hz by (unfold zlen; simpl; lia).
  set (root' := root ++ mkdirent (zlen fs + 2) (arg_name a)). set (fs' := fs ++ [arg_file h a]).
  assert (zlen fs' = zlen fs + 1) as Hfs by (unfold fs'; rewrite zlen_app; done).
  assert (root ++ mkdirent (zlen fs + 2) (arg_name a) ++ entries (zlen fs + 2 + 1) args =
          root' ++ entries (zlen fs' + 2) args) as Er.
  { unfold root'. rewrite <-app_assoc, Hfs. do 2 f_equal. f_equal. lia. }
  assert (fs ++ arg_file h a :: (arg_file h <$> args) = fs' ++ (arg_file h <$> args)) as Ef
    by (unfold fs'; by rewrite <-app_assoc).
  rewrite Er, Ef in *.
  eapply mok_bind.
  { eapply (add_file_ok h s t root fs); [done|lia|lia|done|]. fold root' fs'.
    cbn [fblocks] in *. rewrite fblocks_app, zlen_app in Hf. pose proof (fblocks_nonneg (arg_file h <$> args)).
    pose proof (zlen_nonneg root'). pose proof (zlen_nonneg (entries (zlen fs' + 2) args)).
    pose proof (nblk_mono (zlen root') (zlen root' + zlen (entries (zlen fs' + 2) args)) ltac:(lia)). lia. }
  intros [] s' Hs'. fold root' fs' in Hs'.
  apply (IH s' t root' fs'); [done|lia|done| |done].
  unfold root'. rewrite zlen_app, mkdirent_len. lia.
Qed.

(** *** The whole program *)
Lemma zero_image_ok n : ∀ s, (n <= 2000)%nat → m_img s = [] →
  mok (zero_image n) s (λ _ s', s' = set_m_img (replicate n zero_block) s).
Proof.
  induction n as [|n IH]; intros s Hn Hs; cbn [zero_image].
  { apply mok_ret. destruct s; simpl in *. by subst. }
  eapply mok_bind; [apply IH; [lia|done]|]. intros [] s' ->.
  unfold mok, wsect, mmod. rewrite sector_small, Nat2Z.id by lia. simpl.
  unfold put_sector. rewrite decide_False by (rewrite length_replicate; lia).
  rewrite length_replicate, Nat.sub_diag. simpl. unfold set_m_img. simpl. f_equal.
  by rewrite <-replicate_S_end.
Qed.

Lemma sb_roundtrip : get_sb (put_sb mk_sb zero_block) = mk_sb ∧ length (put_sb mk_sb zero_block) = Z.to_nat BSIZE.
Proof. split; by vm_compute. Qed.

(** The state after the super block is written. *)
Definition mk_start : mkst :=
  mkMk (<[1%nat := put_sb mk_sb zero_block]> (replicate (Z.to_nat FSSIZE) zero_block)) mk_sb 1 nmeta.

Lemma nmeta_47 : nmeta = 47.
Proof. by vm_compute. Qed.

Lemma start_view b : 0 <= b → b ≠ 1 → view mk_start b = zero_block.
Proof.
  intros Hb Hne. unfold view, mk_start. cbn [m_img]. rewrite list_lookup_insert_ne by lia.
  destruct (replicate _ zero_block !! Z.to_nat b) eqn:He; [|done]. by apply lookup_replicate in He as [-> _].
Qed.
Lemma start_view1 : view mk_start 1 = put_sb mk_sb zero_block.
Proof.
  unfold view, mk_start. cbn [m_img]. rewrite list_lookup_insert_eq; [done|].
  rewrite length_replicate. change FSSIZE with 2000. lia.
Qed.

Lemma start_inv : mkfs_inv mk_start [].
Proof.
  exists (vset 46 (mark_used 47) (λ b, if b <? 0 then zero_block else view mk_start b)), []. split.
  - split; try done; change (47 + fblocks []) with 47; change (1 + zlen (@nil (Z * list Z))) with 1.
    + intros b. destruct (decide (Z.to_nat b = 1)%nat) as [He|He].
      * unfold view. rewrite He. change (default zero_block (m_img mk_start !! 1%nat)) with (view mk_start 1).
        rewrite start_view1. apply sb_roundtrip.
      * unfold view. replace (Z.to_nat b) with (Z.to_nat (Z.max 0 b)) by lia.
        change (length (view mk_start (Z.max 0 b)) = Z.to_nat BSIZE).
        rewrite start_view by lia. apply zero_block_len.
    + intros b Hb Hne. rewrite vset_ne by done. by rewrite (proj2 (Z.ltb_ge _ _)).
    + intros b Hb. rewrite vset_ne by lia. by rewrite (proj2 (Z.ltb_lt _ _)).
    + intros b Hb. rewrite vset_ne by lia. rewrite (proj2 (Z.ltb_ge _ _)) by lia. apply start_view; lia.
  - rewrite vset_ne by done. simpl (1 <? 0). cbv iota. rewrite start_view1. apply sb_roundtrip.
  - split; [done| |]; intros i; by intros.
  - by intros i.
Qed.

(** The sectors of an image. *)
Definition blocks (img : list block) : dview := λ b, default zero_block (img !! Z.to_nat b).

(** A consistent file system with the files [L], the size of the first one [z]. *)
Record image_ok (img : list block) (L : mfiles) (z : Z) : Prop := {
  im_len : length img = Z.to_nat FSSIZE;
  im_sb : get_sb (blocks img 1) = mk_sb;
  im_dwf : dwf mk_sb (blocks img);
  im_used b : 0 <= b < FSSIZE → used mk_sb (blocks img) b = (b <? nmeta + fblocks L);
  im_inode i t bs : L !! i = Some (t, bs) →
    let n := Z.of_nat i + 1 in let ip := disk_inode mk_sb (blocks img) n (blank n) in
    meta_ok (blocks img) n ip t (if (i =? 0)%nat then z else zlen bs) ∧ data_ok (blocks img) ip bs;
  im_apart i j : i ≠ j → (i < length L)%nat → (j < length L)%nat →
    apart (blocks img) (disk_inode mk_sb (blocks img) (Z.of_nat i + 1) (blank (Z.of_nat i + 1)))
      (disk_inode mk_sb (blocks img) (Z.of_nat j + 1) (blank (Z.of_nat j + 1)))
}.

Lemma image_intro img w I L z :
  length img = Z.to_nat FSSIZE → (∀ b, 0 <= b → blocks img b = w b) → dwf mk_sb w → get_sb (w 1) = mk_sb →
  (∀ b, 0 <= b < FSSIZE → used mk_sb w b = (b <? nmeta + fblocks L)) → family w I L.*2 →
  (∀ i ip t bs, I !! i = Some ip → L !! i = Some (t, bs) →
     meta_ok w (Z.of_nat i + 1) ip t (if (i =? 0)%nat then z else zlen bs)) →
  zlen L <= 199 → image_ok img L z.
Proof.
  intros Hlen Hv Hd Hsb Hu Hfam Hmeta HL. pose proof (fam_len _ _ _ Hfam) as HIL. rewrite length_fmap in HIL.
  assert (∀ b, 0 <= b < FSSIZE → used mk_sb (blocks img) b = used mk_sb w b) as Hue.
  { intros b Hb. change FSSIZE with 2000 in Hb. unfold used. rewrite bblock_mk by lia. by rewrite Hv. }
  assert (keeps_data mk_sb w (blocks img)) as Hk.
  { intros b (Hb & Hub & Hm). rewrite Hv by lia. split; [done|]. split_and!; [lia|lia| |done].
    rewrite Hue; [done|]. rewrite mk_sb_eq in Hb. simpl in Hb. change FSSIZE with 2000. lia. }
  pose proof (family_keeps _ _ _ _ Hk Hfam) as Hf.
  assert (∀ i ip t bs, I !! i = Some ip → L !! i = Some (t, bs) →
     meta_ok (blocks img) (Z.of_nat i + 1) ip t (if (i =? 0)%nat then z else zlen bs)) as Hm.
  { intros i ip t bs Hi Hb. destruct (Hmeta i ip t bs Hi Hb) as [H1 H2]. split; [|done]. rewrite <-H1.
    unfold disk_inode. rewrite Hv; [done|]. rewrite iblock_mk. mlia. }
  assert (∀ i, (i < length L)%nat → ∃ ip, I !! i = Some ip ∧
    disk_inode mk_sb (blocks img) (Z.of_nat i + 1) (blank (Z.of_nat i + 1)) = ip) as Hget.
  { intros i Hi. destruct (lookup_lt_is_Some_2 I i) as [ip Hip]; [lia|].
    destruct (lookup_lt_is_Some_2 L i) as [[t bs] Hb]; [lia|]. exists ip. split; [done|]. by apply (Hm i ip t bs). }
  split.
  - done.
  - by rewrite Hv.
  - split; try apply Hd.
    + intros b. unfold blocks. replace (Z.to_nat b) with (Z.to_nat (Z.max 0 b)) by lia.
      change (length (blocks img (Z.max 0 b)) = Z.to_nat BSIZE). rewrite Hv by lia. apply Hd.
    + intros b Hb. assert (0 <= b < FSSIZE) by (rewrite mk_sb_eq in Hb; simpl in Hb; change FSSIZE with 2000; lia).
      rewrite Hue by done. by apply Hd.
  - intros b Hb. rewrite Hue by done. by apply Hu.
  - intros i t bs Hb n ip. destruct (Hget i) as (jp & Hj & He); [by eapply lookup_lt_Some|].
    unfold ip, n. rewrite He. split; [by apply (Hm i jp t bs)|].
    apply (fam_data _ _ _ Hf i jp); [done|]. by rewrite list_lookup_fmap, Hb.
  - intros i j Hne Hi Hj. destruct (Hget i Hi) as (ip & Hip & ->). destruct (Hget j Hj) as (jp & Hjp & ->).
    exact (fam_apart _ _ _ Hf i j ip jp Hne Hip Hjp).
Qed.

Lemma family_size w ip I L z : uint_ok z → family w (ip :: I) L → family w (set_i_size z ip :: I) L.
Proof.
  intros Hz [Hl Hd Ha]. split; [done| |].
  - intros [|i] jp bs Hi Hb; [|by apply (Hd (S i))]. injection Hi as <-. apply data_size; [done|].
    by apply (Hd 0%nat).
  - intros [|i] [|j] jp kp Hne Hi Hj; [done| | |].
    + injection Hi as <-. exact (Ha 0%nat (S j) ip kp Hne eq_refl Hj).
    + injection Hj as <-. exact (Ha (S i) 0%nat jp ip Hne Hi eq_refl).
    + exact (Ha (S i) (S j) jp kp Hne Hi Hj).
Qed.

(** The end of [main]: the size of the root directory and the bitmap. *)
Definition finish : MK unit :=
  din ← rinode ROOTINO;
  let off := xint (i_size din) in
  let off := u32 ((off / BSIZE + 1) * BSIZE) in
  _ ← winode ROOTINO (set_i_size (xint off) din);
  b ← mget m_fb;
  balloc b.

Lemma balloc_ok s w fb fi : rep s w fb fi →
  mok (balloc fb) s (λ _ s', length (m_img s') = Z.to_nat FSSIZE ∧ ∀ b, 0 <= b → blocks (m_img s') b = w b).
Proof.
  intros R. destruct (rp_range _ _ _ _ R) as [Hfb _]. unfold balloc.
  apply mok_assert; [apply Z.ltb_lt; change BPB with 8192; lia|]. apply mok_get. rewrite (rp_sb _ _ _ _ R).
  change (sb_bmapstart mk_sb) with 46. unfold mok, wsect, mmod. rewrite sector_small by lia. split.
  - simpl. unfold put_sector. rewrite decide_True by (rewrite (rp_len _ _ _ _ R); lia).
    rewrite length_insert. apply R.
  - intros b Hb. pose proof (put_view _ _ _ _ R 46 (mark_used (Z.to_nat fb)) b ltac:(lia) Hb) as Hp.
    change (blocks (m_img ?s) b) with (view s b). rewrite Hp. unfold vset. case_decide as He.
    + subst b. by rewrite (rp_map _ _ _ _ R).
    + symmetry. by apply (rp_view _ _ _ _ R).
Qed.

Lemma finish_ok s t root fs :
  mkfs_inv s ((t, root) :: fs) → zlen root <= MAXFILE * BSIZE →
  mok finish s (λ _ s', image_ok (m_img s') ((t, root) :: fs) ((zlen root / BSIZE + 1) * BSIZE)).
Proof.
  intros (w & I & Mi) Hr. pose proof Mi as [R Hsb Hfam Hmeta].
  pose proof (minv_len _ _ _ _ Mi) as Hlen. pose proof (minv_range _ _ _ _ Mi) as Hrange.
  destruct I as [|ip I]; [done|].
  pose proof (Hmeta 0%nat ip t root eq_refl eq_refl) as Hm. simpl (Z.of_nat 0 + 1) in Hm.
  unfold finish. change ROOTINO with 1. eapply mok_bind; [eapply rinode_ok; [exact R|lia|exact Hm]|]. intros ip' s' [-> ->].
  pose proof Hm as (Hm1 & Hm2 & Hm3 & Hm4 & Hm5 & Hm6). pose proof (zlen_nonneg root).
  change MAXFILE with 268 in Hr. change BSIZE with 1024 in *.
  rewrite Hm6, (xint_small (zlen root)), u32_small, xint_small by mlia.
  set (z := (zlen root / 1024 + 1) * 1024). assert (uint_ok z) as Hz by (unfold z, uint_ok; mlia).
  set (ip2 := set_i_size z ip).
  pose proof (fam_data _ _ _ Hfam 0%nat ip root eq_refl eq_refl) as Hd.
  pose proof (iwf_ok _ _ _ (fd_iwf _ _ _ _ _ (data_size _ _ _ z Hz Hd))) as Hok2. fold ip2 in Hok2.
  assert (i_inum ip2 = 1) as Hin by exact (meta_inum _ _ _ _ _ Hm).
  destruct (winode_ok s w _ _ 1 ip2 R ltac:(lia) Hin Hok2) as (W & Hdw & Hk).
  eapply mok_bind; [exact W|]. intros u s2 R2. simpl in R2. clear u.
  apply mok_get. rewrite (rp_fb _ _ _ _ R2).
  eapply mok_mono; [apply (balloc_ok _ _ _ _ R2)|]. intros u s3 [Hl3 Hv]. clear u.
  apply (image_intro _ (updated mk_sb w ip2) (ip2 :: I)); [done|done|done| | | | |done].
  - rewrite updated_sb by lia. done.
  - intros b Hb. by apply (rep_used _ _ _ _ R2).
  - apply family_size; [done|]. by apply (family_keeps w).
  - assert (∀ b, length (w b) = Z.to_nat BSIZE) as Hwl by (intros b; eapply rep_len; exact R).
    intros [|j] jp u bs Hj Hb.
    + injection Hj as <-. injection Hb as <- <-. rewrite <-Hin. simpl (Z.of_nat 0 + 1).
      apply meta_new; [done|done|lia| |done..]. rewrite Hin. unfold ip2. rewrite <-Hm1. done.
    + apply meta_updated; [done|done|lia|lia|rewrite Hin; lia|]. by apply Hmeta.
Qed.

Lemma main_ok h prog img args :
  h_img h = true → Forall (arg_ok h) args → zlen args <= 198 →
  let root := mkdirent 1 [46] ++ mkdirent 1 [46; 46] ++ entries 2 args in
  let L := (T_DIR, root) :: (arg_file h <$> args) in
  nmeta + fblocks L <= FSSIZE →
  mok (main h (prog :: img :: args)) boot (λ _ s, image_ok (m_img s) L ((zlen root / BSIZE + 1) * BSIZE)).
Proof.
  intros Hh Hok Hn root L Hf. rewrite nmeta_47 in Hf. change FSSIZE with 2000 in Hf. unfold L in Hf. cbn [fblocks] in Hf.
  assert (zlen root = 32 + 16 * zlen args) as Hrl.
  { unfold root. rewrite !zlen_app, !mkdirent_len, entries_len. lia. }
  pose proof (zlen_nonneg args). pose proof (fblocks_nonneg (arg_file h <$> args)).
  assert (nblk 16 = 1) as N1 by done. assert (nblk 32 = 1) as N2 by done.
  pose proof (nblk_mono 32 (zlen root) ltac:(lia)) as Hmono.
  unfold main. rewrite Hh. cbn [negb]. apply mok_mod.
  eapply mok_bind; [apply zero_image_ok; [change FSSIZE with 2000; lia|done]|]. intros [] s1 ->. apply mok_get.
  eapply (mok_bind _ _ _ (λ _ s, s = mk_start)).
  { unfold mok, wsect, mmod. rewrite sector_small by lia. simpl (m_sb _). unfold mk_start.
    cbn [m_img set_m_img]. unfold put_sector.
    rewrite decide_True by (rewrite length_replicate; change FSSIZE with 2000; lia). done. }
  intros [] s2 ->. change MAXFILE with 268 in *. change BSIZE with 1024 in *.
  eapply mok_bind; [eapply ialloc_ok; [exact start_inv|done|done]|].
  intros n s3 [-> H3]. change (zlen (@nil (Z * list Z)) + 1) with 1. apply mok_assert; [done|].
  eapply mok_bind; [eapply (iappend_ok s3 _ 0); [exact H3|done|rewrite mkdirent_len; done|]|].
  { cbn [app insert list_insert fblocks]. rewrite mkdirent_len. lia. }
  intros [] s4 H4. cbn [app insert list_insert] in H4.
  eapply mok_bind; [eapply (iappend_ok s4 _ 0); [exact H4|done|rewrite !mkdirent_len; done|]|].
  { cbn [app insert list_insert fblocks]. rewrite zlen_app, !mkdirent_len. change (nblk (16 + 16)) with 1. lia. }
  intros [] s5 H5. cbn [app insert list_insert] in H5.
  eapply mok_bind.
  { eapply (add_files_ok h args s5 T_DIR _ []); [exact H5|change (zlen (@nil (Z * list Z))) with 0; lia|done| |].
    - rewrite zlen_app, !mkdirent_len. change MAXFILE with 268. change BSIZE with 1024. lia.
    - change (zlen (@nil (Z * list Z)) + 2) with 2. rewrite <-app_assoc. fold root. cbn [app fblocks]. lia. }
  intros [] s6 H6. cbn [app] in H6. change (zlen (@nil (Z * list Z)) + 2) with 2 in H6.
  rewrite <-app_assoc in H6. fold root L in H6.
  refine (finish_ok s6 _ _ _ H6 _). change MAXFILE with 268. change BSIZE with 1024. lia.
Qed.

(** C20: mkfs with a list of good files, at most 198 of them and small enough together
    for the disk, ends and writes a consistent file system: the super block of
    the layout, the bitmap of exactly the blocks in use, no block in two files,
    and as inodes 1, 2, ... the root directory, whose entries are ".", ".." and
    one per file in order, and the files with the bytes that were read. The size
    of the root directory is rounded up past its last block. *)
Theorem mkfs_image h prog img args :
  h_img h = true → Forall (arg_ok h) args → zlen args <= 198 →
  let root := mkdirent 1 [46] ++ mkdirent 1 [46; 46] ++ entries 2 args in
  let L := (T_DIR, root) :: (arg_file h <$> args) in
  nmeta + fblocks L <= FSSIZE →
  ∃ s, main h (prog :: img :: args) boot = Ok (tt, s) ∧
    image_ok (m_img s) L ((zlen root / BSIZE + 1) * BSIZE).
Proof.
  intros Hh Hok Hn root L Hf. pose proof (main_ok h prog img args Hh Hok Hn Hf) as Hm.
  destruct (mok_inv _ _ _ Hm) as ([] & s & H1 & H2). eauto.
Qed.

(** One file, "user/_ab", that the host delivers in two parts. *)
Definition h_one : host := mkHost true (λ _, Some [[7; 8; 9]; [10]]).
Definition arg_one : list Z := [117; 115; 101; 114; 47; 95; 97; 98].

Lemma arg_one_ok : Forall (arg_ok h_one) [arg_one].
Proof.
  constructor; [|constructor]. split_and!; [by apply (bool_decide_unpack _)|by eexists|done|done].
Qed.

Lemma mkfs_image_witness :
  ∃ s, main h_one [[1]; [2]; arg_one] boot = Ok (tt, s) ∧
    image_ok (m_img s) [(T_DIR, mkdirent 1 [46] ++ mkdirent 1 [46; 46] ++ mkdirent 2 [97; 98]);
                        (T_FILE, [7; 8; 9; 10])] 1024.
Proof.
  apply (mkfs_image h_one [1] [2] [arg_one]); [done|exact arg_one_ok|done|].
  apply (bool_decide_unpack _). by vm_compute.
Defined.
