(* ===== verification/MkfsBoot.v ===== *)
(** * mkfs and the kernel: the files mkfs wrote are found

    The kernel's [dirlookup] on the root directory of an image of mkfs: the name
    of a file of the command line is found, with the inode that holds its bytes. *)
From S2P Require Import Prelude Riscv Bio Log LogSpec Buf Proc UserMem Mem Uart Printf Console Fs FsLaws FsAlloc Dinode Dir Itable IRefs PathSpec Content ContentSpec ReadSpec DirSpec Mkfs MkfsSpec.

(** *** The entries of the root directory *)
Fixpoint arg_ents (n : Z) (args : list (list Z)) : list (Z * list Z) :=
  match args with [] => [] | a :: r => (n, arg_name a) :: arg_ents (n + 1) r end.
Definition root_ents (args : list (list Z)) : list (Z * list Z) :=
  (1, [46]) :: (1, [46; 46]) :: arg_ents 2 args.
Definition dirent_of (e : Z * list Z) : list Z := mkdirent e.1 e.2.
Definition root_bytes (args : list (list Z)) : list Z :=
  mkdirent 1 [46] ++ mkdirent 1 [46; 46] ++ entries 2 args.

Lemma arg_ents_lookup args : ∀ n i, arg_ents n args !! i = (λ a, (n + Z.of_nat i, arg_name a)) <$> args !! i.
Proof.
  induction args as [|a r IH]; intros n [|i]; simpl; [done|done|by rewrite Z.add_0_r|].
  rewrite IH. destruct (r !! i); simpl; [|done]. do 2 f_equal. lia.
Qed.

Lemma root_flat args : root_bytes args = flat_map dirent_of (root_ents args).
Proof.
  unfold root_bytes, root_ents. cbn [flat_map dirent_of fst snd]. do 2 f_equal.
  generalize 2. induction args as [|a r IH]; intros n; [done|]. cbn. by rewrite IH.
Qed.

Lemma flat_aget ents : ∀ k e j, ents !! k = Some e → 0 <= j < 16 →
  aget (flat_map dirent_of ents) (16 * Z.of_nat k + j) = aget (dirent_of e) j.
Proof.
  induction ents as [|e0 ents IH]; intros k e j Hk Hj; [done|].
  change (flat_map dirent_of (e0 :: ents)) with (dirent_of e0 ++ flat_map dirent_of ents).
  assert (zlen (dirent_of e0) = 16) as Hz by apply mkdirent_len.
  rewrite aget_app, Hz by lia. destruct k as [|k].
  - injection Hk as <-. by rewrite (proj2 (Z.ltb_lt _ _)) by lia.
  - rewrite (proj2 (Z.ltb_ge _ _)) by lia. rewrite <-(IH k e j Hk Hj). f_equal. lia.
Qed.

(** A name of at most [DIRSIZ] characters. *)
Definition clean (name : list Z) : Prop := Forall (λ c, 0 < c < 256) name ∧ (length name <= DIRSIZ)%nat.

Lemma cstr_pad name m : Forall (λ c, 0 < c < 256) name → cstr (name ++ replicate m 0) = name.
Proof.
  induction 1 as [|c name Hc _ IH]; simpl; [by destruct m|].
  rewrite (proj2 (Z.eqb_neq _ _)) by lia. by rewrite IH.
Qed.

(** The bytes of an entry. *)
Lemma dirent_inum n name : 0 <= n < 65536 →
  u8 (aget (mkdirent n name) 0) + 256 * u8 (aget (mkdirent n name) 1) = n.
Proof. intros. unfold mkdirent, aget. simpl. rewrite xshort_u16. unfold u8, u16. mlia. Qed.

Lemma dirent_name n name : clean name →
  (λ j, u8 (aget (mkdirent n name) j)) <$> seqZ 2 14 = name ++ replicate (DIRSIZ - length name) 0.
Proof.
  intros [Hc Hl].
  assert (take DIRSIZ (name ++ replicate DIRSIZ 0) = name ++ replicate (DIRSIZ - length name) 0) as Ht.
  { rewrite take_app_ge, take_replicate by lia. do 2 f_equal. unfold DIRSIZ in *. lia. }
  unfold mkdirent. rewrite Ht. set (f := name ++ replicate (DIRSIZ - length name) 0).
  assert (length f = 14%nat) as Hf by (unfold f; rewrite length_app, length_replicate; unfold DIRSIZ in *; lia).
  assert (Forall (λ c, 0 <= c < 256) f) as Hfr.
  { unfold f. apply Forall_app_2; [eapply Forall_impl; [exact Hc|simpl; lia]|].
    apply Forall_replicate. lia. }
  apply aget_ext.
  - by rewrite length_fmap, length_seqZ, Hf.
  - intros j Hj. unfold zlen in Hj. rewrite length_fmap, length_seqZ in Hj.
    rewrite (aget_seqZ _ 2 14 j) by lia. rewrite aget_app by lia.
    change (zlen (le16 (xshort n))) with 2. rewrite (proj2 (Z.ltb_ge _ _)) by lia.
    replace (2 + j - 2) with j by lia. unfold aget.
    destruct (f !! Z.to_nat j) as [y|] eqn:Hy; simpl; [|done].
    apply (Forall_lookup_1 _ _ _ _ Hfr) in Hy. unfold u8. by rewrite Z.mod_small.
Qed.

Lemma clean_cmp name q m : clean name → Forall (λ c, 0 < c < 256) q → (length q <= DIRSIZ)%nat →
  namecmp name (q ++ replicate m 0) = 0 ↔ name = q.
Proof.
  intros [Hc Hl] Hq Hql. unfold namecmp. rewrite strncmp_str_eq, cstr_pad by done.
  pose proof (cstr_pad name 0 Hc) as Hn. simpl in Hn. rewrite app_nil_r in Hn.
  by rewrite Hn, !take_ge by lia.
Qed.

(** *** The kernel on the image *)
Section boot.
Context {S : Type} `{!BufOps S} `{!BufLaws S} {M : Type} `{!UserMem M} `{!UserMemLaws M} (de : Z).
Abbreviation st := (fss S M).

(** The root directory [ip] of an image, loaded in slot [dp] of the inode table
    of a kernel whose disk reads as the image. *)
Record mounted (s : st) (v : dview) (img : list block) (dp : nat) (ip : inode) : Prop := {
  mt_rep : frep s v ∅;
  mt_view b : 0 <= b < FSSIZE → v b = blocks img b;
  mt_sb : sb s = mk_sb;
  mt_tab : itable s !! dp = Some ip;
  mt_dev : i_dev ip = ROOTDEV;
  mt_ip : ip = with_fields ip (disk_inode mk_sb v ROOTINO (blank ROOTINO))
}.

Lemma view_dwf v img : (∀ b, length (v b) = Z.to_nat BSIZE) → (∀ b, 0 <= b < FSSIZE → v b = blocks img b) →
  dwf mk_sb (blocks img) → dwf mk_sb v ∧ keeps_data mk_sb (blocks img) v.
Proof.
  intros Hl Hv Hd. change FSSIZE with 2000 in Hv.
  assert (∀ b, 0 <= b < 2000 → used mk_sb v b = used mk_sb (blocks img) b) as Hu.
  { intros b Hb. unfold used. rewrite bblock_mk by lia. by rewrite Hv by lia. }
  assert (sb_size mk_sb = 2000) as Hs by by rewrite mk_sb_eq.
  split.
  - split; try apply Hd; [done|]. intros b Hb. rewrite Hs in Hb. rewrite Hu by done. apply Hd. by rewrite Hs.
  - intros b (Hb & Hub & Hm). rewrite Hs in Hb. split; [apply Hv; lia|]. unfold data_block.
    rewrite Hs, Hu by lia. split_and!; try lia; done.
Qed.

Lemma fields_data v ip jp bs : i_addrs ip = i_addrs jp → inode_ok ip → data_ok v jp bs → data_ok v ip bs.
Proof.
  intros Ha Hok [[F0 F1 F2 F3] G1 G2 G3 G4].
  assert (ind ip = ind jp) as Hi by (unfold ind; by rewrite Ha).
  assert (∀ bn, blk v ip bn = blk v jp bn) as Hb by (intros bn; unfold blk; by rewrite Hi, Ha).
  split; [split| | | |].
  - done.
  - by rewrite Hi.
  - intros bn. rewrite Hb, Hi. apply F2.
  - intros bn bn'. rewrite !Hb. apply F3.
  - intros o Ho. rewrite <-G1 by done. unfold content. by rewrite Hb.
  - intros bn. rewrite Hb. apply G2.
  - by rewrite Hi.
  - intros b. unfold owns. setoid_rewrite Hb. rewrite Hi. apply G4.
Qed.

(** The root directory of the image, as the kernel sees it. *)
Lemma mounted_root s v img dp ip args fs z :
  mounted s v img dp ip → image_ok img ((T_DIR, root_bytes args) :: fs) z →
  dwf mk_sb v ∧ data_ok v ip (root_bytes args) ∧ i_type ip = T_DIR ∧ i_size ip = z.
Proof.
  intros [Hrep Hv Hsb Htab Hdev Hip] Im.
  assert (∀ b, length (v b) = Z.to_nat BSIZE) as Hlen by (intros b; by eapply brep_len).
  destruct (view_dwf v img Hlen Hv (im_dwf _ _ _ Im)) as [Hd Hk].
  destruct (im_inode _ _ _ Im 0%nat _ _ eq_refl) as [Hm Hdt]. simpl (Z.of_nat 0 + 1) in *.
  assert (disk_inode mk_sb v ROOTINO (blank ROOTINO) = disk_inode mk_sb (blocks img) 1 (blank 1)) as He.
  { unfold disk_inode. change ROOTINO with 1. rewrite Hv; [done|]. rewrite iblock_mk. change FSSIZE with 2000. mlia. }
  rewrite He in Hip. destruct (data_same _ v _ _ Hdt) as [Hdt' _]; [intros b Hb _; by apply Hk|].
  destruct Hm as (_ & Hm1 & Hm2 & Hm3 & Hm4 & Hm5). split; [done|]. split; [|rewrite Hip; by split].
  eapply fields_data; [|  |exact Hdt']; rewrite Hip; [done|].
  pose proof (iwf_ok _ _ _ (fd_iwf _ _ _ _ _ Hdt')) as Hok. exact Hok.
Qed.

(** Directory entries in terms of the bytes of the file. *)
Lemma root_entry v ip args k e :
  data_ok v ip (root_bytes args) → root_ents args !! k = Some e → 0 <= e.1 < 65536 → clean e.2 →
  16 * Z.of_nat k + 16 <= MAXFILE * BSIZE →
  entry_inum v ip (Z.of_nat k) = e.1 ∧
  entry_name v ip (Z.of_nat k) = e.2 ++ replicate (DIRSIZ - length e.2) 0.
Proof.
  intros Hd Hk Hn Hc Hmax.
  assert (∀ j, 0 <= j < 16 → content v ip (16 * Z.of_nat k + j) = aget (mkdirent e.1 e.2) j) as Hb.
  { intros j Hj. rewrite (fd_content _ _ _ _ _ Hd) by lia. rewrite root_flat. by rewrite (flat_aget _ k e j). }
  unfold entry_inum, entry_name. change DIRENT with 16. split.
  - rewrite Hb by lia. rewrite <-(Z.add_0_r (16 * Z.of_nat k)) at 1. rewrite Hb by lia. by apply dirent_inum.
  - rewrite <-(dirent_name e.1) by done. apply list_fmap_ext. intros i j Hj.
    apply lookup_seqZ in Hj as [-> Hi]. rewrite Hb by lia. done.
Qed.

Lemma root_ents_lookup args k : root_ents args !! (k + 2)%nat = (λ a, (Z.of_nat k + 2, arg_name a)) <$> args !! k.
Proof.
  rewrite (Nat.add_comm k 2). simpl. rewrite arg_ents_lookup. destruct (args !! k); simpl; [|done].
  do 2 f_equal. lia.
Qed.

Lemma root_len args : zlen (root_bytes args) = 32 + 16 * zlen args.
Proof. unfold root_bytes. rewrite !zlen_app, !mkdirent_len, entries_len. lia. Qed.

(** The mounted root directory is one the kernel can read. *)
Lemma mounted_dir_ok s v img dp ip args fs :
  mounted s v img dp ip →
  image_ok img ((T_DIR, root_bytes args) :: fs) ((zlen (root_bytes args) / BSIZE + 1) * BSIZE) →
  zlen args <= 198 → (zlen args + 2) mod 64 ≠ 0 → dir_ok s v dp ip.
Proof.
  intros Hm Im Hn Hmod. destruct (mounted_root _ _ _ _ _ _ _ _ Hm Im) as (Hd & Hdt & Hty & Hsz).
  destruct Hm as [Hrep Hv Hsb Htab Hdev Hip]. pose proof (zlen_nonneg args).
  rewrite root_len in Hsz. change BSIZE with 1024 in *.
  split; rewrite ?Hsb, ?Hsz; try done.
  - exact (fd_iwf _ _ _ _ _ Hdt).
  - change (MAXFILE * BSIZE) with 274432. mlia.
  - change DIRENT with 16. mlia.
  - intros o Ho. change BSIZE with 1024. apply (fd_blk _ _ _ _ _ Hdt).
    + change MAXFILE with 268. mlia.
    + rewrite root_len. unfold nb0. mlia.
Qed.

Definition names_ok (args : list (list Z)) : Prop :=
  Forall (λ a, clean (arg_name a) ∧ arg_name a ≠ [46] ∧ arg_name a ≠ [46; 46]) args ∧ NoDup (arg_name <$> args).

Lemma ents_clean args k e : names_ok args → zlen args <= 198 → root_ents args !! k = Some e →
  0 < e.1 < 65536 ∧ clean e.2 ∧ 16 * Z.of_nat k + 16 <= MAXFILE * BSIZE.
Proof.
  intros [Hn _] Hl Hk. change (MAXFILE * BSIZE) with 274432.
  destruct k as [|[|k]]; [injection Hk as <-|injection Hk as <-|].
  1, 2: simpl; split_and!; [lia..| |lia]; split; [repeat constructor; lia|simpl; unfold DIRSIZ; lia].
  replace (Datatypes.S (Datatypes.S k)) with (k + 2)%nat in Hk by lia. rewrite root_ents_lookup in Hk.
  destruct (args !! k) as [a|] eqn:Ha; [|done]. injection Hk as <-. simpl.
  destruct (Forall_lookup_1 _ _ _ _ Hn Ha) as (Hc & _). apply lookup_lt_Some in Ha. unfold zlen in Hl.
  split_and!; try lia; done.
Qed.

(** Two entries of the root directory have different names. *)
Lemma ents_distinct args k k' a e : names_ok args → args !! k = Some a → root_ents args !! k' = Some e →
  e.2 = arg_name a → k' = (k + 2)%nat.
Proof.
  intros [Hn Hd] Ha Hk He. destruct (Forall_lookup_1 _ _ _ _ Hn Ha) as (_ & H1 & H2).
  destruct k' as [|[|k']]; [injection Hk as <-; simpl in He; congruence|injection Hk as <-; simpl in He; congruence|].
  replace (Datatypes.S (Datatypes.S k')) with (k' + 2)%nat in * by lia. rewrite root_ents_lookup in Hk.
  destruct (args !! k') as [a'|] eqn:Ha'; [|done]. injection Hk as <-. simpl in He. f_equal.
  apply (NoDup_lookup _ _ _ (arg_name a) Hd); rewrite list_lookup_fmap; [by rewrite Ha', <-He|by rewrite Ha].
Qed.

(** Looking up a name of the command line on a mounted image. *)
Lemma lookup_mounted s v img dp ip h args k a :
  let L := (T_DIR, root_bytes args) :: (arg_file h <$> args) in
  image_ok img L ((zlen (root_bytes args) / BSIZE + 1) * BSIZE) → mounted s v img dp ip →
  zlen args <= 198 → (zlen args + 2) mod 64 ≠ 0 →
  names_ok args → args !! k = Some a → 0 <= de → de + 16 < 18446744073709551616 →
  fsat lookup_panic (dirlookup de dp (arg_name a)) s (λ o s',
    let n := Z.of_nat k + 2 in
    (∃ j r, o = Some (j, DIRENT * n) ∧ ikeys s' !! j = Some (ROOTDEV, n, r)) ∧
    (let fp := disk_inode mk_sb v n (blank n) in
      i_type fp = T_FILE ∧ i_nlink fp = 1 ∧ i_size fp = zlen (arg_bytes h a) ∧ data_ok v fp (arg_bytes h a))).
Proof.
  intros L Im Hm Hn Hmod Hnames Ha Hde0 Hde1. unfold L in Im.
  destruct (mounted_root _ _ _ _ _ _ _ _ Hm Im) as (Hd & Hdt & Hty & Hsz).
  pose proof (mounted_dir_ok _ _ _ _ _ _ _ Hm Im Hn Hmod) as Hdir.
  pose proof (lookup_lt_Some _ _ _ Ha) as Hk. assert (Z.of_nat k < zlen args) as Hkz by (unfold zlen; lia).
  assert (root_ents args !! (k + 2)%nat = Some (Z.of_nat k + 2, arg_name a)) as He by (by rewrite root_ents_lookup, Ha).
  assert (∀ k' e, root_ents args !! k' = Some e → entry_inum v ip (Z.of_nat k') = e.1 ∧
    (entry_is v ip (arg_name a) (Z.of_nat k') ↔ arg_name a = e.2)) as Hent.
  { intros k' e Hke. destruct (ents_clean args k' e Hnames Hn Hke) as (H1 & H2 & H3).
    destruct (root_entry v ip args k' e Hdt Hke) as [E1 E2]; [lia|done|done|]. split; [done|].
    unfold entry_is. rewrite E1, E2. destruct (ents_clean args _ _ Hnames Hn He) as (_ & Hc & _).
    rewrite clean_cmp by (try done; apply H2). split; [tauto|]. split; [lia|done]. }
  assert (entry_is v ip (arg_name a) (Z.of_nat (k + 2))) as Hthis by (by apply (Hent _ _ He)).
  eapply fsat_mono; [by apply (dirlookup_sat de s v dp ip (arg_name a))|].
  intros o s' Ho n. split.
  - unfold lookup_post in Ho. destruct o as [[j off]|].
    + destruct Ho as (k' & r & Hk' & -> & Hlt & Hkis & Hfirst & Hj).
      assert (k' <= Z.of_nat (k + 2)) as Hle.
      { destruct (Z_lt_le_dec (Z.of_nat (k + 2)) k') as [Hc|]; [|done]. by destruct (Hfirst (Z.of_nat (k + 2)) ltac:(lia)). }
      assert (∃ e, root_ents args !! Z.to_nat k' = Some e) as [e Hke].
      { apply lookup_lt_is_Some_2. apply lookup_lt_Some in He. lia. }
      pose proof (Hent _ _ Hke) as [Hei His]. rewrite Z2Nat.id in Hei, His by lia.
      apply His in Hkis. pose proof (ents_distinct args k _ a e Hnames Ha Hke (eq_sym Hkis)) as Hkk.
      replace k' with n in * by (unfold n; lia). exists j, r. split; [done|].
      rewrite Hj. do 2 f_equal. f_equal. rewrite Hei. rewrite Hkk, He in Hke. injection Hke as <-. done.
    + exfalso. apply (Ho (Z.of_nat (k + 2))); [lia| |done]. rewrite Hsz, root_len. change DIRENT with 16.
      change BSIZE with 1024. mlia.
  - destruct (im_inode _ _ _ Im (Datatypes.S k) T_FILE (arg_bytes h a)) as [Hfm Hfd].
    { simpl. by rewrite list_lookup_fmap, Ha. }
    replace (Z.of_nat (Datatypes.S k) + 1) with n in * by (unfold n; lia).
    assert (disk_inode mk_sb v n (blank n) = disk_inode mk_sb (blocks img) n (blank n)) as ->.
    { unfold disk_inode. rewrite (mt_view _ _ _ _ _ Hm); [done|]. rewrite iblock_mk. change FSSIZE with 2000.
      unfold n. mlia. }
    destruct Hfm as (_ & T1 & _ & _ & T4 & T5). split_and!; [done|done|exact T5|].
    assert (∀ b, length (v b) = Z.to_nat BSIZE) as Hlen by (intros b; eapply brep_len; exact (mt_rep _ _ _ _ _ Hm)).
    destruct (view_dwf v img Hlen (mt_view _ _ _ _ _ Hm) (im_dwf _ _ _ Im)) as [_ Hk2].
    apply (data_same _ v _ _ Hfd). intros b Hb _. by apply Hk2.
Qed.

(** C21: what mkfs writes, the kernel finds. mkfs, run on a list of good files that
    fit (as for the image), ends; and in any kernel whose disk reads as the
    image it wrote and that has loaded the root directory, [dirlookup] of the
    name of a file of the command line does not fail: it finds the inode on
    which that file is, a plain file with one link, the size of the file, and
    the bytes mkfs read as its content. The names are those of the command line
    without "user/" and a leading underscore: C strings of at most
    [DIRSIZ] characters, pairwise different, not "." or "..". The root directory
    does not end at a block boundary (the number of files plus two is no
    multiple of 64): there mkfs rounds its size up past its last block. *)
Theorem mkfs_lookup h prog img args k a :
  h_img h = true → Forall (arg_ok h) args → zlen args <= 198 →
  nmeta + fblocks ((T_DIR, root_bytes args) :: (arg_file h <$> args)) <= FSSIZE →
  names_ok args → (zlen args + 2) mod 64 ≠ 0 → args !! k = Some a →
  0 <= de → de + 16 < 18446744073709551616 →
  ∃ m, main h (prog :: img :: args) boot = Ok (tt, m) ∧
    ∀ (s : st) v dp ip, mounted s v (m_img m) dp ip →
      fsat lookup_panic (dirlookup de dp (arg_name a)) s (λ o s',
        let n := Z.of_nat k + 2 in
        (∃ j r, o = Some (j, DIRENT * n) ∧ ikeys s' !! j = Some (ROOTDEV, n, r)) ∧
        (let fp := disk_inode mk_sb v n (blank n) in
          i_type fp = T_FILE ∧ i_nlink fp = 1 ∧ i_size fp = zlen (arg_bytes h a) ∧ data_ok v fp (arg_bytes h a))).
Proof.
  intros Hh Hok Hn Hf Hnames Hmod Ha Hde0 Hde1.
  destruct (mok_inv _ _ _ (main_ok h prog img args Hh Hok Hn Hf)) as ([] & m & Hm & Him).
  exists m. split; [exact Hm|]. intros s v dp ip Hmt. by eapply lookup_mounted.
Qed.
End boot.

(** The image of one file on a flat disk, the root directory in slot 0. *)
Module BootWitness.
Import FlatDisk Flat.
Definition root_ip (v : dview) : inode :=
  with_fields (mkInode ROOTDEV 1 1 true true 0 0 0 0 0 []) (disk_inode mk_sb v ROOTINO (blank ROOTINO)).
Definition booted (img : list block) : fss fdisk flat :=
  let d := mkFD (map_seqZ 0 img) ∅ in
  mkFss mk_sb [root_ip (fd_get d); mkInode 0 0 0 false false 0 0 0 0 0 (replicate 13 0)] d ∅ (mk 0 []) [].

Lemma booted_mounted img L z : image_ok img L z →
  mounted (booted img) (fd_get (lower (booted img))) img 0 (root_ip (fd_get (lower (booted img)))).
Proof.
  intros Im. split; try done. intros b Hb. simpl. unfold fd_get. cbn [fd_blocks].
  rewrite lookup_map_seqZ_0 by lia. pose proof (dwf_len _ _ (im_dwf _ _ _ Im) b) as Hl. unfold blocks in *.
  destruct (img !! Z.to_nat b); simpl in *; [|done]. by rewrite decide_True.
Qed.

Lemma one_names : names_ok [arg_one].
Proof.
  split; [|apply NoDup_singleton]. constructor; [|constructor]. split_and!; [|done|done].
  split; [repeat constructor; lia|]. by apply (bool_decide_unpack _).
Qed.

Lemma mkfs_lookup_witness : ∃ m img,
  main h_one [[1]; [2]; arg_one] boot = Ok (tt, m) ∧ img = m_img m ∧
  mounted (booted img) (fd_get (lower (booted img))) img 0 (root_ip (fd_get (lower (booted img)))) ∧
  fsat lookup_panic (dirlookup 1000 0 (arg_name arg_one)) (booted img) (λ o s',
    let n := Z.of_nat 0 + 2 in
    (∃ j r, o = Some (j, DIRENT * n) ∧ ikeys s' !! j = Some (ROOTDEV, n, r)) ∧
    (let fp := disk_inode mk_sb (fd_get (lower (booted img))) n (blank n) in
     i_type fp = T_FILE ∧ i_nlink fp = 1 ∧ i_size fp = zlen (arg_bytes h_one arg_one) ∧
     data_ok (fd_get (lower (booted img))) fp (arg_bytes h_one arg_one))).
Proof.
  assert (nmeta + fblocks ((T_DIR, root_bytes [arg_one]) :: (arg_file h_one <$> [arg_one])) <= FSSIZE) as Hf
    by (apply (bool_decide_unpack _); by vm_compute).
  destruct (mkfs_lookup (S := fdisk) (M := flat) 1000 h_one [1] [2] [arg_one] 0 arg_one eq_refl arg_one_ok
    ltac:(done) Hf one_names ltac:(done) eq_refl ltac:(done) ltac:(done)) as (m & Hm & Hk).
  assert (∃ L z, image_ok (m_img m) L z) as (L & z & Im).
  { destruct (mok_inv _ _ _ (main_ok h_one [1] [2] [arg_one] eq_refl arg_one_ok ltac:(done) Hf))
      as ([] & m' & Hm' & Im). rewrite Hm in Hm'. injection Hm' as <-. eauto. }
  exists m, (m_img m). pose proof (booted_mounted _ _ _ Im) as Hmt.
  split; [exact Hm|]. split; [reflexivity|]. split; [exact Hmt|]. exact (Hk _ _ _ _ Hmt).
Defined.
End BootWitness.
