(* ===== verification/Virtio.v ===== *)
(** * The virtio disk driver

    [kernel/virtio_disk.c]: the descriptor table, the two rings, the free list
    and the bookkeeping of requests in flight.  Addresses handed to the device
    are symbolic ([vaddr]); the rings and the table are lists of [NUM] entries.
    [virtio_disk_rw] gives its lock away in [sleep], so it is split there, and
    each part is one atomic update of the driver and of the process table;
    [virtio_disk_intr] is split at the turns of its loop, since the device runs
    between them.  The device itself is an interface ([VirtioDevice]) with the
    behaviour its specification documents. *)
From S2P Require Import Prelude Riscv Proc Bio Mem CString Kalloc.

Definition NUM : nat := 8.
Definition VRING_DESC_F_NEXT : Z := 1.
Definition VRING_DESC_F_WRITE : Z := 2.
Definition VIRTIO_BLK_T_IN : Z := 0.
Definition VIRTIO_BLK_T_OUT : Z := 1.

(** What a descriptor points at: nothing, [&disk.ops[i]], [b->data],
    [&disk.info[i].status]. *)
Inductive vaddr := ANull | AOp (i : nat) | AData (b : nat) | AStatus (i : nat).

Record vdesc := mkDesc { d_addr : vaddr; d_len : Z; d_flags : Z; d_next : Z }.
Record vreq := mkReq { r_type : Z; r_reserved : Z; r_sector : Z }.
Record vbuf := mkVBuf { vb_blockno : Z; vb_data : block; vb_disk : Z }.

Record vdisk := mkVD {
  desc : list vdesc;
  avail_idx : Z;                (* avail->idx *)
  avail_ring : list Z;
  used_pos : Z;                 (* used->idx, written by the device *)
  used_ring : list (Z * Z);     (* used->ring: id, len *)
  vfree : list Z;
  used_idx : Z;                 (* disk.used_idx *)
  info_b : list (option nat);
  info_status : list Z;
  ops : list vreq;
  vbufs : list vbuf;
  vnotify : Z;                  (* writes to QUEUE_NOTIFY *)
  vintr : Z                     (* INTERRUPT_STATUS *)
}.

Definition set_desc (i : nat) (x : vdesc) (d : vdisk) : vdisk :=
  mkVD (<[i := x]> (desc d)) (avail_idx d) (avail_ring d) (used_pos d) (used_ring d) (vfree d) (used_idx d)
    (info_b d) (info_status d) (ops d) (vbufs d) (vnotify d) (vintr d).
Definition set_avail (i : Z) (r : list Z) (d : vdisk) : vdisk :=
  mkVD (desc d) i r (used_pos d) (used_ring d) (vfree d) (used_idx d)
    (info_b d) (info_status d) (ops d) (vbufs d) (vnotify d) (vintr d).
Definition set_used (i : Z) (r : list (Z * Z)) (d : vdisk) : vdisk :=
  mkVD (desc d) (avail_idx d) (avail_ring d) i r (vfree d) (used_idx d)
    (info_b d) (info_status d) (ops d) (vbufs d) (vnotify d) (vintr d).
Definition set_vfree (i : nat) (x : Z) (d : vdisk) : vdisk :=
  mkVD (desc d) (avail_idx d) (avail_ring d) (used_pos d) (used_ring d) (<[i := x]> (vfree d)) (used_idx d)
    (info_b d) (info_status d) (ops d) (vbufs d) (vnotify d) (vintr d).
Definition set_used_idx (x : Z) (d : vdisk) : vdisk :=
  mkVD (desc d) (avail_idx d) (avail_ring d) (used_pos d) (used_ring d) (vfree d) x
    (info_b d) (info_status d) (ops d) (vbufs d) (vnotify d) (vintr d).
Definition set_info_b (i : nat) (x : option nat) (d : vdisk) : vdisk :=
  mkVD (desc d) (avail_idx d) (avail_ring d) (used_pos d) (used_ring d) (vfree d) (used_idx d)
    (<[i := x]> (info_b d)) (info_status d) (ops d) (vbufs d) (vnotify d) (vintr d).
Definition set_status (i : nat) (x : Z) (d : vdisk) : vdisk :=
  mkVD (desc d) (avail_idx d) (avail_ring d) (used_pos d) (used_ring d) (vfree d) (used_idx d)
    (info_b d) (<[i := x]> (info_status d)) (ops d) (vbufs d) (vnotify d) (vintr d).
Definition set_op (i : nat) (x : vreq) (d : vdisk) : vdisk :=
  mkVD (desc d) (avail_idx d) (avail_ring d) (used_pos d) (used_ring d) (vfree d) (used_idx d)
    (info_b d) (info_status d) (<[i := x]> (ops d)) (vbufs d) (vnotify d) (vintr d).
Definition set_vbufs (x : list vbuf) (d : vdisk) : vdisk :=
  mkVD (desc d) (avail_idx d) (avail_ring d) (used_pos d) (used_ring d) (vfree d) (used_idx d)
    (info_b d) (info_status d) (ops d) x (vnotify d) (vintr d).
Definition set_vnotify (x : Z) (d : vdisk) : vdisk :=
  mkVD (desc d) (avail_idx d) (avail_ring d) (used_pos d) (used_ring d) (vfree d) (used_idx d)
    (info_b d) (info_status d) (ops d) (vbufs d) x (vintr d).
Definition set_vintr (x : Z) (d : vdisk) : vdisk :=
  mkVD (desc d) (avail_idx d) (avail_ring d) (used_pos d) (used_ring d) (vfree d) (used_idx d)
    (info_b d) (info_status d) (ops d) (vbufs d) (vnotify d) x.
Definition set_vb_disk (v : Z) (b : vbuf) : vbuf := mkVBuf (vb_blockno b) (vb_data b) v.
Definition set_vb_data (v : block) (b : vbuf) : vbuf := mkVBuf (vb_blockno b) v (vb_disk b).

(** The driver and the process table. *)
Abbreviation vst := (vdisk * list proc)%type.

(** ** Descriptors *)
Fixpoint find_free (l : list Z) (i : nat) : option nat :=
  match l with [] => None | x :: l' => if x =? 0 then find_free l' (S i) else Some i end.

Definition alloc_desc (d : vdisk) : option nat * vdisk :=
  match find_free (vfree d) 0 with Some i => (Some i, set_vfree i 0 d) | None => (None, d) end.

Section driver.
Context (V : Z).

Definition free_desc (me : option nat) (i : nat) (st : vst) : res vst :=
  let '(d, ps) := st in
  if (NUM <=? i)%nat then Panic "free_desc 1"
  else if negb (aget (vfree d) (Z.of_nat i) =? 0) then Panic "free_desc 2"
  else Ok (set_vfree i 1 (set_desc i (mkDesc ANull 0 0 0) d), wakeup V me ChDiskFree ps).

Fixpoint free_chain (fuel : nat) (me : option nat) (i : nat) (st : vst) : res vst :=
  match fuel with
  | O => NoFuel
  | S f =>
      match desc st.1 !! i with
      | None => Panic "descriptor index"
      | Some x =>
          st ← free_desc me i st;
          if negb (Z.land (d_flags x) VRING_DESC_F_NEXT =? 0)
          then free_chain f me (Z.to_nat (d_next x)) st else Ok st
      end
  end.

(** [idx[0]], [idx[1]], [idx[2]]. *)
Definition alloc3_desc (me : option nat) (st : vst) : res (option (nat * nat * nat) * vst) :=
  let '(d, ps) := st in
  match alloc_desc d with
  | (None, d) => Ok (None, (d, ps))
  | (Some i0, d) =>
      match alloc_desc d with
      | (None, d) => st ← free_desc me i0 (d, ps); Ok (None, st)
      | (Some i1, d) =>
          match alloc_desc d with
          | (None, d) => st ← free_desc me i0 (d, ps); st ← free_desc me i1 st; Ok (None, st)
          | (Some i2, d) => Ok (Some (i0, i1, i2), (d, ps))
          end
      end
  end.

(** ** virtio_disk_rw *)

(** The request: the buffer, the direction, the three descriptors. *)
Record vrq := mkRq { q_b : nat; q_write : bool; q_0 : nat; q_1 : nat; q_2 : nat }.

#[export] Instance vrq_eq_dec : EqDecision vrq.
Proof. solve_decision. Defined.

(** From the choice of the descriptors to the notification of the device. *)
Definition rw_submit (q : vrq) (sector : Z) (d : vdisk) : vdisk :=
  let '(mkRq b write i0 i1 i2) := q in
  let d := set_op i0 (mkReq (if write then VIRTIO_BLK_T_OUT else VIRTIO_BLK_T_IN) 0 sector) d in
  let d := set_desc i0 (mkDesc (AOp i0) 16 VRING_DESC_F_NEXT (Z.of_nat i1)) d in
  let flags := if write then 0 else VRING_DESC_F_WRITE in
  let d := set_desc i1 (mkDesc (AData b) BSIZE (Z.lor flags VRING_DESC_F_NEXT) (Z.of_nat i2)) d in
  let d := set_status i0 255 d in
  let d := set_desc i2 (mkDesc (AStatus i0) 1 VRING_DESC_F_WRITE 0) d in
  let d := set_vbufs (alter (set_vb_disk 1) b (vbufs d)) d in
  let d := set_info_b i0 (Some b) d in
  let d := set_avail (avail_idx d) (<[Z.to_nat (avail_idx d mod Z.of_nat NUM) := Z.of_nat i0]> (avail_ring d)) d in
  let d := set_avail (u16 (avail_idx d + 1)) (avail_ring d) d in
  set_vnotify (vnotify d + 1) d.

(** Where a process is in [virtio_disk_rw]. *)
Inductive vpc :=
| VAlloc (b : nat) (write : bool)        (* before [alloc3_desc] *)
| VAsleepFree (b : nat) (write : bool)   (* in sleep(&disk.free[0]) *)
| VWait (q : vrq)                        (* before the test of b->disk *)
| VAsleepBuf (q : vrq)                   (* in sleep(b) *)
| VDone.

Definition disk_flag (d : vdisk) (b : nat) : Z :=
  match vbufs d !! b with Some x => vb_disk x | None => 0 end.

(** The loop of [virtio_disk_rw] on [b->disk], and its end. *)
Definition rw_wait (me : nat) (q : vrq) (st : vst) : res (vpc * vst) :=
  let '(d, ps) := st in
  if disk_flag d (q_b q) =? 1 then Ok (VAsleepBuf q, (d, sleep_begin me (ChBuf (q_b q)) ps))
  else
    st ← free_chain (S NUM) (Some me) (q_0 q) (set_info_b (q_0 q) None d, ps);
    Ok (VDone, st).

Definition virtio_disk_rw (me : nat) (pc : vpc) (st : vst) : res (vpc * vst) :=
  match pc with
  | VAlloc b write =>
      match vbufs st.1 !! b with
      | None => Panic "buffer index"
      | Some x =>
          let sector := u32 (vb_blockno x * (BSIZE / 512)) in
          '(o, (d, ps)) ← alloc3_desc (Some me) st;
          match o with
          | None => Ok (VAsleepFree b write, (d, sleep_begin me ChDiskFree ps))
          | Some (i0, i1, i2) =>
              let q := mkRq b write i0 i1 i2 in rw_wait me q (rw_submit q sector d, ps)
          end
      end
  | VAsleepFree b write => Ok (VAlloc b write, (st.1, sleep_end me st.2))
  | VWait q => rw_wait me q st
  | VAsleepBuf q => Ok (VWait q, (st.1, sleep_end me st.2))
  | VDone => Ok (VDone, st)
  end.

(** ** virtio_disk_intr *)
Definition intr_ack (d : vdisk) : vdisk := set_vintr (Z.land (vintr d) (Z.lnot (Z.land (vintr d) 3))) d.

(** The body of the loop. *)
Definition intr_body (me : option nat) (st : vst) : res vst :=
  let '(d, ps) := st in
  match used_ring d !! Z.to_nat (used_idx d mod Z.of_nat NUM) with
  | None => Panic "used ring"
  | Some (id, _) =>
      match info_status d !! Z.to_nat id, info_b d !! Z.to_nat id with
      | Some s, Some o =>
          if negb (s =? 0) then Panic "virtio_disk_intr status"
          else
            match o with
            | None => Panic "null buffer"
            | Some b =>
                let d := set_vbufs (alter (set_vb_disk 0) b (vbufs d)) d in
                Ok (set_used_idx (u16 (used_idx d + 1)) d, wakeup V me (ChBuf b) ps)
            end
      | _, _ => Panic "descriptor index"
      end
  end.

(** The loop without the device running in between. *)
Fixpoint intr_loop (fuel : nat) (me : option nat) (st : vst) : res vst :=
  if used_idx st.1 =? used_pos st.1 then Ok st
  else match fuel with O => NoFuel | S f => st ← intr_body me st; intr_loop f me st end.

Definition virtio_disk_intr (me : option nat) (st : vst) : res vst :=
  let '(d, ps) := st in intr_loop NUM me (intr_ack d, ps).
End driver.

(** ** virtio_disk_init *)

(** The driver when all descriptors are unused: the queue pages and [struct
    disk] are zero but for [free]. *)
Definition vdisk0 (bs : list vbuf) : vdisk :=
  mkVD (replicate NUM (mkDesc ANull 0 0 0)) 0 (replicate NUM 0) 0 (replicate NUM (0, 0)) (replicate NUM 1) 0
    (replicate NUM None) (replicate NUM 0) (replicate NUM (mkReq 0 0 0)) bs 0 0.

Definition MAGIC_VALUE : Z := 0.
Definition VERSION : Z := 4.
Definition DEVICE_ID : Z := 8.
Definition VENDOR_ID : Z := 12.
Definition DEVICE_FEATURES : Z := 16.
Definition DRIVER_FEATURES : Z := 32.
Definition QUEUE_SEL : Z := 48.
Definition QUEUE_NUM_MAX : Z := 52.
Definition QUEUE_NUM : Z := 56.
Definition QUEUE_READY : Z := 68.
Definition STATUS : Z := 112.
Definition DESC_LOW : Z := 128.
Definition AVAIL_LOW : Z := 144.          (* VIRTIO_MMIO_DRIVER_DESC_LOW *)
Definition USED_LOW : Z := 160.           (* VIRTIO_MMIO_DEVICE_DESC_LOW *)

(** The feature bits the driver does not use. *)
Definition NO_FEATURES : list Z := [5; 7; 11; 12; 27; 29; 28].

Section init.
(** The value of a register, given the writes so far (the last one first). *)
Context (reg : list (Z * Z) → Z → Z).

Definition wr (a v : Z) (w : list (Z * Z)) : list (Z * Z) := (a, u32 v) :: w.
Definition wr64 (a v : Z) (w : list (Z * Z)) : list (Z * Z) := wr (a + 4) (Z.shiftr v 32) (wr a v w).

(** The writes, the three queue pages and the page allocator; the driver then
    is [vdisk0]. *)
Definition virtio_disk_init (k : kst) : res (list (Z * Z) * (Z * Z * Z) * kst) :=
  let w := [] in
  if negb (reg w MAGIC_VALUE =? 1953655158) || negb (reg w VERSION =? 2) ||
     negb (reg w DEVICE_ID =? 2) || negb (reg w VENDOR_ID =? 1431127377) then Panic "could not find virtio disk"
  else
    let status := 0 in
    let w := wr STATUS status w in
    let status := Z.lor status 1 in
    let w := wr STATUS status w in
    let status := Z.lor status 2 in
    let w := wr STATUS status w in
    let features := foldl (λ f b, Z.land f (Z.lnot (Z.shiftl 1 b))) (reg w DEVICE_FEATURES) NO_FEATURES in
    let w := wr DRIVER_FEATURES features w in
    let status := Z.lor status 8 in
    let w := wr STATUS status w in
    let status := reg w STATUS in
    if Z.land status 8 =? 0 then Panic "virtio disk FEATURES_OK unset"
    else
      let w := wr QUEUE_SEL 0 w in
      if negb (reg w QUEUE_READY =? 0) then Panic "virtio disk should not be ready"
      else
        let max := reg w QUEUE_NUM_MAX in
        if max =? 0 then Panic "virtio disk has no queue 0"
        else if max <? Z.of_nat NUM then Panic "virtio disk max queue too short"
        else
          let '(desc, k) := kalloc k in
          let '(avail, k) := kalloc k in
          let '(used, k) := kalloc k in
          if (desc =? 0) || (avail =? 0) || (used =? 0) then Panic "virtio disk kalloc"
          else
            let m := memset (memset (memset (km k) desc 0 PGSIZE) avail 0 PGSIZE) used 0 PGSIZE in
            let w := wr QUEUE_NUM (Z.of_nat NUM) w in
            let w := wr64 DESC_LOW desc w in
            let w := wr64 AVAIL_LOW avail w in
            let w := wr64 USED_LOW used w in
            let w := wr QUEUE_READY 1 w in
            let status := Z.lor status 4 in
            let w := wr STATUS status w in
            Ok (w, (desc, avail, used), mkK m (freelist k)).
End init.

(** ** The device *)

(** The bytes of the medium at [a]. *)
Fixpoint media_read (m : mem) (a : Z) (n : nat) : block :=
  match n with O => [] | S n' => ld8 m a :: media_read m (a + 1) n' end.
Fixpoint media_write (m : mem) (a : Z) (bs : block) : mem :=
  match bs with [] => m | b :: bs' => media_write (<[a := b]> m) (a + 1) bs' end.

(** The well-formed chains: a header, a data buffer of one block, a status. *)
Definition chain_of (d : vdisk) (h : nat) (r : vreq) (b i1 i2 : nat) : Prop :=
  (∃ i, desc d !! h = Some (mkDesc (AOp i) 16 1 (Z.of_nat i1)) ∧ ops d !! i = Some r) ∧
  desc d !! i1 = Some (mkDesc (AData b) BSIZE (if r_type r =? VIRTIO_BLK_T_OUT then 1 else 3) (Z.of_nat i2)) ∧
  desc d !! i2 = Some (mkDesc (AStatus h) 1 2 0) ∧
  (r_type r = VIRTIO_BLK_T_OUT ∨ r_type r = VIRTIO_BLK_T_IN).

(** The data of the request: the buffer's, or the medium's. *)
Definition requested (r : vreq) (b : nat) (d : vdisk) (m : mem) : block :=
  if r_type r =? VIRTIO_BLK_T_OUT then match vbufs d !! b with Some x => vb_data x | None => [] end
  else media_read m (r_sector r * 512) (Z.to_nat BSIZE).

(** What the specification says the device does with one: it transfers a block
    [x], writes a status [st], makes the entry of the used ring, and raises the
    interrupt. *)
Definition served (h : nat) (r : vreq) (b : nat) (len st : Z) (x : block) (d : vdisk) (m : mem) : vdisk * mem :=
  let a := r_sector r * 512 in
  let finish d :=
    let d := set_status h st d in
    let d := set_used (u16 (used_pos d + 1))
      (<[Z.to_nat (used_pos d mod Z.of_nat NUM) := (Z.of_nat h, len)]> (used_ring d)) d in
    set_vintr (Z.lor (vintr d) 1) d in
  if r_type r =? VIRTIO_BLK_T_OUT
  then (finish d, media_write m a x)
  else (finish (set_vbufs (alter (set_vb_data x) b (vbufs d)) d), m).

(** A device: how it may serve the chain at a head. With status 0 (success) the
    block is the one of the request; with another status (VIRTIO_BLK_S_IOERR,
    VIRTIO_BLK_S_UNSUPP) it may be any. Nothing is known of what the device does
    with chains that are not well formed. *)
Class VirtioDevice := {
  serve : nat → vdisk * mem → vdisk * mem → Prop;
  serve_law h d m d' m' r b i1 i2 : serve h (d, m) (d', m') → chain_of d h r b i1 i2 →
    ∃ len st x, length x = Z.to_nat BSIZE ∧ (st = 0 → x = requested r b d m) ∧
      (d', m') = served h r b len st x d m
}.
