(* ===== verification/VirtioInv.v ===== *)
(** * The virtio driver in every interleaving

    First the entries between two positions of a ring as a queue, reads after
    writes of the medium, and what [alloc3_desc] and [free_chain] do to the free
    list.

    Then [vstep], which interleaves processes in [virtio_disk_rw], the interrupt
    handler and the device; [vinv] relates the descriptors, the rings and the
    buffers to the requests in flight, and every step keeps it. *)
From S2P Require Import Prelude Riscv Proc Bio Mem Virtio.

(** ** Rings: the entries from [lo] up to [hi] *)
Definition ringq (ring : list Z) (lo hi : Z) : list nat :=
  (λ k, Z.to_nat (aget ring ((lo + Z.of_nat k) mod Z.of_nat NUM))) <$> seq 0 (Z.to_nat (u16 (hi - lo))).

Definition idx_ok (x : Z) : Prop := 0 <= x < 65536.
Lemma idx_u16 x : idx_ok (u16 x).
Proof. unfold idx_ok, u16. apply Z.mod_pos_bound. lia. Qed.

Lemma ringq_nil ring lo : ringq ring lo lo = [].
Proof. unfold ringq. by rewrite Z.sub_diag. Qed.

Lemma ringq_length ring lo hi : length (ringq ring lo hi) = Z.to_nat (u16 (hi - lo)).
Proof. unfold ringq. by rewrite length_fmap, length_seq. Qed.

Lemma mod8_u16 x k : (u16 x + k) mod 8 = (x + k) mod 8.
Proof. unfold u16. Z.to_euclidean_division_equations. lia. Qed.

Lemma ringq_pop ring lo hi :
  idx_ok lo → idx_ok hi → lo ≠ hi →
  ringq ring lo hi = Z.to_nat (aget ring (lo mod Z.of_nat NUM)) :: ringq ring (u16 (lo + 1)) hi.
Proof.
  intros Hlo Hhi Hne. unfold ringq.
  assert (Z.to_nat (u16 (hi - lo)) = S (Z.to_nat (u16 (hi - u16 (lo + 1))))) as ->.
  { unfold u16, idx_ok in *. Z.to_euclidean_division_equations. lia. }
  cbn [seq fmap list_fmap]. f_equal; [by rewrite Z.add_0_r|].
  rewrite <-seq_shift. fold (@fmap list _). rewrite <-list_fmap_compose. apply list_fmap_ext.
  intros _ k _. unfold compose. do 2 f_equal. change (Z.of_nat NUM) with 8. rewrite mod8_u16. f_equal. lia.
Qed.

Lemma ringq_push ring lo hi x :
  length ring = NUM → idx_ok lo → idx_ok hi → (length (ringq ring lo hi) < NUM)%nat →
  ringq (<[Z.to_nat (hi mod Z.of_nat NUM) := Z.of_nat x]> ring) lo (u16 (hi + 1)) = ringq ring lo hi ++ [x].
Proof.
  intros Hr Hlo Hhi Hlen. rewrite ringq_length in Hlen. unfold ringq. change NUM with 8%nat in *.
  set (n := Z.to_nat (u16 (hi - lo))) in *.
  assert (Z.to_nat (u16 (u16 (hi + 1) - lo)) = S n) as ->.
  { subst n. unfold u16, idx_ok in *. Z.to_euclidean_division_equations. lia. }
  rewrite seq_S, fmap_app. f_equal.
  - apply list_fmap_ext. intros i k Hk. apply lookup_seq in Hk as [-> Hk]. f_equal. unfold aget.
    rewrite list_lookup_insert_ne; [done|].
    subst n. unfold u16, idx_ok in *. Z.to_euclidean_division_equations. lia.
  - simpl. f_equal. unfold aget.
    replace ((lo + Z.of_nat n) mod Z.of_nat 8) with (hi mod Z.of_nat 8).
    + rewrite list_lookup_insert_eq; [simpl; lia|]. rewrite Hr. Z.to_euclidean_division_equations. lia.
    + subst n. unfold u16, idx_ok in *. Z.to_euclidean_division_equations. lia.
Qed.

(** ** The medium *)
Lemma media_write_other m bs : ∀ a x, (x < a ∨ a + zlen bs <= x) → ld8 (media_write m a bs) x = ld8 m x.
Proof.
  revert m. induction bs as [|b bs IH]; intros m a x Hx; simpl; [done|]. unfold zlen in *. simpl in Hx.
  rewrite IH by lia. unfold ld8. rewrite lookup_insert_ne by lia. done.
Qed.

Lemma media_read_ext m m' n : ∀ a, (∀ x, a <= x < a + Z.of_nat n → ld8 m x = ld8 m' x) →
  media_read m a n = media_read m' a n.
Proof.
  induction n as [|n IH]; intros a Hx; simpl; [done|]. rewrite Hx by lia. f_equal. apply IH. intros. apply Hx. lia.
Qed.

Lemma media_read_write m bs : ∀ a, media_read (media_write m a bs) a (length bs) = bs.
Proof.
  revert m. induction bs as [|b bs IH]; intros m a; simpl; [done|]. rewrite IH. f_equal.
  rewrite media_write_other by lia. unfold ld8. by rewrite lookup_insert_eq.
Qed.

Lemma media_read_length m n : ∀ a, length (media_read m a n) = n.
Proof. induction n; intros; simpl; auto. Qed.

Lemma media_read_other m a bs a' n :
  a' + Z.of_nat n <= a ∨ a + zlen bs <= a' → media_read (media_write m a bs) a' n = media_read m a' n.
Proof. intros Hd. apply media_read_ext. intros x Hx. apply media_write_other. lia. Qed.

(** ** The free list: [B] are the descriptors in use *)
Definition free_ok (d : vdisk) (B : list nat) : Prop :=
  length (vfree d) = NUM ∧ ∀ k, (k < NUM)%nat → vfree d !! k = Some (if decide (k ∈ B) then 0 else 1).

Definition nfree (d : vdisk) : Z := countb (λ x, negb (x =? 0)) (vfree d).

(** Other descriptors, another free list. *)
Definition set_descs (ds : list vdesc) (fs : list Z) (d : vdisk) : vdisk :=
  mkVD ds (avail_idx d) (avail_ring d) (used_pos d) (used_ring d) fs (used_idx d)
    (info_b d) (info_status d) (ops d) (vbufs d) (vnotify d) (vintr d).

Definition asleep (ps : list proc) (i : nat) (ch : channel) : Prop :=
  ∃ p, ps !! i = Some p ∧ sleeping_on ch p.

(** Nobody sleeps in [ps'] who does not in [ps]. *)
Definition fewer (ps ps' : list proc) : Prop := ∀ i ch, asleep ps' i ch → asleep ps i ch.

Lemma fewer_wakeup V me ch ps : fewer ps (wakeup V me ch ps).
Proof. intros i ch' (p & Hp & Hs). by destruct (wakeup_sleepers _ _ _ _ _ _ _ Hp Hs) as [? _]. Qed.

Lemma asleep_wakeup V me ch ps i : asleep (wakeup V me ch ps) i ch → me = Some i ∧ asleep ps i ch.
Proof. intros (p & Hp & Hs). destruct (wakeup_sleepers _ _ _ _ _ _ _ Hp Hs) as [? Hi]. auto. Qed.

Lemma free_ok_ext d B B' : (∀ k, k ∈ B ↔ k ∈ B') → free_ok d B → free_ok d B'.
Proof.
  intros He [Hl Hf]. split; [done|]. intros k Hk. rewrite Hf by done. f_equal.
  by apply decide_ext.
Qed.

Lemma find_free_spec l : ∀ k i, find_free l k = Some i →
  (k <= i)%nat ∧ ∃ x, l !! (i - k)%nat = Some x ∧ x ≠ 0.
Proof.
  induction l as [|x l IH]; intros k i; simpl; [done|]. destruct (Z.eqb_spec x 0).
  - intros Hf. destruct (IH _ _ Hf) as (Hle & y & Hy & ?). split; [lia|]. exists y.
    replace (i - k)%nat with (S (i - S k)) by lia. done.
  - intros [= <-]. split; [done|]. rewrite Nat.sub_diag. by exists x.
Qed.

Lemma find_free_none l : ∀ k, find_free l k = None → countb (λ x, negb (x =? 0)) l = 0.
Proof.
  induction l as [|x l IH]; intros k; simpl; [done|]. destruct (Z.eqb_spec x 0); [|done].
  intros Hf. simpl. by rewrite (IH _ Hf).
Qed.

Lemma alloc_desc_spec d B : free_ok d B →
  match alloc_desc d with
  | (Some i, d') => (i < NUM)%nat ∧ (i ∉ B) ∧ d' = set_vfree i 0 d ∧ free_ok d' (i :: B) ∧ nfree d = nfree d' + 1
  | (None, d') => d' = d ∧ nfree d = 0
  end.
Proof.
  intros [Hl Hf]. unfold alloc_desc. destruct (find_free (vfree d) 0) as [i|] eqn:Hi.
  - apply find_free_spec in Hi as (_ & x & Hx & Hx0). rewrite Nat.sub_0_r in Hx.
    assert (i < NUM)%nat as Hlt by (rewrite <-Hl; by eapply lookup_lt_Some).
    assert (i ∉ B) as Hn.
    { intros Hb. rewrite Hf, decide_True in Hx by done. by simplify_eq. }
    split_and!; [done|done|done| |].
    + split; [simpl; by rewrite length_insert|]. intros k Hk. simpl.
      destruct (decide (i = k)) as [->|Hne].
      * rewrite list_lookup_insert_eq, decide_True by (done || set_solver || by rewrite Hl). done.
      * rewrite list_lookup_insert_ne, Hf by done. f_equal. apply decide_ext. set_solver.
    + unfold nfree. simpl. rewrite (countb_insert _ _ _ _ _ Hx).
      rewrite (proj2 (Z.eqb_neq x 0)) by done. simpl. lia.
  - split; [done|]. by eapply find_free_none.
Qed.

Lemma free_desc_spec V me i d ps B : free_ok d (i :: B) → (i < NUM)%nat → i ∉ B →
  ∃ d', free_desc V me i (d, ps) = Ok (d', wakeup V me ChDiskFree ps) ∧
    d' = set_descs (<[i := mkDesc ANull 0 0 0]> (desc d)) (<[i := 1]> (vfree d)) d ∧
    free_ok d' B ∧ nfree d' = nfree d + 1.
Proof.
  intros [Hl Hf] Hi Hn. assert (vfree d !! i = Some 0) as H0 by (rewrite Hf, decide_True by (done || set_solver); done).
  unfold free_desc. rewrite (proj2 (Nat.leb_gt _ _)) by done. unfold aget. rewrite Nat2Z.id, H0. simpl.
  eexists. split; [done|]. split; [done|]. split.
  - split; [simpl; by rewrite length_insert|]. intros k Hk. simpl.
    destruct (decide (i = k)) as [->|Hne].
    + rewrite list_lookup_insert_eq, decide_False by (done || by rewrite Hl). done.
    + rewrite list_lookup_insert_ne, Hf by done. f_equal. apply decide_ext. set_solver.
  - unfold nfree. simpl. rewrite (countb_insert _ _ _ _ _ H0). simpl. lia.
Qed.

(** [alloc3_desc]: three descriptors, or fewer than three are free. *)
Lemma alloc3_spec V me d ps B : free_ok d B →
  ∃ o d' ps', alloc3_desc V me (d, ps) = Ok (o, (d', ps')) ∧
  match o with
  | Some (i0, i1, i2) => ps' = ps ∧ NoDup [i0; i1; i2] ∧
      (∀ k, k ∈ [i0; i1; i2] → (k < NUM)%nat ∧ k ∉ B) ∧
      (∃ fs, d' = set_descs (desc d) fs d) ∧ free_ok d' ([i0; i1; i2] ++ B) ∧ nfree d' = nfree d - 3
  | None => nfree d < 3 ∧ nfree d' = nfree d ∧ free_ok d' B ∧ fewer ps ps' ∧
      ∃ ds fs, d' = set_descs ds fs d ∧ length ds = length (desc d) ∧ ∀ k, k ∈ B → ds !! k = desc d !! k
  end.
Proof.
  intros H0. unfold alloc3_desc.
  pose proof (alloc_desc_spec d B H0) as Ha. destruct (alloc_desc d) as [[i0|] d0]; cycle 1.
  { destruct Ha as [-> Hn]. eexists None, d, ps. split; [done|]. split_and!; [lia|done|done|by intros ??|].
    exists (desc d), (vfree d). split; [by destruct d|done]. }
  destruct Ha as (Hi0 & Hb0 & -> & Hf0 & Hn0).
  pose proof (alloc_desc_spec _ _ Hf0) as Ha. destruct (alloc_desc _) as [[i1|] d1]; cycle 1.
  { destruct Ha as [-> Hn]. destruct (free_desc_spec V me i0 _ ps B Hf0) as (d' & -> & Heq & Hf & Hn'); [done..|].
    simpl. eexists None, d', _. split; [done|]. split_and!; [lia|lia|done|apply fewer_wakeup|].
    do 2 eexists. split; [exact Heq|]. simpl. split; [by rewrite length_insert|].
    intros k Hk. by rewrite list_lookup_insert_ne by set_solver. }
  destruct Ha as (Hi1 & Hb1 & -> & Hf1 & Hn1).
  pose proof (alloc_desc_spec _ _ Hf1) as Ha. destruct (alloc_desc _) as [[i2|] d2]; cycle 1.
  { destruct Ha as [-> Hn].
    destruct (free_desc_spec V me i0 (set_vfree i1 0 (set_vfree i0 0 d)) ps (i1 :: B)) as (d' & -> & Heq & Hf & Hn');
      [|done|set_solver|].
    { eapply free_ok_ext; [|exact Hf1]. set_solver. }
    cbn [mbind res_bind]. destruct (free_desc_spec V me i1 _ (wakeup V me ChDiskFree ps) B Hf) as (d'' & -> & Heq' & Hf' & Hn'');
      [done|set_solver|].
    simpl. eexists None, d'', _. split; [done|]. split_and!; [lia|lia|done| |].
    { intros i ch Hs. by do 2 apply fewer_wakeup in Hs. }
    subst d'. do 2 eexists. split; [exact Heq'|]. simpl. split; [by rewrite !length_insert|].
    intros k Hk. by rewrite !list_lookup_insert_ne by set_solver. }
  destruct Ha as (Hi2 & Hb2 & -> & Hf2 & Hn2).
  eexists (Some (i0, i1, i2)), _, ps. split; [done|]. split; [done|]. split_and!.
  - repeat constructor; set_solver.
  - intros k Hk. set_solver.
  - by eexists.
  - eapply free_ok_ext; [|exact Hf2]. set_solver.
  - lia.
Qed.

(** One turn of [free_chain]. *)
Lemma free_chain_step V f me i d ps B x : free_ok d (i :: B) → (i < NUM)%nat → i ∉ B → desc d !! i = Some x →
  ∃ d', d' = set_descs (<[i := mkDesc ANull 0 0 0]> (desc d)) (<[i := 1]> (vfree d)) d ∧ free_ok d' B ∧
    free_chain V (S f) me i (d, ps) =
      if negb (Z.land (d_flags x) VRING_DESC_F_NEXT =? 0)
      then free_chain V f me (Z.to_nat (d_next x)) (d', wakeup V me ChDiskFree ps)
      else Ok (d', wakeup V me ChDiskFree ps).
Proof.
  intros Hf Hi Hn Hx. destruct (free_desc_spec V me i d ps B Hf Hi Hn) as (d' & Hd & Heq & Hf' & _).
  exists d'. split; [done|]. split; [done|]. cbn [free_chain]. simpl fst. rewrite Hx.
  by rewrite Hd.
Qed.

Lemma free_chain_spec V me i0 i1 i2 x0 x1 x2 d ps B :
  free_ok d ([i0; i1; i2] ++ B) → NoDup ([i0; i1; i2] ++ B) → (∀ k, k ∈ [i0; i1; i2] → (k < NUM)%nat) →
  desc d !! i0 = Some (mkDesc x0 16 1 (Z.of_nat i1)) →
  (∃ fl, desc d !! i1 = Some (mkDesc x1 BSIZE fl (Z.of_nat i2)) ∧ (fl = 1 ∨ fl = 3)) →
  desc d !! i2 = Some (mkDesc x2 1 2 0) →
  ∃ ds fs ps', free_chain V (S NUM) me i0 (d, ps) = Ok (set_descs ds fs d, ps') ∧
    free_ok (set_descs ds fs d) B ∧ length ds = length (desc d) ∧ (∀ k, k ∈ B → ds !! k = desc d !! k) ∧
    fewer ps ps' ∧ ∀ i, asleep ps' i ChDiskFree → me = Some i ∧ asleep ps i ChDiskFree.
Proof.
  intros Hf Hnd Hlt H0 (fl & H1 & Hfl) H2. simpl in Hnd.
  apply NoDup_cons in Hnd as [Hn0 Hnd]. apply NoDup_cons in Hnd as [Hn1 Hnd]. apply NoDup_cons in Hnd as [Hn2 _].
  assert (i0 < NUM ∧ i1 < NUM ∧ i2 < NUM)%nat as (L0 & L1 & L2) by (split_and!; apply Hlt; set_solver).
  destruct (free_chain_step V NUM me i0 d ps _ _ Hf L0 Hn0 H0) as (d1 & E1 & F1 & ->). simpl d_flags.
  change (negb (Z.land 1 VRING_DESC_F_NEXT =? 0)) with true. cbv iota. simpl d_next. rewrite Nat2Z.id.
  assert (desc d1 !! i1 = Some (mkDesc x1 BSIZE fl (Z.of_nat i2))) as H1'.
  { subst d1. simpl. rewrite list_lookup_insert_ne by set_solver. done. }
  change (free_chain V NUM) with (free_chain V 8).
  destruct (free_chain_step V 7 me i1 d1 (wakeup V me ChDiskFree ps) _ _ F1 L1 Hn1 H1') as (d2 & E2 & F2 & ->).
  cbn [d_flags]. replace (negb (Z.land fl VRING_DESC_F_NEXT =? 0)) with true by (by destruct Hfl; subst fl).
  simpl d_next. rewrite Nat2Z.id.
  assert (desc d2 !! i2 = Some (mkDesc x2 1 2 0)) as H2'.
  { subst d2 d1. simpl. rewrite !list_lookup_insert_ne by set_solver. done. }
  destruct (free_chain_step V 6 me i2 d2 (wakeup V me ChDiskFree (wakeup V me ChDiskFree ps)) _ _ F2 L2 Hn2 H2')
    as (d3 & E3 & F3 & ->). subst d3 d2 d1.
  do 3 eexists. split; [reflexivity|]. split; [exact F3|]. simpl. split_and!.
  - by rewrite !length_insert.
  - intros k Hk. by rewrite !list_lookup_insert_ne by set_solver.
  - intros i ch Hs. by do 3 apply fewer_wakeup in Hs.
  - intros i Hs. apply asleep_wakeup in Hs as [Hme Hs]. split; [done|]. by do 2 apply fewer_wakeup in Hs.
Qed.

Section virtio.
Context (V : Z) `{VirtioDevice}.

(** ** The system *)
Record vcfg := mkV {
  vd : vdisk;
  vps : list proc;
  vpcs : list (option vpc);              (* the processes inside [virtio_disk_rw] *)
  vmedia : mem;
  vlast : Z;                             (* up to where the device has read the avail ring *)
  vpending : list nat;                   (* the heads it has taken *)
  vhandler : option (option nat)         (* the interrupt handler, with its [myproc] *)
}.

Definition claim (pc : vpc) : option nat :=
  match pc with
  | VAlloc b _ | VAsleepFree b _ => Some b
  | VWait q | VAsleepBuf q => Some (q_b q)
  | VDone => None
  end.
Definition rq_of (pc : vpc) : option vrq :=
  match pc with VWait q | VAsleepBuf q => Some q | _ => None end.
(** The buffers in use by the driver; the requests handed to the device. *)
Definition claims (pcs : list (option vpc)) : list nat := omap (λ o, o ≫= claim) pcs.
Definition rqs (pcs : list (option vpc)) : list vrq := omap (λ o, o ≫= rq_of) pcs.

Definition running (ps : list proc) (i : nat) : Prop := ∃ p, ps !! i = Some p ∧ state p = RUNNING.

(** A buffer whose block fits the 32-bit sector arithmetic. *)
Definition buf_ok (x : vbuf) : Prop := 0 <= vb_blockno x < 2147483648 ∧ length (vb_data x) = Z.to_nat BSIZE.

Definition disk_chan (ch : channel) : Prop :=
  match ch with ChDiskFree | ChBuf _ => True | _ => False end.
Definition penv (ps ps' : list proc) : Prop := ∀ i ch, disk_chan ch → asleep ps' i ch → asleep ps i ch.

Inductive vstep : vcfg → vcfg → Prop :=
| vs_enter d ps pcs m l pe h i b w x :
    pcs !! i = Some None → running ps i → vbufs d !! b = Some x → buf_ok x →
    (* the caller holds the buffer, and no other buffer is for its block *)
    (∀ b' x', b' ∈ claims pcs → vbufs d !! b' = Some x' → b' ≠ b ∧ vb_blockno x' ≠ vb_blockno x) →
    vstep (mkV d ps pcs m l pe h) (mkV d ps (<[i := Some (VAlloc b w)]> pcs) m l pe h)
| vs_run d ps pcs m l pe i pc pc' d' ps' :
    pcs !! i = Some (Some pc) → running ps i → pc ≠ VDone →
    virtio_disk_rw V i pc (d, ps) = Ok (pc', (d', ps')) →
    vstep (mkV d ps pcs m l pe None) (mkV d' ps' (<[i := Some pc']> pcs) m l pe None)
| vs_leave d ps pcs m l pe h i :
    pcs !! i = Some (Some VDone) →
    vstep (mkV d ps pcs m l pe h) (mkV d ps (<[i := None]> pcs) m l pe h)
| vs_intr d ps pcs m l pe me :
    (∀ i, me = Some i → running ps i) →
    vstep (mkV d ps pcs m l pe None) (mkV (intr_ack d) ps pcs m l pe (Some me))
| vs_turn d ps pcs m l pe me d' ps' :
    used_idx d ≠ used_pos d → intr_body V me (d, ps) = Ok (d', ps') →
    vstep (mkV d ps pcs m l pe (Some me)) (mkV d' ps' pcs m l pe (Some me))
| vs_iret d ps pcs m l pe me :
    used_idx d = used_pos d →
    vstep (mkV d ps pcs m l pe (Some me)) (mkV d ps pcs m l pe None)
| vs_take d ps pcs m l pe h :
    l ≠ avail_idx d →
    vstep (mkV d ps pcs m l pe h)
      (mkV d ps pcs m (u16 (l + 1)) (Z.to_nat (aget (avail_ring d) (l mod Z.of_nat NUM)) :: pe) h)
| vs_serve d ps pcs m l pe pe' h k d' m' :
    pe ≡ₚ k :: pe' → serve k (d, m) (d', m') →
    vstep (mkV d ps pcs m l pe h) (mkV d' ps pcs m' l pe' h)
| vs_env d ps pcs m l pe h ps' bs :
    (* other code: it puts nobody to sleep here and leaves our buffers alone *)
    penv ps ps' → (∀ b, b ∈ claims pcs → bs !! b = vbufs d !! b) →
    vstep (mkV d ps pcs m l pe h) (mkV (set_vbufs bs d) ps' pcs m l pe h).

(** ** The invariant *)
Definition idxs (q : vrq) : list nat := [q_0 q; q_1 q; q_2 q].
Definition busy (R : list vrq) : list nat := R ≫= idxs.

Definition availq (d : vdisk) (l : Z) : list nat := ringq (avail_ring d) l (avail_idx d).
Definition usedq (d : vdisk) : list nat := ringq (fst <$> used_ring d) (used_idx d) (used_pos d).

(** The descriptors of a request. *)
Record rq_fmt (d : vdisk) (q : vrq) (x : vbuf) : Prop := {
  rf_0 : desc d !! q_0 q = Some (mkDesc (AOp (q_0 q)) 16 1 (Z.of_nat (q_1 q)));
  rf_op : ops d !! q_0 q =
    Some (mkReq (if q_write q then VIRTIO_BLK_T_OUT else VIRTIO_BLK_T_IN) 0 (u32 (vb_blockno x * (BSIZE / 512))));
  rf_1 : desc d !! q_1 q =
    Some (mkDesc (AData (q_b q)) BSIZE (if q_write q then 1 else 3) (Z.of_nat (q_2 q)));
  rf_2 : desc d !! q_2 q = Some (mkDesc (AStatus (q_0 q)) 1 2 0);
  rf_b : info_b d !! q_0 q = Some (Some (q_b q))
}.

Definition block_at (m : mem) (blkno : Z) : block := media_read m (blkno * BSIZE) (Z.to_nat BSIZE).

Record vlens (d : vdisk) : Prop := {
  vl_desc : length (desc d) = NUM; vl_avail : length (avail_ring d) = NUM; vl_used : length (used_ring d) = NUM;
  vl_b : length (info_b d) = NUM; vl_status : length (info_status d) = NUM; vl_ops : length (ops d) = NUM
}.

(** Over the requests [R] and the buffers [C] in use. *)
Record vcore (R : list vrq) (C : list nat) (d : vdisk) (ps : list proc) (m : mem) (l : Z) (pe : list nat)
    (h : option (option nat)) : Prop := {
  vi_lens : vlens d;
  vi_idx : idx_ok (avail_idx d) ∧ idx_ok (used_pos d) ∧ idx_ok (used_idx d) ∧ idx_ok l;
  vi_nodup : NoDup (busy R);
  vi_lt k : k ∈ busy R → (k < NUM)%nat;
  vi_free : free_ok d (busy R);
  vi_claims : NoDup C;
  vi_sub : ∃ C0, C ≡ₚ (q_b <$> R) ++ C0;
  vi_buf b : b ∈ C → ∃ x, vbufs d !! b = Some x ∧ buf_ok x;
  vi_blk b b' x x' : b ∈ C → b' ∈ C → vbufs d !! b = Some x → vbufs d !! b' = Some x' →
    vb_blockno x = vb_blockno x' → b = b';
  vi_fmt q x : q ∈ R → vbufs d !! q_b q = Some x → rq_fmt d q x;
  (* the requests the driver still waits for are in one of the queues *)
  vi_queue : q_0 <$> filter (λ q, disk_flag d (q_b q) = 1) R ≡ₚ availq d l ++ pe ++ usedq d;
  (* the others, and those in the used ring, have a status; with success the block
     has been transferred, and those the driver no longer waits for succeeded *)
  vi_done q x : q ∈ R → vbufs d !! q_b q = Some x → q_0 q ∉ availq d l ++ pe →
    ∃ s, info_status d !! q_0 q = Some s ∧ (s = 0 → block_at m (vb_blockno x) = vb_data x) ∧
      (q_0 q ∉ usedq d → s = 0);
  vi_sleep_free i : asleep ps i ChDiskFree → nfree d < 3;
  vi_sleep_buf i b : asleep ps i (ChBuf b) → b ∈ C ∧ disk_flag d b = 1;
  vi_intr : used_idx d ≠ used_pos d → Z.testbit (vintr d) 0 = true ∨ is_Some h;
  vi_handler i ch : h = Some (Some i) → disk_chan ch → ¬ asleep ps i ch
}.

Definition vinv (c : vcfg) : Prop :=
  vcore (rqs (vpcs c)) (claims (vpcs c)) (vd c) (vps c) (vmedia c) (vlast c) (vpending c) (vhandler c).

#[export] Instance busy_perm : Proper (Permutation ==> Permutation) busy.
Proof. intros R R' HR. unfold busy. by rewrite HR. Qed.

Lemma vcore_perm R R' C C' d ps m l pe h :
  R ≡ₚ R' → C ≡ₚ C' → vcore R C d ps m l pe h → vcore R' C' d ps m l pe h.
Proof.
  intros HR HC []. split; try done.
  - by rewrite <-HR.
  - intros k. rewrite <-HR. auto.
  - eapply free_ok_ext; [|done]. intros k. by rewrite HR.
  - by rewrite <-HC.
  - destruct vi_sub0 as [C0 Hs]. exists C0. by rewrite <-HC, <-HR.
  - intros b. rewrite <-HC. auto.
  - intros b b' x x'. rewrite <-HC. eauto.
  - intros q x. rewrite <-HR. auto.
  - by rewrite <-HR.
  - intros q x. rewrite <-HR. auto.
  - intros i b Hs. rewrite <-HC. eauto.
Qed.

(** *** Facts about a request in flight *)
Lemma busy_cons q R : busy (q :: R) = idxs q ++ busy R.
Proof. done. Qed.

Lemma busy_length R : length (busy R) = (3 * length R)%nat.
Proof. induction R as [|q R IH]; [done|]. rewrite busy_cons, length_app, IH. simpl. lia. Qed.

Lemma busy_elem R q k : q ∈ R → k ∈ idxs q → k ∈ busy R.
Proof. intros. apply list_elem_of_bind. eauto. Qed.

Lemma busy_same R q q' k : NoDup (busy R) → q ∈ R → q' ∈ R → k ∈ idxs q → k ∈ idxs q' → q = q'.
Proof.
  intros Hn Hq Hq' Hk Hk'. apply elem_of_Permutation in Hq as [R1 HR]. rewrite HR in *.
  rewrite busy_cons in Hn. apply NoDup_app in Hn as (_ & Hd & _).
  apply elem_of_cons in Hq' as [->|Hq']; [done|]. exfalso. apply (Hd k Hk). by eapply busy_elem.
Qed.

Section facts.
Context (R : list vrq) (C : list nat) (d : vdisk) (ps : list proc) (m : mem) (l : Z) (pe : list nat)
  (h : option (option nat)).
Hypothesis Hc : vcore R C d ps m l pe h.

Lemma core_claim q : q ∈ R → q_b q ∈ C.
Proof.
  intros Hq. destruct (vi_sub _ _ _ _ _ _ _ _ Hc) as [C0 ->]. apply elem_of_app. left. by apply list_elem_of_fmap_2.
Qed.

Lemma core_buf q : q ∈ R → ∃ x, vbufs d !! q_b q = Some x ∧ buf_ok x ∧ rq_fmt d q x.
Proof.
  intros Hq. destruct (vi_buf _ _ _ _ _ _ _ _ Hc _ (core_claim _ Hq)) as (x & Hx & Hok).
  exists x. split_and!; [done|done|]. by eapply vi_fmt.
Qed.

Lemma core_bufs_nodup : NoDup (q_b <$> R).
Proof.
  pose proof (vi_claims _ _ _ _ _ _ _ _ Hc) as Hn. destruct (vi_sub _ _ _ _ _ _ _ _ Hc) as [C0 HC].
  rewrite HC in Hn. by apply NoDup_app in Hn as [? _].
Qed.

Lemma core_same_buf q q' : q ∈ R → q' ∈ R → q_b q = q_b q' → q = q'.
Proof.
  intros Hq Hq' Hb. pose proof core_bufs_nodup as Hn. apply elem_of_Permutation in Hq as [R1 HR].
  rewrite HR in Hn, Hq'. apply elem_of_cons in Hq' as [->|Hq']; [done|].
  simpl in Hn. apply NoDup_cons in Hn as [Hn _]. exfalso. apply Hn. rewrite Hb. by apply list_elem_of_fmap_2.
Qed.

Lemma core_count : (length R <= 2)%nat.
Proof.
  pose proof (busy_length R) as Hl.
  assert (length (busy R) <= NUM)%nat; [|unfold NUM in *; lia].
  rewrite <-(length_seq NUM 0). apply submseteq_length, NoDup_submseteq; [apply (vi_nodup _ _ _ _ _ _ _ _ Hc)|].
  intros k Hk. apply elem_of_seq. split; [lia|]. by apply (vi_lt _ _ _ _ _ _ _ _ Hc).
Qed.

Lemma core_queues : (length (availq d l) + length pe + length (usedq d) <= 2)%nat.
Proof.
  pose proof (Permutation_length (vi_queue _ _ _ _ _ _ _ _ Hc)) as Hl. rewrite !length_app, length_fmap in Hl.
  pose proof (length_filter (λ q, disk_flag d (q_b q) = 1) R). pose proof core_count. lia.
Qed.

(** A head in one of the queues is that of a request. *)
Lemma core_head k : k ∈ availq d l ++ pe ++ usedq d → ∃ q, q ∈ R ∧ q_0 q = k ∧ disk_flag d (q_b q) = 1.
Proof.
  rewrite <-(vi_queue _ _ _ _ _ _ _ _ Hc). intros (q & -> & Hq)%list_elem_of_fmap.
  apply list_elem_of_filter in Hq as [Hf Hq]. eauto.
Qed.

Lemma core_heads_nodup : NoDup (availq d l ++ pe ++ usedq d).
Proof.
  rewrite <-(vi_queue _ _ _ _ _ _ _ _ Hc). apply NoDup_fmap_2_strong.
  - intros q q' Hq Hq' He. apply list_elem_of_filter in Hq as [_ Hq], Hq' as [_ Hq'].
    eapply (busy_same R); [apply (vi_nodup _ _ _ _ _ _ _ _ Hc)|done|done|by left|rewrite He; by left].
  - apply NoDup_filter. pose proof core_bufs_nodup as Hn. by apply NoDup_fmap_1 in Hn.
Qed.
End facts.
End virtio.
