(* ===== verification/VirtioSteps.v ===== *)
(** * The steps of the virtio driver keep its invariant *)
From S2P Require Import Prelude Riscv Proc Bio Mem Virtio VirtioInv.

#[local] Arguments media_read : simpl never.

Section steps.
Context (V : Z).
Implicit Types (R : list vrq) (C : list nat) (d : vdisk) (q : vrq).

Lemma core_ps R C d ps ps' m l pe h : penv ps ps' → vcore R C d ps m l pe h → vcore R C d ps' m l pe h.
Proof.
  intros Hp []. split; try done.
  - intros i Hs. eapply vi_sleep_free. by apply Hp in Hs.
  - intros i b Hs. eapply vi_sleep_buf. by apply Hp in Hs.
  - intros i ch Hh Hch Hs. eapply vi_handler; [done|done|]. by apply Hp in Hs.
Qed.

Lemma penv_fewer ps ps' : fewer ps ps' → penv ps ps'.
Proof. intros Hf i ch _. apply Hf. Qed.

Lemma asleep_begin me ch ps j ch' : asleep (sleep_begin me ch ps) j ch' → (j = me ∧ ch' = ch) ∨ asleep ps j ch'.
Proof.
  intros (p & Hp & Hs). rewrite sleep_begin_lookup in Hp. case_decide as Hj; [|right; by exists p].
  subst. destruct (ps !! j) as [p0|]; simplify_eq/=. destruct Hs as [_ Hs]. left. by simpl in Hs.
Qed.

Lemma asleep_end me ps : penv ps (sleep_end me ps).
Proof.
  intros i ch Hch (p & Hp & Hs). unfold sleep_end in Hp. rewrite list_lookup_alter in Hp.
  case_decide; [|by exists p]. apply fmap_Some in Hp as (p0 & _ & ->).
  destruct Hs as [_ Hs]. simpl in Hs. by subst ch.
Qed.

Lemma running_awake ps i ch : running ps i → ¬ asleep ps i ch.
Proof. intros (p & Hp & Hr) (p' & Hp' & Hs & _). congruence. Qed.

(** Another descriptor table and free list. *)
Lemma fmt_descs ds fs d R q x :
  (∀ k, k ∈ busy R → ds !! k = desc d !! k) → q ∈ R → rq_fmt d q x → rq_fmt (set_descs ds fs d) q x.
Proof.
  intros Hds Hq []. split; simpl; try done; rewrite Hds; try done; (eapply busy_elem; [done|]); set_solver.
Qed.

Lemma core_descs R C d ps m l pe h ds fs :
  vcore R C d ps m l pe h → length ds = length (desc d) → (∀ k, k ∈ busy R → ds !! k = desc d !! k) →
  free_ok (set_descs ds fs d) (busy R) → nfree (set_descs ds fs d) = nfree d ∨ (∀ i, ¬ asleep ps i ChDiskFree) →
  vcore R C (set_descs ds fs d) ps m l pe h.
Proof.
  intros [] Hl Hds Hf Hn. split; try done.
  - destruct vi_lens. split; simpl; congruence.
  - intros q x Hq Hx. eapply fmt_descs; [done|done|]. by apply vi_fmt.
  - intros i Hi. destruct Hn as [->|Hn]; [by eapply vi_sleep_free|]. by destruct (Hn i).
Qed.

Lemma core_sleep R C d ps m l pe i ch :
  vcore R C d ps m l pe None →
  match ch with ChDiskFree => nfree d < 3 | ChBuf b => b ∈ C ∧ disk_flag d b = 1 | _ => False end →
  vcore R C d (sleep_begin i ch ps) m l pe None.
Proof.
  intros [] Hch. split; try done.
  - intros j [[-> <-]|Hs]%asleep_begin; [done|]. by eapply vi_sleep_free.
  - intros j b [[-> <-]|Hs]%asleep_begin; [done|]. by eapply vi_sleep_buf.
Qed.

(** The device takes a head. *)
Lemma core_take R C d ps m l pe h :
  vcore R C d ps m l pe h → l ≠ avail_idx d →
  vcore R C d ps m (u16 (l + 1)) (Z.to_nat (aget (avail_ring d) (l mod Z.of_nat NUM)) :: pe) h.
Proof.
  intros [] Hl. destruct vi_idx as (I1 & I2 & I3 & I4).
  pose proof (ringq_pop (avail_ring d) l (avail_idx d) I4 I1 Hl) as Hpop.
  split; try done.
  - split_and!; try done. apply idx_u16.
  - rewrite vi_queue. unfold availq. rewrite Hpop. simpl. by rewrite Permutation_middle.
  - intros q x Hq Hx Hn. eapply vi_done; [done|done|]. unfold availq in *. rewrite Hpop. set_solver.
Qed.

(** The handler acknowledges; it ends. *)
Lemma core_ack R C d ps m l pe me :
  vcore R C d ps m l pe None → (∀ i, me = Some i → running ps i) →
  vcore R C (intr_ack d) ps m l pe (Some me).
Proof.
  intros [] Hme. split; try done.
  - destruct vi_lens. by split.
  - intros q x Hq Hx. by destruct (vi_fmt q x Hq Hx).
  - intros _. by right.
  - intros i ch [= ->] _. apply running_awake. by apply Hme.
Qed.

Lemma core_iret R C d ps m l pe h :
  vcore R C d ps m l pe h → used_idx d = used_pos d → vcore R C d ps m l pe None.
Proof. intros [] Hu. by split. Qed.

(** Other buffers change. *)
Lemma core_env R C d ps m l pe h bs :
  vcore R C d ps m l pe h → (∀ b, b ∈ C → bs !! b = vbufs d !! b) → vcore R C (set_vbufs bs d) ps m l pe h.
Proof.
  intros Hc Hb. pose proof (core_claim _ _ _ _ _ _ _ _ Hc) as Hcl.
  assert (∀ b, b ∈ C → disk_flag (set_vbufs bs d) b = disk_flag d b) as Hfl.
  { intros b Hin. unfold disk_flag. simpl. by rewrite Hb. }
  destruct Hc. split; try done; simpl.
  - destruct vi_lens. by split.
  - intros b Hin. rewrite Hb by done. auto.
  - intros b b' x x' Hin Hin'. rewrite !Hb by done. eauto.
  - intros q x Hq. rewrite Hb by auto. intros Hx. by destruct (vi_fmt q x Hq Hx).
  - rewrite (filter_same _ (λ q, disk_flag d (q_b q) = 1)); [exact vi_queue|].
    intros q Hq. by rewrite Hfl by auto.
  - intros q x Hq. rewrite Hb by auto. by apply vi_done.
  - intros i b Hs. destruct (vi_sleep_buf i b Hs) as [Hin Hfl']. by rewrite Hfl.
Qed.

Lemma alter_vb_lookup (g : vbuf → vbuf) b (bs : list vbuf) b' :
  alter g b bs !! b' = if decide (b = b') then g <$> bs !! b' else bs !! b'.
Proof. rewrite list_lookup_alter. case_decide; congruence. Qed.

Lemma flag_alter v b d b' : is_Some (vbufs d !! b) →
  disk_flag (set_vbufs (alter (set_vb_disk v) b (vbufs d)) d) b' = if decide (b = b') then v else disk_flag d b'.
Proof.
  intros [x Hx]. unfold disk_flag. simpl. rewrite alter_vb_lookup. case_decide; [|done]. subst. by rewrite Hx.
Qed.

(** A buffer after a change of disk flags. *)
Lemma alter_flag v b (bs : list vbuf) k x :
  alter (set_vb_disk v) b bs !! k = Some x →
  ∃ x0, bs !! k = Some x0 ∧ vb_blockno x0 = vb_blockno x ∧ vb_data x0 = vb_data x.
Proof.
  rewrite alter_vb_lookup. case_decide; [|by exists x].
  intros (x0 & Hx0 & ->)%fmap_Some. subst. by exists x0.
Qed.

Lemma fmt_blockno d q x x' : vb_blockno x = vb_blockno x' → rq_fmt d q x → rq_fmt d q x'.
Proof. intros He []. split; try done. by rewrite <-He. Qed.

(** The formatted request goes to the device. *)
Lemma submit_fmt_new d q x :
  vlens d → NoDup (idxs q) → (∀ k, k ∈ idxs q → (k < NUM)%nat) →
  rq_fmt (rw_submit q (u32 (vb_blockno x * (BSIZE / 512))) d) q x.
Proof.
  intros [L1 L2 L3 L4 L5 L6] Hn Hk. destruct q as [b w i0 i1 i2]. unfold idxs in *. simpl in *.
  assert (i0 < NUM ∧ i1 < NUM ∧ i2 < NUM)%nat as (K0 & K1 & K2) by (split_and!; apply Hk; set_solver).
  assert (i0 ≠ i1 ∧ i0 ≠ i2 ∧ i1 ≠ i2) as (N1 & N2 & N3).
  { apply NoDup_cons in Hn as [? Hn]. apply NoDup_cons in Hn as [? _]. set_solver. }
  split; simpl.
  - rewrite !list_lookup_insert_ne, list_lookup_insert_eq by (done || lia). done.
  - rewrite list_lookup_insert_eq by lia. done.
  - rewrite list_lookup_insert_ne, list_lookup_insert_eq by (done || rewrite length_insert; lia). by destruct w.
  - rewrite list_lookup_insert_eq by (rewrite !length_insert; lia). done.
  - rewrite list_lookup_insert_eq by lia. done.
Qed.

Lemma submit_fmt_old d q q' x s :
  (∀ k, k ∈ idxs q → k ∉ idxs q') → rq_fmt d q' x → rq_fmt (rw_submit q s d) q' x.
Proof.
  intros Hk [F1 F2 F3 F4 F5]. destruct q as [b w i0 i1 i2]. unfold idxs in Hk. simpl in Hk.
  assert (∀ k, k ∈ [q_0 q'; q_1 q'; q_2 q'] → i0 ≠ k ∧ i1 ≠ k ∧ i2 ≠ k) as Hne.
  { intros k Hin. split_and!; intros ->; by apply (Hk k); [set_solver|]. }
  assert (∀ k, k ∈ [q_0 q'; q_1 q'; q_2 q'] → desc (rw_submit (mkRq b w i0 i1 i2) s d) !! k = desc d !! k) as Hd.
  { intros k (? & ? & ?)%Hne. simpl. by rewrite !list_lookup_insert_ne. }
  destruct (Hne (q_0 q')) as (? & _ & _); [by left|].
  split; try (rewrite Hd by set_solver; done); simpl; by rewrite list_lookup_insert_ne.
Qed.

Lemma core_submit R C d ps m l pe h q x :
  vcore R C d ps m l pe h → q_b q ∈ C → q_b q ∉ q_b <$> R →
  vbufs d !! q_b q = Some x → NoDup (idxs q) → (∀ k, k ∈ idxs q → (k < NUM)%nat ∧ k ∉ busy R) →
  ∀ fs, free_ok (set_descs (desc d) fs d) (idxs q ++ busy R) → nfree (set_descs (desc d) fs d) = nfree d - 3 →
  vcore (q :: R) C (rw_submit q (u32 (vb_blockno x * (BSIZE / 512))) (set_descs (desc d) fs d)) ps m l pe h.
Proof.
  intros Hc HbC HbR Hx Hnd Hk fs Hf Hn. pose proof (core_queues _ _ _ _ _ _ _ _ Hc) as Hq2.
  set (d1 := set_descs (desc d) fs d) in *. set (s := u32 _).
  assert (vlens d1) as Hl1 by (destruct (vi_lens _ _ _ _ _ _ _ _ Hc); by split).
  assert (∀ b', disk_flag (rw_submit q s d1) b' = if decide (q_b q = b') then 1 else disk_flag d b') as Hfl.
  { intros b'. rewrite <-(flag_alter 1 (q_b q) d b') by by exists x. by destruct q. }
  assert (availq (rw_submit q s d1) l = availq d l ++ [q_0 q]) as Hav.
  { destruct q as [b w i0 i1 i2]. destruct Hc. destruct vi_idx as (? & ? & ? & ?). unfold availq. simpl.
    apply ringq_push; [by apply vl_avail|done|done|]. unfold availq in Hq2. unfold NUM. lia. }
  assert (vbufs (rw_submit q s d1) = alter (set_vb_disk 1) (q_b q) (vbufs d)) as Hvb by (by destruct q).
  assert (∀ q', q' ∈ R → q_b q ≠ q_b q') as Hnb.
  { intros q' Hq' He. apply HbR. rewrite He. by apply list_elem_of_fmap_2. }
  assert (∀ q', q' ∈ R → vbufs (rw_submit q s d1) !! q_b q' = vbufs d !! q_b q') as Hold.
  { intros q' Hq'. rewrite Hvb, alter_vb_lookup, decide_False; auto. }
  destruct Hc. split.
  - destruct q, Hl1. split; simpl in *; by rewrite ?length_insert.
  - destruct q. simpl. destruct vi_idx as (? & ? & ? & ?). split_and!; try done. apply idx_u16.
  - rewrite busy_cons. apply NoDup_app. split_and!; [done| |done]. intros k Hin. by apply Hk.
  - intros k. rewrite busy_cons. intros [Hin|Hin]%elem_of_app; [by apply Hk|auto].
  - rewrite busy_cons. by destruct q.
  - done.
  - destruct vi_sub as [C0 HC]. rewrite HC in HbC. apply elem_of_app in HbC as [?|HC0]; [done|].
    apply elem_of_Permutation in HC0 as [C1 HC1]. exists C1. rewrite HC, HC1. simpl. by rewrite Permutation_middle.
  - intros b Hb. rewrite Hvb, alter_vb_lookup. destruct (vi_buf b Hb) as (y & Hy & Hok). rewrite Hy.
    case_decide; eauto.
  - intros b b' y y' Hb Hb'. rewrite Hvb.
    intros (z & Hz & Ez & _)%alter_flag (z' & Hz' & Ez' & _)%alter_flag He.
    eapply (vi_blk b b' z z'); congruence.
  - intros q' y [->|Hq']%elem_of_cons Hy.
    + rewrite Hvb, alter_vb_lookup, decide_True, Hx in Hy by done. injection Hy as <-.
      eapply fmt_blockno; [|apply submit_fmt_new; [done|done|]]; [done|]. intros k Hin. by apply Hk.
    + rewrite Hold in Hy by done. apply submit_fmt_old.
      * intros k Hin Hin'. apply (Hk k Hin). by eapply busy_elem.
      * destruct (vi_fmt q' y Hq' Hy). by split.
  - rewrite Hav. rewrite filter_cons_True by by rewrite Hfl, decide_True. simpl.
    rewrite (filter_same _ (λ q, disk_flag d (q_b q) = 1)).
    + rewrite vi_queue. replace (usedq (rw_submit q s d1)) with (usedq d) by (by destruct q).
      rewrite <-!app_assoc. simpl. by rewrite Permutation_middle.
    + intros q' Hq'. by rewrite Hfl, decide_False by auto.
  - rewrite Hav. intros q' y [->|Hq']%elem_of_cons Hy Hni; [set_solver|]. rewrite Hold in Hy by done.
    destruct (vi_done q' y Hq' Hy) as (st & Hs & Hb & Hu0); [set_solver|]. exists st.
    replace (usedq (rw_submit q s d1)) with (usedq d) by (by destruct q). split_and!; [|done|done].
    destruct q as [b w i0 i1 i2]. simpl. rewrite list_lookup_insert_ne; [done|]. intros ->.
    apply (Hk (q_0 q')); [by left|]. eapply busy_elem; [done|by left].
  - intros i Hi. specialize (vi_sleep_free i Hi). replace (nfree (rw_submit q s d1)) with (nfree d1) by (by destruct q). lia.
  - intros i b Hi. destruct (vi_sleep_buf i b Hi). split; [done|]. rewrite Hfl. by case_decide.
  - by destruct q.
  - done.
Qed.

(** *** The device serves a request *)
Definition req_of (q : vrq) (x : vbuf) : vreq :=
  mkReq (if q_write q then VIRTIO_BLK_T_OUT else VIRTIO_BLK_T_IN) 0 (u32 (vb_blockno x * (BSIZE / 512))).

Lemma fmt_chain d q x : rq_fmt d q x → chain_of d (q_0 q) (req_of q x) (q_b q) (q_1 q) (q_2 q).
Proof.
  intros [F1 F2 F3 F4 F5]. split_and!; [by exists (q_0 q)| |done|].
  - rewrite F3. unfold req_of. simpl. by destruct (q_write q).
  - simpl. destruct (q_write q); auto.
Qed.

Lemma sector_ok x : buf_ok x → u32 (vb_blockno x * (BSIZE / 512)) * 512 = vb_blockno x * BSIZE.
Proof. intros [Hb _]. change (BSIZE / 512) with 2. unfold u32. rewrite Z.mod_small; [change BSIZE with 1024|]; lia. Qed.

(** What serving changes, with the transfer of a block [y] made explicit; the
    transfer that was asked for. *)
Definition moved_to (y : block) (q : vrq) (x : vbuf) (d : vdisk) (m : mem) : list vbuf * mem :=
  if q_write q then (vbufs d, media_write m (vb_blockno x * BSIZE) y)
  else (alter (set_vb_data y) (q_b q) (vbufs d), m).
Definition wanted (q : vrq) (x : vbuf) (m : mem) : block :=
  if q_write q then vb_data x else block_at m (vb_blockno x).
Definition moved (q : vrq) (x : vbuf) (d : vdisk) (m : mem) : list vbuf * mem :=
  moved_to (wanted q x m) q x d m.

Lemma requested_eq d m q x : vbufs d !! q_b q = Some x → buf_ok x →
  requested (req_of q x) (q_b q) d m = wanted q x m.
Proof.
  intros Hx Hok. unfold requested, wanted, req_of, block_at. simpl. rewrite sector_ok, Hx by done.
  by destruct (q_write q).
Qed.
Lemma wanted_length q x m : buf_ok x → length (wanted q x m) = Z.to_nat BSIZE.
Proof. intros [_ Hl]. unfold wanted. destruct (q_write q); [done|apply media_read_length]. Qed.

Lemma served_eq d m q x len st y : vbufs d !! q_b q = Some x → buf_ok x →
  served (q_0 q) (req_of q x) (q_b q) len st y d m =
    (set_vintr (Z.lor (vintr d) 1)
       (set_used (u16 (used_pos d + 1))
          (<[Z.to_nat (used_pos d mod Z.of_nat NUM) := (Z.of_nat (q_0 q), len)]> (used_ring d))
          (set_status (q_0 q) st (set_vbufs (moved_to y q x d m).1 d))), (moved_to y q x d m).2).
Proof.
  intros Hx Hok. unfold served, moved_to, req_of. simpl. rewrite sector_ok by done.
  destruct (q_write q); simpl; [|done]. by destruct d.
Qed.

(** The buffers after a transfer: the same blocks, one with new data. *)
Lemma moved_buf b q x d m k y : (moved_to b q x d m).1 !! k = Some y →
  ∃ y0, vbufs d !! k = Some y0 ∧ vb_blockno y = vb_blockno y0 ∧ vb_disk y = vb_disk y0 ∧
    (y = y0 ∨ k = q_b q).
Proof.
  unfold moved_to. destruct (q_write q); simpl; [intros; exists y; by split_and!; auto|].
  rewrite alter_vb_lookup. case_decide; [|intros; exists y; by split_and!; auto].
  intros (y0 & Hy & ->)%fmap_Some. exists y0. subst. by split_and!; auto.
Qed.

Lemma moved_some b q x d m k y : length b = Z.to_nat BSIZE →
  vbufs d !! k = Some y → buf_ok y → ∃ y', (moved_to b q x d m).1 !! k = Some y' ∧ buf_ok y'.
Proof.
  intros Hlb Hy [Hb Hl]. unfold moved_to. destruct (q_write q); simpl; [by exists y|].
  rewrite alter_vb_lookup, Hy. case_decide; simpl; [|by exists y].
  eexists. split; [done|]. by split.
Qed.

Lemma moved_flag b q x d m k : disk_flag (set_vbufs (moved_to b q x d m).1 d) k = disk_flag d k.
Proof.
  unfold disk_flag, moved_to. simpl. destruct (q_write q); simpl; [done|]. rewrite alter_vb_lookup.
  case_decide; [|done]. by destruct (vbufs d !! k).
Qed.

Lemma block_other m a bs n : a ≠ n → length bs = Z.to_nat BSIZE → block_at (media_write m (a * BSIZE) bs) n = block_at m n.
Proof.
  intros Hn Hl. apply media_read_other. unfold zlen. rewrite Hl. change (Z.of_nat (Z.to_nat BSIZE)) with 1024.
  change BSIZE with 1024. lia.
Qed.

(** The transfer itself, and what it leaves alone. *)
Lemma moved_self q x d m y : vbufs d !! q_b q = Some x → buf_ok x → (moved q x d m).1 !! q_b q = Some y →
  block_at (moved q x d m).2 (vb_blockno y) = vb_data y.
Proof.
  intros Hx [_ Hl]. unfold moved, moved_to, wanted. destruct (q_write q); simpl.
  - intros Hy. simplify_eq. unfold block_at. rewrite <-Hl. apply media_read_write.
  - rewrite alter_vb_lookup, decide_True, Hx by done. by intros [= <-].
Qed.

Lemma moved_block b q x d m n : vb_blockno x ≠ n → length b = Z.to_nat BSIZE →
  block_at (moved_to b q x d m).2 n = block_at m n.
Proof. intros Hn Hl. unfold moved_to. destruct (q_write q); simpl; [by apply block_other|done]. Qed.

Lemma core_serve R C d ps m l pe pe' h k q x len st b :
  vcore R C d ps m l pe h → pe ≡ₚ k :: pe' → q ∈ R → q_0 q = k → vbufs d !! q_b q = Some x →
  length b = Z.to_nat BSIZE → (st = 0 → b = wanted q x m) →
  let '(d', m') := served k (req_of q x) (q_b q) len st b d m in vcore R C d' ps m' l pe' h.
Proof.
  intros Hc Hpe Hq <- Hx Hlb Hst0. pose proof (core_queues _ _ _ _ _ _ _ _ Hc) as Hlen.
  pose proof (core_claim _ _ _ _ _ _ _ _ Hc) as Hcl. pose proof (core_same_buf _ _ _ _ _ _ _ _ Hc) as Hsb.
  assert (buf_ok x) as Hok.
  { destruct (core_buf _ _ _ _ _ _ _ _ Hc q Hq) as (x' & Hx' & ? & _). congruence. }
  rewrite served_eq by done. destruct (moved_to b q x d m) as [bs m'] eqn:Hmv.
  assert (bs = (moved_to b q x d m).1 ∧ m' = (moved_to b q x d m).2) as [-> ->] by (by rewrite Hmv). clear Hmv.
  set (d' := set_vintr _ _). destruct Hc. destruct vi_idx as (I1 & I2 & I3 & I4).
  assert (usedq d' = usedq d ++ [q_0 q]) as Hu.
  { unfold usedq. simpl. rewrite list_fmap_insert. apply ringq_push; [|done..|].
    - rewrite length_fmap. by apply vl_used.
    - unfold usedq in Hlen. unfold NUM. lia. }
  assert (∀ b, disk_flag d' b = disk_flag d b) as Hfl by (intros b'; apply (moved_flag b q x d m)).
  split; try done; simpl.
  - destruct vi_lens. split; simpl; by rewrite ?length_insert.
  - split_and!; try done. apply idx_u16.
  - intros b' Hb. destruct (vi_buf b' Hb) as (y & Hy & Hyok). by eapply moved_some.
  - intros b1 b2 y y' Hb Hb' (z & Hz & Ez & _)%moved_buf (z' & Hz' & Ez' & _)%moved_buf He.
    eapply (vi_blk b1 b2 z z'); congruence.
  - intros q' y Hq' (y0 & Hy0 & Ey & _)%moved_buf. eapply fmt_blockno; [symmetry; exact Ey|].
    by destruct (vi_fmt q' y0 Hq' Hy0).
  - rewrite (filter_same _ (λ q, disk_flag d (q_b q) = 1)) by (intros; by rewrite Hfl).
    rewrite vi_queue, Hu, Hpe. change (availq d' l) with (availq d l). f_equiv. simpl.
    by rewrite (Permutation_app_comm (usedq d)), Permutation_middle.
  - intros q' y Hq' Hy Hn. change (availq d' l) with (availq d l) in Hn.
    destruct (decide (q' = q)) as [->|Hne].
    + exists st. split_and!.
      * apply list_lookup_insert_eq. rewrite (vl_status _ vi_lens). apply vi_lt. eapply busy_elem; [done|by left].
      * intros ->. rewrite (Hst0 eq_refl) in *. by eapply (moved_self q x d m y).
      * rewrite Hu. set_solver.
    + assert (q_0 q' ≠ q_0 q) as Hne0.
      { intros He. apply Hne. eapply (busy_same R); [done|done|done|by left|rewrite He; by left]. }
      destruct (moved_buf _ _ _ _ _ _ _ Hy) as (y0 & Hy0 & Ey & _ & [->|Hb]); [|by destruct Hne; apply Hsb].
      destruct (vi_done q' y0 Hq' Hy0) as (s & Hst & Hblk & Hs0); [rewrite Hpe; set_solver|]. exists s.
      split_and!; [by rewrite list_lookup_insert_ne by done| |rewrite Hu; set_solver].
      intros Hz. rewrite moved_block; [by apply Hblk| |done].
      intros He. apply Hne, Hsb; [done|done|]. by eapply vi_blk; [apply Hcl..|exact Hy0|exact Hx|].
  - intros i b' Hi. rewrite Hfl. by eapply vi_sleep_buf.
  - intros _. left. change (Z.odd (Z.lor (vintr d) 1) = true). by rewrite <-Z.bit0_odd, Z.lor_spec, orb_true_r.
Qed.

(** *** A turn of the interrupt handler *)
Lemma usedq_head d : vlens d → idx_ok (used_idx d) → idx_ok (used_pos d) → used_idx d ≠ used_pos d →
  ∃ id len, used_ring d !! Z.to_nat (used_idx d mod Z.of_nat NUM) = Some (id, len) ∧
    usedq d = Z.to_nat id :: usedq (set_used_idx (u16 (used_idx d + 1)) d).
Proof.
  intros [] I1 I2 Hne. destruct (lookup_lt_is_Some_2 (used_ring d) (Z.to_nat (used_idx d mod Z.of_nat NUM))) as [[id len] He].
  { rewrite vl_used. unfold NUM. Z.to_euclidean_division_equations. lia. }
  exists id, len. split; [done|]. unfold usedq at 1. rewrite ringq_pop by done. f_equal.
  unfold aget. by rewrite list_lookup_fmap, He.
Qed.

Lemma core_turn R C d ps m l pe me :
  vcore R C d ps m l pe (Some me) → used_idx d ≠ used_pos d →
  (∃ d' ps' k, intr_body V me (d, ps) = Ok (d', ps') ∧ vcore R C d' ps' m l pe (Some me) ∧
    usedq d = k :: usedq d' ∧ used_pos d' = used_pos d ∧ info_status d' = info_status d) ∨
  (intr_body V me (d, ps) = Panic "virtio_disk_intr status" ∧
    ∃ k s, k ∈ usedq d ∧ info_status d !! k = Some s ∧ s ≠ 0).
Proof.
  intros Hc Hne. pose proof (vi_idx _ _ _ _ _ _ _ _ Hc) as (I1 & I2 & I3 & I4).
  destruct (usedq_head d (vi_lens _ _ _ _ _ _ _ _ Hc) I3 I2 Hne) as (id & len & Hid & Hu).
  set (k := Z.to_nat id) in *. set (rest := usedq (set_used_idx _ d)) in Hu.
  pose proof (core_heads_nodup _ _ _ _ _ _ _ _ Hc) as Hnd.
  destruct (core_head _ _ _ _ _ _ _ _ Hc k) as (q & Hq & Hk & Hflag); [rewrite Hu; set_solver|].
  destruct (core_buf _ _ _ _ _ _ _ _ Hc q Hq) as (x & Hx & Hok & Hfmt).
  assert (q_0 q ∉ availq d l ++ pe) as Hnot.
  { rewrite Hk. rewrite app_assoc in Hnd. apply NoDup_app in Hnd as (_ & Hd & _). intros Hin.
    apply (Hd k Hin). rewrite Hu. by left. }
  destruct (vi_done _ _ _ _ _ _ _ _ Hc q x Hq Hx Hnot) as (s & Hst & Hsd & _).
  unfold intr_body. rewrite Hid. fold k. rewrite <-Hk, Hst, (rf_b _ _ _ Hfmt).
  destruct (Z.eqb_spec s 0) as [->|Hs]; cbn [negb]; [left|right].
  2: { split; [done|]. exists k, s. rewrite Hu. rewrite <-Hk. split_and!; [by left|done|done]. }
  pose proof (core_claim _ _ _ _ _ _ _ _ Hc q Hq) as HqC.
  pose proof (core_same_buf _ _ _ _ _ _ _ _ Hc) as Hsb. pose proof (core_bufs_nodup _ _ _ _ _ _ _ _ Hc) as Hbn.
  do 2 eexists. exists k. split; [done|]. set (d' := set_used_idx _ _).
  assert (usedq d' = rest) as Hu' by done. split; [|by rewrite Hu, Hu'].
  assert (∀ b, disk_flag d' b = if decide (q_b q = b) then 0 else disk_flag d b) as Hfl.
  { intros b. apply flag_alter. by exists x. }
  destruct Hc. split; try done; simpl.
  - destruct vi_lens. by split.
  - split_and!; try done. apply idx_u16.
  - intros b Hb. destruct (vi_buf b Hb) as (y & Hy & Hyok). rewrite alter_vb_lookup, Hy. case_decide; simpl; eauto.
  - intros b b' y y' Hb Hb' (z & Hz & Ez & _)%alter_flag (z' & Hz' & Ez' & _)%alter_flag He.
    eapply (vi_blk b b' z z'); congruence.
  - intros q' y Hq' (y0 & Hy0 & Ey & _)%alter_flag. eapply fmt_blockno; [exact Ey|].
    by destruct (vi_fmt q' y0 Hq' Hy0).
  - apply (Permutation_cons_inv (a := k)). rewrite Hu in vi_queue.
    apply elem_of_Permutation in Hq as [R1 HR]. rewrite HR in *. simpl in Hbn. apply NoDup_cons in Hbn as [Hbn _].
    rewrite filter_cons_True in vi_queue by done. rewrite filter_cons_False.
    2: { rewrite Hfl, decide_True by done. done. }
    rewrite (filter_same _ (λ q, disk_flag d (q_b q) = 1)).
    + simpl in vi_queue. rewrite Hk in vi_queue. rewrite vi_queue, Hu'. change (availq d' l) with (availq d l).
      by rewrite !app_assoc, Permutation_middle.
    + intros q' Hq'. rewrite Hfl, decide_False; [done|]. intros He. apply Hbn. rewrite He. by apply list_elem_of_fmap_2.
  - intros q' y Hq' (y0 & Hy0 & <- & <-)%alter_flag Hn. destruct (decide (q' = q)) as [->|Hne'].
    + exists 0. replace y0 with x by congruence. split_and!; [done|by intros _; apply Hsd|done].
    + destruct (vi_done q' y0 Hq' Hy0 Hn) as (s & H1 & H2 & H3). exists s. split_and!; [done|done|].
      rewrite Hu'. intros Hr. apply H3. rewrite Hu. intros [He|]%elem_of_cons; [|done]. apply Hne'.
      eapply (busy_same R); [done|done|done|by left|rewrite He, <-Hk; by left].
  - intros i Hi. apply fewer_wakeup in Hi. by eapply vi_sleep_free.
  - intros i b Hi. pose proof (fewer_wakeup _ _ _ _ _ _ Hi) as Hi0. destruct (vi_sleep_buf i b Hi0) as [Hb Hfb].
    split; [done|]. rewrite Hfl. case_decide as Hb'; [|done]. subst b.
    apply asleep_wakeup in Hi as [-> Hi]. by destruct (vi_handler i (ChBuf (q_b q))).
  - intros _. right. by eexists.
  - intros i ch Hh Hch Hi. apply fewer_wakeup in Hi. by eapply vi_handler.
Qed.

(** *** The process takes its request back *)
Lemma core_finish R C d ps m l pe i q :
  vcore (q :: R) (q_b q :: C) d ps m l pe None → running ps i → disk_flag d (q_b q) ≠ 1 →
  ∃ d' ps', rw_wait V i q (d, ps) = Ok (VDone, (d', ps')) ∧ vcore R C d' ps' m l pe None ∧ vbufs d' = vbufs d.
Proof.
  intros Hc Hrun Hfl. unfold rw_wait. rewrite (proj2 (Z.eqb_neq _ _)) by done.
  destruct (core_buf _ _ _ _ _ _ _ _ Hc q) as (x & Hx & Hok & [F1 F2 F3 F4 F5]); [by left|].
  destruct Hc. rewrite busy_cons in vi_nodup, vi_free. setoid_rewrite busy_cons in vi_lt.
  assert (∀ k, k ∈ idxs q → k ∉ busy R) as Hk by (by apply NoDup_app in vi_nodup as (_ & ? & _)).
  destruct (free_chain_spec V (Some i) (q_0 q) (q_1 q) (q_2 q) (AOp (q_0 q)) (AData (q_b q)) (AStatus (q_0 q))
    (set_info_b (q_0 q) None d) ps (busy R)) as (ds & fs & ps' & -> & Hf & Hl & Hds & Hfew & Hnone);
    [done|done| |done| |done|].
  { intros k Hin. apply vi_lt, elem_of_app. by left. }
  { exists (if q_write q then 1 else 3). split; [done|]. destruct (q_write q); auto. }
  do 2 eexists. split; [done|]. split; [|done].
  split; try done; simpl.
  - destruct vi_lens. split; simpl; rewrite ?length_insert; simpl in *; congruence.
  - by apply NoDup_app in vi_nodup as (_ & _ & ?).
  - intros k Hin. apply vi_lt, elem_of_app. by right.
  - by apply NoDup_cons in vi_claims as [_ ?].
  - destruct vi_sub as [C0 HC]. exists C0. simpl in HC. by apply Permutation_cons_inv in HC.
  - intros b Hb. apply vi_buf. by right.
  - intros b b' y y' Hb Hb'. apply vi_blk; by right.
  - intros q' y Hq' Hy. destruct (vi_fmt q' y) as [G1 G2 G3 G4 G5]; [by right|done|].
    assert (∀ k, k ∈ idxs q' → ds !! k = desc d !! k) as Hd.
    { intros k Hin. apply Hds. by eapply busy_elem. }
    split; simpl; try (rewrite Hd by (unfold idxs; set_solver); done); try done.
    rewrite list_lookup_insert_ne; [done|]. intros He. apply (Hk (q_0 q)); [by left|].
    rewrite He. eapply busy_elem; [done|by left].
  - rewrite filter_cons_False in vi_queue by done. done.
  - intros q' y Hq'. apply vi_done. by right.
  - intros j Hj. destruct (Hnone j Hj) as [[= ->] Hj']. by destruct (running_awake ps j ChDiskFree).
  - intros j b Hj. apply Hfew in Hj. destruct (vi_sleep_buf j b Hj) as [Hb Hb1]. split; [|done].
    apply elem_of_cons in Hb as [->|]; [|done]. by destruct Hfl.
Qed.
End steps.
