(* ===== verification/VirtioSpec.v ===== *)
(** * What the virtio driver guarantees

    From the state [virtio_disk_init] leaves, in every interleaving of the
    processes, the handler and the device: no panic but the one for a request
    the device reports as failed, no lost wakeup, and every call returns after
    one transfer of its block. *)
From S2P Require Import Prelude Riscv Proc Bio Mem Kalloc Virtio VirtioInv VirtioSteps.

#[local] Arguments media_read : simpl never.

Section spec.
Context (V : Z) `{VirtioDevice}.

Lemma rqs_claims (l : list (option vpc)) q : q ∈ rqs l → q_b q ∈ claims l.
Proof.
  intros (o & Ho & Hq)%list_elem_of_omap. apply list_elem_of_omap. exists o. split; [done|].
  destruct o as [[]|]; by simplify_eq/=.
Qed.

Lemma core_enter R C d ps m l pe h b x :
  vcore R C d ps m l pe h → vbufs d !! b = Some x → buf_ok x →
  (∀ b' x', b' ∈ C → vbufs d !! b' = Some x' → b' ≠ b ∧ vb_blockno x' ≠ vb_blockno x) →
  vcore R (b :: C) d ps m l pe h.
Proof.
  intros Hc Hx Hok Hb. pose proof (vi_buf _ _ _ _ _ _ _ _ Hc) as Hbuf. destruct Hc. split; try done.
  - constructor; [|done]. intros Hin. destruct (Hbuf b Hin) as (y & Hy & _). by destruct (Hb b y Hin Hy).
  - destruct vi_sub as [C0 HC]. exists (b :: C0). by rewrite HC, Permutation_middle.
  - intros b' [->|Hin]%elem_of_cons; [by exists x|auto].
  - intros b1 b2 x1 x2 [->|Hin1]%elem_of_cons [->|Hin2]%elem_of_cons H1 H2 He; simplify_eq; [done| | |by eapply vi_blk].
    + by destruct (Hb b2 x2 Hin2 H2) as [_ []].
    + by destruct (Hb b1 x1 Hin1 H1) as [_ []].
  - intros i b' Hs. destruct (vi_sleep_buf i b' Hs). split; [by right|done].
Qed.

(** A request the driver no longer waits for has been transferred. *)
Lemma core_done R C d ps m l pe h q x :
  vcore R C d ps m l pe h → q ∈ R → vbufs d !! q_b q = Some x → disk_flag d (q_b q) ≠ 1 →
  block_at m (vb_blockno x) = vb_data x.
Proof.
  intros Hc Hq Hx Hfl. assert (q_0 q ∉ availq d l ++ pe ++ usedq d) as Hn.
  { intros Hin. destruct (core_head _ _ _ _ _ _ _ _ Hc (q_0 q) Hin) as (q' & Hq' & He & Hf).
    assert (q' = q) as ->; [|done].
    eapply (busy_same R); [apply (vi_nodup _ _ _ _ _ _ _ _ Hc)|done|done|by left|rewrite He; by left]. }
  destruct (vi_done _ _ _ _ _ _ _ _ Hc q x Hq Hx) as (s & _ & Hd & Hs); [set_solver|].
  apply Hd, Hs. set_solver.
Qed.

(** One part of [virtio_disk_rw]: it returns and keeps the invariant. *)
Lemma run_ok R C d ps m l pe i pc :
  vcore (option_list (rq_of pc) ++ R) (option_list (claim pc) ++ C) d ps m l pe None →
  (∀ q, q ∈ R → q_b q ∈ C) → running ps i → pc ≠ VDone →
  ∃ pc' d' ps', virtio_disk_rw V i pc (d, ps) = Ok (pc', (d', ps')) ∧
    vcore (option_list (rq_of pc') ++ R) (option_list (claim pc') ++ C) d' ps' m l pe None ∧
    (∀ b, b ∈ C → vbufs d' !! b = vbufs d !! b) ∧
    (∀ b, vb_data <$> vbufs d' !! b = vb_data <$> vbufs d !! b).
Proof.
  intros Hc HR Hrun Hpc.
  assert (∀ q, vcore (q :: R) (q_b q :: C) d ps m l pe None →
    ∃ pc' d' ps', rw_wait V i q (d, ps) = Ok (pc', (d', ps')) ∧
      vcore (option_list (rq_of pc') ++ R) (option_list (claim pc') ++ C) d' ps' m l pe None ∧ vbufs d' = vbufs d) as Hwait.
  { intros q Hq. destruct (decide (disk_flag d (q_b q) = 1)) as [Hf|Hf].
    - exists (VAsleepBuf q). unfold rw_wait. rewrite Hf. simpl. do 2 eexists. split; [done|]. split; [|done].
      apply core_sleep; [done|]. split; [by left|done].
    - destruct (core_finish V _ _ _ _ _ _ _ i q Hq Hrun Hf) as (d' & ps' & He & Hc' & Hb). by exists VDone, d', ps'. }
  destruct pc as [b w|b w|q|q|]; simpl in Hc; cbn [virtio_disk_rw fst snd]; [| | | |done].
  - destruct (vi_buf _ _ _ _ _ _ _ _ Hc b) as (x & Hx & Hok); [by left|]. rewrite Hx.
    pose proof (vi_claims _ _ _ _ _ _ _ _ Hc) as [HbC _]%NoDup_cons.
    destruct (alloc3_spec V (Some i) d ps (busy R) (vi_free _ _ _ _ _ _ _ _ Hc)) as (o & d1 & ps1 & He & Ho).
    rewrite He. cbn [mbind res_bind]. destruct o as [[[i0 i1] i2]|].
    + destruct Ho as (-> & Hnd & Hk & [fs ->] & Hf & Hn).
      set (q := mkRq b w i0 i1 i2).
      assert (vcore (q :: R) (b :: C) (rw_submit q (u32 (vb_blockno x * (BSIZE / 512))) (set_descs (desc d) fs d))
        ps m l pe None) as Hsub.
      { apply core_submit; try done; [by left|]. intros (q' & Hq' & Hin)%list_elem_of_fmap.
        simpl in Hq'. apply HbC. rewrite Hq'. auto. }
      set (d' := rw_submit q _ _) in *.
      assert (vbufs d' = alter (set_vb_disk 1) b (vbufs d)) as Hvb by done.
      assert (disk_flag d' b = 1) as Hf1.
      { unfold disk_flag. rewrite Hvb, alter_vb_lookup, decide_True, Hx by done. done. }
      clearbody d'. exists (VAsleepBuf q). do 2 eexists. split.
      { unfold rw_wait. change (q_b q) with b. rewrite Hf1. cbn. reflexivity. }
      split; [apply core_sleep; [exact Hsub|]; split; [by left|done]|]. split.
      * intros b' Hb'. rewrite Hvb, alter_vb_lookup, decide_False; [done|]. by intros ->.
      * intros b'. rewrite Hvb, alter_vb_lookup. case_decide; [|done]. by destruct (vbufs d !! b').
    + destruct Ho as (Hlt & Hn & Hf & Hfew & ds & fs & -> & Hl & Hds).
      exists (VAsleepFree b w). do 2 eexists. split; [done|]. split; [|done].
      apply core_sleep; [|by rewrite Hn]. eapply core_ps; [by apply penv_fewer|]. apply core_descs; auto.
  - exists (VAlloc b w). do 2 eexists. split; [done|]. split; [|done]. eapply core_ps; [apply asleep_end|done].
  - destruct (Hwait q Hc) as (pc' & d' & ps' & He & Hc' & Hb). exists pc', d', ps'. by rewrite Hb.
  - exists (VWait q). do 2 eexists. split; [done|]. split; [|done]. eapply core_ps; [apply asleep_end|done].
Qed.

Lemma pcs_split (pcs : list (option vpc)) i o : pcs !! i = Some o →
  ∃ R C, (∀ q, q ∈ R → q_b q ∈ C) ∧
    rqs pcs ≡ₚ option_list (o ≫= rq_of) ++ R ∧ claims pcs ≡ₚ option_list (o ≫= claim) ++ C ∧
    ∀ o', rqs (<[i := o']> pcs) ≡ₚ option_list (o' ≫= rq_of) ++ R ∧
      claims (<[i := o']> pcs) ≡ₚ option_list (o' ≫= claim) ++ C.
Proof.
  intros Hi. assert (i < length pcs)%nat by by eapply lookup_lt_Some.
  exists (rqs (delete i pcs)), (claims (delete i pcs)). split_and!.
  - apply rqs_claims.
  - by apply omap_delete.
  - by apply omap_delete.
  - intros o'. split; by apply omap_insert.
Qed.

Lemma vinv_run d ps pcs m l pe i pc :
  vinv (mkV d ps pcs m l pe None) → pcs !! i = Some (Some pc) → running ps i → pc ≠ VDone →
  ∃ pc' d' ps', virtio_disk_rw V i pc (d, ps) = Ok (pc', (d', ps')) ∧
    vinv (mkV d' ps' (<[i := Some pc']> pcs) m l pe None) ∧
    (∀ b, vb_data <$> vbufs d' !! b = vb_data <$> vbufs d !! b).
Proof.
  intros Hc Hi Hrun Hpc. destruct (pcs_split pcs i _ Hi) as (R & C & HRC & HR & HC & Hins).
  destruct (run_ok R C d ps m l pe i pc) as (pc' & d' & ps' & He & Hc' & _ & Hdat); [|done..|].
  { eapply vcore_perm; [exact HR|exact HC|exact Hc]. }
  exists pc', d', ps'. split; [done|]. split; [|done]. destruct (Hins (Some pc')) as [HR' HC'].
  eapply vcore_perm; [symmetry; exact HR'|symmetry; exact HC'|exact Hc'].
Qed.

Lemma vinv_serve d ps pcs m l pe pe' h k d' m' :
  vinv (mkV d ps pcs m l pe h) → pe ≡ₚ k :: pe' → serve k (d, m) (d', m') →
  vinv (mkV d' ps pcs m' l pe' h) ∧
  ∃ q x b st, q ∈ rqs pcs ∧ disk_flag d (q_b q) = 1 ∧ vbufs d !! q_b q = Some x ∧
    vbufs d' = (moved_to b q x d m).1 ∧ m' = (moved_to b q x d m).2 ∧
    info_status d' !! q_0 q = Some st ∧ (st = 0 → b = wanted q x m).
Proof.
  unfold vinv. simpl. intros Hc Hpe Hs.
  destruct (core_head _ _ _ _ _ _ _ _ Hc k) as (q & Hq & Hk & Hf).
  { rewrite Hpe. set_solver. }
  destruct (core_buf _ _ _ _ _ _ _ _ Hc q Hq) as (x & Hx & Hok & Hfmt).
  destruct (serve_law _ _ _ _ _ (req_of q x) (q_b q) (q_1 q) (q_2 q) Hs) as (len & st & b & Hlb & Hst & He).
  { rewrite <-Hk. by apply fmt_chain. }
  rewrite requested_eq in Hst by done.
  pose proof (core_serve _ _ _ _ _ _ _ pe' _ k q x len st b Hc Hpe Hq Hk Hx Hlb Hst) as Hc'. rewrite <-He in Hc'.
  split; [exact Hc'|]. exists q, x, b, st. rewrite <-Hk, served_eq in He by done. injection He as -> ->.
  split_and!; try done. simpl. apply list_lookup_insert_eq. rewrite (vl_status _ (vi_lens _ _ _ _ _ _ _ _ Hc)).
  apply (vi_lt _ _ _ _ _ _ _ _ Hc). eapply busy_elem; [done|by left].
Qed.

Lemma vinv_step c c' : vinv c → vstep V c c' → vinv c'.
Proof.
  intros Hc Hst. destruct Hst as [d ps pcs m l pe h i b w x Hi Hrun Hx Hok Hb
    |d ps pcs m l pe i pc pc' d' ps' Hi Hrun Hpc He|d ps pcs m l pe h i Hi|d ps pcs m l pe me Hme
    |d ps pcs m l pe me d' ps' Hne He|d ps pcs m l pe me Hu|d ps pcs m l pe h Hl
    |d ps pcs m l pe pe' h k d' m' Hpe Hs|d ps pcs m l pe h ps' bs Hp Hb].
  - destruct (pcs_split pcs i _ Hi) as (R & C & _ & HR & HC & Hins). destruct (Hins (Some (VAlloc b w))) as [HR' HC'].
    eapply vcore_perm; [| |eapply core_enter; [exact Hc|exact Hx|done|done]]; simpl in *; [by rewrite HR', HR|by rewrite HC', HC].
  - destruct (vinv_run _ _ _ _ _ _ _ _ Hc Hi Hrun Hpc) as (pc1 & d1 & ps1 & He1 & Hc1 & _).
    rewrite He in He1. by injection He1 as <- <- <-.
  - destruct (pcs_split pcs i _ Hi) as (R & C & _ & HR & HC & Hins). destruct (Hins None) as [HR' HC'].
    eapply vcore_perm; [| |exact Hc]; simpl in *; [by rewrite HR', HR|by rewrite HC', HC].
  - by apply core_ack.
  - assert (vcore (rqs pcs) (claims pcs) d ps m l pe (Some me)) as Hc0 by exact Hc.
    destruct (core_turn V _ _ _ _ _ _ _ _ Hc0 Hne) as [(d1 & ps1 & k & He1 & Hc1 & _)|[He1 _]];
      rewrite He in He1; [by injection He1 as <- <-|done].
  - by eapply core_iret.
  - by apply core_take.
  - by destruct (vinv_serve _ _ _ _ _ _ _ _ _ _ _ Hc Hpe Hs).
  - eapply core_env; [by eapply core_ps|done].
Qed.

(** An entry of the used ring for a request that failed. *)
Definition failed (d : vdisk) : Prop := ∃ k s, k ∈ usedq d ∧ info_status d !! k = Some s ∧ s ≠ 0.

(** The loop of the handler ends, within [NUM] turns. *)
Lemma intr_loop_ok f R C d ps m l pe me :
  vcore R C d ps m l pe (Some me) → (length (usedq d) <= f)%nat →
  (∃ d' ps', intr_loop V f me (d, ps) = Ok (d', ps') ∧ vcore R C d' ps' m l pe (Some me) ∧ used_idx d' = used_pos d') ∨
  (intr_loop V f me (d, ps) = Panic "virtio_disk_intr status" ∧ failed d).
Proof.
  revert d ps. induction f as [|f IH]; intros d ps Hc Hl; cbn [intr_loop fst];
    (destruct (Z.eqb_spec (used_idx d) (used_pos d)); [left; by exists d, ps|]).
  - destruct (core_turn V _ _ _ _ _ _ _ _ Hc) as [(d1 & ps1 & k & _ & _ & Hu & _)|[_ (k & s & Hk & _)]]; [done|..].
    + rewrite Hu in Hl. simpl in Hl. lia.
    + destruct (usedq d); [by apply elem_of_nil in Hk|simpl in Hl; lia].
  - destruct (core_turn V _ _ _ _ _ _ _ _ Hc) as [(d1 & ps1 & k & He & Hc1 & Hu & _ & Hst)|[He Hf]]; [done|..].
    + rewrite He. destruct (IH d1 ps1 Hc1) as [Hok|[Hp (k' & s & Hk' & Hs & Hz)]]; [rewrite Hu in Hl; simpl in Hl; lia|by left|].
      right. split; [done|]. exists k', s. rewrite Hu, <-Hst. split_and!; [by right|done|done].
    + right. rewrite He. done.
Qed.

(** ** From the state [virtio_disk_init] leaves *)
Definition vstart (bs : list vbuf) (ps : list proc) (n : nat) (m : mem) : vcfg :=
  mkV (vdisk0 bs) ps (replicate n None) m 0 [] None.

Definition none_asleep (ps : list proc) : Prop := ∀ i ch, disk_chan ch → ¬ asleep ps i ch.

Lemma omap_none {A B} (f : option A → option B) n : f None = None → omap f (replicate n None) = [].
Proof. intros Hf. induction n as [|n IH]; simpl; [done|]. by rewrite Hf. Qed.

Lemma vstart_inv bs ps n m : none_asleep ps → vinv (vstart bs ps n m).
Proof.
  intros Hps. unfold vinv, vstart, rqs, claims. simpl. rewrite !omap_none by done.
  split; try done; try (intros; exfalso; set_solver).
  all: try (simpl; unfold idx_ok; lia).
  all: try (by constructor).
  - split; [done|]. intros k Hk. rewrite decide_False by set_solver. by apply lookup_replicate_2.
  - by exists [].
  - intros i Hi. by destruct (Hps i ChDiskFree I).
  - intros i b Hi. by destruct (Hps i (ChBuf b) I).
Qed.

Lemma vreach_inv bs ps n m c : none_asleep ps → rtc (vstep V) (vstart bs ps n m) c → vinv c.
Proof.
  intros Hps Hr. eapply (rtc_invariant (vstep V) vinv); [intros; by eapply vinv_step|exact Hr|by apply vstart_inv].
Qed.

(** C24: in every interleaving of processes, interrupt handler and device,
    [virtio_disk_rw] returns from each of its parts: no panic of [free_desc] is
    reached. The handler finishes within [NUM] turns, having seen every entry of
    the used ring, unless the device has reported a failed request, a nonzero
    status of an entry not yet seen: this is the only way to its panic. *)
Theorem virtio_safe bs ps n m c :
  none_asleep ps → rtc (vstep V) (vstart bs ps n m) c → vhandler c = None →
  (∀ i pc, vpcs c !! i = Some (Some pc) → running (vps c) i → pc ≠ VDone →
     ∃ pc' st', virtio_disk_rw V i pc (vd c, vps c) = Ok (pc', st')) ∧
  (∀ me, (∀ i, me = Some i → running (vps c) i) →
     (∃ d' ps', virtio_disk_intr V me (vd c, vps c) = Ok (d', ps') ∧ used_idx d' = used_pos d') ∨
     (virtio_disk_intr V me (vd c, vps c) = Panic "virtio_disk_intr status" ∧ failed (vd c))).
Proof.
  intros Hps Hr Hh. pose proof (vreach_inv _ _ _ _ _ Hps Hr) as Hc. destruct c as [d ps' pcs m' l pe h].
  simpl in *. subst h. split.
  - intros i pc Hi Hrun Hpc. destruct (vinv_run _ _ _ _ _ _ _ _ Hc Hi Hrun Hpc) as (pc' & d' & ps1 & He & _). eauto.
  - intros me Hme. assert (vcore (rqs pcs) (claims pcs) d ps' m' l pe None) as Hc0 by exact Hc.
    pose proof (core_ack _ _ _ _ _ _ _ _ Hc0 Hme) as Hc1. pose proof (core_queues _ _ _ _ _ _ _ _ Hc1).
    destruct (intr_loop_ok NUM _ _ _ _ _ _ _ _ Hc1) as [(d' & ps1 & He & _ & Hu)|[He Hf]]; [unfold NUM; lia|..].
    + left. exists d', ps1. split; [exact He|done].
    + right. split; [exact He|exact Hf].
Qed.

(** C17: no wakeup and no completion is lost: a process sleeps for descriptors
    only while fewer than three are free, and for a buffer only while the
    transfer is not acknowledged; every request that is waited for is in exactly
    one of the available ring, the device and the used ring; and while the used
    ring has entries the driver has not seen, an interrupt is pending or the
    handler is running. *)
Theorem virtio_no_lost_wakeup bs ps n m c :
  none_asleep ps → rtc (vstep V) (vstart bs ps n m) c →
  (∀ i, asleep (vps c) i ChDiskFree → nfree (vd c) < 3) ∧
  (∀ i b, asleep (vps c) i (ChBuf b) → disk_flag (vd c) b = 1) ∧
  NoDup (availq (vd c) (vlast c) ++ vpending c ++ usedq (vd c)) ∧
  (∀ q, q ∈ rqs (vpcs c) → disk_flag (vd c) (q_b q) = 1 →
     q_0 q ∈ availq (vd c) (vlast c) ++ vpending c ++ usedq (vd c)) ∧
  (used_idx (vd c) ≠ used_pos (vd c) → Z.testbit (vintr (vd c)) 0 = true ∨ is_Some (vhandler c)).
Proof.
  intros Hps Hr. pose proof (vreach_inv _ _ _ _ _ Hps Hr) as Hc.
  split_and!.
  - apply (vi_sleep_free _ _ _ _ _ _ _ _ Hc).
  - intros i b Hi. by apply (vi_sleep_buf _ _ _ _ _ _ _ _ Hc) in Hi as [_ ?].
  - apply (core_heads_nodup _ _ _ _ _ _ _ _ Hc).
  - intros q Hq Hf. rewrite <-(vi_queue _ _ _ _ _ _ _ _ Hc). apply list_elem_of_fmap. exists q.
    split; [done|]. by apply list_elem_of_filter.
  - apply (vi_intr _ _ _ _ _ _ _ _ Hc).
Qed.

(** C16: a call of [virtio_disk_rw] is one atomic transfer of its block: a step of
    the system either leaves the medium and the data of every buffer in use
    alone, or is the device serving one request in flight, which changes only
    its buffer (a read) or its block (a write) and, if the device reports
    success, is the whole transfer; and when a process finds its request done,
    block and buffer are equal, whatever the device reports of requests. *)
Theorem virtio_transfer bs ps n m c :
  none_asleep ps → rtc (vstep V) (vstart bs ps n m) c →
  (∀ c', vstep V c c' →
     (vmedia c' = vmedia c ∧ ∀ b, b ∈ claims (vpcs c) → vb_data <$> vbufs (vd c') !! b = vb_data <$> vbufs (vd c) !! b) ∨
     ∃ q x b st, q ∈ rqs (vpcs c) ∧ disk_flag (vd c) (q_b q) = 1 ∧ vbufs (vd c) !! q_b q = Some x ∧
       (vbufs (vd c'), vmedia c') = moved_to b q x (vd c) (vmedia c) ∧ info_status (vd c') !! q_0 q = Some st ∧
       (st = 0 → (vbufs (vd c'), vmedia c') = moved q x (vd c) (vmedia c))) ∧
  (∀ i q x, vpcs c !! i = Some (Some (VWait q)) → vbufs (vd c) !! q_b q = Some x →
     disk_flag (vd c) (q_b q) ≠ 1 → block_at (vmedia c) (vb_blockno x) = vb_data x).
Proof.
  intros Hps Hr. pose proof (vreach_inv _ _ _ _ _ Hps Hr) as Hc. split.
  - intros c' Hst. destruct Hst as [| d ps1 pcs m1 l pe i pc pc' d' ps' Hi Hrun Hpc He| |
      |d ps1 pcs m1 l pe me d' ps' Hne He| | |d ps1 pcs m1 l pe pe' h k d' m' Hpe Hs|d ps1 pcs m1 l pe h ps' bs' Hp Hb];
      simpl in *; try (by left).
    + left. split; [done|]. intros b _.
      destruct (vinv_run _ _ _ _ _ _ _ _ Hc Hi Hrun Hpc) as (pc1 & d1 & ps2 & He1 & _ & Hd).
      rewrite He in He1. injection He1 as <- <- <-. apply Hd.
    + left. split; [done|]. intros b _. unfold intr_body in He.
      repeat case_match; simplify_eq. simpl. rewrite alter_vb_lookup. case_decide; [|done]. by destruct (vbufs d !! b).
    + right. destruct (vinv_serve _ _ _ _ _ _ _ _ _ _ _ Hc Hpe Hs) as (_ & q & x & b & st & Hq & Hf & Hx & Hv & Hm & Hst & Hb).
      exists q, x, b, st. assert ((vbufs d', m') = moved_to b q x d m1) as He.
      { rewrite Hv, Hm. by destruct (moved_to b q x d m1). }
      split_and!; [done|done|done|done|done|]. intros Hz. rewrite He. unfold moved. by rewrite Hb.
    + left. split; [done|]. intros b Hin. by rewrite Hb.
  - intros i q x Hi Hx Hf. eapply core_done; [exact Hc| |done|done].
    apply list_elem_of_omap. exists (Some (VWait q)). split; [by eapply list_elem_of_lookup_2|done].
Qed.
End spec.
