(* ===== verification/VirtioExample.v ===== *)
(** * The virtio driver with one process

    A device that serves well-formed chains, and a process that writes block 3
    through the queues, the interrupt and back. *)
From S2P Require Import Prelude Riscv Proc Bio Mem Kalloc Virtio VirtioInv VirtioSteps VirtioSpec Sleeplock.

(** The request and the buffer of the chain at [h]. *)
Definition chain_find (d : vdisk) (h : nat) : option (vreq * nat) :=
  match desc d !! h with
  | Some (mkDesc (AOp i) _ _ n) =>
      match ops d !! i, desc d !! Z.to_nat n with
      | Some r, Some (mkDesc (AData b) _ _ _) => Some (r, b)
      | _, _ => None
      end
  | _ => None
  end.

#[local] Instance dev : VirtioDevice.
Proof.
  refine {| serve h x y :=
    match chain_find x.1 h with
    | Some (r, b) => y = served h r b BSIZE 0 (requested r b x.1 x.2) x.1 x.2 ∧
        length (requested r b x.1 x.2) = Z.to_nat BSIZE
    | None => False
    end |}.
  intros h d m d' m' r b i1 i2 Hs [(i & H0 & Hr) [H1 _]]. unfold chain_find in Hs. simpl in Hs.
  rewrite H0, Hr, Nat2Z.id, H1 in Hs. destruct Hs as [Hs Hl]. by exists BSIZE, 0, (requested r b d m).
Defined.

Definition vb0 : vbuf := mkVBuf 3 (replicate (Z.to_nat BSIZE) 7) 0.
Definition procs : list proc := [slproc].
Definition c0 : vcfg := vstart [vb0] procs 1 ∅.

(** One step of each kind, computed. *)
Definition do_enter (w : bool) (c : vcfg) : vcfg :=
  mkV (vd c) (vps c) [Some (VAlloc 0 w)] (vmedia c) (vlast c) (vpending c) (vhandler c).
Definition do_run (c : vcfg) : vcfg :=
  match vpcs c !! 0%nat with
  | Some (Some pc) =>
      match virtio_disk_rw 6 0 pc (vd c, vps c) with
      | Ok (pc', (d', ps')) => mkV d' ps' [Some pc'] (vmedia c) (vlast c) (vpending c) None
      | _ => c
      end
  | _ => c
  end.
Definition do_take (c : vcfg) : vcfg :=
  mkV (vd c) (vps c) (vpcs c) (vmedia c) (u16 (vlast c + 1))
    (Z.to_nat (aget (avail_ring (vd c)) (vlast c mod Z.of_nat NUM)) :: vpending c) (vhandler c).
Definition do_serve (c : vcfg) : vcfg :=
  match vpending c with
  | k :: pe =>
      match chain_find (vd c) k with
      | Some (r, b) => let '(d', m') := served k r b BSIZE 0 (requested r b (vd c) (vmedia c)) (vd c) (vmedia c) in
          mkV d' (vps c) (vpcs c) m' (vlast c) pe (vhandler c)
      | None => c
      end
  | [] => c
  end.
Definition do_intr (c : vcfg) : vcfg :=
  match intr_body 6 None (intr_ack (vd c), vps c) with
  | Ok (d', ps') => mkV d' ps' (vpcs c) (vmedia c) (vlast c) (vpending c) None
  | _ => c
  end.
(** The scheduler runs the process again. *)
Definition do_sched (c : vcfg) : vcfg :=
  mkV (vd c) procs (vpcs c) (vmedia c) (vlast c) (vpending c) (vhandler c).

Definition c1 : vcfg := do_run (do_enter true c0).          (* asleep for the buffer *)
Definition c2 : vcfg := do_serve (do_take c1).
Definition c3 : vcfg := do_run (do_sched (do_intr c2)).     (* awake, before the test *)

(** Each of them is a step. *)
Definition is_ok {A} (r : res A) : bool := match r with Ok _ => true | _ => false end.
Definition awake (c : vcfg) : bool :=
  match vps c !! 0%nat with Some p => bool_decide (state p = RUNNING) | None => false end.

Definition is_done (pc : vpc) : bool := match pc with VDone => true | _ => false end.

Lemma do_run_step c pc : vpcs c = [Some pc] → vhandler c = None → awake c = true → is_done pc = false →
  is_ok (virtio_disk_rw 6 0 pc (vd c, vps c)) = true → vstep 6 c (do_run c).
Proof.
  destruct c as [d ps pcs m l pe h]. unfold do_run, awake. simpl vd. simpl vps. simpl vpcs. simpl vhandler. simpl vmedia.
  intros -> -> Ha Hpc Hok. simpl lookup. cbv iota.
  destruct (virtio_disk_rw 6 0 pc (d, ps)) as [[pc' [d' ps']]| |] eqn:He; [|done|done].
  apply (vs_run 6 d ps [Some pc] m l pe 0 pc pc' d' ps'); [done| |by intros ->|exact He].
  destruct (ps !! 0%nat) as [p|] eqn:Hp; [|done]. exists p. split; [done|]. by apply bool_decide_eq_true in Ha.
Qed.

Lemma do_serve_step c k pe : vpending c = k :: pe →
  (∀ r b, chain_find (vd c) k = Some (r, b) → length (requested r b (vd c) (vmedia c)) = Z.to_nat BSIZE) →
  vstep 6 c (do_serve c) ∨ do_serve c = c.
Proof.
  destruct c as [d ps pcs m l pe' h]. unfold do_serve. simpl vd. simpl vpending. simpl vmedia. intros -> Hlen.
  destruct (chain_find d k) as [[r b]|] eqn:Hf; [|by right]. left. specialize (Hlen r b eq_refl).
  destruct (served k r b BSIZE 0 (requested r b d m) d m) as [d' m'] eqn:Hs.
  apply (vs_serve 6 _ _ _ _ _ _ pe _ k); [done|]. simpl. by rewrite Hf.
Qed.

Lemma do_intr_steps c : vhandler c = None → used_idx (vd c) ≠ used_pos (vd c) →
  used_idx (vd (do_intr c)) = used_pos (vd (do_intr c)) → rtc (vstep 6) c (do_intr c).
Proof.
  destruct c as [d ps pcs m l pe h]. unfold do_intr. cbn [vd vps vpcs vmedia vlast vpending vhandler]. intros -> Hne.
  destruct (intr_body 6 None (intr_ack d, ps)) as [[d' ps']| |] eqn:He; [|done..]. cbn [vd]. intros Hu.
  eapply rtc_l; [by apply (vs_intr 6 d ps pcs m l pe None)|].
  eapply rtc_l; [eapply vs_turn; [|exact He]; exact Hne|].
  eapply rtc_l; [by apply vs_iret|]. apply rtc_refl.
Qed.

Lemma enter_ok : vstep 6 c0 (do_enter true c0).
Proof.
  apply (vs_enter 6 (vdisk0 [vb0]) procs [None] ∅ 0 [] None 0 0 true vb0); [done| |done| |].
  - by exists slproc.
  - split; [simpl; lia|]. apply length_replicate.
  - intros b' x' Hb. by apply elem_of_nil in Hb.
Qed.

Lemma do_take_step c : vlast c ≠ avail_idx (vd c) → vstep 6 c (do_take c).
Proof. destruct c. apply vs_take. Qed.

Lemma do_sched_step c : vstep 6 c (do_sched c).
Proof.
  destruct c as [d ps pcs m l pe h]. unfold do_sched. cbn [vd vps vpcs vmedia vlast vpending vhandler].
  assert (d = set_vbufs (vbufs d) d) as Hd by (by destruct d). rewrite Hd at 2. apply vs_env; [|done].
  intros i ch _ (p & Hp & Hs & _). destruct i as [|i]; [|done]. injection Hp as <-. discriminate Hs.
Qed.

Lemma to_c1 : vstep 6 (do_enter true c0) c1.
Proof. apply (do_run_step _ (VAlloc 0 true)); by vm_compute. Qed.
Lemma to_c2 : vstep 6 (do_take c1) c2.
Proof.
  assert (vpending (do_take c1) = [0%nat]) as Hp by (by vm_compute).
  destruct (do_serve_step (do_take c1) 0 [] Hp) as [Hs|Hs]; [|exact Hs|].
  { assert (chain_find (vd (do_take c1)) 0 = Some (mkReq 1 0 6, 0%nat)) as Hf by (by vm_compute).
    rewrite Hf. intros r b [= <- <-]. by vm_compute. }
  exfalso. assert (vpending (do_serve (do_take c1)) = []) as He by (by vm_compute). congruence.
Qed.
Lemma to_c3 : vstep 6 (do_sched (do_intr c2)) c3.
Proof.
  assert (∃ q, vpcs (do_sched (do_intr c2)) = [Some (VAsleepBuf q)]) as [q Hq] by (eexists; by vm_compute).
  apply (do_run_step _ (VAsleepBuf q)); [exact Hq|by vm_compute|by vm_compute|done|done].
Qed.

Lemma steps3 : rtc (vstep 6) c0 c3.
Proof.
  eapply rtc_l; [apply enter_ok|]. eapply rtc_l; [apply to_c1|].
  eapply rtc_l; [apply do_take_step; by vm_compute|]. eapply rtc_l; [apply to_c2|].
  etrans; [apply do_intr_steps; by vm_compute|].
  eapply rtc_l; [apply do_sched_step|]. eapply rtc_l; [apply to_c3|]. apply rtc_refl.
Qed.

Lemma procs_awake : none_asleep procs.
Proof. intros i ch _ (p & Hp & Hs & _). destruct i as [|i]; [|done]. injection Hp as <-. discriminate Hs. Qed.

(** The written block is on the medium when the call is about to return. *)
Lemma virtio_transfer_witness : block_at (vmedia c3) 3 = replicate (Z.to_nat BSIZE) 7.
Proof.
  assert (∃ q, vpcs c3 !! 0%nat = Some (Some (VWait q)) ∧ q_b q = 0%nat) as (q & Hq & Hb)
    by (eexists; split; by vm_compute).
  assert (disk_flag (vd c3) (q_b q) ≠ 1) as Hf by (rewrite Hb; by vm_compute).
  assert (vbufs (vd c3) !! q_b q = Some vb0) as Hx by (rewrite Hb; by vm_compute).
  exact (proj2 (virtio_transfer 6 [vb0] procs 1 ∅ c3 procs_awake steps3) 0%nat q vb0 Hq Hx Hf).
Defined.

Lemma virtio_safe_witness : ∃ pc' st', virtio_disk_rw 6 0 (VAlloc 0 true) (vd (do_enter true c0), procs) = Ok (pc', st').
Proof.
  assert (rtc (vstep 6) c0 (do_enter true c0)) as Hr by (eapply rtc_l; [apply enter_ok|apply rtc_refl]).
  assert (running procs 0) as Hrun by (by exists slproc).
  exact (proj1 (virtio_safe 6 [vb0] procs 1 ∅ _ procs_awake Hr eq_refl) 0%nat (VAlloc 0 true) eq_refl Hrun
    ltac:(discriminate)).
Defined.

(** After the device has served the request and before the handler runs. *)
Lemma virtio_no_lost_wakeup_witness : usedq (vd c2) = [0%nat] ∧ Z.testbit (vintr (vd c2)) 0 = true.
Proof.
  split; [by vm_compute|].
  assert (rtc (vstep 6) c0 c2) as Hr.
  { eapply rtc_l; [apply enter_ok|]. eapply rtc_l; [apply to_c1|].
    eapply rtc_l; [apply do_take_step; by vm_compute|]. eapply rtc_l; [apply to_c2|apply rtc_refl]. }
  destruct (virtio_no_lost_wakeup 6 [vb0] procs 1 ∅ c2 procs_awake Hr) as (_ & _ & _ & _ & Hi).
  destruct Hi as [Hi|[x Hx]]; [by vm_compute|exact Hi|].
  exfalso. assert (vhandler c2 = None) as Hn by (by vm_compute). congruence.
Defined.
